(* ===== verification/_CoqProject ===== *)
-Q . S2P
Prelude.v
Calendar.v
CalendarThms.v
Rtc.v
RtcThms.v
Clock.v
ClockThms.v
Links.v
Queue.v
QueueSq.v
QueueThms.v
MmHeap.v
MmApi.v
MmInv.v
MmSteps.v
MmOps.v
MmSpec.v
MmInit.v
MmThms.v
MmBlocks.v
Wdog.v
WdogInv.v
WdogSpec.v
WdogTimer.v
WdogThms.v
WdogSys.v
Sched.v
Sem.v
SchedList.v
SchedInv.v
SchedOps.v
SchedMerge.v
SchedSwitch.v
SchedKernel.v
SchedApi.v
SchedEntry.v
SchedPrio.v
SchedSlice.v
SemInv.v
SemSpec.v
SchedMembers.v
Kernel.v
KernelThms.v
System.v
SystemInv.v
SystemTick.v
SystemOps.v
SystemSem.v
SystemRun.v
SystemHeap.v
SystemThms.v
Ubx.v
UbxInv.v
UbxFrame.v
UbxSpec.v
UbxStream.v
UbxSend.v
UbxHeap.v
UbxDemo.v
UbxThms.v
Sms.v
SmsUtf8.v
SmsPdu.v
SmsThms.v
SmsSend.v
SmsSession.v
SmsSendThms.v
EngValue.v
Engine.v
EngineInv.v
EngineCause.v
EngineTrack.v
EngineMove.v
EngineSay.v
EngineSpec.v
EngineReact.v
EngineRun.v
EngineDemo.v
EngineDeliver.v
EngineThms.v
