(* ===== verification/Prelude.v ===== *)
(** * A verification library for the Thingsee OS SDK

    The Thingsee OS is the NuttX real-time kernel (src/nuttx) with the
    applications of a battery-powered tracker (src/apps).  This library models
    the parts of the kernel that everything else rests on, the GPS driver and the
    short messages on top of them, and the rule engine of the tracker, as
    programs over explicit state, and proves what makes them correct.  The
    configuration is the one of the product,
    src/nuttx/configs/haltian-tsone/retail/defconfig: 32-bit ARM, assertions
    on (CONFIG_DEBUG), one heap region, round robin scheduling, a periodic
    timer tick, no priority inheritance.

    ** The parts and how they interact

    - libc/queue: singly (sq) and doubly (dq) linked queues, used by all others.
    - mm/mm_heap: the memory manager.  Chunks tile a region; the free ones are
      on a doubly linked list ordered by size, guarded by a counting semaphore.
    - sched/wdog: watchdog timers, an sq list of differences driven by the tick.
    - sched/sched with the context switches of arch/arm/src/armv7-m: the task
      lists (dq), priorities, the preemption lock, time slices, errno, CPU load.
    - sched/semaphore: counting semaphores on the scheduler.
    - libc/time, the RTC driver of arch/arm/src/stm32 and sched/clock: calendar
      dates, the registers of the real-time clock, and the system clocks built
      on the tick counter, with their correction after deep sleep.
    - The system: the tick (sched_process_timer) drives clock, CPU load,
      watchdogs and time slices, and sem_timedwait uses all of them: it takes a
      watchdog, converts a time to ticks, and sleeps on a semaphore until a
      sem_post or the watchdog's sem_timeout wakes it.
    - apps/system/ubgps: the u-blox GPS driver: the UBX protocol, its timers and
      poll loop, NMEA lines and event callbacks, on memory, clock and serial line.
    - apps/system/ubmodem: the short messages of the u-blox modem driver:
      ubmodem_pdu_util.c turns UTF-8 text and phone numbers into PDUs in
      hexadecimal, and ubmodem_sms_send.c sends them, one handler of a reply of
      the modem after the other.
    - apps/ts_engine/engine: the Thingsee engine.  A profile is a tree of
      purposes, states, events and causes; execute.c measures the causes of the
      current state and of the global states (timers and requests of sense.c),
      checks each value against thresholds and geofences (geofence.c), and when
      all causes of an event are triggered it reports, sends a short message
      within limits, or goes to another state or purpose.

    ** How the code is modelled

    A function of the source is a computation [M S A] below: it maps a state to
    a result and a new state ([Done]), or blocks the calling task ([Blocked]),
    or faults ([Fault]).  A fault is an access outside the memory that is
    mapped, a failed assertion, an index out of range, or a loop that uses up
    its fuel, so that [returns e s Q], total correctness, also says that none
    of these happens.  The loops over linked lists have the size of memory as
    their fuel, which a list without cycles cannot use up; ubx_msg_receive has
    two rounds; the engine's walk along a queue of causes takes its fuel as an
    argument (one more than the causes of the state is enough), and a date timer
    steps over at most as many dates as seconds have passed since its last one;
    __ubgps_full_write, ubgps_receiver and gps_poll_event, which the outside
    world can keep going, take their fuel as an argument.
    Integers are [Z], wrapped at their C width where the code can reach it
    ([u8], [u16], [u32], [s16], [s32]).  Links and headers of lists are words
    of memory at the offsets the compiler uses; the other fields of TCBs,
    watchdogs and semaphores are records under the address of the object.
    Interrupts are disabled inside the kernel routines, so each is one step;
    where a routine switches to another task its result says what is left to
    do when the task runs again ([Suspended]).

    ** The files

    - [Prelude]: computations, [returns], automation for memory and list goals.
    - [Calendar], [CalendarThms]: libc/time, against a day-by-day calendar;
      [Rtc], [RtcThms]: stm32_rtcc.c, register access by register access;
      [Clock], [ClockThms]: sched/clock/*.c, what the clocks show, in
      nanoseconds.
    - [Links]: segments of linked lists in memory.
    - [Queue], [QueueSq]: libc/queue/*.c; [QueueThms]: every sequence of queue
      operations refines the list operations.
    - [MmHeap] (chunk level: mm_addfreechunk.c, mm_size2ndx.c, mm_shrinkchunk.c
      and the chunk parts of mm_malloc.c and mm_free.c), [MmApi] (the functions
      of mm/mm_heap with the semaphore of mm_sem.c); [MmInv], [MmSteps],
      [MmOps], [MmSpec], [MmInit]: the invariant and each operation;
      [MmThms]: malloc and free refine a best-fit allocator on the chunk list
      and undo each other, initialization, realloc in place, zalloc, mallinfo,
      mutual exclusion, and the sizes at which the code goes wrong;
      [MmBlocks]: the laws of the blocks that a client holds.
    - [Wdog]: sched/wdog/*.c; [WdogInv], [WdogSpec], [WdogTimer]: the list
      represents a timeline of expiry times; [WdogThms]: wd_start, wd_cancel,
      wd_gettime and the tick against the timeline, on time to the tick;
      [WdogSys]: the pool of free watchdogs, and timeline, pool and allocator (class [AllocLaws]) in one invariant, kept by every operation.
    - [Sched]: sched/sched/*.c, the up_ routines of arch/arm/src/armv7-m and
      sched/errno; [Sem]: sched/semaphore/*.c.  [SchedList], [SchedInv]: the
      task lists and their invariant; [SchedOps], [SchedMerge], [SchedSwitch],
      [SchedKernel], [SchedApi], [SchedEntry], [SchedPrio], [SchedSlice]: the
      scheduler from the list operations up to the entry points; [SemInv],
      [SemSpec]: semaphores; [SchedMembers]: no call gains or loses
      a task or changes a PID; [Kernel]: the kernel as a step
      relation; [KernelThms]: in every reachable state the processor runs a
      ready task of highest priority and the semaphore counts are the numbers
      of waiters; the entry points one by one.
    - [System]: sem_timedwait.c and sched_process_timer over the kernel, the
      clock and the watchdogs.  [SystemInv]: the table of PIDs, what a task that
      waits is, and sem_timeout; [SystemTick]: the tick, and the invariant
      [sys_ok] that ties watchdogs, tasks and allocator together; [SystemOps],
      [SystemSem], [SystemRun]: each operation, sem_timedwait, and the runs of
      the system; [SystemHeap]: the memory manager as its allocator;
      [SystemThms]: the invariant in every run, every outcome of sem_timedwait,
      the tick at which it times out, and the system on the heap.
    - [Ubx]: apps/system/ubgps/ubx.c, ubgps_poll.c and parts of
      ubgps_internal.c and ubgps.c.  [UbxInv]: the laws it needs of the system
      (class [OsLaws]) and of its callbacks, and its invariant; [UbxFrame]:
      frames and their beginnings; [UbxSpec], [UbxStream], [UbxSend]: the
      receiver byte by byte, on streams, and the sender; [UbxHeap]: the heap of
      [MmSpec] implements the laws of memory; [UbxThms]: soundness on any
      input, round trip, damage, recovery, bounds, the driver on the heap.
    - [Sms]: ubmodem_pdu_util.c.  [SmsUtf8]: its automaton decodes what the
      Unicode standard calls well-formed, and texts become UCS-2; [SmsPdu]:
      phone numbers as semi-octets, and two receivers of PDUs, one that counts
      the semi-octets of the number as 3GPP TS 23.040 does, and a tolerant one
      that does not mind the filler being counted; [SmsThms]: decoding, both
      conversions, and what both receivers make of the parts of a long message.
    - [SmsSend]: ubmodem_sms_send.c, its memory blocks with their contents.
      [SmsSession]: an automaton of the phases of a session, and each handler
      as a step of it; [SmsSendThms]: any run of events refines the automaton,
      ends, and delivers the message when the modem takes it, all this as long
      as memory suffices and the driver underneath accepts every command and
      timer ([ModemLaws]: the handlers assert it); starting a session when
      memory runs out, with the leak when the task queue does; and two ways in
      which the code faults.
      [UbxDemo]: a small system for the witnesses of both drivers.
    - [EngValue]: values, thresholds and geofences; [Engine]: execute.c, with
      the requests of values and the timers of sense.c.  [EngineInv]: the laws of
      the world (class [EngineLaws]), what a profile must be ([profile_ok]), the
      queues of active causes and the memory of arrays; [EngineCause]: causes one
      by one, their timers; [EngineTrack]: what the specification knows of the
      causes (how many measurements are left, the zero point, how long the
      thresholds have held), and the simulation; [EngineMove]: from state to state
      and purpose to purpose, start, stop and continue; [EngineSay]: the
      reports, and the limits on short messages (class [RegisterLaws]);
      [EngineSpec]: the specification of a value; [EngineReact]: that
      handle_cause_event does it; [EngineRun]: requests and runs;
      [EngineDeliver]: what a value leaves alone (class [Framed]), and the walk of
      handle_cause; [EngineDemo]: a profile and a world for the witnesses;
      [EngineThms]: the engine follows the specification on any request that is
      permitted and is in order in every state of a run, a value on every
      branch, starting a profile, reports, limits, date timers, geofences, and
      where the code fails.

    Interfaces are type classes: [KernelAlloc], [RtcClock], [RtcHw], [Platform],
    [Os], [ModemOs] and [EngineOs] for what a component calls, [AllocLaws],
    [RtcLaws], [PlatformLaws], [OsLaws], [ModemLaws], [EngineLaws] and
    [RegisterLaws] for what it relies on, [Globals] for the addresses of the
    kernel's queue headers.  [RtcLaws] has the shadow registers of the
    calendar, which reading locks; [ModemLaws] and [EngineLaws] exclude that
    timers and drivers run out of resources, which the code asserts or does not
    handle; that malloc fails is covered where a theorem does not say otherwise.

    ** Not modelled

    Register contents (a context switch is the choice of the task that runs);
    code the configuration leaves out (priority inheritance, tickless timers,
    mm_sbrk); task creation and exit, signals, message queues, pthreads; the
    clock_initialize, the RTC's initialization and alarms; file systems,
    network, drivers and the rest of the C library; the GPS state machine and
    its configuration messages; the modem driver's parser of replies, levels and
    sockets; of the engine the parser of profiles, values as text, the log files,
    __ts_engine_multisend and the callbacks of connectors, the drivers of the
    senses and the main loop; the other applications.  Functions that
    watchdogs call are parameters that return and leave the watchdogs alone:
    one that starts its own watchdog again is outside the theorems about the
    tick.  In the system a task is what it may call next, not its program:
    every interleaving of calls is a run. *)

From stdpp Require Export base numbers list gmap.
#[global] Set Default Goal Selector "!".
#[global] Open Scope Z_scope.

(** * Computations over a machine state *)

Inductive outcome (A : Type) : Type :=
| Done (a : A)
| Blocked
| Fault.
Arguments Done {_} _.
Arguments Blocked {_}.
Arguments Fault {_}.

Definition M (S A : Type) : Type := S → outcome (A * S).

#[global] Instance M_ret S : MRet (M S) := λ A a s, Done (a, s).
#[global] Instance M_bind S : MBind (M S) := λ A B f e s,
  match e s with
  | Done (a, s') => f a s'
  | Blocked => Blocked
  | Fault => Fault
  end.

(** Reading and updating the whole state. *)
Definition gets {S A} (f : S → A) : M S A := λ s, Done (f s, s).
Definition modify {S} (f : S → S) : M S unit := λ s, Done (tt, f s).

(** [assert b] is the C [ASSERT]/[DEBUGASSERT]: the product configuration sets
    CONFIG_DEBUG, so a failed assertion stops the system. *)
Definition assert {S} (b : bool) : M S unit := λ s, if b then Done (tt, s) else Fault.

(** The calling task is suspended and does not return now. *)
Definition block {S A} : M S A := λ _, Blocked.

(** Running a computation on a part of the state. *)
Definition zoom {S T A} (get : S → T) (set : T → S → S) (e : M T A) : M S A := λ s,
  match e (get s) with
  | Done (a, t) => Done (a, set t s)
  | Blocked => Blocked
  | Fault => Fault
  end.

(** Loops: the body either asks for another round with a new loop variable
    ([inl]) or leaves the loop with a result ([inr]). *)
Fixpoint loop {S A B} (fuel : nat) (body : A → M S (A + B)) (a : A) : M S B :=
  match fuel with
  | O => λ _, Fault
  | Datatypes.S n =>
      r ← body a;
      match r with
      | inl a' => loop n body a'
      | inr b => mret b
      end
  end.

#[global] Arguments loop : simpl never.

Lemma loop_S {S A B} n (body : A → M S (A + B)) a :
  loop (Datatypes.S n) body a =
  (r ← body a; match r with inl a' => loop n body a' | inr b => mret b end).
Proof. done. Qed.

(** [returns e s Q]: started in [s], [e] terminates without fault and without
    blocking, and its result and final state satisfy [Q]. *)
Definition returns {S A} (e : M S A) (s : S) (Q : A → S → Prop) : Prop :=
  match e s with
  | Done (a, s') => Q a s'
  | Blocked => False
  | Fault => False
  end.

Section Returns.
Context {S : Type}.

Lemma returns_intro {A} (e : M S A) s a s' (Q : A → S → Prop) :
  e s = Done (a, s') → Q a s' → returns e s Q.
Proof. unfold returns. by intros ->. Qed.

Lemma returns_elim {A} (e : M S A) s (Q : A → S → Prop) :
  returns e s Q → ∃ a s', e s = Done (a, s') ∧ Q a s'.
Proof. unfold returns. destruct (e s) as [[a s']| |]; naive_solver. Qed.

Lemma returns_mono {A} (e : M S A) s (P Q : A → S → Prop) :
  returns e s P → (∀ a s', P a s' → Q a s') → returns e s Q.
Proof. unfold returns. destruct (e s) as [[a s']| |]; naive_solver. Qed.

Lemma returns_ret {A} (a : A) s (Q : A → S → Prop) : Q a s → returns (mret a) s Q.
Proof. done. Qed.

Lemma returns_bind {A B} (e : M S A) (k : A → M S B) s (Q : B → S → Prop) :
  returns e s (λ a s', returns (k a) s' Q) → returns (e ≫= k) s Q.
Proof.
  unfold returns, mbind, M_bind. by destruct (e s) as [[a s']| |].
Qed.

Lemma returns_gets {A} (f : S → A) s (Q : A → S → Prop) :
  Q (f s) s → returns (gets f) s Q.
Proof. done. Qed.

Lemma returns_modify (f : S → S) s (Q : unit → S → Prop) :
  Q tt (f s) → returns (modify f) s Q.
Proof. done. Qed.

Lemma returns_assert (b : bool) s (Q : unit → S → Prop) :
  b = true → Q tt s → returns (assert b) s Q.
Proof. unfold returns, assert. by intros ->. Qed.

Lemma returns_zoom {T A} (get : S → T) set (e : M T A) s (Q : A → S → Prop) :
  returns e (get s) (λ a t, Q a (set t s)) → returns (zoom get set e) s Q.
Proof. unfold returns, zoom. by destruct (e (get s)) as [[a t]| |]. Qed.

(** Total correctness of loops: an invariant and a measure below the fuel. *)
Lemma returns_loop {A B} (I : A → S → Prop) (μ : A → S → nat)
    (body : A → M S (A + B)) (Q : B → S → Prop) :
  (∀ a s, I a s →
    returns (body a) s (λ r s',
      match r with
      | inl a' => I a' s' ∧ (μ a' s' < μ a s)%nat
      | inr b => Q b s'
      end)) →
  ∀ fuel a s, I a s → (μ a s < fuel)%nat → returns (loop fuel body a) s Q.
Proof.
  intros Hbody fuel. induction fuel as [|fuel IH]; intros a s HI Hμ; [lia|].
  rewrite loop_S. apply returns_bind. eapply returns_mono; [by apply Hbody|].
  intros [a'|b] s' Hr; simpl in *; [|by apply returns_ret].
  destruct Hr as [HI' Hlt]. apply IH; [done|lia].
Qed.
End Returns.

(** [partial e s Q]: if [e] comes to an end without fault, [Q] holds then. *)
Definition partial {S A} (e : M S A) (s : S) (Q : A → S → Prop) : Prop :=
  ∀ a s', e s = Done (a, s') → Q a s'.

Section Partial.
Context {S : Type}.

Lemma returns_partial {A} (e : M S A) s (Q : A → S → Prop) : returns e s Q → partial e s Q.
Proof. unfold returns, partial. intros HQ a s' E. by rewrite E in HQ. Qed.

Lemma partial_bind {A B} (e : M S A) (k : A → M S B) s (Q : B → S → Prop) :
  partial e s (λ a s', partial (k a) s' Q) → partial (e ≫= k) s Q.
Proof.
  unfold partial, mbind, M_bind. intros HQ b s' E. destruct (e s) as [[a s1]| |] eqn:Ee; try done. by eapply HQ.
Qed.

Lemma partial_assert (b : bool) s (Q : unit → S → Prop) : (b = true → Q tt s) → partial (assert b) s Q.
Proof. unfold partial, assert. intros HQ [] s'. destruct b; [|done]. intros [= <-]. auto. Qed.

Lemma partial_ret {A} (a : A) s (Q : A → S → Prop) : Q a s → partial (mret a) s Q.
Proof. by intros HQ ? ? [= <- <-]. Qed.

Lemma partial_mono {A} (e : M S A) s (P Q : A → S → Prop) :
  partial e s P → (∀ a s', P a s' → Q a s') → partial e s Q.
Proof. unfold partial. eauto. Qed.
End Partial.

(** * Word memory *)

(** Memory is a finite map from byte addresses to 32-bit words; an access to
    an address outside the map is a fault. *)
Abbreviation mem := (gmap Z Z).

Definition load (a : Z) : M mem Z := λ m,
  match m !! a with Some v => Done (v, m) | None => Fault end.
Definition store (a v : Z) : M mem unit := λ m,
  match m !! a with Some _ => Done (tt, <[a:=v]> m) | None => Fault end.

Lemma returns_load a v (m : mem) (Q : Z → mem → Prop) :
  m !! a = Some v → Q v m → returns (load a) m Q.
Proof. unfold returns, load. by intros ->. Qed.

Lemma returns_store a v (m : mem) (Q : unit → mem → Prop) :
  is_Some (m !! a) → Q tt (<[a:=v]> m) → returns (store a v) m Q.
Proof. unfold returns, store. by intros [w ->]. Qed.

(** NULL and the C truth value of a pointer. *)
Abbreviation NULL := 0.
Definition nonnull (p : Z) : bool := negb (p =? 0).

(** * Automation *)

(** [mem_solve] looks a word up in a memory built by stores, deciding the
    address equations with [lia]. *)
Lemma lookup_insert_at (m : mem) a b v : a = b → <[a:=v]> m !! b = Some v.
Proof. intros ->. apply lookup_insert_eq. Qed.

(** Address equations: [base + offset] against [base + offset], the bases
    equal or known to be apart. *)
Ltac zbase a := lazymatch a with ?x + _ => zbase x | ?x - _ => zbase x | _ => a end.
Ltac clear_abs := repeat match goal with H : context [Z.abs _] |- _ => clear H end.
Ltac addr_ne :=
  lazymatch goal with
  | |- ?a ≠ ?b =>
      let x := zbase a in let y := zbase b in
      first
        [ constr_eq x y; clear; lia
        | match goal with
          | H : 8 ≤ Z.abs (x - y) |- _ => clear -H; lia
          | H : 8 ≤ Z.abs (y - x) |- _ => clear -H; lia
          end
        | clear_abs; lia ]
  | |- _ => fail
  end.
Ltac addr_eq :=
  lazymatch goal with
  | |- ?a = ?b =>
      let x := zbase a in let y := zbase b in
      first [ constr_eq a b; reflexivity | constr_eq x y; clear; lia | assumption ]
  end.

Ltac mem_hyp :=
  match goal with
  | H : ?m !! _ = Some _ |- ?m !! _ = Some _ =>
      eapply eq_trans; [|exact H]; f_equal; addr_eq
  | H : is_Some (?m !! _) |- is_Some (?m !! _) =>
      refine (eq_ind_r is_Some H _); f_equal; addr_eq
  end.
Ltac mem_simpl :=
  repeat first
    [ eassumption
    | rewrite lookup_insert_at by addr_eq
    | rewrite lookup_insert_ne by addr_ne ].
Ltac mem_solve :=
  mem_simpl;
  first [ eassumption | reflexivity | done | mem_hyp | f_equal; lia ].

Ltac mapped_solve :=
  mem_simpl;
  first [ eassumption | by eexists | eexists; mem_hyp | mem_hyp ].

(** One step of symbolic execution of a [returns] goal. *)
Ltac rstep :=
  lazymatch goal with
  | |- returns (mbind _ _) _ _ => apply returns_bind
  | |- returns (mret _) _ _ => apply returns_ret
  | |- returns (load _) _ _ => eapply returns_load; [solve [mem_solve]|]
  | |- returns (store _ _) _ _ => apply returns_store; [solve [mapped_solve]|]
  | |- returns (gets _) _ _ => apply returns_gets
  | |- returns (modify _) _ _ => apply returns_modify
  | |- returns (assert _) _ _ => apply returns_assert; [try reflexivity; try lia|]
  | |- returns (zoom _ _ _) _ _ => apply returns_zoom
  | |- returns (if ?b then _ else _) _ _ =>
      first [ replace b with true by lia | replace b with false by lia ]
  end; cbv beta; simpl.
Ltac rsteps := repeat rstep.

(** * Lists *)

Definition zlength {A} (l : list A) : Z := Z.of_nat (length l).
Definition last_or {A} (d : A) (l : list A) : A := default d (last l).
Definition hd_or {A} (d : A) (l : list A) : A := default d (head l).
#[global] Arguments last_or {_} _ _ : simpl never.
#[global] Arguments hd_or {_} _ _ : simpl never.

Lemma hd_or_cons {A} (d x : A) l : hd_or d (x :: l) = x.
Proof. done. Qed.

Lemma hd_or_nil {A} (d : A) : hd_or d [] = d.
Proof. done. Qed.

Lemma hd_or_app {A} (d : A) l1 l2 : hd_or d (l1 ++ l2) = hd_or (hd_or d l2) l1.
Proof. by destruct l1. Qed.

Lemma last_or_app {A} (d : A) l1 l2 : last_or d (l1 ++ l2) = last_or (last_or d l1) l2.
Proof. unfold last_or. rewrite last_app. by destruct (last l2). Qed.

Lemma last_or_snoc {A} (d : A) l x : last_or d (l ++ [x]) = x.
Proof. unfold last_or. by rewrite last_snoc. Qed.

Lemma last_or_cons {A} (d : A) x l : last_or d (x :: l) = last_or x l.
Proof. unfold last_or. rewrite last_cons. by destruct (last l). Qed.

Lemma list_snoc_cases {A} (l : list A) : l = [] ∨ ∃ l' x, l = l' ++ [x].
Proof. destruct l as [|x l _] using rev_ind; eauto. Qed.

(** An element of a duplicate-free list splits it in one way. *)
Lemma nodup_split_unique {A} (x : A) l1 l2 k1 k2 :
  NoDup (l1 ++ x :: l2) → l1 ++ x :: l2 = k1 ++ x :: k2 → l1 = k1 ∧ l2 = k2.
Proof.
  revert k1. induction l1 as [|y l1 IH]; intros [|z k1]; simpl; intros Hnd E.
  - by injection E.
  - injection E as -> ->. apply NoDup_cons in Hnd as [Hx _]. set_solver.
  - injection E as -> E. apply NoDup_cons in Hnd as [Hx _]. set_solver.
  - injection E as -> E. apply NoDup_cons in Hnd as [_ Hnd].
    destruct (IH k1 Hnd E) as [-> ->]. done.
Qed.

(** Objects of eight bytes that do not overlap. *)
Fixpoint spaced (l : list Z) : Prop :=
  match l with
  | [] => True
  | x :: l' => Forall (λ y, 8 ≤ Z.abs (x - y)) l' ∧ spaced l'
  end.

Lemma spaced_app l1 l2 :
  spaced (l1 ++ l2) ↔
  spaced l1 ∧ spaced l2 ∧ (∀ x y, x ∈ l1 → y ∈ l2 → 8 ≤ Z.abs (x - y)).
Proof.
  induction l1 as [|x l1 IH]; simpl.
  { set_solver. }
  rewrite Forall_app, IH, !Forall_forall. set_solver.
Qed.

Lemma spaced_perm l1 l2 : l1 ≡ₚ l2 → spaced l1 → spaced l2.
Proof.
  induction 1 as [|x l1 l2 H IH|x y l|l1 l2 l3 _ IH1 _ IH2]; simpl; [done|..|by auto].
  - intros [Hx Hl]. split; [by rewrite <-H|auto].
  - rewrite !Forall_cons. intros [[Hxy Hx] [Hy Hl]].
    repeat split; auto. lia.
Qed.

#[global] Instance spaced_proper : Proper ((≡ₚ) ==> iff) spaced.
Proof. intros l1 l2 H. split; apply spaced_perm; [done|by symmetry]. Qed.

Lemma spaced_NoDup l : spaced l → NoDup l.
Proof.
  induction l as [|x l IH]; simpl; [constructor|].
  intros [Hx Hl]. constructor; [|auto].
  intros Hin. rewrite Forall_forall in Hx. specialize (Hx x Hin). lia.
Qed.

Lemma spaced_elem x y l : spaced l → x ∈ l → y ∈ l → x ≠ y → 8 ≤ Z.abs (x - y).
Proof.
  induction l as [|z l IH]; simpl; [set_solver|].
  rewrite Forall_forall. intros [Hz Hl] Hx Hy Hne.
  apply elem_of_cons in Hx as [->|Hx]; apply elem_of_cons in Hy as [->|Hy]; auto.
  - congruence.
  - specialize (Hz _ Hx). lia.
Qed.

(** * Machine integers *)

Definition u32 (x : Z) : Z := x `mod` 2 ^ 32.

Lemma u32_small x : 0 ≤ x < 2 ^ 32 → u32 x = x.
Proof. apply Z.mod_small. Qed.

Lemma u32_range x : 0 ≤ u32 x < 2 ^ 32.
Proof. by apply Z.mod_pos_bound. Qed.

Definition u8 (x : Z) : Z := x `mod` 2 ^ 8.
Definition u16 (x : Z) : Z := x `mod` 2 ^ 16.

(** Signed 32-bit arithmetic. *)
Definition s32 (x : Z) : Z := (x + 2 ^ 31) `mod` 2 ^ 32 - 2 ^ 31.

Lemma s32_small x : - 2 ^ 31 ≤ x < 2 ^ 31 → s32 x = x.
Proof. intros Hx. unfold s32. rewrite Z.mod_small by lia. lia. Qed.


(** Linear arithmetic with division and remainder by constants. *)
Ltac mod_lia := Z.to_euclidean_division_equations; lia.

Lemma mod8_add a b : a `mod` 8 = 0 → b `mod` 8 = 0 → (a + b) `mod` 8 = 0.
Proof. mod_lia. Qed.
Lemma mod8_sub a b : a `mod` 8 = 0 → b `mod` 8 = 0 → (a - b) `mod` 8 = 0.
Proof. mod_lia. Qed.

(** Hints for the alignment and range side conditions of the components. *)
Create HintDb align.
(** Bit fields side by side. *)
Lemma lor_field a b n : 0 ≤ a < 2 ^ n → 0 ≤ n → Z.lor a (Z.shiftl b n) = a + b * 2 ^ n.
Proof.
  intros Ha Hn. rewrite <-Z.shiftl_mul_pow2 by done. symmetry. rewrite Z.add_nocarry_lxor, Z.lxor_lor; [done| |];
    apply Z.bits_inj'; intros i Hi; rewrite Z.land_spec, Z.bits_0.
  all: destruct (Z.ltb_spec i n); [rewrite (Z.shiftl_spec_low b) by done; apply andb_false_r|].
  all: rewrite <-(Z.mod_small a (2 ^ n)), Z.mod_pow2_bits_high by lia; done.
Qed.

#[export] Hint Resolve mod8_add mod8_sub : align.

Lemma spaced_mod8 l : NoDup l → (∀ a, a ∈ l → a `mod` 8 = 0) → spaced l.
Proof.
  induction l as [|a l IH]; simpl; [done|]. intros [Ha Hnd]%NoDup_cons Hm.
  split; [|apply IH; set_solver]. rewrite Forall_forall. intros b Hb.
  assert (a ≠ b) by (by intros ->).
  pose proof (Hm a ltac:(set_solver)). pose proof (Hm b ltac:(set_solver)). mod_lia.
Qed.
