(* ===== verification/Calendar.v ===== *)
(** Calendar dates, libc/time: mktime, gmtime_r and what they call, in the
    product configuration (no CONFIG_GREGORIAN_TIME, no CONFIG_TIME_EXTENDED).

    time_t is an unsigned 32-bit number of seconds since 1970.  [None] is a read
    outside the table of month beginnings or a loop that used up its fuel. *)

From S2P Require Import Prelude.

(** * The code *)

(** ** lib_isleapyear.c, lib_daysbeforemonth.c *)
Definition clock_isleapyear (year : Z) : bool :=
  if negb (Z.rem year 400 =? 0) then
    if negb (Z.rem year 100 =? 0) then
      if negb (Z.rem year 4 =? 0) then false else true
    else false
  else true.

Definition g_daysbeforemonth : list Z := [0; 31; 59; 90; 120; 151; 181; 212; 243; 273; 304; 334; 365].

Definition clock_daysbeforemonth (month : Z) (leapyear : bool) : option Z :=
  if month <? 0 then None
  else
    retval ← g_daysbeforemonth !! Z.to_nat month;
    Some (if (2 <=? month) && leapyear then retval + 1 else retval).

(** ** lib_calendar2utc.c; the month is zero-based here *)
Definition clock_calendar2utc (year month day : Z) : option Z :=
  let days := u32 (s32 ((year - 1970) * 365)) in
  let days := u32 (days + Z.shiftr (year - 1969) 2) in
  n ← clock_daysbeforemonth month (clock_isleapyear year);
  let days := u32 (days + n) in
  Some (u32 (days + (day - 1))).

(** ** lib_gmtimer.c *)

(** The years after the last multiple of four since 1970: the year, the days
    that remain and whether it is a leap year. *)
Fixpoint utc2calendar_years (fuel : nat) (value days : Z) : option (Z * Z * bool) :=
  match fuel with
  | O => None
  | S fuel =>
      let leapyear := clock_isleapyear (value + 1970) in
      let tmp := if leapyear then 366 else 365 in
      if tmp <=? days then utc2calendar_years fuel (value + 1) (u32 (days - tmp))
      else Some (value, days, leapyear)
  end.

(** The month, zero-based, by bisection. *)
Fixpoint utc2calendar_month (fuel : nat) (min max days : Z) (leapyear : bool) : option Z :=
  match fuel with
  | O => None
  | S fuel =>
      let value := Z.shiftr (min + max) 1 in
      tmp ← clock_daysbeforemonth (value + 1) leapyear;
      if days <? tmp then
        tmp ← clock_daysbeforemonth value leapyear;
        if days <? tmp then
          let max := value - 1 in
          if min <? max then utc2calendar_month fuel min max days leapyear else Some min
        else Some value
      else
        let min := value + 1 in
        if min <? max then utc2calendar_month fuel min max days leapyear else Some min
  end.

Definition clock_utc2calendar (days : Z) : option (Z * Z * Z) :=
  let value := days / (4 * 365 + 1) in
  let days := u32 (days - value * (4 * 365 + 1)) in
  let value := Z.shiftl value 2 in
  '(value, days, leapyear) ← utc2calendar_years 5 value days;
  let year := 1970 + value in
  value ← utc2calendar_month 5 0 11 days leapyear;
  n ← clock_daysbeforemonth value leapyear;
  let days := u32 (days - n) in
  Some (year, value + 1, days + 1).

(** include/time.h *)
Record tm := Tm {
  tm_sec : Z;
  tm_min : Z;
  tm_hour : Z;
  tm_mday : Z;
  tm_mon : Z;
  tm_year : Z;
}.

Definition SEC_PER_MIN : Z := 60.
Definition SEC_PER_HOUR : Z := 3600.
Definition SEC_PER_DAY : Z := 86400.

Definition gmtime_r (timer : Z) : option tm :=
  let jdn := timer / SEC_PER_DAY in
  let epoch := u32 (timer - SEC_PER_DAY * jdn) in
  let hour := epoch / SEC_PER_HOUR in
  let epoch := u32 (epoch - SEC_PER_HOUR * hour) in
  let min := epoch / SEC_PER_MIN in
  let epoch := u32 (epoch - SEC_PER_MIN * min) in
  let sec := epoch in
  '(year, month, day) ← clock_utc2calendar jdn;
  Some (Tm sec min hour day (month - 1) (year - 1900)).

(** ** lib_mktime.c *)
Definition mktime (tp : tm) : option Z :=
  jdn ← clock_calendar2utc (tm_year tp + 1900) (tm_mon tp) (tm_mday tp);
  Some (u32 (u32 (u32 (jdn * 24 + tm_hour tp) * 60 + tm_min tp) * 60 + tm_sec tp)).

(** * The reference: the Gregorian calendar, day by day *)

Definition leap (y : Z) : Prop := y `mod` 4 = 0 ∧ (y `mod` 100 ≠ 0 ∨ y `mod` 400 = 0).
#[global] Instance leap_dec y : Decision (leap y).
Proof. unfold leap. apply _. Defined.

Definition month_length (y m : Z) : Z :=
  if decide (m = 2) then if decide (leap y) then 29 else 28
  else if decide (m ∈ [4; 6; 9; 11]) then 30 else 31.

Definition next_day (d : Z * Z * Z) : Z * Z * Z :=
  let '(y, m, d) := d in
  if d <? month_length y m then (y, m, d + 1)
  else if m <? 12 then (y, m + 1, 1)
  else (y + 1, 1, 1).

Definition date_ok (d : Z * Z * Z) : Prop :=
  let '(y, m, d) := d in 1 ≤ m ≤ 12 ∧ 1 ≤ d ≤ month_length y m.
#[global] Instance date_ok_dec d : Decision (date_ok d).
Proof. unfold date_ok. destruct d as [[y m] d]. apply _. Defined.

(** The date [n] days after January 1st, 1970. *)
Definition date_after (n : nat) : Z * Z * Z := Nat.iter n next_day (1970, 1, 1).
