(* ===== verification/CalendarThms.v ===== *)
(** Calendar dates: the theorems.

    The dates of the code are those of the Gregorian calendar, counted day by
    day, and mktime undoes gmtime_r, up to the years where the code takes 2100
    for a leap year. *)

From S2P Require Import Prelude Calendar.

(** * Four-year periods

    The code repeats every four years as long as every fourth year is a leap
    year, so each property of a day is checked once for a period. *)
Definition shift (k : Z) (d : Z * Z * Z) : Z * Z * Z := let '(y, m, d) := d in (y + k, m, d).

(** Period [p] (of 1461 days) has the leap years of the first one. *)
Definition regular (p : Z) : Prop :=
  0 ≤ p ∧ ∀ k, 0 ≤ k ≤ 5 → clock_isleapyear (1970 + 4 * p + k) = clock_isleapyear (1970 + k).

Definition check_days (P : Z → bool) (start : Z) (n : nat) : bool := forallb P (seqZ start (Z.of_nat n)).

Lemma check_days_spec P start n :
  check_days P start n = true → ∀ r, start ≤ r < start + Z.of_nat n → P r = true.
Proof.
  unfold check_days. rewrite forallb_forall. intros Hall r Hr. apply Hall.
  rewrite <-list_elem_of_In, elem_of_seqZ. lia.
Qed.

Definition regular_ok (p : Z) : bool :=
  (p =? 32) || check_days (λ k, eqb (clock_isleapyear (1970 + 4 * p + k)) (clock_isleapyear (1970 + k))) 0 6.

Lemma regular_years p : 0 ≤ p ≤ 34 → p ≠ 32 → regular p.
Proof.
  intros Hp Hne. split; [lia|]. intros k Hk.
  assert (H : regular_ok p = true) by (apply (check_days_spec regular_ok 0 35); [reflexivity|lia]).
  unfold regular_ok in H. rewrite (proj2 (Z.eqb_neq _ _)) in H by done. simpl in H.
  apply eqb_prop. apply (check_days_spec _ 0 6 H). lia.
Qed.

Lemma isleapyear_leap y : 0 ≤ y → clock_isleapyear y = bool_decide (leap y).
Proof.
  intros Hy. unfold clock_isleapyear, leap. rewrite !Z.rem_mod_nonneg by lia.
  destruct (y `mod` 400 =? 0) eqn:E1, (y `mod` 100 =? 0) eqn:E2, (y `mod` 4 =? 0) eqn:E3; simpl;
    symmetry; first [apply bool_decide_eq_true|apply bool_decide_eq_false]; mod_lia.
Qed.

Lemma regular_next p d :
  regular p → 1970 ≤ d.1.1 ≤ 1975 → next_day (shift (4 * p) d) = shift (4 * p) (next_day d).
Proof.
  destruct d as [[y m] d]. intros [Hp Hr] Hy. simpl in *.
  assert (Hl : month_length (y + 4 * p) m = month_length y m).
  { unfold month_length. specialize (Hr (y - 1970) ltac:(lia)).
    rewrite !isleapyear_leap in Hr by lia. replace (1970 + 4 * p + (y - 1970)) with (y + 4 * p) in Hr by lia.
    replace (1970 + (y - 1970)) with y in Hr by lia. rewrite !bool_decide_decide in Hr.
    by repeat case_decide. }
  rewrite Hl. destruct (d <? _), (m <? 12); simpl; try done. f_equal. f_equal. lia.
Qed.

Lemma years_shift fuel v d p :
  regular p → 0 ≤ v → v + Z.of_nat fuel ≤ 6 →
  utc2calendar_years fuel (v + 4 * p) d = (λ '(v, d, l), (v + 4 * p, d, l)) <$> utc2calendar_years fuel v d.
Proof.
  intros [Hp Hr]. revert v d. induction fuel as [|fuel IH]; intros v d Hv Hf; [done|]. simpl.
  replace (v + 4 * p + 1970) with (1970 + 4 * p + v) by lia. rewrite Hr by lia.
  replace (1970 + v) with (v + 1970) by lia. destruct (clock_isleapyear _); destruct (_ <=? d); try done.
  - replace (v + 4 * p + 1) with (v + 1 + 4 * p) by lia. apply IH; lia.
  - replace (v + 4 * p + 1) with (v + 1 + 4 * p) by lia. apply IH; lia.
Qed.

Lemma utc2calendar_shift p r :
  regular p → p ≤ 34 → 0 ≤ r < 1461 →
  clock_utc2calendar (1461 * p + r) = shift (4 * p) <$> clock_utc2calendar r.
Proof.
  intros Hp Hle Hr. pose proof (proj1 Hp). unfold clock_utc2calendar. change (4 * 365 + 1) with 1461.
  replace ((1461 * p + r) / 1461) with p by mod_lia. replace (r / 1461) with 0 by mod_lia.
  rewrite !u32_small by lia. rewrite !Z.shiftl_mul_pow2 by lia.
  replace (1461 * p + r - p * 1461) with r by lia. replace (r - 0 * 1461) with r by lia.
  replace (p * 2 ^ 2) with (0 + 4 * p) by lia. change (0 * 2 ^ 2) with 0.
  rewrite years_shift by (done || lia). destruct (utc2calendar_years 5 0 r) as [[[v d] l]|]; [|done].
  cbn [mbind option_bind fmap option_fmap option_map].
  destruct (utc2calendar_month 5 0 11 d l) as [m|]; [|done]. cbn [mbind option_bind].
  destruct (clock_daysbeforemonth m l) as [n|]; [|done]. cbn [option_map shift mbind option_bind].
  by rewrite Z.add_assoc.
Qed.

(** ** The days of one period, by computation *)
Definition date_eqb (a b : option (Z * Z * Z)) : bool := bool_decide (a = b).

(** Every day has a date of the right form and is followed by the next one,
    and the way back gives the day. *)
Definition day_ok (r : Z) : bool :=
  match clock_utc2calendar r with
  | Some (y, m, d) =>
      bool_decide (1970 ≤ y ≤ 1975) &&
      bool_decide (clock_calendar2utc y (m - 1) d = Some r)
  | None => false
  end.

Definition step_ok (r : Z) : bool := date_eqb (clock_utc2calendar (r + 1)) (next_day <$> clock_utc2calendar r).

Lemma period_days : ∀ r, 0 ≤ r < 1461 → day_ok r = true.
Proof. apply (check_days_spec day_ok 0 1461). vm_compute. reflexivity. Qed.

Lemma period_steps : ∀ r, 0 ≤ r < 1460 → step_ok r = true.
Proof. apply (check_days_spec step_ok 0 1460). vm_compute. reflexivity. Qed.

Lemma day_ok_spec r : day_ok r = true → ∃ y m d, clock_utc2calendar r = Some (y, m, d) ∧
  1970 ≤ y ≤ 1975 ∧ clock_calendar2utc y (m - 1) d = Some r.
Proof.
  unfold day_ok. destruct (clock_utc2calendar r) as [[[y m] d]|]; [|done].
  rewrite andb_true_iff, !bool_decide_eq_true. intros [Hy Hc]. by exists y, m, d.
Qed.

(** ** All days of the 32-bit clock *)
Lemma period_split n : 0 ≤ n → ∃ p r, n = 1461 * p + r ∧ 0 ≤ p ∧ 0 ≤ r < 1461.
Proof. intros Hn. exists (n / 1461), (n `mod` 1461). mod_lia. Qed.

(** The period with the year 2100, and the steps from one period to the next. *)
Lemma odd_steps : ∀ r, 46752 ≤ r < 48212 → step_ok r = true.
Proof. apply (check_days_spec step_ok 46752 1460). vm_compute. reflexivity. Qed.

Lemma period_ends : ∀ p, 0 ≤ p < 34 → (p =? 32) || step_ok (1461 * p + 1460) = true.
Proof. apply (check_days_spec (λ p, (p =? 32) || step_ok (1461 * p + 1460)) 0 34). vm_compute. reflexivity. Qed.

Lemma utc2calendar_step n :
  0 ≤ n < 49710 → n ≠ 48212 → clock_utc2calendar (n + 1) = next_day <$> clock_utc2calendar n.
Proof.
  intros Hn Hne. destruct (period_split n) as (p & r & -> & Hp & Hr); [lia|].
  destruct (decide (p = 32)) as [->|H32].
  { apply (bool_decide_eq_true_1 _), odd_steps. lia. }
  destruct (decide (r = 1460)) as [->|].
  { pose proof (period_ends p ltac:(lia)) as H. rewrite (proj2 (Z.eqb_neq _ _)) in H by done.
    by apply (bool_decide_eq_true_1 _) in H. }
  pose proof (regular_years p ltac:(lia) H32) as Hreg. rewrite <-Z.add_assoc, !utc2calendar_shift by (done || lia).
  pose proof (period_steps r ltac:(lia)) as H. apply (bool_decide_eq_true_1 _) in H. rewrite H.
  destruct (day_ok_spec r (period_days r Hr)) as (y & m & d & E & Hy & _). rewrite E.
  cbn [fmap option_fmap option_map]. f_equal. symmetry. by apply regular_next.
Qed.

(** The day the code takes day [n] for: from 2102 on it is one day late. *)
Definition shown_day (n : Z) : Z := if n <=? 48212 then n else n - 1.

Lemma utc2calendar_days n : 0 ≤ n ≤ 49710 → clock_utc2calendar n = Some (date_after (Z.to_nat (shown_day n))).
Proof.
  intros [H0 Hn]. revert n H0 Hn. apply (natlike_ind (λ n, n ≤ 49710 → _)); [reflexivity|].
  intros n H0 IH Hn. destruct (decide (n = 48212)) as [->|Hne].
  { replace (clock_utc2calendar (Z.succ 48212)) with (clock_utc2calendar 48212) by reflexivity.
    rewrite IH by lia. reflexivity. }
  unfold Z.succ. rewrite utc2calendar_step, IH by lia. unfold shown_day. simpl. f_equal.
  destruct (Z.leb_spec n 48212), (Z.leb_spec (n + 1) 48212); try lia.
  - by rewrite Z2Nat.inj_add, Nat.add_comm by lia.
  - replace (n + 1 - 1) with (Z.succ (n - 1)) by lia. by rewrite Z2Nat.inj_succ by lia.
Qed.

Lemma date_after_ok n : date_ok (date_after n).
Proof.
  assert (Hlen : ∀ y m, 28 ≤ month_length y m) by (intros; unfold month_length; repeat case_decide; lia).
  induction n as [|n IH]; [by vm_compute|]. unfold date_after in *. simpl.
  destruct (Nat.iter n next_day _) as [[y m] d]. unfold date_ok in *. simpl.
  destruct (Z.ltb_spec d (month_length y m)); [lia|]. pose proof (Hlen y (m + 1)). pose proof (Hlen (y + 1) 1).
  destruct (Z.ltb_spec m 12); lia.
Qed.

(** ** The way back *)
Lemma u32_sum a b c : u32 (u32 (u32 a + b) + c) = u32 (a + b + c).
Proof. unfold u32. rewrite Zplus_mod_idemp_l, <-Z.add_assoc, Zplus_mod_idemp_l. f_equal. lia. Qed.

Lemma calendar2utc_eq y m d :
  1970 ≤ y ≤ 2200 → clock_calendar2utc y m d =
    (λ k, u32 ((y - 1970) * 365 + (y - 1969) / 4 + k + (d - 1))) <$> clock_daysbeforemonth m (clock_isleapyear y).
Proof.
  intros Hy. unfold clock_calendar2utc. rewrite s32_small, (u32_small (_ * 365)), Z.shiftr_div_pow2 by lia.
  change (2 ^ 2) with 4. destruct (clock_daysbeforemonth m _) as [k|]; [|done].
  cbn [mbind option_bind fmap option_fmap option_map]. by rewrite u32_sum.
Qed.

Lemma calendar2utc_shift p y m d n :
  regular p → p ≤ 34 → 1970 ≤ y ≤ 1975 → clock_calendar2utc y m d = Some n → 0 ≤ n < 1461 →
  clock_calendar2utc (y + 4 * p) m d = Some (1461 * p + n).
Proof.
  intros [Hp Hr] Hle Hy. specialize (Hr (y - 1970) ltac:(lia)).
  replace (1970 + 4 * p + (y - 1970)) with (y + 4 * p) in Hr by lia.
  replace (1970 + (y - 1970)) with y in Hr by lia. rewrite !calendar2utc_eq, Hr by lia.
  destruct (clock_daysbeforemonth m (clock_isleapyear y)) as [k|]; [|done]. simpl. intros [= <-] Hn. f_equal.
  replace ((y + 4 * p - 1970) * 365 + (y + 4 * p - 1969) / 4 + k + (d - 1)) with
    ((y - 1970) * 365 + (y - 1969) / 4 + k + (d - 1) + 1461 * p) by mod_lia.
  unfold u32 in *. rewrite <-Zplus_mod_idemp_l, (Z.mod_small (_ + 1461 * p)) by lia. lia.
Qed.

(** In 2101 the way back is one day late. *)
Definition recovered_day (n : Z) : Z := if (47847 <=? n) && (n <=? 48212) then n + 1 else n.

Definition odd_ok (n : Z) : bool :=
  match clock_utc2calendar n with
  | Some (y, m, d) => bool_decide (clock_calendar2utc y (m - 1) d = Some (recovered_day n))
  | None => false
  end.

Lemma odd_days : ∀ n, 46752 ≤ n < 48213 → odd_ok n = true.
Proof. apply (check_days_spec odd_ok 46752 1461). vm_compute. reflexivity. Qed.

Lemma calendar2utc_utc2calendar n : 0 ≤ n ≤ 49710 → ∃ y m d, clock_utc2calendar n = Some (y, m, d) ∧
  clock_calendar2utc y (m - 1) d = Some (recovered_day n).
Proof.
  intros Hn. destruct (period_split n) as (p & r & -> & Hp & Hr); [lia|].
  destruct (decide (p = 32)) as [->|H32].
  { pose proof (odd_days (1461 * 32 + r) ltac:(lia)) as H. unfold odd_ok in H.
    destruct (clock_utc2calendar (1461 * 32 + r)) as [[[y m] d]|]; [|done]. exists y, m, d. split; [done|].
    by apply (bool_decide_eq_true_1 _) in H. }
  pose proof (regular_years p ltac:(lia) H32) as Hreg. rewrite utc2calendar_shift by (done || lia).
  destruct (day_ok_spec r (period_days r Hr)) as (y & m & d & E & Hy & Hc). rewrite E.
  exists (y + 4 * p), m, d. split; [done|]. rewrite (calendar2utc_shift p y (m - 1) d r) by (done || lia).
  f_equal. unfold recovered_day. destruct (Z.leb_spec 47847 (1461 * p + r)), (Z.leb_spec (1461 * p + r) 48212); simpl; lia.
Qed.

(** * Times *)

(** Date and time of day, as struct tm. *)
Definition tm_of (date : Z * Z * Z) (secs : Z) : tm :=
  let '(y, m, d) := date in Tm (secs `mod` 60) ((secs / 60) `mod` 60) (secs / 3600) d (m - 1) (y - 1900).

Lemma gmtime_eq t :
  0 ≤ t < 2 ^ 32 → gmtime_r t = (λ d, tm_of d (t `mod` SEC_PER_DAY)) <$> clock_utc2calendar (t / SEC_PER_DAY).
Proof.
  intros Ht. unfold gmtime_r, SEC_PER_DAY, SEC_PER_HOUR, SEC_PER_MIN.
  destruct (clock_utc2calendar (t / 86400)) as [[[y m] d]|]; [|done]. simpl. f_equal.
  rewrite (u32_small (t - _)) by mod_lia. replace (t - 86400 * (t / 86400)) with (t `mod` 86400) by mod_lia.
  set (s := t `mod` 86400) in *. assert (0 ≤ s < 86400) by (subst s; mod_lia). clearbody s.
  rewrite (u32_small (s - _)) by mod_lia. replace (s - 3600 * (s / 3600)) with (s `mod` 3600) by mod_lia.
  rewrite u32_small by mod_lia. f_equal; mod_lia.
Qed.

(** What mktime needs for the broken-down time it is given. *)
Definition tm_ok (tp : tm) : Prop :=
  0 ≤ tm_sec tp < 60 ∧ 0 ≤ tm_min tp < 60 ∧ 0 ≤ tm_hour tp < 24 ∧ 70 ≤ tm_year tp ∧
  0 ≤ tm_mon tp < 12 ∧ 1 ≤ tm_mday tp ≤ month_length (tm_year tp + 1900) (tm_mon tp + 1).

Lemma date_after_year n : 1970 ≤ (date_after n).1.1.
Proof.
  induction n as [|n IH]; [done|]. unfold date_after in *. simpl. destruct (Nat.iter n next_day _) as [[y m] d].
  simpl in *. destruct (d <? _), (m <? 12); simpl; lia.
Qed.

(** C37: gmtime_r gives the date of the Gregorian calendar and the time of day,
    for every time until January 1st, 2102, inclusive; the loops that look for
    the year and the month come to an end. *)
Theorem gmtime_calendar t :
  0 ≤ t < 48213 * SEC_PER_DAY →
  gmtime_r t = Some (tm_of (date_after (Z.to_nat (t / SEC_PER_DAY))) (t `mod` SEC_PER_DAY)).
Proof.
  unfold SEC_PER_DAY. intros Ht. rewrite gmtime_eq, utc2calendar_days by (unfold SEC_PER_DAY; mod_lia).
  unfold shown_day, SEC_PER_DAY. by replace (t / 86400 <=? 48212) with true by mod_lia.
Qed.

Lemma gmtime_calendar_witness : gmtime_r 951782400 = Some (Tm 0 0 0 29 1 100).
Proof.
  rewrite (gmtime_calendar 951782400) by (unfold SEC_PER_DAY; lia). vm_compute. reflexivity.
Defined.

Lemma gmtime_total t : 0 ≤ t < 2 ^ 32 → ∃ tp, gmtime_r t = Some tp ∧ tm_ok tp.
Proof.
  intros Ht. rewrite gmtime_eq, utc2calendar_days by (unfold SEC_PER_DAY; mod_lia). set (n := Z.to_nat _).
  pose proof (date_after_ok n) as Hd. pose proof (date_after_year n) as Hy.
  destruct (date_after n) as [[y m] d]. eexists. split; [done|]. unfold tm_ok, SEC_PER_DAY. simpl in *.
  replace (y - 1900 + 1900) with y by lia. replace (m - 1 + 1) with m by lia. mod_lia.
Qed.

(** C38: gmtime_r returns for every 32-bit time, and each field of the result is
    in its range, the day within the length of the month. *)
Theorem gmtime_well_formed t : 0 ≤ t < 2 ^ 32 → ∃ tp, gmtime_r t = Some tp ∧ tm_ok tp.
Proof. apply gmtime_total. Qed.

Lemma gmtime_well_formed_witness : ∃ tp, gmtime_r 4294967295 = Some tp ∧ tm_ok tp.
Proof. apply (gmtime_well_formed 4294967295). lia. Defined.

(** mktime undoes gmtime_r, except in the year 2101 and on 1 January 2102 (the
    days 47847 to 48212), when it is one day late. *)
Theorem mktime_gmtime t :
  0 ≤ t < 2 ^ 32 → ∃ tp, gmtime_r t = Some tp ∧
    mktime tp = Some (if (47847 * SEC_PER_DAY <=? t) && (t <? 48213 * SEC_PER_DAY) then t + SEC_PER_DAY else t).
Proof.
  intros Ht. rewrite gmtime_eq by done.
  destruct (calendar2utc_utc2calendar (t / SEC_PER_DAY)) as (y & m & d & E & Hc); [unfold SEC_PER_DAY; mod_lia|].
  rewrite E. eexists. split; [done|]. unfold mktime. simpl.
  replace (y - 1900 + 1900) with y by lia. rewrite Hc. simpl. f_equal.
  unfold recovered_day, SEC_PER_DAY.
  assert (E1 : (47847 * 86400 <=? t) && (t <? 48213 * 86400) = (47847 <=? t / 86400) && (t / 86400 <=? 48212)).
  { destruct (Z.leb_spec (47847 * 86400) t), (Z.ltb_spec t (48213 * 86400)),
      (Z.leb_spec 47847 (t / 86400)), (Z.leb_spec (t / 86400) 48212); simpl; try done; mod_lia. }
  rewrite E1. clear E1 E Hc. assert (Eq : t = 86400 * (t / 86400) + t `mod` 86400) by mod_lia.
  assert (Hs : 0 ≤ t `mod` 86400 < 86400) by mod_lia. revert Eq Hs. generalize (t / 86400) (t `mod` 86400).
  intros q s Eq Hs. assert (Es : s = s / 3600 * 3600 + ((s / 60) `mod` 60) * 60 + s `mod` 60) by mod_lia.
  assert (0 ≤ s / 3600 < 24 ∧ 0 ≤ (s / 60) `mod` 60 < 60 ∧ 0 ≤ s `mod` 60 < 60) as Hr by mod_lia.
  revert Es Hr. generalize (s / 3600) ((s / 60) `mod` 60) (s `mod` 60). intros h mi se. intros.
  destruct (_ && _) eqn:Eb; [apply andb_true_iff in Eb; rewrite !Z.leb_le in Eb|];
    rewrite (u32_small (_ * 24 + _)), (u32_small (_ * 60 + mi)), u32_small by lia; lia.
Qed.

Lemma mktime_gmtime_witness : ∃ tp, gmtime_r 4294967295 = Some tp ∧ mktime tp = Some 4294967295.
Proof. apply (mktime_gmtime 4294967295). lia. Defined.

(** From January 2nd, 2102, gmtime_r is one day late. *)
Lemma gmtime_late t :
  48213 * SEC_PER_DAY ≤ t < 2 ^ 32 →
  gmtime_r t = Some (tm_of (date_after (Z.to_nat (t / SEC_PER_DAY - 1))) (t `mod` SEC_PER_DAY)).
Proof.
  unfold SEC_PER_DAY. intros Ht. rewrite gmtime_eq, utc2calendar_days by (unfold SEC_PER_DAY; mod_lia).
  unfold shown_day, SEC_PER_DAY. by replace (t / 86400 <=? 48212) with false by mod_lia.
Qed.

(** mktime does not bring months into range: it reads outside its table. *)
Lemma mktime_month_out_of_range tp : tm_mon tp < 0 ∨ 13 ≤ tm_mon tp → mktime tp = None.
Proof.
  intros Hm. unfold mktime, clock_calendar2utc, clock_daysbeforemonth.
  destruct (Z.ltb_spec (tm_mon tp) 0); [done|]. rewrite (lookup_ge_None_2 g_daysbeforemonth); [done|]. simpl. lia.
Qed.
