(* ===== verification/Rtc.v ===== *)
(** The real-time clock of the STM32, arch/arm/src/stm32/stm32_rtcc.c: reading
    and setting date and time.

    The registers belong to the hardware: reading and writing them are the
    operations of the class [RtcHw].  The date and time registers hold
    binary-coded decimal digits; the sub-second register counts down. *)

From S2P Require Import Prelude Calendar.

(** * chip/stm32_rtcc.h, chip/stm32_pwr.h *)
Definition STM32_RTC_BASE : Z := 0x40002800.
Definition STM32_RTC_TR : Z := STM32_RTC_BASE.
Definition STM32_RTC_DR : Z := STM32_RTC_BASE + 0x04.
Definition STM32_RTC_ISR : Z := STM32_RTC_BASE + 0x0c.
Definition STM32_RTC_PRER : Z := STM32_RTC_BASE + 0x10.
Definition STM32_RTC_WPR : Z := STM32_RTC_BASE + 0x24.
Definition STM32_RTC_SSR : Z := STM32_RTC_BASE + 0x28.
Definition STM32_RTC_BK1R : Z := STM32_RTC_BASE + 0x54.
Definition STM32_RTC_BK2R : Z := STM32_RTC_BASE + 0x58.
Definition STM32_PWR_CR : Z := 0x40007000.
Definition PWR_CR_DBP : Z := 0x100.
Definition RTC_ISR_RSF : Z := 0x20.
Definition RTC_ISR_INITF : Z := 0x40.
Definition RTC_ISR_INIT : Z := 0x80.
Definition RTC_TR_RESERVED_BITS : Z := 0xff808080.
Definition RTC_DR_RESERVED_BITS : Z := 0xff0000c0.
Definition RTC_PRER_PREDIV_S_MASK : Z := 0x7fff.
Definition RTC_SSR_MASK : Z := 0xffff.
Definition RTC_MAGIC : Z := 0xfacefeee.
Definition SYNCHRO_TIMEOUT : nat := Z.to_nat 0x20000.
Definition INITMODE_TIMEOUT : nat := Z.to_nat 0x10000.
Definition ETIMEDOUT_ : Z := -110.

(** [~x] on 32 bits. *)
Definition not32 (x : Z) : Z := u32 (Z.lnot x).

(** * The conversions *)

(** while (value >= 10): at most [value] rounds. *)
Fixpoint rtc_bin2bcd_loop (fuel : nat) (msbcd value : Z) : Z * Z :=
  match fuel with
  | O => (msbcd, value)
  | S fuel => if 10 <=? value then rtc_bin2bcd_loop fuel (u32 (msbcd + 1)) (value - 10) else (msbcd, value)
  end.

Definition rtc_bin2bcd (value : Z) : Z :=
  let '(msbcd, value) := rtc_bin2bcd_loop (Z.to_nat value) 0 value in
  u32 (Z.lor (u32 (Z.shiftl msbcd 4)) (u32 value)).

Definition rtc_bcd2bin (value : Z) : Z :=
  let tens := u32 (Z.shiftr value 4 * 10) in
  s32 (tens + Z.land value 0x0f).

(** The parts of stm32_rtc_setdatetime and stm32_rtc_getdatetime_with_subseconds
    that compute with the register values. *)
Definition rtc_tr (tp : tm) : Z :=
  let tr := Z.lor (Z.lor (Z.shiftl (rtc_bin2bcd (tm_sec tp)) 0) (u32 (Z.shiftl (rtc_bin2bcd (tm_min tp)) 8)))
              (u32 (Z.shiftl (rtc_bin2bcd (tm_hour tp)) 16)) in
  Z.land tr (not32 RTC_TR_RESERVED_BITS).

Definition rtc_dr (tp : tm) : Z :=
  let dr := Z.lor (Z.lor (Z.shiftl (rtc_bin2bcd (tm_mday tp)) 0) (u32 (Z.shiftl (rtc_bin2bcd (tm_mon tp + 1)) 8)))
              (u32 (Z.shiftl (rtc_bin2bcd (tm_year tp - 100)) 16)) in
  Z.land dr (not32 RTC_DR_RESERVED_BITS).

Definition rtc_tm (tr dr : Z) : tm :=
  Tm (rtc_bcd2bin (Z.shiftr (Z.land tr 0x7f) 0))
     (rtc_bcd2bin (Z.shiftr (Z.land tr 0x7f00) 8))
     (rtc_bcd2bin (Z.shiftr (Z.land tr 0x3f0000) 16))
     (rtc_bcd2bin (Z.shiftr (Z.land dr 0x3f) 0))
     (rtc_bcd2bin (Z.shiftr (Z.land dr 0x1f00) 8) - 1)
     (rtc_bcd2bin (Z.shiftr (Z.land dr 0xff0000) 16) + 100).

Definition rtc_nsec (prer ssr : Z) : Z :=
  let prediv_s := Z.shiftr (Z.land prer RTC_PRER_PREDIV_S_MASK) 0 in
  let ssr := Z.land ssr RTC_SSR_MASK in
  let usecs := u32 ((u32 (u32 (prediv_s - ssr) * 100000) / (prediv_s + 1)) * 10) in
  s32 (u32 (usecs * 1000)).

(** * The driver *)
Class RtcHw (E : Type) := {
  getreg32 : Z → M E Z;
  putreg32 : Z → Z → M E unit;
}.

(** The state: the nesting of write access to the backup domain, and the rest
    of the system. *)
Record rtcdrv (E : Type) := Rtcdrv {
  bkpreg_crefs : Z;
  r_ext : E;
}.
Arguments Rtcdrv {_} _ _.
Arguments bkpreg_crefs {_} _.
Arguments r_ext {_} _.

Section Rtc.
Context {E : Type} `{RtcHw E}.

Definition rget (a : Z) : M (rtcdrv E) Z := zoom r_ext (λ e s, Rtcdrv (bkpreg_crefs s) e) (getreg32 a).
Definition rput (v a : Z) : M (rtcdrv E) unit := zoom r_ext (λ e s, Rtcdrv (bkpreg_crefs s) e) (putreg32 a v).
Definition set_crefs (n : Z) (s : rtcdrv E) : rtcdrv E := Rtcdrv n (r_ext s).

(** stm32_pwr.c; the registers of the power controller have 16 bits. *)
Definition stm32_pwr_enablebkp (writable : bool) : M (rtcdrv E) unit :=
  n ← gets bkpreg_crefs;
  if writable then
    (if n =? 0 then
       v ← rget STM32_PWR_CR;
       assert (Z.land v PWR_CR_DBP =? 0);;
       v ← rget STM32_PWR_CR;
       rput (Z.lor (u16 v) PWR_CR_DBP) STM32_PWR_CR
     else mret tt);;
    modify (set_crefs (n + 1))
  else
    v ← rget STM32_PWR_CR;
    assert (negb (Z.land v PWR_CR_DBP =? 0));;
    (if n =? 1 then
       v ← rget STM32_PWR_CR;
       rput (Z.land (u16 v) (not32 PWR_CR_DBP)) STM32_PWR_CR
     else mret tt);;
    (if negb (n =? 0) then modify (set_crefs (n - 1)) else mret tt).

Definition rtc_wprunlock : M (rtcdrv E) unit :=
  stm32_pwr_enablebkp true;;
  rput 0xca STM32_RTC_WPR;;
  rput 0x53 STM32_RTC_WPR.

Definition rtc_wprlock : M (rtcdrv E) unit :=
  rput 0xff STM32_RTC_WPR;;
  stm32_pwr_enablebkp false.

(** Waiting for a bit of the status register: OK or -ETIMEDOUT. *)
Fixpoint rtc_wait (timeout : nat) (bit : Z) : M (rtcdrv E) Z :=
  match timeout with
  | O => mret ETIMEDOUT_
  | S timeout =>
      v ← rget STM32_RTC_ISR;
      if negb (Z.land v bit =? 0) then mret 0 else rtc_wait timeout bit
  end.

Definition rtc_synchwait : M (rtcdrv E) Z :=
  rtc_wprunlock;;
  v ← rget STM32_RTC_ISR;
  rput (Z.land v (not32 RTC_ISR_RSF)) STM32_RTC_ISR;;
  ret ← rtc_wait SYNCHRO_TIMEOUT RTC_ISR_RSF;
  rtc_wprlock;;
  mret ret.

Definition rtc_enterinit : M (rtcdrv E) Z :=
  v ← rget STM32_RTC_ISR;
  if Z.land v RTC_ISR_INITF =? 0 then
    rput RTC_ISR_INIT STM32_RTC_ISR;;
    rtc_wait INITMODE_TIMEOUT RTC_ISR_INITF
  else mret 0.

Definition rtc_exitinit : M (rtcdrv E) unit :=
  v ← rget STM32_RTC_ISR;
  rput (Z.land v (not32 RTC_ISR_INIT)) STM32_RTC_ISR.

Definition stm32_rtc_setdatetime (tp : tm) : M (rtcdrv E) Z :=
  rtc_wprunlock;;
  ret ← rtc_enterinit;
  ret ← (if ret =? 0 then
           rput (rtc_tr tp) STM32_RTC_TR;;
           rput (rtc_dr tp) STM32_RTC_DR;;
           rtc_exitinit;;
           rtc_synchwait
         else mret ret);
  rtc_wprlock;;
  mret ret.

(** [None] from gmtime_r does not happen, by [CalendarThms.gmtime_well_formed]. *)
Definition up_rtc_settime (tv_sec : Z) : M (rtcdrv E) Z :=
  match gmtime_r tv_sec with
  | None => λ _, Fault
  | Some newtime =>
      ret ← stm32_rtc_setdatetime newtime;
      (if ret =? 0 then
         stm32_pwr_enablebkp true;;
         rput (u32 (RTC_MAGIC + 1)) STM32_RTC_BK1R;;
         rput tv_sec STM32_RTC_BK2R;;
         stm32_pwr_enablebkp false
       else mret tt);;
      mret ret
  end.

(** One round of the sampling loop: the date, time and sub-second registers,
    or another round. *)
Definition rtc_sample (_ : unit) : M (rtcdrv E) (unit + Z * Z * Z) :=
  dr ← rget STM32_RTC_DR;
  tr ← rget STM32_RTC_TR;
  ssr ← rget STM32_RTC_SSR;
  tmp ← rget STM32_RTC_TR;
  if negb (tmp =? tr) then mret (inl tt)
  else
    tmp ← rget STM32_RTC_DR;
    if tmp =? dr then mret (inr (dr, tr, ssr)) else mret (inl tt).

(** do ... while (1) with [fuel] rounds; nsec is wanted ([true]) or NULL. *)
Definition stm32_rtc_getdatetime_with_subseconds (fuel : nat) (nsec : bool) : M (rtcdrv E) (tm * option Z) :=
  r ← loop fuel rtc_sample tt;
  let '(dr, tr, ssr) := r : Z * Z * Z in
  let tp := rtc_tm tr dr in
  if nsec then
    prer ← rget STM32_RTC_PRER;
    mret (tp, Some (rtc_nsec prer ssr))
  else mret (tp, None).
End Rtc.
