(* ===== verification/RtcThms.v ===== *)
(** The real-time clock: the theorems.

    [RtcLaws] states what the hardware does: time passes while its registers are
    read, and these are shadow registers, which reading locks against being
    brought up to date.  Under these laws the sampling loop ends after at most
    three rounds, and between two seconds it gives the date, time and fraction
    of a second of one instant; at midnight it can give yesterday's date. *)

From S2P Require Import Prelude Calendar CalendarThms Rtc.

(** * Registers *)

(** A field of [k] bits at bit [n], also behind a mask that leaves it alone. *)
Lemma land_field x n k : 0 ≤ n → 0 ≤ k → Z.shiftr (Z.land x (Z.shiftl (Z.ones k) n)) n = (x / 2 ^ n) `mod` 2 ^ k.
Proof.
  intros. rewrite Z.shiftr_land, Z.shiftr_shiftl_l, Z.sub_diag, Z.shiftl_0_r by lia.
  by rewrite Z.land_ones, Z.shiftr_div_pow2 by lia.
Qed.

Lemma land_masks x m1 m2 : Z.land m1 m2 = m2 → Z.land (Z.land x m1) m2 = Z.land x m2.
Proof. intros E. by rewrite <-Z.land_assoc, E. Qed.

Definition bcd_ok (v : Z) : bool :=
  (rtc_bcd2bin (rtc_bin2bcd v) =? v) && bool_decide (0 ≤ rtc_bin2bcd v < 256) &&
  bool_decide (v < 80 → rtc_bin2bcd v < 128) && bool_decide (v < 40 → rtc_bin2bcd v < 64) &&
  bool_decide (v < 20 → rtc_bin2bcd v < 32).

Lemma bcd_digits v : 0 ≤ v < 100 → rtc_bcd2bin (rtc_bin2bcd v) = v ∧ 0 ≤ rtc_bin2bcd v < 256 ∧
  (v < 80 → rtc_bin2bcd v < 128) ∧ (v < 40 → rtc_bin2bcd v < 64) ∧ (v < 20 → rtc_bin2bcd v < 32).
Proof.
  intros Hv. assert (H : bcd_ok v = true) by (apply (check_days_spec bcd_ok 0 100); [vm_compute; reflexivity|lia]).
  unfold bcd_ok in H. rewrite !andb_true_iff, Z.eqb_eq, !bool_decide_eq_true in H. tauto.
Qed.

(** Three bytes of a register. *)
Lemma three_fields a b c : 0 ≤ a < 256 → 0 ≤ b < 256 → 0 ≤ c < 256 →
  Z.lor (Z.lor (Z.shiftl a 0) (u32 (Z.shiftl b 8))) (u32 (Z.shiftl c 16)) = a + b * 2 ^ 8 + c * 2 ^ 16.
Proof.
  intros Ha Hb Hc. rewrite Z.shiftl_0_r, !u32_small by (rewrite Z.shiftl_mul_pow2; lia).
  rewrite (lor_field a) by lia. by rewrite lor_field by lia.
Qed.

(** The time and date registers as numbers, and the fields in them. *)
Lemma rtc_tr_fields tp : tm_ok tp → rtc_tm (rtc_tr tp) 0 = Tm (tm_sec tp) (tm_min tp) (tm_hour tp) 0 (-1) 100.
Proof.
  intros (Hs & Hm & Hh & _). unfold rtc_tm, rtc_tr.
  destruct (bcd_digits (tm_sec tp)) as (Es & Rs & Rs' & _); [lia|].
  destruct (bcd_digits (tm_min tp)) as (Em & Rm & Rm' & _); [lia|].
  destruct (bcd_digits (tm_hour tp)) as (Eh & Rh & _ & Rh' & _); [lia|].
  rewrite three_fields, !land_masks by done.
  change 0x7f with (Z.shiftl (Z.ones 7) 0). change 0x7f00 with (Z.shiftl (Z.ones 7) 8).
  change 0x3f0000 with (Z.shiftl (Z.ones 6) 16). rewrite !land_field by lia.
  f_equal; try reflexivity; etrans; [|exact Es| |exact Em| |exact Eh]; f_equal; mod_lia.
Qed.

(** The day of the week is in bits 13 to 15 of the date register. *)
Lemma rtc_dr_fields tp w : tm_ok tp → 100 ≤ tm_year tp < 200 → 0 ≤ w < 8 →
  rtc_tm 0 (Z.lor (rtc_dr tp) (Z.shiftl w 13)) = Tm 0 0 0 (tm_mday tp) (tm_mon tp) (tm_year tp).
Proof.
  intros (_ & _ & _ & _ & Hm & Hd) Hy Hw.
  assert (Hl : month_length (tm_year tp + 1900) (tm_mon tp + 1) ≤ 31) by (unfold month_length; repeat case_decide; lia).
  destruct (bcd_digits (tm_mday tp)) as (Ed & Rd & _ & Rd' & _); [lia|].
  destruct (bcd_digits (tm_mon tp + 1)) as (Em & Rm & _ & _ & Rm'); [lia|].
  destruct (bcd_digits (tm_year tp - 100)) as (Ey & Ry & _); [lia|].
  unfold rtc_tm. rewrite !Z.land_lor_distr_l.
  assert (H0 : Z.land (Z.shiftl w 13) 0x3f = 0 ∧ Z.land (Z.shiftl w 13) 0x1f00 = 0 ∧ Z.land (Z.shiftl w 13) 0xff0000 = 0).
  { assert (w = 0 ∨ w = 1 ∨ w = 2 ∨ w = 3 ∨ w = 4 ∨ w = 5 ∨ w = 6 ∨ w = 7) as Hc by lia.
    by destruct Hc as [->|[->|[->|[->|[->|[->|[->| ->]]]]]]]. }
  destruct H0 as (-> & -> & ->). rewrite !Z.lor_0_r. unfold rtc_dr. rewrite three_fields, !land_masks by done.
  change 0x3f with (Z.shiftl (Z.ones 6) 0). change 0x1f00 with (Z.shiftl (Z.ones 5) 8).
  change 0xff0000 with (Z.shiftl (Z.ones 8) 16). rewrite !land_field by lia.
  f_equal; try reflexivity.
  - etrans; [|exact Ed]. f_equal. mod_lia.
  - apply (f_equal (λ x, x - 1)) in Em. rewrite Z.add_simpl_r in Em. etrans; [|exact Em]. do 2 f_equal. mod_lia.
  - apply (f_equal (λ x, x + 100)) in Ey. rewrite Z.sub_simpl_r in Ey. etrans; [|exact Ey]. do 2 f_equal. mod_lia.
Qed.

(** What stm32_rtc_setdatetime writes into the registers reads back as the
    same date and time, from 2000 to 2099, whatever the day of the week. *)
Theorem rtc_registers_roundtrip tp w :
  tm_ok tp → 100 ≤ tm_year tp < 200 → 0 ≤ w < 8 →
  rtc_tm (rtc_tr tp) (Z.lor (rtc_dr tp) (Z.shiftl w 13)) = tp.
Proof.
  intros Hok Hy Hw. pose proof (rtc_tr_fields tp Hok) as Ht. pose proof (rtc_dr_fields tp w Hok Hy Hw) as Hd.
  unfold rtc_tm in *. injection Ht as Es Em Eh. injection Hd as Ed Emo Ey.
  rewrite Es, Em, Eh, Ed, Emo, Ey. by destruct tp.
Qed.

Lemma rtc_registers_roundtrip_witness :
  rtc_tm (rtc_tr (Tm 59 59 23 29 1 124)) (Z.lor (rtc_dr (Tm 59 59 23 29 1 124)) (Z.shiftl 4 13)) = Tm 59 59 23 29 1 124.
Proof.
  apply (rtc_registers_roundtrip (Tm 59 59 23 29 1 124) 4); [|simpl; lia|lia].
  unfold tm_ok. simpl. change (month_length _ _) with 29. lia.
Defined.

(** * Reading the clock *)

(** Time is counted in units of 1/256 second since January 1st, 2000. *)
Definition DAYS_2000 : Z := 10957.
Definition SECS_2000 : Z := DAYS_2000 * SEC_PER_DAY.
Definition tm_at (t : Z) : tm :=
  let secs := t / 256 in
  tm_of (date_after (Z.to_nat (DAYS_2000 + secs / SEC_PER_DAY))) (secs `mod` SEC_PER_DAY).
Definition dr_at (weekday : Z → Z) (t : Z) : Z :=
  Z.lor (rtc_dr (tm_at t)) (Z.shiftl (weekday (t / 256 / SEC_PER_DAY)) 13).

(** The end of 2099. *)
Definition RTC_END : Z := 36525 * SEC_PER_DAY * 256.

(** What a read of the clock gets.  The calendar is copied, again and again,
    into shadow registers, and these are what the processor reads: each shows
    the calendar as it was at the last copy.  The driver never sets BYPSHAD
    (stm32_rtcc.h:230), so a read of the sub-seconds locks the time and the
    date, a read of the time locks the date, against further copies, until the
    date is read. *)
Record shadow := Shadow {
  sh_ssr : Z;
  sh_tr : Z;
  sh_dr : Z;
  tr_locked : bool;
  dr_locked : bool;
}.

Definition copied (u : Z) (sh : shadow) : shadow :=
  Shadow u (if tr_locked sh then sh_tr sh else u) (if dr_locked sh then sh_dr sh else u) (tr_locked sh) (dr_locked sh).

Definition accessed (a : Z) (sh : shadow) : shadow :=
  if a =? STM32_RTC_SSR then Shadow (sh_ssr sh) (sh_tr sh) (sh_dr sh) true true
  else if a =? STM32_RTC_TR then Shadow (sh_ssr sh) (sh_tr sh) (sh_dr sh) (tr_locked sh) true
  else if a =? STM32_RTC_DR then Shadow (sh_ssr sh) (sh_tr sh) (sh_dr sh) false false
  else sh.

(** [rtc_now e] is the time of the calendar in state [e]; a read takes less
    than 1/256 second, in which the calendar may or may not be copied, and gives
    what the shadow register shows then. *)
Class RtcLaws (E : Type) `{RtcHw E} := {
  rtc_now : E → Z;
  rtc_shadow : E → shadow;
  weekday : Z → Z;
  weekday_range d : 0 ≤ weekday d < 8;
  get_ok e a : returns (getreg32 a) e (λ v e', rtc_now e ≤ rtc_now e' ≤ rtc_now e + 1 ∧
    ∃ sh, (sh = rtc_shadow e ∨ ∃ u, rtc_now e ≤ u ≤ rtc_now e' ∧ sh = copied u (rtc_shadow e)) ∧
    rtc_shadow e' = accessed a sh ∧
    (a = STM32_RTC_TR → v = rtc_tr (tm_at (sh_tr sh))) ∧
    (a = STM32_RTC_DR → v = dr_at weekday (sh_dr sh)) ∧
    (a = STM32_RTC_SSR → v = 255 - sh_ssr sh `mod` 256) ∧
    (a = STM32_RTC_PRER → v = 0x7f00ff));
}.

Section Read.
Context {E : Type} `{RtcLaws E}.
Implicit Types (s : rtcdrv E) (t : Z).

Lemma date_after_mono n k : (date_after n).1.1 ≤ (date_after (k + n)).1.1.
Proof.
  induction k as [|k IH]; [done|]. etrans; [exact IH|]. unfold date_after. simpl.
  destruct (Nat.iter (k + n) next_day _) as [[y m] d]. simpl. destruct (d <? _), (m <? 12); simpl; lia.
Qed.

Lemma date_after_years n : DAYS_2000 ≤ n < DAYS_2000 + 36525 → 2000 ≤ (date_after (Z.to_nat n)).1.1 < 2100.
Proof.
  unfold DAYS_2000. intros Hn.
  assert (Hd : ∀ n d, 0 ≤ n ≤ 48212 → clock_utc2calendar n = Some d → date_after (Z.to_nat n) = d).
  { intros k d Hk Ek. rewrite utc2calendar_days in Ek by lia. apply (inj Some) in Ek. unfold shown_day in Ek.
    by replace (k <=? 48212) with true in Ek by lia. }
  assert (H1 : date_after (Z.to_nat 10957) = (2000, 1, 1)) by (apply Hd; [lia|reflexivity]).
  assert (H2 : date_after (Z.to_nat 47481) = (2099, 12, 31)) by (apply Hd; [lia|reflexivity]).
  pose proof (date_after_mono (Z.to_nat 10957) (Z.to_nat (n - 10957))) as M1.
  pose proof (date_after_mono (Z.to_nat n) (Z.to_nat (47481 - n))) as M2.
  rewrite <-Z2Nat.inj_add in M1, M2 by lia. replace (n - 10957 + 10957) with n in M1 by lia.
  replace (47481 - n + n) with 47481 in M2 by lia. rewrite H1 in M1. rewrite H2 in M2. clear H1 H2 Hd. cbn [fst] in *. lia.
Qed.

Lemma tm_at_ok t : 0 ≤ t < RTC_END → tm_ok (tm_at t) ∧ 100 ≤ tm_year (tm_at t) < 200.
Proof.
  unfold RTC_END, SEC_PER_DAY. intros Ht. unfold tm_at, SEC_PER_DAY.
  set (n := DAYS_2000 + _). pose proof (date_after_years n ltac:(subst n; unfold DAYS_2000; mod_lia)) as Hy.
  pose proof (date_after_ok (Z.to_nat n)) as Hd. destruct (date_after (Z.to_nat n)) as [[y m] d].
  unfold tm_ok. simpl in *. replace (y - 1900 + 1900) with y by lia. replace (m - 1 + 1) with m by lia. mod_lia.
Qed.

(** All registers show times from [lo] on, none of them still to come. *)
Definition shows_since (lo : Z) (e : E) : Prop :=
  lo ≤ sh_ssr (rtc_shadow e) ≤ rtc_now e ∧ lo ≤ sh_tr (rtc_shadow e) ≤ rtc_now e ∧ lo ≤ sh_dr (rtc_shadow e) ≤ rtc_now e.

(** A read: time goes on, and no register goes back. *)
Lemma returns_rget lo s a (Q : Z → rtcdrv E → Prop) : shows_since lo (r_ext s) →
  (∀ v e', rtc_now (r_ext s) ≤ rtc_now e' ≤ rtc_now (r_ext s) + 1 → shows_since lo e' →
    sh_tr (rtc_shadow (r_ext s)) ≤ sh_tr (rtc_shadow e') → sh_dr (rtc_shadow (r_ext s)) ≤ sh_dr (rtc_shadow e') →
    (a = STM32_RTC_TR → v = rtc_tr (tm_at (sh_tr (rtc_shadow e')))) →
    (a = STM32_RTC_DR → v = dr_at weekday (sh_dr (rtc_shadow e'))) →
    (a = STM32_RTC_SSR → v = 255 - sh_ssr (rtc_shadow e') `mod` 256) → (a = STM32_RTC_PRER → v = 0x7f00ff) →
    Q v (Rtcdrv (bkpreg_crefs s) e')) →
  returns (rget a) s Q.
Proof.
  intros (Hs & Ht & Hd) HQ. unfold rget. apply returns_zoom. eapply returns_mono; [apply get_ok|].
  intros v e' (Hn & sh & Hsh & Ha & H1 & H2 & H3 & H4).
  assert (Et : (sh_ssr (rtc_shadow e'), sh_tr (rtc_shadow e'), sh_dr (rtc_shadow e')) = (sh_ssr sh, sh_tr sh, sh_dr sh)).
  { rewrite Ha. unfold accessed. by repeat case_match. }
  injection Et as Es Et Ed.
  assert (Hsince : (lo ≤ sh_ssr sh ≤ rtc_now e' ∧ lo ≤ sh_tr sh ≤ rtc_now e' ∧ lo ≤ sh_dr sh ≤ rtc_now e') ∧
    sh_tr (rtc_shadow (r_ext s)) ≤ sh_tr sh ∧ sh_dr (rtc_shadow (r_ext s)) ≤ sh_dr sh).
  { destruct Hsh as [->|(u & Hu & ->)]; [lia|]. unfold copied. cbn [sh_ssr sh_tr sh_dr].
    destruct (tr_locked (rtc_shadow (r_ext s))), (dr_locked (rtc_shadow (r_ext s))); lia. }
  unfold shows_since in HQ. rewrite <-Es, <-Et, <-Ed in *. apply HQ; tauto.
Qed.

Definition tr_of (s : rtcdrv E) : Z := sh_tr (rtc_shadow (r_ext s)).
Definition dr_of (s : rtcdrv E) : Z := sh_dr (rtc_shadow (r_ext s)).

(** A round takes at most five units.  What it reads are the date, the time and
    the fraction of a second of three moments; it fails only when the time or
    the date registers have gone over to another second. *)
Lemma rtc_sample_spec lo s : shows_since lo (r_ext s) →
  returns (rtc_sample tt) s (λ r s', shows_since lo (r_ext s') ∧
    rtc_now (r_ext s) ≤ rtc_now (r_ext s') ≤ rtc_now (r_ext s) + 5 ∧ tr_of s ≤ tr_of s' ∧ dr_of s ≤ dr_of s' ∧
    match r with
    | inr r => ∃ td tt ts, lo ≤ td ≤ rtc_now (r_ext s') ∧ lo ≤ tt ≤ rtc_now (r_ext s') ∧ lo ≤ ts ≤ rtc_now (r_ext s') ∧
        r = (dr_at weekday td, rtc_tr (tm_at tt), 255 - ts `mod` 256)
    | inl _ => tr_of s / 256 ≠ tr_of s' / 256 ∨ dr_of s / 256 ≠ dr_of s' / 256
    end).
Proof.
  intros Hs. unfold rtc_sample, tr_of, dr_of.
  apply returns_bind, (returns_rget lo); [done|]. intros dr e1 T1 S1 A1 B1 _ D1 _ _. specialize (D1 eq_refl).
  apply returns_bind, (returns_rget lo); [done|]. intros tr e2 T2 S2 A2 B2 R2 _ _ _. specialize (R2 eq_refl).
  apply returns_bind, (returns_rget lo); [done|]. intros ssr e3 T3 S3 A3 B3 _ _ U3 _. specialize (U3 eq_refl).
  apply returns_bind, (returns_rget lo); [done|]. intros tr' e4 T4 S4 A4 B4 R4 _ _ _. specialize (R4 eq_refl).
  destruct S1 as (_ & _ & S1), S2 as (_ & S2 & _), S3 as (S3 & _). simpl in *.
  destruct (Z.eqb_spec tr' tr) as [Heq|Hne]; simpl.
  2:{ apply returns_ret. simpl. split_and!; [done|lia..|]. left. intros Eq. apply Hne. rewrite R4, R2.
      unfold tm_at. by replace (sh_tr (rtc_shadow e4) / 256) with (sh_tr (rtc_shadow e2) / 256) by mod_lia. }
  apply returns_bind, (returns_rget lo); [done|]. intros dr' e5 T5 S5 A5 B5 _ D5 _ _. specialize (D5 eq_refl). simpl in *.
  destruct (Z.eqb_spec dr' dr) as [_|Hne]; apply returns_ret; simpl; (split_and!; [done|lia..|]).
  - exists (sh_dr (rtc_shadow e1)), (sh_tr (rtc_shadow e2)), (sh_ssr (rtc_shadow e3)). rewrite D1, R2, U3. split_and!; [lia..|done].
  - right. intros Eq. apply Hne. rewrite D5, D1. unfold dr_at, tm_at.
    by replace (sh_dr (rtc_shadow e5) / 256) with (sh_dr (rtc_shadow e1) / 256) by mod_lia.
Qed.

(** Three rounds are enough: within a second, the time and the date registers go
    over to the next one once each. *)
Lemma rtc_sample_loop lo s fuel : shows_since lo (r_ext s) → rtc_now (r_ext s) ≤ lo + 1 → (3 ≤ fuel)%nat →
  returns (loop fuel rtc_sample tt) s (λ r s', shows_since lo (r_ext s') ∧
    rtc_now (r_ext s) ≤ rtc_now (r_ext s') ≤ rtc_now (r_ext s) + 15 ∧
    ∃ td tt ts, lo ≤ td ≤ rtc_now (r_ext s') ∧ lo ≤ tt ≤ rtc_now (r_ext s') ∧ lo ≤ ts ≤ rtc_now (r_ext s') ∧
      r = (dr_at weekday td, rtc_tr (tm_at tt), 255 - ts `mod` 256)).
Proof.
  intros Hs Hlo Hf. pose proof Hs as (_ & HT & HD). fold (tr_of s) in HT. fold (dr_of s) in HD.
  destruct fuel as [|[|[|fuel]]]; [lia..|].
  rewrite loop_S. apply returns_bind. eapply returns_mono; [by apply (rtc_sample_spec lo)|].
  intros r1 s1 (S1 & T1 & A1 & B1 & R1). destruct r1 as [[]|r]; [|apply returns_ret; split_and!; [done|lia|lia|done]].
  rewrite loop_S. apply returns_bind. eapply returns_mono; [by apply (rtc_sample_spec lo)|].
  intros r2 s2 (S2 & T2 & A2 & B2 & R2). destruct r2 as [[]|r]; [|apply returns_ret; split_and!; [done|lia|lia|done]].
  rewrite loop_S. apply returns_bind. eapply returns_mono; [by apply (rtc_sample_spec lo)|].
  intros r3 s3 (S3 & T3 & A3 & B3 & R3). destruct r3 as [[]|r]; [|apply returns_ret; split_and!; [done|lia|lia|done]].
  exfalso. pose proof S3 as (_ & HT3 & HD3). fold (tr_of s3) in HT3. fold (dr_of s3) in HD3.
  assert (∀ x y z w : Z, x ≤ y → y ≤ z → z ≤ w → w ≤ x + 200 → ¬ (x / 256 ≠ y / 256 ∧ y / 256 ≠ z / 256) ∧
    ¬ (x / 256 ≠ y / 256 ∧ z / 256 ≠ w / 256) ∧ ¬ (y / 256 ≠ z / 256 ∧ z / 256 ≠ w / 256)) as Hstep by (intros; mod_lia).
  pose proof (Hstep (tr_of s) (tr_of s1) (tr_of s2) (tr_of s3)). pose proof (Hstep (dr_of s) (dr_of s1) (dr_of s2) (dr_of s3)). lia.
Qed.

Lemma rtc_nsec_at t : rtc_nsec 0x7f00ff (255 - t `mod` 256) = (t `mod` 256 * 100000) / 256 * 10000.
Proof.
  unfold rtc_nsec, RTC_PRER_PREDIV_S_MASK, RTC_SSR_MASK. change (Z.shiftr (Z.land 0x7f00ff 0x7fff) 0) with 255.
  change 0xffff with (Z.ones 16). rewrite Z.land_ones by lia. set (u := t `mod` 256).
  assert (0 ≤ u < 256) by (subst u; mod_lia). clearbody u. rewrite Z.mod_small by lia.
  rewrite (u32_small (255 - (255 - u))), (u32_small (_ * 100000)) by lia.
  replace (255 - (255 - u)) with u by lia. change (255 + 1) with 256.
  rewrite (u32_small (_ * 10)), u32_small, s32_small by mod_lia. lia.
Qed.

(** The seconds since 1970. *)
Lemma mktime_at t : 0 ≤ t < RTC_END → mktime (tm_at t) = Some (SECS_2000 + t / 256).
Proof.
  unfold RTC_END, SECS_2000, DAYS_2000, SEC_PER_DAY. intros Ht.
  destruct (mktime_gmtime (10957 * 86400 + t / 256)) as (tp & E1 & E2); [mod_lia|].
  rewrite gmtime_calendar in E1 by (unfold SEC_PER_DAY; mod_lia). injection E1 as <-.
  replace (_ && _) with false in E2 by (unfold SEC_PER_DAY; symmetry; apply andb_false_iff; left; mod_lia).
  rewrite <-E2. unfold tm_at, SEC_PER_DAY, DAYS_2000. f_equal. f_equal; [|mod_lia]. do 2 f_equal. mod_lia.
Qed.

(** The date and the time of day read at two moments. *)
Definition tm_read (td tt : Z) : tm :=
  Tm (tm_sec (tm_at tt)) (tm_min (tm_at tt)) (tm_hour (tm_at tt)) (tm_mday (tm_at td)) (tm_mon (tm_at td)) (tm_year (tm_at td)).

Lemma rtc_tm_read td tt : 0 ≤ td < RTC_END → 0 ≤ tt < RTC_END →
  rtc_tm (rtc_tr (tm_at tt)) (dr_at weekday td) = tm_read td tt.
Proof.
  intros Hd Ht. destruct (tm_at_ok td Hd) as [Hokd Hy]. destruct (tm_at_ok tt Ht) as [Hokt _].
  pose proof (rtc_tr_fields _ Hokt) as Ft.
  pose proof (rtc_dr_fields _ _ Hokd Hy (weekday_range (td / 256 / SEC_PER_DAY))) as Fd. fold (dr_at weekday td) in Fd.
  unfold rtc_tm in *. injection Ft as Es Em Eh. injection Fd as Ed Emo Ey.
  by rewrite Es, Em, Eh, Ed, Emo, Ey.
Qed.

Lemma tm_read_at td tt : td / 256 = tt / 256 → tm_read td tt = tm_at tt.
Proof. intros E1. unfold tm_read, tm_at. rewrite E1. by destruct (tm_of _ _). Qed.

(** The registers are up to date. *)
Definition shows_now (e : E) : Prop := shows_since (rtc_now e - 1) e.

(** Reading the clock ends after at most three rounds; the date, the time of day
    and the fraction of a second (to 10 microseconds) are those of three
    moments of the call.  When no second ends in it they are one moment's, and
    mktime gives its time.  When one does, they need not be: see
    [rtc_getdatetime_yesterday]. *)
Theorem rtc_getdatetime_between_seconds s fuel :
  shows_now (r_ext s) → 1 ≤ rtc_now (r_ext s) → rtc_now (r_ext s) + 16 < RTC_END → (3 ≤ fuel)%nat →
  let now := rtc_now (r_ext s) in
  returns (stm32_rtc_getdatetime_with_subseconds fuel true) s (λ r s', ∃ td tt ts,
    Forall (λ t, now - 1 ≤ t ≤ rtc_now (r_ext s')) [td; tt; ts] ∧ rtc_now (r_ext s') ≤ now + 16 ∧
    r = (tm_read td tt, Some ((ts `mod` 256 * 100000) / 256 * 10000)) ∧
    ((now - 1) / 256 = (now + 16) / 256 → r.1 = tm_at ts ∧ mktime r.1 = Some (SECS_2000 + ts / 256))).
Proof.
  intros Hs Hlo Hend Hf now. unfold stm32_rtc_getdatetime_with_subseconds. apply returns_bind. subst now.
  eapply returns_mono; [apply (rtc_sample_loop (rtc_now (r_ext s) - 1)); [exact Hs|lia|done]|].
  intros [[dr tr] ssr] s1 (S1 & T1 & td & tt & ts & Hd & Ht & Hts & [= -> -> ->]).
  apply returns_bind, (returns_rget _ _ _ _ S1). intros v e' T2 _ _ _ _ _ _ P2.
  rewrite (P2 eq_refl). apply returns_ret. exists td, tt, ts. simpl.
  split_and!; [repeat constructor; lia|lia|by rewrite rtc_nsec_at, rtc_tm_read by lia|].
  intros Hsec. assert (td / 256 = ts / 256) by mod_lia. assert (tt / 256 = ts / 256) by mod_lia.
  assert (Eq : rtc_tm (rtc_tr (tm_at tt)) (dr_at weekday td) = tm_at ts).
  { rewrite rtc_tm_read, tm_read_at by (lia || congruence). unfold tm_at. by replace (tt / 256) with (ts / 256). }
  rewrite Eq. split; [done|]. apply mktime_at. lia.
Qed.
End Read.

(** ** A clock, and the hour it fails *)

(** Its time, its registers, and for each read whether the time goes on by
    1/256 second and the calendar is copied. *)
Record rtc_sim := RtcSim { sim_now : Z; sim_shadow : shadow; sim_script : list (bool * bool) }.

Definition sim_read (a : Z) (c : rtc_sim) : Z * rtc_sim :=
  let '(goes, copies) := default (false, false) (head (sim_script c)) in
  let now := if goes : bool then sim_now c + 1 else sim_now c in
  let sh := if copies : bool then copied now (sim_shadow c) else sim_shadow c in
  (if a =? STM32_RTC_TR then rtc_tr (tm_at (sh_tr sh)) else if a =? STM32_RTC_DR then dr_at (λ _, 1) (sh_dr sh)
   else if a =? STM32_RTC_SSR then 255 - sh_ssr sh `mod` 256 else if a =? STM32_RTC_PRER then 0x7f00ff else 0,
   RtcSim now (accessed a sh) (tail (sim_script c))).

#[local] Instance demo_rtc_hw : RtcHw rtc_sim := {
  getreg32 a := λ c, Done (sim_read a c);
  putreg32 a v := mret tt;
}.

#[local, refine] Instance demo_rtc_laws : RtcLaws rtc_sim := { rtc_now := sim_now; rtc_shadow := sim_shadow; weekday _ := 1 }.
Proof.
  - lia.
  - intros c a. unfold returns. simpl. unfold sim_read. destruct (default _ _) as [goes copies].
    set (now := if goes : bool then _ else _). assert (sim_now c ≤ now ≤ sim_now c + 1) by (subst now; destruct goes; lia).
    split; [done|]. eexists. split; [|split; [reflexivity|repeat split; intros ->; reflexivity]]. destruct copies; [right; exists now; simpl; split; [lia|reflexivity]|by left].
Defined.

Definition demo_rtc_at (now : Z) (script : list (bool * bool)) : rtcdrv rtc_sim :=
  Rtcdrv 0 (RtcSim now (Shadow now now now false false) script).

Lemma rtc_getdatetime_between_seconds_witness :
  let s := demo_rtc_at 1000 [(true, true); (false, true)] in let now := rtc_now (r_ext s) in
  returns (stm32_rtc_getdatetime_with_subseconds 3 true) s (λ r s', ∃ td tt ts,
    Forall (λ t, now - 1 ≤ t ≤ rtc_now (r_ext s')) [td; tt; ts] ∧ rtc_now (r_ext s') ≤ now + 16 ∧
    r = (tm_read td tt, Some ((ts `mod` 256 * 100000) / 256 * 10000)) ∧
    ((now - 1) / 256 = (now + 16) / 256 → r.1 = tm_at ts ∧ mktime r.1 = Some (SECS_2000 + ts / 256))).
Proof.
  apply (rtc_getdatetime_between_seconds (demo_rtc_at 1000 [(true, true); (false, true)]) 3).
  - split_and!; simpl; lia.
  - simpl. lia.
  - unfold RTC_END, SEC_PER_DAY. simpl. lia.
  - lia.
Defined.

(** The race that the loop does not close.  The year 2003 ends between the first
    read of the time and that of the sub-seconds: the times differ, and
    [continue] leaves the date locked.  The next round reads yesterday's date,
    which unlocks it; when the calendar is not copied before the time is read,
    this locks the date of yesterday again, both dates agree, and the result is
    midnight at the beginning of the day that is over. *)
Lemma rtc_getdatetime_yesterday :
  ∃ s', stm32_rtc_getdatetime_with_subseconds 3 true
    (demo_rtc_at (1461 * 86400 * 256 - 1) [(false, false); (false, false); (true, true)]) =
    Done (Tm 0 0 0 31 11 103, Some 0, s') ∧
  sim_now (r_ext s') = 1461 * 86400 * 256 ∧ tm_at (sim_now (r_ext s')) = Tm 0 0 0 1 0 104.
Proof. eexists. split; [vm_compute; reflexivity|]. split; vm_compute; reflexivity. Qed.
