(* ===== verification/Clock.v ===== *)
(** The system clock, sched/clock: the code, in the product configuration (a
    32-bit tick counter, ticks of 10 ms, CLOCK_MONOTONIC with an offset, a
    date/time RTC), and the part of the deep sleep of
    configs/haltian-tsone/src/up_deepsleep.c that sets the clocks right.

    time_t is unsigned, long and ssystime_t are signed 32-bit integers.
    Interrupts are disabled where several words are accessed. *)

From S2P Require Import Prelude Calendar.

(** * include/time.h, include/nuttx/clock.h *)
Record timespec := Timespec {
  tv_sec : Z;
  tv_nsec : Z;
}.

Definition CLOCK_REALTIME : Z := 0.
Definition CLOCK_MONOTONIC : Z := 1.
Definition NSEC_PER_SEC : Z := 1000000000.
Definition NSEC_PER_MSEC : Z := 1000000.
Definition MSEC_PER_SEC : Z := 1000.
Definition MSEC_PER_TICK : Z := 10.
Definition NSEC_PER_TICK : Z := 10000000.
Definition TICK_PER_SEC : Z := 100.
Definition EINVAL : Z := 22.
Definition OK : Z := 0.
Definition ERROR : Z := -1.

(** The real-time clock and errno. *)
Class RtcClock (E : Type) := {
  up_rtc_getdatetime_with_subseconds : M E (tm * Z);
  up_rtc_settime : timespec → M E unit;
  clock_set_errno : Z → M E unit;
}.

(** The global variables, and the rest of the system. *)
Record clock (E : Type) := Clock {
  g_system_timer : Z;
  g_basetime : timespec;
  g_monotonic_offset_time : timespec;
  g_rtc_enabled : bool;
  c_ext : E;
}.
Arguments Clock {_} _ _ _ _ _.
Arguments g_system_timer {_} _.
Arguments g_basetime {_} _.
Arguments g_monotonic_offset_time {_} _.
Arguments g_rtc_enabled {_} _.
Arguments c_ext {_} _.

Section Clock.
Context {E : Type} `{RtcClock E}.
Local Abbreviation st := (clock E).

Definition set_timer (n : Z) (c : st) : st :=
  Clock n (g_basetime c) (g_monotonic_offset_time c) (g_rtc_enabled c) (c_ext c).
Definition set_basetime (t : timespec) (c : st) : st :=
  Clock (g_system_timer c) t (g_monotonic_offset_time c) (g_rtc_enabled c) (c_ext c).
Definition set_offset (t : timespec) (c : st) : st :=
  Clock (g_system_timer c) (g_basetime c) t (g_rtc_enabled c) (c_ext c).
Definition set_cext (e : E) (c : st) : st :=
  Clock (g_system_timer c) (g_basetime c) (g_monotonic_offset_time c) (g_rtc_enabled c) e.
Definition rest {A} (e : M E A) : M st A := zoom c_ext set_cext e.

(** * clock_initialize.c: clock_timer; clock_systimer.c *)
Definition clock_timer : M st unit := modify (λ c, set_timer (u32 (g_system_timer c + 1)) c).
Definition clock_systimer : M st Z := gets g_system_timer.

(** * clock_systimespec.c: 64-bit arithmetic *)
Definition clock_systimespec : M st timespec :=
  ticks ← clock_systimer;
  let msecs := ticks * MSEC_PER_TICK in
  let secs := msecs / MSEC_PER_SEC in
  let nsecs := (msecs - secs * MSEC_PER_SEC) * NSEC_PER_MSEC in
  mret (Timespec (u32 secs) (s32 nsecs)).

(** Adding two times, and the carry to the seconds. *)
Definition add_carry (sec nsec : Z) : timespec :=
  if NSEC_PER_SEC <=? nsec then
    let carry := nsec / NSEC_PER_SEC in
    Timespec (u32 (sec + carry)) (s32 (nsec - u32 (carry * NSEC_PER_SEC)))
  else Timespec sec nsec.

(** * clock_gettime.c; the result is the return value and the time stored *)
Definition clock_gettime (clock_id : Z) (tp : bool) : M st (Z * option timespec) :=
  assert tp;;
  if clock_id =? CLOCK_MONOTONIC then
    ts ← clock_systimespec;
    off ← gets g_monotonic_offset_time;
    mret (OK, Some (add_carry (u32 (tv_sec ts + tv_sec off)) (s32 (tv_nsec ts + tv_nsec off))))
  else if clock_id =? CLOCK_REALTIME then
    ts ← clock_systimespec;
    base ← gets g_basetime;
    mret (OK, Some (add_carry (u32 (tv_sec ts + tv_sec base)) (s32 (tv_nsec ts + tv_nsec base))))
  else
    rest (clock_set_errno EINVAL);;
    mret (ERROR, None).

(** Making [bias] after power-up the time [tp]. *)
Definition rebase (tp bias : timespec) : timespec :=
  let base := if tv_nsec tp <? tv_nsec bias
              then Timespec (u32 (tv_sec tp - 1)) (s32 (tv_nsec tp + NSEC_PER_SEC)) else tp in
  Timespec (u32 (tv_sec base - tv_sec bias)) (s32 (tv_nsec base - tv_nsec bias)).

(** * clock_settime.c *)
Definition clock_settime (clock_id : Z) (tp : timespec) : M st Z :=
  if clock_id =? CLOCK_REALTIME then
    bias ← clock_systimespec;
    modify (set_basetime (rebase tp bias));;
    enabled ← gets g_rtc_enabled;
    (if enabled : bool then rest (up_rtc_settime tp) else mret tt);;
    mret OK
  else
    rest (clock_set_errno EINVAL);;
    mret ERROR.

(** * clock_getres.c *)
Definition clock_getres (clock_id : Z) : M st (Z * option timespec) :=
  if negb (clock_id =? CLOCK_REALTIME) then
    rest (clock_set_errno EINVAL);;
    mret (ERROR, None)
  else mret (OK, Some (Timespec 0 NSEC_PER_TICK)).

(** * clock_time2ticks.c: 64-bit arithmetic; division rounds towards zero *)
Definition clock_time2ticks (reltime : timespec) : Z :=
  let relnsec := tv_sec reltime * NSEC_PER_SEC + tv_nsec reltime in
  s32 (Z.quot (relnsec + NSEC_PER_TICK - 1) NSEC_PER_TICK).

(** * clock_ticks2time.c *)
Definition clock_ticks2time (ticks : Z) : timespec :=
  let sec := u32 (Z.quot ticks TICK_PER_SEC) in
  let remainder := s32 (ticks - u32 (TICK_PER_SEC * sec)) in
  Timespec sec (s32 (remainder * NSEC_PER_TICK)).

(** * clock_abstime2ticks.c *)
Definition compare_timespec (a b : timespec) : Z :=
  if tv_sec a <? tv_sec b then -1
  else if tv_sec b <? tv_sec a then 1
  else s32 (tv_nsec a - tv_nsec b).

(** The return value and the ticks stored. *)
Definition clock_abstime2ticks (clockid : Z) (abstime : timespec) : M st (Z * option Z) :=
  r ← clock_gettime clockid true;
  match r : Z * option timespec with
  | (ret, Some currtime) =>
      if negb (ret =? OK) then mret (EINVAL, None)
      else if compare_timespec abstime currtime <? 0 then mret (OK, Some (-1))
      else
        let nsec := s32 (tv_nsec abstime - tv_nsec currtime) in
        let sec := u32 (tv_sec abstime - tv_sec currtime) in
        let reltime := if nsec <? 0 then Timespec (u32 (sec - 1)) (s32 (nsec + NSEC_PER_SEC)) else Timespec sec nsec in
        mret (OK, Some (clock_time2ticks reltime))
  | (_, None) => mret (EINVAL, None)
  end.

(** * clock_initialize.c *)

(** mktime faults on a month that is not one. *)
Definition mktime_st (tp : tm) : M st Z := λ c,
  match mktime tp with Some sec => Done (sec, c) | None => Fault end.

Definition clock_basetime : M st timespec :=
  r ← rest up_rtc_getdatetime_with_subseconds;
  let '(rtctime, nsecs) := r : tm * Z in
  sec ← mktime_st rtctime;
  mret (Timespec sec nsecs).

Definition clock_inittime : M st unit :=
  tp ← clock_basetime;
  modify (set_basetime tp);;
  modify (set_timer 0).

Definition clock_increase_monotonic_offset (add : timespec) : M st unit :=
  off ← gets g_monotonic_offset_time;
  modify (set_offset (add_carry (u32 (tv_sec off + tv_sec add)) (s32 (tv_nsec off + tv_nsec add)))).

Definition clock_synchronize : M st unit := clock_inittime.

(** The carry between the fields of a difference. *)
Definition norm_diff (sec nsec : Z) : timespec :=
  let carry := if nsec <? 0 then - (- (nsec + 1) / NSEC_PER_SEC + 1)
               else if NSEC_PER_SEC <=? nsec then nsec / NSEC_PER_SEC else 0 in
  if negb (carry =? 0) then Timespec (u32 (sec + carry)) (s32 (nsec - carry * NSEC_PER_SEC)) else Timespec sec nsec.

(** The result is rtc_diff. *)
Definition clock_resynchronize : M st timespec :=
  rtc_time ← clock_basetime;
  bias ← clock_systimespec;
  base ← gets g_basetime;
  let curr := add_carry (u32 (tv_sec bias + tv_sec base)) (s32 (tv_nsec bias + tv_nsec base)) in
  if (tv_sec rtc_time <? tv_sec curr) ||
     ((tv_sec curr =? tv_sec rtc_time) && (tv_nsec rtc_time <=? tv_nsec curr)) then mret (Timespec 0 0)
  else
    let base := rebase rtc_time bias in
    modify (set_basetime base);;
    let sec := u32 (u32 (tv_sec bias + tv_sec base) - tv_sec curr) in
    let nsec := s32 (s32 (tv_nsec bias + tv_nsec base) - tv_nsec curr) in
    mret (norm_diff sec nsec).

(** * up_deepsleep.c: after the processor has been stopped *)
Definition board_deepsleep_sync : M st unit :=
  diff_ts ← clock_resynchronize;
  clock_increase_monotonic_offset diff_ts.
End Clock.
