(* ===== verification/ClockThms.v ===== *)
(** The system clock: the theorems.

    A time is compared with the number of nanoseconds it stands for; the clocks
    show times modulo 2^32 seconds.  The tick counter itself has 32 bits: the
    theorems speak about the 497 days until it starts again. *)

From S2P Require Import Prelude Calendar CalendarThms Rtc RtcThms Clock.

(** * Nanoseconds *)
Definition ns (t : timespec) : Z := tv_sec t * NSEC_PER_SEC + tv_nsec t.
Definition norm (t : timespec) : Prop := 0 ≤ tv_sec t < 2 ^ 32 ∧ 0 ≤ tv_nsec t < NSEC_PER_SEC.
Definition ts_of (x : Z) : timespec := Timespec (u32 (x / NSEC_PER_SEC)) (x `mod` NSEC_PER_SEC).
Definition WRAP : Z := 2 ^ 32 * NSEC_PER_SEC.

Ltac time_lia := unfold ns, norm, ts_of, WRAP, NSEC_PER_SEC, NSEC_PER_TICK, NSEC_PER_MSEC, MSEC_PER_SEC, MSEC_PER_TICK, u32 in *;
  simpl in *; Z.to_euclidean_division_equations; lia.

Lemma ts_of_norm x : norm (ts_of x).
Proof. time_lia. Qed.

Lemma ns_ts_of x : ns (ts_of x) = x `mod` WRAP.
Proof. time_lia. Qed.

Lemma ts_of_ns t : norm t → ts_of (ns t) = t.
Proof. destruct t as [s n]. intros Hn. unfold ts_of. f_equal; time_lia. Qed.

Lemma ts_of_wrap x k : ts_of (x + k * WRAP) = ts_of x.
Proof. unfold ts_of. f_equal; time_lia. Qed.

Lemma ts_of_mod x y : ts_of (x `mod` WRAP + y) = ts_of (x + y).
Proof.
  rewrite <-(ts_of_wrap (x `mod` WRAP + y) (x / WRAP)). f_equal.
  pose proof (Z.div_mod x WRAP ltac:(done)). lia.
Qed.

(** A carry, a borrow. *)
Lemma add_carry_ok s1 n1 s2 n2 :
  0 ≤ n1 < NSEC_PER_SEC → 0 ≤ n2 < NSEC_PER_SEC →
  add_carry (u32 (s1 + s2)) (s32 (n1 + n2)) = ts_of (s1 * NSEC_PER_SEC + n1 + (s2 * NSEC_PER_SEC + n2)).
Proof.
  intros H1 H2. unfold add_carry. rewrite s32_small by time_lia. unfold ts_of.
  destruct (Z.leb_spec NSEC_PER_SEC (n1 + n2)) as [Hc|Hc].
  - replace ((n1 + n2) / NSEC_PER_SEC) with 1 by time_lia. rewrite (u32_small (1 * _)), s32_small by time_lia.
    f_equal; time_lia.
  - f_equal; time_lia.
Qed.

Lemma rebase_ok tp bias : norm tp → norm bias → rebase tp bias = ts_of (ns tp - ns bias).
Proof.
  intros H1 H2. unfold rebase, ts_of. destruct (Z.ltb_spec (tv_nsec tp) (tv_nsec bias)); cbn [tv_sec tv_nsec].
  - rewrite !s32_small by (rewrite ?s32_small; time_lia). f_equal; time_lia.
  - rewrite s32_small by time_lia. f_equal; time_lia.
Qed.

Lemma norm_diff_ok s1 n1 t :
  0 ≤ n1 < 2 * NSEC_PER_SEC → norm t →
  norm_diff (u32 (u32 s1 - tv_sec t)) (s32 (s32 n1 - tv_nsec t)) = ts_of (s1 * NSEC_PER_SEC + n1 - ns t).
Proof.
  intros H1 H2. unfold norm_diff. rewrite (s32_small n1), s32_small by time_lia. unfold ts_of.
  destruct (Z.ltb_spec (n1 - tv_nsec t) 0).
  - replace (- (- (n1 - tv_nsec t + 1) / NSEC_PER_SEC + 1)) with (-1) by time_lia. cbn [negb Z.eqb].
    rewrite s32_small by time_lia. f_equal; time_lia.
  - destruct (Z.leb_spec NSEC_PER_SEC (n1 - tv_nsec t)).
    + replace ((n1 - tv_nsec t) / NSEC_PER_SEC) with 1 by time_lia. cbn [negb Z.eqb].
      rewrite s32_small by time_lia. f_equal; time_lia.
    + cbn [negb Z.eqb]. f_equal; time_lia.
Qed.

(** * The clocks *)
Section ClockSpec.
Context {E : Type} `{RtcClock E}.
Implicit Types (c : clock E).

Record clock_ok c : Prop := {
  ck_timer : 0 ≤ g_system_timer c < 2 ^ 32;
  ck_base : norm (g_basetime c);
  ck_offset : norm (g_monotonic_offset_time c);
}.

(** Nanoseconds since power-up, and what the two clocks show. *)
Definition uptime c : Z := g_system_timer c * NSEC_PER_TICK.
Definition realtime c : timespec := ts_of (ns (g_basetime c) + uptime c).
Definition monotonic c : timespec := ts_of (ns (g_monotonic_offset_time c) + uptime c).

Lemma systimespec_spec c : 0 ≤ g_system_timer c < 2 ^ 32 →
  returns clock_systimespec c (λ ts c', c' = c ∧ ts = ts_of (uptime c)).
Proof.
  intros Ht. unfold clock_systimespec, clock_systimer. apply returns_bind, returns_gets, returns_ret. split; [done|].
  unfold ts_of, uptime. f_equal; [time_lia|]. rewrite s32_small by time_lia. time_lia.
Qed.

Lemma uptime_norm c : 0 ≤ g_system_timer c < 2 ^ 32 → 0 ≤ uptime c < WRAP.
Proof. unfold uptime. time_lia. Qed.

(** Both clocks are the time since power-up plus a start. *)
Lemma clock_sum c off : 0 ≤ g_system_timer c < 2 ^ 32 → norm off →
  add_carry (u32 (tv_sec (ts_of (uptime c)) + tv_sec off)) (s32 (tv_nsec (ts_of (uptime c)) + tv_nsec off)) =
  ts_of (ns off + uptime c).
Proof.
  intros Ht Ho. pose proof (ts_of_norm (uptime c)) as [_ Hn]. rewrite add_carry_ok by (done || apply Ho).
  change (ts_of (ns (ts_of (uptime c)) + ns off) = ts_of (ns off + uptime c)).
  rewrite ns_ts_of, Z.mod_small by (by apply uptime_norm). f_equal. lia.
Qed.

Lemma gettime_spec c id ts :
  clock_ok c → (id = CLOCK_REALTIME ∧ ts = realtime c) ∨ (id = CLOCK_MONOTONIC ∧ ts = monotonic c) →
  returns (clock_gettime id true) c (λ r c', c' = c ∧ r = (OK, Some ts)).
Proof.
  intros [Ht Hb Ho] Hid. unfold clock_gettime. apply returns_bind, returns_assert; [done|].
  destruct Hid as [[-> ->]|[-> ->]]; simpl; apply returns_bind; (eapply returns_mono; [by apply systimespec_spec|]);
    intros ts c' [-> ->]; apply returns_bind, returns_gets, returns_ret; (split; [done|]); do 2 f_equal;
    by apply clock_sum.
Qed.

(** [n] ticks. *)
Fixpoint clock_ticks (n : nat) : M (clock E) unit :=
  match n with O => mret tt | S n => clock_timer;; clock_ticks n end.

Lemma clock_ticks_spec n c : 0 ≤ g_system_timer c → g_system_timer c + Z.of_nat n < 2 ^ 32 →
  returns (clock_ticks n) c (λ _ c', c' = set_timer (g_system_timer c + Z.of_nat n) c).
Proof.
  revert c. induction n as [|n IH]; intros c H0 Hn; simpl.
  - apply returns_ret. rewrite Z.add_0_r. by destruct c.
  - apply returns_bind, returns_modify. rewrite u32_small by lia.
    eapply returns_mono; [apply IH; simpl; lia|]. intros [] c' ->. destruct c. unfold set_timer. simpl. f_equal. lia.
Qed.

(** ** Setting the clock *)
Lemma settime_spec c tp (Q : E → Prop) :
  returns (up_rtc_settime tp) (c_ext c) (λ _ e, Q e) → clock_ok c → norm tp → Q (c_ext c) →
  returns (clock_settime CLOCK_REALTIME tp) c (λ r c', r = OK ∧ ∃ e, Q e ∧
    c' = set_cext e (set_basetime (ts_of (ns tp - uptime c)) c)).
Proof.
  intros Hrtc [Ht Hb Ho] Htp HQ. unfold clock_settime. simpl. apply returns_bind.
  eapply returns_mono; [by apply systimespec_spec|]. intros bias c' [-> ->].
  apply returns_bind, returns_modify, returns_bind, returns_gets, returns_bind.
  rewrite rebase_ok by (done || apply ts_of_norm). rewrite ns_ts_of, Z.mod_small by (by apply uptime_norm).
  simpl. destruct (g_rtc_enabled c).
  - apply returns_zoom. eapply returns_mono; [apply Hrtc|]. intros [] e He. apply returns_ret. split; [done|]. by exists e.
  - apply returns_ret, returns_ret. split; [done|]. exists (c_ext c). split; [done|]. by destruct c.
Qed.

(** The clock shows the time it was set to plus the ticks since then, to
    the nanosecond, with the seconds modulo 2^32. *)
Theorem clock_settime_gettime c tp n :
  (∀ e : E, returns (up_rtc_settime tp) e (λ _ _, True)) → clock_ok c → norm tp →
  g_system_timer c + Z.of_nat n < 2 ^ 32 →
  returns (_ ← clock_settime CLOCK_REALTIME tp; _ ← clock_ticks n; clock_gettime CLOCK_REALTIME true) c (λ r c',
    r = (OK, Some (ts_of (ns tp + Z.of_nat n * NSEC_PER_TICK))) ∧ clock_ok c' ∧ monotonic c' = ts_of (ns (monotonic c) + Z.of_nat n * NSEC_PER_TICK)).
Proof.
  intros Hrtc Hok Htp Hn. pose proof Hok as [Ht Hb Ho]. apply returns_bind.
  eapply returns_mono; [by apply (settime_spec c tp (λ _, True))|]. intros r c1 (-> & e & _ & ->). apply returns_bind.
  eapply returns_mono; [apply clock_ticks_spec; simpl; lia|]. intros [] c2 ->.
  set (c2 := set_timer _ _). assert (Hok2 : clock_ok c2) by (split; simpl; [lia|apply ts_of_norm|done]).
  eapply returns_mono; [apply (gettime_spec c2 CLOCK_REALTIME); [done|by left]|]. intros r c' [-> ->].
  split_and!; [|done|].
  - unfold realtime, uptime. simpl. do 2 f_equal. rewrite ns_ts_of, ts_of_mod. unfold uptime. f_equal. lia.
  - unfold monotonic. rewrite ns_ts_of, ts_of_mod. unfold uptime. simpl. f_equal. lia.
Qed.

(** ** Timeouts *)
Lemma compare_timespec_spec a b : norm a → norm b → (compare_timespec a b <? 0) = (ns a <? ns b).
Proof.
  intros Ha Hb. unfold compare_timespec. destruct (Z.ltb_spec (tv_sec a) (tv_sec b)).
  { symmetry. apply Z.ltb_lt. time_lia. }
  destruct (Z.ltb_spec (tv_sec b) (tv_sec a)); [symmetry; apply Z.ltb_ge; time_lia|].
  rewrite s32_small by time_lia. destruct (Z.ltb_spec (ns a) (ns b)); [apply Z.ltb_lt|apply Z.ltb_ge]; time_lia.
Qed.

(** The number of ticks that last at least [d] nanoseconds. *)
Definition ticks_for (d : Z) : Z := (d + NSEC_PER_TICK - 1) / NSEC_PER_TICK.

Lemma time2ticks_spec t : 0 ≤ ns t → clock_time2ticks t = s32 (ticks_for (ns t)).
Proof. intros Ht. unfold clock_time2ticks, ticks_for. rewrite Z.quot_div_nonneg by time_lia. done. Qed.

Lemma abstime2ticks_spec c abstime : clock_ok c → norm abstime →
  returns (clock_abstime2ticks CLOCK_REALTIME abstime) c (λ r c', c' = c ∧
    r = (OK, Some (if ns abstime <? ns (realtime c) then -1 else s32 (ticks_for (ns abstime - ns (realtime c)))))).
Proof.
  intros Hok Ha. unfold clock_abstime2ticks. apply returns_bind.
  eapply returns_mono; [apply (gettime_spec c CLOCK_REALTIME); [done|by left]|]. intros r c' [-> ->].
  assert (Hr : norm (realtime c)) by apply ts_of_norm. revert Hr. generalize (realtime c). intros now Hr. simpl.
  rewrite compare_timespec_spec by done. destruct (Z.ltb_spec (ns abstime) (ns now)) as [|Hge]; apply returns_ret; [done|].
  split; [done|]. do 2 f_equal. rewrite s32_small by time_lia.
  match goal with |- context [clock_time2ticks ?t] => set (rel := t) end. assert (Er : ns rel = ns abstime - ns now); [|by rewrite time2ticks_spec, Er by lia].
  subst rel. destruct (Z.ltb_spec (tv_nsec abstime - tv_nsec now) 0).
  - rewrite s32_small by time_lia. time_lia.
  - time_lia.
Qed.

(** C40: a time that has passed gives -1, and any other is converted to the
    least number [n] of ticks that reaches it, rounding up, cut to a signed
    32-bit integer. Up to 2^31 - 1 ticks (248 days) that is [n] itself; beyond,
    up to 2^32 - 1 ticks (497 days), it is negative, like the result for a time
    that has passed; from 2^32 ticks on it starts again at 0. *)
Theorem clock_abstime2ticks_bounds c abstime :
  clock_ok c → norm abstime →
  returns (clock_abstime2ticks CLOCK_REALTIME abstime) c (λ r c', c' = c ∧ ∃ k,
    let d := ns abstime - ns (realtime c) in r = (OK, Some k) ∧
    (d < 0 → k = -1) ∧
    (0 ≤ d → ∃ n, 0 ≤ n ∧ (n - 1) * NSEC_PER_TICK < d ≤ n * NSEC_PER_TICK ∧ k = s32 n ∧
      (n < 2 ^ 31 → k = n) ∧ (2 ^ 31 ≤ n < 2 ^ 32 → k = n - 2 ^ 32) ∧ (n = 2 ^ 32 → k = 0))).
Proof.
  intros Hok Ha. eapply returns_mono; [by apply abstime2ticks_spec|]. intros r c' [-> ->]. split; [done|].
  eexists. simpl. set (d := ns abstime - ns (realtime c)). split; [done|].
  destruct (Z.ltb_spec (ns abstime) (ns (realtime c))); [split_and!; intros; [done|lia]|].
  split; intros; [lia|]. unfold ticks_for, s32, NSEC_PER_TICK in *. eexists. split_and!; [| | |reflexivity|..]; intros; mod_lia.
Qed.

(** ** After deep sleep *)

(** The RTC gives a time for which [P] holds. *)
Definition rtc_gives c (P : timespec → Prop) : Prop :=
  returns up_rtc_getdatetime_with_subseconds (c_ext c) (λ r _, ∃ rtc,
    mktime r.1 = Some (tv_sec rtc) ∧ r.2 = tv_nsec rtc ∧ norm rtc ∧ P rtc).

Lemma basetime_spec c P : rtc_gives c P →
  returns clock_basetime c (λ rtc c', norm rtc ∧ P rtc ∧ ∃ e, c' = set_cext e c).
Proof.
  intros HP. unfold clock_basetime. apply returns_bind, returns_zoom. eapply returns_mono; [exact HP|].
  intros [tp nsec] e (rtc & Hs & Hn & Hnorm & HPr). simpl in *. subst nsec. apply returns_bind.
  unfold mktime_st, returns. rewrite Hs. simpl. split_and!; [by destruct rtc..|]. by exists e.
Qed.

(** Adding a time to a time. *)
Lemma add_ts s1 s2 : norm s1 → norm s2 →
  add_carry (u32 (tv_sec s1 + tv_sec s2)) (s32 (tv_nsec s1 + tv_nsec s2)) = ts_of (ns s1 + ns s2).
Proof. intros H1 H2. by rewrite add_carry_ok by (apply H1 || apply H2). Qed.

Lemma later_than a b : norm a → norm b →
  (tv_sec a <? tv_sec b) || ((tv_sec b =? tv_sec a) && (tv_nsec a <=? tv_nsec b)) = negb (ns b <? ns a).
Proof.
  intros Ha Hb. destruct (Z.ltb_spec (tv_sec a) (tv_sec b)), (Z.eqb_spec (tv_sec b) (tv_sec a)),
    (Z.leb_spec (tv_nsec a) (tv_nsec b)), (Z.ltb_spec (ns b) (ns a)); simpl; try done; exfalso; time_lia.
Qed.

(** clock_resynchronize never sets the clock back, and returns by how much it
    set it forward. *)
Lemma resynchronize_spec c P : clock_ok c → rtc_gives c P →
  returns clock_resynchronize c (λ diff c', ∃ rtc e base, norm rtc ∧ P rtc ∧ norm base ∧
    c' = set_cext e (set_basetime base c) ∧ norm diff ∧
    realtime c' = (if ns (realtime c) <? ns rtc then rtc else realtime c) ∧
    ns diff = ns (realtime c') - ns (realtime c)).
Proof.
  intros [Ht Hb Ho] HP. unfold clock_resynchronize. apply returns_bind.
  eapply returns_mono; [by apply basetime_spec|]. intros rtc c1 (Hr & HPr & e & ->). apply returns_bind.
  eapply returns_mono; [by apply systimespec_spec|]. intros bias c' [-> ->]. apply returns_bind, returns_gets.
  change (uptime (set_cext e c)) with (uptime c). cbn [g_basetime set_cext].
  rewrite clock_sum by done. fold (realtime c). assert (Hc : norm (realtime c)) by apply ts_of_norm.
  rewrite later_than by done. destruct (Z.ltb_spec (ns (realtime c)) (ns rtc)) as [Hlt|Hge]; simpl negb; cbv iota.
  2:{ apply returns_ret. exists rtc, e, (g_basetime c). split_and!; try done; change (realtime (set_cext e c)) with (realtime c).
      - by rewrite (proj2 (Z.ltb_ge _ _)).
      - rewrite Z.sub_diag. done. }
  rewrite rebase_ok by (done || apply ts_of_norm). rewrite ns_ts_of, Z.mod_small by (by apply uptime_norm).
  apply returns_bind, returns_modify, returns_ret. set (base := ts_of (ns rtc - uptime c)).
  assert (Hbase : norm base) by apply ts_of_norm. pose proof (ts_of_norm (uptime c)) as Hu.
  rewrite norm_diff_ok by (destruct Hbase, Hu; done || lia).
  replace (_ * NSEC_PER_SEC + _ - ns (realtime c)) with (ns base + (ns (ts_of (uptime c)) - ns (realtime c)))
    by (unfold ns; lia).
  assert (Ediff : ts_of (ns base + (ns (ts_of (uptime c)) - ns (realtime c))) = ts_of (ns rtc - ns (realtime c))).
  { subst base. rewrite (ns_ts_of (uptime c)), (Z.mod_small (uptime c)) by (by apply uptime_norm).
    rewrite ns_ts_of, ts_of_mod. f_equal. lia. }
  rewrite Ediff. change (set_basetime base (set_cext e c)) with (set_cext e (set_basetime base c)).
  assert (Er : realtime (set_cext e (set_basetime base c)) = rtc).
  { unfold realtime. change (uptime (set_cext e (set_basetime base c))) with (uptime c). simpl. unfold base.
    rewrite ns_ts_of, ts_of_mod. rewrite Z.sub_add. by apply ts_of_ns. }
  exists rtc, e, base. split_and!; try done; [apply ts_of_norm| |]; rewrite Er.
  - by rewrite (proj2 (Z.ltb_lt _ _)).
  - rewrite ns_ts_of, Z.mod_small; [done|]. unfold ns, norm, WRAP, NSEC_PER_SEC in *. lia.
Qed.

(** C39: after deep sleep CLOCK_REALTIME shows the time of the RTC, unless it
    was ahead already, and CLOCK_MONOTONIC has gone forward by just as much:
    neither goes back. *)
Theorem board_deepsleep_sync_correct c P : clock_ok c → rtc_gives c P →
  returns board_deepsleep_sync c (λ _ c', clock_ok c' ∧ ∃ rtc, P rtc ∧
    realtime c' = (if ns (realtime c) <? ns rtc then rtc else realtime c) ∧
    monotonic c' = ts_of (ns (monotonic c) + (ns (realtime c') - ns (realtime c)))).
Proof.
  intros Hok HP. pose proof Hok as [Ht Hb Ho]. unfold board_deepsleep_sync. apply returns_bind.
  eapply returns_mono; [by apply resynchronize_spec|].
  intros diff c1 (rtc & e & base & Hr & HPr & Hbase & -> & Hd & Er & Ed).
  unfold clock_increase_monotonic_offset. apply returns_bind, returns_gets, returns_modify.
  simpl g_monotonic_offset_time. rewrite add_ts by done. split.
  - split; simpl; [done|done|apply ts_of_norm].
  - exists rtc. split_and!; [done|exact Er|].
    change (realtime (set_offset _ ?c1)) with (realtime c1). rewrite <-Ed. unfold monotonic, uptime. simpl. rewrite !ns_ts_of, !ts_of_mod. f_equal. lia.
Qed.

(** ** Where the clocks do go back *)

(** clock_synchronize sets the tick counter to zero, and with it
    CLOCK_MONOTONIC back to its offset. *)
Lemma synchronize_resets_monotonic c P : rtc_gives c P → norm (g_monotonic_offset_time c) →
  returns clock_synchronize c (λ _ c', monotonic c' = g_monotonic_offset_time c).
Proof.
  intros HP Hn. unfold clock_synchronize, clock_inittime. apply returns_bind.
  eapply returns_mono; [by apply basetime_spec|]. intros rtc c1 (_ & _ & e & ->).
  apply returns_bind, returns_modify, returns_modify. unfold monotonic, uptime. simpl. rewrite Z.add_0_r.
  by apply ts_of_ns.
Qed.

(** The tick counter starts again after 2^32 ticks, and both clocks with it. *)
Lemma clock_timer_wraps c : g_system_timer c = 2 ^ 32 - 1 → norm (g_basetime c) →
  returns clock_timer c (λ _ c', realtime c' = g_basetime c).
Proof.
  intros Ht Hn. apply returns_modify. unfold realtime, uptime. simpl. rewrite Ht. change (u32 (2 ^ 32 - 1 + 1)) with 0.
  rewrite Z.add_0_r. by apply ts_of_ns.
Qed.
End ClockSpec.

(** * The clock on the RTC of the STM32 *)

(** The driver, sampling for at most [rounds] rounds, and errno. *)
#[global] Instance stm32_rtc {E} `{RtcHw E} (rounds : nat) : RtcClock (rtcdrv E * Z) := {
  up_rtc_getdatetime_with_subseconds :=
    r ← zoom fst (λ d x, (d, x.2)) (stm32_rtc_getdatetime_with_subseconds rounds true);
    mret (r.1, default 0 r.2);
  up_rtc_settime tp := _ ← zoom fst (λ d x, (d, x.2)) (Rtc.up_rtc_settime (tv_sec tp)); mret tt;
  clock_set_errno e := modify (λ x, (x.1, e));
}.

(** The time of the RTC, to 10 microseconds, when no second ends while it is read. *)
Definition rtc_time (t : Z) : timespec := Timespec (SECS_2000 + t / 256) ((t `mod` 256 * 100000) / 256 * 10000).

Lemma rtc_gives_instant {E} `{RtcLaws E} (c : clock (rtcdrv E * Z)) rounds :
  let now := rtc_now (r_ext (c_ext c).1) in shows_now (r_ext (c_ext c).1) →
  1 ≤ now → now + 16 < RTC_END → (now - 1) / 256 = (now + 16) / 256 → (3 ≤ rounds)%nat →
  @rtc_gives _ (stm32_rtc rounds) c (λ rtc, ∃ t, now - 1 ≤ t ≤ now + 16 ∧ rtc = rtc_time t).
Proof.
  intros now Hs Hlo Hend Hsec Hf. unfold rtc_gives. apply returns_bind, returns_zoom.
  eapply returns_mono; [by apply rtc_getdatetime_between_seconds|].
  intros r s' (td & tt & t & Ht & Ht' & Hr & Hm). destruct (Hm Hsec) as [_ Em]. apply returns_ret. rewrite Hr in Em |- *.
  repeat (apply Forall_cons in Ht as [? Ht]). fold now in H2, Ht'.
  exists (rtc_time t). split_and!; [exact Em|done| |exists t; split; [lia|done]].
  unfold rtc_time, norm, SECS_2000, DAYS_2000, RTC_END, SEC_PER_DAY, NSEC_PER_SEC in *. simpl. mod_lia.
Qed.

(** ** A clock for the witnesses, half a second behind its RTC. *)
#[local] Existing Instances demo_rtc_hw demo_rtc_laws.

Definition demo_clock : clock (rtcdrv rtc_sim * Z) :=
  Clock 1000 (Timespec (SECS_2000 + 990) 250000000) (Timespec 5 999999999) true (demo_rtc_at 256192 [(true, true)], 0).

Lemma demo_clock_ok : clock_ok demo_clock.
Proof. unfold demo_clock. split; unfold norm, SECS_2000, DAYS_2000, SEC_PER_DAY, NSEC_PER_SEC; simpl; lia. Qed.

(** An RTC that cannot be set, for the witnesses. *)
#[local] Instance demo_no_rtc : RtcClock unit := {
  up_rtc_getdatetime_with_subseconds := mret (Tm 0 0 0 1 0 100, 0);
  up_rtc_settime tp := mret tt;
  clock_set_errno e := mret tt;
}.

Definition demo_plain : clock unit := Clock 12345 (Timespec 77 999999999) (Timespec 0 0) true tt.

Lemma demo_plain_ok : clock_ok demo_plain.
Proof. unfold demo_plain. split; unfold norm, NSEC_PER_SEC; simpl; lia. Qed.

Lemma clock_settime_gettime_witness :
  returns (_ ← clock_settime CLOCK_REALTIME (Timespec 1700000000 0); _ ← clock_ticks 3; clock_gettime CLOCK_REALTIME true)
    demo_plain (λ r c', r = (OK, Some (ts_of (ns (Timespec 1700000000 0) + Z.of_nat 3 * NSEC_PER_TICK))) ∧ clock_ok c' ∧
    monotonic c' = ts_of (ns (monotonic demo_plain) + Z.of_nat 3 * NSEC_PER_TICK)).
Proof.
  apply (clock_settime_gettime demo_plain (Timespec 1700000000 0) 3);
    [done|apply demo_plain_ok|unfold norm, NSEC_PER_SEC; simpl; lia|unfold demo_plain; simpl; lia].
Defined.

Lemma board_deepsleep_sync_correct_witness :
  let P rtc := ∃ t, rtc_now (r_ext (c_ext demo_clock).1) - 1 ≤ t ≤ rtc_now (r_ext (c_ext demo_clock).1) + 16 ∧ rtc = rtc_time t in
  returns (@board_deepsleep_sync _ (stm32_rtc 3)) demo_clock (λ _ c', clock_ok c' ∧ ∃ rtc, P rtc ∧
    realtime c' = (if ns (realtime demo_clock) <? ns rtc then rtc else realtime demo_clock) ∧
    monotonic c' = ts_of (ns (monotonic demo_clock) + (ns (realtime c') - ns (realtime demo_clock)))).
Proof.
  intros P. apply (@board_deepsleep_sync_correct _ (stm32_rtc 3) demo_clock P demo_clock_ok).
  apply (rtc_gives_instant demo_clock 3); [split_and!; simpl; lia|unfold RTC_END, SEC_PER_DAY; simpl; lia..|reflexivity|lia].
Defined.

Lemma clock_abstime2ticks_bounds_witness :
  returns (clock_abstime2ticks CLOCK_REALTIME (Timespec 300 1)) demo_plain (λ r c', c' = demo_plain ∧ ∃ k,
    let d := ns (Timespec 300 1) - ns (realtime demo_plain) in r = (OK, Some k) ∧
    (d < 0 → k = -1) ∧
    (0 ≤ d → ∃ n, 0 ≤ n ∧ (n - 1) * NSEC_PER_TICK < d ≤ n * NSEC_PER_TICK ∧ k = s32 n ∧
      (n < 2 ^ 31 → k = n) ∧ (2 ^ 31 ≤ n < 2 ^ 32 → k = n - 2 ^ 32) ∧ (n = 2 ^ 32 → k = 0))).
Proof.
  apply (clock_abstime2ticks_bounds demo_plain (Timespec 300 1) demo_plain_ok). unfold norm, NSEC_PER_SEC. simpl. lia.
Defined.
