(* ===== verification/Links.v ===== *)
(** Linked lists in word memory.

    The reasoning library shared by every component that links C structures
    together: doubly linked segments ([dseg], the [flink]/[blink] pairs of
    dq_entry_s, tcb_s and mm_freenode_s) and singly linked segments ([sseg],
    the [flink] word of sq_entry_s and wdog_s).  A segment relates the words
    found in memory to the list of node addresses; the lemmas say how it
    changes when a node is spliced in or out, whatever the order in which the
    code writes the words. *)

From S2P Require Import Prelude.

(** [touches F m m']: the same addresses are mapped, and only the two words of
    the objects in [F] may differ. *)
Definition touches (F : list Z) (m m' : mem) : Prop :=
  dom m' = dom m ∧ ∀ a, Forall (λ x, a ≠ x ∧ a ≠ x + 4) F → m' !! a = m !! a.

Lemma touches_refl F m : touches F m m.
Proof. done. Qed.

Lemma touches_trans F m1 m2 m3 : touches F m1 m2 → touches F m2 m3 → touches F m1 m3.
Proof.
  intros [D1 H1] [D2 H2]. split; [congruence|]. intros a Ha. by rewrite H2, H1.
Qed.

Lemma touches_mono F F' m m' : F ⊆ F' → touches F m m' → touches F' m m'.
Proof.
  intros HF [D H]. split; [done|]. intros a Ha. apply H.
  rewrite Forall_forall in *. set_solver.
Qed.

Lemma touches_mapped F m m' a : touches F m m' → is_Some (m !! a) ↔ is_Some (m' !! a).
Proof. intros [D _]. by rewrite <-!elem_of_dom, D. Qed.

(** Stores to words of [F] stay within the footprint. *)
Lemma touches_insert F m m' a v x :
  x ∈ F → a = x ∨ a = x + 4 → is_Some (m' !! a) → touches F m m' → touches F m (<[a:=v]> m').
Proof.
  intros Hx Ha Hm [D H]. split; [by rewrite dom_insert_lookup_L|].
  intros b Hb. rewrite lookup_insert_ne; [by apply H|].
  rewrite Forall_forall in Hb. specialize (Hb x Hx). lia.
Qed.

(** * Doubly linked segments *)
Section Dseg.
(** [fo] is the offset of the [flink] field; [blink] follows it. *)
Variable fo : Z.
Implicit Types (m : mem) (l : list Z).

(** The nodes [l] in order: the first points back to [p], the last points
    forward to [n]. *)
Fixpoint dseg m (p : Z) l (n : Z) : Prop :=
  match l with
  | [] => True
  | x :: l' =>
      m !! (x + fo) = Some (hd_or n l') ∧ m !! (x + fo + 4) = Some p ∧ dseg m x l' n
  end.

Lemma dseg_app m p l1 l2 n :
  dseg m p (l1 ++ l2) n ↔ dseg m p l1 (hd_or n l2) ∧ dseg m (last_or p l1) l2 n.
Proof.
  revert p. induction l1 as [|x l1 IH]; intros p; simpl.
  { naive_solver. }
  rewrite IH, hd_or_app, last_or_cons. naive_solver.
Qed.

Lemma dseg_frame m m' p l n :
  (∀ x, x ∈ l → m' !! (x + fo) = m !! (x + fo) ∧ m' !! (x + fo + 4) = m !! (x + fo + 4)) →
  dseg m p l n → dseg m' p l n.
Proof.
  revert p. induction l as [|x l IH]; intros p Hm; simpl; [done|].
  intros (H1 & H2 & H3). destruct (Hm x) as [-> ->]; [set_solver|].
  split_and!; [done..|]. apply IH; [|done]. intros y Hy. apply Hm. set_solver.
Qed.

Lemma dseg_insert_other m a v p l n :
  (∀ x, x ∈ l → a ≠ x + fo ∧ a ≠ x + fo + 4) →
  dseg m p l n → dseg (<[a:=v]> m) p l n.
Proof.
  intros Ha. apply dseg_frame. intros x Hx. destruct (Ha x Hx).
  by rewrite !lookup_insert_ne.
Qed.

Lemma dseg_flink m p l1 x l2 n :
  dseg m p (l1 ++ x :: l2) n → m !! (x + fo) = Some (hd_or n l2).
Proof. intros [_ H]%dseg_app. apply H. Qed.

Lemma dseg_blink m p l1 x l2 n :
  dseg m p (l1 ++ x :: l2) n → m !! (x + fo + 4) = Some (last_or p l1).
Proof. intros [_ H]%dseg_app. apply H. Qed.

Lemma dseg_mapped m p l n x :
  dseg m p l n → x ∈ l → is_Some (m !! (x + fo)) ∧ is_Some (m !! (x + fo + 4)).
Proof.
  intros H (l1 & l2 & ->)%list_elem_of_split.
  split; eexists; [by eapply dseg_flink|by eapply dseg_blink].
Qed.

(** Retargeting the ends of a segment. *)
Lemma dseg_last m m' p l n n' :
  spaced l →
  (∀ x, x ∈ l → m' !! (x + fo + 4) = m !! (x + fo + 4)) →
  (∀ x, x ∈ l → last l ≠ Some x → m' !! (x + fo) = m !! (x + fo)) →
  (∀ x, last l = Some x → m' !! (x + fo) = Some n') →
  dseg m p l n → dseg m' p l n'.
Proof.
  intros Hs Hb Hf Hl. destruct (list_snoc_cases l) as [->|(l' & x & ->)]; [done|].
  rewrite !dseg_app. simpl. intros (H1 & _ & H2 & _).
  rewrite last_snoc in Hl, Hf. rewrite (Hb x), H2 by set_solver.
  split_and!; [|by apply Hl|done|done].
  apply spaced_NoDup in Hs. apply NoDup_app in Hs as (_ & Hs & _).
  revert H1. apply dseg_frame. intros y Hy.
  rewrite Hb by set_solver. rewrite Hf; [done|set_solver|].
  intros [= ->]. apply (Hs y); set_solver.
Qed.

Lemma dseg_first m m' p p' l n :
  spaced l →
  (∀ x, x ∈ l → m' !! (x + fo) = m !! (x + fo)) →
  (∀ x, x ∈ l → head l ≠ Some x → m' !! (x + fo + 4) = m !! (x + fo + 4)) →
  (∀ x, head l = Some x → m' !! (x + fo + 4) = Some p') →
  dseg m p l n → dseg m' p' l n.
Proof.
  intros Hs Hf Hb Hh. destruct l as [|x l]; simpl in *; [done|].
  intros (H1 & H2 & H3). rewrite (Hf x) by set_solver. rewrite Hh by done.
  split_and!; [done|done|]. revert H3. apply dseg_frame. intros y Hy.
  rewrite Hf by set_solver. rewrite Hb; [done|set_solver|].
  intros [= ->]. destruct Hs as [Hs _]. rewrite Forall_forall in Hs.
  specialize (Hs _ Hy). lia.
Qed.

(** Splicing a node in between two parts of a list. *)
Lemma dseg_splice m m' p l1 x l2 n :
  spaced (l1 ++ x :: l2) →
  dseg m p (l1 ++ l2) n →
  m' !! (x + fo) = Some (hd_or n l2) →
  m' !! (x + fo + 4) = Some (last_or p l1) →
  (∀ y, last l1 = Some y → m' !! (y + fo) = Some x) →
  (∀ y, head l2 = Some y → m' !! (y + fo + 4) = Some x) →
  (∀ y, y ∈ l1 ++ l2 → last l1 ≠ Some y → m' !! (y + fo) = m !! (y + fo)) →
  (∀ y, y ∈ l1 ++ l2 → head l2 ≠ Some y → m' !! (y + fo + 4) = m !! (y + fo + 4)) →
  dseg m' p (l1 ++ x :: l2) n.
Proof.
  intros Hs Hd Hx1 Hx2 Hl Hh Hf Hb.
  apply spaced_app in Hs as (Hs1 & Hs2 & Hs12). simpl in Hs2.
  destruct Hs2 as [Hsx Hs2]. apply dseg_app in Hd as [Hd1 Hd2].
  rewrite dseg_app. simpl. split; [|split_and!; [done|done|]].
  - revert Hd1. apply dseg_last; [done| | |done].
    + intros y Hy. apply Hb; [set_solver|].
      intros Hy2. destruct l2 as [|z l2]; [done|]. simpl in Hy2. injection Hy2 as ->.
      assert (8 ≤ Z.abs (y - y)) by (apply Hs12; set_solver). lia.
    + intros y Hy Hne. apply Hf; [set_solver|done].
  - revert Hd2. apply dseg_first; [done| | |done].
    + intros y Hy. apply Hf; [set_solver|].
      intros Hy2%last_Some_elem_of.
      assert (8 ≤ Z.abs (y - y)) by (apply Hs12; set_solver). lia.
    + intros y Hy Hne. apply Hb; [set_solver|done].
Qed.

(** Taking a node out of a list. *)
Lemma dseg_unsplice m m' p l1 x l2 n :
  spaced (l1 ++ x :: l2) →
  dseg m p (l1 ++ x :: l2) n →
  (∀ y, last l1 = Some y → m' !! (y + fo) = Some (hd_or n l2)) →
  (∀ y, head l2 = Some y → m' !! (y + fo + 4) = Some (last_or p l1)) →
  (∀ y, y ∈ l1 ++ l2 → last l1 ≠ Some y → m' !! (y + fo) = m !! (y + fo)) →
  (∀ y, y ∈ l1 ++ l2 → head l2 ≠ Some y → m' !! (y + fo + 4) = m !! (y + fo + 4)) →
  dseg m' p (l1 ++ l2) n.
Proof.
  intros Hs Hd Hl Hh Hf Hb.
  apply spaced_app in Hs as (Hs1 & Hs2 & Hs12). simpl in Hs2.
  destruct Hs2 as [Hsx Hs2]. apply dseg_app in Hd as [Hd1 Hd2].
  simpl in Hd2. destruct Hd2 as (_ & _ & Hd2). rewrite dseg_app. split.
  - revert Hd1. apply dseg_last; [done| | |done].
    + intros y Hy. apply Hb; [set_solver|].
      intros Hy2. destruct l2 as [|z l2]; [done|]. simpl in Hy2. injection Hy2 as ->.
      assert (8 ≤ Z.abs (y - y)) by (apply Hs12; set_solver). lia.
    + intros y Hy Hne. apply Hf; [set_solver|done].
  - revert Hd2. apply dseg_first; [done| | |done].
    + intros y Hy. apply Hf; [set_solver|].
      intros Hy2%last_Some_elem_of.
      assert (8 ≤ Z.abs (y - y)) by (apply Hs12; set_solver). lia.
    + intros y Hy Hne. apply Hb; [set_solver|done].
Qed.
End Dseg.

(** * Singly linked segments *)
Section Sseg.
Implicit Types (m : mem) (l : list Z).

Fixpoint sseg m l (n : Z) : Prop :=
  match l with
  | [] => True
  | x :: l' => m !! x = Some (hd_or n l') ∧ sseg m l' n
  end.

Lemma sseg_app m l1 l2 n :
  sseg m (l1 ++ l2) n ↔ sseg m l1 (hd_or n l2) ∧ sseg m l2 n.
Proof.
  induction l1 as [|x l1 IH]; simpl; [naive_solver|].
  rewrite IH, hd_or_app. naive_solver.
Qed.

Lemma sseg_frame m m' l n :
  (∀ x, x ∈ l → m' !! x = m !! x) → sseg m l n → sseg m' l n.
Proof.
  induction l as [|x l IH]; intros Hm; simpl; [done|].
  intros [H1 H2]. rewrite Hm by set_solver. split; [done|].
  apply IH; [|done]. intros y Hy. apply Hm. set_solver.
Qed.

Lemma sseg_insert_other m a v l n : a ∉ l → sseg m l n → sseg (<[a:=v]> m) l n.
Proof.
  intros Ha. apply sseg_frame. intros x Hx. rewrite lookup_insert_ne; [done|]. by intros ->.
Qed.

Lemma sseg_flink m l1 x l2 n : sseg m (l1 ++ x :: l2) n → m !! x = Some (hd_or n l2).
Proof. intros [_ H]%sseg_app. apply H. Qed.

Lemma sseg_mapped m l n x : sseg m l n → x ∈ l → is_Some (m !! x).
Proof.
  intros H (l1 & l2 & ->)%list_elem_of_split. eexists. by eapply sseg_flink.
Qed.

(** Retargeting the last node. *)
Lemma sseg_snoc_insert m l x n n' :
  NoDup (l ++ [x]) → sseg m (l ++ [x]) n → sseg (<[x:=n']> m) (l ++ [x]) n'.
Proof.
  rewrite NoDup_app, !sseg_app. simpl. intros (_ & Hx & _) [H1 H2].
  rewrite lookup_insert_eq. split_and!; [|done|done].
  apply sseg_insert_other; [|done]. intros Hin. apply (Hx x); set_solver.
Qed.
End Sseg.

(** A list of distinct nodes with a mapped word each is no longer than the
    memory is large: enough fuel for any traversal. *)
Lemma mapped_length (m : mem) (l : list Z) (k : Z) :
  NoDup l → (∀ x, x ∈ l → is_Some (m !! (x + k))) → (length l ≤ size m)%nat.
Proof.
  intros Hnd Hm. rewrite <-(size_dom (D:=gset Z) m).
  assert (NoDup ((λ x, x + k) <$> l)) as Hnd'.
  { apply NoDup_fmap_2; [|done]. intros x y. lia. }
  rewrite <-(length_fmap (λ x, x + k) l), <-(size_list_to_set (C:=gset Z)) by done.
  apply subseteq_size. intros a. rewrite elem_of_list_to_set, list_elem_of_fmap, elem_of_dom.
  intros (x & -> & Hx). auto.
Qed.

(** Closing goals about the words an operation wrote. *)
Ltac touch :=
  repeat lazymatch goal with
  | |- touches _ ?m ?m => apply touches_refl
  | |- touches _ _ (<[?y + ?k := _]> _) =>
      apply (touches_insert _ _ _ _ _ y);
      [set_solver|lia|solve [mapped_solve]|]
  end.
Ltac frame_solve :=
  simpl; intros;
  repeat match goal with
  | H : Some ?u ≠ Some ?v |- _ => assert (u ≠ v) by congruence; clear H
  end;
  clear_abs; rewrite ?lookup_insert_ne by lia; done.

(** [writes F m m']: the same addresses are mapped, and only the words in [F]
    may differ. *)
Definition writes (F : list Z) (m m' : mem) : Prop :=
  dom m' = dom m ∧ ∀ a, a ∉ F → m' !! a = m !! a.

Lemma writes_refl F m : writes F m m.
Proof. done. Qed.

Lemma writes_trans F m1 m2 m3 : writes F m1 m2 → writes F m2 m3 → writes F m1 m3.
Proof.
  intros [D1 H1] [D2 H2]. split; [congruence|]. intros a Ha. by rewrite H2, H1.
Qed.

Lemma writes_mono F F' m m' : F ⊆ F' → writes F m m' → writes F' m m'.
Proof. intros HF [D H]. split; [done|]. intros a Ha. apply H. set_solver. Qed.

Lemma writes_mapped F m m' a : writes F m m' → is_Some (m !! a) ↔ is_Some (m' !! a).
Proof. intros [D _]. by rewrite <-!elem_of_dom, D. Qed.

Lemma writes_insert F m m' a v :
  a ∈ F → is_Some (m' !! a) → writes F m m' → writes F m (<[a:=v]> m').
Proof.
  intros Ha Hm [D H]. split; [by rewrite dom_insert_lookup_L|].
  intros b Hb. rewrite lookup_insert_ne; [by apply H|]. by intros ->.
Qed.

Ltac wrote :=
  repeat lazymatch goal with
  | |- writes _ ?m ?m => apply writes_refl
  | |- writes _ _ (<[_ := _]> _) =>
      apply writes_insert; [rewrite ?Z.add_0_r; set_solver|solve [mapped_solve]|]
  end.
