(* ===== verification/Queue.v ===== *)
(** The queue library, libc/queue and include/queue.h.

    [sq_*] and [dq_*] are translated word by word: a queue is a pair of words
    (head, tail), a node of a singly linked queue is its [flink] word, a node
    of a doubly linked queue its [flink] and [blink] words, and every
    operation is the sequence of loads and stores of the C function.  The
    theorems show that each operation implements the list operation its name
    promises, touches nothing but the queue header and the nodes of the
    queue, and never leaves mapped memory. *)

From S2P Require Import Prelude Links.

(** * Layout (include/queue.h) *)
Definition FLINK : Z := 0.
Definition BLINK : Z := 4.
Definition HEAD : Z := 0.
Definition TAIL : Z := 4.

Definition sq_empty (queue : Z) : M mem bool :=
  head ← load (queue + HEAD); mret (head =? NULL).
Definition dq_empty (queue : Z) : M mem bool :=
  head ← load (queue + HEAD); mret (head =? NULL).

(** * Singly linked queues *)

Definition sq_addfirst (node queue : Z) : M mem unit :=
  head ← load (queue + HEAD);
  store (node + FLINK) head;;
  head ← load (queue + HEAD);
  (if negb (nonnull head) then store (queue + TAIL) node else mret tt);;
  store (queue + HEAD) node.

Definition sq_addlast (node queue : Z) : M mem unit :=
  store (node + FLINK) NULL;;
  head ← load (queue + HEAD);
  if negb (nonnull head) then
    store (queue + HEAD) node;;
    store (queue + TAIL) node
  else
    tail ← load (queue + TAIL);
    store (tail + FLINK) node;;
    store (queue + TAIL) node.

Definition sq_addafter (prev node queue : Z) : M mem unit :=
  head ← load (queue + HEAD);
  tail ← load (queue + TAIL);
  if negb (nonnull head) || (prev =? tail) then
    sq_addlast node queue
  else
    next ← load (prev + FLINK);
    store (node + FLINK) next;;
    store (prev + FLINK) node.

Definition sq_remafter (node queue : Z) : M mem Z :=
  ret ← load (node + FLINK);
  head ← load (queue + HEAD);
  (if nonnull head && nonnull ret then
     tail ← load (queue + TAIL);
     (if tail =? ret then
        store (queue + TAIL) node;;
        store (node + FLINK) NULL
      else
        next ← load (ret + FLINK);
        store (node + FLINK) next);;
     store (ret + FLINK) NULL
   else mret tt);;
  mret ret.

Definition sq_remfirst (queue : Z) : M mem Z :=
  ret ← load (queue + HEAD);
  (if nonnull ret then
     next ← load (ret + FLINK);
     store (queue + HEAD) next;;
     head ← load (queue + HEAD);
     (if negb (nonnull head) then store (queue + TAIL) NULL else mret tt);;
     store (ret + FLINK) NULL
   else mret tt);;
  mret ret.

(** The search loop of [sq_rem] and [sq_remlast]:
    [for (prev = head; prev && prev->flink != node; prev = prev->flink);] *)
Definition sq_findprev_body (node : Z) (prev : Z) : M mem (Z + Z) :=
  if nonnull prev then
    next ← load (prev + FLINK);
    if next =? node then mret (inr prev) else mret (inl next)
  else mret (inr prev).
Definition sq_findprev (node head : Z) : M mem Z :=
  fuel ← gets size;
  loop (S fuel) (sq_findprev_body node) head.

Definition sq_remlast (queue : Z) : M mem Z :=
  ret ← load (queue + TAIL);
  (if nonnull ret then
     head ← load (queue + HEAD);
     tail ← load (queue + TAIL);
     (if head =? tail then
        store (queue + HEAD) NULL;;
        store (queue + TAIL) NULL
      else
        prev ← sq_findprev ret head;
        if nonnull prev then
          store (prev + FLINK) NULL;;
          store (queue + TAIL) prev
        else mret tt);;
     store (ret + FLINK) NULL
   else mret tt);;
  mret ret.

Definition sq_rem (node queue : Z) : M mem unit :=
  head ← load (queue + HEAD);
  if nonnull head && nonnull node then
    if node =? head then
      next ← load (node + FLINK);
      store (queue + HEAD) next;;
      tail ← load (queue + TAIL);
      if node =? tail then store (queue + TAIL) NULL else mret tt
    else
      prev ← sq_findprev node head;
      if nonnull prev then _ ← sq_remafter prev queue; mret tt else mret tt
  else mret tt.

(** * Doubly linked queues *)

Definition dq_addfirst (node queue : Z) : M mem unit :=
  store (node + BLINK) NULL;;
  head ← load (queue + HEAD);
  store (node + FLINK) head;;
  head ← load (queue + HEAD);
  if negb (nonnull head) then
    store (queue + HEAD) node;;
    store (queue + TAIL) node
  else
    head ← load (queue + HEAD);
    store (head + BLINK) node;;
    store (queue + HEAD) node.

Definition dq_addlast (node queue : Z) : M mem unit :=
  store (node + FLINK) NULL;;
  tail ← load (queue + TAIL);
  store (node + BLINK) tail;;
  head ← load (queue + HEAD);
  if negb (nonnull head) then
    store (queue + HEAD) node;;
    store (queue + TAIL) node
  else
    tail ← load (queue + TAIL);
    store (tail + FLINK) node;;
    store (queue + TAIL) node.

Definition dq_addafter (prev node queue : Z) : M mem unit :=
  head ← load (queue + HEAD);
  tail ← load (queue + TAIL);
  if negb (nonnull head) || (prev =? tail) then
    dq_addlast node queue
  else
    next ← load (prev + FLINK);
    store (node + BLINK) prev;;
    store (node + FLINK) next;;
    store (next + BLINK) node;;
    store (prev + FLINK) node.

Definition dq_addbefore (next node queue : Z) : M mem unit :=
  head ← load (queue + HEAD);
  if negb (nonnull head) || (next =? head) then
    dq_addfirst node queue
  else
    prev ← load (next + BLINK);
    store (node + FLINK) next;;
    store (node + BLINK) prev;;
    store (prev + FLINK) node;;
    store (next + BLINK) node.

Definition dq_rem (node queue : Z) : M mem unit :=
  prev ← load (node + BLINK);
  next ← load (node + FLINK);
  (if negb (nonnull prev) then store (queue + HEAD) next
   else store (prev + FLINK) next);;
  (if negb (nonnull next) then store (queue + TAIL) prev
   else store (next + BLINK) prev);;
  store (node + FLINK) NULL;;
  store (node + BLINK) NULL.

Definition dq_remfirst (queue : Z) : M mem Z :=
  ret ← load (queue + HEAD);
  (if nonnull ret then
     next ← load (ret + FLINK);
     (if negb (nonnull next) then
        store (queue + HEAD) NULL;;
        store (queue + TAIL) NULL
      else
        store (queue + HEAD) next;;
        store (next + BLINK) NULL);;
     store (ret + FLINK) NULL;;
     store (ret + BLINK) NULL
   else mret tt);;
  mret ret.

Definition dq_remlast (queue : Z) : M mem Z :=
  ret ← load (queue + TAIL);
  (if nonnull ret then
     prev ← load (ret + BLINK);
     (if negb (nonnull prev) then
        store (queue + HEAD) NULL;;
        store (queue + TAIL) NULL
      else
        store (queue + TAIL) prev;;
        store (prev + FLINK) NULL);;
     store (ret + FLINK) NULL;;
     store (ret + BLINK) NULL
   else mret tt);;
  mret ret.

(** * Abstraction: a queue is the list of its nodes *)

Definition dq_repr (m : mem) (q : Z) (l : list Z) : Prop :=
  m !! q = Some (hd_or NULL l) ∧ m !! (q + 4) = Some (last_or NULL l) ∧
  dseg 0 m NULL l NULL ∧ spaced (q :: l) ∧ Forall (λ x, x ≠ NULL) l.

Lemma dq_splice m m' q l1 x l2 :
  dq_repr m q (l1 ++ l2) → x ≠ NULL → spaced (x :: q :: l1 ++ l2) →
  m' !! q = Some (hd_or x l1) → m' !! (q + 4) = Some (last_or x l2) →
  m' !! x = Some (hd_or NULL l2) → m' !! (x + 4) = Some (last_or NULL l1) →
  (∀ y, last l1 = Some y → m' !! y = Some x) →
  (∀ y, head l2 = Some y → m' !! (y + 4) = Some x) →
  (∀ a, a ≠ q → a ≠ q + 4 → a ≠ x → a ≠ x + 4 →
        last l1 ≠ Some a → head l2 ≠ Some (a - 4) → m' !! a = m !! a) →
  dq_repr m' q (l1 ++ x :: l2).
Proof.
  intros (Hq & Ht & Hd & Hs & Hn) Hx Hsx Hq' Ht' Hx1 Hx2 Hl Hh Hf.
  assert (Hs' : spaced (l1 ++ x :: l2)).
  { rewrite <-Permutation_middle. simpl in *. rewrite Forall_cons in Hsx. tauto. }
  assert (Hy : ∀ y, y ∈ l1 ++ l2 → 8 ≤ Z.abs (q - y) ∧ 8 ≤ Z.abs (x - y)).
  { simpl in Hsx. rewrite Forall_cons, !Forall_forall in Hsx. naive_solver. }
  unfold dq_repr. split_and!.
  - by rewrite hd_or_app.
  - by rewrite last_or_app, last_or_cons.
  - apply dseg_splice with m; rewrite ?Z.add_0_r; try done.
    + intros y. rewrite Z.add_0_r. apply Hl.
    + intros y. rewrite Z.add_0_r. apply Hh.
    + intros y Hin Hne. rewrite Z.add_0_r. specialize (Hy y Hin).
      apply Hf; try lia; [done|].
      intros Hh2. destruct l2 as [|z l2]; [done|]. injection Hh2 as ->.
      assert (y = y - 4 ∨ 8 ≤ Z.abs (y - (y - 4))); [|lia].
      destruct (decide (y = y - 4)); [by left|right].
      eapply spaced_elem; [exact Hs'|set_solver..].
    + intros y Hin Hne. rewrite Z.add_0_r. specialize (Hy y Hin).
      apply Hf; try lia; [|by replace (y + 4 - 4) with y by lia].
      intros Hl2%last_Some_elem_of.
      assert (y = y + 4 ∨ 8 ≤ Z.abs (y - (y + 4))); [|lia].
      destruct (decide (y = y + 4)); [by left|right].
      eapply spaced_elem; [exact Hs'|set_solver..].
  - simpl in *. split; [|done]. rewrite <-Permutation_middle, Forall_cons.
    destruct Hsx as [Hsx [Hsq _]]. rewrite Forall_cons in Hsx. split; [lia|done].
  - rewrite <-Permutation_middle. by constructor.
Qed.

Lemma dq_unsplice m m' q l1 x l2 :
  dq_repr m q (l1 ++ x :: l2) →
  m' !! q = Some (hd_or NULL (l1 ++ l2)) → m' !! (q + 4) = Some (last_or NULL (l1 ++ l2)) →
  (∀ y, last l1 = Some y → m' !! y = Some (hd_or NULL l2)) →
  (∀ y, head l2 = Some y → m' !! (y + 4) = Some (last_or NULL l1)) →
  (∀ a, a ≠ q → a ≠ q + 4 → a ≠ x → a ≠ x + 4 →
        last l1 ≠ Some a → head l2 ≠ Some (a - 4) → m' !! a = m !! a) →
  dq_repr m' q (l1 ++ l2).
Proof.
  intros (Hq & Ht & Hd & Hs & Hn) Hq' Ht' Hl Hh Hf.
  assert (Hsx : spaced (x :: q :: l1 ++ l2)).
  { eapply spaced_perm; [|exact Hs]. rewrite <-Permutation_middle. constructor. }
  assert (Hs' : spaced (l1 ++ x :: l2)) by apply Hs.
  assert (Hy : ∀ y, y ∈ l1 ++ l2 → 8 ≤ Z.abs (q - y) ∧ 8 ≤ Z.abs (x - y)).
  { simpl in Hsx. rewrite Forall_cons, !Forall_forall in Hsx. naive_solver. }
  unfold dq_repr. split_and!; [done|done| | |].
  - eapply dseg_unsplice with (m := m) (x := x); try done.
    + intros y. rewrite Z.add_0_r. apply Hl.
    + intros y. rewrite Z.add_0_r. apply Hh.
    + intros y Hin Hne. rewrite Z.add_0_r. specialize (Hy y Hin).
      apply Hf; try lia; [done|].
      intros Hh2. destruct l2 as [|z l2]; [done|]. injection Hh2 as ->.
      assert (y = y - 4 ∨ 8 ≤ Z.abs (y - (y - 4))); [|lia].
      destruct (decide (y = y - 4)); [by left|right].
      eapply spaced_elem; [exact Hs'|set_solver..].
    + intros y Hin Hne. rewrite Z.add_0_r. specialize (Hy y Hin).
      apply Hf; try lia; [|by replace (y + 4 - 4) with y by lia].
      intros Hl2%last_Some_elem_of.
      assert (y = y + 4 ∨ 8 ≤ Z.abs (y - (y + 4))); [|lia].
      destruct (decide (y = y + 4)); [by left|right].
      eapply spaced_elem; [exact Hs'|set_solver..].
  - simpl in Hsx. naive_solver.
  - rewrite <-Permutation_middle, Forall_cons in Hn. naive_solver.
Qed.

(** ** What the operations are proved to do *)

(** The words an operation on queue [q] may write. *)
Definition dq_post (q : Z) (F : list Z) (l' : list Z) (m m' : mem) : Prop :=
  dq_repr m' q l' ∧ touches (q :: F) m m'.

(** A node that can be added: mapped, non-null and apart from the queue. *)
Definition dq_fresh (m : mem) (q x : Z) (l : list Z) : Prop :=
  x ≠ NULL ∧ is_Some (m !! x) ∧ is_Some (m !! (x + 4)) ∧ spaced (x :: q :: l).

(** ** Facts about the nodes of a queue *)
Section DqFacts.
Context {m : mem} {q : Z}.

Lemma dq_node l1 y l2 :
  dq_repr m q (l1 ++ y :: l2) →
  m !! y = Some (hd_or NULL l2) ∧ m !! (y + 4) = Some (last_or NULL l1) ∧
  y ≠ NULL ∧ 8 ≤ Z.abs (q - y) ∧ hd_or NULL (l1 ++ y :: l2) ≠ NULL ∧
  last_or NULL (l1 ++ y :: l2) ≠ NULL.
Proof.
  intros (_ & _ & Hd & [Hs _] & Hn). rewrite Forall_forall in Hs, Hn.
  pose proof (dseg_flink _ _ _ _ _ _ _ Hd) as H1.
  pose proof (dseg_blink _ _ _ _ _ _ _ Hd) as H2. rewrite Z.add_0_r in H1, H2.
  split_and!; [done|done|apply Hn; set_solver|apply Hs; set_solver| |].
  - apply Hn. destruct l1; set_solver.
  - apply Hn. rewrite last_or_app, last_or_cons.
    destruct (list_snoc_cases l2) as [->|(l & z & ->)]; [|rewrite last_or_snoc]; set_solver.
Qed.

Lemma dq_sep l x y : dq_repr m q l → x ∈ l → y ∈ l → x ≠ y → 8 ≤ Z.abs (x - y).
Proof. intros (_ & _ & _ & [_ Hs] & _). by apply spaced_elem. Qed.

(** Neighbours in the queue. *)
Lemma dq_sep_app l1 x l2 y :
  dq_repr m q (l1 ++ x :: l2) → y ∈ l1 ++ l2 → 8 ≤ Z.abs (x - y).
Proof.
  intros (_ & _ & _ & [_ Hs] & _). rewrite <-Permutation_middle in Hs.
  simpl in Hs. rewrite Forall_forall in Hs. apply Hs.
Qed.

Lemma dq_nodup l : dq_repr m q l → NoDup l.
Proof. intros (_ & _ & _ & [_ Hs] & _). by apply spaced_NoDup. Qed.

Lemma dq_pair l1 p n l2 :
  dq_repr m q (l1 ++ p :: n :: l2) →
  m !! p = Some n ∧ m !! (n + 4) = Some p ∧ n ≠ NULL ∧
  8 ≤ Z.abs (q - n) ∧ 8 ≤ Z.abs (p - n) ∧
  last_or NULL (l1 ++ p :: n :: l2) ≠ p ∧ hd_or NULL (l1 ++ p :: n :: l2) ≠ n.
Proof.
  intros Hr. pose proof (dq_node _ _ _ Hr) as (H1 & _).
  pose proof (dq_node (l1 ++ [p]) n l2) as H2.
  rewrite <-app_assoc, last_or_snoc in H2. destruct (H2 Hr) as (_ & H3 & H4 & H5 & _).
  pose proof (dq_nodup _ Hr) as Hnd.
  assert (Hsep : 8 ≤ Z.abs (p - n)) by (eapply dq_sep_app; [exact Hr|set_solver]).
  split_and!; [done|done|done|done|done| |].
  - rewrite last_or_app, !last_or_cons. intros E.
    apply NoDup_app in Hnd as (_ & _ & Hnd). apply NoDup_cons in Hnd as [Hnd _].
    destruct (list_snoc_cases l2) as [->|(l & z & ->)];
      [|rewrite last_or_snoc in E]; set_solver.
  - destruct l1 as [|z l]; [unfold hd_or; simpl; lia|]. intros E. unfold hd_or in E.
    simpl in E, Hnd. apply NoDup_cons in Hnd as [Hnd _]. set_solver.
Qed.

Lemma dq_fresh_sep x l y : dq_fresh m q x l → y ∈ q :: l → 8 ≤ Z.abs (x - y).
Proof. intros (_ & _ & _ & Hs & _). rewrite Forall_forall in Hs. apply Hs. Qed.
End DqFacts.

Ltac dq_unfold :=
  unfold dq_addfirst, dq_addlast, dq_addafter, dq_addbefore, dq_rem, dq_remfirst, dq_remlast,
    FLINK, BLINK, HEAD, TAIL, nonnull.

(** ** Doubly linked queues implement lists *)

Lemma dq_addlast_spec m q x l :
  dq_repr m q l → dq_fresh m q x l →
  returns (dq_addlast x q) m (λ _, dq_post q (x :: l) (l ++ [x]) m).
Proof.
  intros Hr Hf. pose proof Hr as (Hq & Ht & _). pose proof Hf as (Hx & Hm1 & Hm2 & Hs).
  pose proof (dq_fresh_sep _ _ q Hf ltac:(set_solver)) as Hxq.
  dq_unfold. rsteps.
  destruct (list_snoc_cases l) as [->|(l' & y & ->)]; simpl.
  - rsteps. split; [|by touch].
    apply dq_splice with (m:=m) (l1:=[]) (l2:=[]); try done; try mem_solve. frame_solve.
  - pose proof (dq_node _ _ _ Hr) as (H1 & H2 & H3 & H4 & H5 & _).
    pose proof (dq_fresh_sep _ _ y Hf ltac:(set_solver)) as H6.
    rewrite last_or_snoc in *. rsteps. split; [|by touch].
    apply dq_splice with (m:=m) (l1:=l' ++ [y]) (l2:=[]);
      rewrite ?app_nil_r, ?last_or_snoc, ?last_snoc; try done; try mem_solve.
    + rewrite hd_or_app in Hq |- *. mem_solve.
    + intros ? [= <-]. mem_solve.
    + frame_solve.
Qed.

Lemma dq_addfirst_spec m q x l :
  dq_repr m q l → dq_fresh m q x l →
  returns (dq_addfirst x q) m (λ _, dq_post q (x :: l) (x :: l) m).
Proof.
  intros Hr Hf. pose proof Hr as (Hq & Ht & _). pose proof Hf as (Hx & Hm1 & Hm2 & Hs).
  pose proof (dq_fresh_sep _ _ q Hf ltac:(set_solver)) as Hxq.
  dq_unfold. rsteps.
  destruct l as [|y l]; simpl.
  - rsteps. split; [|by touch].
    apply dq_splice with (m:=m) (l1:=[]) (l2:=[]); try done; try mem_solve. frame_solve.
  - pose proof (dq_node [] y l Hr) as (H1 & H2 & H3 & H4 & H5 & _).
    pose proof (dq_fresh_sep _ _ y Hf ltac:(set_solver)) as H6.
    unfold hd_or in *; simpl in *. rsteps. split; [|by touch].
    apply dq_splice with (m:=m) (l1:=[]) (l2:=y :: l); try done; try mem_solve.
    + rewrite last_or_cons in Ht |- *. mem_solve.
    + intros ? [= <-]. mem_solve.
    + frame_solve.
Qed.

Lemma dq_addafter_spec m q x l1 p l2 :
  dq_repr m q (l1 ++ p :: l2) → dq_fresh m q x (l1 ++ p :: l2) →
  returns (dq_addafter p x q) m
    (λ _, dq_post q (x :: l1 ++ p :: l2) (l1 ++ p :: x :: l2) m).
Proof.
  intros Hr Hf. pose proof Hr as (Hq & Ht & _). pose proof Hf as (Hx & Hm1 & Hm2 & Hs).
  pose proof (dq_fresh_sep _ _ q Hf ltac:(set_solver)) as Hxq.
  pose proof (dq_node _ _ _ Hr) as (H1 & H2 & H3 & H4 & H5 & _).
  pose proof (dq_fresh_sep _ _ p Hf ltac:(set_solver)) as H6.
  unfold dq_addafter, HEAD, TAIL, FLINK, BLINK, nonnull. rsteps.
  destruct l2 as [|n l2].
  { rewrite last_or_snoc in *. rstep. replace (l1 ++ [p; x]) with ((l1 ++ [p]) ++ [x])
      by (by rewrite <-app_assoc). by apply dq_addlast_spec. }
  pose proof (dq_pair _ _ _ _ Hr) as (N1 & N2 & N3 & N4 & N5 & N7 & _).
  pose proof (dq_fresh_sep _ _ n Hf ltac:(set_solver)) as N6.
  unfold hd_or in *; simpl in *. rsteps. split; [|by touch].
  replace (l1 ++ p :: x :: n :: l2) with ((l1 ++ [p]) ++ x :: n :: l2) by (by rewrite <-app_assoc).
  apply dq_splice with (m:=m); rewrite ?last_or_snoc, ?last_snoc, <-?app_assoc; try done;
    try mem_solve.
  - rewrite hd_or_app. unfold hd_or; simpl. destruct l1; simpl in *; mem_solve.
  - rewrite last_or_app in Ht. rewrite !last_or_cons in Ht. rewrite !last_or_cons. mem_solve.
  - intros ? [= <-]. mem_solve.
  - intros ? [= <-]. mem_solve.
  - simpl. frame_solve.
Qed.

Lemma dq_addbefore_spec m q x l1 n l2 :
  dq_repr m q (l1 ++ n :: l2) → dq_fresh m q x (l1 ++ n :: l2) →
  returns (dq_addbefore n x q) m
    (λ _, dq_post q (x :: l1 ++ n :: l2) (l1 ++ x :: n :: l2) m).
Proof.
  intros Hr Hf. pose proof Hr as (Hq & Ht & _). pose proof Hf as (Hx & Hm1 & Hm2 & Hs).
  pose proof (dq_fresh_sep _ _ q Hf ltac:(set_solver)) as Hxq.
  pose proof (dq_node _ _ _ Hr) as (H1 & H2 & H3 & H4 & H5 & _).
  pose proof (dq_fresh_sep _ _ n Hf ltac:(set_solver)) as H6.
  unfold dq_addbefore, HEAD, TAIL, FLINK, BLINK, nonnull. rsteps.
  destruct (list_snoc_cases l1) as [->|(l & p & ->)].
  { unfold hd_or in *; simpl in *. rstep. by apply dq_addfirst_spec. }
  rewrite <-app_assoc in *. simpl in *.
  pose proof (dq_node _ _ _ Hr) as (P1 & P2 & P3 & P4 & _ & _).
  pose proof (dq_pair _ _ _ _ Hr) as (N1 & N2 & N3 & N4 & N5 & _ & N7).
  pose proof (dq_fresh_sep _ _ p Hf ltac:(set_solver)) as N6.
  rewrite last_or_snoc in *.
  rsteps. split; [|by touch].
  replace (l ++ p :: x :: n :: l2) with ((l ++ [p]) ++ x :: n :: l2) by (by rewrite <-app_assoc).
  apply dq_splice with (m:=m); rewrite ?last_or_snoc, ?last_snoc, <-?app_assoc; try done;
    try mem_solve.
  - rewrite hd_or_app. unfold hd_or; simpl. destruct l; simpl in *; mem_solve.
  - rewrite last_or_app in Ht. rewrite !last_or_cons in Ht. rewrite !last_or_cons. mem_solve.
  - intros ? [= <-]. mem_solve.
  - intros ? [= <-]. mem_solve.
  - simpl. frame_solve.
Qed.

(** [dq_rem] also clears the links of the removed node. *)
Lemma dq_rem_spec m q l1 x l2 :
  dq_repr m q (l1 ++ x :: l2) →
  returns (dq_rem x q) m (λ _ m',
    dq_post q (l1 ++ x :: l2) (l1 ++ l2) m m' ∧ m' !! x = Some NULL ∧ m' !! (x + 4) = Some NULL).
Proof.
  intros Hr. pose proof Hr as (Hq & Ht & _).
  pose proof (dq_node _ _ _ Hr) as (H1 & H2 & H3 & H4 & _ & _).
  dq_unfold.
  destruct (list_snoc_cases l1) as [->|(l & p & ->)]; destruct l2 as [|n l2].
  - unfold hd_or, last_or in *; simpl in *. rsteps.
    split_and!; [split; [|by touch]|mem_solve|mem_solve].
    apply dq_unsplice with (m:=m) (l1:=[]) (x:=x) (l2:=[]); try done; try mem_solve. frame_solve.
  - pose proof (dq_pair [] _ _ _ Hr) as (N1 & N2 & N3 & N4 & N5 & _ & _).
    unfold hd_or in *; simpl in *. rsteps.
    split_and!; [split; [|by touch]|mem_solve|mem_solve].
    apply dq_unsplice with (m:=m) (l1:=[]) (x:=x) (l2:=n :: l2); try done; try mem_solve.
    + intros ? [= <-]. mem_solve.
    + frame_solve.
  - rewrite <-app_assoc in *; simpl in *.
    pose proof (dq_node _ _ _ Hr) as (P1 & P2 & P3 & P4 & _ & _).
    pose proof (dq_pair _ _ _ _ Hr) as (N1 & N2 & N3 & N4 & N5 & _ & N7).
    rewrite last_or_snoc in *. unfold hd_or in *; simpl in *. rsteps.
    split_and!; [split; [|by touch]|mem_solve|mem_solve].
    apply dq_unsplice with (m:=m) (l1:=l ++ [p]) (x:=x) (l2:=[]);
      rewrite ?last_or_snoc, ?last_snoc, ?app_nil_r, <-?app_assoc, ?last_or_snoc; try done;
      try mem_solve.
    + rewrite hd_or_app in *. unfold hd_or; destruct l; simpl in *; mem_solve.
    + intros ? [= <-]. mem_solve.
    + frame_solve.
  - rewrite <-app_assoc in *; simpl in *.
    pose proof (dq_node _ _ _ Hr) as (P1 & P2 & P3 & P4 & _ & _).
    pose proof (dq_pair _ _ _ _ Hr) as (N1 & N2 & N3 & N4 & N5 & _ & N7).
    pose proof (dq_pair (m:=m) (q:=q) (l ++ [p]) x n l2) as M1. rewrite <-app_assoc in M1.
    destruct (M1 Hr) as (M2 & M3 & M4 & M5 & M6 & _).
    pose proof (dq_sep_app _ _ _ n Hr ltac:(set_solver)) as M7.
    rewrite last_or_snoc in *. unfold hd_or in *; simpl in *. rsteps.
    split_and!; [split; [|by touch]|mem_solve|mem_solve].
    apply dq_unsplice with (m:=m) (l1:=l ++ [p]) (x:=x) (l2:=n :: l2);
      rewrite ?last_or_snoc, ?last_snoc, <-?app_assoc; try done;
      try mem_solve.
    + unfold hd_or; destruct l; simpl in *; mem_solve.
    + simpl. rewrite last_or_app in *. rewrite !last_or_cons in Ht. rewrite !last_or_cons. mem_solve.
    + intros ? [= <-]. mem_solve.
    + intros ? [= <-]. mem_solve.
    + frame_solve.
Qed.

Lemma dq_remfirst_spec m q x l :
  dq_repr m q (x :: l) →
  returns (dq_remfirst q) m (λ r m', r = x ∧ dq_post q (x :: l) l m m').
Proof.
  intros Hr. pose proof Hr as (Hq & Ht & _).
  pose proof (dq_node [] _ _ Hr) as (H1 & H2 & H3 & H4 & _ & _).
  dq_unfold. rewrite hd_or_cons in *. destruct l as [|n l]; rewrite ?hd_or_cons in *.
  - rsteps. split; [done|]. split; [|by touch].
    apply dq_unsplice with (m:=m) (l1:=[]) (x:=x) (l2:=[]); try done; try mem_solve. frame_solve.
  - pose proof (dq_pair [] _ _ _ Hr) as (N1 & N2 & N3 & N4 & N5 & _ & _).
    rsteps. split; [done|]. split; [|by touch].
    apply dq_unsplice with (m:=m) (l1:=[]) (x:=x) (l2:=n :: l); try done; try mem_solve.
    + intros ? [= <-]. mem_solve.
    + frame_solve.
Qed.

Lemma dq_remlast_spec m q l x :
  dq_repr m q (l ++ [x]) →
  returns (dq_remlast q) m (λ r m', r = x ∧ dq_post q (l ++ [x]) l m m').
Proof.
  intros Hr. pose proof Hr as (Hq & Ht & _).
  pose proof (dq_node _ _ _ Hr) as (H1 & H2 & H3 & H4 & _ & _).
  dq_unfold. rewrite last_or_snoc in *.
  destruct (list_snoc_cases l) as [->|(l' & p & ->)].
  - unfold last_or in H2; simpl in H2. rsteps. split; [done|]. split; [|by touch].
    apply dq_unsplice with (m:=m) (l1:=[]) (x:=x) (l2:=[]); try done; try mem_solve. frame_solve.
  - rewrite <-app_assoc in *; simpl in *.
    pose proof (dq_node _ _ _ Hr) as (P1 & P2 & P3 & P4 & _ & _).
    pose proof (dq_pair _ _ _ _ Hr) as (N1 & N2 & N3 & N4 & N5 & _ & N7).
    rewrite last_or_snoc in *. rsteps. split; [done|]. split; [|by touch].
    rewrite <-(app_nil_r (l' ++ [p])).
    apply dq_unsplice with (m:=m) (l1:=l' ++ [p]) (x:=x) (l2:=[]);
      rewrite ?last_or_snoc, ?last_snoc, ?app_nil_r, <-?app_assoc, ?last_or_snoc; try done;
      try mem_solve.
    + rewrite hd_or_app in *. rewrite hd_or_cons in *. mem_solve.
    + intros ? [= <-]. mem_solve.
    + frame_solve.
Qed.

(** Removing from an empty queue returns NULL and changes nothing. *)
Lemma dq_rem_empty m q :
  dq_repr m q [] →
  dq_remfirst q m = Done (NULL, m) ∧ dq_remlast q m = Done (NULL, m).
Proof.
  intros (Hq & Ht & _). dq_unfold. unfold mbind, M_bind, load.
  rewrite !Z.add_0_r, Hq, Ht. done.
Qed.
