(* ===== verification/QueueSq.v ===== *)
(** Singly linked queues, libc/queue/sq_*.c: the operations of [Queue] refine
    list operations.  [sq_repr m q l] says that the queue header at [q] and
    the links in memory represent the node list [l]. *)

From S2P Require Import Prelude Links Queue.

(** * Singly linked queues implement lists *)

Definition sq_repr (m : mem) (q : Z) (l : list Z) : Prop :=
  m !! q = Some (hd_or NULL l) ∧ m !! (q + 4) = Some (last_or NULL l) ∧
  sseg m l NULL ∧ NoDup (q :: (q + 4) :: l) ∧ Forall (λ x, x ≠ NULL) l.

Definition sq_post (q : Z) (F : list Z) (l' : list Z) (m m' : mem) : Prop :=
  sq_repr m' q l' ∧ writes (q :: (q + 4) :: F) m m'.

Definition sq_fresh (m : mem) (q x : Z) (l : list Z) : Prop :=
  x ≠ NULL ∧ is_Some (m !! x) ∧ NoDup (x :: q :: (q + 4) :: l).

Section SqFacts.
Context {m : mem} {q : Z}.

Lemma sq_node l1 y l2 :
  sq_repr m q (l1 ++ y :: l2) →
  m !! y = Some (hd_or NULL l2) ∧ y ≠ NULL ∧ y ≠ q ∧ y ≠ q + 4 ∧
  hd_or NULL (l1 ++ y :: l2) ≠ NULL ∧ last_or NULL (l1 ++ y :: l2) ≠ NULL.
Proof.
  intros (_ & _ & Hd & Hnd & Hn). rewrite Forall_forall in Hn.
  apply NoDup_cons in Hnd as [Hq Hnd]. apply NoDup_cons in Hnd as [Hq4 _].
  split_and!; [by eapply sseg_flink|apply Hn; set_solver|set_solver|set_solver| |].
  - apply Hn. destruct l1; set_solver.
  - apply Hn. rewrite last_or_app, last_or_cons.
    destruct (list_snoc_cases l2) as [->|(l & z & ->)]; [|rewrite last_or_snoc]; set_solver.
Qed.

Lemma sq_elem l y : sq_repr m q l → y ∈ l → is_Some (m !! y) ∧ y ≠ NULL ∧ y ≠ q ∧ y ≠ q + 4.
Proof.
  intros Hr (l1 & l2 & ->)%list_elem_of_split.
  pose proof (sq_node _ _ _ Hr) as (H1 & H2 & H3 & H4 & _). eauto.
Qed.

Lemma sq_nodup l : sq_repr m q l → NoDup l.
Proof. intros (_ & _ & _ & Hnd & _). by do 2 apply NoDup_cons in Hnd as [_ Hnd]. Qed.

Lemma sq_sep l1 x l2 y : sq_repr m q (l1 ++ x :: l2) → y ∈ l1 ++ l2 → x ≠ y.
Proof.
  intros Hnd%sq_nodup. rewrite <-Permutation_middle in Hnd.
  apply NoDup_cons in Hnd as [Hx _]. intros Hy ->. done.
Qed.

Lemma sq_fresh_sep x l y : sq_fresh m q x l → y ∈ q :: (q + 4) :: l → x ≠ y.
Proof. intros (_ & _ & Hnd) Hy ->. apply NoDup_cons in Hnd as [Hx _]. done. Qed.

Lemma sq_last_ne l1 p n l2 :
  sq_repr m q (l1 ++ p :: n :: l2) → last_or NULL (l1 ++ p :: n :: l2) ≠ p.
Proof.
  intros Hr E. pose proof (sq_sep l1 p (n :: l2) (last_or n l2) Hr) as Hs.
  rewrite last_or_app, !last_or_cons in E. apply Hs; [|done].
  destruct (list_snoc_cases l2) as [->|(l & z & ->)]; [|rewrite last_or_snoc]; set_solver.
Qed.
End SqFacts.

(** Splicing a node in, and taking one out. *)
Lemma sq_splice m m' q l1 x l2 :
  sq_repr m q (l1 ++ l2) → sq_fresh m q x (l1 ++ l2) →
  m' !! q = Some (hd_or x l1) → m' !! (q + 4) = Some (last_or x l2) →
  m' !! x = Some (hd_or NULL l2) →
  (∀ y, last l1 = Some y → m' !! y = Some x) →
  (∀ y, y ∈ l1 ++ l2 → last l1 ≠ Some y → m' !! y = m !! y) →
  sq_repr m' q (l1 ++ x :: l2).
Proof.
  intros Hr (Hx & _ & Hnd) Hq Ht Hxl Hl Hf. pose proof Hr as (_ & _ & Hd & _ & Hn).
  pose proof (sq_nodup _ Hr) as Hnl. apply NoDup_app in Hnl as (_ & Hdisj & _).
  unfold sq_repr. split_and!.
  - by rewrite hd_or_app.
  - by rewrite last_or_app, last_or_cons.
  - apply sseg_app in Hd as [Hd1 Hd2]. apply sseg_app. simpl. split_and!; [|done|].
    + rewrite hd_or_cons. destruct (list_snoc_cases l1) as [->|(l & y & ->)]; [done|].
      rewrite last_snoc in Hl, Hf. apply sseg_app in Hd1 as [Hd1 _].
      pose proof (sq_nodup _ Hr) as Hnl. rewrite <-app_assoc in Hnl.
      apply NoDup_app in Hnl as (_ & Hy & _).
      apply sseg_app. simpl. rewrite Hl by done. split_and!; [|done|done].
      revert Hd1. apply sseg_frame. intros z Hz. apply Hf; [set_solver|].
      intros [= ->]. apply (Hy z); set_solver.
    + revert Hd2. apply sseg_frame. intros y Hy. apply Hf; [set_solver|].
      intros Hy'%last_Some_elem_of. by apply (Hdisj y).
  - change (NoDup ((q :: (q + 4) :: l1) ++ x :: l2)). by rewrite <-Permutation_middle.
  - rewrite <-Permutation_middle. by constructor.
Qed.

Lemma sq_unsplice m m' q l1 x l2 :
  sq_repr m q (l1 ++ x :: l2) →
  m' !! q = Some (hd_or NULL (l1 ++ l2)) → m' !! (q + 4) = Some (last_or NULL (l1 ++ l2)) →
  (∀ y, last l1 = Some y → m' !! y = Some (hd_or NULL l2)) →
  (∀ y, y ∈ l1 ++ l2 → last l1 ≠ Some y → m' !! y = m !! y) →
  sq_repr m' q (l1 ++ l2).
Proof.
  intros Hr Hq Ht Hl Hf. pose proof Hr as (_ & _ & Hd & Hnd & Hn).
  pose proof (sq_nodup _ Hr) as Hnl. apply NoDup_app in Hnl as (_ & Hdisj & _).
  unfold sq_repr. split_and!; [done|done| | |].
  - apply sseg_app in Hd as [Hd1 Hd2]. simpl in Hd2. destruct Hd2 as [_ Hd2].
    apply sseg_app. split.
    + destruct (list_snoc_cases l1) as [->|(l & y & ->)]; [done|].
      rewrite last_snoc in Hl, Hf. apply sseg_app in Hd1 as [Hd1 _].
      pose proof (sq_nodup _ Hr) as Hnl. rewrite <-app_assoc in Hnl.
      apply NoDup_app in Hnl as (_ & Hy & _).
      apply sseg_app. simpl. rewrite Hl by done. split_and!; [|done|done].
      revert Hd1. apply sseg_frame. intros z Hz. apply Hf; [set_solver|].
      intros [= ->]. apply (Hy z); set_solver.
    + revert Hd2. apply sseg_frame. intros y Hy. apply Hf; [set_solver|].
      intros Hy'%last_Some_elem_of. apply (Hdisj y); set_solver.
  - change (NoDup ((q :: (q + 4) :: l1) ++ x :: l2)) in Hnd.
    rewrite <-Permutation_middle in Hnd. by apply NoDup_cons in Hnd as [_ Hnd].
  - rewrite <-Permutation_middle, Forall_cons in Hn. naive_solver.
Qed.

Ltac sq_unfold :=
  unfold sq_addfirst, sq_addlast, sq_addafter, sq_remafter, sq_remfirst, sq_remlast, sq_rem,
    FLINK, HEAD, TAIL, nonnull.

(** The words of nodes other than the ones written. *)
Ltac sq_frame :=
  intros;
  repeat match goal with
  | H : Some ?u ≠ Some ?v |- _ => assert (u ≠ v) by congruence; clear H
  end;
  repeat (rewrite lookup_insert_ne; [|by (rewrite ?Z.add_0_r; congruence || lia)]); done.

Lemma sq_addlast_spec m q x l :
  sq_repr m q l → sq_fresh m q x l →
  returns (sq_addlast x q) m (λ _, sq_post q (x :: l) (l ++ [x]) m).
Proof.
  intros Hr Hf. pose proof Hr as (Hq & Ht & _). pose proof Hf as (Hx & Hm & Hnd).
  pose proof (sq_fresh_sep _ _ q Hf ltac:(set_solver)) as Hxq.
  pose proof (sq_fresh_sep _ _ (q + 4) Hf ltac:(set_solver)) as Hxq4.
  sq_unfold. rsteps.
  destruct (list_snoc_cases l) as [->|(l' & y & ->)].
  - unfold hd_or; simpl. rsteps. split; [|by wrote].
    apply sq_splice with (m:=m) (l1:=[]) (l2:=[]); try done; try mem_solve. intros y Hy. set_solver.
  - pose proof (sq_node _ _ _ Hr) as (H1 & H2 & H3 & H4 & H5 & _).
    pose proof (sq_fresh_sep _ _ y Hf ltac:(set_solver)) as H6.
    rewrite last_or_snoc in *. rsteps. split; [|by wrote].
    apply sq_splice with (m:=m) (l1:=l' ++ [y]) (l2:=[]);
      rewrite ?app_nil_r, ?last_or_snoc, ?last_snoc; try done; try mem_solve.
    + rewrite hd_or_app in *. rewrite hd_or_cons in *. mem_solve.
    + intros ? [= <-]. mem_solve.
    + intros z Hz Hne.
      pose proof (sq_elem _ _ Hr Hz) as (_ & _ & Z3 & Z4).
      pose proof (sq_fresh_sep _ _ z Hf ltac:(set_solver)) as Z6. sq_frame.
Qed.

Lemma sq_addfirst_spec m q x l :
  sq_repr m q l → sq_fresh m q x l →
  returns (sq_addfirst x q) m (λ _, sq_post q (x :: l) (x :: l) m).
Proof.
  intros Hr Hf. pose proof Hr as (Hq & Ht & _). pose proof Hf as (Hx & Hm & Hnd).
  pose proof (sq_fresh_sep _ _ q Hf ltac:(set_solver)) as Hxq.
  pose proof (sq_fresh_sep _ _ (q + 4) Hf ltac:(set_solver)) as Hxq4.
  sq_unfold. rsteps. destruct l as [|y l].
  - unfold hd_or; simpl. rsteps. split; [|by wrote].
    apply sq_splice with (m:=m) (l1:=[]) (l2:=[]); try done; try mem_solve. intros y Hy. set_solver.
  - pose proof (sq_node [] y l Hr) as (H1 & H2 & H3 & H4 & H5 & _).
    rewrite hd_or_cons in *. rewrite last_or_cons in Ht. rsteps. split; [|by wrote].
    apply sq_splice with (m:=m) (l1:=[]) (l2:=y :: l); rewrite ?last_or_cons; try done;
      try mem_solve.
    intros z Hz Hne. pose proof (sq_elem _ _ Hr Hz) as (_ & _ & Z3 & Z4).
    pose proof (sq_fresh_sep _ _ z Hf ltac:(set_solver)) as Z6. sq_frame.
Qed.

Lemma sq_addafter_spec m q x l1 p l2 :
  sq_repr m q (l1 ++ p :: l2) → sq_fresh m q x (l1 ++ p :: l2) →
  returns (sq_addafter p x q) m
    (λ _, sq_post q (x :: l1 ++ p :: l2) (l1 ++ p :: x :: l2) m).
Proof.
  intros Hr Hf. pose proof Hr as (Hq & Ht & _). pose proof Hf as (Hx & Hm & Hnd).
  pose proof (sq_fresh_sep _ _ q Hf ltac:(set_solver)) as Hxq.
  pose proof (sq_fresh_sep _ _ (q + 4) Hf ltac:(set_solver)) as Hxq4.
  pose proof (sq_fresh_sep _ _ p Hf ltac:(set_solver)) as Hxp.
  pose proof (sq_node _ _ _ Hr) as (H1 & H2 & H3 & H4 & H5 & _).
  unfold sq_addafter, HEAD, TAIL, FLINK, nonnull. rsteps.
  destruct l2 as [|n l2].
  { rewrite last_or_snoc in *. rstep. replace (l1 ++ [p; x]) with ((l1 ++ [p]) ++ [x])
      by (by rewrite <-app_assoc). by apply sq_addlast_spec. }
  pose proof (sq_last_ne _ _ _ _ Hr) as Hlast.
  rewrite hd_or_cons in *. rsteps. split; [|by wrote].
  replace (l1 ++ p :: x :: n :: l2) with ((l1 ++ [p]) ++ x :: n :: l2) by (by rewrite <-app_assoc).
  apply sq_splice with (m:=m); rewrite ?last_or_snoc, ?last_snoc, <-?app_assoc; try done;
    try mem_solve.
  - rewrite hd_or_app in *. rewrite !hd_or_cons in *. mem_solve.
  - rewrite last_or_app in Ht. rewrite !last_or_cons in Ht. rewrite !last_or_cons. mem_solve.
  - intros ? [= <-]. mem_solve.
  - intros z Hz Hne. pose proof (sq_elem _ _ Hr Hz) as (_ & _ & Z3 & Z4).
    pose proof (sq_fresh_sep _ _ z Hf ltac:(set_solver)) as Z6. sq_frame.
Qed.

Lemma sq_remfirst_spec m q x l :
  sq_repr m q (x :: l) →
  returns (sq_remfirst q) m (λ r m', r = x ∧ sq_post q (x :: l) l m m' ∧ m' !! x = Some NULL).
Proof.
  intros Hr. pose proof Hr as (Hq & Ht & _).
  pose proof (sq_node [] _ _ Hr) as (H1 & H2 & H3 & H4 & _ & _).
  sq_unfold. rewrite hd_or_cons in *. destruct l as [|n l]; rewrite ?hd_or_cons in *.
  - unfold hd_or in *; simpl in *. rsteps. split_and!; [done|split; [|by wrote]|mem_solve].
    apply sq_unsplice with (m:=m) (l1:=[]) (x:=x) (l2:=[]); try done; try mem_solve.
    intros y Hy. set_solver.
  - pose proof (sq_node [x] _ _ Hr) as (N1 & N2 & N3 & N4 & _ & _).
    rsteps. split_and!; [done|split; [|by wrote]|mem_solve].
    apply sq_unsplice with (m:=m) (l1:=[]) (x:=x) (l2:=n :: l); try done; try mem_solve.
    intros z Hz Hne. pose proof (sq_elem _ z Hr ltac:(set_solver)) as (_ & _ & Z3 & Z4).
    pose proof (sq_sep [] _ _ z Hr Hz) as Z6. sq_frame.
Qed.

Lemma sq_remfirst_empty m q : sq_repr m q [] → sq_remfirst q m = Done (NULL, m).
Proof.
  intros (Hq & _). sq_unfold. unfold mbind, M_bind, load. by rewrite !Z.add_0_r, Hq.
Qed.

Lemma sq_remafter_spec m q l1 p x l2 :
  sq_repr m q (l1 ++ p :: x :: l2) →
  returns (sq_remafter p q) m
    (λ r m', r = x ∧ sq_post q (l1 ++ p :: x :: l2) (l1 ++ p :: l2) m m' ∧ m' !! x = Some NULL).
Proof.
  intros Hr. pose proof Hr as (Hq & Ht & _).
  pose proof (sq_node _ _ _ Hr) as (H1 & H2 & H3 & H4 & H5 & _).
  pose proof (sq_node (m:=m) (q:=q) (l1 ++ [p]) x l2) as Hx. rewrite <-app_assoc in Hx.
  destruct (Hx Hr) as (X1 & X2 & X3 & X4 & _). clear Hx.
  pose proof (sq_sep _ _ _ x Hr ltac:(set_solver)) as Hpx.
  sq_unfold. rewrite hd_or_cons in *.
  replace (l1 ++ p :: l2) with ((l1 ++ [p]) ++ l2) by (by rewrite <-app_assoc).
  assert (Hlast : last_or NULL (l1 ++ p :: x :: l2) = last_or x l2)
    by (by rewrite last_or_app, !last_or_cons).
  rewrite Hlast in *. destruct l2 as [|n l2].
  - unfold last_or in Ht; simpl in Ht. rsteps. split_and!; [done|split; [|by wrote]|mem_solve].
    apply sq_unsplice with (m:=m) (l1:=l1 ++ [p]) (x:=x) (l2:=[]);
      rewrite ?app_nil_r, ?last_or_snoc, ?last_snoc, <-?app_assoc; try done; try mem_solve.
    + rewrite hd_or_app in *. rewrite !hd_or_cons in *. mem_solve.
    + intros ? [= <-]. mem_solve.
    + intros z Hz Hne. pose proof (sq_elem _ z Hr ltac:(set_solver)) as (_ & _ & Z3 & Z4).
      pose proof (sq_sep (m:=m) (q:=q) (l1 ++ [p]) x [] z) as Z6.
      rewrite <-app_assoc, app_nil_r in Z6. specialize (Z6 Hr Hz). sq_frame.
  - assert (Hne : last_or x (n :: l2) ≠ x).
    { pose proof (sq_last_ne (m:=m) (q:=q) (l1 ++ [p]) x n l2) as E.
      rewrite <-app_assoc in E. rewrite <-Hlast. by apply E. }
    rewrite hd_or_cons in *. rsteps. split_and!; [done|split; [|by wrote]|mem_solve].
    apply sq_unsplice with (m:=m) (l1:=l1 ++ [p]) (x:=x) (l2:=n :: l2);
      rewrite ?last_or_snoc, ?last_snoc, <-?app_assoc; try done; try mem_solve.
    + rewrite hd_or_app in *. rewrite !hd_or_cons in *. mem_solve.
    + rewrite last_or_app. simpl. rewrite !last_or_cons in *. mem_solve.
    + intros ? [= <-]. mem_solve.
    + intros z Hz Hne'. pose proof (sq_elem _ z Hr ltac:(set_solver)) as (_ & _ & Z3 & Z4).
      pose proof (sq_sep (m:=m) (q:=q) (l1 ++ [p]) x (n :: l2) z) as Z6.
      rewrite <-!app_assoc in Z6. specialize (Z6 Hr Hz). sq_frame.
Qed.

(** The search loop ends at the predecessor of the node searched for. *)
Lemma sq_findprev_loop m q k1 p x l2 fuel :
  sseg m (k1 ++ p :: x :: l2) NULL → NoDup (k1 ++ p :: x :: l2) →
  Forall (λ y, y ≠ NULL) (k1 ++ p :: x :: l2) → (length k1 < fuel)%nat →
  returns (loop fuel (sq_findprev_body x) (hd_or q (k1 ++ [p]))) m (λ r m', r = p ∧ m' = m).
Proof.
  revert fuel. induction k1 as [|y k1 IH]; intros [|fuel] Hd Hnd Hn Hfuel; simpl in *; try lia;
    rewrite hd_or_cons, loop_S; unfold sq_findprev_body, FLINK, nonnull;
    apply Forall_cons in Hn as [Hn0 Hn]; destruct Hd as [Hd0 Hd].
  - rewrite hd_or_cons in Hd0. rsteps. done.
  - apply NoDup_cons in Hnd as [Hy Hnd]. rsteps.
    assert (Hne : hd_or NULL (k1 ++ p :: x :: l2) ≠ x).
    { rewrite hd_or_app, hd_or_cons. destruct k1 as [|z k1]; rewrite ?hd_or_cons;
        simpl in Hnd; apply NoDup_cons in Hnd as [Hz _]; set_solver. }
    rsteps. replace (hd_or NULL (k1 ++ p :: x :: l2)) with (hd_or q (k1 ++ [p])).
    { apply IH; [done..|lia]. }
    by rewrite !hd_or_app, !hd_or_cons.
Qed.

Lemma sq_findprev_spec m q l1 p x l2 :
  sq_repr m q (l1 ++ p :: x :: l2) →
  returns (sq_findprev x (hd_or NULL (l1 ++ p :: x :: l2))) m (λ r m', r = p ∧ m' = m).
Proof.
  intros Hr. pose proof Hr as (_ & _ & Hd & _ & Hn). unfold sq_findprev. rsteps.
  replace (hd_or NULL (l1 ++ p :: x :: l2)) with (hd_or NULL (l1 ++ [p]))
    by (by rewrite !hd_or_app, !hd_or_cons).
  eapply sq_findprev_loop; [done|by eapply sq_nodup|done|].
  pose proof (mapped_length m (l1 ++ p :: x :: l2) 0 (sq_nodup _ Hr)) as Hlen.
  rewrite length_app in Hlen. simpl in Hlen. enough (length l1 + S (S (length l2)) ≤ size m)%nat by lia.
  apply Hlen. intros y Hy. rewrite Z.add_0_r. by eapply sseg_mapped.
Qed.

Lemma sq_remlast_spec m q l x :
  sq_repr m q (l ++ [x]) →
  returns (sq_remlast q) m (λ r m', r = x ∧ sq_post q (l ++ [x]) l m m').
Proof.
  intros Hr. pose proof Hr as (Hq & Ht & _).
  pose proof (sq_node _ _ _ Hr) as (X1 & X2 & X3 & X4 & _ & _).
  rewrite last_or_snoc in *.
  unfold sq_remlast, FLINK, HEAD, TAIL, nonnull. rsteps.
  destruct (list_snoc_cases l) as [->|(l' & p & ->)].
  - simpl in *. rewrite hd_or_cons in *. rsteps. split; [done|]. split; [|by wrote].
    apply sq_unsplice with (m:=m) (l1:=[]) (x:=x) (l2:=[]); try done; try mem_solve.
    intros y Hy. set_solver.
  - rewrite <-app_assoc in *; simpl in *.
    pose proof (sq_node _ _ _ Hr) as (P1 & P2 & P3 & P4 & _ & _).
    pose proof (sq_sep _ _ _ x Hr ltac:(set_solver)) as Hpx.
    assert (Hhx : hd_or NULL (l' ++ [p; x]) ≠ x).
    { rewrite hd_or_app, hd_or_cons. destruct l' as [|z l']; rewrite ?hd_or_cons; [done|].
      pose proof (sq_sep [] z _ x Hr ltac:(set_solver)). done. }
    rsteps. eapply returns_mono; [by eapply sq_findprev_spec|]. simpl. intros r m' [-> ->].
    rsteps. split; [done|]. split; [|by wrote].
    rewrite <-(app_nil_r (l' ++ [p])).
    apply sq_unsplice with (m:=m) (l1:=l' ++ [p]) (x:=x) (l2:=[]);
      rewrite ?last_or_snoc, ?last_snoc, ?app_nil_r, <-?app_assoc, ?last_or_snoc; try done;
      try mem_solve.
    + rewrite hd_or_app in *. rewrite hd_or_cons in *. mem_solve.
    + intros ? [= <-]. mem_solve.
    + intros z Hz Hne. pose proof (sq_elem _ z Hr ltac:(set_solver)) as (_ & _ & Z3 & Z4).
      pose proof (sq_sep (m:=m) (q:=q) (l' ++ [p]) x [] z) as Z6.
      rewrite <-app_assoc, app_nil_r in Z6. specialize (Z6 Hr Hz). sq_frame.
Qed.

(** [sq_rem] takes the node out wherever it is. *)
Lemma sq_rem_spec m q l1 x l2 :
  sq_repr m q (l1 ++ x :: l2) →
  returns (sq_rem x q) m (λ _, sq_post q (l1 ++ x :: l2) (l1 ++ l2) m).
Proof.
  intros Hr. pose proof Hr as (Hq & Ht & _).
  pose proof (sq_node _ _ _ Hr) as (X1 & X2 & X3 & X4 & X5 & _).
  unfold sq_rem, FLINK, HEAD, TAIL, nonnull. rsteps.
  destruct (list_snoc_cases l1) as [->|(l & p & ->)]; simpl in *.
  - rewrite hd_or_cons in *. rewrite last_or_cons in Ht. rsteps. destruct l2 as [|n l2].
    + unfold hd_or, last_or in *; simpl in *. rsteps. split; [|by wrote].
      apply sq_unsplice with (m:=m) (l1:=[]) (x:=x) (l2:=[]); try done; try mem_solve.
      intros y Hy. set_solver.
    + assert (Hne : last_or x (n :: l2) ≠ x).
      { pose proof (sq_last_ne [] x n l2 Hr) as E. simpl in E. by rewrite last_or_cons in E. }
      rewrite hd_or_cons in *. rsteps. split; [|by wrote].
      apply sq_unsplice with (m:=m) (l1:=[]) (x:=x) (l2:=n :: l2); simpl; rewrite ?last_or_cons in *; try done; try mem_solve.
      intros z Hz _. pose proof (sq_elem _ z Hr ltac:(set_solver)) as (_ & _ & Z3 & Z4). sq_frame.
  - rewrite <-app_assoc in *; simpl in *.
    pose proof (sq_node _ _ _ Hr) as (P1 & P2 & P3 & P4 & _ & _).
    assert (Hhx : hd_or NULL (l ++ p :: x :: l2) ≠ x).
    { pose proof (sq_sep _ _ _ x Hr ltac:(set_solver)) as Hpx.
      rewrite hd_or_app, hd_or_cons. destruct l as [|z l]; rewrite ?hd_or_cons; [done|].
      pose proof (sq_sep [] z _ x Hr ltac:(set_solver)). done. }
    rsteps. eapply returns_mono; [by eapply sq_findprev_spec|]. simpl. intros r m' [-> ->].
    rsteps. eapply returns_mono; [by eapply sq_remafter_spec|]. simpl. intros r m' (_ & Hp & _).
    rsteps. rewrite <-app_assoc. done.
Qed.
