(* ===== verification/QueueThms.v ===== *)
(** The queue library implements lists: any sequence of queue operations
    returns what the list operations return and leaves the list they
    leave. *)

From S2P Require Import Prelude Links Queue QueueSq.

(** The operations of queue.h. *)
Inductive qop :=
| AddFirst (x : Z) | AddLast (x : Z) | AddAfter (p x : Z) | AddBefore (n x : Z)
| Rem (x : Z) | RemFirst | RemLast | RemAfter (p : Z).

Definition dq_run (q : Z) (op : qop) : M mem Z :=
  match op with
  | AddFirst x => dq_addfirst x q;; mret NULL
  | AddLast x => dq_addlast x q;; mret NULL
  | AddAfter p x => dq_addafter p x q;; mret NULL
  | AddBefore n x => dq_addbefore n x q;; mret NULL
  | Rem x => dq_rem x q;; mret NULL
  | RemFirst => dq_remfirst q
  | RemLast => dq_remlast q
  | RemAfter _ => mret NULL
  end.

Definition sq_run (q : Z) (op : qop) : M mem Z :=
  match op with
  | AddFirst x => sq_addfirst x q;; mret NULL
  | AddLast x => sq_addlast x q;; mret NULL
  | AddAfter p x => sq_addafter p x q;; mret NULL
  | AddBefore _ _ => mret NULL
  | Rem x => sq_rem x q;; mret NULL
  | RemFirst => sq_remfirst q
  | RemLast => sq_remlast q
  | RemAfter p => sq_remafter p q
  end.

(** The list operations; nodes that are added come from [U] and are not in
    the list. *)
Inductive lstep (U : list Z) : qop → list Z → Z → list Z → Prop :=
| LAddFirst x l : x ∈ U → x ∉ l → lstep U (AddFirst x) l NULL (x :: l)
| LAddLast x l : x ∈ U → x ∉ l → lstep U (AddLast x) l NULL (l ++ [x])
| LAddAfter p x l1 l2 : x ∈ U → x ∉ l1 ++ p :: l2 →
    lstep U (AddAfter p x) (l1 ++ p :: l2) NULL (l1 ++ p :: x :: l2)
| LAddBefore n x l1 l2 : x ∈ U → x ∉ l1 ++ n :: l2 →
    lstep U (AddBefore n x) (l1 ++ n :: l2) NULL (l1 ++ x :: n :: l2)
| LRem x l1 l2 : lstep U (Rem x) (l1 ++ x :: l2) NULL (l1 ++ l2)
| LRemFirst x l : lstep U RemFirst (x :: l) x l
| LRemFirstNil : lstep U RemFirst [] NULL []
| LRemLast x l : lstep U RemLast (l ++ [x]) x l
| LRemLastNil : lstep U RemLast [] NULL []
| LRemAfter p x l1 l2 : lstep U (RemAfter p) (l1 ++ p :: x :: l2) x (l1 ++ p :: l2)
| LRemAfterLast p l1 : lstep U (RemAfter p) (l1 ++ [p]) NULL (l1 ++ [p]).

(** Sequences of operations and their results. *)
Inductive lsteps (U : list Z) : list qop → list Z → list Z → list Z → Prop :=
| lsteps_nil l : lsteps U [] l [] l
| lsteps_cons op ops l r l' rs l'' :
    lstep U op l r l' → lsteps U ops l' rs l'' → lsteps U (op :: ops) l (r :: rs) l''.

Fixpoint runs (f : qop → M mem Z) (ops : list qop) : M mem (list Z) :=
  match ops with
  | [] => mret []
  | op :: ops => r ← f op; rs ← runs f ops; mret (r :: rs)
  end.

Lemma lstep_sub U op l r l' : lstep U op l r l' → l ⊆ U → l' ⊆ U.
Proof. destruct 1; set_solver. Qed.

Definition dq_op (op : qop) : Prop := match op with RemAfter _ => False | _ => True end.
Definition sq_op (op : qop) : Prop := match op with AddBefore _ _ => False | _ => True end.

(** The pool of nodes: apart from each other and the queue, and mapped. *)
Definition pool (m : mem) (q : Z) (U : list Z) : Prop :=
  spaced (q :: U) ∧ ∀ x, x ∈ U → x ≠ NULL ∧ is_Some (m !! x) ∧ is_Some (m !! (x + 4)).

Lemma pool_fresh m q U x l :
  pool m q U → dq_repr m q l → x ∈ U → x ∉ l → l ⊆ U → dq_fresh m q x l.
Proof.
  intros [Hs HU] Hr Hx Hn Hl. destruct (HU x Hx) as (? & ? & ?). split_and!; try done.
  destruct Hs as [Hq Hs]. rewrite Forall_forall in Hq. destruct Hr as (_ & _ & _ & Hsl & _). split.
  - rewrite Forall_forall. intros y [->|Hy]%elem_of_cons.
    + specialize (Hq x Hx). lia.
    + eapply spaced_elem; [exact Hs|done|set_solver|]. by intros ->.
  - done.
Qed.

Lemma dq_step m q U op l r l' :
  dq_repr m q l → pool m q U → l ⊆ U → lstep U op l r l' → dq_op op →
  returns (dq_run q op) m (λ r' m', r' = r ∧ dq_repr m' q l' ∧ touches (q :: U) m m').
Proof.
  intros Hr HU Hl Hst Hop.
  assert (Hpost : ∀ F l', F ⊆ U → ∀ m', dq_post q F l' m m' →
    dq_repr m' q l' ∧ touches (q :: U) m m').
  { intros F k HF m' [H1 H2]. split; [done|]. eapply touches_mono; [|exact H2]. set_solver. }
  destruct Hst; simpl; try done;
    try lazymatch goal with |- returns (mbind _ _) _ _ => apply returns_bind end;
    try (eapply returns_mono;
      [first [ apply dq_addfirst_spec; [done|by eapply pool_fresh]
             | apply dq_addlast_spec; [done|by eapply pool_fresh]
             | apply dq_addafter_spec; [done|by eapply pool_fresh]
             | apply dq_addbefore_spec; [done|by eapply pool_fresh] ]
      |simpl; intros _ m' Hp; apply returns_ret; split; [done|]; eapply Hpost, Hp; set_solver]).
  - eapply returns_mono; [by apply dq_rem_spec|]. simpl. intros _ m' [Hp _].
    apply returns_ret. split; [done|]. eapply Hpost, Hp. set_solver.
  - eapply returns_mono; [by apply dq_remfirst_spec|]. simpl. intros y m' [-> Hp].
    split; [done|]. eapply Hpost, Hp. set_solver.
  - destruct (dq_rem_empty m q Hr) as [E _]. eapply returns_intro; [exact E|]. done.
  - eapply returns_mono; [by apply dq_remlast_spec|]. simpl. intros y m' [-> Hp].
    split; [done|]. eapply Hpost, Hp. set_solver.
  - destruct (dq_rem_empty m q Hr) as [_ E]. eapply returns_intro; [exact E|]. done.
Qed.

(** C22: the doubly linked queues of libc/queue refine lists: any sequence of
    dq operations on nodes of a pool terminates without fault, returns exactly
    the results of the list operations, leaves the resulting list linked in
    memory, and touches only the queue header and pool nodes. *)
Theorem dq_refines_lists m q U ops l rs l' :
  dq_repr m q l → pool m q U → l ⊆ U → lsteps U ops l rs l' → Forall dq_op ops →
  returns (runs (dq_run q) ops) m (λ rs' m',
    rs' = rs ∧ dq_repr m' q l' ∧ touches (q :: U) m m').
Proof.
  intros Hr HU Hl Hst. revert m Hr HU Hl. induction Hst as [|op ops l r l1 rs l2 H1 _ IH];
    intros m Hr HU Hl Hop; simpl.
  { apply returns_ret. split_and!; [done|done|apply touches_refl]. }
  apply Forall_cons in Hop as [Hop Hops]. apply returns_bind.
  eapply returns_mono; [by eapply dq_step|]. simpl. intros r1 m1 (-> & Hr1 & Ht1).
  apply returns_bind. eapply returns_mono; [apply (IH m1); try done|].
  - destruct HU as [HU1 HU2]. split; [done|]. intros x Hx. rewrite <-!(touches_mapped _ _ _ _ Ht1). auto.
  - by eapply lstep_sub.
  - simpl. intros rs2 m2 (-> & Hr2 & Ht2). apply returns_ret. split_and!; [done|done|].
    by eapply touches_trans.
Qed.

Lemma pool_fresh_sq m q U x l :
  pool m q U → sq_repr m q l → x ∈ U → x ∉ l → sq_fresh m q x l.
Proof.
  intros [Hs HU] Hr Hx Hn. destruct (HU x Hx) as (? & ? & _). split_and!; try done.
  destruct Hs as [Hq _]. rewrite Forall_forall in Hq. specialize (Hq x Hx).
  constructor; [|apply Hr]. rewrite !elem_of_cons. intros [?|[?|?]]; [lia..|done].
Qed.

Lemma sq_remafter_last m q l1 p : sq_repr m q (l1 ++ [p]) → sq_remafter p q m = Done (NULL, m).
Proof.
  intros Hr. pose proof (sq_node _ _ _ Hr) as (H1 & _). rewrite hd_or_nil in H1.
  destruct Hr as (Hq & _). unfold sq_remafter, load, FLINK, HEAD, mbind, M_bind. rewrite !Z.add_0_r, H1, Hq.
  unfold nonnull. rewrite andb_false_r. done.
Qed.

Lemma sq_step m q U op l r l' :
  sq_repr m q l → pool m q U → l ⊆ U → lstep U op l r l' → sq_op op →
  returns (sq_run q op) m (λ r' m', r' = r ∧ sq_repr m' q l' ∧ touches (q :: U) m m').
Proof.
  intros Hr HU Hl Hst Hop.
  assert (Hpost : ∀ F l', F ⊆ U → ∀ m', sq_post q F l' m m' →
    sq_repr m' q l' ∧ touches (q :: U) m m').
  { intros F k HF m' [H1 [D H2]]. split; [done|]. split; [done|]. intros a Ha. apply H2.
    rewrite Forall_forall in Ha. rewrite !elem_of_cons. intros [->|[->|Hin]].
    - destruct (Ha q ltac:(set_solver)). done.
    - destruct (Ha q ltac:(set_solver)). done.
    - destruct (Ha a ltac:(set_solver)). done. }
  destruct Hst; simpl; try done;
    try lazymatch goal with |- returns (mbind _ _) _ _ => apply returns_bind end;
    try (eapply returns_mono;
      [first [ apply sq_addfirst_spec; [done|by eapply pool_fresh_sq]
             | apply sq_addlast_spec; [done|by eapply pool_fresh_sq]
             | apply sq_addafter_spec; [done|by eapply pool_fresh_sq]
             | by apply sq_rem_spec ]
      |simpl; intros _ m' Hp; apply returns_ret; split; [done|]; eapply Hpost, Hp; set_solver]).
  - eapply returns_mono; [by apply sq_remfirst_spec|]. simpl. intros y m' (-> & Hp & _).
    split; [done|]. eapply Hpost, Hp. set_solver.
  - eapply returns_intro; [by apply sq_remfirst_empty|]. done.
  - eapply returns_mono; [by apply sq_remlast_spec|]. simpl. intros y m' [-> Hp].
    split; [done|]. eapply Hpost, Hp. set_solver.
  - destruct Hr as (Hq & Ht & Hr). eapply (returns_intro _ _ NULL m); [|done].
    unfold sq_remlast, load, TAIL, mbind, M_bind. by rewrite Ht.
  - eapply returns_mono; [by apply sq_remafter_spec|]. simpl. intros y m' (-> & Hp & _).
    split; [done|]. eapply Hpost, Hp. set_solver.
  - eapply returns_intro; [by eapply sq_remafter_last|]. done.
Qed.

(** C23: the singly linked queues of libc/queue refine lists in the same way,
    including removal behind a node and the searches of sq_rem and sq_remlast,
    which terminate. *)
Theorem sq_refines_lists m q U ops l rs l' :
  sq_repr m q l → pool m q U → l ⊆ U → lsteps U ops l rs l' → Forall sq_op ops →
  returns (runs (sq_run q) ops) m (λ rs' m',
    rs' = rs ∧ sq_repr m' q l' ∧ touches (q :: U) m m').
Proof.
  intros Hr HU Hl Hst. revert m Hr HU Hl. induction Hst as [|op ops l r l1 rs l2 H1 _ IH];
    intros m Hr HU Hl Hop; simpl.
  { apply returns_ret. split_and!; [done|done|apply touches_refl]. }
  apply Forall_cons in Hop as [Hop Hops]. apply returns_bind.
  eapply returns_mono; [by eapply sq_step|]. simpl. intros r1 m1 (-> & Hr1 & Ht1).
  apply returns_bind. eapply returns_mono; [apply (IH m1); try done|].
  - destruct HU as [HU1 HU2]. split; [done|]. intros x Hx. rewrite <-!(touches_mapped _ _ _ _ Ht1). auto.
  - by eapply lstep_sub.
  - simpl. intros rs2 m2 (-> & Hr2 & Ht2). apply returns_ret. split_and!; [done|done|].
    by eapply touches_trans.
Qed.

(** ** Witnesses: three nodes, a queue header and some operations *)
Definition demo_mem : mem :=
  list_to_map [(96, 0); (100, 0); (8, 0); (12, 0); (16, 0); (20, 0); (24, 0); (28, 0)].

Lemma demo_pool : pool demo_mem 96 [8; 16; 24].
Proof.
  split; [repeat constructor; lia|]. intros x Hx.
  rewrite !elem_of_cons, elem_of_nil in Hx. destruct_or? Hx; try done; subst x; (split_and!; [done|by eexists..]).
Qed.

Lemma dq_refines_lists_witness :
  returns (runs (dq_run 96) [AddLast 8; AddFirst 16; AddAfter 16 24; Rem 16; RemLast]) demo_mem (λ rs' m',
    rs' = [0; 0; 0; 0; 8] ∧ dq_repr m' 96 [24] ∧ touches [96; 8; 16; 24] demo_mem m').
Proof.
  apply (dq_refines_lists demo_mem 96 [8; 16; 24] _ []); [..|by repeat constructor].
  - split_and!; done.
  - apply demo_pool.
  - set_solver.
  - eapply lsteps_cons; [apply LAddLast; set_solver|].
    eapply lsteps_cons; [apply LAddFirst; set_solver|].
    eapply lsteps_cons; [apply (LAddAfter _ 16 24 []); set_solver|].
    eapply lsteps_cons; [apply (LRem _ 16 [])|].
    eapply lsteps_cons; [apply (LRemLast _ 8 [24])|]. apply lsteps_nil.
Defined.

Lemma sq_refines_lists_witness :
  returns (runs (sq_run 96) [AddLast 8; AddLast 16; AddFirst 24; RemAfter 8; Rem 8; RemLast]) demo_mem
    (λ rs' m', rs' = [0; 0; 0; 16; 0; 24] ∧ sq_repr m' 96 [] ∧ touches [96; 8; 16; 24] demo_mem m').
Proof.
  apply (sq_refines_lists demo_mem 96 [8; 16; 24] _ []); [..|by repeat constructor].
  - split_and!; try done. repeat constructor; set_solver.
  - apply demo_pool.
  - set_solver.
  - eapply lsteps_cons; [apply LAddLast; set_solver|].
    eapply lsteps_cons; [apply (LAddLast _ 16 [8]); set_solver|].
    eapply lsteps_cons; [apply LAddFirst; set_solver|].
    eapply lsteps_cons; [apply (LRemAfter _ 8 16 [24] [])|].
    eapply lsteps_cons; [apply (LRem _ 8 [24] [])|].
    eapply lsteps_cons; [apply (LRemLast _ 24 [])|]. apply lsteps_nil.
Defined.
