(* ===== verification/MmHeap.v ===== *)
(** The memory manager, mm/mm_heap: the code.

    The heap is word memory.  A chunk starts with the header of mm_allocnode_s
    (size, preceding); a free chunk continues with the links of mm_freenode_s
    (flink, blink).  [mm_nodelist] is the array of list hooks at address
    [nodelist].  The configuration is the product's: 32-bit pointers,
    CONFIG_MM_SMALL unset, CONFIG_MM_REGIONS = 1, CONFIG_DEBUG set. *)

From S2P Require Import Prelude.

(** * Constants of include/nuttx/mm/mm.h *)
Definition MM_MIN_SHIFT : Z := 4.
Definition MM_MAX_SHIFT : Z := 22.
Definition MM_MIN_CHUNK : Z := 16.
Definition MM_MAX_CHUNK : Z := 4194304.
Definition MM_NNODES : Z := 19.
Definition MM_ALLOC_BIT : Z := 0x80000000.
Definition SIZEOF_MM_ALLOCNODE : Z := 8.
Definition SIZEOF_MM_FREENODE : Z := 16.
Definition MIN_EXTEND : Z := 16.

(** MM_ALIGN_UP and MM_ALIGN_DOWN on 32-bit unsigned values. *)
Definition MM_ALIGN_UP (a : Z) : Z := Z.land (u32 (a + 15)) 0xFFFFFFF0.
Definition MM_ALIGN_DOWN (a : Z) : Z := Z.land (u32 a) 0xFFFFFFF0.

(** Field offsets of mm_allocnode_s and mm_freenode_s. *)
Definition SIZE : Z := 0.
Definition PRECEDING : Z := 4.
Definition MFLINK : Z := 8.
Definition MBLINK : Z := 12.

Definition is_alloc (preceding : Z) : bool := negb (Z.land preceding MM_ALLOC_BIT =? 0).

(** * mm_size2ndx.c *)
Fixpoint mm_size2ndx_loop (fuel : nat) (ndx size : Z) : Z :=
  match fuel with
  | O => ndx
  | S n => if 1 <? size then mm_size2ndx_loop n (ndx + 1) (Z.shiftr size 1) else ndx
  end.

Definition mm_size2ndx (size : Z) : Z :=
  if MM_MAX_CHUNK <=? size then MM_NNODES - 1
  else mm_size2ndx_loop 32 0 (Z.shiftr size MM_MIN_SHIFT).

Section MmHeap.
(** &heap->mm_nodelist[0], and the task that runs the memory manager. *)
Variable nodelist : Z.
Variable my_pid : Z.

Definition mm_nodelist (ndx : Z) : Z := nodelist + 16 * ndx.

(** * mm_addfreechunk.c *)
Definition mm_addfreechunk_body (size : Z) (pn : Z * Z) : M mem (Z * Z + Z * Z) :=
  let '(prev, next) := pn in
  if nonnull next then
    nsize ← load (next + SIZE);
    if nonnull nsize && (nsize <? size) then
      next' ← load (next + MFLINK);
      mret (inl (next, next'))
    else mret (inr (prev, next))
  else mret (inr (prev, next)).

Definition mm_addfreechunk (node : Z) : M mem unit :=
  size ← load (node + SIZE);
  let ndx := mm_size2ndx size in
  next ← load (mm_nodelist ndx + MFLINK);
  fuel ← gets base.size;
  pn ← loop (S fuel) (mm_addfreechunk_body size) (mm_nodelist ndx, next);
  let '(prev, next) := pn : Z * Z in
  store (prev + MFLINK) node;;
  store (node + MBLINK) prev;;
  store (node + MFLINK) next;;
  if nonnull next then store (next + MBLINK) node else mret tt.

(** The removal of a free node from the node list, written out at each of
    its places in the C code. *)
Definition mm_unlink (node : Z) : M mem unit :=
  blink ← load (node + MBLINK);
  assert (nonnull blink);;
  flink ← load (node + MFLINK);
  store (blink + MFLINK) flink;;
  flink ← load (node + MFLINK);
  if nonnull flink then
    blink ← load (node + MBLINK);
    store (flink + MBLINK) blink
  else mret tt.

(** [node->preceding = size | (node->preceding & MM_ALLOC_BIT)] *)
Definition mm_setpreceding (node size : Z) : M mem unit :=
  preceding ← load (node + PRECEDING);
  store (node + PRECEDING) (Z.lor size (Z.land preceding MM_ALLOC_BIT)).

(** * mm_shrinkchunk.c *)
Definition mm_shrinkchunk (node size : Z) : M mem unit :=
  nsize ← load (node + SIZE);
  let next := node + nsize in
  preceding ← load (next + PRECEDING);
  if negb (is_alloc preceding) then
    nextsize ← load (next + SIZE);
    let andbeyond := next + nextsize in
    mm_unlink next;;
    let newnode := node + size in
    nextsize ← load (next + SIZE);
    nsize ← load (node + SIZE);
    store (newnode + SIZE) (u32 (nextsize + nsize - size));;
    store (newnode + PRECEDING) size;;
    store (node + SIZE) size;;
    newsize ← load (newnode + SIZE);
    mm_setpreceding andbeyond newsize;;
    mm_addfreechunk newnode
  else if u32 (size + SIZEOF_MM_FREENODE) <=? nsize then
    let newnode := node + size in
    nsize ← load (node + SIZE);
    store (newnode + SIZE) (u32 (nsize - size));;
    store (newnode + PRECEDING) size;;
    store (node + SIZE) size;;
    newsize ← load (newnode + SIZE);
    store (next + PRECEDING) (Z.lor newsize MM_ALLOC_BIT);;
    mm_addfreechunk newnode
  else mret tt.

(** * mm_free.c, between taking and giving the semaphore *)

(** Merging with a free successor; the result is the next node in memory. *)
Definition mm_free_next (node : Z) : M mem Z :=
  nsize ← load (node + SIZE);
  let next := node + nsize in
  npreceding ← load (next + PRECEDING);
  if negb (is_alloc npreceding) then
    nextsize ← load (next + SIZE);
    let andbeyond := next + nextsize in
    mm_unlink next;;
    nsize ← load (node + SIZE);
    nextsize ← load (next + SIZE);
    store (node + SIZE) (u32 (nsize + nextsize));;
    nsize ← load (node + SIZE);
    mm_setpreceding andbeyond nsize;;
    mret andbeyond
  else mret next.

(** Merging with a free predecessor; the result is the node to put on the
    list. *)
Definition mm_free_prev (node next : Z) : M mem Z :=
  preceding ← load (node + PRECEDING);
  let prev := node - preceding in
  ppreceding ← load (prev + PRECEDING);
  if negb (is_alloc ppreceding) then
    mm_unlink prev;;
    psize ← load (prev + SIZE);
    nsize ← load (node + SIZE);
    store (prev + SIZE) (u32 (psize + nsize));;
    psize ← load (prev + SIZE);
    mm_setpreceding next psize;;
    mret prev
  else mret node.

Definition mm_free_chunk (mem : Z) : M _ unit :=
  let node := mem - SIZEOF_MM_ALLOCNODE in
  preceding ← load (node + PRECEDING);
  store (node + PRECEDING) (Z.land preceding 0x7FFFFFFF);;
  next ← mm_free_next node;
  node ← mm_free_prev node next;
  mm_addfreechunk node.

(** * mm_malloc.c, between taking and giving the semaphore *)
Definition mm_malloc_search_body (size : Z) (node : Z) : M mem (Z + Z) :=
  if nonnull node then
    nsize ← load (node + SIZE);
    if nsize <? size then
      next ← load (node + MFLINK);
      mret (inl next)
    else mret (inr node)
  else mret (inr node).

Definition mm_malloc_search (size : Z) : M mem Z :=
  let ndx := if MM_MAX_CHUNK <=? size then MM_NNODES - 1 else mm_size2ndx size in
  node ← load (mm_nodelist ndx + MFLINK);
  fuel ← gets base.size;
  loop (S fuel) (mm_malloc_search_body size) node.

Definition mm_malloc_chunk (size : Z) : M mem Z :=
  node ← mm_malloc_search size;
  if nonnull node then
    mm_unlink node;;
    nsize ← load (node + SIZE);
    let remaining := u32 (nsize - size) in
    (if SIZEOF_MM_FREENODE <=? remaining then
       nsize ← load (node + SIZE);
       let next := node + nsize in
       let remainder := node + size in
       store (remainder + SIZE) remaining;;
       store (remainder + PRECEDING) size;;
       store (node + SIZE) size;;
       mm_setpreceding next remaining;;
       mm_addfreechunk remainder
     else mret tt);;
    preceding ← load (node + PRECEDING);
    store (node + PRECEDING) (Z.lor preceding MM_ALLOC_BIT);;
    mret (node + SIZEOF_MM_ALLOCNODE)
  else mret NULL.
End MmHeap.
