(* ===== verification/MmApi.v ===== *)
(** The memory manager, mm/mm_heap: the calls the rest of the system makes.

    [heap] is struct mm_heap_s of the product configuration (one region);
    the words of the heap and of [mm_nodelist] are in [h_mem].  The semaphore
    is its count: a wait on a count that is not positive suspends the caller
    ([Blocked]).  mm_sbrk.c is compiled only for CONFIG_BUILD_KERNEL and is
    not modelled. *)

From S2P Require Import Prelude MmHeap.

Record heap := Heap {
  h_mem : mem;
  mm_semaphore : Z;
  mm_holder : Z;
  mm_counts_held : Z;
  mm_heapsize : Z;
  mm_heapstart : Z;
  mm_heapend : Z;
}.

Definition set_mem (m : mem) (h : heap) : heap :=
  Heap m (mm_semaphore h) (mm_holder h) (mm_counts_held h) (mm_heapsize h) (mm_heapstart h) (mm_heapend h).
Definition set_lock (sem holder counts : Z) (h : heap) : heap :=
  Heap (h_mem h) sem holder counts (mm_heapsize h) (mm_heapstart h) (mm_heapend h).
Definition set_heapsize (size : Z) (h : heap) : heap :=
  Heap (h_mem h) (mm_semaphore h) (mm_holder h) (mm_counts_held h) size (mm_heapstart h) (mm_heapend h).
Definition set_heapstart (start : Z) (h : heap) : heap :=
  Heap (h_mem h) (mm_semaphore h) (mm_holder h) (mm_counts_held h) (mm_heapsize h) start (mm_heapend h).
Definition set_heapend (hend : Z) (h : heap) : heap :=
  Heap (h_mem h) (mm_semaphore h) (mm_holder h) (mm_counts_held h) (mm_heapsize h) (mm_heapstart h) hend.

(** Running code that only works on memory. *)
Definition onmem {A} (e : M mem A) : M heap A := zoom h_mem set_mem e.

(** memset with value zero, and memcpy of whole words from low to high
    addresses, on little-endian words. *)
Fixpoint memset_words (n : nat) (a : Z) : M mem unit :=
  match n with
  | O => mret tt
  | S n => store a 0;; memset_words n (a + 4)
  end.

Definition memset0 (a n : Z) : M mem unit :=
  memset_words (Z.to_nat (n / 4)) a;;
  if n `mod` 4 =? 0 then mret tt
  else
    v ← load (a + 4 * (n / 4));
    store (a + 4 * (n / 4)) (Z.shiftl (Z.shiftr v (8 * (n `mod` 4))) (8 * (n `mod` 4))).

Fixpoint memcpy_words (n : nat) (dest src : Z) : M mem unit :=
  match n with
  | O => mret tt
  | S n => v ← load src; store dest v;; memcpy_words n (dest + 4) (src + 4)
  end.

Definition memcpy (dest src n : Z) : M mem unit := memcpy_words (Z.to_nat (n / 4)) dest src.

Section MmApi.
Variable nodelist : Z.
Variable my_pid : Z.

(** * mm_sem.c *)
Definition mm_seminitialize : M heap unit := modify (set_lock 1 (-1) 0).

Definition mm_trysemaphore : M heap Z :=
  h ← gets id;
  if mm_holder h =? my_pid then
    modify (set_lock (mm_semaphore h) (mm_holder h) (mm_counts_held h + 1));;
    mret 0
  else if mm_semaphore h <=? 0 then mret (-1)
  else
    modify (set_lock (mm_semaphore h - 1) my_pid 1);;
    mret 0.

Definition mm_takesemaphore : M heap unit :=
  h ← gets id;
  if mm_holder h =? my_pid then
    modify (set_lock (mm_semaphore h) (mm_holder h) (mm_counts_held h + 1))
  else if mm_semaphore h <=? 0 then block
  else modify (set_lock (mm_semaphore h - 1) my_pid 1).

Definition mm_givesemaphore : M heap unit :=
  h ← gets id;
  assert (mm_holder h =? my_pid);;
  if 1 <? mm_counts_held h then
    modify (set_lock (mm_semaphore h) (mm_holder h) (mm_counts_held h - 1))
  else modify (set_lock (mm_semaphore h + 1) (-1) 0).

(** * mm_malloc.c, mm_free.c, mm_zalloc.c, mm_calloc.c *)
Definition mm_malloc (size : Z) : M heap Z :=
  if size <? 1 then mret NULL
  else
    let size := MM_ALIGN_UP (u32 (size + SIZEOF_MM_ALLOCNODE)) in
    mm_takesemaphore;;
    ret ← onmem (mm_malloc_chunk nodelist size);
    mm_givesemaphore;;
    mret ret.

Definition mm_free (mem : Z) : M heap unit :=
  if negb (nonnull mem) then mret tt
  else
    mm_takesemaphore;;
    onmem (mm_free_chunk nodelist mem);;
    mm_givesemaphore.

Definition mm_zalloc (size : Z) : M heap Z :=
  alloc ← mm_malloc size;
  (if nonnull alloc then onmem (memset0 alloc size) else mret tt);;
  mret alloc.

Definition mm_calloc (n elem_size : Z) : M heap Z :=
  if (0 <? n) && (0 <? elem_size) then mm_zalloc (u32 (n * elem_size)) else mret NULL.

(** * mm_initialize.c *)
Definition mm_addregion (heapstart heapsize : Z) : M heap unit :=
  let heapbase := MM_ALIGN_UP heapstart in
  let heapend := MM_ALIGN_DOWN (u32 (heapstart + heapsize)) in
  let heapsize := u32 (heapend - heapbase) in
  h ← gets id;
  modify (set_heapsize (u32 (mm_heapsize h + heapsize)));;
  modify (set_heapstart heapbase);;
  onmem (store (heapbase + SIZE) SIZEOF_MM_ALLOCNODE);;
  onmem (store (heapbase + PRECEDING) MM_ALLOC_BIT);;
  let node := heapbase + SIZEOF_MM_ALLOCNODE in
  onmem (store (node + SIZE) (u32 (heapsize - 2 * SIZEOF_MM_ALLOCNODE)));;
  onmem (store (node + PRECEDING) SIZEOF_MM_ALLOCNODE);;
  let hend := heapend - SIZEOF_MM_ALLOCNODE in
  modify (set_heapend hend);;
  onmem (store (hend + SIZE) SIZEOF_MM_ALLOCNODE);;
  nsize ← onmem (load (node + SIZE));
  onmem (store (hend + PRECEDING) (Z.lor nsize MM_ALLOC_BIT));;
  onmem (mm_addfreechunk nodelist node).

(** The loop that chains the list hooks, from [i] on for [n] rounds. *)
Fixpoint mm_initialize_hooks (n : nat) (i : Z) : M mem unit :=
  match n with
  | O => mret tt
  | S n =>
      store (mm_nodelist nodelist (i - 1) + MFLINK) (mm_nodelist nodelist i);;
      store (mm_nodelist nodelist i + MBLINK) (mm_nodelist nodelist (i - 1));;
      mm_initialize_hooks n (i + 1)
  end.

Definition mm_initialize (heapstart heapsize : Z) : M heap unit :=
  modify (set_heapsize 0);;
  onmem (memset0 nodelist (SIZEOF_MM_FREENODE * MM_NNODES));;
  onmem (mm_initialize_hooks (Z.to_nat (MM_NNODES - 1)) 1);;
  mm_seminitialize;;
  mm_addregion heapstart heapsize.

(** * mm_extend.c, mm_brkaddr.c *)
Definition mm_extend (mem size region : Z) : M heap unit :=
  assert (nonnull mem);;
  assert ((MIN_EXTEND <=? size) && (region =? 0));;
  let blockstart := mem in
  let blockend := u32 (blockstart + size) in
  assert (MM_ALIGN_UP blockstart =? blockstart);;
  assert (MM_ALIGN_DOWN blockend =? blockend);;
  mm_takesemaphore;;
  oldnode ← gets mm_heapend;
  assert (oldnode + SIZEOF_MM_ALLOCNODE =? mem);;
  onmem (store (oldnode + SIZE) size);;
  preceding ← onmem (load (oldnode + PRECEDING));
  assert (is_alloc preceding);;
  let newnode := blockend - SIZEOF_MM_ALLOCNODE in
  onmem (store (newnode + SIZE) SIZEOF_MM_ALLOCNODE);;
  osize ← onmem (load (oldnode + SIZE));
  onmem (store (newnode + PRECEDING) (Z.lor osize MM_ALLOC_BIT));;
  modify (set_heapend newnode);;
  mm_givesemaphore;;
  mm_free mem.

Definition mm_brkaddr (region : Z) : M heap Z :=
  assert (region =? 0);;
  brkaddr ← gets mm_heapend;
  mret (if nonnull brkaddr then brkaddr + SIZEOF_MM_ALLOCNODE else 0).

(** * mm_mallinfo.c *)
Record mallinfo := Mallinfo {
  arena : Z; ordblks : Z; mxordblk : Z; uordblks : Z; fordblks : Z;
}.

Definition mm_mallinfo_body (heapend : Z) (st : Z * mallinfo) : M mem (Z * mallinfo + Z * mallinfo) :=
  let '(node, i) := st in
  if node <? heapend then
    preceding ← load (node + PRECEDING);
    size ← load (node + SIZE);
    let i' :=
      if is_alloc preceding then
        Mallinfo (arena i) (ordblks i) (mxordblk i) (u32 (uordblks i + size)) (fordblks i)
      else
        Mallinfo (arena i) (ordblks i + 1) (if mxordblk i <? size then size else mxordblk i)
          (uordblks i) (u32 (fordblks i + size)) in
    mret (inl (node + size, i'))
  else mret (inr st).

Definition mm_mallinfo : M heap mallinfo :=
  mm_takesemaphore;;
  heapstart ← gets mm_heapstart;
  heapend ← gets mm_heapend;
  fuel ← gets (λ h, base.size (h_mem h));
  st ← onmem (loop (S fuel) (mm_mallinfo_body heapend) (heapstart, Mallinfo 0 0 0 0 0));
  mm_givesemaphore;;
  let '(node, i) := st : Z * mallinfo in
  assert (node =? heapend);;
  let uordblks' := u32 (uordblks i + SIZEOF_MM_ALLOCNODE) in
  size ← gets mm_heapsize;
  assert (u32 (uordblks' + fordblks i) =? size);;
  mret (Mallinfo size (ordblks i) (mxordblk i) uordblks' (fordblks i)).

(** * mm_memalign.c *)

(** The leading part of the chunk is freed; the result is the aligned
    address, the node that holds it and the new [allocsize]. *)
Definition mm_memalign_lead (alignment rawchunk alignedchunk node : Z) : M mem (Z * Z * Z) :=
  nsize ← load (node + SIZE);
  let next := node + nsize in
  assert (rawchunk + 8 <=? alignedchunk);;
  let newnode := alignedchunk - SIZEOF_MM_ALLOCNODE in
  let precedingsize := newnode - node in
  let '(alignedchunk, newnode, precedingsize) :=
    if precedingsize <? SIZEOF_MM_FREENODE then
      let alignedchunk := u32 (alignedchunk + alignment) in
      let newnode := alignedchunk - SIZEOF_MM_ALLOCNODE in
      (alignedchunk, newnode, newnode - node)
    else (alignedchunk, newnode, precedingsize) in
  store (newnode + SIZE) (u32 (next - newnode));;
  store (newnode + PRECEDING) (Z.lor precedingsize MM_ALLOC_BIT);;
  store (node + SIZE) precedingsize;;
  preceding ← load (node + PRECEDING);
  store (node + PRECEDING) (Z.land preceding 0x7FFFFFFF);;
  newsize ← load (newnode + SIZE);
  mm_setpreceding next newsize;;
  newsize ← load (newnode + SIZE);
  mm_addfreechunk nodelist node;;
  mret (alignedchunk, newnode, u32 (newsize - SIZEOF_MM_ALLOCNODE)).

Definition mm_memalign (alignment size : Z) : M heap Z :=
  let mask := u32 (alignment - 1) in
  if alignment <=? MM_MIN_CHUNK then mm_malloc size
  else
    let size := MM_ALIGN_UP size in
    let allocsize := u32 (size + 2 * alignment) in
    rawchunk ← mm_malloc allocsize;
    if rawchunk =? 0 then mret NULL
    else
      mm_takesemaphore;;
      let node := rawchunk - SIZEOF_MM_ALLOCNODE in
      let alignedchunk := Z.land (u32 (rawchunk + mask)) (u32 (Z.lnot mask)) in
      r ←
        (if negb (alignedchunk =? rawchunk)
         then onmem (mm_memalign_lead alignment rawchunk alignedchunk node)
         else mret (alignedchunk, node, allocsize));
      let '(alignedchunk, node, allocsize) := r : Z * Z * Z in
      (if size <? allocsize
       then onmem (mm_shrinkchunk nodelist node (u32 (size + SIZEOF_MM_ALLOCNODE)))
       else mret tt);;
      mm_givesemaphore;;
      mret alignedchunk.

(** * mm_realloc.c *)

(** How much to take from the free chunks before and after the block. *)
Definition mm_realloc_plan (needed prevsize nextsize : Z) : Z * Z :=
  let '(needed, takeprev, takenext) :=
    if (0 <? prevsize) && ((prevsize <=? nextsize) || (nextsize <? 1)) then
      if prevsize <? needed then (0, prevsize, u32 (needed - prevsize)) else (0, needed, 0)
    else (needed, 0, 0) in
  if (0 <? nextsize) && nonnull needed then
    if nextsize <? needed then (u32 (needed - nextsize), nextsize) else (0, needed)
  else (takeprev, takenext).

(** Extending into the previous free chunk; the result is the new block, its
    node and the node's size. *)
Definition mm_realloc_takeprev (oldmem oldnode prev next oldsize prevsize takeprev : Z) :
    M mem (Z * Z * Z) :=
  mm_unlink prev;;
  let newnode := oldnode - takeprev in
  (if takeprev <? prevsize then
     psize ← load (prev + SIZE);
     store (prev + SIZE) (u32 (psize - takeprev));;
     store (newnode + SIZE) (u32 (oldsize + takeprev));;
     psize ← load (prev + SIZE);
     store (newnode + PRECEDING) (Z.lor psize MM_ALLOC_BIT);;
     nsize ← load (newnode + SIZE);
     mm_setpreceding next nsize;;
     mm_addfreechunk nodelist prev
   else
     nsize ← load (newnode + SIZE);
     store (newnode + SIZE) (u32 (nsize + oldsize));;
     preceding ← load (newnode + PRECEDING);
     store (newnode + PRECEDING) (Z.lor preceding MM_ALLOC_BIT);;
     nsize ← load (newnode + SIZE);
     mm_setpreceding next nsize);;
  oldsize ← load (newnode + SIZE);
  let newmem := newnode + SIZEOF_MM_ALLOCNODE in
  memcpy newmem oldmem (u32 (oldsize - SIZEOF_MM_ALLOCNODE));;
  mret (newmem, newnode, oldsize).

(** Extending into the next free chunk. *)
Definition mm_realloc_takenext (oldnode next oldsize nextsize takenext : Z) : M mem unit :=
  let andbeyond := next + nextsize in
  mm_unlink next;;
  store (oldnode + SIZE) (u32 (oldsize + takenext));;
  osize ← load (oldnode + SIZE);
  let newnode := oldnode + osize in
  if takenext <? nextsize then
    store (newnode + SIZE) (u32 (nextsize - takenext));;
    store (newnode + PRECEDING) osize;;
    newsize ← load (newnode + SIZE);
    mm_setpreceding andbeyond newsize;;
    mm_addfreechunk nodelist newnode
  else mm_setpreceding andbeyond osize.

(** The block cannot grow in place: allocate, copy and free. *)
Definition mm_realloc_move (oldmem size oldsize : Z) : M heap Z :=
  mm_givesemaphore;;
  newmem ← mm_malloc size;
  (if nonnull newmem then
     onmem (memcpy newmem oldmem oldsize);;
     mm_free oldmem
   else mret tt);;
  mret newmem.

Definition mm_realloc (oldmem size : Z) : M heap Z :=
  if negb (nonnull oldmem) then mm_malloc size
  else if size <? 1 then mm_free oldmem;; mret NULL
  else
    let size := MM_ALIGN_UP (u32 (size + SIZEOF_MM_ALLOCNODE)) in
    let oldnode := oldmem - SIZEOF_MM_ALLOCNODE in
    mm_takesemaphore;;
    oldsize ← onmem (load (oldnode + SIZE));
    if size <=? oldsize then
      (if size <? oldsize then onmem (mm_shrinkchunk nodelist oldnode size) else mret tt);;
      mm_givesemaphore;;
      mret oldmem
    else
      let next := oldnode + oldsize in
      npreceding ← onmem (load (next + PRECEDING));
      nextsize ← (if negb (is_alloc npreceding) then onmem (load (next + SIZE)) else mret 0);
      preceding ← onmem (load (oldnode + PRECEDING));
      let prev := oldnode - Z.land preceding 0x7FFFFFFF in
      ppreceding ← onmem (load (prev + PRECEDING));
      prevsize ← (if negb (is_alloc ppreceding) then onmem (load (prev + SIZE)) else mret 0);
      if size <=? u32 (nextsize + prevsize + oldsize) then
        let '(takeprev, takenext) := mm_realloc_plan (u32 (size - oldsize)) prevsize nextsize in
        r ←
          (if nonnull takeprev
           then onmem (mm_realloc_takeprev oldmem oldnode prev next oldsize prevsize takeprev)
           else mret (oldmem, oldnode, oldsize));
        let '(newmem, oldnode, oldsize) := r : Z * Z * Z in
        (if nonnull takenext
         then onmem (mm_realloc_takenext oldnode next oldsize nextsize takenext)
         else mret tt);;
        mm_givesemaphore;;
        mret newmem
      else mm_realloc_move oldmem size oldsize.
End MmApi.
