(* ===== verification/MmInv.v ===== *)
(** The heap invariant of mm/mm_heap and the steps that keep it.

    A heap is described by the list of its chunks in address order and by the
    node list in link order.  [heap_inv] ties both to memory.  A chunk is
    allocated, free (marked free and on the node list) or in limbo (marked
    free but off the list), the state a chunk passes through while the code
    works on it; every C routine is a composition of the steps proved here:
    taking a node off the list, putting one on, and rewriting headers. *)

From stdpp Require Import sorting.
From S2P Require Import Prelude Links MmHeap.

Inductive cstat := Alloc | Free | Limbo.
#[global] Instance cstat_eq_dec : EqDecision cstat.
Proof. solve_decision. Defined.

Record chunk := Chunk { c_addr : Z; c_size : Z; c_st : cstat }.
#[global] Instance chunk_eq_dec : EqDecision chunk.
Proof. solve_decision. Defined.

(** The [preceding] word of a chunk whose predecessor has size [p]. *)
Definition prec (p : Z) (st : cstat) : Z :=
  match st with Alloc => Z.lor p MM_ALLOC_BIT | _ => p end.

(** ** The allocation bit *)
Lemma alloc_bit_testbit i : Z.testbit MM_ALLOC_BIT i = bool_decide (i = 31).
Proof.
  change MM_ALLOC_BIT with (2 ^ 31). rewrite Z.pow2_bits_eqb by lia.
  case_bool_decide; lia.
Qed.

Lemma small_testbit p : 0 ≤ p < 2 ^ 31 → Z.testbit p 31 = false.
Proof.
  intros Hp. destruct (decide (p = 0)) as [->|]; [apply Z.bits_0|].
  apply Z.bits_above_log2; [lia|]. apply Z.log2_lt_pow2; lia.
Qed.

Lemma land_alloc_bit p : 0 ≤ p < 2 ^ 31 → Z.land p MM_ALLOC_BIT = 0.
Proof.
  intros Hp. apply Z.bits_inj'. intros i Hi.
  rewrite Z.land_spec, alloc_bit_testbit, Z.bits_0. case_bool_decide as E.
  - rewrite E, small_testbit by done. done.
  - apply andb_false_r.
Qed.

Lemma land_prec p st :
  0 ≤ p < 2 ^ 31 → Z.land (prec p st) MM_ALLOC_BIT = match st with Alloc => MM_ALLOC_BIT | _ => 0 end.
Proof.
  intros Hp. destruct st; simpl; [|by apply land_alloc_bit..].
  apply Z.bits_inj'. intros i Hi.
  rewrite Z.land_spec, Z.lor_spec, alloc_bit_testbit. case_bool_decide; [by rewrite orb_true_r|].
  by rewrite andb_false_r.
Qed.

(** The tests and updates of the code, on the words of the invariant. *)
Lemma is_alloc_prec p st : 0 ≤ p < 2 ^ 31 → is_alloc (prec p st) = bool_decide (st = Alloc).
Proof. intros Hp. unfold is_alloc. rewrite land_prec by done. by destruct st. Qed.

Lemma set_prec p q st :
  0 ≤ p < 2 ^ 31 → Z.lor q (Z.land (prec p st) MM_ALLOC_BIT) = prec q st.
Proof. intros Hp. rewrite land_prec by done. destruct st; simpl; [done|apply Z.lor_0_r..]. Qed.

Lemma clear_prec p st : 0 ≤ p < 2 ^ 31 → Z.land (prec p st) 0x7FFFFFFF = p.
Proof.
  intros Hp. change 0x7FFFFFFF with (Z.ones 31). rewrite Z.land_ones by lia.
  destruct st; simpl; [|by apply Z.mod_small..].
  rewrite <-Z.land_ones by lia. rewrite Z.land_lor_distr_l.
  change (Z.land MM_ALLOC_BIT (Z.ones 31)) with 0.
  rewrite Z.lor_0_r, Z.land_ones by lia. by apply Z.mod_small.
Qed.

(** ** Chunks in address order *)
Fixpoint tile (a : Z) (cs : list chunk) (e : Z) : Prop :=
  match cs with
  | [] => a = e
  | c :: cs' => c_addr c = a ∧ tile (a + c_size c) cs' e
  end.

Definition lastsz (p : Z) (cs : list chunk) : Z := last_or p (c_size <$> cs).

Fixpoint hdrs (m : mem) (p : Z) (cs : list chunk) : Prop :=
  match cs with
  | [] => True
  | c :: cs' =>
      m !! c_addr c = Some (c_size c) ∧ m !! (c_addr c + 4) = Some (prec p (c_st c)) ∧
      hdrs m (c_size c) cs'
  end.

(** Sizes keep 8-byte alignment; a chunk that can carry links has room for
    them. *)
Definition chunk_ok (c : chunk) : Prop :=
  c_size c `mod` 8 = 0 ∧ 8 ≤ c_size c ∧ (c_st c ≠ Alloc → 16 ≤ c_size c).

Lemma tile_app a l1 l2 e : tile a (l1 ++ l2) e ↔ ∃ b, tile a l1 b ∧ tile b l2 e.
Proof.
  revert a. induction l1 as [|c l1 IH]; intros a; simpl.
  - split; [by exists a|]. intros (b & -> & H). done.
  - rewrite IH. naive_solver.
Qed.

Lemma tile_le a cs e : tile a cs e → Forall chunk_ok cs → a ≤ e.
Proof.
  revert a. induction cs as [|c cs IH]; intros a; simpl; [lia|].
  intros [_ Ht] [[_ [Hc _]] Hcs]%Forall_cons. specialize (IH _ Ht Hcs). lia.
Qed.

Lemma tile_elem a cs e c :
  tile a cs e → Forall chunk_ok cs → c ∈ cs → a ≤ c_addr c ∧ c_addr c + c_size c ≤ e.
Proof.
  revert a. induction cs as [|c' cs IH]; intros a; simpl; [set_solver|].
  intros [Ha Ht] [Hc' Hcs]%Forall_cons [->|Hin]%elem_of_cons.
  - apply tile_le in Ht; [lia|done].
  - destruct Hc' as (_ & Hc' & _). specialize (IH _ Ht Hcs Hin). lia.
Qed.

Lemma tile_mod a cs e c :
  tile a cs e → Forall chunk_ok cs → a `mod` 8 = 0 → c ∈ cs → c_addr c `mod` 8 = 0.
Proof.
  revert a. induction cs as [|c' cs IH]; intros a; simpl; [set_solver|].
  intros [Ha Ht] [Hc' Hcs]%Forall_cons Hm [->|Hin]%elem_of_cons; [congruence|].
  destruct Hc' as (Hs & _ & _). eapply IH; [done|done| |done]. auto with align.
Qed.

(** The chunk found by splitting the list, and its two neighbourhoods. *)
Lemma tile_split a l1 c l2 e :
  tile a (l1 ++ c :: l2) e ↔ tile a l1 (c_addr c) ∧ tile (c_addr c + c_size c) l2 e.
Proof.
  rewrite tile_app. simpl. split.
  - intros (b & H1 & <- & H2). done.
  - intros [H1 H2]. by exists (c_addr c).
Qed.

Lemma tile_span a l1 mid l2 e :
  tile a (l1 ++ mid ++ l2) e → ∃ b d, tile a l1 b ∧ tile b mid d ∧ tile d l2 e.
Proof. rewrite tile_app. setoid_rewrite tile_app. naive_solver. Qed.

Lemma tile_fun a cs d d' : tile a cs d → tile a cs d' → d = d'.
Proof.
  revert a. induction cs as [|c cs IH]; intros a; simpl; [congruence|].
  intros [_ H1] [_ H2]. eauto.
Qed.

Lemma lastsz_app p l1 l2 : lastsz p (l1 ++ l2) = lastsz (lastsz p l1) l2.
Proof. unfold lastsz. by rewrite fmap_app, last_or_app. Qed.
Lemma lastsz_cons p c l : lastsz p (c :: l) = lastsz (c_size c) l.
Proof. unfold lastsz. by rewrite fmap_cons, last_or_cons. Qed.
Lemma lastsz_nil p : lastsz p [] = p.
Proof. done. Qed.

Lemma hdrs_app m p l1 l2 : hdrs m p (l1 ++ l2) ↔ hdrs m p l1 ∧ hdrs m (lastsz p l1) l2.
Proof.
  revert p. induction l1 as [|c l1 IH]; intros p; simpl.
  - rewrite lastsz_nil. naive_solver.
  - rewrite IH, lastsz_cons. naive_solver.
Qed.

Lemma hdrs_frame m m' p cs :
  (∀ c, c ∈ cs → m' !! c_addr c = m !! c_addr c ∧ m' !! (c_addr c + 4) = m !! (c_addr c + 4)) →
  hdrs m p cs → hdrs m' p cs.
Proof.
  revert p. induction cs as [|c cs IH]; intros p Hm; simpl; [done|].
  intros (H1 & H2 & H3). destruct (Hm c) as [-> ->]; [set_solver|].
  split_and!; [done..|]. apply IH; [|done]. intros c' Hc'. apply Hm. set_solver.
Qed.

Lemma hdrs_elem m p l1 c l2 :
  hdrs m p (l1 ++ c :: l2) →
  m !! c_addr c = Some (c_size c) ∧ m !! (c_addr c + 4) = Some (prec (lastsz p l1) (c_st c)).
Proof. rewrite hdrs_app. simpl. tauto. Qed.

(** ** The node list *)

Definition entry (c : chunk) : Z * Z := (c_addr c, c_size c).
Definition is_free (c : chunk) : Prop := c_st c = Free.
#[global] Instance is_free_dec c : Decision (is_free c).
Proof. unfold is_free. apply _. Defined.

Lemma nodup_fmap_filter {A B} (f : A → B) (P : A → Prop) `{∀ x, Decision (P x)} (l : list A) :
  NoDup (f <$> l) → NoDup (f <$> filter P l).
Proof.
  induction l as [|x l IH]; simpl; [done|]. intros [Hx Hl]%NoDup_cons.
  rewrite filter_cons. case_decide; [|by apply IH]. simpl. constructor; [|by apply IH].
  rewrite list_elem_of_fmap in *. setoid_rewrite list_elem_of_filter. naive_solver.
Qed.

Section Inv.
(** The list hooks at [nodelist], the heap region [lo, hi). *)
Variables nodelist lo hi : Z.
Implicit Types (m : mem) (cs : list chunk) (es : list (Z * Z)) (e : Z * Z).

Record layout_ok : Prop := {
  lay_nl : 0 < nodelist ∧ nodelist + 304 ≤ 2 ^ 32 ∧ nodelist `mod` 8 = 0;
  lay_region : 0 < lo ∧ lo ≤ hi ∧ hi ≤ 2 ^ 32 ∧ lo `mod` 8 = 0 ∧ hi - lo < 2 ^ 31;
  lay_apart : nodelist + 304 ≤ lo ∨ hi ≤ nodelist;
}.

Definition sentinels : list (Z * Z) :=
  (λ i : nat, (mm_nodelist nodelist (Z.of_nat i), 0)) <$> seq 0 19.

(** The order of the node list: hook [i] comes before the chunks of
    2^(i+4) bytes or more, chunks are ordered by size. *)
Definition ekey e : Z :=
  if e.2 =? 0 then 2 ^ ((e.1 - nodelist) / 16 + 5) else 2 * e.2 + 1.

Lemma ekey_hook i : ekey (mm_nodelist nodelist i, 0) = 2 ^ (i + 5).
Proof.
  unfold ekey, mm_nodelist. simpl. f_equal. f_equal.
  replace (nodelist + 16 * i - nodelist) with (i * 16) by lia. by apply Z.div_mul.
Qed.

Lemma ekey_chunk a s : s ≠ 0 → ekey (a, s) = 2 * s + 1.
Proof. intros Hs. unfold ekey. simpl. by destruct (Z.eqb_spec s 0). Qed.

Record heap_inv m cs es : Prop := {
  hi_tile : tile lo cs hi;
  hi_wf : Forall chunk_ok cs;
  hi_hdrs : hdrs m 0 cs;
  hi_links : dseg 8 m NULL es.*1 NULL;
  hi_sorted : StronglySorted (λ e e', ekey e ≤ ekey e') es;
  hi_perm : es ≡ₚ sentinels ++ (entry <$> filter is_free cs);
  hi_sent : ∀ i, 0 ≤ i < 19 → m !! mm_nodelist nodelist i = Some 0;
  hi_mapped : ∀ w, lo ≤ w < hi → w `mod` 4 = 0 → is_Some (m !! w);
}.

Context (Hlay : layout_ok).

Lemma sentinel_elem e : e ∈ sentinels ↔ ∃ i, 0 ≤ i < 19 ∧ e = (mm_nodelist nodelist i, 0).
Proof.
  unfold sentinels. rewrite list_elem_of_fmap. setoid_rewrite elem_of_seq. split.
  - intros (i & -> & Hi). exists (Z.of_nat i). split; [lia|done].
  - intros (i & Hi & ->). exists (Z.to_nat i). rewrite Z2Nat.id by lia. split; [done|lia].
Qed.

Lemma sentinels_nodup : NoDup sentinels.*1.
Proof.
  unfold sentinels. rewrite <-list_fmap_compose. apply NoDup_fmap_2; [|apply NoDup_seq].
  intros i j. unfold mm_nodelist. simpl. lia.
Qed.

Section Facts.
Context {m : mem} {cs : list chunk} {es : list (Z * Z)}.
Context (Hinv : heap_inv m cs es).

Lemma chunk_bounds c :
  c ∈ cs →
  lo ≤ c_addr c ∧ c_addr c + c_size c ≤ hi ∧ c_addr c `mod` 8 = 0 ∧
  c_size c `mod` 8 = 0 ∧ 8 ≤ c_size c < 2 ^ 31 ∧ (c_st c ≠ Alloc → 16 ≤ c_size c).
Proof.
  intros Hc. destruct Hinv, Hlay as [? (? & ? & ? & ? & ?) ?].
  pose proof (tile_elem _ _ _ _ hi_tile0 hi_wf0 Hc) as [Hb1 Hb2].
  pose proof (tile_mod _ _ _ _ hi_tile0 hi_wf0 ltac:(done) Hc).
  rewrite Forall_forall in hi_wf0. destruct (hi_wf0 _ Hc) as (? & ? & ?).
  split_and!; try done; lia.
Qed.

Lemma entry_cases e :
  e ∈ es →
  (∃ i, 0 ≤ i < 19 ∧ e = (mm_nodelist nodelist i, 0)) ∨
  (∃ c, c ∈ cs ∧ c_st c = Free ∧ e = entry c).
Proof.
  rewrite (hi_perm _ _ _ Hinv), elem_of_app, sentinel_elem, list_elem_of_fmap.
  setoid_rewrite list_elem_of_filter. unfold is_free. naive_solver.
Qed.

Lemma free_entry c : c ∈ cs → c_st c = Free → entry c ∈ es.
Proof.
  intros Hc Hf. rewrite (hi_perm _ _ _ Hinv), elem_of_app, list_elem_of_fmap.
  right. exists c. by rewrite list_elem_of_filter.
Qed.

Lemma sentinel_entry i : 0 ≤ i < 19 → (mm_nodelist nodelist i, 0) ∈ es.
Proof.
  intros Hi. rewrite (hi_perm _ _ _ Hinv), elem_of_app, sentinel_elem. eauto.
Qed.

Lemma chunk_inj c c' : c ∈ cs → c' ∈ cs → c_addr c = c_addr c' → c = c'.
Proof.
  intros (l1 & l2 & E)%list_elem_of_split Hc' Ha.
  pose proof Hinv as [Ht Hw _ _ _ _ _ _]. rewrite E in *.
  apply tile_split in Ht as [H1 H2].
  apply Forall_app in Hw as [Hw1 [Hw2 Hw3]%Forall_cons].
  assert (8 ≤ c_size c) by apply Hw2.
  apply elem_of_app in Hc' as [Hc'|[->|Hc']%elem_of_cons]; [|done|].
  - pose proof (tile_elem _ _ _ _ H1 Hw1 Hc').
    rewrite Forall_forall in Hw1. destruct (Hw1 _ Hc') as (_ & ? & _). lia.
  - pose proof (tile_elem _ _ _ _ H2 Hw3 Hc'). lia.
Qed.

Lemma cs_nodup : NoDup (c_addr <$> cs).
Proof.
  pose proof Hinv as [Ht Hw _ _ _ _ _ _]. clear Hinv.
  revert Ht Hw. generalize lo. clear Hlay. induction cs as [|c l IH]; intros a; simpl; [constructor|].
  intros [Ha Ht] [Hc Hw]%Forall_cons. constructor; [|by eapply IH].
  rewrite list_elem_of_fmap. intros (c' & E & Hc').
  pose proof (tile_elem _ _ _ _ Ht Hw Hc'). destruct Hc as (_ & ? & _). lia.
Qed.

(** Entries carry the address and size found in memory. *)
Lemma entry_bounds e :
  e ∈ es → e.1 ≠ NULL ∧ 0 < e.1 < 2 ^ 32 ∧ e.1 `mod` 8 = 0 ∧ 0 ≤ e.2 < 2 ^ 31.
Proof.
  intros [(i & Hi & ->)|(c & Hc & _ & ->)]%entry_cases; simpl.
  - destruct Hlay as [(? & ? & ?) _ _]. unfold mm_nodelist.
    split_and!; try lia. apply mod8_add; [done|]. mod_lia.
  - pose proof (chunk_bounds c Hc) as (? & ? & ? & ? & ? & ?).
    destruct Hlay as [_ (? & ? & ? & ? & ?) _]. split_and!; try done; lia.
Qed.

Lemma entry_size e : e ∈ es → m !! e.1 = Some e.2.
Proof.
  intros [(i & Hi & ->)|(c & Hc & _ & ->)]%entry_cases; simpl.
  - by apply (hi_sent _ _ _ Hinv).
  - apply list_elem_of_split in Hc as (l1 & l2 & E).
    pose proof (hi_hdrs _ _ _ Hinv) as Hh. rewrite E in Hh.
    by apply hdrs_elem in Hh as [? _].
Qed.

Lemma sentinel_apart i c :
  0 ≤ i < 19 → c ∈ cs → 16 ≤ c_size c →
  mm_nodelist nodelist i + 16 ≤ c_addr c ∨ c_addr c + c_size c ≤ mm_nodelist nodelist i.
Proof.
  intros Hi Hc _. pose proof (chunk_bounds c Hc) as (? & ? & _).
  destruct Hlay as [_ _ ?]. unfold mm_nodelist. lia.
Qed.

Lemma es_nodup : NoDup es.*1.
Proof.
  rewrite (hi_perm _ _ _ Hinv), fmap_app. apply NoDup_app. split_and!.
  - apply sentinels_nodup.
  - intros a (e & -> & He)%list_elem_of_fmap (e' & E & He')%list_elem_of_fmap.
    apply sentinel_elem in He as (i & Hi & ->).
    apply list_elem_of_fmap in He' as (c & -> & Hc). apply list_elem_of_filter in Hc as [Hf Hc].
    pose proof (chunk_bounds c Hc) as (_ & _ & _ & _ & _ & H).
    pose proof (sentinel_apart i c Hi Hc). simpl in E. unfold is_free in Hf.
    rewrite Hf in H. specialize (H ltac:(done)). lia.
  - rewrite <-list_fmap_compose. apply (nodup_fmap_filter c_addr), cs_nodup.
Qed.

Lemma es_spaced : spaced es.*1.
Proof.
  apply spaced_mod8; [apply es_nodup|]. intros a (e & -> & He)%list_elem_of_fmap.
  by apply entry_bounds in He as (_ & _ & ? & _).
Qed.
End Facts.
End Inv.
