(* ===== verification/MmSteps.v ===== *)
(** The steps every routine of mm/mm_heap is made of, each with the change it
    makes to [heap_inv]: taking a node off the node list ([mm_unlink]),
    putting one on ([mm_addfreechunk]), searching ([mm_malloc_search]) and
    rewriting the headers of a span of chunks. *)

From stdpp Require Import sorting.
From S2P Require Import Prelude Links MmHeap MmInv.

(** * The hook of a size *)

Lemma mm_size2ndx_loop_log2 fuel ndx x :
  1 ≤ x → Z.log2 x < Z.of_nat fuel → mm_size2ndx_loop fuel ndx x = ndx + Z.log2 x.
Proof.
  revert ndx x. induction fuel as [|fuel IH]; intros ndx x Hx Hl; simpl.
  { pose proof (Z.log2_nonneg x). lia. }
  destruct (Z.ltb_spec 1 x).
  - assert (1 ≤ Z.log2 x).
    { apply Z.log2_le_pow2; lia. }
    assert (Hs : Z.log2 (Z.shiftr x 1) = Z.log2 x - 1).
    { rewrite Z.log2_shiftr by lia. lia. }
    rewrite IH; [lia| |lia].
    rewrite Z.shiftr_div_pow2 by lia. apply Z.div_le_lower_bound; lia.
  - replace x with 1 by lia. simpl. lia.
Qed.

(** The hook [ndx] holds the sizes from 2^(ndx+4) up to
    2^(ndx+5), the last hook everything above. *)
Lemma mm_size2ndx_range s :
  16 ≤ s →
  0 ≤ mm_size2ndx s < 19 ∧ 2 ^ (mm_size2ndx s + 4) ≤ s ∧
  (mm_size2ndx s < 18 → s < 2 ^ (mm_size2ndx s + 5)).
Proof.
  intros Hs. unfold mm_size2ndx, MM_MAX_CHUNK, MM_NNODES, MM_MIN_SHIFT.
  destruct (Z.leb_spec 4194304 s) as [Hbig|Hsmall]; [lia|].
  assert (Hl : 4 ≤ Z.log2 s < 22).
  { split; [apply Z.log2_le_pow2; lia|apply Z.log2_lt_pow2; lia]. }
  assert (Hsh : Z.log2 (Z.shiftr s 4) = Z.log2 s - 4).
  { rewrite Z.log2_shiftr by lia. lia. }
  rewrite mm_size2ndx_loop_log2.
  - rewrite Hsh. replace (0 + (Z.log2 s - 4) + 4) with (Z.log2 s) by lia.
    replace (0 + (Z.log2 s - 4) + 5) with (Z.succ (Z.log2 s)) by lia.
    pose proof (Z.log2_spec s). lia.
  - rewrite Z.shiftr_div_pow2 by lia. apply Z.div_le_lower_bound; lia.
  - rewrite Hsh. lia.
Qed.

Lemma ssorted_drop {A} (R : relation A) l1 x l2 :
  StronglySorted R (l1 ++ x :: l2) → StronglySorted R (l1 ++ l2).
Proof.
  rewrite !StronglySorted_app, StronglySorted_cons. set_solver.
Qed.

Definition with_st (c : chunk) (st : cstat) : chunk := Chunk (c_addr c) (c_size c) st.

Section Steps.
Variables nodelist lo hi : Z.
Context (Hlay : layout_ok nodelist lo hi).
Implicit Types (m : mem) (cs : list chunk) (es : list (Z * Z)) (e : Z * Z).

Local Abbreviation inv := (heap_inv nodelist lo hi).
Local Abbreviation ekey := (ekey nodelist).
Local Abbreviation hook := (mm_nodelist nodelist).
Local Abbreviation le_key := (λ e e' : Z * Z, ekey e ≤ ekey e').

(** The link words of a list of nodes. *)
Definition links (xs : list Z) : list Z := (λ x, x + 8) <$> xs.

Lemma chunk_disjoint m cs es c c' :
  inv m cs es → c ∈ cs → c' ∈ cs → c ≠ c' →
  c_addr c + c_size c ≤ c_addr c' ∨ c_addr c' + c_size c' ≤ c_addr c.
Proof.
  intros Hinv (l1 & l2 & E)%list_elem_of_split Hc' Hne.
  pose proof Hinv as [Ht Hw _ _ _ _ _ _]. rewrite E in *.
  apply tile_split in Ht as [H1 H2].
  apply Forall_app in Hw as [Hw1 [Hw2 Hw3]%Forall_cons].
  apply elem_of_app in Hc' as [Hc'|[->|Hc']%elem_of_cons]; [|done|].
  - pose proof (tile_elem _ _ _ _ H1 Hw1 Hc'). lia.
  - pose proof (tile_elem _ _ _ _ H2 Hw3 Hc'). lia.
Qed.

(** A node of the list or a chunk on its way to it. *)
Definition is_node cs (x : Z) : Prop :=
  (∃ i, 0 ≤ i < 19 ∧ x = hook i) ∨ (∃ c, c ∈ cs ∧ c_st c ≠ Alloc ∧ x = c_addr c).

Lemma entry_is_node m cs es e : inv m cs es → e ∈ es → is_node cs e.1.
Proof.
  intros Hinv [(i & Hi & ->)|(c & Hc & Hf & ->)]%(entry_cases _ _ _ Hinv).
  - left. eauto.
  - right. exists c. rewrite Hf. done.
Qed.

(** Link words are neither headers nor hooks nor payload of an allocated
    chunk. *)
Lemma links_apart m cs es x w :
  inv m cs es → is_node cs x → w = x + 8 ∨ w = x + 12 →
  (∀ c, c ∈ cs → w ≠ c_addr c ∧ w ≠ c_addr c + 4) ∧
  (∀ i, 0 ≤ i < 19 → w ≠ hook i) ∧
  (∀ c, c ∈ cs → c_st c = Alloc → ¬ (c_addr c ≤ w < c_addr c + c_size c)).
Proof.
  intros Hinv Hx Hw. destruct Hlay as [(? & ? & ?) (? & ? & ? & ? & ?) ?].
  destruct Hx as [(j & Hj & ->)|(d & Hd & Hdf & ->)].
  - split_and!.
    + intros c Hc. pose proof (chunk_bounds _ _ _ Hlay Hinv c Hc) as (? & ? & _ & _ & ? & _).
      unfold mm_nodelist in *. lia.
    + intros i Hi. unfold mm_nodelist in *. lia.
    + intros c Hc _. pose proof (chunk_bounds _ _ _ Hlay Hinv c Hc) as (? & ? & _ & _ & ? & _).
      unfold mm_nodelist in *. lia.
  - pose proof (chunk_bounds _ _ _ Hlay Hinv d Hd) as (? & ? & ? & _ & ? & Hsz).
    specialize (Hsz Hdf). split_and!.
    + intros c Hc. pose proof (chunk_bounds _ _ _ Hlay Hinv c Hc) as (? & ? & _ & _ & ? & _).
      destruct (decide (d = c)) as [->|Hne]; [lia|].
      pose proof (chunk_disjoint _ _ _ _ _ Hinv Hd Hc Hne). lia.
    + intros i Hi. unfold mm_nodelist in *. lia.
    + intros c Hc Ha. destruct (decide (d = c)) as [->|Hne]; [done|].
      pose proof (chunk_disjoint _ _ _ _ _ Hinv Hd Hc Hne). lia.
Qed.

(** What the rest of the system relies on: [user_word cs w] are the words the
    heap must not touch, the contents of the allocated chunks of [cs] and all
    memory outside the heap region and the node list. *)
Definition user_word cs (w : Z) : Prop :=
  (∃ c, c ∈ cs ∧ c_st c = Alloc ∧ c_addr c + 8 ≤ w < c_addr c + c_size c) ∨
  ((w < lo ∨ hi ≤ w) ∧ (w < nodelist ∨ nodelist + 304 ≤ w)).

Definition keeps cs m m' : Prop :=
  dom m' = dom m ∧ ∀ w, user_word cs w → m' !! w = m !! w.

Lemma keeps_refl cs m : keeps cs m m.
Proof. done. Qed.

Lemma keeps_trans cs m1 m2 m3 : keeps cs m1 m2 → keeps cs m2 m3 → keeps cs m1 m3.
Proof.
  intros [D1 H1] [D2 H2]. split; [congruence|]. intros w Hw. by rewrite H2, H1.
Qed.

(** Every allocated chunk of [cs] lies within one of [cs']. *)
Definition allocs_in cs cs' : Prop := ∀ c, c ∈ cs → c_st c = Alloc →
  ∃ d, d ∈ cs' ∧ c_st d = Alloc ∧ c_addr d ≤ c_addr c ∧ c_addr c + c_size c ≤ c_addr d + c_size d.

Lemma keeps_mono cs cs' m m' : allocs_in cs cs' → keeps cs' m m' → keeps cs m m'.
Proof.
  intros Hin [D H]. split; [done|]. intros w [(c & Hc & Ha & Hw)|Hw]; apply H.
  - destruct (Hin c Hc Ha) as (d & Hd & Hda & H1 & H2). left. exists d. split_and!; [done..|lia|lia].
  - by right.
Qed.

Lemma keeps_insert cs m m' a v :
  ¬ user_word cs a → is_Some (m' !! a) → keeps cs m m' → keeps cs m (<[a:=v]> m').
Proof.
  intros Ha Hm [D H]. split; [by rewrite dom_insert_lookup_L|].
  intros w Hw. rewrite lookup_insert_ne; [by apply H|]. by intros ->.
Qed.

Lemma touches_apart xs m m' w :
  touches (links xs) m m' → (∀ x, x ∈ xs → w ≠ x + 8 ∧ w ≠ x + 12) → m' !! w = m !! w.
Proof.
  intros [_ H] Hw. apply H. rewrite Forall_forall. intros y (x & -> & Hx)%list_elem_of_fmap.
  destruct (Hw x Hx). lia.
Qed.

(** Headers and the inside of chunks that are not allocated belong to the
    heap. *)
Lemma heap_word m cs es c w :
  inv m cs es → c ∈ cs → c_addr c ≤ w < c_addr c + c_size c →
  w < c_addr c + 8 ∨ c_st c ≠ Alloc → ¬ user_word cs w.
Proof.
  intros Hinv Hc Hw Hst. pose proof (chunk_bounds _ _ _ Hlay Hinv c Hc) as (? & ? & _).
  intros [(d & Hd & Ha & Hwd)|Hout]; [|lia].
  destruct (decide (c = d)) as [->|Hne]; [destruct Hst; [lia|done]|].
  pose proof (chunk_disjoint _ _ _ _ _ Hinv Hc Hd Hne). lia.
Qed.

Lemma links_keeps m cs es xs m' :
  inv m cs es → (∀ x, x ∈ xs → is_node cs x) → touches (links xs) m m' → keeps cs m m'.
Proof.
  intros Hinv Hxs Ht. split; [apply Ht|]. intros w Hu. eapply touches_apart; [done|].
  intros x Hx. enough (¬ (w = x + 8 ∨ w = x + 12)) by tauto. intros E.
  destruct (Hxs x Hx) as [(i & Hi & ->)|(c & Hc & Ha & ->)].
  - destruct (links_apart m cs es _ w Hinv (Hxs _ Hx) E) as (_ & _ & H).
    destruct Hu as [(c & Hc & Ha & Hw)|Hout]; [apply (H c Hc Ha); lia|].
    unfold mm_nodelist in *. lia.
  - pose proof (chunk_bounds _ _ _ Hlay Hinv c Hc) as (_ & _ & _ & _ & _ & Hsz).
    specialize (Hsz Ha). eapply heap_word; [exact Hinv|exact Hc| |by right|exact Hu]. lia.
Qed.

(** Relinking: the node list changes and one chunk moves between free and
    limbo; headers stay. *)
Lemma heap_inv_relink m m' l1 c c' l2 es es' :
  inv m (l1 ++ c :: l2) es →
  c_addr c' = c_addr c → c_size c' = c_size c → c_st c ≠ Alloc → c_st c' ≠ Alloc →
  touches (links (c_addr c :: es.*1)) m m' →
  dseg 8 m' NULL es'.*1 NULL → StronglySorted le_key es' →
  es' ≡ₚ sentinels nodelist ++ (entry <$> filter is_free (l1 ++ c' :: l2)) →
  inv m' (l1 ++ c' :: l2) es'.
Proof.
  intros Hinv Ha Hs Hst Hst' Ht Hd Hso Hp.
  assert (Hn : ∀ x, x ∈ c_addr c :: es.*1 → is_node (l1 ++ c :: l2) x).
  { intros x [->|(e & -> & He)%list_elem_of_fmap]%elem_of_cons.
    - right. exists c. set_solver.
    - by eapply entry_is_node. }
  assert (Happ : ∀ w, (∀ x, is_node (l1 ++ c :: l2) x → w ≠ x + 8 ∧ w ≠ x + 12) → m' !! w = m !! w).
  { intros w Hw. eapply touches_apart; [done|]. eauto. }
  pose proof Hinv as [Htl Hwf Hh _ _ _ Hse Hmp].
  split; try done.
  - apply tile_split in Htl. apply tile_split. by rewrite Ha, Hs.
  - apply Forall_app in Hwf as [Hw1 [Hwc Hw2]%Forall_cons].
    apply Forall_app. split; [done|]. constructor; [|done].
    destruct Hwc as (W1 & W2 & W3). unfold chunk_ok. rewrite Hs. auto.
  - assert (Hh' : hdrs m' 0 (l1 ++ c :: l2)).
    { revert Hh. apply hdrs_frame. intros d Hdin. split; apply Happ; intros x Hx.
      - split; [destruct (links_apart m _ es x (x + 8) Hinv Hx ltac:(by left)) as (H & _)
               |destruct (links_apart m _ es x (x + 12) Hinv Hx ltac:(by right)) as (H & _)];
          destruct (H d Hdin); congruence.
      - split; [destruct (links_apart m _ es x (x + 8) Hinv Hx ltac:(by left)) as (H & _)
               |destruct (links_apart m _ es x (x + 12) Hinv Hx ltac:(by right)) as (H & _)];
          destruct (H d Hdin); congruence. }
    apply hdrs_app in Hh' as (H1 & H2 & H3 & H4). apply hdrs_app. simpl.
    rewrite Ha, Hs, H2, H3. split_and!; [done|done| |done].
    destruct (c_st c), (c_st c'); done.
  - intros i Hi. rewrite Happ; [by apply Hse|]. intros x Hx.
    split; [destruct (links_apart m _ es x (x + 8) Hinv Hx ltac:(by left)) as (_ & H & _)
           |destruct (links_apart m _ es x (x + 12) Hinv Hx ltac:(by right)) as (_ & H & _)];
      apply not_eq_sym; by apply H.
  - intros w Hw Hw4. apply (touches_mapped _ _ _ w Ht). by apply Hmp.
Qed.
(** Link words lie outside a span of chunks that are off the list. *)
Lemma entry_outside m l1 mid r es b d e w :
  inv m (l1 ++ mid ++ r) es → Forall (λ c, c_st c ≠ Free) mid →
  tile lo l1 b → tile b mid d → e ∈ es → w = e.1 + 8 ∨ w = e.1 + 12 → ¬ (b ≤ w < d).
Proof.
  intros Hinv Ho T1 T2 He Hw.
  pose proof Hinv as [Ht Hwf _ _ _ _ _ _].
  apply Forall_app in Hwf as [Hw1 [Hw2 Hw3]%Forall_app].
  assert (T3 : tile d r hi).
  { apply tile_span in Ht as (b' & d' & A1 & A2 & A3).
    assert (b' = b) as -> by (by eapply tile_fun). by assert (d' = d) as -> by (by eapply tile_fun). }
  assert (Hb : lo ≤ b) by (by eapply tile_le). assert (Hdh : d ≤ hi) by (by eapply tile_le).
  destruct (entry_cases _ _ _ Hinv e He) as [(j & Hj & ->)|(c & Hc & Hf & ->)]; simpl in *.
  { destruct Hlay as [_ _ Hap]. unfold mm_nodelist in *. lia. }
  pose proof (chunk_bounds _ _ _ Hlay Hinv c Hc) as (_ & _ & _ & _ & _ & Hsz).
  specialize (Hsz ltac:(by rewrite Hf)).
  apply elem_of_app in Hc as [Hc|[Hc|Hc]%elem_of_app].
  - pose proof (tile_elem _ _ _ _ T1 Hw1 Hc). lia.
  - rewrite Forall_forall in Ho. by apply Ho in Hc.
  - pose proof (tile_elem _ _ _ _ T3 Hw3 Hc). lia.
Qed.

(** * Taking a node off the list *)

(** Hook 0 is the first node, so every free chunk has a predecessor. *)
Lemma free_has_pred m cs f1 c f2 :
  inv m cs (f1 ++ entry c :: f2) → c ∈ cs → c_st c = Free → ∃ f p, f1 = f ++ [p].
Proof.
  intros Hinv Hc Hf. destruct (list_snoc_cases f1) as [->|(f & p & ->)]; [|eauto]. exfalso.
  pose proof (sentinel_entry _ _ _ Hinv 0 ltac:(lia)) as H0.
  pose proof (hi_sorted _ _ _ _ _ _ Hinv) as Hso. simpl in *.
  pose proof (chunk_bounds _ _ _ Hlay Hinv c Hc) as (_ & _ & _ & _ & _ & Hsz).
  specialize (Hsz ltac:(by rewrite Hf)).
  apply StronglySorted_inv in Hso as [_ Hall]. rewrite Forall_forall in Hall.
  apply elem_of_cons in H0 as [E|H0].
  - unfold entry in E. injection E as _ E. lia.
  - specialize (Hall _ H0). rewrite ekey_hook in Hall. unfold entry in Hall.
    rewrite ekey_chunk in Hall by lia. lia.
Qed.

Lemma es_drop f1 c f2 l1 l2 c' :
  f1 ++ entry c :: f2 ≡ₚ sentinels nodelist ++ (entry <$> filter is_free (l1 ++ c :: l2)) →
  c_st c = Free → c_st c' ≠ Free →
  f1 ++ f2 ≡ₚ sentinels nodelist ++ (entry <$> filter is_free (l1 ++ c' :: l2)).
Proof.
  intros Hp Hf Hf'. rewrite !filter_app in *. rewrite !filter_cons in *.
  rewrite decide_True in Hp by done. rewrite decide_False by done.
  rewrite fmap_app in *. simpl in Hp. apply (inj (cons (entry c))).
  rewrite Permutation_middle, Hp. solve_Permutation.
Qed.
(** The two stores that take node [x] out from behind [p]. *)
Lemma unlink_between m f1 p x f2 m' :
  spaced ((f1 ++ [p]) ++ x :: f2) → (∀ y, y ∈ (f1 ++ [p]) ++ f2 → y `mod` 8 = 0) →
  dseg 8 m NULL ((f1 ++ [p]) ++ x :: f2) NULL →
  m' = (match head f2 with
        | Some n => <[n + 12:=p]> (<[p + 8:=hd_or NULL f2]> m)
        | None => <[p + 8:=hd_or NULL f2]> m
        end) →
  dseg 8 m' NULL ((f1 ++ [p]) ++ f2) NULL.
Proof.
  intros Hsp Hmod Hd ->. pose proof (Hmod p ltac:(set_solver)) as Pm.
  apply dseg_unsplice with (m:=m) (x:=x); try done.
  - intros y Hy. rewrite last_snoc in Hy. injection Hy as <-.
    destruct f2 as [|n f2]; simpl; [mem_solve|].
    pose proof (Hmod n ltac:(set_solver)). assert (n + 12 ≠ p + 8) by mod_lia. mem_solve.
  - intros y Hy. rewrite last_or_snoc. destruct f2 as [|n f2]; simpl in *; [done|].
    injection Hy as <-. mem_solve.
  - intros y Hy Hne. rewrite last_snoc in Hne.
    pose proof (Hmod y ltac:(set_solver)). assert (y ≠ p) by congruence.
    destruct f2 as [|n f2]; simpl; [|pose proof (Hmod n ltac:(set_solver))];
      rewrite !lookup_insert_ne by mod_lia; done.
  - intros y Hy Hne. pose proof (Hmod y ltac:(set_solver)).
    destruct f2 as [|n f2]; simpl in *; [|assert (y ≠ n) by congruence;
      pose proof (Hmod n ltac:(set_solver))]; rewrite !lookup_insert_ne by mod_lia; done.
Qed.

Lemma unlink_exec m f1 p x f2 :
  spaced ((f1 ++ [p]) ++ x :: f2) → p ≠ NULL →
  (∀ y, y ∈ (f1 ++ [p]) ++ x :: f2 → y `mod` 8 = 0 ∧ y ≠ NULL) →
  dseg 8 m NULL ((f1 ++ [p]) ++ x :: f2) NULL →
  returns (mm_unlink x) m (λ _ m',
    dseg 8 m' NULL ((f1 ++ [p]) ++ f2) NULL ∧ touches (links ((f1 ++ [p]) ++ f2)) m m').
Proof.
  intros Hsp Hp Hmod Hd.
  pose proof (Hmod x ltac:(set_solver)) as [Xm _]. pose proof (Hmod p ltac:(set_solver)) as [Pm _].
  assert (8 ≤ Z.abs (p - x)).
  { apply spaced_app in Hsp as (_ & _ & Hsp). apply Hsp; set_solver. }
  pose proof (dseg_flink _ _ _ _ _ _ _ Hd) as Hx1.
  pose proof (dseg_blink _ _ _ _ _ _ _ Hd) as Hx2. rewrite last_or_snoc in Hx2.
  assert (Hp8 : is_Some (m !! (p + 8))) by (apply (dseg_mapped _ _ _ _ _ p Hd); set_solver).
  assert (Hpx : x + 12 ≠ p + 8) by mod_lia.
  assert (Hpl : p + 8 ∈ links ((f1 ++ [p]) ++ f2)).
  { unfold links. rewrite !fmap_app. set_solver. }
  assert (Hmod' : ∀ y, y ∈ (f1 ++ [p]) ++ f2 → y `mod` 8 = 0).
  { intros y Hy. apply Hmod. set_solver. }
  unfold mm_unlink, MFLINK, MBLINK, nonnull. destruct f2 as [|n f2].
  - unfold hd_or in Hx1; simpl in Hx1. rsteps. split; [by eapply unlink_between|].
    apply (touches_insert _ _ _ _ _ (p + 8)); [done|lia|done|apply touches_refl].
  - pose proof (Hmod n ltac:(set_solver)) as [Nm Nn]. rewrite hd_or_cons in Hx1.
    assert (Hn12 : is_Some (m !! (n + 8 + 4))) by (apply (dseg_mapped _ _ _ _ _ n Hd); set_solver).
    assert (Hpn : p + 8 ≠ n + 12) by mod_lia.
    assert (Hnn : is_Some (<[p + 8:=n]> m !! (n + 12))).
    { rewrite lookup_insert_ne by done. replace (n + 12) with (n + 8 + 4) by lia. done. }
    assert (Hnl : n + 8 ∈ links ((f1 ++ [p]) ++ n :: f2)).
    { unfold links. rewrite !fmap_app. set_solver. }
    rsteps. split; [by eapply unlink_between|].
    apply (touches_insert _ _ _ _ _ (n + 8)); [done|lia|done|].
    apply (touches_insert _ _ _ _ _ (p + 8)); [done|lia|done|apply touches_refl].
Qed.

Lemma mm_unlink_spec m l1 c l2 f1 f2 :
  inv m (l1 ++ c :: l2) (f1 ++ entry c :: f2) → c_st c = Free →
  returns (mm_unlink (c_addr c)) m (λ _ m',
    inv m' (l1 ++ with_st c Limbo :: l2) (f1 ++ f2) ∧ touches (links (f1 ++ f2).*1) m m').
Proof.
  intros Hinv Hf. assert (Hc : c ∈ l1 ++ c :: l2) by set_solver.
  destruct (free_has_pred _ _ _ _ _ Hinv Hc Hf) as (f & p & ->).
  pose proof (es_spaced _ _ _ Hlay Hinv) as Hsp. pose proof (hi_links _ _ _ _ _ _ Hinv) as Hd.
  assert (Hb : ∀ y, y ∈ ((f ++ [p]) ++ entry c :: f2).*1 → y `mod` 8 = 0 ∧ y ≠ NULL).
  { intros y (e & -> & He)%list_elem_of_fmap.
    by pose proof (entry_bounds _ _ _ Hlay Hinv e He) as (? & _ & ? & _). }
  assert (E : ∀ k, ((f ++ [p]) ++ k).*1 = (f.*1 ++ [p.1]) ++ k.*1).
  { intros k. by rewrite !fmap_app. }
  rewrite E, fmap_cons in Hb, Hsp, Hd. rewrite E.
  eapply returns_mono.
  { apply (unlink_exec m f.*1 p.1 (c_addr c) f2.*1); try done. apply Hb. set_solver. }
  simpl. intros _ m' [Hd' Ht]. split; [|done].
  apply heap_inv_relink with (m:=m) (c:=c) (es:=(f ++ [p]) ++ entry c :: f2); try done.
  - by rewrite Hf.
  - eapply touches_mono; [|exact Ht]. unfold links. rewrite E. set_solver.
  - by rewrite E.
  - eapply ssorted_drop, (hi_sorted _ _ _ _ _ _ Hinv).
  - eapply es_drop; [|done..]. apply (hi_perm _ _ _ _ _ _ Hinv).
Qed.

(** * Putting a node on the list *)

(** Hooks behind hook [ndx] in the list order come after every chunk of
    hook [ndx]. *)
Lemma later_hook_key m cs f1 f2 ndx j s :
  inv m cs (f1 ++ (hook ndx, 0) :: f2) → 0 ≤ ndx < 19 → 0 ≤ j < 19 →
  (ndx < 18 → s < 2 ^ (ndx + 5)) → (hook j, 0) ∈ f2 → 2 * s + 1 ≤ ekey (hook j, 0).
Proof.
  intros Hinv Hndx Hj Hs Hin.
  pose proof (hi_sorted _ _ _ _ _ _ Hinv) as Hso.
  apply StronglySorted_app in Hso as (_ & _ & Hso). apply StronglySorted_cons in Hso as [Hall _].
  rewrite Forall_forall in Hall. specialize (Hall _ Hin). rewrite !ekey_hook in *.
  pose proof (es_nodup _ _ _ Hlay Hinv) as Hnd. rewrite fmap_app, fmap_cons in Hnd.
  apply NoDup_app in Hnd as (_ & _ & [Hnd _]%NoDup_cons).
  assert (j ≠ ndx).
  { intros ->. apply Hnd. apply list_elem_of_fmap. by exists (hook ndx, 0). }
  assert (ndx + 5 ≤ j + 5).
  { apply (Z.pow_le_mono_r_iff 2); lia. }
  specialize (Hs ltac:(lia)).
  assert (2 ^ (ndx + 6) ≤ 2 ^ (j + 5)) by (apply Z.pow_le_mono_r; lia).
  assert (2 ^ (ndx + 6) = 2 * 2 ^ (ndx + 5)) by (rewrite <-Z.pow_succ_r by lia; f_equal; lia).
  lia.
Qed.

(** The search loop of mm_addfreechunk stops between two entries that the
    new chunk fits between. *)
Lemma addfree_search m cs f0 ndx s fuel k1 pe k2 :
  inv m cs (f0 ++ (hook ndx, 0) :: k1 ++ k2) → 0 ≤ ndx < 19 → 16 ≤ s →
  (ndx < 18 → s < 2 ^ (ndx + 5)) → 2 ^ (ndx + 4) ≤ s →
  last ((hook ndx, 0) :: k1) = Some pe → ekey pe ≤ 2 * s + 1 → (length k2 < fuel)%nat →
  returns (loop fuel (mm_addfreechunk_body s) (pe.1, hd_or NULL k2.*1)) m (λ r m',
    m' = m ∧ ∃ g1 g2 pe', k1 ++ k2 = g1 ++ g2 ∧ last ((hook ndx, 0) :: g1) = Some pe' ∧
      r = (pe'.1, hd_or NULL g2.*1) ∧ ekey pe' ≤ 2 * s + 1 ∧
      (∀ e, head g2 = Some e → 2 * s + 1 ≤ ekey e)).
Proof.
  intros Hinv Hndx Hs Hup Hlow. revert fuel k1 pe Hinv.
  induction k2 as [|e k2 IH]; intros [|fuel] k1 pe Hinv Hlast Hkey Hfuel; simpl in Hfuel;
    try lia; rewrite loop_S; unfold mm_addfreechunk_body, SIZE, MFLINK, nonnull.
  { rsteps. split; [done|]. exists k1, [], pe. done. }
  rewrite fmap_cons, hd_or_cons.
  assert (He : e ∈ f0 ++ (hook ndx, 0) :: k1 ++ e :: k2) by set_solver.
  pose proof (entry_bounds _ _ _ Hlay Hinv e He) as (En & _ & _ & Eb).
  pose proof (entry_size _ _ _ Hinv e He) as Esz. rsteps.
  destruct (decide (e.2 = 0)) as [E0|E0].
  { rewrite E0. simpl. rsteps. split; [done|]. exists k1, (e :: k2), pe. split_and!; try done.
    intros e' [= <-].
    destruct (entry_cases _ _ _ Hinv e He) as [(j & Hj & ->)|(c & Hc & Hf & ->)].
    - eapply later_hook_key; [exact Hinv|done..|set_solver].
    - pose proof (chunk_bounds _ _ _ Hlay Hinv c Hc). simpl in E0. lia. }
  assert (Ekey : ekey e = 2 * e.2 + 1) by (destruct e; by apply ekey_chunk).
  destruct (Z.ltb_spec e.2 s) as [Hlt|Hge].
  - pose proof (hi_links _ _ _ _ _ _ Hinv) as Hd.
    rewrite fmap_app, fmap_cons, fmap_app, fmap_cons, app_comm_cons, app_assoc in Hd.
    pose proof (dseg_flink _ _ _ _ _ _ _ Hd) as Hfl. rsteps.
    eapply returns_mono; [apply (IH fuel (k1 ++ [e]) e)|].
    + by rewrite <-app_assoc.
    + rewrite app_comm_cons. apply last_snoc.
    + lia.
    + lia.
    + intros r m' (-> & g1 & g2 & pe' & Eg & Hr). split; [done|].
      exists g1, g2, pe'. rewrite <-app_assoc in Eg. done.
  - rsteps. split; [done|]. exists k1, (e :: k2), pe. split_and!; try done.
    intros e' [= <-]. lia.
Qed.

Lemma es_add f1 c f2 l1 l2 c' :
  f1 ++ f2 ≡ₚ sentinels nodelist ++ (entry <$> filter is_free (l1 ++ c :: l2)) →
  c_st c ≠ Free → c_st c' = Free →
  f1 ++ entry c' :: f2 ≡ₚ sentinels nodelist ++ (entry <$> filter is_free (l1 ++ c' :: l2)).
Proof.
  intros Hp Hf Hf'. rewrite !filter_app in *. rewrite !filter_cons in *.
  rewrite decide_False in Hp by done. rewrite decide_True by done.
  rewrite fmap_app in *. simpl. rewrite <-Permutation_middle, Hp. solve_Permutation.
Qed.

Lemma ssorted_insert f1 e f2 :
  StronglySorted le_key (f1 ++ f2) →
  (∀ e', last f1 = Some e' → ekey e' ≤ ekey e) →
  (∀ e', head f2 = Some e' → ekey e ≤ ekey e') →
  StronglySorted le_key (f1 ++ e :: f2).
Proof.
  rewrite !StronglySorted_app, StronglySorted_cons, Forall_forall. intros (H1 & H2 & H3) Hl Hh.
  assert (Hf1 : ∀ x, x ∈ f1 → ekey x ≤ ekey e).
  { destruct (list_snoc_cases f1) as [->|(f & p & ->)]; [set_solver|].
    rewrite last_snoc in Hl. specialize (Hl p eq_refl).
    apply StronglySorted_app in H2 as (H4 & _ & _).
    intros x [Hx|Hx]%elem_of_app; [|apply list_elem_of_singleton in Hx as ->; done].
    pose proof (H4 x p Hx ltac:(set_solver)) as H5. simpl in H5. lia. }
  assert (Hf2 : ∀ x, x ∈ f2 → ekey e ≤ ekey x).
  { destruct f2 as [|n f2]; [set_solver|]. specialize (Hh n eq_refl).
    apply StronglySorted_cons in H3 as [H4 _]. rewrite Forall_forall in H4.
    intros x [->|Hx]%elem_of_cons; [done|]. specialize (H4 x Hx). simpl in H4. lia. }
  split_and!; [|done|done|done]. set_solver.
Qed.
Lemma limbo_not_entry m cs es c : inv m cs es → c ∈ cs → c_st c = Limbo → c_addr c ∉ es.*1.
Proof.
  intros Hinv Hc Hl (e & E & He)%list_elem_of_fmap.
  pose proof (chunk_bounds _ _ _ Hlay Hinv c Hc) as (? & ? & _ & _ & _ & Hsz).
  destruct (entry_cases _ _ _ Hinv e He) as [(j & Hj & ->)|(c' & Hc' & Hf & ->)]; simpl in E.
  - pose proof (sentinel_apart _ _ _ Hlay Hinv j c Hj Hc). rewrite Hl in Hsz.
    specialize (Hsz ltac:(done)). lia.
  - assert (c = c') by (eapply chunk_inj; [exact Hinv|done..]). congruence.
Qed.

(** The four stores that link node [x] in between [p] and [n]. *)
Lemma link_between m f1 p x f2 m' :
  spaced ((f1 ++ [p]) ++ x :: f2) → (∀ y, y ∈ x :: (f1 ++ [p]) ++ f2 → y `mod` 8 = 0) →
  dseg 8 m NULL ((f1 ++ [p]) ++ f2) NULL →
  m' = (match head f2 with
        | Some n => <[n + 12:=x]> (<[x + 8:=hd_or NULL f2]> (<[x + 12:=p]> (<[p + 8:=x]> m)))
        | None => <[x + 8:=hd_or NULL f2]> (<[x + 12:=p]> (<[p + 8:=x]> m))
        end) →
  dseg 8 m' NULL ((f1 ++ [p]) ++ x :: f2) NULL.
Proof.
  intros Hsp Hmod Hd ->.
  pose proof (Hmod x ltac:(set_solver)) as Xm. pose proof (Hmod p ltac:(set_solver)) as Pm.
  assert (Hxy : ∀ y, y ∈ (f1 ++ [p]) ++ f2 → x ≠ y).
  { intros y Hy ->. apply spaced_NoDup in Hsp. rewrite <-Permutation_middle in Hsp.
    by apply NoDup_cons in Hsp as [? _]. }
  pose proof (Hxy p ltac:(set_solver)) as Hxp.
  apply dseg_splice with (m:=m); try done.
  - destruct f2 as [|n f2]; simpl; [mem_solve|].
    pose proof (Hmod n ltac:(set_solver)). assert (n + 12 ≠ x + 8) by mod_lia. mem_solve.
  - rewrite last_or_snoc. destruct f2 as [|n f2]; simpl; [mem_solve|].
    pose proof (Hxy n ltac:(set_solver)). mem_solve.
  - intros y Hy. rewrite last_snoc in Hy. injection Hy as <-.
    assert (x + 12 ≠ p + 8) by mod_lia. destruct f2 as [|n f2]; simpl; [mem_solve|].
    pose proof (Hmod n ltac:(set_solver)). assert (n + 12 ≠ p + 8) by mod_lia. mem_solve.
  - intros y Hy. destruct f2 as [|n f2]; simpl in *; [done|]. injection Hy as <-. mem_solve.
  - intros y Hy Hne. rewrite last_snoc in Hne. specialize (Hxy y Hy).
    pose proof (Hmod y ltac:(set_solver)). assert (y ≠ p) by congruence.
    destruct f2 as [|n f2]; simpl; [|pose proof (Hmod n ltac:(set_solver))];
      rewrite !lookup_insert_ne by mod_lia; done.
  - intros y Hy Hne. specialize (Hxy y Hy).
    pose proof (Hmod y ltac:(set_solver)).
    destruct f2 as [|n f2]; simpl in *; [|assert (y ≠ n) by congruence;
      pose proof (Hmod n ltac:(set_solver))]; rewrite !lookup_insert_ne by mod_lia; done.
Qed.
Lemma link_exec m f1 p x f2 :
  spaced ((f1 ++ [p]) ++ x :: f2) →
  (∀ y, y ∈ x :: (f1 ++ [p]) ++ f2 → y `mod` 8 = 0 ∧ y ≠ NULL) →
  is_Some (m !! (x + 8)) → is_Some (m !! (x + 12)) →
  dseg 8 m NULL ((f1 ++ [p]) ++ f2) NULL →
  returns (store (p + 8) x;; store (x + 12) p;; store (x + 8) (hd_or NULL f2);;
           if nonnull (hd_or NULL f2) then store (hd_or NULL f2 + 12) x else mret tt) m
    (λ _ m', dseg 8 m' NULL ((f1 ++ [p]) ++ x :: f2) NULL ∧
             touches (links (x :: (f1 ++ [p]) ++ f2)) m m').
Proof.
  intros Hsp Hmod Hx8 Hx12 Hd.
  pose proof (Hmod x ltac:(set_solver)) as [Xm _]. pose proof (Hmod p ltac:(set_solver)) as [Pm _].
  assert (Hp8 : is_Some (m !! (p + 8))) by (apply (dseg_mapped _ _ _ _ _ p Hd); set_solver).
  assert (Hpx : p + 8 ≠ x + 12) by mod_lia.
  assert (8 ≤ Z.abs (p - x)).
  { apply spaced_app in Hsp as (_ & _ & Hsp). apply Hsp; set_solver. }
  assert (Hin : ∀ y, y ∈ x :: (f1 ++ [p]) ++ f2 → y + 8 ∈ links (x :: (f1 ++ [p]) ++ f2)).
  { intros y Hy. unfold links. apply list_elem_of_fmap. eauto. }
  assert (Hmod' : ∀ y, y ∈ x :: (f1 ++ [p]) ++ f2 → y `mod` 8 = 0) by (intros; by apply Hmod).
  rsteps. unfold nonnull. destruct f2 as [|n f2].
  - simpl. rsteps. split; [by eapply link_between|].
    apply (touches_insert _ _ _ _ _ (x + 8)); [apply Hin; set_solver|lia|mapped_solve|].
    apply (touches_insert _ _ _ _ _ (x + 8)); [apply Hin; set_solver|lia|mapped_solve|].
    apply (touches_insert _ _ _ _ _ (p + 8)); [apply Hin; set_solver|lia|done|apply touches_refl].
  - pose proof (Hmod n ltac:(set_solver)) as [Nm Nn]. rewrite hd_or_cons.
    assert (Hn12 : is_Some (m !! (n + 8 + 4))) by (apply (dseg_mapped _ _ _ _ _ n Hd); set_solver).
    assert (n + 12 ≠ x + 8) by mod_lia. assert (n + 12 ≠ p + 8) by mod_lia.
    assert (8 ≤ Z.abs (x - n)).
    { apply spaced_app in Hsp as (_ & [Hsp _] & _). rewrite Forall_forall in Hsp.
      apply Hsp; set_solver. }
    rsteps. split; [by eapply link_between|].
    apply (touches_insert _ _ _ _ _ (n + 8)); [apply Hin; set_solver|lia|mapped_solve|].
    apply (touches_insert _ _ _ _ _ (x + 8)); [apply Hin; set_solver|lia|mapped_solve|].
    apply (touches_insert _ _ _ _ _ (x + 8)); [apply Hin; set_solver|lia|mapped_solve|].
    apply (touches_insert _ _ _ _ _ (p + 8)); [apply Hin; set_solver|lia|done|apply touches_refl].
Qed.

Lemma fuel_enough m cs es f1 f2 :
  inv m cs es → es = f1 ++ f2 → (length f2 < S (size m))%nat.
Proof.
  intros Hinv ->. pose proof (mapped_length m (f1 ++ f2).*1 0) as H.
  rewrite fmap_app, length_app, !length_fmap in H.
  enough (length f1 + length f2 ≤ size m)%nat by lia. apply H.
  - rewrite <-fmap_app. by apply (es_nodup _ _ _ Hlay Hinv).
  - intros a Ha. rewrite <-fmap_app in Ha. apply list_elem_of_fmap in Ha as (e & -> & He).
    rewrite Z.add_0_r. eexists. by apply (entry_size _ _ _ Hinv).
Qed.

Lemma mm_addfreechunk_spec m l1 c l2 es :
  inv m (l1 ++ c :: l2) es → c_st c = Limbo →
  returns (mm_addfreechunk nodelist (c_addr c)) m (λ _ m',
    ∃ f1 f2, es = f1 ++ f2 ∧ inv m' (l1 ++ with_st c Free :: l2) (f1 ++ entry c :: f2) ∧
      touches (links (c_addr c :: es.*1)) m m').
Proof.
  intros Hinv Hf. assert (Hc : c ∈ l1 ++ c :: l2) by set_solver.
  pose proof (chunk_bounds _ _ _ Hlay Hinv c Hc) as (Clo & Chi & Cm & Csm & Csb & Cs).
  specialize (Cs ltac:(by rewrite Hf)).
  pose proof (hi_hdrs _ _ _ _ _ _ Hinv) as Hh. apply hdrs_elem in Hh as [Hsz _].
  pose proof (mm_size2ndx_range (c_size c) Cs) as (Hndx & Hlow & Hup).
  set (ndx := mm_size2ndx (c_size c)) in *.
  pose proof (sentinel_entry _ _ _ Hinv ndx Hndx) as Hin.
  apply list_elem_of_split in Hin as (f0 & k & E). rewrite E in Hinv |- *.
  pose proof (hi_links _ _ _ _ _ _ Hinv) as Hd.
  rewrite fmap_app, fmap_cons in Hd. pose proof (dseg_flink _ _ _ _ _ _ _ Hd) as Hhook.
  unfold mm_addfreechunk, SIZE, MFLINK, MBLINK. rsteps. fold ndx. rsteps.
  eapply returns_mono.
  { apply (addfree_search m (l1 ++ c :: l2) f0 ndx (c_size c) _ [] (hook ndx, 0) k); try done.
    - rewrite ekey_hook. assert (2 ^ (ndx + 5) = 2 * 2 ^ (ndx + 4))
        by (rewrite <-Z.pow_succ_r by lia; f_equal; lia). lia.
    - eapply (fuel_enough _ _ _ (f0 ++ [(hook ndx, 0)])); [exact Hinv|]. by rewrite <-app_assoc. }
  simpl. intros r m1 (-> & g1 & g2 & pe & -> & Hlast & -> & Hk1 & Hk2).
  destruct (list_snoc_cases ((hook ndx, 0) :: g1)) as [Hnil|(h1 & pe' & Eh)]; [done|].
  rewrite Eh, last_snoc in Hlast. injection Hlast as ->.
  assert (Ees : f0 ++ (hook ndx, 0) :: g1 ++ g2 = ((f0 ++ h1) ++ [pe]) ++ g2).
  { rewrite app_comm_cons, Eh. by rewrite <-!app_assoc. }
  rewrite Ees in Hinv |- *. clear Hd Hhook.
  pose proof (hi_links _ _ _ _ _ _ Hinv) as Hd.
  assert (E3 : ∀ k, (((f0 ++ h1) ++ [pe]) ++ k).*1 = ((f0 ++ h1).*1 ++ [pe.1]) ++ k.*1).
  { intros k'. by rewrite !fmap_app. }
  rewrite E3 in Hd.
  assert (Hb : ∀ y, y ∈ c_addr c :: ((f0 ++ h1).*1 ++ [pe.1]) ++ g2.*1 → y `mod` 8 = 0 ∧ y ≠ NULL).
  { destruct Hlay as [_ (? & _) _]. intros y [->|Hy]%elem_of_cons; [split; [done|lia]|].
    rewrite <-E3 in Hy. apply list_elem_of_fmap in Hy as (e & -> & He).
    by pose proof (entry_bounds _ _ _ Hlay Hinv e He) as (? & _ & ? & _). }
  eapply returns_mono.
  { eapply link_exec; [|exact Hb|..|exact Hd].
    - rewrite <-Permutation_middle, <-E3. apply spaced_mod8.
      + constructor; [|apply (es_nodup _ _ _ Hlay Hinv)].
        by eapply limbo_not_entry.
      + intros y Hy. apply Hb. by rewrite <-E3.
    - apply (hi_mapped _ _ _ _ _ _ Hinv); [lia|mod_lia].
    - apply (hi_mapped _ _ _ _ _ _ Hinv); [lia|mod_lia]. }
  simpl. intros _ m' [Hd' Ht]. exists ((f0 ++ h1) ++ [pe]), g2. rewrite E3.
  split_and!; [done| |done].
  apply heap_inv_relink with (m:=m) (c:=c) (es:=((f0 ++ h1) ++ [pe]) ++ g2); try done.
  - by rewrite Hf.
  - by rewrite E3.
  - by rewrite E3, fmap_cons.
  - assert (Ek : ekey (entry c) = 2 * c_size c + 1) by (apply ekey_chunk; lia).
    apply ssorted_insert; [apply (hi_sorted _ _ _ _ _ _ Hinv)| |].
    + intros e'. rewrite last_snoc. intros [= <-]. lia.
    + intros e' He'. specialize (Hk2 e' He'). lia.
  - eapply (es_add _ _ _ _ _ (with_st c Free)); [|by rewrite Hf|done].
    apply (hi_perm _ _ _ _ _ _ Hinv).
Qed.

(** * Searching *)

Lemma malloc_search_loop m cs s fuel k1 k2 :
  inv m cs (k1 ++ k2) → 16 ≤ s → (∀ e, e ∈ k1 → e.2 < s) → (length k2 < fuel)%nat →
  returns (loop fuel (mm_malloc_search_body s) (hd_or NULL k2.*1)) m (λ r m',
    m' = m ∧
    ((r = NULL ∧ ∀ e, e ∈ k1 ++ k2 → e.2 < s) ∨
     ∃ g1 e g2, k1 ++ k2 = g1 ++ e :: g2 ∧ r = e.1 ∧ s ≤ e.2 ∧ ∀ e', e' ∈ g1 → e'.2 < s)).
Proof.
  intros Hinv Hs. revert fuel k1 Hinv.
  induction k2 as [|e k2 IH]; intros [|fuel] k1 Hinv Hk1 Hfuel; simpl in Hfuel;
    try lia; rewrite loop_S; unfold mm_malloc_search_body, SIZE, MFLINK, nonnull.
  { rsteps. split; [done|]. left. rewrite app_nil_r. done. }
  rewrite fmap_cons, hd_or_cons.
  assert (He : e ∈ k1 ++ e :: k2) by set_solver.
  pose proof (entry_bounds _ _ _ Hlay Hinv e He) as (En & _ & _ & Eb).
  pose proof (entry_size _ _ _ Hinv e He) as Esz. rsteps.
  destruct (Z.ltb_spec e.2 s) as [Hlt|Hge].
  - pose proof (hi_links _ _ _ _ _ _ Hinv) as Hd. rewrite fmap_app, fmap_cons in Hd.
    pose proof (dseg_flink _ _ _ _ _ _ _ Hd) as Hfl. rsteps.
    replace (k1 ++ e :: k2) with ((k1 ++ [e]) ++ k2) in * by (by rewrite <-app_assoc).
    apply IH; [done| |lia]. set_solver.
  - rsteps. split; [done|]. right. exists k1, e, k2. done.
Qed.

(** The first node of sufficient size, starting at the hook of the size: no
    smaller free chunk would do. *)
Lemma mm_malloc_search_spec m cs es s :
  inv m cs es → 16 ≤ s →
  returns (mm_malloc_search nodelist s) m (λ r m',
    m' = m ∧
    ((r = NULL ∧ ∀ c, c ∈ cs → c_st c = Free → c_size c < s) ∨
     ∃ f1 c f2, es = f1 ++ entry c :: f2 ∧ c ∈ cs ∧ c_st c = Free ∧ r = c_addr c ∧
       s ≤ c_size c ∧ ∀ c', c' ∈ cs → c_st c' = Free → s ≤ c_size c' → c_size c ≤ c_size c')).
Proof.
  intros Hinv Hs. pose proof (mm_size2ndx_range s Hs) as (Hndx & Hlow & _).
  assert (Endx : (if MM_MAX_CHUNK <=? s then MM_NNODES - 1 else mm_size2ndx s) = mm_size2ndx s).
  { unfold mm_size2ndx. by destruct (MM_MAX_CHUNK <=? s). }
  unfold mm_malloc_search. rewrite Endx. set (ndx := mm_size2ndx s) in *.
  pose proof (sentinel_entry _ _ _ Hinv ndx Hndx) as Hin.
  apply list_elem_of_split in Hin as (f0 & k & ->).
  pose proof (hi_links _ _ _ _ _ _ Hinv) as Hd. pose proof (hi_sorted _ _ _ _ _ _ Hinv) as Hso.
  rewrite fmap_app, fmap_cons in Hd. pose proof (dseg_flink _ _ _ _ _ _ _ Hd) as Hhook.
  unfold MFLINK. rsteps.
  replace (f0 ++ (hook ndx, 0) :: k) with ((f0 ++ [(hook ndx, 0)]) ++ k) in *
    by (by rewrite <-app_assoc).
  eapply returns_mono; [eapply malloc_search_loop; [exact Hinv|done|..]|].
  - intros e He. assert (Hk : ekey e ≤ ekey (hook ndx, 0)).
    { apply StronglySorted_app in Hso as (_ & Hso & _).
      apply StronglySorted_app in Hso as (Hso & _ & _).
      apply elem_of_app in He as [He|He]; [apply Hso; set_solver|].
      apply list_elem_of_singleton in He as ->. done. }
    rewrite ekey_hook in Hk. destruct e as [a z]. simpl.
    destruct (decide (z = 0)) as [->|Hz]; [lia|]. rewrite ekey_chunk in Hk by done.
    assert (2 ^ (ndx + 5) = 2 * 2 ^ (ndx + 4)) by (rewrite <-Z.pow_succ_r by lia; f_equal; lia). lia.
  - eapply fuel_enough; [exact Hinv|done].
  - simpl. intros r m' (-> & [(-> & Hall)|(g1 & e & g2 & E & -> & Hge & Hg)]); split; try done.
    + left. split; [done|]. intros c Hc Hf.
      apply (Hall (entry c)). by apply (free_entry _ _ _ Hinv).
    + right. assert (He : e ∈ (f0 ++ [(hook ndx, 0)]) ++ k) by (rewrite E; set_solver).
      destruct (entry_cases _ _ _ Hinv e He) as [(j & Hj & ->)|(c & Hc & Hf & ->)]; [simpl in Hge; lia|].
      exists g1, c, g2. split_and!; try done. intros c' Hc' Hf' Hs'.
      pose proof (free_entry _ _ _ Hinv c' Hc' Hf') as He'. rewrite E in He', Hso.
      simpl in Hge. apply elem_of_app in He' as [He'|[He'|He']%elem_of_cons].
      * apply Hg in He'. simpl in He'. lia.
      * unfold entry in He'. injection He'. lia.
      * apply StronglySorted_app in Hso as (_ & _ & Hso). apply StronglySorted_cons in Hso as [Hso _].
        rewrite Forall_forall in Hso. specialize (Hso _ He'). simpl in Hso. unfold entry in Hso.
        rewrite !ekey_chunk in Hso by lia. lia.
Qed.

(** * Rewriting headers *)

Definition off_list (cs : list chunk) : Prop := Forall (λ c, c_st c ≠ Free) cs.

Lemma off_list_filter cs : off_list cs → filter is_free cs = [].
Proof.
  induction 1 as [|c cs Hc _ IH]; [done|]. rewrite filter_cons, decide_False by done. done.
Qed.

(** A span [b, d) of chunks off the list is cut up anew; the chunk behind it
    learns the size of its new predecessor. *)
Lemma heap_inv_replace m m' l1 mid mid' n l2 es b d :
  inv m (l1 ++ mid ++ n :: l2) es → off_list mid → off_list mid' →
  tile lo l1 b → tile b mid d → tile b mid' d → Forall chunk_ok mid' →
  hdrs m' (lastsz 0 l1) mid' →
  m' !! (d + 4) = Some (prec (lastsz (lastsz 0 l1) mid') (c_st n)) →
  dom m' = dom m → (∀ w, ¬ (b ≤ w < d) → w ≠ d + 4 → m' !! w = m !! w) →
  inv m' (l1 ++ mid' ++ n :: l2) es.
Proof.
  intros Hinv Ho Ho' T1 T2 T2' Hwf' Hh' Hn Hdom Hf.
  pose proof Hinv as [Ht Hwf Hh Hd Hso Hp Hse Hmp].
  apply Forall_app in Hwf as [Hw1 [Hw2 Hw3]%Forall_app].
  pose proof Hw3 as [Hwn Hwl2]%Forall_cons.
  assert (T3 : tile d (n :: l2) hi).
  { apply tile_span in Ht as (b' & d' & A1 & A2 & A3).
    assert (b' = b) as -> by (by eapply tile_fun). by assert (d' = d) as -> by (by eapply tile_fun). }
  pose proof T3 as [Hna T4].
  assert (Hb : lo ≤ b) by (by eapply tile_le). assert (Hbd : b ≤ d) by (by eapply tile_le).
  assert (Hdh : d ≤ hi) by (by eapply tile_le).
  assert (Hn8 : 8 ≤ c_size n) by apply Hwn.
  assert (Hnh : d + c_size n ≤ hi) by (by eapply tile_le).
  assert (Hnode : ∀ e, e ∈ es → ∀ w, w = e.1 + 8 ∨ w = e.1 + 12 → m' !! w = m !! w).
  { intros e He w Hw. apply Hf.
    - eapply entry_outside; [exact Hinv|done..].
    - destruct (links_apart m _ es e.1 w Hinv (entry_is_node _ _ _ _ Hinv He) Hw) as (H & _).
      rewrite <-Hna. by apply (H n); set_solver. }
  split; try done.
  - apply tile_app. exists b. split; [done|]. apply tile_app. by exists d.
  - by rewrite !Forall_app.
  - apply hdrs_app in Hh as [Hh1 Hh2]. apply hdrs_app in Hh2 as [_ (Hn1 & Hn2 & Hh3)].
    rewrite !hdrs_app. simpl. split_and!.
    + revert Hh1. apply hdrs_frame. intros c Hc.
      pose proof (tile_elem _ _ _ _ T1 Hw1 Hc). rewrite Forall_forall in Hw1.
      destruct (Hw1 c Hc) as (_ & ? & _). split; apply Hf; lia.
    + done.
    + rewrite Hf by lia. done.
    + by rewrite Hna.
    + revert Hh3. apply hdrs_frame. intros c Hc.
      pose proof (tile_elem _ _ _ _ T4 Hwl2 Hc). split; apply Hf; lia.
  - revert Hd. apply dseg_frame. intros x (e & -> & He)%list_elem_of_fmap.
    split; apply (Hnode e He); lia.
  - rewrite Hp, !filter_app, (off_list_filter mid), (off_list_filter mid') by done. done.
  - intros i Hi. destruct Hlay as [_ _ Hap]. unfold mm_nodelist in *.
    rewrite Hf; [by apply Hse|lia|lia].
  - intros w Hw Hw4. rewrite <-elem_of_dom, Hdom, elem_of_dom. by apply Hmp.
Qed.
End Steps.
