(* ===== verification/MmOps.v ===== *)
(** The routines of mm/mm_heap at the level of chunks: what [mm_malloc_chunk],
    [mm_free_chunk] and [mm_shrinkchunk] do to a heap that satisfies
    [heap_ok]. *)

From stdpp Require Import sorting.
From S2P Require Import Prelude Links MmHeap MmInv MmSteps.

Section Ops.
Variables nodelist lo hi : Z.
Context (Hlay : layout_ok nodelist lo hi).
Implicit Types (m : mem) (cs : list chunk) (es : list (Z * Z)).

Local Abbreviation inv := (heap_inv nodelist lo hi).
Local Abbreviation keeps := (keeps nodelist lo hi).

(** Chunk [c] with its neighbour in memory. *)
Lemma inv_next m l1 c n l2 es :
  inv m (l1 ++ c :: n :: l2) es →
  c_addr n = c_addr c + c_size c ∧ m !! c_addr c = Some (c_size c) ∧
  m !! (c_addr c + 4) = Some (prec (lastsz 0 l1) (c_st c)) ∧
  m !! c_addr n = Some (c_size n) ∧ m !! (c_addr n + 4) = Some (prec (c_size c) (c_st n)).
Proof.
  intros Hinv. pose proof Hinv as [Ht _ Hh _ _ _ _ _].
  apply tile_split in Ht as [_ [Ha _]]. apply hdrs_app in Hh as (_ & H1 & H2 & H3 & H4 & _).
  done.
Qed.

Lemma inv_tiles m l1 mid l2 es :
  inv m (l1 ++ mid ++ l2) es → ∃ b d, tile lo l1 b ∧ tile b mid d ∧ tile d l2 hi.
Proof. intros Hinv. eapply tile_span, (hi_tile _ _ _ _ _ _ Hinv). Qed.

Lemma lastsz_range m l1 c l2 es : inv m (l1 ++ c :: l2) es → 0 ≤ lastsz 0 l1 < 2 ^ 31.
Proof.
  intros Hinv. destruct (list_snoc_cases l1) as [->|(l & p & ->)]; [done|].
  rewrite lastsz_app, lastsz_cons, lastsz_nil.
  pose proof (chunk_bounds _ _ _ Hlay Hinv p ltac:(set_solver)). lia.
Qed.

(** ** Rewriting headers *)

(** A word of a chunk that no user sees. *)
Definition heapw cs (w : Z) : Prop :=
  ∃ c, c ∈ cs ∧ c_addr c ≤ w < c_addr c + c_size c ∧ (w < c_addr c + 8 ∨ c_st c ≠ Alloc).

Lemma heapw_here c cs w :
  c_addr c ≤ w < c_addr c + c_size c → w < c_addr c + 8 ∨ c_st c ≠ Alloc → heapw (c :: cs) w.
Proof. intros. exists c. set_solver. Qed.
Lemma heapw_there c cs w : heapw cs w → heapw (c :: cs) w.
Proof. intros (d & Hd & H). exists d. set_solver. Qed.

Ltac heapw_solve :=
  repeat apply Forall_cons_2; [..|apply Forall_nil_2];
  first [ by right
        | left; first [ apply heapw_here; simpl; lia | apply heapw_there, heapw_here; simpl; lia ] ].

(** The chunks [mid] become [mid'] by writing the words [F]. *)
Lemma inv_rewrite F m m' l1 mid mid' n l2 es d :
  inv m (l1 ++ mid ++ n :: l2) es → off_list mid → off_list mid' → mid ≠ [] →
  tile (c_addr (hd_or n mid)) mid d → tile (c_addr (hd_or n mid)) mid' d → Forall chunk_ok mid' →
  writes F m m' → Forall (λ w, heapw mid' w ∨ w = d + 4) F →
  hdrs m' (lastsz 0 l1) mid' →
  m' !! (d + 4) = Some (prec (lastsz (lastsz 0 l1) mid') (c_st n)) →
  inv m' (l1 ++ mid' ++ n :: l2) es ∧ keeps (l1 ++ mid' ++ n :: l2) m m'.
Proof.
  intros Hinv Ho Ho' Hne T2 T2' Hwf [Hdom HF] HFw Hh Hn. rewrite Forall_forall in HFw.
  destruct (inv_tiles _ _ _ _ _ Hinv) as (b & d' & A1 & A2 & A3).
  assert (Hb : b = c_addr (hd_or n mid)) by (destruct mid; [done|by destruct A2]).
  rewrite <-Hb in *. assert (d' = d) as -> by (by eapply tile_fun).
  assert (Hna : c_addr n = d) by apply A3.
  pose proof (chunk_bounds _ _ _ Hlay Hinv n ltac:(set_solver)) as (_ & _ & _ & _ & Hn8 & _).
  assert (Hinv' : inv m' (l1 ++ mid' ++ n :: l2) es).
  { eapply heap_inv_replace; [exact Hlay|exact Hinv|done..|].
    intros w Hw Hw4. apply HF. intros [(c & Hc & Hcw & _)|?]%HFw; [|done].
    pose proof (tile_elem _ _ _ _ T2' Hwf Hc). lia. }
  split; [done|]. split; [done|]. intros w Hu. apply HF.
  intros [(c & Hc & Hcw & Hst)| ->]%HFw.
  - eapply heap_word; [exact Hlay|exact Hinv'|..|exact Hu]; [|exact Hcw|exact Hst]. set_solver.
  - rewrite <-Hna in *. eapply (heap_word _ _ _ Hlay _ _ _ n (c_addr n + 4) Hinv'); [set_solver|lia|left; lia|exact Hu].
Qed.

(** Splitting: chunk [c] keeps its first [s] bytes, the rest becomes a chunk
    of its own, off the list. *)
Lemma inv_split m l1 c n l2 es s m' :
  inv m (l1 ++ c :: n :: l2) es → c_st c ≠ Free → s `mod` 8 = 0 → 8 ≤ s →
  (c_st c ≠ Alloc → 16 ≤ s) → 16 ≤ c_size c - s →
  m' = <[c_addr n + 4:=prec (c_size c - s) (c_st n)]> (<[c_addr c:=s]>
         (<[c_addr c + s + 4:=s]> (<[c_addr c + s:=c_size c - s]> m))) →
  let cs' := l1 ++ Chunk (c_addr c) s (c_st c) :: Chunk (c_addr c + s) (c_size c - s) Limbo :: n :: l2 in
  inv m' cs' es ∧ keeps cs' m m'.
Proof.
  intros Hinv Hf Hs8 Hs Hs16 Hr Em cs'.
  pose proof (chunk_bounds _ _ _ Hlay Hinv c ltac:(set_solver)) as (Clo & Chi & Cm & Csm & Csb & _).
  pose proof (inv_next _ _ _ _ _ _ Hinv) as (Na & Hc1 & Hc2 & Hn1 & Hn2). rewrite Na in *.
  assert (M1 : is_Some (m !! (c_addr c + s))) by (apply (hi_mapped _ _ _ _ _ _ Hinv); mod_lia).
  assert (M2 : is_Some (m !! (c_addr c + s + 4))) by (apply (hi_mapped _ _ _ _ _ _ Hinv); mod_lia).
  apply (inv_rewrite [c_addr c + s; c_addr c + s + 4; c_addr c; c_addr c + c_size c + 4] m m' l1 [c]
           [Chunk (c_addr c) s (c_st c); Chunk (c_addr c + s) (c_size c - s) Limbo]
           n l2 es (c_addr c + c_size c)); try done; try by repeat constructor.
  - simpl. rewrite hd_or_cons. lia.
  - repeat constructor; simpl; auto with align; lia.
  - rewrite Em. wrote.
  - heapw_solve.
  - simpl. rewrite Em. split_and!; try done; mem_solve.
  - rewrite Em, !lastsz_cons, lastsz_nil. simpl. by rewrite lookup_insert_eq.
Qed.

(** Joining a chunk with its successor. *)
Lemma inv_merge m l1 c d n l2 es m' :
  inv m (l1 ++ c :: d :: n :: l2) es → c_st c ≠ Free → c_st d ≠ Free →
  m' = <[c_addr n + 4:=prec (c_size c + c_size d) (c_st n)]> (<[c_addr c:=c_size c + c_size d]> m) →
  let cs' := l1 ++ Chunk (c_addr c) (c_size c + c_size d) (c_st c) :: n :: l2 in
  inv m' cs' es ∧ keeps cs' m m'.
Proof.
  intros Hinv Hf Hg Em cs'.
  pose proof (chunk_bounds _ _ _ Hlay Hinv c ltac:(set_solver)) as (Clo & Chi & Cm & Csm & Csb & C16).
  pose proof (chunk_bounds _ _ _ Hlay Hinv d ltac:(set_solver)) as (_ & _ & _ & Dsm & Dsb & _).
  pose proof (inv_next _ _ _ _ _ _ Hinv) as (Na & Hc1 & Hc2 & Hd1 & Hd2).
  assert (Hinv2 : inv m ((l1 ++ [c]) ++ d :: n :: l2) es) by (by rewrite <-app_assoc).
  pose proof (inv_next _ _ _ _ _ _ Hinv2) as (Nn & _ & _ & Hn1 & Hn2). rewrite Na in *. rewrite Nn in *.
  apply (inv_rewrite [c_addr c; c_addr c + c_size c + c_size d + 4] m m' l1 [c; d]
           [Chunk (c_addr c) (c_size c + c_size d) (c_st c)] n l2 es
           (c_addr c + c_size c + c_size d)); try done; try by repeat constructor.
  - simpl. rewrite hd_or_cons. lia.
  - repeat constructor; simpl; auto with align; lia.
  - rewrite Em. wrote.
  - heapw_solve.
  - simpl. rewrite Em. split_and!; try done; mem_solve.
  - rewrite Em, !lastsz_cons, lastsz_nil. simpl. by rewrite lookup_insert_eq.
Qed.

(** Changing the mark of a chunk off the list. *)
Lemma inv_mark m l1 c n l2 es st m' :
  inv m (l1 ++ c :: n :: l2) es → c_st c ≠ Free → st ≠ Free → (st ≠ Alloc → 16 ≤ c_size c) →
  m' = <[c_addr c + 4:=prec (lastsz 0 l1) st]> m →
  let cs' := l1 ++ with_st c st :: n :: l2 in
  inv m' cs' es ∧ keeps cs' m m'.
Proof.
  intros Hinv Hf Hst H16 Em cs'.
  pose proof (chunk_bounds _ _ _ Hlay Hinv c ltac:(set_solver)) as (Clo & Chi & Cm & Csm & Csb & _).
  pose proof (inv_next _ _ _ _ _ _ Hinv) as (Na & Hc1 & Hc2 & Hn1 & Hn2). rewrite Na in *.
  apply (inv_rewrite [c_addr c + 4] m m' l1 [c] [with_st c st] n l2 es (c_addr c + c_size c));
    try done; try by repeat constructor.
  - repeat constructor; simpl; auto; lia.
  - rewrite Em. wrote.
  - heapw_solve.
  - simpl. rewrite Em. split_and!; try done; mem_solve.
  - rewrite Em, !lastsz_cons, lastsz_nil. simpl. mem_solve.
Qed.

(** ** List steps with what they keep *)

Ltac allocs :=
  let x := fresh in let Hx := fresh in let Ha := fresh in
  intros x Hx Ha; rewrite ?elem_of_app, ?elem_of_cons in Hx;
  destruct_or? Hx;
  first
    [ subst x; simpl in Ha; congruence
    | congruence
    | exists x; split; [|split; [exact Ha|split; apply Z.le_refl]];
      repeat first [rewrite elem_of_app | rewrite elem_of_cons]; tauto ].

Lemma allocs_sub l1 x l2 cs :
  c_st x ≠ Alloc → l1 ⊆ cs → l2 ⊆ cs → allocs_in (l1 ++ x :: l2) cs.
Proof.
  intros Hx H1 H2 c [Hc|[->|Hc]%elem_of_cons]%elem_of_app Ha; [|done|]; exists c; auto with lia.
Qed.

Lemma unlink_keeps m l1 c l2 es :
  inv m (l1 ++ c :: l2) es → c_st c = Free →
  returns (mm_unlink (c_addr c)) m (λ _ m', ∃ es',
    inv m' (l1 ++ with_st c Limbo :: l2) es' ∧ keeps (l1 ++ c :: l2) m m').
Proof.
  intros Hinv Hf. pose proof (free_entry _ _ _ Hinv c ltac:(set_solver) Hf) as He.
  apply list_elem_of_split in He as (f1 & f2 & ->).
  eapply returns_mono; [by apply (mm_unlink_spec _ _ _ Hlay m l1 c l2 f1 f2)|].
  simpl. intros _ m' [Hinv' Ht]. exists (f1 ++ f2). split; [done|].
  eapply links_keeps; [exact Hlay|exact Hinv| |exact Ht].
  intros x (e & -> & He)%list_elem_of_fmap. eapply entry_is_node; [exact Hinv|set_solver].
Qed.

Lemma addfree_keeps m l1 c l2 es :
  inv m (l1 ++ c :: l2) es → c_st c = Limbo →
  returns (mm_addfreechunk nodelist (c_addr c)) m (λ _ m', ∃ es',
    inv m' (l1 ++ with_st c Free :: l2) es' ∧ keeps (l1 ++ c :: l2) m m').
Proof.
  intros Hinv Hf. eapply returns_mono; [by apply (mm_addfreechunk_spec _ _ _ Hlay m l1 c l2 es)|].
  intros _ m' (f1 & f2 & -> & Hinv' & Ht). exists (f1 ++ entry c :: f2). split; [done|].
  eapply links_keeps; [exact Hlay|exact Hinv| |exact Ht].
  intros x [->|(e & -> & He)%list_elem_of_fmap]%elem_of_cons.
  - right. exists c. rewrite Hf. set_solver.
  - eapply entry_is_node; [exact Hinv|set_solver].
Qed.

(** [mm_setpreceding] writes the word the invariant expects. *)
Lemma setpreceding_spec m node p q st :
  m !! (node + 4) = Some (prec p st) → 0 ≤ p < 2 ^ 31 →
  returns (mm_setpreceding node q) m (λ _ m', m' = <[node + 4:=prec q st]> m).
Proof.
  intros Hm Hp. unfold mm_setpreceding, PRECEDING. rsteps. by rewrite set_prec.
Qed.

(** ** mm_free *)

Definition sumsz (cs : list chunk) : Z := foldr (λ c z, c_size c + z) 0 cs.

Lemma mm_free_next_spec m l1 c n l2 es :
  inv m (l1 ++ c :: n :: l2) es → c_st c = Limbo → c_st n ≠ Limbo →
  (c_st n = Free → l2 ≠ []) →
  returns (mm_free_next (c_addr c)) m (λ next m', ∃ q n' l2' es',
    n :: l2 = q ++ n' :: l2' ∧ Forall is_free q ∧ next = c_addr n' ∧ (q = [] → c_st n' ≠ Free) ∧
    let cs' := l1 ++ Chunk (c_addr c) (c_size c + sumsz q) Limbo :: n' :: l2' in
    inv m' cs' es' ∧ keeps cs' m m').
Proof.
  intros Hinv Hl Hnl Hn2.
  pose proof (chunk_bounds _ _ _ Hlay Hinv c ltac:(set_solver)) as (Clo & Chi & Cm & Csm & Csb & C16).
  pose proof (inv_next _ _ _ _ _ _ Hinv) as (Na & Hc1 & Hc2 & Hn1 & Hnp).
  pose proof (lay_region _ _ _ Hlay) as (_ & _ & _ & _ & Hspan).
  rewrite Na in Hn1, Hnp. unfold mm_free_next, SIZE, PRECEDING. rsteps. rewrite is_alloc_prec by lia.
  case_bool_decide as Hst; simpl; rsteps.
  - exists [], n, l2, es. rewrite Z.add_0_r. destruct c as [a s st]; simpl in *; subst st.
    split_and!; try done. by rewrite Hst.
  - assert (Hf : c_st n = Free) by (by destruct (c_st n)).
    destruct l2 as [|k l2]; [by destruct (Hn2 Hf)|]. rewrite <-Na in *.
    assert (Hinv2 : inv m ((l1 ++ [c]) ++ n :: k :: l2) es) by (by rewrite <-app_assoc).
    eapply returns_mono; [by apply (unlink_keeps m (l1 ++ [c]) n (k :: l2) es)|].
    simpl. intros _ m1 (es1 & Hinv1 & K1).
    pose proof (inv_next _ _ _ _ _ _ Hinv1) as (Ka & _ & _ & Hk1 & Hkp). simpl in Ka, Hkp.
    rewrite <-app_assoc in Hinv1. simpl in Hinv1.
    pose proof (inv_next _ _ _ _ _ _ Hinv1) as (_ & Hc1' & Hc2' & Hn1' & Hnp'). simpl in *.
    pose proof (chunk_bounds _ _ _ Hlay Hinv n ltac:(set_solver)) as (Nlo & Nhi & Nm & Nsm & Nsb & _).
    rsteps. rewrite u32_small by lia. rsteps. rewrite <-Ka.
    eapply returns_mono; [apply (setpreceding_spec _ _ (c_size n) _ (c_st k))|].
    + rewrite lookup_insert_ne by lia. done.
    + lia.
    + simpl. intros _ m' Em. rsteps.
      destruct (inv_merge m1 l1 c (with_st n Limbo) k l2 es1 m') as [Hinv' K']; [done|by rewrite Hl|done|by rewrite Em, Z.add_0_r|].
      exists [n], k, l2, es1. simpl in *. rewrite Z.add_0_r. rewrite Hl in Hinv', K'.
      split_and!; try done; [by constructor|].
      eapply keeps_trans; [|exact K']. eapply keeps_mono; [|exact K1]. allocs.
Qed.

Lemma mm_free_prev_spec m l1 p c n l2 es :
  inv m (l1 ++ p :: c :: n :: l2) es → c_st c = Limbo → c_st p ≠ Limbo →
  returns (mm_free_prev (c_addr c) (c_addr n)) m (λ node m', ∃ l1' q es',
    l1 ++ [p] = l1' ++ q ∧ Forall is_free q ∧ node = c_addr (hd_or c q) ∧
    (q = [] → c_st p ≠ Free) ∧ (q ≠ [] → l1' = l1) ∧
    let cs' := l1' ++ Chunk node (sumsz q + c_size c) Limbo :: n :: l2 in
    inv m' cs' es' ∧ keeps cs' m m').
Proof.
  intros Hinv Hl Hpl.
  pose proof (chunk_bounds _ _ _ Hlay Hinv p ltac:(set_solver)) as (Plo & Phi & Pm & Psm & Psb & _).
  pose proof (chunk_bounds _ _ _ Hlay Hinv c ltac:(set_solver)) as (Clo & Chi & Cm & Csm & Csb & C16).
  pose proof (inv_next _ _ _ _ _ _ Hinv) as (Na & Hp1 & Hp2 & Hc1 & Hc2).
  pose proof (lay_region _ _ _ Hlay) as (_ & _ & _ & _ & Hspan).
  pose proof (lastsz_range _ _ _ _ _ Hinv) as Hrange.
  rewrite Hl in Hc2. simpl in Hc2.
  unfold mm_free_prev, SIZE, PRECEDING. rsteps.
  replace (c_addr c - c_size p) with (c_addr p) by lia. rsteps.
  rewrite is_alloc_prec by done. case_bool_decide as Hst; simpl; rsteps.
  - exists (l1 ++ [p]), [], es. rewrite hd_or_nil, <-app_assoc.
    destruct c as [a s st]; simpl in *; subst st.
    split_and!; try done; [by rewrite Hst|by rewrite <-app_assoc].
  - assert (Hf : c_st p = Free) by (by destruct (c_st p)).
    eapply returns_mono; [by apply (unlink_keeps m l1 p (c :: n :: l2) es)|].
    simpl. intros _ m1 (es1 & Hinv1 & K1).
    pose proof (inv_next _ _ _ _ _ _ Hinv1) as (_ & Hp1' & Hp2' & Hc1' & Hc2'). simpl in *.
    assert (Hinv2 : inv m1 ((l1 ++ [with_st p Limbo]) ++ c :: n :: l2) es1) by (by rewrite <-app_assoc).
    pose proof (inv_next _ _ _ _ _ _ Hinv2) as (Ka & _ & _ & Hk1 & Hkp). simpl in Ka, Hkp.
    rsteps. rewrite u32_small by lia. rsteps.
    eapply returns_mono; [apply (setpreceding_spec _ _ (c_size c) _ (c_st n))|].
    + rewrite lookup_insert_ne by lia. done.
    + lia.
    + simpl. intros _ m' Em. rsteps.
      destruct (inv_merge m1 l1 (with_st p Limbo) c n l2 es1 m') as [Hinv' K'];
        [done|done|by rewrite Hl|by rewrite Em, Z.add_0_r|].
      exists l1, [p], es1. simpl in *. rewrite Z.add_0_r.
      split_and!; try done; [by constructor|].
      eapply keeps_trans; [|exact K']. eapply keeps_mono; [|exact K1]. allocs.
Qed.

(** The whole of mm_free: chunk [c] and its free neighbours become one free
    chunk. *)
Lemma mm_free_chunk_spec m l1 p c n l2 es :
  inv m (l1 ++ p :: c :: n :: l2) es → c_st c = Alloc → 16 ≤ c_size c →
  c_st p ≠ Limbo → c_st n ≠ Limbo → (c_st n = Free → l2 ≠ []) →
  returns (mm_free_chunk nodelist (c_addr c + 8)) m (λ _ m', ∃ l1' q r l2' es',
    l1 ++ [p] = l1' ++ q ∧ Forall is_free q ∧ (q = [] → c_st p ≠ Free) ∧ (q ≠ [] → l1' = l1) ∧
    n :: l2 = r ++ l2' ∧ Forall is_free r ∧ (r = [] → c_st n ≠ Free) ∧ l2' ≠ [] ∧
    let cs' := l1' ++ Chunk (c_addr (hd_or c q)) (sumsz q + c_size c + sumsz r) Free :: l2' in
    inv m' cs' es' ∧ keeps cs' m m').
Proof.
  intros Hinv Hst H16 Hpl Hnl Hn2. unfold mm_free_chunk, PRECEDING, SIZEOF_MM_ALLOCNODE.
  replace (c_addr c + 8 - 8) with (c_addr c) by lia.
  assert (Hinv0 : inv m ((l1 ++ [p]) ++ c :: n :: l2) es) by (by rewrite <-app_assoc).
  pose proof (inv_next _ _ _ _ _ _ Hinv0) as (Na & Hc1 & Hc2 & Hn1 & Hnp).
  pose proof (lastsz_range _ _ _ _ _ Hinv0) as Hrange. rsteps. rewrite clear_prec by done.
  edestruct (inv_mark m (l1 ++ [p]) c n l2 es Limbo) as [Hinv1 K1]; [done|by rewrite Hst|done|lia|done|].
  simpl in Hinv1, K1. set (m1 := <[c_addr c + 4:=_]> m) in *.
  eapply returns_mono; [by apply (mm_free_next_spec m1 (l1 ++ [p]) (with_st c Limbo) n l2 es)|].
  simpl. intros next m2 (r & n' & l2' & es2 & Er & Hr & -> & Hr0 & Hinv2 & K2).
  rsteps. rewrite <-app_assoc in Hinv2, K2. simpl in Hinv2, K2.
  eapply returns_mono; [by eapply (mm_free_prev_spec m2 l1 p _ n' l2' es2 Hinv2)|].
  simpl. intros node m3 (l1' & q & es3 & Eq & Hq & -> & Hq0 & Hq1 & Hinv3 & K3).
  replace (c_addr (hd_or _ q)) with (c_addr (hd_or c q)) in * by (by destruct q).
  eapply returns_mono; [by eapply (addfree_keeps m3 l1' _ (n' :: l2') es3 Hinv3)|].
  intros _ m4 (es4 & Hinv4 & K4). unfold with_st in Hinv4; simpl in Hinv4, K4.
  exists l1', q, r, (n' :: l2'), es4.
  rewrite Z.add_assoc in *.
  split_and!; try done.
  - intros ->. simpl in Er. injection Er as -> ->. by apply Hr0.
  - assert (Hq3 : ∀ x, x ∈ l1' → x ∈ l1 ++ [p]) by (rewrite Eq; set_solver).
    assert (Hr3 : ∀ x, x ∈ n' :: l2' → x ∈ n :: l2) by (rewrite Er; set_solver).
    eapply keeps_trans; [eapply keeps_mono; [|exact K1]; apply allocs_sub; set_solver|].
    eapply keeps_trans; [eapply keeps_mono; [|exact K2]; apply allocs_sub; set_solver|].
    eapply keeps_trans; [eapply keeps_mono; [|exact K3]; apply allocs_sub; set_solver|].
    eapply keeps_mono; [|exact K4]; apply allocs_sub; set_solver.
Qed.

(** ** mm_malloc *)

(** What becomes of the chunk taken for a request of [s] bytes. *)
Definition carve (c : chunk) (s : Z) : list chunk :=
  if 16 <=? c_size c - s then
    [Chunk (c_addr c) s Alloc; Chunk (c_addr c + s) (c_size c - s) Free]
  else [Chunk (c_addr c) (c_size c) Alloc].

Lemma malloc_split_spec m l1 c n l2 es s :
  inv m (l1 ++ c :: n :: l2) es → c_st c = Limbo → s `mod` 8 = 0 → 16 ≤ s → 16 ≤ c_size c - s →
  returns (store (c_addr c + s + 0) (c_size c - s);; store (c_addr c + s + 4) s;;
           store (c_addr c + 0) s;; mm_setpreceding (c_addr c + c_size c) (c_size c - s);;
           mm_addfreechunk nodelist (c_addr c + s)) m (λ _ m', ∃ es',
    let cs' := l1 ++ Chunk (c_addr c) s Limbo :: Chunk (c_addr c + s) (c_size c - s) Free :: n :: l2 in
    inv m' cs' es' ∧ keeps cs' m m').
Proof.
  intros Hinv Hl Hs8 Hs Hr.
  pose proof (chunk_bounds _ _ _ Hlay Hinv c ltac:(set_solver)) as (Clo & Chi & Cm & Csm & Csb & _).
  pose proof (inv_next _ _ _ _ _ _ Hinv) as (Na & Hc1 & Hc2 & Hn1 & Hn2).
  assert (M1 : is_Some (m !! (c_addr c + s))) by (apply (hi_mapped _ _ _ _ _ _ Hinv); mod_lia).
  assert (M2 : is_Some (m !! (c_addr c + s + 4))) by (apply (hi_mapped _ _ _ _ _ _ Hinv); mod_lia).
  rsteps. rewrite <-Na. eapply returns_mono; [apply (setpreceding_spec _ _ (c_size c) _ (c_st n))|].
  { rewrite Na in *. mem_solve. }
  { lia. }
  simpl. intros _ m1 Em. rewrite !Z.add_0_r in Em.
  destruct (inv_split m l1 c n l2 es s m1) as [Hinv1 K1]; try done; [by rewrite Hl|lia|].
  rewrite Hl in Hinv1, K1. rewrite (cons_middle _ l1), app_assoc in Hinv1.
  eapply returns_mono; [by apply (addfree_keeps m1 _ _ _ es Hinv1)|].
  intros _ m' (es' & Hinv' & K'). exists es'. unfold with_st in Hinv'. simpl in Hinv'.
  rewrite <-app_assoc in Hinv', K'. split; [done|].
  eapply keeps_trans; [eapply keeps_mono; [|exact K1]|eapply keeps_mono; [|exact K']]; allocs.
Qed.

Lemma mm_malloc_chunk_spec m cs es s :
  inv m cs es → s `mod` 8 = 0 → 16 ≤ s →
  (∀ l1 c l2, cs = l1 ++ c :: l2 → c_st c = Free → l2 ≠ []) →
  returns (mm_malloc_chunk nodelist s) m (λ r m',
    (r = NULL ∧ m' = m ∧ ∀ c, c ∈ cs → c_st c = Free → c_size c < s) ∨
    ∃ l1 c l2 es', cs = l1 ++ c :: l2 ∧ c_st c = Free ∧ s ≤ c_size c ∧
      (∀ c', c' ∈ cs → c_st c' = Free → s ≤ c_size c' → c_size c ≤ c_size c') ∧
      r = c_addr c + 8 ∧ inv m' (l1 ++ carve c s ++ l2) es' ∧ keeps cs m m').
Proof.
  intros Hinv Hs8 Hs Hlast. unfold mm_malloc_chunk, SIZEOF_MM_FREENODE, SIZEOF_MM_ALLOCNODE, SIZE, PRECEDING.
  rsteps. eapply returns_mono; [by eapply (mm_malloc_search_spec _ _ _ Hlay m cs es s)|].
  simpl. intros r m0 (-> & [(-> & Hnone)|(f1 & c & f2 & E & Hc & Hf & -> & Hge & Hbest)]).
  { simpl. rsteps. left. done. }
  pose proof (chunk_bounds _ _ _ Hlay Hinv c Hc) as (Clo & Chi & Cm & Csm & Csb & _).
  pose proof (lay_region _ _ _ Hlay) as (Hlo & _).
  apply list_elem_of_split in Hc as (l1 & l2 & ->).
  pose proof (Hlast _ _ _ eq_refl Hf) as Hl2. destruct l2 as [|n l2]; [done|].
  unfold nonnull. rsteps.
  eapply returns_mono; [by apply (unlink_keeps m l1 c (n :: l2) es)|].
  simpl. intros _ m1 (es1 & Hinv1 & K1).
  pose proof (inv_next _ _ _ _ _ _ Hinv1) as (Na & Hc1 & Hc2 & Hn1 & Hn2). simpl in *.
  rsteps. rewrite u32_small by lia.
  eapply (returns_mono _ _ (λ _ m2, ∃ rest es2, carve c s = with_st (hd_or c (carve c s)) Alloc :: rest ∧
    inv m2 (l1 ++ with_st (hd_or c (carve c s)) Limbo :: rest ++ n :: l2) es2 ∧
    keeps (l1 ++ c :: n :: l2) m1 m2)).
  { unfold carve. destruct (Z.leb_spec 16 (c_size c - s)).
    - do 2 rstep. eapply returns_mono; [apply (malloc_split_spec m1 l1 (with_st c Limbo) n l2 es1 s); try done|].
      simpl. intros _ m2 (es2 & Hinv2 & K2). eexists [_], es2. split_and!; [done|exact Hinv2|].
      eapply keeps_mono; [|exact K2]. allocs.
    - rsteps. eexists [], es1. split_and!; [done|exact Hinv1|apply keeps_refl]. }
  intros _ m2 (rest & es2 & Ec & Hinv2 & K2). set (d := hd_or c (carve c s)) in *.
  assert (Ed : c_addr d = c_addr c) by (subst d; unfold carve; by destruct (16 <=? _)).
  destruct (rest ++ n :: l2) as [|k l3] eqn:Ek; [by destruct rest|].
  pose proof (inv_next _ _ _ _ _ _ Hinv2) as (_ & _ & Hd2 & _ & _). simpl in Hd2. rewrite Ed in Hd2.
  rsteps. right.
  edestruct (inv_mark m2 l1 (with_st d Limbo) k l3 es2 Alloc) as [Hinv3 K3]; [done..|].
  simpl in Hinv3, K3. rewrite <-Ek, Ed in Hinv3, K3.
  exists l1, c, (n :: l2), es2. rewrite Ec. split_and!; try done.
  eapply keeps_trans; [exact K1|]. eapply keeps_trans; [exact K2|].
  eapply keeps_mono; [|exact K3]. allocs.
Qed.

(** ** mm_shrinkchunk *)

(** Giving the tail of [c] to the chunk [d] that follows it, off the list. *)
Lemma inv_shift m l1 c d n l2 es s m' :
  inv m (l1 ++ c :: d :: n :: l2) es → c_st c ≠ Free → c_st d = Limbo → s `mod` 8 = 0 →
  16 ≤ s ≤ c_size c →
  let t := c_size d + c_size c - s in
  m' = <[c_addr n + 4:=prec t (c_st n)]> (<[c_addr c:=s]>
         (<[c_addr c + s + 4:=s]> (<[c_addr c + s:=t]> m))) →
  let cs' := l1 ++ Chunk (c_addr c) s (c_st c) :: Chunk (c_addr c + s) t Limbo :: n :: l2 in
  inv m' cs' es ∧ keeps cs' m m'.
Proof.
  intros Hinv Hf Hl Hs8 Hs t Em cs'.
  pose proof (chunk_bounds _ _ _ Hlay Hinv c ltac:(set_solver)) as (Clo & Chi & Cm & Csm & Csb & _).
  pose proof (chunk_bounds _ _ _ Hlay Hinv d ltac:(set_solver)) as (Dlo & Dhi & Dm & Dsm & Dsb & D16).
  rewrite Hl in D16. specialize (D16 ltac:(done)).
  pose proof (inv_next _ _ _ _ _ _ Hinv) as (Na & Hc1 & Hc2 & Hd1 & Hd2).
  assert (Hinv2 : inv m ((l1 ++ [c]) ++ d :: n :: l2) es) by (by rewrite <-app_assoc).
  pose proof (inv_next _ _ _ _ _ _ Hinv2) as (Nn & _ & _ & Hn1 & Hn2). rewrite Nn, Na in *.
  assert (M1 : is_Some (m !! (c_addr c + s))) by (apply (hi_mapped _ _ _ _ _ _ Hinv); mod_lia).
  assert (M2 : is_Some (m !! (c_addr c + s + 4))) by (apply (hi_mapped _ _ _ _ _ _ Hinv); mod_lia).
  apply (inv_rewrite [c_addr c + s; c_addr c + s + 4; c_addr c; c_addr c + c_size c + c_size d + 4] m m' l1
           [c; d] [Chunk (c_addr c) s (c_st c); Chunk (c_addr c + s) t Limbo]
           n l2 es (c_addr c + c_size c + c_size d)); try done; subst t.
  - repeat constructor; [done|by rewrite Hl].
  - by repeat constructor.
  - simpl. rewrite hd_or_cons. lia.
  - repeat constructor; simpl; auto with align; mod_lia.
  - rewrite Em. wrote.
  - heapw_solve.
  - simpl. rewrite Em. split_and!; try done; mem_solve.
  - rewrite Em, !lastsz_cons, lastsz_nil. simpl. by rewrite lookup_insert_eq.
Qed.

(** Both branches end the same way: the tail goes onto the node list. *)
Lemma shrink_finish m l1 c s t n l2 es m0 :
  let mk st := l1 ++ Chunk (c_addr c) s (c_st c) :: Chunk (c_addr c + s) t st :: n :: l2 in
  inv m (mk Limbo) es → keeps (mk Limbo) m0 m →
  returns (mm_addfreechunk nodelist (c_addr c + s)) m (λ _ m', ∃ es',
    inv m' (mk Free) es' ∧ keeps (mk Free) m0 m').
Proof.
  intros mk Hinv K. subst mk. simpl in *. rewrite (cons_middle _ l1), app_assoc in Hinv.
  eapply returns_mono; [by apply (addfree_keeps m _ _ _ es Hinv)|].
  intros _ m' (es' & Hinv' & K'). exists es'. unfold with_st in Hinv'. simpl in Hinv'.
  rewrite <-app_assoc in Hinv', K'. split; [done|].
  eapply keeps_trans; [eapply keeps_mono; [|exact K]|eapply keeps_mono; [|exact K']]; allocs.
Qed.

Definition shrunk (l1 : list chunk) (c : chunk) (s : Z) (r l2 : list chunk) : list chunk :=
  if (negb (bool_decide (r = []))) || (16 <=? c_size c - s) then
    l1 ++ Chunk (c_addr c) s Alloc :: Chunk (c_addr c + s) (sumsz r + c_size c - s) Free :: l2
  else l1 ++ c :: l2.

Lemma mm_shrinkchunk_spec m l1 c n l2 es s :
  inv m (l1 ++ c :: n :: l2) es → c_st c = Alloc → s `mod` 8 = 0 → 16 ≤ s ≤ c_size c →
  c_st n ≠ Limbo → (c_st n = Free → l2 ≠ []) →
  returns (mm_shrinkchunk nodelist (c_addr c) s) m (λ _ m', ∃ r l2' es',
    n :: l2 = r ++ l2' ∧ Forall is_free r ∧ (r = [] → c_st n ≠ Free) ∧ l2' ≠ [] ∧
    let cs' := shrunk l1 c s r l2' in inv m' cs' es' ∧ keeps cs' m m').
Proof.
  intros Hinv Ha Hs8 Hs Hnl Hn2.
  pose proof (chunk_bounds _ _ _ Hlay Hinv c ltac:(set_solver)) as (Clo & Chi & Cm & Csm & Csb & _).
  pose proof (inv_next _ _ _ _ _ _ Hinv) as (Na & Hc1 & Hc2 & Hn1 & Hnp).
  pose proof (lay_region _ _ _ Hlay) as (_ & _ & _ & _ & Hspan).
  rewrite Na in Hn1, Hnp. unfold mm_shrinkchunk, SIZE, PRECEDING, SIZEOF_MM_FREENODE.
  rsteps. rewrite is_alloc_prec by lia. case_bool_decide as Hst; simpl.
  - rewrite u32_small by lia. destruct (Z.leb_spec (s + 16) (c_size c)) as [Hroom|Hroom].
    + assert (M1 : is_Some (m !! (c_addr c + s))) by (apply (hi_mapped _ _ _ _ _ _ Hinv); mod_lia).
      assert (M2 : is_Some (m !! (c_addr c + s + 4))) by (apply (hi_mapped _ _ _ _ _ _ Hinv); mod_lia).
      rsteps. rewrite u32_small by lia.
      edestruct (inv_split m l1 c n l2 es s) as [Hinv1 K1]; [done|by rewrite Ha|done|lia|done|lia|done|].
      rewrite Na, Hst in Hinv1, K1. rewrite !Z.add_0_r.
      eapply returns_mono; [by apply (shrink_finish _ l1 c s (c_size c - s) n l2 es m)|].
      simpl. intros _ m' (es' & Hinv' & K'). exists [], (n :: l2), es'.
      rewrite Ha in Hinv', K'. unfold shrunk. simpl.
      rewrite (proj2 (Z.leb_le _ _)) by lia. simpl.
      split_and!; try done. by rewrite Hst.
    + rsteps. exists [], (n :: l2), es. unfold shrunk. simpl.
      rewrite (proj2 (Z.leb_gt _ _)) by lia. split_and!; try done. by rewrite Hst.
  - assert (Hf : c_st n = Free) by (by destruct (c_st n)).
    destruct l2 as [|k l2]; [by destruct (Hn2 Hf)|]. rewrite <-Na in *. rsteps.
    assert (Hinv2 : inv m ((l1 ++ [c]) ++ n :: k :: l2) es) by (by rewrite <-app_assoc).
    eapply returns_mono; [by apply (unlink_keeps m (l1 ++ [c]) n (k :: l2) es)|].
    simpl. intros _ m1 (es1 & Hinv1 & K1).
    pose proof (inv_next _ _ _ _ _ _ Hinv1) as (Ka & _ & _ & Hk1 & Hkp). simpl in Ka, Hkp.
    rewrite <-app_assoc in Hinv1. simpl in Hinv1.
    pose proof (inv_next _ _ _ _ _ _ Hinv1) as (_ & Hc1' & Hc2' & Hn1' & Hnp'). simpl in *.
    pose proof (chunk_bounds _ _ _ Hlay Hinv n ltac:(set_solver)) as (Nlo & Nhi & Nm & Nsm & Nsb & _).
    assert (M1 : is_Some (m1 !! (c_addr c + s))) by (apply (hi_mapped _ _ _ _ _ _ Hinv1); mod_lia).
    assert (M2 : is_Some (m1 !! (c_addr c + s + 4))) by (apply (hi_mapped _ _ _ _ _ _ Hinv1); mod_lia).
    rsteps. rewrite u32_small by lia. rewrite <-Ka.
    eapply returns_mono; [apply (setpreceding_spec _ _ (c_size n) _ (c_st k))|].
    { rewrite !lookup_insert_ne by lia. done. }
    { lia. }
    simpl. intros _ m2 Em. rewrite !Z.add_0_r in Em.
    destruct (inv_shift m1 l1 c (with_st n Limbo) k l2 es1 s m2) as [Hinv3 K3]; try done; [by rewrite Ha|].
    simpl in Hinv3, K3.
    eapply returns_mono; [eapply (shrink_finish m2 l1 c s _ k l2 es1 m); [exact Hinv3|]|].
    { eapply keeps_trans; [eapply keeps_mono; [|exact K1]|exact K3].
      intros x Hx Hxa. rewrite elem_of_app, !elem_of_cons in Hx.
      destruct Hx as [Hx|[->|[->|Hx]]]; [exists x|exists c; simpl|done|exists x];
        (split_and!; [set_solver|done|lia|lia]). }
    simpl. intros _ m' (es' & Hinv' & K'). exists [n], (k :: l2), es'.
    rewrite Ha in Hinv', K'. unfold shrunk. simpl. rewrite Z.add_0_r.
    split_and!; try done. by constructor.
Qed.
End Ops.
