(* ===== verification/MmSpec.v ===== *)
(** The contract of the memory manager.

    [heap_ok] is the invariant between calls: the chunks tile the region
    between the two guard nodes, no two free chunks are adjacent, and the node
    list holds exactly the free chunks in size order.  The lemmas here lift
    the chunk-level routines to it and through the semaphore. *)

From stdpp Require Import sorting.
From S2P Require Import Prelude Links MmHeap MmApi MmInv MmSteps MmOps.

(** * Rounding *)

Lemma align_mask x : 0 ≤ x < 2 ^ 32 → Z.land x 0xFFFFFFF0 = x - x `mod` 16.
Proof.
  intros Hx. change 0xFFFFFFF0 with (Z.ldiff (Z.ones 32) (Z.ones 4)).
  replace (Z.land x _) with (Z.ldiff x (Z.ones 4)).
  - rewrite Z.ldiff_ones_r, Z.shiftr_div_pow2, Z.shiftl_mul_pow2 by lia. mod_lia.
  - apply Z.bits_inj'. intros i Hi. rewrite Z.land_spec, !Z.ldiff_spec.
    rewrite (Z.testbit_ones_nonneg 32) by lia. destruct (Z.ltb_spec i 32); [done|].
    simpl. rewrite andb_false_r. destruct (decide (x = 0)) as [->|]; [by rewrite Z.bits_0|].
    rewrite (Z.bits_above_log2 x); [done|lia|].
    enough (Z.log2 x < 32) by lia. apply Z.log2_lt_pow2; lia.
Qed.

(** The chunk size for a request of [size] bytes. *)
Definition need (size : Z) : Z := MM_ALIGN_UP (u32 (size + SIZEOF_MM_ALLOCNODE)).

Lemma MM_ALIGN_UP_spec x :
  0 ≤ x → x + 15 < 2 ^ 32 → MM_ALIGN_UP x `mod` 16 = 0 ∧ x ≤ MM_ALIGN_UP x < x + 16.
Proof.
  intros Hx Hb. unfold MM_ALIGN_UP. rewrite u32_small, align_mask by lia. mod_lia.
Qed.

Lemma MM_ALIGN_DOWN_spec x :
  0 ≤ x < 2 ^ 32 → MM_ALIGN_DOWN x `mod` 16 = 0 ∧ x - 16 < MM_ALIGN_DOWN x ≤ x.
Proof.
  intros Hx. unfold MM_ALIGN_DOWN. rewrite u32_small, align_mask by lia. mod_lia.
Qed.

Lemma need_spec size :
  1 ≤ size → size + 23 < 2 ^ 32 →
  need size `mod` 8 = 0 ∧ 16 ≤ need size ∧ size + 8 ≤ need size < size + 24.
Proof.
  intros Hs Hb. unfold need, SIZEOF_MM_ALLOCNODE. rewrite u32_small by lia.
  destruct (MM_ALIGN_UP_spec (size + 8)); [lia|lia|]. mod_lia.
Qed.

(** * The semaphore *)
Section Lock.
Variable my_pid : Z.
Context (Hpid : 0 ≤ my_pid).

(** The caller holds the lock already, or it is free. *)
Definition can_lock (h : heap) : Prop :=
  (mm_holder h = my_pid ∧ 1 ≤ mm_counts_held h) ∨
  (mm_holder h = -1 ∧ mm_counts_held h = 0 ∧ 0 < mm_semaphore h).

Definition taken (h : heap) : heap :=
  if mm_holder h =? my_pid then set_lock (mm_semaphore h) my_pid (mm_counts_held h + 1) h
  else set_lock (mm_semaphore h - 1) my_pid 1 h.

Lemma take_spec h : can_lock h → mm_takesemaphore my_pid h = Done (tt, taken h).
Proof.
  intros Hc. unfold mm_takesemaphore, taken, gets, id, mbind, M_bind.
  destruct (Z.eqb_spec (mm_holder h) my_pid) as [E|E]; [by rewrite E|].
  destruct Hc as [[? _]|(_ & _ & ?)]; [done|]. by destruct (Z.leb_spec (mm_semaphore h) 0); [lia|].
Qed.

(** Nested use: whoever took it once can take it again. *)
Lemma taken_can_lock h : can_lock h → can_lock (taken h).
Proof.
  unfold can_lock, taken. intros Hc. left.
  destruct (Z.eqb_spec (mm_holder h) my_pid); simpl; lia.
Qed.

(** Giving it back restores what there was before. *)
Lemma give_spec h m :
  can_lock h → mm_givesemaphore my_pid (set_mem m (taken h)) = Done (tt, set_mem m h).
Proof.
  intros Hc. destruct h as [m0 sem holder counts sz st en]. unfold can_lock in Hc; simpl in Hc.
  unfold mm_givesemaphore, taken, gets, id, mbind, M_bind, assert, modify, set_mem, set_lock; simpl.
  destruct (Z.eqb_spec holder my_pid) as [->|E]; simpl; rewrite Z.eqb_refl; simpl.
  - destruct (Z.ltb_spec 1 (counts + 1)); [|lia]. do 3 f_equal. lia.
  - destruct Hc as [[? _]|(-> & -> & ?)]; [done|]. do 3 f_equal. lia.
Qed.

(** A critical section on the memory of the heap. *)
Lemma locked_spec {A} (e : M mem A) h (Q : A → heap → Prop) :
  can_lock h → returns e (h_mem h) (λ r m, Q r (set_mem m h)) →
  returns (mm_takesemaphore my_pid;; r ← onmem e; mm_givesemaphore my_pid;; mret r) h Q.
Proof.
  intros Hc He. unfold returns, mbind, M_bind, onmem, zoom. rewrite take_spec by done.
  assert (Em : h_mem (taken h) = h_mem h) by (unfold taken; by destruct (_ =? _)).
  rewrite Em. unfold returns in He. destruct (e (h_mem h)) as [[a m]| |]; [|done..].
  by rewrite give_spec.
Qed.

Lemma locked_unit_spec (e : M mem unit) h (Q : unit → heap → Prop) :
  can_lock h → returns e (h_mem h) (λ r m, Q r (set_mem m h)) →
  returns (mm_takesemaphore my_pid;; onmem e;; mm_givesemaphore my_pid) h Q.
Proof.
  intros Hc He. assert (H := locked_spec e h Q Hc He). revert H.
  unfold returns, mbind, M_bind. destruct (mm_takesemaphore my_pid h) as [[[] h1]| |]; [|done..].
  destruct (onmem _ h1) as [[[] h2]| |]; [|done..].
  by destruct (mm_givesemaphore my_pid h2) as [[[] h3]| |].
Qed.
End Lock.

(** * The invariant *)

Fixpoint coal (prev : cstat) (cs : list chunk) : Prop :=
  match cs with
  | [] => True
  | c :: cs' => ¬ (prev = Free ∧ c_st c = Free) ∧ coal (c_st c) cs'
  end.

Lemma coal_app p l1 l2 :
  coal p (l1 ++ l2) ↔ coal p l1 ∧ coal (last_or p (c_st <$> l1)) l2.
Proof.
  revert p. induction l1 as [|c l1 IH]; intros p; simpl; [tauto|].
  rewrite IH, last_or_cons. tauto.
Qed.

Section Spec.
Variables nodelist lo hi : Z.
Context (Hlay : layout_ok nodelist lo hi).
Implicit Types (m : mem) (cs : list chunk).

Local Abbreviation inv := (heap_inv nodelist lo hi).
Local Abbreviation keeps := (keeps nodelist lo hi).

Definition guarded cs : Prop :=
  ∃ mid, cs = Chunk lo 8 Alloc :: mid ++ [Chunk (hi - 8) 8 Alloc] ∧
         Forall (λ c, 16 ≤ c_size c) mid.

Record heap_ok m cs : Prop := {
  ho_inv : ∃ es, inv m cs es;
  ho_settled : Forall (λ c, c_st c ≠ Limbo) cs;
  ho_guards : guarded cs;
  ho_coal : coal Alloc cs;
}.

(** The fields of mm_heap_s agree with the region. *)
Record state_ok (h : heap) cs : Prop := {
  so_heap : heap_ok (h_mem h) cs;
  so_start : mm_heapstart h = lo;
  so_end : mm_heapend h = hi - 8;
  so_size : mm_heapsize h = hi - lo;
}.

(** A block handed out by malloc: an allocated chunk other than the guards. *)
Definition live cs (c : chunk) : Prop :=
  c ∈ cs ∧ c_st c = Alloc ∧ lo < c_addr c ∧ c_addr c + c_size c < hi.

(** Neighbours exist on both sides of a chunk that is not a guard. *)
Lemma guarded_inside l1 c l2 :
  guarded (l1 ++ c :: l2) → c ≠ Chunk lo 8 Alloc → c ≠ Chunk (hi - 8) 8 Alloc →
  l1 ≠ [] ∧ l2 ≠ [].
Proof.
  intros (mid & E & _) H1 H2. split; intros ->.
  - simpl in E. by injection E.
  - apply H2. rewrite app_comm_cons in E. by apply app_inj_tail in E as [_ ->].
Qed.

Lemma guarded_replace l1 mid mid' l2 :
  guarded (l1 ++ mid ++ l2) → l1 ≠ [] → l2 ≠ [] → Forall (λ c, 16 ≤ c_size c) mid' →
  guarded (l1 ++ mid' ++ l2).
Proof.
  intros (k & E & Hk) H1 H2 Hm. destruct l1 as [|g l1]; [done|].
  destruct (list_snoc_cases l2) as [->|(l2' & g' & ->)]; [done|].
  simpl in E. injection E as -> E. rewrite !app_assoc in E. apply app_inj_tail in E as [E ->].
  exists (l1 ++ mid' ++ l2'). split; [by rewrite <-!app_assoc|].
  rewrite <-E, !Forall_app in Hk. rewrite !Forall_app. naive_solver.
Qed.

Lemma ho_size m cs c : heap_ok m cs → live cs c → 16 ≤ c_size c.
Proof.
  intros Hok (Hc & _ & Hl & Hh). destruct (ho_guards _ _ Hok) as (mid & -> & Hm).
  rewrite Forall_forall in Hm.
  apply elem_of_cons in Hc as [->|[Hc|Hc]%elem_of_app]; simpl in *; [lia|auto|].
  apply list_elem_of_singleton in Hc as ->. simpl in *. lia.
Qed.

Lemma free_inside m l1 c l2 :
  heap_ok m (l1 ++ c :: l2) → c_st c = Free → l1 ≠ [] ∧ l2 ≠ [].
Proof.
  intros Hok Hf. eapply guarded_inside; [apply (ho_guards _ _ Hok)|..]; by intros ->.
Qed.

Lemma live_split m cs c :
  heap_ok m cs → live cs c → ∃ l1 p n l2, cs = l1 ++ p :: c :: n :: l2.
Proof.
  intros Hok (Hc & Ha & Hl & Hh). apply list_elem_of_split in Hc as (l1 & l2 & ->).
  destruct (guarded_inside l1 c l2 (ho_guards _ _ Hok)) as [H1 H2];
    [intros ->; simpl in *; lia..|].
  destruct (list_snoc_cases l1) as [->|(l1' & p & ->)]; [done|].
  destruct l2 as [|n l2]; [done|]. exists l1', p, n, l2. by rewrite <-app_assoc.
Qed.

(** ** mm_malloc *)

(** The abstract step of an allocation of [s] bytes, header included. *)
Definition malloc_step cs (s r : Z) cs' : Prop :=
  (r = NULL ∧ cs' = cs ∧ ∀ c, c ∈ cs → c_st c = Free → c_size c < s) ∨
  ∃ l1 c l2, cs = l1 ++ c :: l2 ∧ c_st c = Free ∧ s ≤ c_size c ∧
    (∀ c', c' ∈ cs → c_st c' = Free → s ≤ c_size c' → c_size c ≤ c_size c') ∧
    r = c_addr c + 8 ∧ cs' = l1 ++ carve c s ++ l2.

Lemma coal_carve l1 c s l2 :
  coal Alloc (l1 ++ c :: l2) → c_st c = Free → coal Alloc (l1 ++ carve c s ++ l2).
Proof.
  intros Hc Hf. apply coal_app in Hc as [H1 H2]. rewrite coal_app. split; [done|].
  simpl in H2. rewrite Hf in H2. destruct H2 as [H2 H3]. unfold carve.
  destruct (16 <=? _); simpl; naive_solver (destruct l2; simpl in *; naive_solver).
Qed.

Lemma carve_ok c s :
  16 ≤ s → s ≤ c_size c →
  Forall (λ d, 16 ≤ c_size d) (carve c s) ∧ Forall (λ d, c_st d ≠ Limbo) (carve c s).
Proof.
  intros. unfold carve. destruct (Z.leb_spec 16 (c_size c - s));
    split; repeat constructor; simpl; try lia; done.
Qed.

Lemma heap_ok_carve m m' l1 c s l2 es' :
  heap_ok m (l1 ++ c :: l2) → c_st c = Free → 16 ≤ s → s ≤ c_size c →
  inv m' (l1 ++ carve c s ++ l2) es' → heap_ok m' (l1 ++ carve c s ++ l2).
Proof.
  intros Hok Hf H16 Hs Hinv. destruct (free_inside _ _ _ _ Hok Hf) as [N1 N2].
  destruct (carve_ok c s) as [W1 W2]; [done..|]. pose proof Hok as [_ Hse Hg Hco]. split.
  - eauto.
  - rewrite !Forall_app in *. rewrite Forall_cons in Hse. naive_solver.
  - by eapply (guarded_replace l1 [c]).
  - by apply coal_carve.
Qed.

Lemma malloc_chunk_ok m cs s :
  heap_ok m cs → s `mod` 8 = 0 → 16 ≤ s →
  returns (mm_malloc_chunk nodelist s) m (λ r m', ∃ cs',
    malloc_step cs s r cs' ∧ heap_ok m' cs' ∧ keeps cs m m').
Proof.
  intros Hok Hs8 Hs. destruct (ho_inv _ _ Hok) as [es Hinv].
  eapply returns_mono; [apply (mm_malloc_chunk_spec _ _ _ Hlay m cs es s); try done|].
  { intros l1 c l2 -> Hf. by apply (free_inside m l1 c l2). }
  simpl. intros r m' [(-> & -> & Hnone)|(l1 & c & l2 & es' & -> & Hf & Hsz & Hbest & -> & Hinv' & K)].
  - exists cs. split_and!; [by left|done|apply keeps_refl].
  - exists (l1 ++ carve c s ++ l2). split_and!; [|by eapply heap_ok_carve|done].
    right. exists l1, c, l2. done.
Qed.

(** ** mm_free *)

(** The abstract step of a free: the chunk and its free neighbours become
    one free chunk. *)
Definition free_step cs (c : chunk) cs' : Prop :=
  ∃ l1 q r l2, cs = l1 ++ q ++ c :: r ++ l2 ∧ Forall is_free q ∧ Forall is_free r ∧
    cs' = l1 ++ Chunk (c_addr (hd_or c q)) (sumsz q + c_size c + sumsz r) Free :: l2.

(** What is left of the free chunks before and after. *)
Lemma coal_before l1 p l1' q :
  coal Alloc (l1 ++ [p]) → l1 ++ [p] = l1' ++ q → Forall is_free q →
  (q = [] → c_st p ≠ Free) → (q ≠ [] → l1' = l1) → coal Alloc l1' ∧ last_or Alloc (c_st <$> l1') ≠ Free.
Proof.
  intros Hc E Hq H0 H1. destruct q as [|x q].
  - rewrite app_nil_r in E. subst l1'. split; [done|].
    rewrite fmap_app. simpl. rewrite last_or_snoc. by apply H0.
  - rewrite (H1 ltac:(done)) in E. apply app_inv_head in E. rewrite H1 by done.
    injection E as -> <-. apply Forall_cons in Hq as [Hx _].
    apply coal_app in Hc as (Hc & [Hl _]). split; [done|]. intros E. by apply Hl.
Qed.

Lemma coal_after n l2 r l2' :
  coal Alloc (n :: l2) → n :: l2 = r ++ l2' → Forall is_free r → (r = [] → c_st n ≠ Free) →
  coal Free l2'.
Proof.
  intros Hc E Hr H0. destruct r as [|x r].
  - simpl in E. rewrite <-E. simpl in *. specialize (H0 eq_refl). naive_solver.
  - injection E as -> ->. apply Forall_cons in Hr as [Hx Hr]. unfold is_free in Hx.
    simpl in Hc. rewrite Hx in Hc. destruct Hc as [_ Hc].
    destruct r as [|y r]; [done|]. apply Forall_cons in Hr as [Hy _].
    destruct Hc as [Hc _]. exfalso. by apply Hc.
Qed.

Lemma sumsz_nonneg l : Forall (λ c, 0 ≤ c_size c) l → 0 ≤ sumsz l.
Proof. induction 1; simpl; lia. Qed.

Lemma free_chunk_ok m cs c :
  heap_ok m cs → live cs c →
  returns (mm_free_chunk nodelist (c_addr c + 8)) m (λ _ m', ∃ cs',
    free_step cs c cs' ∧ heap_ok m' cs' ∧ keeps cs' m m').
Proof.
  intros Hok Hlive. pose proof (ho_size _ _ _ Hok Hlive) as H16.
  destruct (live_split _ _ _ Hok Hlive) as (l1 & p & n & l2 & E).
  destruct Hlive as (_ & Ha & _). pose proof Hok as [[es Hinv] Hse Hg Hco].
  pose proof Hinv as Hinv0. rewrite E in Hinv0.
  assert (Hlim : ∀ x, x ∈ cs → c_st x ≠ Limbo) by (by rewrite Forall_forall in Hse).
  assert (Hn2 : c_st n = Free → l2 ≠ []).
  { intros Hn. apply (free_inside m (l1 ++ [p; c]) n l2); [|done]. rewrite <-app_assoc. simpl. by rewrite <-E. }
  eapply returns_mono; [apply (mm_free_chunk_spec _ _ _ Hlay m l1 p c n l2 es); try done|].
  { apply Hlim. rewrite E. set_solver. }
  { apply Hlim. rewrite E. set_solver. }
  simpl. intros _ m' (l1' & q & r & l2' & es' & Eq & Hq & Hq0 & Hq1 & Er & Hr & Hr0 & Hl2 & Hinv' & K).
  assert (E2 : cs = l1' ++ (q ++ c :: r) ++ l2').
  { rewrite E, (cons_middle p), app_assoc, Eq, Er, <-!app_assoc. done. }
  assert (E3 : cs = (l1 ++ [p]) ++ [c] ++ n :: l2) by (by rewrite E, <-app_assoc).
  set (big := Chunk _ _ Free) in *. exists (l1' ++ big :: l2'). split_and!; [|split|done].
  - exists l1', q, r, l2'. rewrite E2, <-app_assoc. done.
  - eauto.
  - rewrite E2 in Hse. rewrite !Forall_app in Hse. rewrite Forall_app, Forall_cons. naive_solver.
  - eapply (guarded_replace l1' (q ++ c :: r) [big] l2'); [by rewrite <-E2| |done|].
    + intros ->. simpl in *. destruct Hg as (mid & Eg & _). destruct q as [|x q]; [by destruct l1|].
      rewrite E2 in Eg. injection Eg as -> _. by apply Forall_cons in Hq as [? _].
    + constructor; [|done]. simpl.
      assert (Hpos : ∀ l, l ⊆ cs → 0 ≤ sumsz l).
      { intros l Hl. apply sumsz_nonneg. rewrite Forall_forall. intros x Hx.
        pose proof (chunk_bounds _ _ _ Hlay Hinv x ltac:(auto)). lia. }
      pose proof (Hpos q ltac:(rewrite E2; set_solver)).
      pose proof (Hpos r ltac:(rewrite E2; set_solver)). lia.
  - rewrite E3, coal_app in Hco. destruct Hco as [Hco1 Hco2]. simpl in Hco2. rewrite Ha in Hco2.
    destruct (coal_before l1 p l1' q) as [C1 C2]; [done..|].
    apply coal_app. split; [done|]. simpl. split; [tauto|]. eapply coal_after; [|done..]. apply Hco2.
Qed.

(** ** mm_shrinkchunk *)

Definition shrink_step cs (c : chunk) (s : Z) cs' : Prop :=
  ∃ l1 r l2, cs = l1 ++ c :: r ++ l2 ∧ Forall is_free r ∧ cs' = shrunk l1 c s r l2.

Lemma sumsz_free m cs es r :
  inv m cs es → r ⊆ cs → Forall is_free r → 0 ≤ sumsz r ∧ (r ≠ [] → 16 ≤ sumsz r).
Proof.
  intros Hinv. induction r as [|x r IH]; simpl; [done|]. intros Hsub [Hx Hr]%Forall_cons.
  destruct IH as [H0 _]; [set_solver|done|].
  pose proof (chunk_bounds _ _ _ Hlay Hinv x ltac:(set_solver)) as (_ & _ & _ & _ & _ & H16).
  unfold is_free in Hx. rewrite Hx in H16. specialize (H16 ltac:(done)). lia.
Qed.

Lemma shrink_chunk_ok m cs c s :
  heap_ok m cs → live cs c → s `mod` 8 = 0 → 16 ≤ s ≤ c_size c →
  returns (mm_shrinkchunk nodelist (c_addr c) s) m (λ _ m', ∃ cs',
    shrink_step cs c s cs' ∧ heap_ok m' cs' ∧ keeps cs' m m').
Proof.
  intros Hok Hlive Hs8 Hs. destruct (live_split _ _ _ Hok Hlive) as (l1 & p & n & l2 & E).
  destruct Hlive as (_ & Ha & _). pose proof Hok as [[es Hinv] Hse Hg Hco].
  rewrite (cons_middle p l1), app_assoc in E. set (k1 := l1 ++ [p]) in *.
  assert (Hlim : ∀ x, x ∈ cs → c_st x ≠ Limbo) by (by rewrite Forall_forall in Hse).
  assert (Hn2 : c_st n = Free → l2 ≠ []).
  { intros Hn. apply (free_inside m (k1 ++ [c]) n l2); [|done]. rewrite <-app_assoc. simpl. by rewrite <-E. }
  pose proof Hinv as Hinv0. rewrite E in Hinv0.
  eapply returns_mono; [apply (mm_shrinkchunk_spec _ _ _ Hlay m k1 c n l2 es s); try done|].
  { apply Hlim. rewrite E. set_solver. }
  simpl. intros _ m' (r & l2' & es' & Er & Hr & Hr0 & Hl2 & Hinv' & K). exists (shrunk k1 c s r l2').
  split_and!; [|split|done].
  - exists k1, r, l2'. by rewrite E, Er.
  - eauto.
  - unfold shrunk. rewrite E, Er, Forall_app, Forall_cons, Forall_app in Hse.
    destruct (_ || _); rewrite Forall_app, !Forall_cons; naive_solver.
  - assert (Hk1 : k1 ≠ []) by (subst k1; by destruct l1).
    assert (Hg' : guarded (k1 ++ (c :: r) ++ l2')) by (simpl; by rewrite <-Er, <-E).
    destruct (sumsz_free _ _ _ r Hinv) as [Hr0' Hr']; [rewrite E, Er; set_solver|done|].
    unfold shrunk. destruct (_ || _) eqn:Ec.
    + eapply (guarded_replace k1 (c :: r) [_; _] l2'); try done. repeat constructor; simpl; [lia|].
      apply orb_true_iff in Ec as [Ec|Ec]; [|lia]. apply negb_true_iff, bool_decide_eq_false in Ec.
      specialize (Hr' Ec). lia.
    + apply orb_false_iff in Ec as [Ec _]. apply negb_false_iff, bool_decide_eq_true in Ec as ->. done.
  - rewrite E, coal_app in Hco. destruct Hco as [Hco1 [Hco2 Hco3]]. rewrite Ha in Hco2, Hco3.
    assert (Hco4 : coal Free l2') by (eapply coal_after; done).
    unfold shrunk. destruct (_ || _) eqn:Ec; apply coal_app; (split; [done|]); simpl.
    + naive_solver.
    + rewrite Ha. split; [done|]. apply orb_false_iff in Ec as [Ec _].
      apply negb_false_iff, bool_decide_eq_true in Ec as ->. simpl in Er. by rewrite <-Er.
Qed.

(** ** The owner of a block *)

(** The owner of a block may write it: no word of a live block matters to the
    heap. *)
Lemma heap_inv_user m m' cs es :
  inv m cs es → dom m' = dom m → (∀ w, ¬ user_word nodelist lo hi cs w → m' !! w = m !! w) →
  inv m' cs es.
Proof.
  intros Hinv D H. pose proof Hinv as [Ht Hw Hh Hd Hso Hp Hs Hm].
  assert (Hhook : ∀ i k, 0 ≤ i < 19 → 0 ≤ k < 16 → ¬ user_word nodelist lo hi cs (mm_nodelist nodelist i + k)).
  { intros i k Hi Hk [(c & Hc & _ & Hcw)|Hout].
    - pose proof (chunk_bounds _ _ _ Hlay Hinv c Hc). pose proof (lay_apart _ _ _ Hlay).
      unfold mm_nodelist in *. lia.
    - unfold mm_nodelist in *. lia. }
  split; try done.
  - revert Hh. apply hdrs_frame. intros c Hc.
    pose proof (chunk_bounds _ _ _ Hlay Hinv c Hc) as (_ & _ & _ & _ & ? & _).
    split; apply H, (heap_word _ _ _ Hlay _ _ _ c _ Hinv Hc); lia.
  - revert Hd. apply dseg_frame. intros x (e & -> & He)%list_elem_of_fmap.
    rewrite <-Z.add_assoc. destruct (entry_cases _ _ _ Hinv e He) as [(i & Hi & ->)|(c & Hc & Hf & ->)].
    + split; apply H, Hhook; lia.
    + pose proof (chunk_bounds _ _ _ Hlay Hinv c Hc) as (_ & _ & _ & _ & _ & H16).
      rewrite Hf in H16. specialize (H16 ltac:(done)).
      split; apply H, (heap_word _ _ _ Hlay _ _ _ c _ Hinv Hc); simpl; try lia; right; by rewrite Hf.
  - intros i Hi. rewrite H; [by apply Hs|]. rewrite <-(Z.add_0_r (mm_nodelist nodelist i)). by apply Hhook.
  - intros w Hw1 Hw2. rewrite <-elem_of_dom, D, elem_of_dom. by apply Hm.
Qed.

Lemma heap_ok_user m m' cs :
  heap_ok m cs → dom m' = dom m → (∀ w, ¬ user_word nodelist lo hi cs w → m' !! w = m !! w) →
  heap_ok m' cs.
Proof.
  intros [[es Hinv] H1 H2 H3] D H. split; [|done..]. exists es. by eapply heap_inv_user.
Qed.

Lemma inside_live m l1 c l2 es :
  inv m (l1 ++ c :: l2) es → l1 ≠ [] → l2 ≠ [] → c_st c = Alloc → live (l1 ++ c :: l2) c.
Proof.
  intros Hinv H1 H2 Ha. pose proof Hinv as [Ht Hw _ _ _ _ _ _].
  apply tile_split in Ht as [T1 T2]. apply Forall_app in Hw as [W1 [_ W2]%Forall_cons].
  destruct l1 as [|x l1]; [done|]. destruct l2 as [|y l2]; [done|].
  destruct T1 as [_ T1], T2 as [_ T2].
  apply Forall_cons in W1 as [(_ & X8 & _) W1]. apply Forall_cons in W2 as [(_ & Y8 & _) W2].
  pose proof (tile_le _ _ _ T1 W1). pose proof (tile_le _ _ _ T2 W2).
  split_and!; [set_solver|done|lia|lia].
Qed.

Lemma carve_cons c s :
  ∃ z rest, carve c s = Chunk (c_addr c) z Alloc :: rest ∧ z + sumsz rest = c_size c ∧
    Forall is_free rest ∧ (length rest ≤ 1)%nat ∧ (s ≤ c_size c → s ≤ z).
Proof.
  unfold carve. destruct (16 <=? c_size c - s); eexists _, _; (split; [done|]); simpl;
    (split_and!; [lia|repeat constructor|lia|lia]).
Qed.

(** A successful malloc yields a live block of the size asked for. *)
Lemma malloc_live m m' cs s r cs' :
  heap_ok m cs → malloc_step cs s r cs' → heap_ok m' cs' → r ≠ NULL →
  ∃ c, live cs' c ∧ r = c_addr c + 8 ∧ s ≤ c_size c ∧ r `mod` 8 = 0.
Proof.
  intros Hok [(-> & _)|(l1 & c & l2 & -> & Hf & Hs & _ & -> & ->)] Hok' Hr; [done|].
  destruct (free_inside _ _ _ _ Hok Hf) as [N1 N2]. destruct (ho_inv _ _ Hok') as [es' Hinv'].
  destruct (carve_cons c s) as (z & rest & Ec & _ & _ & _ & Hz). rewrite Ec in *. simpl in *.
  exists (Chunk (c_addr c) z Alloc).
  pose proof (chunk_bounds _ _ _ Hlay Hinv' (Chunk (c_addr c) z Alloc) ltac:(set_solver)) as (_ & _ & Hm & _).
  split_and!; [|done|simpl; lia|simpl in Hm; mod_lia].
  eapply inside_live; [done..| |done]. by destruct rest.
Qed.

(** Freeing what was just allocated gives back the chunks there were. *)
Lemma malloc_free_step m m' m'' cs s r cs' c' cs'' :
  heap_ok m cs → malloc_step cs s r cs' → heap_ok m' cs' → live cs' c' → r = c_addr c' + 8 → r ≠ NULL →
  free_step cs' c' cs'' → heap_ok m'' cs'' → cs'' = cs.
Proof.
  intros Hok [(-> & _)|(l1 & c & l2 & -> & Hf & Hs & _ & -> & ->)] Hok' Hlive Hr Hnz
    (k1 & q & k & k2 & E & Hq & Hk & ->) Hok''; [done|].
  destruct (carve_cons c s) as (z & rest & Ec & Hz & Hrest & Hlen & _). rewrite Ec in *. simpl in *.
  destruct (ho_inv _ _ Hok') as [es' Hinv'].
  assert (c' = Chunk (c_addr c) z Alloc) as ->.
  { eapply (chunk_inj _ _ _ Hinv'); [apply Hlive|set_solver|simpl; lia]. }
  rewrite app_assoc in E. apply nodup_split_unique in E as [-> E].
  2:{ apply (NoDup_fmap_1 c_addr). by eapply cs_nodup. }
  pose proof (ho_coal _ _ Hok) as Hco. apply coal_app in Hco as [Hco1 [Hco2 Hco3]]. rewrite Hf in Hco2, Hco3.
  assert (q = []) as ->.
  { destruct (list_snoc_cases q) as [->|(q' & x & ->)]; [done|]. exfalso. apply Hco2. split; [|done].
    rewrite app_assoc, fmap_app. simpl. rewrite last_or_snoc.
    apply Forall_app in Hq as [_ [Hx _]%Forall_cons]. done. }
  assert (Hl2 : ∀ x l, l2 = x :: l → c_st x ≠ Free) by (intros x l -> Hx; by apply Hco3).
  assert (k = rest ∧ k2 = l2) as [-> ->].
  { destruct rest as [|R [|? ?]]; [|..|simpl in Hlen; lia].
    - destruct k as [|x k]; [done|]. simpl in E. apply Forall_cons in Hk as [Hx _]. by destruct (Hl2 _ _ E).
    - destruct k as [|x k]; simpl in E.
      + subst k2. pose proof (ho_coal _ _ Hok'') as Hco4. apply coal_app in Hco4 as [_ [_ [Hco4 _]]].
        apply Forall_cons in Hrest as [HR _]. destruct Hco4. done.
      + injection E as -> E. destruct k as [|y k]; [done|]. apply Forall_cons in Hk as [_ [Hy _]%Forall_cons].
        by destruct (Hl2 _ _ E). }
  rewrite app_nil_r, hd_or_nil. simpl. destruct c as [a sz st]. simpl in *. subst st.
  do 3 f_equal. lia.
Qed.
End Spec.
