(* ===== verification/MmInit.v ===== *)
(** Setting up a heap: mm_initialize and mm_addregion establish [heap_ok]; and
    mm_mallinfo, the walk over the chunks and its totals. *)

From stdpp Require Import sorting.
From S2P Require Import Prelude Links MmHeap MmApi MmInv MmSteps MmOps MmSpec.

(** * Initialization *)

(** * memset *)
Lemma memset_words_spec n a m :
  (∀ i, 0 ≤ i < Z.of_nat n → is_Some (m !! (a + 4 * i))) →
  returns (memset_words n a) m (λ _ m', dom m' = dom m ∧
    (∀ i, 0 ≤ i < Z.of_nat n → m' !! (a + 4 * i) = Some 0) ∧
    (∀ w, (∀ i, 0 ≤ i < Z.of_nat n → w ≠ a + 4 * i) → m' !! w = m !! w)).
Proof.
  revert a m. induction n as [|n IH]; intros a m Hm; simpl.
  { apply returns_ret. split_and!; [done|lia|done]. }
  apply returns_bind, returns_store.
  { specialize (Hm 0). rewrite Z.add_0_r in Hm. apply Hm. lia. }
  assert (Ha : is_Some (m !! a)).
  { specialize (Hm 0). rewrite Z.add_0_r in Hm. apply Hm. lia. }
  eapply returns_mono; [apply IH|].
  - intros i Hi. rewrite lookup_insert_ne by lia.
    replace (a + 4 + 4 * i) with (a + 4 * (i + 1)) by lia. apply Hm. lia.
  - simpl. intros _ m' (D & H1 & H2). split_and!.
    + rewrite D. by apply dom_insert_lookup_L.
    + intros i Hi. destruct (decide (i = 0)) as [->|].
      * rewrite Z.add_0_r, H2 by lia. by rewrite lookup_insert_eq.
      * replace (a + 4 * i) with (a + 4 + 4 * (i - 1)) by lia. apply H1. lia.
    + intros w Hw. rewrite H2.
      * rewrite lookup_insert_ne; [done|]. specialize (Hw 0). lia.
      * intros i Hi. specialize (Hw (i + 1)). lia.
Qed.

Lemma low_bits_zero v k : 0 ≤ k → (Z.shiftl (Z.shiftr v k) k) `mod` 2 ^ k = 0.
Proof. intros Hk. rewrite Z.shiftl_mul_pow2 by lia. by apply Z.mod_mul, Z.pow_nonzero. Qed.

(** Clearing [n] bytes at a word address: whole words become zero, of a last
    partial word the low bytes. *)
Lemma memset0_spec a n m :
  0 ≤ n → a `mod` 4 = 0 → (∀ w, a ≤ w < a + n → w `mod` 4 = 0 → is_Some (m !! w)) →
  returns (memset0 a n) m (λ _ m', dom m' = dom m ∧
    (∀ w, a ≤ w < a + n → w `mod` 4 = 0 → ∃ v, m' !! w = Some v ∧ v `mod` 2 ^ (8 * Z.min 4 (a + n - w)) = 0) ∧
    (∀ w, ¬ (a ≤ w < a + n) → m' !! w = m !! w)).
Proof.
  intros Hn Ha Hm. unfold memset0. apply returns_bind.
  eapply returns_mono; [apply memset_words_spec|].
  { intros i Hi. rewrite Z2Nat.id in Hi by mod_lia. apply Hm; mod_lia. }
  intros _ m1 (D & Z1 & O). rewrite Z2Nat.id in Z1, O by mod_lia.
  assert (Z2 : ∀ w, a ≤ w → w + 4 ≤ a + n → w `mod` 4 = 0 → m1 !! w = Some 0).
  { intros w Hw Hw2 Hw4. replace w with (a + 4 * ((w - a) / 4)) by mod_lia. apply Z1. mod_lia. }
  destruct (Z.eqb_spec (n `mod` 4) 0) as [E|E].
  { apply returns_ret. split_and!; [done| |].
    - intros w Hw Hw4. exists 0. split; [apply Z2; mod_lia|]. by rewrite Z.mod_0_l by (apply Z.pow_nonzero; lia).
    - intros w Hw. apply O. mod_lia. }
  set (w0 := a + 4 * (n / 4)). assert (Hw0 : a ≤ w0 < a + n ∧ w0 `mod` 4 = 0 ∧ a + n - w0 = n `mod` 4) by mod_lia.
  destruct Hw0 as (Hw0 & Hw4 & Hlen). destruct (Hm w0 Hw0 Hw4) as [v Hv].
  assert (Hv1 : m1 !! w0 = Some v) by (rewrite O; [done|subst w0; lia]).
  rsteps. split_and!.
  - rewrite dom_insert_lookup_L; [done|by eexists].
  - intros w Hw Hwm. destruct (decide (w = w0)) as [->|Hne].
    + rewrite lookup_insert_eq, Hlen. eexists. split; [done|].
      rewrite Z.min_r by mod_lia. apply low_bits_zero. mod_lia.
    + exists 0. rewrite lookup_insert_ne by done. split; [apply Z2; subst w0; mod_lia|].
      by rewrite Z.mod_0_l by (apply Z.pow_nonzero; lia).
  - intros w Hw. rewrite lookup_insert_ne by lia. apply O. mod_lia.
Qed.

Section Init.
Variables nodelist lo hi : Z.
Context (Hlay : layout_ok nodelist lo hi).
Implicit Types (m : mem).
Local Abbreviation hook := (mm_nodelist nodelist).

(** The chaining loop: hook [j] points to its neighbours, for the hooks the
    loop visited. *)
Lemma initialize_hooks_spec n i m :
  1 ≤ i →
  (∀ j, i - 1 ≤ j < i + Z.of_nat n → is_Some (m !! (hook j + 8)) ∧ is_Some (m !! (hook j + 12))) →
  returns (mm_initialize_hooks nodelist n i) m (λ _ m', dom m' = dom m ∧
    (∀ j, i - 1 ≤ j < i - 1 + Z.of_nat n → m' !! (hook j + 8) = Some (hook (j + 1))) ∧
    (∀ j, i ≤ j < i + Z.of_nat n → m' !! (hook j + 12) = Some (hook (j - 1))) ∧
    (∀ w, (∀ j, i - 1 ≤ j < i - 1 + Z.of_nat n → w ≠ hook j + 8) →
          (∀ j, i ≤ j < i + Z.of_nat n → w ≠ hook j + 12) → m' !! w = m !! w)).
Proof.
  unfold mm_nodelist. revert i m. induction n as [|n IH]; intros i m Hi Hm; cbn [mm_initialize_hooks].
  { apply returns_ret. split_and!; try lia; done. }
  unfold MFLINK, MBLINK, mm_nodelist. destruct (Hm (i - 1)) as [A1 _]; [lia|].
  destruct (Hm i) as [_ A2]; [lia|].
  apply returns_bind, returns_store; [done|]. apply returns_bind, returns_store.
  { by rewrite lookup_insert_ne by lia. }
  eapply returns_mono; [apply IH; [lia|]|].
  - intros j Hj. split; rewrite !lookup_insert_is_Some'; right; right; apply Hm; lia.
  - simpl. intros _ m' (D & F & B & O). split_and!.
    + rewrite D, !dom_insert_lookup_L; [done|done|]. by rewrite lookup_insert_ne by lia.
    + intros j Hj. destruct (decide (j = i - 1)) as [->|]; [|apply F; lia].
      rewrite O by lia. rewrite lookup_insert_ne by lia. rewrite lookup_insert_eq.
      f_equal. lia.
    + intros j Hj. destruct (decide (j = i)) as [->|]; [|apply B; lia].
      rewrite O by lia. by rewrite lookup_insert_eq.
    + intros w Hf Hb. rewrite O.
      * rewrite !lookup_insert_ne; [done|specialize (Hf (i - 1)); lia|specialize (Hb i); lia].
      * intros j Hj. apply Hf. lia.
      * intros j Hj. apply Hb. lia.
Qed.

Lemma hooks_dseg m n i p :
  (∀ j, Z.of_nat i ≤ j < Z.of_nat (i + n) →
     m !! (hook j + 8) = Some (if j =? Z.of_nat (i + n) - 1 then NULL else hook (j + 1)) ∧
     m !! (hook j + 12) = Some (if j =? Z.of_nat i then p else hook (j - 1))) →
  dseg 8 m p ((λ k, hook (Z.of_nat k)) <$> seq i n) NULL.
Proof.
  revert i p. induction n as [|n IH]; intros i p H; simpl; [done|].
  destruct (H (Z.of_nat i)) as [H1 H2]; [lia|]. split_and!.
  - rewrite H1. f_equal. destruct n as [|n]; simpl.
    + rewrite (proj2 (Z.eqb_eq _ _)) by lia. done.
    + rewrite (proj2 (Z.eqb_neq _ _)) by lia. rewrite hd_or_cons. f_equal. lia.
  - rewrite Z.eqb_refl in H2. by replace (hook (Z.of_nat i) + 8 + 4) with (hook (Z.of_nat i) + 12) by lia.
  - apply IH. intros j Hj. destruct (H j) as [J1 J2]; [lia|]. rewrite J1, J2. split.
    + by replace (Z.of_nat (S i + n)) with (Z.of_nat (i + S n)) by lia.
    + rewrite (proj2 (Z.eqb_neq j (Z.of_nat i))) by lia.
      destruct (Z.eqb_spec j (Z.of_nat (S i))) as [->|]; [|done]. do 2 f_equal. lia.
Qed.

Lemma sentinels_sorted n i :
  StronglySorted (λ e e', ekey nodelist e ≤ ekey nodelist e')
    ((λ k : nat, (hook (Z.of_nat k), 0)) <$> seq i n).
Proof.
  revert i. induction n as [|n IH]; intros i; simpl; constructor; [apply IH|].
  rewrite Forall_forall. intros e (k & -> & Hk%elem_of_seq)%list_elem_of_fmap.
  rewrite !ekey_hook. apply Z.pow_le_mono_r; lia.
Qed.

(** The memory of the list hooks after memset and the chaining loop. *)
Lemma hooks_setup m :
  (∀ i, 0 ≤ i < 76 → is_Some (m !! (nodelist + 4 * i))) →
  returns (memset0 nodelist (SIZEOF_MM_FREENODE * MM_NNODES);;
           mm_initialize_hooks nodelist (Z.to_nat (MM_NNODES - 1)) 1) m (λ _ m',
    dom m' = dom m ∧ dseg 8 m' NULL (sentinels nodelist).*1 NULL ∧
    (∀ i, 0 ≤ i < 19 → m' !! hook i = Some 0) ∧
    (∀ w, w < nodelist ∨ nodelist + 304 ≤ w → m' !! w = m !! w)).
Proof.
  intros Hm. unfold memset0. change (SIZEOF_MM_FREENODE * MM_NNODES) with 304.
  change (304 / 4) with 76. change (304 `mod` 4) with 0. simpl (_ =? _). cbv iota.
  rewrite <-(Z2Nat.id 76) in Hm by lia.
  apply returns_bind, returns_bind.
  eapply returns_mono; [apply (memset_words_spec _ _ _ Hm)|].
  intros _ m1 (D1 & Z1 & O1). apply returns_ret.
  assert (Z1' : ∀ w, nodelist ≤ w < nodelist + 304 → (w - nodelist) `mod` 4 = 0 → m1 !! w = Some 0).
  { intros w Hw Hw4. replace w with (nodelist + 4 * ((w - nodelist) / 4)) by mod_lia.
    apply Z1. rewrite Z2Nat.id by lia. mod_lia. }
  assert (Zh : ∀ j k, 0 ≤ j < 19 → k = 0 ∨ k = 8 ∨ k = 12 → m1 !! (hook j + k) = Some 0).
  { intros j k Hj Hk. unfold mm_nodelist. apply Z1'; [lia|]. mod_lia. }
  eapply returns_mono; [apply (initialize_hooks_spec 18 1 m1); [lia|]|].
  { intros j Hj. split; eexists; apply Zh; lia. }
  intros _ m2 (D2 & F & B & O2). split_and!.
  - congruence.
  - unfold sentinels. rewrite <-list_fmap_compose. eapply (hooks_dseg m2 19 0 NULL).
    intros j Hj. change (Z.of_nat (0 + 19) - 1) with 18. change (Z.of_nat 0) with 0. split.
    + destruct (Z.eqb_spec j 18) as [->|]; [|apply F; lia].
      rewrite O2; [apply Zh; lia|unfold mm_nodelist; lia..].
    + destruct (Z.eqb_spec j 0) as [->|]; [|apply B; lia].
      rewrite O2; [apply Zh; lia|unfold mm_nodelist; lia..].
  - intros i Hi. rewrite O2; [|unfold mm_nodelist; lia..].
    rewrite <-(Z.add_0_r (hook i)). apply Zh; lia.
  - intros w Hw. rewrite O2; [|unfold mm_nodelist; lia..]. apply O1. lia.
Qed.

(** The chunks of a fresh heap, the middle one still off the list. *)
Definition fresh_chunks (st : cstat) : list chunk :=
  [Chunk lo 8 Alloc; Chunk (lo + 8) (hi - lo - 16) st; Chunk (hi - 8) 8 Alloc].

Context (Hroom : lo + 32 ≤ hi) (Hhi8 : hi `mod` 8 = 0).

Lemma fresh_inv m :
  dseg 8 m NULL (sentinels nodelist).*1 NULL → (∀ i, 0 ≤ i < 19 → m !! hook i = Some 0) →
  (∀ w, lo ≤ w < hi → w `mod` 4 = 0 → is_Some (m !! w)) →
  hdrs m 0 (fresh_chunks Limbo) → heap_inv nodelist lo hi m (fresh_chunks Limbo) (sentinels nodelist).
Proof.
  intros Hd Hs Hm Hh. pose proof (lay_region _ _ _ Hlay) as (_ & _ & _ & Hlo8 & _). split; try done.
  - simpl. lia.
  - repeat constructor; simpl; try done; mod_lia.
  - apply sentinels_sorted.
Qed.

Lemma fresh_ok m es :
  heap_inv nodelist lo hi m (fresh_chunks Free) es → heap_ok nodelist lo hi m (fresh_chunks Free).
Proof.
  intros Hinv. split; [eauto|by repeat constructor| |simpl; naive_solver].
  exists [Chunk (lo + 8) (hi - lo - 16) Free]. split; [done|]. repeat constructor. simpl. lia.
Qed.

(** mm_addregion on a heap whose node list is empty. *)
Lemma addregion_spec heapstart heapsize h :
  lo = MM_ALIGN_UP heapstart → hi = MM_ALIGN_DOWN (u32 (heapstart + heapsize)) →
  mm_heapsize h = 0 →
  dseg 8 (h_mem h) NULL (sentinels nodelist).*1 NULL →
  (∀ i, 0 ≤ i < 19 → h_mem h !! hook i = Some 0) →
  (∀ w, lo ≤ w < hi → w `mod` 4 = 0 → is_Some (h_mem h !! w)) →
  returns (mm_addregion nodelist heapstart heapsize) h (λ _ h',
    state_ok nodelist lo hi h' (fresh_chunks Free) ∧
    mm_semaphore h' = mm_semaphore h ∧ mm_holder h' = mm_holder h ∧ mm_counts_held h' = mm_counts_held h).
Proof.
  intros Elo Ehi Hsz Hd Hs Hm. destruct h as [m sem holder counts sz st en].
  cbn [h_mem mm_heapsize mm_semaphore mm_holder mm_counts_held] in *.
  pose proof (lay_region _ _ _ Hlay) as (Hlo & _ & Hhi & Hlo8 & Hspan).
  unfold mm_addregion, onmem, SIZE, PRECEDING, SIZEOF_MM_ALLOCNODE. rewrite <-Elo, <-Ehi.
  assert (M1 : is_Some (m !! lo)) by (apply Hm; mod_lia).
  assert (M2 : is_Some (m !! (lo + 4))) by (apply Hm; mod_lia).
  assert (M3 : is_Some (m !! (lo + 8))) by (apply Hm; mod_lia).
  assert (M4 : is_Some (m !! (lo + 12))) by (apply Hm; mod_lia).
  assert (M5 : is_Some (m !! (hi - 8))) by (apply Hm; mod_lia).
  assert (M6 : is_Some (m !! (hi - 4))) by (apply Hm; mod_lia).
  rewrite Hsz, !(u32_small (hi - lo)), (u32_small (hi - lo - 2 * 8)) by lia. rsteps.
  set (m1 := <[hi - 8 + 4:=_]> _).
  assert (W : writes [lo; lo + 4; lo + 8; lo + 12; hi - 8; hi - 4] m m1).
  { subst m1. replace (lo + 8 + 4) with (lo + 12) by lia. replace (hi - 8 + 4) with (hi - 4) by lia. wrote. }
  assert (O : ∀ w, w < lo ∨ hi ≤ w → m1 !! w = m !! w).
  { intros w Hw. apply W. rewrite !elem_of_cons, elem_of_nil. lia. }
  assert (Hn : ∀ i k, 0 ≤ i < 19 → 0 ≤ k < 16 → m1 !! (hook i + k) = m !! (hook i + k)).
  { intros i k Hi Hk. apply O. pose proof (lay_apart _ _ _ Hlay). unfold mm_nodelist. lia. }
  assert (Hinv : heap_inv nodelist lo hi m1 (fresh_chunks Limbo) (sentinels nodelist)).
  { apply fresh_inv.
    - revert Hd. apply dseg_frame. intros x (e & -> & He)%list_elem_of_fmap.
      apply sentinel_elem in He as (i & Hi & ->). simpl. rewrite <-Z.add_assoc. split; apply Hn; lia.
    - intros i Hi. rewrite <-(Z.add_0_r (hook i)), Hn, Z.add_0_r by lia. by apply Hs.
    - intros w Hw Hw4. apply (writes_mapped _ _ _ w W). by apply Hm.
    - simpl. subst m1. split_and!; try done; mem_solve. }
  eapply returns_mono; [by apply (addfree_keeps _ _ _ Hlay m1 [Chunk lo 8 Alloc] _ _ _ Hinv)|].
  intros _ m2 (es & Hinv2 & _). simpl. split_and!; try done. split; try done; simpl.
  - eapply fresh_ok. exact Hinv2.
  - rewrite u32_small by lia. lia.
Qed.

Lemma initialize_spec heapstart heapsize h :
  lo = MM_ALIGN_UP heapstart → hi = MM_ALIGN_DOWN (u32 (heapstart + heapsize)) →
  (∀ i, 0 ≤ i < 76 → is_Some (h_mem h !! (nodelist + 4 * i))) →
  (∀ w, lo ≤ w < hi → w `mod` 4 = 0 → is_Some (h_mem h !! w)) →
  returns (mm_initialize nodelist heapstart heapsize) h (λ _ h',
    state_ok nodelist lo hi h' (fresh_chunks Free) ∧
    mm_semaphore h' = 1 ∧ mm_holder h' = -1 ∧ mm_counts_held h' = 0).
Proof.
  intros Elo Ehi Hn Hm. unfold mm_initialize.
  assert (Hsetup := hooks_setup (h_mem h) Hn).
  apply returns_elim in Hsetup as ([] & m1 & Hrun & D & Hd & Hs & O).
  unfold mbind, M_bind in Hrun.
  destruct (memset0 nodelist _ (h_mem h)) as [[[] m0]| |] eqn:E0; [|done..].
  do 2 rstep. apply returns_bind. unfold onmem. apply returns_zoom.
  eapply returns_intro; [exact E0|]. apply returns_bind, returns_zoom.
  eapply returns_intro; [exact Hrun|]. apply returns_bind. unfold mm_seminitialize. rstep.
  apply addregion_spec; try done.
  intros w Hw Hw4. simpl. rewrite <-elem_of_dom, D, elem_of_dom. by apply Hm.
Qed.
End Init.

(** * A concrete heap *)

(** [n] words of zeroed memory from address [base] on. *)
Fixpoint ram (base : Z) (n : nat) : mem :=
  match n with
  | O => ∅
  | S n => <[base:=0]> (ram (base + 4) n)
  end.

Lemma ram_mapped base n w :
  base ≤ w < base + 4 * Z.of_nat n → (w - base) `mod` 4 = 0 → is_Some (ram base n !! w).
Proof.
  revert base. induction n as [|n IH]; intros base Hw Hm; simpl; [lia|].
  apply lookup_insert_is_Some'. destruct (decide (base = w)); [by left|right].
  apply IH; mod_lia.
Qed.

(** 256 bytes of heap behind the list hooks, set up by [mm_initialize]. *)
Definition demo_raw : heap := Heap (ram 4096 140) 0 0 0 0 0 0.
Definition demo_heap : heap :=
  match mm_initialize 4096 4400 256 demo_raw with Done (_, h) => h | _ => demo_raw end.

Lemma demo_layout : layout_ok 4096 4400 4656.
Proof. split; [by split_and!..|by left]. Qed.

Lemma demo_ok :
  state_ok 4096 4400 4656 demo_heap (fresh_chunks 4400 4656 Free) ∧
  mm_semaphore demo_heap = 1 ∧ mm_holder demo_heap = -1 ∧ mm_counts_held demo_heap = 0.
Proof.
  assert (H := initialize_spec 4096 4400 4656 demo_layout ltac:(lia) ltac:(done) 4400 256 demo_raw).
  unfold returns in H. unfold demo_heap. destruct (mm_initialize _ _ _ _) as [[[] h]| |];
    [|exfalso..]; apply H; try reflexivity; intros; apply ram_mapped; mod_lia.
Qed.

(** * mm_mallinfo *)

Definition is_used (c : chunk) : Prop := c_st c = Alloc.
#[global] Instance is_used_dec c : Decision (is_used c).
Proof. unfold is_used. apply _. Defined.

(** The totals of a list of chunks. *)
Definition used_bytes (cs : list chunk) : Z := sumsz (filter is_used cs).
Definition free_bytes (cs : list chunk) : Z := sumsz (filter is_free cs).
Definition free_count (cs : list chunk) : Z := Z.of_nat (length (filter is_free cs)).
Definition free_largest (cs : list chunk) : Z :=
  foldr (λ c z, Z.max (c_size c) z) 0 (filter is_free cs).

Lemma sumsz_app l1 l2 : sumsz (l1 ++ l2) = sumsz l1 + sumsz l2.
Proof. induction l1 as [|c l1 IH]; simpl; [done|]. lia. Qed.

Lemma sumsz_filter_nonneg (P : chunk → Prop) `{∀ c, Decision (P c)} l :
  Forall chunk_ok l → 0 ≤ sumsz (filter P l).
Proof.
  intros Hl. apply sumsz_nonneg. rewrite Forall_forall in *. intros c [_ Hc]%list_elem_of_filter.
  destruct (Hl c Hc) as (_ & ? & _). lia.
Qed.

(** Every byte of the region is counted once. *)
Lemma tile_totals a cs d :
  tile a cs d → Forall (λ c, c_st c ≠ Limbo) cs → used_bytes cs + free_bytes cs = d - a.
Proof.
  unfold used_bytes, free_bytes. revert a.
  induction cs as [|c cs IH]; intros a; simpl; [intros -> _; lia|].
  intros [_ Ht] [Hc Hcs]%Forall_cons. specialize (IH _ Ht Hcs). rewrite !filter_cons.
  case_decide as H1; case_decide as H2; simpl; try lia; exfalso; unfold is_used, is_free in H1, H2;
    destruct (c_st c); congruence.
Qed.

Lemma info_loop m heapend l p a i fuel :
  tile a l heapend → Forall chunk_ok l → Forall (λ c, c_st c ≠ Limbo) l → hdrs m p l →
  0 ≤ p < 2 ^ 31 → Forall (λ c, c_size c < 2 ^ 31) l →
  0 ≤ uordblks i → 0 ≤ fordblks i → 0 ≤ mxordblk i →
  uordblks i + used_bytes l < 2 ^ 32 → fordblks i + free_bytes l < 2 ^ 32 →
  (length l < fuel)%nat →
  returns (loop fuel (mm_mallinfo_body heapend) (a, i)) m (λ st m', m' = m ∧
    st = (heapend, Mallinfo (arena i) (ordblks i + free_count l) (Z.max (mxordblk i) (free_largest l))
                    (uordblks i + used_bytes l) (fordblks i + free_bytes l))).
Proof.
  unfold used_bytes, free_bytes, free_count, free_largest.
  revert p a i fuel. induction l as [|c l IH]; intros p a i [|fuel]; simpl; intros Ht Hwf Hs Hh Hp Hsz
    Hu Hf Hmx Hub Hfb Hfuel; try lia; rewrite loop_S; unfold mm_mallinfo_body, PRECEDING, SIZE.
  { subst a. rewrite Z.ltb_irrefl. rsteps. split; [done|]. destruct i; simpl in *. f_equal; f_equal; lia. }
  destruct Ht as [<- Ht]. destruct Hh as (H1 & H2 & H3).
  apply Forall_cons in Hwf as [(_ & Hc8 & _) Hwf]. apply Forall_cons in Hs as [Hc Hs].
  apply Forall_cons in Hsz as [Hcs Hsz]. pose proof (tile_le _ _ _ Ht Hwf).
  pose proof (sumsz_filter_nonneg is_used l Hwf). pose proof (sumsz_filter_nonneg is_free l Hwf).
  rewrite !filter_cons in *. rsteps. rewrite is_alloc_prec by done.
  case_bool_decide as Ha.
  - rewrite (decide_True (P:=is_used c)) in * by done.
    rewrite (decide_False (P:=is_free c)) in * by (unfold is_free; by rewrite Ha). simpl in *.
    rewrite u32_small by lia.
    eapply returns_mono; [apply (IH (c_size c)); simpl; try done; lia|].
    simpl. intros st m' [-> ->]. split; [done|]. f_equal; f_equal; lia.
  - assert (c_st c = Free) by (by destruct (c_st c)).
    rewrite (decide_True (P:=is_free c)) in * by done.
    rewrite (decide_False (P:=is_used c)) in * by done. simpl in *.
    rewrite u32_small by lia.
    eapply returns_mono; [apply (IH (c_size c)); simpl; try done; try lia|].
    + destruct (Z.ltb_spec (mxordblk i) (c_size c)); lia.
    + simpl. intros st m' [-> ->]. split; [done|]. f_equal; f_equal; try lia.
      destruct (Z.ltb_spec (mxordblk i) (c_size c)); lia.
Qed.

Section Info.
Variables nodelist lo hi my_pid : Z.
Context (Hlay : layout_ok nodelist lo hi) (Hpid : 0 ≤ my_pid).

Lemma chunks_fuel m cs es : heap_inv nodelist lo hi m cs es → (length cs ≤ size m)%nat.
Proof.
  intros Hinv. rewrite <-(length_fmap c_addr). apply (mapped_length m _ 0).
  - by eapply cs_nodup.
  - intros a (c & -> & Hc)%list_elem_of_fmap. apply list_elem_of_split in Hc as (l1 & l2 & ->).
    pose proof (hi_hdrs _ _ _ _ _ _ Hinv) as Hh. apply hdrs_elem in Hh as [Hh _].
    rewrite Z.add_0_r. eauto.
Qed.

(** The totals with the tail guard, which the walk does not visit. *)
Lemma totals_guard l :
  used_bytes (l ++ [Chunk (hi - 8) 8 Alloc]) = used_bytes l + 8 ∧
  free_bytes (l ++ [Chunk (hi - 8) 8 Alloc]) = free_bytes l ∧
  free_count (l ++ [Chunk (hi - 8) 8 Alloc]) = free_count l ∧
  free_largest (l ++ [Chunk (hi - 8) 8 Alloc]) = free_largest l.
Proof.
  unfold used_bytes, free_bytes, free_count, free_largest. rewrite !filter_app.
  change (filter is_used [Chunk (hi - 8) 8 Alloc]) with [Chunk (hi - 8) 8 Alloc].
  change (filter is_free [Chunk (hi - 8) 8 Alloc]) with (@nil chunk).
  rewrite !app_nil_r, sumsz_app. done.
Qed.

Lemma taken_mem h : h_mem (taken my_pid h) = h_mem h.
Proof. unfold taken. by destruct (_ =? _). Qed.
Lemma taken_fields h :
  mm_heapstart (taken my_pid h) = mm_heapstart h ∧ mm_heapend (taken my_pid h) = mm_heapend h ∧
  mm_heapsize (taken my_pid h) = mm_heapsize h.
Proof. unfold taken. by destruct (_ =? _). Qed.

Lemma mallinfo_spec h cs :
  state_ok nodelist lo hi h cs → can_lock my_pid h →
  returns (mm_mallinfo my_pid) h (λ i h', h' = h ∧
    i = Mallinfo (hi - lo) (free_count cs) (free_largest cs) (used_bytes cs) (free_bytes cs) ∧
    uordblks i + fordblks i = arena i).
Proof.
  intros [[[es Hinv] Hse (mid & E & _) Hco] Est Een Esz] Hlock.
  pose proof (chunks_fuel _ _ _ Hinv) as Hfuel. pose proof (lay_region _ _ _ Hlay) as (_ & Hlh & _ & _ & Hspan).
  pose proof (tile_totals _ _ _ (hi_tile _ _ _ _ _ _ Hinv) Hse) as Htot.
  pose proof (chunk_bounds _ _ _ Hlay Hinv) as Hcb. pose proof (sumsz_filter_nonneg is_used cs (hi_wf _ _ _ _ _ _ Hinv)).
  pose proof (sumsz_filter_nonneg is_free cs (hi_wf _ _ _ _ _ _ Hinv)).
  rewrite app_comm_cons in E. set (l := Chunk lo 8 Alloc :: mid) in *. pose proof Hinv as [Ht Hwf Hh _ _ _ _ _].
  destruct (totals_guard l) as (T1 & T2 & T3 & T4). rewrite <-E in T1, T2, T3, T4.
  fold (used_bytes cs) (free_bytes cs) in *. rewrite E in Ht, Hwf, Hh, Hse.
  apply tile_split in Ht as [Ht _]. apply Forall_app in Hwf as [Hwf _]. apply Forall_app in Hse as [Hse _].
  apply hdrs_app in Hh as [Hh _]. simpl in Ht.
  destruct (taken_fields h) as (F1 & F2 & F3).
  unfold mm_mallinfo. apply returns_bind.
  eapply returns_intro; [by apply take_spec|]. do 6 rstep. unfold onmem. do 2 rstep.
  rewrite taken_mem, F1, F2, Est, Een.
  eapply returns_mono; [apply (info_loop (h_mem h) (hi - 8) l 0); simpl; try done; try lia|].
  - rewrite Forall_forall. intros c Hc. destruct (Hcb c) as (_ & _ & _ & _ & ? & _); [rewrite E; set_solver|lia].
  - rewrite E, length_app in Hfuel. simpl in *. lia.
  - intros st m' [-> ->]. rstep. eapply returns_intro; [by apply give_spec|].
    destruct h as [m sem ho ct sz hs he]. simpl in *. rewrite Z.eqb_refl.
    unfold SIZEOF_MM_ALLOCNODE. rewrite !(u32_small (0 + used_bytes l + 8)) by lia.
    rewrite u32_small by lia. rsteps. split_and!; [done| |lia]. rewrite Esz, T1, T2, T3, T4.
    f_equal. apply Z.max_r. unfold free_largest. induction (filter is_free l); simpl; lia.
Qed.
End Info.
