(* ===== verification/MmThms.v ===== *)
(** The theorems about the memory manager. *)

From stdpp Require Import sorting.
From S2P Require Import Prelude Links MmHeap MmApi MmInv MmSteps MmOps MmSpec MmInit.

(** What a caller of malloc gets: either nothing and no free chunk was large
    enough, or a live block of at least the requested size. *)
Section Malloc.
Variables nodelist lo hi my_pid : Z.
Context (Hlay : layout_ok nodelist lo hi) (Hpid : 0 ≤ my_pid).

Lemma mm_malloc_spec h cs size :
  state_ok nodelist lo hi h cs → can_lock my_pid h → 1 ≤ size → size + 23 < 2 ^ 32 →
  returns (mm_malloc nodelist my_pid size) h (λ r h', ∃ m' cs', h' = set_mem m' h ∧
    malloc_step cs (need size) r cs' ∧ state_ok nodelist lo hi h' cs' ∧
    keeps nodelist lo hi cs (h_mem h) m').
Proof.
  intros Hok Hlock Hs Hb. destruct (need_spec size Hs Hb) as (N8 & N16 & N).
  unfold mm_malloc. destruct (Z.ltb_spec size 1); [lia|]. fold (need size).
  apply locked_spec; [done..|].
  eapply returns_mono; [by apply (malloc_chunk_ok _ _ _ Hlay _ cs (need size)); [apply Hok|..]|].
  simpl. intros r m' (cs' & Hstep & Hok' & K). exists m', cs'. split_and!; try done.
  destruct Hok. by split.
Qed.

Lemma mm_free_spec h cs c :
  state_ok nodelist lo hi h cs → can_lock my_pid h → live lo hi cs c →
  returns (mm_free nodelist my_pid (c_addr c + 8)) h (λ _ h', ∃ m' cs', h' = set_mem m' h ∧
    free_step cs c cs' ∧ state_ok nodelist lo hi h' cs' ∧
    keeps nodelist lo hi cs' (h_mem h) m').
Proof.
  intros Hok Hlock Hlive. unfold mm_free, nonnull.
  pose proof (lay_region _ _ _ Hlay) as (Hlo & _). pose proof Hlive as (_ & _ & Hl & _).
  destruct (Z.eqb_spec (c_addr c + 8) 0); [lia|]. simpl. apply locked_unit_spec; [done..|].
  eapply returns_mono; [by apply (free_chunk_ok _ _ _ Hlay _ cs c (so_heap _ _ _ _ _ Hok))|].
  simpl. intros _ m' (cs' & Hstep & Hok' & K). exists m', cs'. split_and!; try done.
  destruct Hok. by split.
Qed.
End Malloc.

Lemma set_mem_lock m h pid : can_lock pid h → can_lock pid (set_mem m h).
Proof. done. Qed.

Lemma free_lock pid h :
  mm_semaphore h = 1 ∧ mm_holder h = -1 ∧ mm_counts_held h = 0 → can_lock pid h.
Proof. intros (H1 & H2 & H3). right. rewrite H1, H2, H3. split_and!; [done..|lia]. Qed.

Lemma demo_lock : can_lock 3 demo_heap.
Proof. apply free_lock, demo_ok. Qed.

(** C27: mm_initialize turns any mapped region with room for the two guard
    nodes and one free chunk into a well-formed heap: one free chunk between
    the guards, on the node list, and the semaphore free. *)
Theorem mm_initialize_correct nodelist lo hi heapstart heapsize h :
  layout_ok nodelist lo hi → lo + 32 ≤ hi → hi `mod` 8 = 0 →
  lo = MM_ALIGN_UP heapstart → hi = MM_ALIGN_DOWN (u32 (heapstart + heapsize)) →
  (∀ i, 0 ≤ i < 76 → is_Some (h_mem h !! (nodelist + 4 * i))) →
  (∀ w, lo ≤ w < hi → w `mod` 4 = 0 → is_Some (h_mem h !! w)) →
  returns (mm_initialize nodelist heapstart heapsize) h (λ _ h',
    state_ok nodelist lo hi h' (fresh_chunks lo hi Free) ∧
    mm_semaphore h' = 1 ∧ mm_holder h' = -1 ∧ mm_counts_held h' = 0).
Proof. intros. by apply initialize_spec. Qed.

Lemma mm_initialize_correct_witness :
  returns (mm_initialize 4096 4400 256) demo_raw (λ _ h',
    state_ok 4096 4400 4656 h' (fresh_chunks 4400 4656 Free) ∧
    mm_semaphore h' = 1 ∧ mm_holder h' = -1 ∧ mm_counts_held h' = 0).
Proof.
  apply (mm_initialize_correct 4096 4400 4656 4400 256 demo_raw);
    [apply demo_layout|lia|reflexivity|reflexivity|reflexivity|..];
    intros; apply ram_mapped; mod_lia.
Defined.

(** C2: mm_malloc on a well-formed heap returns (it neither faults nor blocks
    when the lock is available) and refines the abstract best-fit allocator
    [malloc_step]: NULL only when no free chunk is large enough, otherwise a
    live 8-byte aligned block with room for the request, taken from the
    smallest free chunk that fits.  The heap stays well-formed, the lock is
    as before, and no word of an allocated block or outside the heap
    changes. *)
Theorem mm_malloc_correct nodelist lo hi my_pid h cs size :
  layout_ok nodelist lo hi → 0 ≤ my_pid → state_ok nodelist lo hi h cs → can_lock my_pid h →
  1 ≤ size → size + 23 < 2 ^ 32 →
  returns (mm_malloc nodelist my_pid size) h (λ r h', ∃ m' cs', h' = set_mem m' h ∧
    malloc_step cs (need size) r cs' ∧ state_ok nodelist lo hi h' cs' ∧
    keeps nodelist lo hi cs (h_mem h) m' ∧
    (r ≠ NULL → ∃ c, live lo hi cs' c ∧ r = c_addr c + 8 ∧ size ≤ c_size c - 8 ∧ r `mod` 8 = 0)).
Proof.
  intros Hlay Hpid Hok Hlock Hs Hb.
  eapply returns_mono; [by apply (mm_malloc_spec nodelist lo hi my_pid)|].
  simpl. intros r h' (m' & cs' & -> & Hstep & Hok' & K). exists m', cs'. split_and!; try done.
  intros Hr. destruct (need_spec size Hs Hb) as (_ & _ & N).
  destruct (malloc_live _ _ _ Hlay _ _ _ _ _ _ (so_heap _ _ _ _ _ Hok) Hstep (so_heap _ _ _ _ _ Hok') Hr)
    as (c & Hlive & -> & Hsz & Hm). exists c. split_and!; try done. lia.
Qed.

Lemma mm_malloc_correct_witness :
  returns (mm_malloc 4096 3 100) demo_heap (λ r h', ∃ m' cs', h' = set_mem m' demo_heap ∧
    malloc_step (fresh_chunks 4400 4656 Free) (need 100) r cs' ∧ state_ok 4096 4400 4656 h' cs' ∧
    keeps 4096 4400 4656 (fresh_chunks 4400 4656 Free) (h_mem demo_heap) m' ∧
    (r ≠ NULL → ∃ c, live 4400 4656 cs' c ∧ r = c_addr c + 8 ∧ 100 ≤ c_size c - 8 ∧ r `mod` 8 = 0)).
Proof.
  apply (mm_malloc_correct 4096 4400 4656 3 demo_heap (fresh_chunks 4400 4656 Free) 100);
    [apply demo_layout|lia|apply demo_ok|apply demo_lock|lia|lia].
Defined.

(** C12: mm_free of a live block refines [free_step]: the block and its free
    neighbours become one free chunk, the heap stays well-formed (in
    particular no two free chunks are adjacent), and nothing an owner of
    another block can see changes. *)
Theorem mm_free_correct nodelist lo hi my_pid h cs c :
  layout_ok nodelist lo hi → 0 ≤ my_pid → state_ok nodelist lo hi h cs → can_lock my_pid h →
  live lo hi cs c →
  returns (mm_free nodelist my_pid (c_addr c + 8)) h (λ _ h', ∃ m' cs', h' = set_mem m' h ∧
    free_step cs c cs' ∧ state_ok nodelist lo hi h' cs' ∧ keeps nodelist lo hi cs' (h_mem h) m').
Proof. intros. by apply (mm_free_spec nodelist lo hi my_pid). Qed.

(** The heap after one allocation of 100 bytes. *)
Definition demo_heap1 : heap :=
  match mm_malloc 4096 3 100 demo_heap with Done (_, h) => h | _ => demo_heap end.

Definition demo_chunks1 : list chunk :=
  [Chunk 4400 8 Alloc; Chunk 4408 112 Alloc; Chunk 4520 128 Free; Chunk 4648 8 Alloc].

Lemma demo_ok1 : state_ok 4096 4400 4656 demo_heap1 demo_chunks1 ∧ can_lock 3 demo_heap1.
Proof.
  assert (H := mm_malloc_spec 4096 4400 4656 3 demo_layout ltac:(lia) demo_heap _ 100
    (proj1 demo_ok) demo_lock ltac:(lia) ltac:(lia)).
  unfold returns in H. unfold demo_heap1. destruct (mm_malloc _ _ _ _) as [[r h']| |]; [|done..].
  destruct H as (m' & cs' & -> & Hstep & Hok' & _). split; [|apply set_mem_lock, demo_lock].
  replace demo_chunks1 with cs'; [exact Hok'|]. change (need 100) with 112 in Hstep.
  destruct Hstep as [(_ & _ & Hall)|(l1 & c & l2 & E & Hf & _ & _ & _ & ->)].
  - specialize (Hall (Chunk 4408 240 Free)). simpl in Hall. exfalso. cut (240 < 112); [lia|].
    apply Hall; [|done]. apply elem_of_cons. right. apply elem_of_cons. by left.
  - unfold fresh_chunks in E. clear Hok'.
    destruct l1 as [|? [|? [|? [|? l1]]]]; simplify_eq/=; reflexivity.
Qed.

Lemma mm_free_correct_witness :
  returns (mm_free 4096 3 4416) demo_heap1 (λ _ h', ∃ m' cs', h' = set_mem m' demo_heap1 ∧
    free_step demo_chunks1 (Chunk 4408 112 Alloc) cs' ∧ state_ok 4096 4400 4656 h' cs' ∧
    keeps 4096 4400 4656 cs' (h_mem demo_heap1) m').
Proof.
  apply (mm_free_correct 4096 4400 4656 3 demo_heap1 demo_chunks1 (Chunk 4408 112 Alloc));
    [apply demo_layout|lia|apply demo_ok1|apply demo_ok1|].
  split_and!; [|done..]. apply elem_of_cons. right. apply elem_of_cons. by left.
Defined.

(** C26: allocating a block and freeing it again gives back exactly the chunks
    there were before, whether the allocation succeeded or not. *)
Theorem malloc_free_roundtrip nodelist lo hi my_pid h cs size :
  layout_ok nodelist lo hi → 0 ≤ my_pid → state_ok nodelist lo hi h cs → can_lock my_pid h →
  1 ≤ size → size + 23 < 2 ^ 32 →
  returns (p ← mm_malloc nodelist my_pid size; mm_free nodelist my_pid p) h (λ _ h',
    state_ok nodelist lo hi h' cs ∧ keeps nodelist lo hi cs (h_mem h) (h_mem h')).
Proof.
  intros Hlay Hpid Hok Hlock Hs Hb. apply returns_bind.
  eapply returns_mono; [by apply (mm_malloc_spec nodelist lo hi my_pid)|].
  intros p h1 (m1 & cs1 & -> & Hstep & Hok1 & K1).
  destruct (decide (p = NULL)) as [->|Hp].
  { apply returns_ret. destruct Hstep as [(_ & -> & _)|(l1 & c & l2 & -> & Hf & _ & _ & Hr & _)]; [done|].
    destruct (ho_inv _ _ _ _ _ (so_heap _ _ _ _ _ Hok)) as [es Hinv].
    pose proof (chunk_bounds _ _ _ Hlay Hinv c ltac:(set_solver)). pose proof (lay_region _ _ _ Hlay). lia. }
  destruct (malloc_live _ _ _ Hlay _ _ _ _ _ _ (so_heap _ _ _ _ _ Hok) Hstep (so_heap _ _ _ _ _ Hok1) Hp)
    as (c & Hlive & Er & _). rewrite Er.
  eapply returns_mono; [by apply (mm_free_spec nodelist lo hi my_pid Hlay Hpid _ cs1)|].
  intros _ h2 (m2 & cs2 & -> & Hfree & Hok2 & K2).
  assert (cs2 = cs) as ->.
  { eapply (malloc_free_step nodelist lo hi Hlay _ _ _ cs); [..|exact Hfree|apply Hok2];
      [apply Hok|exact Hstep|apply Hok1|done..]. }
  split; [done|]. by eapply keeps_trans.
Qed.

Lemma malloc_free_roundtrip_witness :
  returns (p ← mm_malloc 4096 3 50; mm_free 4096 3 p) demo_heap1 (λ _ h',
    state_ok 4096 4400 4656 h' demo_chunks1 ∧
    keeps 4096 4400 4656 demo_chunks1 (h_mem demo_heap1) (h_mem h')).
Proof.
  apply (malloc_free_roundtrip 4096 4400 4656 3 demo_heap1 demo_chunks1 50);
    [apply demo_layout|lia|apply demo_ok1|apply demo_ok1|lia|lia].
Defined.

(** While another task holds the heap, malloc and free suspend the caller
    instead of touching the heap; a task that holds it may nest calls, and
    giving the semaphore back undoes taking it. *)
Theorem mm_mutual_exclusion nodelist my_pid h :
  (mm_holder h ≠ my_pid → mm_semaphore h ≤ 0 →
     (∀ size, 1 ≤ size → mm_malloc nodelist my_pid size h = Blocked) ∧
     (∀ p, p ≠ NULL → mm_free nodelist my_pid p h = Blocked) ∧
     mm_trysemaphore my_pid h = Done (-1, h)) ∧
  (0 ≤ my_pid → can_lock my_pid h →
     (mm_takesemaphore my_pid;; mm_takesemaphore my_pid;;
      mm_givesemaphore my_pid;; mm_givesemaphore my_pid) h = Done (tt, h)).
Proof.
  split.
  - intros Hh Hs. assert (Ht : mm_takesemaphore my_pid h = Blocked).
    { unfold mm_takesemaphore, gets, mbind, M_bind, id. rewrite (proj2 (Z.eqb_neq _ _)) by done.
      by rewrite (proj2 (Z.leb_le _ _)). }
    split_and!.
    + intros size Hsz. unfold mm_malloc. rewrite (proj2 (Z.ltb_ge _ _)) by done.
      unfold mbind, M_bind. by rewrite Ht.
    + intros p Hp. unfold mm_free, nonnull. rewrite (proj2 (Z.eqb_neq _ _)) by done. simpl.
      unfold mbind, M_bind. by rewrite Ht.
    + unfold mm_trysemaphore, gets, mbind, M_bind, id. rewrite (proj2 (Z.eqb_neq _ _)) by done.
      by rewrite (proj2 (Z.leb_le _ _)).
  - intros Hpid Hc. unfold mbind, M_bind. rewrite take_spec by done.
    rewrite take_spec by (by apply taken_can_lock).
    assert (Hm : ∀ h, h = set_mem (h_mem h) h) by (by intros []).
    rewrite (Hm (taken my_pid (taken my_pid h))), give_spec by (done || by apply taken_can_lock).
    assert (Em : h_mem (taken my_pid (taken my_pid h)) = h_mem h).
    { unfold taken. by repeat destruct (_ =? _). }
    rewrite Em, give_spec by done. by destruct h.
Qed.

Lemma mm_mutual_exclusion_witness :
  mm_malloc 4096 5 16 (set_lock 0 3 1 demo_heap) = Blocked ∧ can_lock 3 demo_heap.
Proof.
  split; [|apply demo_lock].
  apply (proj1 (mm_mutual_exclusion 4096 5 (set_lock 0 3 1 demo_heap))); simpl; lia.
Defined.

(** Mm_mallinfo reports exactly the allocated bytes, free bytes, number of
    free chunks and largest free chunk of the heap, its totals add up to the
    arena (so its final assertion never fires), and it changes nothing. *)
Theorem mm_mallinfo_correct nodelist lo hi my_pid h cs :
  layout_ok nodelist lo hi → 0 ≤ my_pid → state_ok nodelist lo hi h cs → can_lock my_pid h →
  returns (mm_mallinfo my_pid) h (λ i h', h' = h ∧
    i = Mallinfo (hi - lo) (free_count cs) (free_largest cs) (used_bytes cs) (free_bytes cs) ∧
    uordblks i + fordblks i = arena i).
Proof. intros. by apply (mallinfo_spec nodelist). Qed.

Lemma mm_mallinfo_correct_witness :
  returns (mm_mallinfo 3) demo_heap1 (λ i h', h' = demo_heap1 ∧
    i = Mallinfo 256 1 128 128 128 ∧ uordblks i + fordblks i = arena i).
Proof.
  apply (mm_mallinfo_correct 4096 4400 4656 3 demo_heap1 demo_chunks1);
    [apply demo_layout|lia|apply demo_ok1|apply demo_ok1].
Defined.

Lemma zalloc_spec nodelist lo hi my_pid h cs size :
  layout_ok nodelist lo hi → 0 ≤ my_pid → state_ok nodelist lo hi h cs → can_lock my_pid h →
  1 ≤ size → size + 23 < 2 ^ 32 →
  returns (mm_zalloc nodelist my_pid size) h (λ r h', ∃ m' cs', h' = set_mem m' h ∧
    malloc_step cs (need size) r cs' ∧ state_ok nodelist lo hi h' cs' ∧
    keeps nodelist lo hi cs (h_mem h) m' ∧
    (r ≠ NULL → ∀ w, r ≤ w < r + size → w `mod` 4 = 0 →
       ∃ v, m' !! w = Some v ∧ v `mod` 2 ^ (8 * Z.min 4 (r + size - w)) = 0)).
Proof.
  intros Hlay Hpid Hok Hlock Hs Hb. unfold mm_zalloc. apply returns_bind.
  eapply returns_mono; [by apply (mm_malloc_spec nodelist lo hi my_pid)|].
  intros r h1 (m1 & cs1 & -> & Hstep & Hok1 & K1). unfold nonnull.
  destruct (Z.eqb_spec r NULL) as [->|Hr]; simpl.
  { rsteps. exists m1, cs1. done. }
  destruct (malloc_live _ _ _ Hlay _ _ _ _ _ _ (so_heap _ _ _ _ _ Hok) Hstep (so_heap _ _ _ _ _ Hok1) Hr)
    as (c & Hlive & -> & Hsz & Hm). destruct (need_spec size Hs Hb) as (_ & _ & N).
  destruct (ho_inv _ _ _ _ _ (so_heap _ _ _ _ _ Hok1)) as [es1 Hinv1]. simpl in Hinv1.
  pose proof Hlive as (Hc & Ha & Hl & Hh). apply returns_bind. unfold onmem. apply returns_zoom. simpl.
  eapply returns_mono; [apply (memset0_spec (c_addr c + 8) size m1); [lia|mod_lia|]|].
  { intros w Hw Hw4. apply (hi_mapped _ _ _ _ _ _ Hinv1); [lia|done]. }
  intros _ m2 (D & Z & O). apply returns_ret. exists m2, cs1. split_and!; try done.
  - destruct Hok1 as [Hok1 ? ? ?]. split; [|done..].
    apply (heap_ok_user _ _ _ Hlay m1 m2 cs1 Hok1 D). intros w Hw. apply O. intros Hin. apply Hw.
    left. exists c. split_and!; [done..|lia|lia].
  - destruct K1 as [D1 K1]. split; [simpl in *; congruence|]. intros w Hw.
    rewrite O; [by apply K1|]. intros Hin.
    destruct Hstep as [(? & _)|(l1 & d & l2 & -> & Hf & Hds & _ & Er & _)]; [lia|].
    destruct (ho_inv _ _ _ _ _ (so_heap _ _ _ _ _ Hok)) as [es Hinv].
    revert Hw. apply (heap_word _ _ _ Hlay _ _ _ d _ Hinv); [set_solver|lia|right; by rewrite Hf].
Qed.

(** mm_zalloc is mm_malloc with the block cleared: every word of the
    requested bytes is zero (of a last partial word, the bytes asked for),
    and the guarantees of malloc hold for the result. *)
Theorem mm_zalloc_correct nodelist lo hi my_pid h cs size :
  layout_ok nodelist lo hi → 0 ≤ my_pid → state_ok nodelist lo hi h cs → can_lock my_pid h →
  1 ≤ size → size + 23 < 2 ^ 32 →
  returns (mm_zalloc nodelist my_pid size) h (λ r h', ∃ m' cs', h' = set_mem m' h ∧
    malloc_step cs (need size) r cs' ∧ state_ok nodelist lo hi h' cs' ∧
    keeps nodelist lo hi cs (h_mem h) m' ∧
    (r ≠ NULL → ∀ w, r ≤ w < r + size → w `mod` 4 = 0 →
       ∃ v, m' !! w = Some v ∧ v `mod` 2 ^ (8 * Z.min 4 (r + size - w)) = 0)).
Proof. intros. by apply (zalloc_spec nodelist lo hi my_pid). Qed.

Lemma mm_zalloc_correct_witness :
  returns (mm_zalloc 4096 3 30) demo_heap1 (λ r h', ∃ m' cs', h' = set_mem m' demo_heap1 ∧
    malloc_step demo_chunks1 (need 30) r cs' ∧ state_ok 4096 4400 4656 h' cs' ∧
    keeps 4096 4400 4656 demo_chunks1 (h_mem demo_heap1) m' ∧
    (r ≠ NULL → ∀ w, r ≤ w < r + 30 → w `mod` 4 = 0 →
       ∃ v, m' !! w = Some v ∧ v `mod` 2 ^ (8 * Z.min 4 (r + 30 - w)) = 0)).
Proof.
  apply (mm_zalloc_correct 4096 4400 4656 3 demo_heap1 demo_chunks1 30);
    [apply demo_layout|lia|apply demo_ok1|apply demo_ok1|lia|lia].
Defined.

(** mm_realloc to a size that fits the block returns the same block, cut
    to the new size: the tail goes back to the free chunks (joined with a
    free successor), the contents up to the new size and all other blocks are
    unchanged, and the heap stays well-formed. *)
Theorem mm_realloc_shrink_correct nodelist lo hi my_pid h cs c size :
  layout_ok nodelist lo hi → 0 ≤ my_pid → state_ok nodelist lo hi h cs → can_lock my_pid h →
  live lo hi cs c → 1 ≤ size → size + 23 < 2 ^ 32 → need size ≤ c_size c →
  returns (mm_realloc nodelist my_pid (c_addr c + 8) size) h (λ r h', ∃ m' cs', h' = set_mem m' h ∧
    r = c_addr c + 8 ∧ state_ok nodelist lo hi h' cs' ∧ keeps nodelist lo hi cs' (h_mem h) m' ∧
    (if need size <? c_size c then shrink_step cs c (need size) cs' else cs' = cs)).
Proof.
  intros Hlay Hpid Hok Hlock Hlive Hs Hb Hfit. destruct (need_spec size Hs Hb) as (N8 & N16 & N).
  pose proof (lay_region _ _ _ Hlay) as (Hlo & _). pose proof Hlive as (Hc & Ha & Hl & Hh).
  destruct (ho_inv _ _ _ _ _ (so_heap _ _ _ _ _ Hok)) as [es Hinv].
  assert (Hsz : h_mem h !! c_addr c = Some (c_size c)).
  { apply list_elem_of_split in Hc as (l1 & l2 & E). pose proof (hi_hdrs _ _ _ _ _ _ Hinv) as Hd.
    rewrite E in Hd. by apply hdrs_elem in Hd as [? _]. }
  assert (Hm : ∀ h, h = set_mem (h_mem h) h) by (by intros []).
  unfold mm_realloc, nonnull, SIZEOF_MM_ALLOCNODE, SIZE.
  replace (c_addr c + 8 - 8) with (c_addr c) by lia.
  rewrite (proj2 (Z.eqb_neq _ _)), (proj2 (Z.ltb_ge _ _)) by lia. simpl.
  change (MM_ALIGN_UP (u32 (size + 8))) with (need size). apply returns_bind.
  eapply returns_intro; [by apply take_spec|]. unfold onmem. do 2 rstep. rewrite (taken_mem my_pid). rstep.
  rewrite (Hm (taken my_pid h)) at 1. rewrite (taken_mem my_pid). simpl.
  rewrite (proj2 (Z.leb_le _ _)) by done. destruct (Z.ltb_spec (need size) (c_size c)).
  - do 2 rstep.
    eapply returns_mono; [apply (shrink_chunk_ok nodelist lo hi Hlay _ cs c (need size)); try done;
      try apply Hok|].
    simpl. intros _ m' (cs' & Hstep & Hok' & K). rstep.
    eapply returns_intro; [by apply give_spec|]. rstep. exists m', cs'. split_and!; try done.
    destruct Hok. by split.
  - do 2 rstep. apply returns_bind. eapply returns_intro; [by apply give_spec|]. rstep.
    exists (h_mem h), cs. rewrite <-Hm. by split_and!.
Qed.

Lemma mm_realloc_shrink_correct_witness :
  returns (mm_realloc 4096 3 4416 40) demo_heap1 (λ r h', ∃ m' cs', h' = set_mem m' demo_heap1 ∧
    r = 4416 ∧ state_ok 4096 4400 4656 h' cs' ∧ keeps 4096 4400 4656 cs' (h_mem demo_heap1) m' ∧
    (if need 40 <? 112 then shrink_step demo_chunks1 (Chunk 4408 112 Alloc) (need 40) cs'
     else cs' = demo_chunks1)).
Proof.
  apply (mm_realloc_shrink_correct 4096 4400 4656 3 demo_heap1 demo_chunks1 (Chunk 4408 112 Alloc) 40);
    [apply demo_layout|lia|apply demo_ok1|apply demo_ok1| |lia|lia|].
  - split_and!; [|done..]. apply elem_of_cons. right. apply elem_of_cons. by left.
  - apply Z.leb_le. reflexivity.
Defined.

(** The result and the final state of a run. *)
Definition result {S A} (d : A) (o : outcome (A * S)) : A :=
  match o with Done (a, _) => a | _ => d end.

(** The size computation of mm_malloc and mm_calloc is not checked for
    wrap-around.  A request of 2^32 - 15 bytes is rounded to zero and hands
    out the list hook [mm_nodelist 1] as if it were a block (unlinking it from
    the node list); a calloc of (2^31 + 1) * 2 bytes hands out a 16-byte
    chunk. *)
Theorem mm_size_wraparound :
  need (2 ^ 32 - 15) = 0 ∧
  result 0 (mm_malloc 4096 3 (2 ^ 32 - 15) demo_heap) = mm_nodelist 4096 1 + SIZEOF_MM_ALLOCNODE ∧
  result 0 (mm_calloc 4096 3 (2 ^ 31 + 1) 2 demo_heap) = 4416 ∧ need (u32 ((2 ^ 31 + 1) * 2)) = 16.
Proof. vm_compute. repeat split. Qed.

(** A block of zero bytes from mm_memalign breaks the heap when it is
    freed: its chunk has 8 bytes, and the links of a free node do not fit.
    With its neighbours allocated, mm_free writes the links over the header of
    the next block, whose size word changes from 208 to a list address. *)
Theorem mm_memalign_zero_corrupts :
  result (0, 0, 0, 0)
    ((p ← mm_memalign 4096 3 32 0;
      q ← mm_malloc 4096 3 200;
      before ← onmem (load (q - SIZEOF_MM_ALLOCNODE));
      mm_free 4096 3 p;;
      after ← onmem (load (q - SIZEOF_MM_ALLOCNODE));
      mret (p, q, before, after)) demo_heap) = (4416, 4424, 208, 4624).
Proof. vm_compute. reflexivity. Qed.
