(* ===== verification/MmBlocks.v ===== *)
(** The blocks a client of the memory manager holds: the laws of memory that
    the clients (the GPS driver, the watchdogs) rely on. *)

From S2P Require Import Prelude MmHeap MmApi MmInv MmSpec MmThms.

(** ** Blocks across allocator calls *)
Section Blocks.
Variables nodelist lo hi my_pid : Z.
Context (Hlay : layout_ok nodelist lo hi) (Hpid : 0 ≤ my_pid).

Lemma malloc_keeps cs n r cs' c : malloc_step cs n r cs' → live lo hi cs c → live lo hi cs' c.
Proof.
  intros [(_ & -> & _)|(l1 & d & l2 & -> & Hf & _ & _ & _ & ->)] (Hc & Ha & Hlo & Hhi); [by split_and!|].
  split_and!; [|done..]. rewrite !elem_of_app. apply elem_of_app in Hc as [?|[->|?]%elem_of_cons]; [auto| |auto].
  by rewrite Hf in Ha.
Qed.

Lemma malloc_fresh m cs n r cs' c :
  heap_ok nodelist lo hi m cs → malloc_step cs n r cs' → r ≠ NULL → live lo hi cs c → r ≠ c_addr c + 8.
Proof.
  intros Hok [(-> & _)|(l1 & d & l2 & -> & Hf & _ & _ & -> & _)] Hr (Hc & Ha & _) Eq; [done|].
  destruct (ho_inv _ _ _ _ _ Hok) as [es Hinv].
  assert (c = d) as ->; [|by rewrite Hf in Ha].
  eapply (chunk_inj _ _ _ Hinv); [done|set_solver|lia].
Qed.

Lemma free_keeps cs c cs' c' : free_step cs c cs' → live lo hi cs c' → c' ≠ c → live lo hi cs' c'.
Proof.
  intros (l1 & q & r & l2 & -> & Hq & Hr & ->) (Hc & Ha & Hlo & Hhi) Hne. split_and!; [|done..].
  rewrite Forall_forall in Hq, Hr. unfold is_free in *.
  rewrite !elem_of_app, elem_of_cons, elem_of_app in Hc. rewrite elem_of_app, elem_of_cons.
  destruct Hc as [?|[?|[?|[?|?]]]]; auto; exfalso.
  - assert (Hf : c_st c' = Free) by (by apply Hq). by rewrite Hf in Ha.
  - done.
  - assert (Hf : c_st c' = Free) by (by apply Hr). by rewrite Hf in Ha.
Qed.

(** The heap is well-formed, open to the task, and the blocks are live. *)
Definition blocks_held (h : heap) (X : list Z) : Prop :=
  NoDup (NULL :: X) ∧ can_lock my_pid h ∧
  ∃ cs, state_ok nodelist lo hi h cs ∧ ∀ p, p ∈ X → ∃ c, live lo hi cs c ∧ p = c_addr c + 8.

Lemma blocks_perm h X Y : X ≡ₚ Y → blocks_held h X → blocks_held h Y.
Proof.
  intros HXY (Hnd & Hl & cs & Hok & HX). split_and!; [by rewrite <-HXY|done|]. exists cs. split; [done|].
  intros p Hp. apply HX. by rewrite HXY.
Qed.

(** Blocks lie inside the heap. *)
Lemma blocks_inside h X p : blocks_held h X → p ∈ X → lo < p < hi.
Proof.
  intros (_ & _ & cs & Hok & HX) Hp. destruct (HX p Hp) as (c & Hc & ->).
  pose proof (ho_size _ _ _ _ _ c (so_heap _ _ _ _ _ Hok) Hc). destruct Hc as (_ & _ & H1 & H2). lia.
Qed.

(** An allocation that succeeds adds a block. *)
Lemma blocks_alloc h X n r m' cs cs' :
  blocks_held h X → state_ok nodelist lo hi h cs → (∀ p, p ∈ X → ∃ c, live lo hi cs c ∧ p = c_addr c + 8) →
  malloc_step cs n r cs' → state_ok nodelist lo hi (set_mem m' h) cs' →
  blocks_held (set_mem m' h) (if r =? NULL then X else r :: X).
Proof.
  intros (Hnd & Hl & _) Hok HX Hstep Hok'. assert (Hkeep : ∀ p, p ∈ X → ∃ c, live lo hi cs' c ∧ p = c_addr c + 8).
  { intros p Hp. destruct (HX p Hp) as (c & Hc & ->). exists c. split; [by eapply malloc_keeps|done]. }
  destruct (Z.eqb_spec r NULL) as [->|Hr]; (split_and!; [|done|exists cs'; split; [done|]]); [done|done| |].
  - apply NoDup_cons in Hnd as [Hn Hnd]. rewrite !NoDup_cons, !not_elem_of_cons. split_and!; [done|done| |done].
    intros Hin. destruct (HX r Hin) as (c & Hc & Er). revert Er. eapply malloc_fresh; [apply Hok|done..].
  - intros p [->|Hp]%elem_of_cons; [|auto].
    destruct (malloc_live _ _ _ Hlay _ _ _ _ _ _ (so_heap _ _ _ _ _ Hok) Hstep (so_heap _ _ _ _ _ Hok') Hr)
      as (c & Hc & -> & _). eauto.
Qed.

Lemma blocks_malloc h X n :
  blocks_held h X → 1 ≤ n → n + 23 < 2 ^ 32 →
  returns (mm_malloc nodelist my_pid n) h (λ r h', blocks_held h' (if r =? NULL then X else r :: X)).
Proof.
  intros Ho Hn Hb. pose proof Ho as (_ & Hl & cs & Hok & HX).
  eapply returns_mono; [by apply (mm_malloc_spec nodelist lo hi my_pid Hlay Hpid _ cs n Hok Hl)|].
  intros r h' (m' & cs' & -> & Hstep & Hok' & _). by eapply blocks_alloc.
Qed.

Lemma blocks_calloc h X n z :
  blocks_held h X → 1 ≤ n → 1 ≤ z → n * z < 2 ^ 31 →
  returns (mm_calloc nodelist my_pid n z) h (λ r h', blocks_held h' (if r =? NULL then X else r :: X)).
Proof.
  intros Ho Hn Hz Hnz. pose proof Ho as (_ & Hl & cs & Hok & HX). unfold mm_calloc.
  rewrite (proj2 (Z.ltb_lt 0 n)), (proj2 (Z.ltb_lt 0 z)) by lia. cbn [andb]. rewrite u32_small by nia.
  eapply returns_mono; [apply (zalloc_spec nodelist lo hi my_pid _ cs (n * z) Hlay Hpid Hok Hl); nia|].
  intros r h' (m' & cs' & -> & Hstep & Hok' & _). by eapply blocks_alloc.
Qed.

Lemma blocks_free h X p :
  blocks_held h (p :: X) → returns (mm_free nodelist my_pid p) h (λ _ h', blocks_held h' X).
Proof.
  intros (Hnd & Hl & cs & Hok & HX). destruct (HX p ltac:(set_solver)) as (c & Hc & ->).
  eapply returns_mono; [by apply (mm_free_spec nodelist lo hi my_pid Hlay Hpid _ cs c)|].
  intros _ h' (m' & cs' & -> & Hstep & Hok' & _).
  apply NoDup_cons in Hnd as [Hn [Hp Hnd]%NoDup_cons].
  split_and!; [by apply NoDup_cons; split; [set_solver|]|done|]. exists cs'. split; [done|].
  intros p' Hp'. destruct (HX p' ltac:(set_solver)) as (c' & Hc' & ->). exists c'. split; [|done].
  eapply free_keeps; [done|done|]. by intros ->.
Qed.
End Blocks.
