(* ===== verification/Wdog.v ===== *)
(** Watchdog timers, sched/wdog: the code.

    The links of the watchdogs and the two queue headers are words of memory,
    worked on by the operations of [Queue]; the other fields of struct wdog_s
    are a record per watchdog address.  The timer list holds differences: the
    [lag] of a watchdog counts from the expiry of its predecessor.  The
    product is not tickless, so wd_timer runs once per tick.  Interrupts are
    disabled inside each routine, which therefore runs as one step. *)

From S2P Require Import Prelude Queue.

(** * include/nuttx/wdog.h *)
Record wdog_s := Wdog {
  wd_func : Z;
  wd_lag : Z;
  wd_flags : Z;
  wd_argc : Z;
  wd_parm : list Z;
}.

Definition WDOGF_ACTIVE : Z := 1.
Definition WDOGF_ALLOCED : Z := 2.
Definition WDOGF_STATIC : Z := 4.
Definition CONFIG_MAX_WDOGPARMS : Z := 2.
Definition CONFIG_PREALLOC_WDOGS : Z := 6.
Definition CONFIG_WDOG_INTRESERVE : Z := 4.
Definition SIZEOF_WDOG : Z := 24.

Definition WDOG_ISACTIVE (w : wdog_s) : bool := negb (Z.land (wd_flags w) WDOGF_ACTIVE =? 0).
Definition WDOG_ISALLOCED (w : wdog_s) : bool := negb (Z.land (wd_flags w) WDOGF_ALLOCED =? 0).
Definition WDOG_ISSTATIC (w : wdog_s) : bool := negb (Z.land (wd_flags w) WDOGF_STATIC =? 0).

Definition set_lag (lag : Z) (w : wdog_s) : wdog_s :=
  Wdog (wd_func w) lag (wd_flags w) (wd_argc w) (wd_parm w).
Definition set_flags (flags : Z) (w : wdog_s) : wdog_s :=
  Wdog (wd_func w) (wd_lag w) flags (wd_argc w) (wd_parm w).
Definition WDOG_SETACTIVE (w : wdog_s) : wdog_s := set_flags (Z.lor (wd_flags w) WDOGF_ACTIVE) w.
Definition WDOG_CLRACTIVE (w : wdog_s) : wdog_s := set_flags (Z.land (wd_flags w) 0xFE) w.
Definition set_call (func argc : Z) (parm : list Z) (w : wdog_s) : wdog_s :=
  Wdog func (wd_lag w) (wd_flags w) argc parm.

(** What the watchdogs use of the rest of the system, whose state is [E]: the
    kernel allocator and errno. *)
Class KernelAlloc (E : Type) := {
  kmm_malloc : Z → M E Z;
  sched_kfree : Z → M E unit;
  wd_set_errno : Z → M E unit;
}.

(** The state: the links, the watchdogs, the count of free ones and the rest
    of the system. *)
Record wdstate (E : Type) := WdState {
  w_mem : mem;
  w_dogs : gmap Z wdog_s;
  g_wdnfree : Z;
  w_ext : E;
}.
Arguments WdState {_} _ _ _ _.
Arguments w_mem {_} _.
Arguments w_dogs {_} _.
Arguments g_wdnfree {_} _.
Arguments w_ext {_} _.

Section Wdog.
Context {E : Type} `{KernelAlloc E}.
Local Abbreviation st := (wdstate E).

(** &g_wdactivelist, &g_wdfreelist and g_wdpool; the interrupt context; the
    functions the watchdogs call. *)
Variables g_wdactivelist g_wdfreelist g_wdpool : Z.
Variable up_interrupt_context : bool.
Variable call : Z → list Z → M st unit.

Definition links {A} (e : M mem A) : M st A :=
  zoom w_mem (λ m s, WdState m (w_dogs s) (g_wdnfree s) (w_ext s)) e.
Definition onext {A} (e : M E A) : M st A :=
  zoom w_ext (λ x s, WdState (w_mem s) (w_dogs s) (g_wdnfree s) x) e.

(** Reading and updating the fields of a watchdog. *)
Definition dog (w : Z) : M st wdog_s := λ s,
  match w_dogs s !! w with Some d => Done (d, s) | None => Fault end.
Definition upd (w : Z) (f : wdog_s → wdog_s) : M st unit := λ s,
  match w_dogs s !! w with
  | Some d => Done (tt, WdState (w_mem s) (<[w:=f d]> (w_dogs s)) (g_wdnfree s) (w_ext s))
  | None => Fault
  end.
Definition next (w : Z) : M st Z := links (load (w + FLINK)).
Definition set_nfree (n : Z) (s : st) : st := WdState (w_mem s) (w_dogs s) n (w_ext s).

(** Fresh storage for a watchdog whose forward link is NULL.  wd_create sets the
    link and the flags only; the other fields, whatever malloc left there, are
    zero here: nothing reads them before wd_start has set them. *)
Definition new_dog (w flags : Z) (s : st) : st :=
  WdState (<[w:=NULL]> (w_mem s)) (<[w:=Wdog 0 0 flags 0 [0; 0]]> (w_dogs s)) (g_wdnfree s) (w_ext s).

(** * wd_cancel.c *)
Definition wd_cancel_body (wdog : Z) (pc : Z * Z) : M st (Z * Z + Z * Z) :=
  let '(prev, curr) := pc in
  if nonnull curr && negb (curr =? wdog) then
    n ← next curr;
    mret (inl (curr, n))
  else mret (inr (prev, curr)).

Definition wd_cancel (wdog : Z) : M st Z :=
  if negb (nonnull wdog) then mret (-1)
  else
    d ← dog wdog;
    if WDOG_ISACTIVE d then
      head ← links (load (g_wdactivelist + HEAD));
      fuel ← gets (λ s, size (w_mem s));
      pc ← loop (S fuel) (wd_cancel_body wdog) (NULL, head);
      let '(prev, curr) := pc : Z * Z in
      assert (nonnull curr);;
      n ← next curr;
      (if nonnull n then
         c ← dog curr;
         upd n (λ d, set_lag (s32 (wd_lag d + wd_lag c)) d)
       else mret tt);;
      (if nonnull prev then _ ← links (sq_remafter prev g_wdactivelist); mret tt
       else _ ← links (sq_remfirst g_wdactivelist); mret tt);;
      links (store (wdog + FLINK) NULL);;
      upd wdog WDOG_CLRACTIVE;;
      mret 0
    else mret (-1).

(** * wd_start.c *)

(** Advance to positive time. *)
Definition wd_start_skip (pcn : Z * Z * Z) : M st (Z * Z * Z + Z * Z * Z) :=
  let '(prev, curr, now) := pcn in
  c ← dog curr;
  let now := s32 (now + wd_lag c) in
  if now <? 0 then
    n ← next curr;
    if nonnull n then mret (inl (curr, n, now)) else mret (inr (prev, curr, now))
  else mret (inr (prev, curr, now)).

(** Advance past shorter delays. *)
Definition wd_start_seek (delay : Z) (pcn : Z * Z * Z) : M st (Z * Z * Z + Z * Z * Z) :=
  let '(prev, curr, now) := pcn in
  if now <=? delay then
    n ← next curr;
    if nonnull n then
      c ← dog n;
      mret (inl (curr, n, s32 (now + wd_lag c)))
    else mret (inr (prev, curr, now))
  else mret (inr (prev, curr, now)).

(** The insertion into the active list; the result is the lag of the new
    watchdog. *)
Definition wd_start_insert (wdog delay : Z) : M st Z :=
  head ← links (load (g_wdactivelist + HEAD));
  if negb (nonnull head) then
    links (sq_addlast wdog g_wdactivelist);;
    mret delay
  else
    fuel ← gets (λ s, size (w_mem s));
    pcn ← loop (S fuel) wd_start_skip (head, head, 0);
    pcn ← loop (S fuel) (wd_start_seek delay) (pcn : Z * Z * Z);
    let '(prev, curr, now) := pcn : Z * Z * Z in
    if delay <? now then
      c ← dog curr;
      let delay := s32 (delay - (now - wd_lag c)) in
      upd curr (λ d, set_lag (s32 (wd_lag d - delay)) d);;
      head ← links (load (g_wdactivelist + HEAD));
      (if curr =? head then links (sq_addfirst wdog g_wdactivelist)
       else links (sq_addafter prev wdog g_wdactivelist));;
      mret delay
    else
      let delay := s32 (delay - now) in
      n ← next curr;
      (if negb (nonnull n) then links (sq_addlast wdog g_wdactivelist)
       else
         upd n (λ d, set_lag (s32 (wd_lag d - delay)) d);;
         links (sq_addafter curr wdog g_wdactivelist));;
      mret delay.

(** Forcing the delay into the range the list can handle. *)
Definition wd_delay (delay : Z) : Z :=
  if delay <=? 0 then 1 else if s32 (delay + 1) <=? 0 then s32 (s32 (delay + 1) - 1) else s32 (delay + 1).

Definition wd_start (wdog delay wdentry : Z) (parms : list Z) : M st Z :=
  let argc := Z.of_nat (length parms) in
  if negb (nonnull wdog) || (CONFIG_MAX_WDOGPARMS <? argc) || (delay <? 0) then
    onext (wd_set_errno 22);;
    mret (-1)
  else
    d ← dog wdog;
    (if WDOG_ISACTIVE d then _ ← wd_cancel wdog; mret tt else mret tt);;
    upd wdog (set_call wdentry argc (parms ++ replicate (Z.to_nat (CONFIG_MAX_WDOGPARMS - argc)) 0));;
    lag ← wd_start_insert wdog (wd_delay delay);
    upd wdog (set_lag lag);;
    upd wdog WDOG_SETACTIVE;;
    mret 0.

(** The loop of wd_expiration: watchdogs at the head of the list whose time
    has come leave the list and run. *)
Definition wd_expiration_body (_ : unit) : M st (unit + unit) :=
  head ← links (load (g_wdactivelist + HEAD));
  if nonnull head then
    h ← dog head;
    if wd_lag h <=? 0 then
      wdog ← links (sq_remfirst g_wdactivelist);
      head ← links (load (g_wdactivelist + HEAD));
      (if nonnull head then
         w ← dog wdog;
         upd head (λ d, set_lag (s32 (wd_lag d + wd_lag w)) d)
       else mret tt);;
      upd wdog WDOG_CLRACTIVE;;
      w ← dog wdog;
      assert ((0 <=? wd_argc w) && (wd_argc w <=? CONFIG_MAX_WDOGPARMS));;
      call (wd_func w) (take (Z.to_nat (wd_argc w)) (wd_parm w));;
      mret (inl tt)
    else mret (inr tt)
  else mret (inr tt).

Definition wd_expiration : M st unit :=
  head ← links (load (g_wdactivelist + HEAD));
  h ← dog head;
  if wd_lag h <=? 0 then
    fuel ← gets (λ s, size (w_mem s));
    loop (S fuel) wd_expiration_body tt
  else mret tt.

Definition wd_timer : M st unit :=
  head ← links (load (g_wdactivelist + HEAD));
  if nonnull head then
    upd head (λ d, set_lag (s32 (wd_lag d - 1)) d);;
    wd_expiration
  else mret tt.

(** * wd_gettime.c *)
Definition wd_gettime_body (wdog : Z) (cd : Z * Z) : M st (Z * Z + Z) :=
  let '(curr, delay) := cd in
  if nonnull curr then
    c ← dog curr;
    let delay := s32 (delay + wd_lag c) in
    if curr =? wdog then mret (inr delay)
    else
      n ← next curr;
      mret (inl (n, delay))
  else mret (inr 0).

Definition wd_gettime (wdog : Z) : M st Z :=
  if negb (nonnull wdog) then mret 0
  else
    d ← dog wdog;
    if WDOG_ISACTIVE d then
      head ← links (load (g_wdactivelist + HEAD));
      fuel ← gets (λ s, size (w_mem s));
      loop (S fuel) (wd_gettime_body wdog) (head, 0)
    else mret 0.

(** * wd_create.c, wd_delete.c, wd_recover.c *)
Definition wd_create : M st Z :=
  nfree ← gets g_wdnfree;
  if (CONFIG_WDOG_INTRESERVE <? nfree) || up_interrupt_context then
    wdog ← links (sq_remfirst g_wdfreelist);
    nfree ← gets g_wdnfree;
    assert (0 <? nfree);;
    modify (set_nfree (nfree - 1));;
    (if nonnull wdog then
       links (store (wdog + FLINK) NULL);;
       upd wdog (set_flags 0)
     else mret tt);;
    mret wdog
  else
    wdog ← onext (kmm_malloc SIZEOF_WDOG);
    (if nonnull wdog then modify (new_dog wdog WDOGF_ALLOCED) else mret tt);;
    mret wdog.

Definition wd_delete (wdog : Z) : M st Z :=
  assert (nonnull wdog);;
  d ← dog wdog;
  (if WDOG_ISACTIVE d then _ ← wd_cancel wdog; mret tt else mret tt);;
  d ← dog wdog;
  (if WDOG_ISALLOCED d then onext (sched_kfree wdog)
   else if negb (WDOG_ISSTATIC d) then
     links (sq_addlast wdog g_wdfreelist);;
     nfree ← gets g_wdnfree;
     modify (set_nfree ((nfree + 1) `mod` 2 ^ 16));;
     nfree ← gets g_wdnfree;
     assert (nfree <=? CONFIG_PREALLOC_WDOGS)
   else mret tt);;
  mret 0.

(** The result is the new value of tcb->waitdog. *)
Definition wd_recover (waitdog : Z) : M st Z :=
  if nonnull waitdog then
    _ ← wd_cancel waitdog;
    _ ← wd_delete waitdog;
    mret NULL
  else mret waitdog.

(** * wd_initialize.c *)
Fixpoint wd_initialize_pool (n : nat) (wdog : Z) : M st unit :=
  match n with
  | O => mret tt
  | S n => links (sq_addlast wdog g_wdfreelist);; wd_initialize_pool n (wdog + SIZEOF_WDOG)
  end.

Definition wd_initialize : M st unit :=
  links (store (g_wdfreelist + HEAD) NULL);;
  links (store (g_wdfreelist + TAIL) NULL);;
  links (store (g_wdactivelist + HEAD) NULL);;
  links (store (g_wdactivelist + TAIL) NULL);;
  wd_initialize_pool (Z.to_nat CONFIG_PREALLOC_WDOGS) g_wdpool;;
  modify (set_nfree CONFIG_PREALLOC_WDOGS).
End Wdog.
