(* ===== verification/WdogInv.v ===== *)
(** Watchdog timers: the timeline they represent.

    A timeline lists the active watchdogs with the number of ticks until each
    expires, in order of expiry.  [timeline_ok] ties it to the delta list of
    the code; the lemmas say what inserting and removing an entry does to the
    lags. *)

From S2P Require Import Prelude Links Queue QueueSq Wdog.

Definition INT_MAX : Z := 2 ^ 31 - 1.

(** ** Flags *)
Lemma isactive_set w : WDOG_ISACTIVE (WDOG_SETACTIVE w) = true.
Proof.
  unfold WDOG_ISACTIVE, WDOG_SETACTIVE, WDOGF_ACTIVE. simpl.
  rewrite Z.land_lor_distr_l. apply negb_true_iff, Z.eqb_neq. intros E.
  apply Z.lor_eq_0_iff in E as [_ E]. done.
Qed.

Lemma isactive_clr w : WDOG_ISACTIVE (WDOG_CLRACTIVE w) = false.
Proof.
  unfold WDOG_ISACTIVE, WDOG_CLRACTIVE, WDOGF_ACTIVE. simpl. rewrite <-Z.land_assoc.
  change (Z.land 0xFE 1) with 0. by rewrite Z.land_0_r.
Qed.

(** ** Timelines *)
Abbreviation timeline := (list (Z * Z)).

Definition last_time (acc : Z) (tl : timeline) : Z := last_or acc tl.*2.

Lemma last_time_app acc t1 t2 : last_time acc (t1 ++ t2) = last_time (last_time acc t1) t2.
Proof. unfold last_time. by rewrite fmap_app, last_or_app. Qed.
Lemma last_time_cons acc e tl : last_time acc (e :: tl) = last_time e.2 tl.
Proof. unfold last_time. by rewrite fmap_cons, last_or_cons. Qed.
Lemma last_time_nil acc : last_time acc [] = acc.
Proof. done. Qed.

(** The lags of the watchdogs are the differences of the expiry times. *)
Fixpoint lags_ok (D : gmap Z wdog_s) (acc : Z) (tl : timeline) : Prop :=
  match tl with
  | [] => True
  | (x, t) :: tl' =>
      (∃ d, D !! x = Some d ∧ wd_lag d = t - acc) ∧ acc ≤ t ∧ lags_ok D t tl'
  end.

Lemma lags_ok_app D acc t1 t2 :
  lags_ok D acc (t1 ++ t2) ↔ lags_ok D acc t1 ∧ lags_ok D (last_time acc t1) t2.
Proof.
  revert acc. induction t1 as [|[x t] t1 IH]; intros acc; simpl.
  - rewrite last_time_nil. tauto.
  - rewrite IH, last_time_cons. tauto.
Qed.

Definition same_lag (D D' : gmap Z wdog_s) (x : Z) : Prop := wd_lag <$> D' !! x = wd_lag <$> D !! x.

Lemma lags_ok_frame D D' acc tl :
  (∀ x, x ∈ tl.*1 → same_lag D D' x) → lags_ok D acc tl → lags_ok D' acc tl.
Proof.
  revert acc. induction tl as [|[x t] tl IH]; intros acc Hf; simpl; [done|].
  intros ((d & Hd & Hl) & Ht & Hok). split_and!; [|done|apply IH; [|done]].
  - assert (Hx : same_lag D D' x) by (apply Hf; set_solver). unfold same_lag in Hx.
    rewrite Hd in Hx. simpl in Hx. destruct (D' !! x) as [d'|]; [|done]. injection Hx as Hx.
    exists d'. split; [done|congruence].
  - intros y Hy. apply Hf. set_solver.
Qed.

Lemma lags_ok_mono D acc tl : lags_ok D acc tl → Forall (λ e, acc ≤ e.2) tl ∧ acc ≤ last_time acc tl.
Proof.
  revert acc. induction tl as [|[x t] tl IH]; intros acc; simpl.
  - intros _. split; [done|]. rewrite last_time_nil. lia.
  - intros (_ & Ht & Hok). destruct (IH _ Hok) as [H1 H2]. rewrite last_time_cons. simpl. split; [|lia].
    constructor; [done|]. eapply Forall_impl; [exact H1|]. simpl. lia.
Qed.

(** Splicing an entry in, and taking one out. *)
Lemma lags_ok_splice D D' acc t1 w t t2 d :
  lags_ok D acc (t1 ++ t2) → NoDup (t1 ++ (w, t) :: t2).*1 →
  last_time acc t1 ≤ t → (∀ e, head t2 = Some e → t ≤ e.2) →
  D' !! w = Some d → wd_lag d = t - last_time acc t1 →
  (∀ e dn, head t2 = Some e → D !! e.1 = Some dn →
     ∃ d', D' !! e.1 = Some d' ∧ wd_lag d' = wd_lag dn - (t - last_time acc t1)) →
  (∀ x, x ∈ (t1 ++ t2).*1 → (∀ e, head t2 = Some e → x ≠ e.1) → same_lag D D' x) →
  lags_ok D' acc (t1 ++ (w, t) :: t2).
Proof.
  rewrite !lags_ok_app. intros [H1 H2] Hnd Hle Hge Hw Hl Hn Hf.
  rewrite fmap_app, fmap_cons in Hnd. apply NoDup_app in Hnd as (_ & Hd12 & [_ Hd2]%NoDup_cons).
  rewrite fmap_app in Hf. simpl. split; [|split_and!; [eauto|done|]].
  - revert H1. apply lags_ok_frame. intros x Hx. apply Hf; [set_solver|].
    intros e He ->. destruct t2 as [|e' t2]; [done|]. injection He as ->.
    apply (Hd12 e.1); [done|]. set_solver.
  - destruct t2 as [|[y u] t2]; simpl in *; [done|]. destruct H2 as ((dn & Hdn & Hln) & _ & H2).
    destruct (Hn (y, u) dn eq_refl Hdn) as (d' & Hd' & Hl'). simpl in *.
    specialize (Hge (y, u) eq_refl). simpl in Hge. split_and!; [|done|].
    + exists d'. split; [done|lia].
    + revert H2. apply lags_ok_frame. intros x Hx. apply Hf; [set_solver|].
      intros e [= <-] ->. by apply NoDup_cons in Hd2 as [? _].
Qed.

Lemma lags_ok_unsplice D D' acc t1 w t t2 :
  lags_ok D acc (t1 ++ (w, t) :: t2) → NoDup (t1 ++ (w, t) :: t2).*1 →
  (∀ e dn dw, head t2 = Some e → D !! e.1 = Some dn → D !! w = Some dw →
     ∃ d', D' !! e.1 = Some d' ∧ wd_lag d' = wd_lag dn + wd_lag dw) →
  (∀ x, x ∈ (t1 ++ t2).*1 → (∀ e, head t2 = Some e → x ≠ e.1) → same_lag D D' x) →
  lags_ok D' acc (t1 ++ t2).
Proof.
  rewrite !lags_ok_app. simpl. intros (H1 & (dw & Hdw & Hlw) & Ht & H2) Hnd Hn Hf.
  rewrite fmap_app, fmap_cons in Hnd. apply NoDup_app in Hnd as (_ & Hd12 & [_ Hd2]%NoDup_cons).
  rewrite fmap_app in Hf. split.
  - revert H1. apply lags_ok_frame. intros x Hx. apply Hf; [set_solver|].
    intros e He ->. destruct t2 as [|e' t2]; [done|]. injection He as ->.
    apply (Hd12 e.1); [done|]. set_solver.
  - destruct t2 as [|[y u] t2]; simpl in *; [done|]. destruct H2 as ((dn & Hdn & Hln) & Hu & H2).
    destruct (Hn (y, u) dn dw eq_refl Hdn Hdw) as (d' & Hd' & Hl'). simpl in *. split_and!; [|lia|].
    + exists d'. split; [done|lia].
    + revert H2. apply lags_ok_frame. intros x Hx. apply Hf; [set_solver|].
      intros e [= <-] ->. by apply NoDup_cons in Hd2 as [? _].
Qed.
