(* ===== verification/WdogSpec.v ===== *)
(** Watchdog timers: what each routine does to the timeline. *)

From S2P Require Import Prelude Links Queue QueueSq Wdog WdogInv.

(** The call a watchdog makes when it expires, and where it comes from: the
    flags without the one that says it is active. *)
Definition callof (D : gmap Z wdog_s) (x : Z) : option (Z * list Z) :=
  (λ d, (wd_func d, take (Z.to_nat (wd_argc d)) (wd_parm d))) <$> D !! x.
Definition dog_kind (d : wdog_s) : Z := Z.land (wd_flags d) 0xFE.
Definition kindof (D : gmap Z wdog_s) (x : Z) : option Z := dog_kind <$> D !! x.

Definition same_calls (D D' : gmap Z wdog_s) : Prop := ∀ x, callof D' x = callof D x.
Definition same_kinds (D D' : gmap Z wdog_s) : Prop := ∀ x, kindof D' x = kindof D x.

Lemma kind_set_flag d : dog_kind (WDOG_SETACTIVE d) = dog_kind d.
Proof. unfold dog_kind, WDOG_SETACTIVE. simpl. rewrite Z.land_lor_distr_l. apply Z.lor_0_r. Qed.
Lemma kind_clr_flag d : dog_kind (WDOG_CLRACTIVE d) = dog_kind d.
Proof. unfold dog_kind, WDOG_CLRACTIVE. simpl. by rewrite <-Z.land_assoc. Qed.

Lemma same_kinds_upd D x d d' : D !! x = Some d → dog_kind d' = dog_kind d → same_kinds D (<[x:=d']> D).
Proof.
  intros Hd Hk y. unfold kindof. destruct (decide (y = x)) as [->|]; [|by rewrite lookup_insert_ne].
  rewrite lookup_insert_eq, Hd. simpl. by rewrite Hk.
Qed.

Lemma same_calls_upd D x d d' :
  D !! x = Some d → wd_func d' = wd_func d → wd_argc d' = wd_argc d → wd_parm d' = wd_parm d →
  same_calls D (<[x:=d']> D).
Proof.
  intros Hd H1 H2 H3 y. unfold callof. destruct (decide (y = x)) as [->|]; [|by rewrite lookup_insert_ne].
  rewrite lookup_insert_eq, Hd. simpl. by rewrite H1, H2, H3.
Qed.

Section Spec.
Context {E : Type} `{KernelAlloc E}.
Variables active : Z.
Implicit Types (s : wdstate E) (tl : timeline) (x w : Z).

Record tl_ok s tl : Prop := {
  tl_repr : sq_repr (w_mem s) active tl.*1;
  tl_lags : lags_ok (w_dogs s) 0 tl;
  tl_max : Forall (λ e, e.2 ≤ INT_MAX) tl;
  tl_active : ∀ x, x ∈ tl.*1 ↔ ∃ d, w_dogs s !! x = Some d ∧ WDOG_ISACTIVE d = true;
  tl_argc : ∀ x d, x ∈ tl.*1 → w_dogs s !! x = Some d → 0 ≤ wd_argc d ≤ CONFIG_MAX_WDOGPARMS;
}.

(** What an operation on the active list leaves alone: the rest of the
    system, the count of free watchdogs, and the words and watchdogs other
    than the list header and the watchdogs [F]. *)
Definition wd_frame (F : list Z) s s' : Prop :=
  w_ext s' = w_ext s ∧ g_wdnfree s' = g_wdnfree s ∧
  writes (active :: (active + 4) :: F) (w_mem s) (w_mem s') ∧ same_kinds (w_dogs s) (w_dogs s') ∧
  ∀ x, x ∉ F → w_dogs s' !! x = w_dogs s !! x.

Lemma wd_frame_trans F s1 s2 s3 : wd_frame F s1 s2 → wd_frame F s2 s3 → wd_frame F s1 s3.
Proof.
  intros (A1 & A2 & A3 & AK & A4) (B1 & B2 & B3 & BK & B4). split_and!; [congruence..| | |].
  - by eapply writes_trans.
  - intros x. by rewrite BK, AK.
  - intros x Hx. by rewrite B4, A4.
Qed.

Lemma wd_frame_mono F F' s s' : F ⊆ F' → wd_frame F s s' → wd_frame F' s s'.
Proof.
  intros HF (A1 & A2 & A3 & AK & A4). split_and!; [done..| |done|].
  - eapply writes_mono; [|done]. set_solver.
  - intros x Hx. apply A4. set_solver.
Qed.

(** ** Symbolic execution *)
Lemma returns_dog w d s (Q : wdog_s → wdstate E → Prop) :
  w_dogs s !! w = Some d → Q d s → returns (dog w) s Q.
Proof. unfold returns, dog. by intros ->. Qed.

Lemma returns_upd w d f s (Q : unit → wdstate E → Prop) :
  w_dogs s !! w = Some d →
  Q tt (WdState (w_mem s) (<[w:=f d]> (w_dogs s)) (g_wdnfree s) (w_ext s)) → returns (upd w f) s Q.
Proof. unfold returns, upd. by intros ->. Qed.

Lemma returns_next w n s (Q : Z → wdstate E → Prop) :
  w_mem s !! w = Some n → Q n s → returns (next w) s Q.
Proof.
  intros Hm HQ. unfold next, links, FLINK. rewrite Z.add_0_r. apply returns_zoom.
  eapply returns_load; [exact Hm|]. by destruct s.
Qed.

Lemma returns_head s tl (Q : Z → wdstate E → Prop) :
  tl_ok s tl → Q (hd_or NULL tl.*1) s → returns (links (load (active + HEAD))) s Q.
Proof.
  intros Hok HQ. destruct (tl_repr _ _ Hok) as (Hh & _). unfold HEAD. rewrite Z.add_0_r.
  unfold links. apply returns_zoom. eapply returns_load; [exact Hh|]. by destruct s.
Qed.

(** ** Facts about active watchdogs *)
Lemma tl_nodup s tl : tl_ok s tl → NoDup tl.*1.
Proof. intros Hok. eapply sq_nodup, Hok. Qed.

Lemma tl_split s t1 w t t2 :
  tl_ok s (t1 ++ (w, t) :: t2) →
  ∃ d, w_dogs s !! w = Some d ∧ WDOG_ISACTIVE d = true ∧ wd_lag d = t - last_time 0 t1 ∧
    w_mem s !! w = Some (hd_or NULL t2.*1) ∧ w ≠ NULL ∧ 0 ≤ last_time 0 t1 ≤ t ∧ t ≤ INT_MAX.
Proof.
  intros Hok. pose proof (tl_lags _ _ Hok) as Hl. apply lags_ok_app in Hl as (Hl1 & (d & Hd & Hlag) & Ht & _).
  pose proof (lags_ok_mono _ _ _ Hl1) as [_ H0].
  pose proof (tl_repr _ _ Hok) as Hr. rewrite fmap_app, fmap_cons in Hr.
  pose proof (sq_node _ _ _ Hr) as (N1 & N2 & _). simpl in *.
  pose proof (tl_max _ _ Hok) as Hm. apply Forall_app in Hm as [_ [Hm _]%Forall_cons].
  exists d. split_and!; try done.
  destruct (proj1 (tl_active _ _ Hok w)) as (d' & Hd' & Ha); [|congruence].
  rewrite fmap_app, fmap_cons. set_solver.
Qed.

Lemma tl_fuel s tl : tl_ok s tl → (length tl ≤ size (w_mem s))%nat.
Proof.
  intros Hok. rewrite <-(length_fmap fst). apply (mapped_length _ _ 0); [by eapply tl_nodup|].
  intros x Hx. rewrite Z.add_0_r. pose proof (sq_elem _ x (tl_repr _ _ Hok) Hx). tauto.
Qed.

(** ** wd_cancel *)
Lemma wd_cancel_loop s k1 k2 w t2 fuel :
  tl_ok s (k1 ++ k2 ++ t2) → head t2.*1 = Some w → (length k2 < fuel)%nat →
  returns (loop fuel (wd_cancel_body w) (last_or NULL k1.*1, hd_or NULL (k2 ++ t2).*1)) s (λ pc s',
    s' = s ∧ pc = (last_or NULL (k1 ++ k2).*1, w)).
Proof.
  intros Hok Hw. revert fuel k1 Hok. induction k2 as [|[y u] k2 IH]; intros [|fuel] k1 Hok Hfuel; simpl in Hfuel;
    try lia; rewrite loop_S; unfold wd_cancel_body, nonnull; simpl.
  - destruct t2 as [|[w' t] t2]; [done|]. injection Hw as ->. rewrite fmap_cons, hd_or_cons, app_nil_r. simpl.
    rewrite Z.eqb_refl, andb_false_r. rsteps. done.
  - rewrite hd_or_cons. destruct (tl_split _ _ _ _ _ Hok) as (d & _ & _ & _ & Hn & Hy & _).
    assert (y ≠ w).
    { intros ->. pose proof (tl_nodup _ _ Hok) as Hnd. rewrite fmap_app in Hnd. simpl in Hnd.
      apply NoDup_app in Hnd as (_ & _ & [Hnd _]%NoDup_cons).
      destruct t2 as [|[w' t] t2]; [done|]. injection Hw as ->.
      apply Hnd. rewrite fmap_app. set_solver. }
    rsteps. eapply returns_next; [exact Hn|]. rsteps.
    replace (k1 ++ ((y, u) :: k2) ++ t2) with ((k1 ++ [(y, u)]) ++ k2 ++ t2) in Hok by (by rewrite <-app_assoc).
    eapply returns_mono; [|intros pc s' Hpc; exact Hpc].
    replace (k1 ++ (y, u) :: k2) with ((k1 ++ [(y, u)]) ++ k2) by (by rewrite <-app_assoc).
    replace y with (last_or NULL (k1 ++ [(y, u)]).*1) at 1 by (rewrite fmap_app; apply last_or_snoc).
    apply IH; [done|lia].
Qed.

(** The successor of a watchdog that leaves the list inherits its ticks; it
    gives up those of a watchdog that comes in. *)
Definition inherit (D : gmap Z wdog_s) (z : Z) (t2 : timeline) : gmap Z wdog_s :=
  match t2 with
  | [] => D
  | (y, _) :: _ => alter (λ dn, set_lag (wd_lag dn + z) dn) y D
  end.

Lemma inherit_other D z t2 x : x ∉ t2.*1 → inherit D z t2 !! x = D !! x.
Proof.
  destruct t2 as [|[y u] t2]; simpl; [done|]. intros Hx. apply lookup_alter_ne. set_solver.
Qed.

Lemma inherit_lookup D z t2 x d' :
  inherit D z t2 !! x = Some d' →
  ∃ d, D !! x = Some d ∧ wd_flags d' = wd_flags d ∧ wd_argc d' = wd_argc d.
Proof.
  destruct t2 as [|[y u] t2]; simpl; [eauto|].
  destruct (decide (y = x)) as [->|Hne]; [|rewrite lookup_alter_ne by done; eauto].
  rewrite lookup_alter_eq. destruct (D !! x) as [d|]; [|done]. intros [= <-]. by exists d.
Qed.

Lemma inherit_some D z t2 x d :
  D !! x = Some d →
  ∃ d', inherit D z t2 !! x = Some d' ∧ wd_flags d' = wd_flags d ∧ wd_argc d' = wd_argc d.
Proof.
  intros Hd. destruct t2 as [|[y u] t2]; simpl; [eauto|].
  destruct (decide (y = x)) as [->|Hne]; [|rewrite lookup_alter_ne by done; eauto].
  rewrite lookup_alter_eq, Hd. by eexists.
Qed.

Lemma inherit_kinds D z t2 : same_kinds D (inherit D z t2).
Proof.
  destruct t2 as [|[x t] t2]; simpl; [done|]. intros y. unfold kindof.
  destruct (decide (y = x)) as [->|]; [|by rewrite lookup_alter_ne]. rewrite lookup_alter_eq. by destruct (D !! x).
Qed.

Lemma inherit_calls D z t2 : same_calls D (inherit D z t2).
Proof.
  destruct t2 as [|[x t] t2]; simpl; [done|]. intros y. unfold callof.
  destruct (decide (y = x)) as [->|]; [|by rewrite lookup_alter_ne]. rewrite lookup_alter_eq. by destruct (D !! x).
Qed.

Lemma isactive_flags d d' : wd_flags d' = wd_flags d → WDOG_ISACTIVE d' = WDOG_ISACTIVE d.
Proof. unfold WDOG_ISACTIVE. by intros ->. Qed.

Lemma tl_ok_remove s t1 w t t2 dw m' nf ex :
  tl_ok s (t1 ++ (w, t) :: t2) → w_dogs s !! w = Some dw → sq_repr m' active (t1 ++ t2).*1 →
  tl_ok (WdState m' (<[w:=WDOG_CLRACTIVE dw]> (inherit (w_dogs s) (wd_lag dw) t2)) nf ex) (t1 ++ t2).
Proof.
  intros Hok Hdw Hr. pose proof (tl_nodup _ _ Hok) as Hnd. pose proof Hok as [_ Hl Hm Ha Hc].
  assert (Hw : w ∉ (t1 ++ t2).*1).
  { rewrite fmap_app, fmap_cons in Hnd. rewrite <-Permutation_middle in Hnd.
    apply NoDup_cons in Hnd as [Hnd _]. by rewrite fmap_app. }
  assert (Hsub : ∀ x, x ∈ (t1 ++ t2).*1 → x ∈ (t1 ++ (w, t) :: t2).*1).
  { intros x. rewrite !fmap_app, fmap_cons. set_solver. }
  split; simpl; try done.
  - eapply lags_ok_unsplice; [exact Hl|exact Hnd|..].
    + intros [y u] dn dw' Hh Hdn Hdw'. rewrite Hdw in Hdw'. injection Hdw' as <-. simpl in *.
      destruct t2 as [|e t2]; [done|]. injection Hh as ->. simpl.
      assert (y ≠ w) by (rewrite fmap_app in Hw; set_solver).
      rewrite lookup_insert_ne, lookup_alter_eq, Hdn by done. eexists. by split.
    + intros x Hx Hne. unfold same_lag. rewrite lookup_insert_ne by (by intros ->).
      destruct t2 as [|[y u] t2]; simpl; [done|]. rewrite lookup_alter_ne; [done|].
      intros <-. by apply (Hne (y, u)).
  - apply Forall_app in Hm as [Hm1 [_ Hm2]%Forall_cons]. by apply Forall_app.
  - intros x. destruct (decide (x = w)) as [->|Hne].
    + rewrite lookup_insert_eq. split; [done|]. intros (d & [= <-] & Hd). by rewrite isactive_clr in Hd.
    + rewrite lookup_insert_ne by done. split.
      * intros Hx. destruct (proj1 (Ha x) (Hsub x Hx)) as (d & Hd & Hda).
        destruct (inherit_some _ (wd_lag dw) t2 _ _ Hd) as (d' & Hd' & Hf & _). exists d'. split; [done|].
        by rewrite (isactive_flags d d').
      * intros (d' & Hd' & Hda). destruct (inherit_lookup _ _ _ _ _ Hd') as (d & Hd & Hf & _).
        assert (Hx : x ∈ (t1 ++ (w, t) :: t2).*1) by (apply Ha; exists d; by rewrite <-(isactive_flags d d')).
        rewrite !fmap_app, fmap_cons in *. set_solver.
  - intros x d' Hx Hd'. rewrite lookup_insert_ne in Hd' by (by intros ->).
    destruct (inherit_lookup _ _ _ _ _ Hd') as (d & Hd & _ & ->). eauto.
Qed.

Lemma wd_cancel_spec s t1 w t t2 :
  tl_ok s (t1 ++ (w, t) :: t2) →
  returns (wd_cancel active w) s (λ r s', r = 0 ∧ tl_ok s' (t1 ++ t2) ∧
    wd_frame (t1 ++ (w, t) :: t2).*1 s s' ∧ same_calls (w_dogs s) (w_dogs s') ∧
    ∃ d, w_dogs s !! w = Some d ∧ w_dogs s' !! w = Some (WDOG_CLRACTIVE d)).
Proof.
  intros Hok. destruct (tl_split _ _ _ _ _ Hok) as (dw & Hdw & Hact & Hlag & Hn & Hw & Ht & Htm).
  pose proof (tl_repr _ _ Hok) as Hr. pose proof (tl_fuel _ _ Hok) as Hfuel.
  pose proof (tl_nodup _ _ Hok) as Hnd.
  unfold wd_cancel, nonnull. rewrite (proj2 (Z.eqb_neq _ _)) by done. cbn [negb].
  apply returns_bind. eapply returns_dog; [exact Hdw|]. rewrite Hact.
  apply returns_bind. eapply returns_head; [exact Hok|]. apply returns_bind, returns_gets, returns_bind.
  eapply returns_mono; [apply (wd_cancel_loop s [] t1 w ((w, t) :: t2)); [exact Hok|done|]|].
  { rewrite length_app in Hfuel. simpl in Hfuel. lia. }
  intros pc s' [-> ->]. simpl. apply returns_bind, returns_assert.
  { rewrite (proj2 (Z.eqb_neq _ _)) by done. done. }
  apply returns_bind. eapply returns_next; [exact Hn|]. apply returns_bind.
  eapply (returns_mono _ _ (λ _ s1, s1 =
    WdState (w_mem s) (inherit (w_dogs s) (wd_lag dw) t2) (g_wdnfree s) (w_ext s))).
  { destruct t2 as [|[y u] t2]; simpl.
    - apply returns_ret. by destruct s.
    - rewrite hd_or_cons.
      assert (Hok2 : tl_ok s ((t1 ++ [(w, t)]) ++ (y, u) :: t2)) by (by rewrite <-app_assoc).
      destruct (tl_split _ _ _ _ _ Hok2) as (dy & Hdy & _ & Hly & _ & Hy & Hty & Htym).
      rewrite last_time_app, last_time_cons, last_time_nil in Hly, Hty. simpl in Hly, Hty. unfold INT_MAX in *.
      rewrite (proj2 (Z.eqb_neq _ _)) by done. simpl.
      apply returns_bind. eapply returns_dog; [exact Hdw|]. eapply returns_upd; [exact Hdy|].
      rewrite s32_small by lia. f_equal. apply map_eq. intros x. destruct (decide (x = y)) as [->|].
      + by rewrite lookup_insert_eq, lookup_alter_eq, Hdy.
      + by rewrite lookup_insert_ne, lookup_alter_ne by done. }
  intros _ s1 ->. apply returns_bind.
  eapply (returns_mono _ _ (λ _ s2, ∃ m', s2 = WdState m' (inherit (w_dogs s) (wd_lag dw) t2) (g_wdnfree s) (w_ext s) ∧
    sq_post active (t1 ++ (w, t) :: t2).*1 (t1 ++ t2).*1 (w_mem s) m' ∧ m' !! w = Some NULL)).
  { rewrite !fmap_app, !fmap_cons in *. simpl in *.
    destruct (list_snoc_cases t1.*1) as [Et|(k1 & p & Et)]; rewrite Et in *.
    - simpl. apply returns_bind. unfold links. apply returns_zoom.
      eapply returns_mono; [by apply sq_remfirst_spec|].
      simpl. intros r m' (-> & Hp & Hz). apply returns_ret. eauto.
    - rewrite last_or_snoc. rewrite <-app_assoc in Hr. simpl in Hr.
      pose proof (sq_node _ _ _ Hr) as (_ & Hp0 & _).
      rewrite (proj2 (Z.eqb_neq _ _)) by done. simpl. apply returns_bind. unfold links. apply returns_zoom.
      eapply returns_mono; [by apply sq_remafter_spec|].
      simpl. intros r m' (-> & Hp & Hz). apply returns_ret. rewrite <-!app_assoc. simpl. eauto. }
  intros _ s2 (m' & -> & [Hr' Hwr] & Hz). apply returns_bind. unfold links, FLINK. apply returns_zoom.
  rewrite Z.add_0_r. apply returns_store; [by eexists|]. rewrite insert_id by done. simpl.
  assert (Hwt : w ∉ t2.*1).
  { rewrite fmap_app, fmap_cons in Hnd. apply NoDup_app in Hnd as (_ & _ & [Hnd _]%NoDup_cons). done. }
  apply returns_bind. eapply (returns_upd _ dw); [simpl; by rewrite inherit_other|]. apply returns_ret. simpl.
  assert (Hwi : inherit (w_dogs s) (wd_lag dw) t2 !! w = Some dw) by (by rewrite inherit_other).
  split_and!; [done|by eapply tl_ok_remove| | |].
  - split_and!; [done|done|done| |].
    + intros x. simpl. rewrite (same_kinds_upd _ _ _ _ Hwi) by apply kind_clr_flag. apply inherit_kinds.
    + simpl. intros x Hx. rewrite !fmap_app, fmap_cons in Hx.
      rewrite lookup_insert_ne by set_solver. apply inherit_other. set_solver.
  - intros x. simpl. rewrite (same_calls_upd _ _ _ _ Hwi) by done. apply inherit_calls.
  - exists dw. by rewrite lookup_insert_eq.
Qed.

(** ** wd_start *)

(** Changing a watchdog that is not active. *)
Lemma tl_ok_other s tl w d :
  tl_ok s tl → w ∉ tl.*1 → WDOG_ISACTIVE d = false →
  tl_ok (WdState (w_mem s) (<[w:=d]> (w_dogs s)) (g_wdnfree s) (w_ext s)) tl.
Proof.
  intros [Hr Hl Hm Ha Hc] Hw Hd. split; simpl; try done.
  - revert Hl. apply lags_ok_frame. intros x Hx. unfold same_lag. rewrite lookup_insert_ne; [done|].
    by intros ->.
  - intros x. rewrite Ha. destruct (decide (x = w)) as [->|Hne]; [|by rewrite lookup_insert_ne].
    rewrite lookup_insert_eq. split.
    + intros Hx. by apply Ha in Hx.
    + intros (d' & [= <-] & ?). congruence.
  - intros x d' Hx. rewrite lookup_insert_ne by (by intros ->). eauto.
Qed.

Lemma wd_start_seek_loop s delay k1 c now k2 fuel :
  tl_ok s (k1 ++ (c, now) :: k2) → (∀ e, e ∈ k1 → e.2 ≤ delay) → (length k2 < fuel)%nat →
  returns (loop fuel (wd_start_seek delay) (last_or c k1.*1, c, now)) s (λ r s', s' = s ∧
    ∃ g1 c' n' g2, k1 ++ (c, now) :: k2 = g1 ++ (c', n') :: g2 ∧ r = (last_or c' g1.*1, c', n') ∧
      (∀ e, e ∈ g1 → e.2 ≤ delay) ∧ (delay < n' ∨ n' ≤ delay ∧ g2 = [])).
Proof.
  revert fuel k1 c now. induction k2 as [|[y u] k2 IH]; intros [|fuel] k1 c now Hok Hk Hfuel; simpl in Hfuel;
    try lia; rewrite loop_S; apply returns_bind; unfold wd_start_seek at 1;
    destruct (tl_split _ _ _ _ _ Hok) as (d & _ & _ & _ & Hn & _ & Ht & Htm);
    destruct (Z.leb_spec now delay) as [Hle|Hgt].
  - apply returns_bind. eapply returns_next; [exact Hn|]. apply returns_ret, returns_ret.
    split; [done|]. exists k1, c, now, []. split_and!; try done. by right.
  - apply returns_ret, returns_ret. split; [done|]. exists k1, c, now, []. split_and!; try done. by left.
  - rewrite fmap_cons, hd_or_cons in Hn. simpl in Hn.
    assert (Hok2 : tl_ok s ((k1 ++ [(c, now)]) ++ (y, u) :: k2)) by (by rewrite <-app_assoc).
    destruct (tl_split _ _ _ _ _ Hok2) as (dy & Hdy & _ & Hly & _ & Hy & Hty & Htym).
    rewrite last_time_app, last_time_cons, last_time_nil in Hly, Hty. simpl in Hly, Hty. unfold INT_MAX in *.
    apply returns_bind. eapply returns_next; [exact Hn|]. unfold nonnull.
    rewrite (proj2 (Z.eqb_neq _ _)) by done. simpl. apply returns_bind. eapply returns_dog; [exact Hdy|].
    apply returns_ret. rewrite s32_small by lia. replace (now + wd_lag dy) with u by lia.
    replace (k1 ++ (c, now) :: (y, u) :: k2) with ((k1 ++ [(c, now)]) ++ (y, u) :: k2) by (by rewrite <-app_assoc).
    replace c with (last_or y (k1 ++ [(c, now)]).*1) at 1 by (rewrite fmap_app; apply last_or_snoc).
    apply IH; [done| |lia]. intros e [He|He]%elem_of_app; [auto|].
    apply list_elem_of_singleton in He as ->. done.
  - apply returns_ret, returns_ret. split; [done|]. exists k1, c, now, ((y, u) :: k2). split_and!; try done. by left.
Qed.

Lemma wd_start_skip_loop s c now k2 fuel :
  tl_ok s ((c, now) :: k2) →
  returns (loop (S fuel) wd_start_skip (c, c, 0)) s (λ r s', s' = s ∧ r = (c, c, now)).
Proof.
  intros Hok. destruct (tl_split _ [] _ _ _ Hok) as (d & Hd & _ & Hl & _ & _ & Ht & Htm).
  rewrite last_time_nil in *. unfold INT_MAX in *. rewrite loop_S. apply returns_bind. unfold wd_start_skip at 1.
  apply returns_bind. eapply returns_dog; [exact Hd|]. rewrite s32_small by lia.
  replace (0 + wd_lag d) with now by lia. rewrite (proj2 (Z.ltb_ge _ _)) by lia.
  apply returns_ret, returns_ret. done.
Qed.

Lemma wd_start_insert_spec s tl w delay :
  tl_ok s tl → sq_fresh (w_mem s) active w tl.*1 → 0 ≤ delay ≤ INT_MAX →
  returns (wd_start_insert active w delay) s (λ lag s', ∃ t1 t2 m', tl = t1 ++ t2 ∧
    (∀ e, e ∈ t1 → e.2 ≤ delay) ∧ (∀ e, head t2 = Some e → delay < e.2) ∧
    lag = delay - last_time 0 t1 ∧ sq_post active (w :: tl.*1) (t1 ++ (w, delay) :: t2).*1 (w_mem s) m' ∧
    s' = WdState m' (inherit (w_dogs s) (- lag) t2) (g_wdnfree s) (w_ext s)).
Proof.
  intros Hok Hf Hd. unfold INT_MAX in *. unfold wd_start_insert, nonnull. apply returns_bind.
  eapply returns_head; [exact Hok|]. destruct tl as [|[h t0] tl].
  { simpl. apply returns_bind. unfold links. apply returns_zoom.
    eapply returns_mono; [by apply sq_addlast_spec, Hf; apply Hok|].
    simpl. intros _ m' Hp. apply returns_ret. exists [], [], m'. rewrite last_time_nil.
    split_and!; try done; [set_solver|lia]. }
  change (hd_or NULL ((h, t0) :: tl).*1) with h. destruct (tl_split _ [] _ _ _ Hok) as (_ & _ & _ & _ & _ & Hh & _).
  rewrite (proj2 (Z.eqb_neq _ _)) by done. cbn [negb]. apply returns_bind, returns_gets, returns_bind.
  eapply returns_mono; [by eapply wd_start_skip_loop|]. intros r s' [-> ->]. apply returns_bind.
  eapply returns_mono; [apply (wd_start_seek_loop s delay [] h t0 tl); [exact Hok|set_solver|]|].
  { pose proof (tl_fuel _ _ Hok) as Hfu. simpl in Hfu. lia. }
  intros r s' (-> & g1 & c & n & g2 & Eg & -> & Hg & Hcase). simpl in Eg. rewrite Eg in *.
  destruct (tl_split _ _ _ _ _ Hok) as (dc & Hdc & _ & Hlc & Hnc & Hc0 & Htc & Htcm). unfold INT_MAX in *.
  assert (Hr := tl_repr _ _ Hok). assert (Egm : (g1 ++ (c, n) :: g2).*1 = g1.*1 ++ c :: g2.*1) by (by rewrite fmap_app).
  destruct Hcase as [Hlt|[Hle ->]].
  - (* before c *)
    rewrite (proj2 (Z.ltb_lt _ _)) by done. apply returns_bind. eapply returns_dog; [exact Hdc|].
    assert (Hlast : last_time 0 g1 ≤ delay ∨ g1 = []).
    { destruct (list_snoc_cases g1) as [->|(g & e & ->)]; [by right|left].
      rewrite last_time_app, last_time_cons, last_time_nil. apply Hg. set_solver. }
    assert (Hlast0 : last_time 0 g1 ≤ delay) by (destruct Hlast as [?| ->]; [done|rewrite last_time_nil; lia]).
    rewrite !(s32_small (delay - _)) by lia. replace (delay - (n - wd_lag dc)) with (delay - last_time 0 g1) by lia.
    apply returns_bind. eapply returns_upd; [exact Hdc|]. rewrite s32_small by lia.
    set (s1 := WdState _ _ _ _).
    apply returns_bind. unfold links at 1. apply returns_zoom. eapply returns_load.
    { unfold HEAD. rewrite Z.add_0_r. apply Hr. }
    apply returns_bind.
    eapply (returns_mono _ _ (λ _ s2, ∃ m', sq_post active (w :: (g1 ++ (c, n) :: g2).*1)
      (g1 ++ (w, delay) :: (c, n) :: g2).*1 (w_mem s) m' ∧ s2 = WdState m' (w_dogs s1) (g_wdnfree s) (w_ext s))).
    { rewrite !fmap_app, !fmap_cons in *. simpl in *. unfold links.
      destruct (list_snoc_cases g1.*1) as [Et|(k1 & p & Et)]; rewrite Et in *.
      - simpl. rewrite hd_or_cons, Z.eqb_refl. apply returns_zoom.
        eapply returns_mono; [by apply sq_addfirst_spec|]. simpl. eauto.
      - rewrite last_or_snoc. assert (Hne : c ≠ hd_or NULL ((k1 ++ [p]) ++ c :: g2.*1)).
        { eapply sq_sep; [exact Hr|]. rewrite hd_or_app. destruct k1; set_solver. }
        rewrite (proj2 (Z.eqb_neq _ _)) by done. apply returns_zoom. rewrite <-app_assoc in *. simpl in *.
        eapply returns_mono; [by apply sq_addafter_spec|]. simpl. intros _ m' Hp.
        rewrite <-app_assoc. eauto. }
    intros _ s2 (m' & Hp & ->). apply returns_ret. exists g1, ((c, n) :: g2), m'. split_and!; try done.
    + intros e [= <-]. done.
    + f_equal. simpl. apply map_eq. intros x. destruct (decide (x = c)) as [->|].
      * rewrite lookup_insert_eq, lookup_alter_eq, Hdc. simpl. do 2 f_equal; lia.
      * by rewrite lookup_insert_ne, lookup_alter_ne by done.
  - rewrite (proj2 (Z.ltb_ge _ _)) by done. rewrite !(s32_small (delay - _)) by lia.
    apply returns_bind. eapply returns_next; [exact Hnc|]. simpl. apply returns_bind.
    unfold links. apply returns_zoom.
    eapply returns_mono; [by apply sq_addlast_spec|]. simpl. intros _ m' Hp. apply returns_ret.
    exists (g1 ++ [(c, n)]), [], m'. rewrite app_nil_r, last_time_app, last_time_cons, last_time_nil. simpl.
    split_and!; try done.
    + intros e [He|He]%elem_of_app; [auto|]. apply list_elem_of_singleton in He as ->. done.
    + rewrite !fmap_app in *. exact Hp.
Qed.

(** The timeline with a watchdog put in: behind all that expire no later. *)
Fixpoint insert_tl (w t : Z) (tl : timeline) : timeline :=
  match tl with
  | [] => [(w, t)]
  | e :: tl' => if e.2 <=? t then e :: insert_tl w t tl' else (w, t) :: e :: tl'
  end.

Definition remove_tl (w : Z) (tl : timeline) : timeline := filter (λ e, e.1 ≠ w) tl.

Lemma insert_tl_split w t t1 t2 :
  (∀ e, e ∈ t1 → e.2 ≤ t) → (∀ e, head t2 = Some e → t < e.2) →
  insert_tl w t (t1 ++ t2) = t1 ++ (w, t) :: t2.
Proof.
  intros H1 H2. induction t1 as [|e t1 IH]; simpl.
  - destruct t2 as [|e t2]; simpl; [done|]. specialize (H2 e eq_refl).
    by rewrite (proj2 (Z.leb_gt _ _)).
  - rewrite (proj2 (Z.leb_le _ _)) by (apply H1; set_solver). f_equal. apply IH. set_solver.
Qed.

Lemma remove_tl_absent w tl : w ∉ tl.*1 → remove_tl w tl = tl.
Proof.
  unfold remove_tl. induction tl as [|e tl IH]; [done|]. intros Hw.
  rewrite filter_cons, decide_True by set_solver. f_equal. apply IH. set_solver.
Qed.

Lemma remove_tl_split w t t1 t2 :
  NoDup (t1 ++ (w, t) :: t2).*1 → remove_tl w (t1 ++ (w, t) :: t2) = t1 ++ t2.
Proof.
  rewrite fmap_app, fmap_cons. intros (_ & H12 & [H2 _]%NoDup_cons)%NoDup_app. simpl in *.
  unfold remove_tl. rewrite filter_app, filter_cons, decide_False by (simpl; tauto).
  fold (remove_tl w t1) (remove_tl w t2). rewrite !remove_tl_absent; [done|done|].
  intros Hin. apply (H12 w Hin). set_solver.
Qed.

Lemma tl_ok_insert s t1 w t t2 d m' nf ex :
  tl_ok s (t1 ++ t2) → w ∉ (t1 ++ t2).*1 → (∀ e, e ∈ t1 → e.2 ≤ t) → (∀ e, head t2 = Some e → t < e.2) →
  0 ≤ t ≤ INT_MAX → sq_repr m' active (t1 ++ (w, t) :: t2).*1 →
  wd_lag d = t - last_time 0 t1 → WDOG_ISACTIVE d = true → 0 ≤ wd_argc d ≤ CONFIG_MAX_WDOGPARMS →
  tl_ok (WdState m' (<[w:=d]> (inherit (w_dogs s) (- wd_lag d) t2)) nf ex) (t1 ++ (w, t) :: t2).
Proof.
  intros Hok Hw H1 H2 Ht Hr Hl Ha Hc. pose proof Hok as [_ Hlag Hm Hact Hargc].
  assert (Hlast : last_time 0 t1 ≤ t).
  { destruct (list_snoc_cases t1) as [->|(g & e & ->)]; [rewrite last_time_nil; lia|].
    rewrite last_time_app, last_time_cons, last_time_nil. apply H1. set_solver. }
  assert (Hsub : ∀ x, x ∈ (t1 ++ (w, t) :: t2).*1 ↔ x = w ∨ x ∈ (t1 ++ t2).*1).
  { intros x. rewrite !fmap_app, fmap_cons. set_solver. }
  split; simpl.
  - done.
  - eapply (lags_ok_splice (w_dogs s)); [exact Hlag|by eapply sq_nodup|done| |by rewrite lookup_insert_eq|done|..].
    + intros e He. specialize (H2 e He). lia.
    + intros [y u] dn Hh Hdn. destruct t2 as [|e t2]; [done|]. injection Hh as ->. simpl in *.
      assert (y ≠ w) by (rewrite fmap_app in Hw; set_solver).
      rewrite lookup_insert_ne, lookup_alter_eq, Hdn by done. eexists. split; [done|]. simpl. lia.
    + intros x Hx Hne. unfold same_lag. rewrite lookup_insert_ne by (by intros ->).
      destruct t2 as [|[y u] t2]; simpl; [done|]. rewrite lookup_alter_ne; [done|].
      intros <-. by apply (Hne (y, u)).
  - rewrite Forall_app in Hm. apply Forall_app. rewrite Forall_cons. simpl. naive_solver lia.
  - intros x. rewrite Hsub. destruct (decide (x = w)) as [->|Hne].
    + rewrite lookup_insert_eq. naive_solver.
    + rewrite lookup_insert_ne by done. split.
      * intros [?|Hx]; [done|]. destruct (proj1 (Hact x) Hx) as (d0 & Hd0 & Ha0).
        destruct (inherit_some _ (- wd_lag d) t2 _ _ Hd0) as (d' & Hd' & Hf & _). exists d'. split; [done|].
        by rewrite (isactive_flags d0 d').
      * intros (d' & Hd' & Hda). right. destruct (inherit_lookup _ _ _ _ _ Hd') as (d0 & Hd0 & Hf & _).
        apply Hact. exists d0. by rewrite <-(isactive_flags d0 d').
  - intros x d' Hx. destruct (decide (x = w)) as [->|Hne].
    + rewrite lookup_insert_eq. intros [= <-]. done.
    + rewrite lookup_insert_ne by done. intros Hd'.
      destruct (inherit_lookup _ _ _ _ _ Hd') as (d0 & Hd0 & _ & ->). apply Hsub in Hx as [?|Hx]; [done|eauto].
Qed.

Lemma wd_delay_spec delay :
  0 ≤ delay ≤ INT_MAX → wd_delay delay = Z.min (delay + 1) INT_MAX.
Proof.
  intros Hd. unfold INT_MAX in *. unfold wd_delay. destruct (Z.leb_spec delay 0).
  { replace delay with 0 by lia. done. }
  destruct (decide (delay = 2 ^ 31 - 1)) as [->|]; [by vm_compute|].
  rewrite s32_small by lia. rewrite (proj2 (Z.leb_gt _ _)) by lia. lia.
Qed.

(** wd_cancel on any watchdog. *)
Lemma wd_cancel_cases s tl w :
  tl_ok s tl → w ≠ NULL → is_Some (w_dogs s !! w) →
  returns (wd_cancel active w) s (λ r s',
    (w ∈ tl.*1 ∧ r = 0 ∧ tl_ok s' (remove_tl w tl) ∧ wd_frame tl.*1 s s' ∧ same_calls (w_dogs s) (w_dogs s') ∧
       ∃ d, w_dogs s' !! w = Some d ∧ WDOG_ISACTIVE d = false) ∨
    ((w ∉ tl.*1) ∧ r = -1 ∧ s' = s)).
Proof.
  intros Hok Hw [d Hd]. destruct (WDOG_ISACTIVE d) eqn:Ha.
  - assert (Hin : w ∈ tl.*1) by (apply (tl_active _ _ Hok); eauto).
    pose proof Hin as ([w' t] & E' & Hsp)%list_elem_of_fmap. simpl in E'. subst w'.
    apply list_elem_of_split in Hsp as (t1 & t2 & ->).
    rewrite remove_tl_split by (by eapply tl_nodup).
    eapply returns_mono; [by apply wd_cancel_spec|]. intros r s' (-> & Hok' & Hf & Hc & d0 & _ & Hd').
    left. split_and!; try done. eexists. split; [done|apply isactive_clr].
  - assert (Hin : w ∉ tl.*1).
    { intros Hin. apply (tl_active _ _ Hok) in Hin as (d' & Hd' & ?). congruence. }
    unfold wd_cancel, nonnull. rewrite (proj2 (Z.eqb_neq _ _)) by done. cbn [negb].
    apply returns_bind. eapply returns_dog; [exact Hd|]. rewrite Ha. apply returns_ret. by right.
Qed.

(** A watchdog that can be started: known, and apart from the list header. *)
Definition startable s w : Prop :=
  w ≠ NULL ∧ w ≠ active ∧ w ≠ active + 4 ∧ is_Some (w_mem s !! w) ∧ is_Some (w_dogs s !! w).

Lemma wd_start_inactive s tl w d delay f parms :
  tl_ok s tl → w ∉ tl.*1 → startable s w → w_dogs s !! w = Some d → WDOG_ISACTIVE d = false →
  0 ≤ delay ≤ INT_MAX → (length parms ≤ 2)%nat →
  returns (
    upd w (set_call f (Z.of_nat (length parms)) (parms ++ replicate (Z.to_nat (2 - Z.of_nat (length parms))) 0));;
    lag ← wd_start_insert active w (wd_delay delay);
    upd w (set_lag lag);; upd w WDOG_SETACTIVE;; mret 0) s (λ r s', r = 0 ∧
      tl_ok s' (insert_tl w (wd_delay delay) tl) ∧ wd_frame (w :: tl.*1) s s' ∧
      (∀ x, x ≠ w → callof (w_dogs s') x = callof (w_dogs s) x) ∧ callof (w_dogs s') w = Some (f, parms)).
Proof.
  intros Hok Hw (W0 & W1 & W2 & W3 & W4) Hd Hina Hdel Hlen.
  pose proof (wd_delay_spec delay Hdel) as Hwd. set (t := wd_delay delay) in *.
  assert (Ht : 0 ≤ t ≤ INT_MAX) by (unfold INT_MAX in *; lia).
  apply returns_bind. eapply returns_upd; [exact Hd|]. set (d1 := set_call _ _ _ d).
  assert (Hina1 : WDOG_ISACTIVE d1 = false) by (by rewrite (isactive_flags d d1)).
  pose proof (tl_ok_other _ _ _ _ Hok Hw Hina1) as Hok1. set (s1 := WdState _ _ _ _) in *.
  apply returns_bind. eapply returns_mono; [apply (wd_start_insert_spec s1 tl w t Hok1); [|done]|].
  { split_and!; [done|done|]. constructor; [rewrite !elem_of_cons; tauto|]. apply (tl_repr _ _ Hok). }
  intros lag s2 (t1 & t2 & m' & -> & H1 & H2 & Elag & [Hr Hwr] & ->). simpl in *.
  assert (Hw2 : w ∉ t2.*1) by (rewrite fmap_app in Hw; set_solver).
  assert (Hlk : inherit (<[w:=d1]> (w_dogs s)) (- lag) t2 !! w = Some d1).
  { rewrite inherit_other by done. by rewrite lookup_insert_eq. }
  apply returns_bind. eapply (returns_upd _ d1); [exact Hlk|].
  apply returns_bind. eapply returns_upd; [simpl; by rewrite lookup_insert_eq|]. apply returns_ret. simpl.
  rewrite insert_insert_eq. set (d3 := WDOG_SETACTIVE _).
  split_and!; [done| | | |].
  - rewrite insert_tl_split by done.
    eapply (tl_ok_insert s1 t1 w t t2 d3 m'); try done; try apply isactive_set.
    simpl. unfold CONFIG_MAX_WDOGPARMS. lia.
  - split_and!; [done|done|done| |].
    + intros x. simpl. rewrite (same_kinds_upd _ _ _ _ Hlk) by (subst d3; by rewrite kind_set_flag).
      rewrite inherit_kinds. by apply (same_kinds_upd _ _ d).
    + simpl. intros x Hx.
      rewrite lookup_insert_ne by set_solver. rewrite inherit_other by (rewrite fmap_app in Hx; set_solver).
      by rewrite lookup_insert_ne by set_solver.
  - intros x Hx. unfold callof at 1. simpl. rewrite lookup_insert_ne by done. fold (callof (inherit (<[w:=d1]> (w_dogs s)) (- lag) t2) x).
    rewrite inherit_calls. unfold callof. by rewrite lookup_insert_ne.
  - unfold callof. simpl. rewrite lookup_insert_eq. simpl. by rewrite Nat2Z.id, take_app_length.
Qed.

(** wd_start arms the watchdog for delay + 1 ticks (capped at INT_MAX),
    whether it was running or not; everybody else keeps their time. *)
Lemma wd_start_spec s tl w delay f parms :
  tl_ok s tl → startable s w → 0 ≤ delay ≤ INT_MAX → (length parms ≤ 2)%nat →
  returns (wd_start active w delay f parms) s (λ r s', r = 0 ∧
    tl_ok s' (insert_tl w (wd_delay delay) (remove_tl w tl)) ∧ wd_frame (w :: tl.*1) s s' ∧
    (∀ x, x ≠ w → callof (w_dogs s') x = callof (w_dogs s) x) ∧ callof (w_dogs s') w = Some (f, parms)).
Proof.
  intros Hok Hst Hdel Hlen. pose proof Hst as (W0 & W1 & W2 & W3 & [d Hd]).
  unfold wd_start, nonnull, CONFIG_MAX_WDOGPARMS.
  rewrite (proj2 (Z.eqb_neq _ _)), (proj2 (Z.ltb_ge _ _)), (proj2 (Z.ltb_ge delay _)) by lia. cbn [negb orb].
  apply returns_bind. eapply returns_dog; [exact Hd|]. apply returns_bind.
  destruct (WDOG_ISACTIVE d) eqn:Hact.
  - assert (Hw : w ∈ tl.*1) by (apply (tl_active _ _ Hok); eauto).
    apply list_elem_of_fmap in Hw as ([w' t] & E' & Hin). simpl in E'. subst w'.
    apply list_elem_of_split in Hin as (t1 & t2 & ->).
    pose proof (tl_nodup _ _ Hok) as Hnd. rewrite remove_tl_split by done.
    apply returns_bind. eapply returns_mono; [by apply wd_cancel_spec|].
    intros r s1 (-> & Hok1 & Hf1 & Hc1 & d0 & Hd0 & Hd1). apply returns_ret. pose proof Hf1 as (_ & _ & [Hdom _] & _).
    eapply returns_mono; [apply (wd_start_inactive s1 (t1 ++ t2) w (WDOG_CLRACTIVE d0) delay f parms Hok1); try done|].
    + rewrite fmap_app, fmap_cons in Hnd. rewrite <-Permutation_middle in Hnd.
      apply NoDup_cons in Hnd as [Hnd _]. by rewrite fmap_app.
    + split_and!; [done..| |by rewrite Hd1]. rewrite <-elem_of_dom, Hdom, elem_of_dom. done.
    + apply isactive_clr.
    + intros r2 s2 (-> & Hok2 & Hf2 & Hc2 & Hd2). split_and!; [done|done| | |done].
      * eapply wd_frame_trans; (eapply wd_frame_mono; [|done]); rewrite !fmap_app, ?fmap_cons; set_solver.
      * intros x Hx. by rewrite Hc2, Hc1.
  - assert (Hw : w ∉ tl.*1).
    { intros Hin. apply (tl_active _ _ Hok) in Hin as (d' & Hd' & ?). congruence. }
    rewrite remove_tl_absent by done. apply returns_ret. by apply (wd_start_inactive s tl w d).
Qed.

(** ** wd_gettime *)
Lemma wd_gettime_loop s k1 k2 w t t2 fuel :
  tl_ok s (k1 ++ k2 ++ (w, t) :: t2) → (length k2 < fuel)%nat →
  returns (loop fuel (wd_gettime_body w) (hd_or NULL (k2 ++ (w, t) :: t2).*1, last_time 0 k1)) s
    (λ r s', s' = s ∧ r = t).
Proof.
  revert fuel k1. induction k2 as [|[y u] k2 IH]; intros [|fuel] k1 Hok Hfuel; simpl in Hfuel; try lia;
    rewrite loop_S; apply returns_bind; unfold wd_gettime_body at 1, nonnull.
  - simpl in Hok |- *. destruct (tl_split _ _ _ _ _ Hok) as (d & Hd & _ & Hl & _ & Hw & Ht & Htm).
    unfold INT_MAX in *. rewrite hd_or_cons, (proj2 (Z.eqb_neq _ _)) by done. cbn [negb].
    apply returns_bind. eapply returns_dog; [exact Hd|]. rewrite Z.eqb_refl, s32_small by lia.
    apply returns_ret, returns_ret. split; [done|lia].
  - simpl in Hok |- *. destruct (tl_split _ _ _ _ _ Hok) as (d & Hd & _ & Hl & Hn & Hy & Ht & Htm).
    unfold INT_MAX in *. rewrite hd_or_cons, (proj2 (Z.eqb_neq _ _)) by done. cbn [negb].
    apply returns_bind. eapply returns_dog; [exact Hd|]. rewrite s32_small by lia.
    assert (y ≠ w).
    { intros ->. pose proof (tl_nodup _ _ Hok) as Hnd. rewrite fmap_app in Hnd. simpl in Hnd.
      apply NoDup_app in Hnd as (_ & _ & [Hnd _]%NoDup_cons). apply Hnd. rewrite fmap_app. set_solver. }
    rewrite (proj2 (Z.eqb_neq y w)) by done. apply returns_bind. eapply returns_next; [exact Hn|].
    apply returns_ret. replace (last_time 0 k1 + wd_lag d) with (last_time 0 (k1 ++ [(y, u)]))
      by (rewrite last_time_app, last_time_cons, last_time_nil; simpl; lia).
    apply IH; [|lia]. by rewrite <-app_assoc.
Qed.

Lemma wd_gettime_spec s tl w :
  tl_ok s tl → is_Some (w_dogs s !! w) → w ≠ NULL →
  returns (wd_gettime active w) s (λ r s', s' = s ∧
    ((∃ t, (w, t) ∈ tl ∧ r = t) ∨ ((w ∉ tl.*1) ∧ r = 0))).
Proof.
  intros Hok [d Hd] Hw. unfold wd_gettime, nonnull. rewrite (proj2 (Z.eqb_neq _ _)) by done. cbn [negb].
  apply returns_bind. eapply returns_dog; [exact Hd|]. destruct (WDOG_ISACTIVE d) eqn:Hact.
  - assert (Hin : w ∈ tl.*1) by (apply (tl_active _ _ Hok); eauto).
    apply list_elem_of_fmap in Hin as ([w' t] & E' & Hin). simpl in E'. subst w'.
    pose proof Hin as (t1 & t2 & ->)%list_elem_of_split.
    apply returns_bind. eapply returns_head; [exact Hok|]. apply returns_bind, returns_gets.
    eapply returns_mono; [apply (wd_gettime_loop s [] t1 w t t2); [exact Hok|]|].
    + pose proof (tl_fuel _ _ Hok) as Hf. rewrite length_app in Hf. simpl in Hf. lia.
    + intros r s' [-> ->]. split; [done|]. left. eauto.
  - apply returns_ret. split; [done|]. right. split; [|done].
    intros Hin. apply (tl_active _ _ Hok) in Hin as (d' & Hd' & ?). congruence.
Qed.
End Spec.
