(* ===== verification/WdogTimer.v ===== *)
(** Watchdog timers: the tick.

    The functions called on expiry are parameters.  What the timer relies on
    is that they return, work on the rest of the system only, and keep the
    invariant [I] of it under which they do; [effect] names what they do
    there. *)

From S2P Require Import Prelude Links Queue QueueSq Wdog WdogInv WdogSpec.

Lemma filter_none {A} (P : A → Prop) `{∀ x, Decision (P x)} (l : list A) :
  (∀ x, x ∈ l → ¬ P x) → filter P l = [].
Proof.
  induction l as [|x l IH]; [done|]. intros Hl. rewrite filter_cons, decide_False by set_solver.
  apply IH. set_solver.
Qed.

(** ** Timelines whose times are all ahead *)
Definition positive (tl : timeline) : Prop := Forall (λ e, 1 ≤ e.2) tl.

Lemma insert_tl_positive w t tl : 1 ≤ t → positive tl → positive (insert_tl w t tl).
Proof.
  intros Ht Hp. unfold positive in *. induction Hp as [|e tl He Htl IH]; simpl.
  - by apply Forall_singleton.
  - destruct (e.2 <=? t); [by constructor|]. by do 2 (constructor; [done|]).
Qed.

Lemma remove_tl_positive w tl : positive tl → positive (remove_tl w tl).
Proof.
  unfold positive, remove_tl. rewrite !Forall_forall. intros Hp e [_ He]%list_elem_of_filter. auto.
Qed.

Lemma insert_tl_elem w t tl e : e ∈ insert_tl w t tl ↔ e = (w, t) ∨ e ∈ tl.
Proof.
  induction tl as [|e' tl IH]; simpl; [set_solver|]. destruct (e'.2 <=? t); set_solver.
Qed.

Section Timer.
Context {E : Type} `{KernelAlloc E}.
Variables active : Z.
Variable call : Z → list Z → M (wdstate E) unit.
Variable effect : Z → list Z → E → E.
Variable I : E → Prop.
Implicit Types (s : wdstate E) (tl : timeline).

Definition handlers_ok : Prop := ∀ f args s, I (w_ext s) →
  returns (call f args) s (λ _ s',
    s' = WdState (w_mem s) (w_dogs s) (g_wdnfree s) (effect f args (w_ext s)) ∧ I (effect f args (w_ext s))).

Local Abbreviation tl_ok := (tl_ok (E:=E) active).

Definition run_call (c : option (Z * list Z)) (e : E) : E :=
  match c with Some (f, args) => effect f args e | None => e end.

(** The calls of a list of watchdogs, in order. *)
Definition run_calls (D : gmap Z wdog_s) (xs : list Z) (e : E) : E :=
  foldl (λ e x, run_call (callof D x) e) e xs.

Lemma run_calls_app D xs ys e : run_calls D (xs ++ ys) e = run_calls D ys (run_calls D xs e).
Proof. unfold run_calls. apply foldl_app. Qed.

(** The same calls and kinds of watchdogs. *)
Definition same_dogs (D D' : gmap Z wdog_s) : Prop := same_calls D D' ∧ same_kinds D D'.

#[local] Instance same_dogs_refl : Reflexive same_dogs.
Proof. done. Qed.
#[local] Instance same_dogs_trans : Transitive same_dogs.
Proof. intros D1 D2 D3 [H1 K1] [H2 K2]. split; intros x; [by rewrite H2, H1|by rewrite K2, K1]. Qed.

Lemma run_calls_same D D' xs e : same_dogs D D' → run_calls D' xs e = run_calls D xs e.
Proof.
  intros [Hs _]. unfold run_calls. revert e. induction xs as [|x xs IH]; intros e; simpl; [done|].
  by rewrite Hs, IH.
Qed.

(** What expiries leave alone besides: the count of free watchdogs, and the
    words and watchdogs outside the list [F]. *)
Definition wd_unchanged (F : list Z) (s s' : wdstate E) : Prop :=
  same_dogs (w_dogs s) (w_dogs s') ∧ g_wdnfree s' = g_wdnfree s ∧
  writes (active :: (active + 4) :: F) (w_mem s) (w_mem s') ∧ ∀ x, x ∉ F → w_dogs s' !! x = w_dogs s !! x.

Lemma wd_unchanged_refl F s : wd_unchanged F s s.
Proof. split_and!; [done|done|apply writes_refl|done]. Qed.

Lemma wd_unchanged_trans F F' s1 s2 s3 :
  F' ⊆ F → wd_unchanged F s1 s2 → wd_unchanged F' s2 s3 → wd_unchanged F s1 s3.
Proof.
  intros HF (A1 & A2 & A3 & A4) (B1 & B2 & B3 & B4). split_and!; [by etrans|congruence| |].
  - eapply writes_trans; [done|]. eapply writes_mono; [|done]. set_solver.
  - intros x Hx. rewrite B4 by set_solver. auto.
Qed.

(** ** One expiry *)
Definition due tl : timeline := filter (λ e, e.2 ≤ 0) tl.
Definition pending tl : timeline := filter (λ e, 0 < e.2) tl.

Lemma due_none s x t tl : tl_ok s ((x, t) :: tl) → 0 < t → due ((x, t) :: tl) = [] ∧ pending ((x, t) :: tl) = (x, t) :: tl.
Proof.
  intros Hok Ht. destruct (tl_lags _ _ _ Hok) as (_ & _ & Hl). apply lags_ok_mono in Hl as [Hl _].
  assert (Hall : Forall (λ e, 0 < e.2) ((x, t) :: tl)).
  { constructor; [done|]. eapply Forall_impl; [exact Hl|]. simpl. lia. }
  unfold due, pending. revert Hall. generalize ((x, t) :: tl). clear. intros l Hall.
  induction Hall as [|e l He _ IH]; [done|]. rewrite !filter_cons.
  rewrite decide_False, decide_True by lia. destruct IH as [-> ->]. done.
Qed.

Lemma expire_one s x tl :
  handlers_ok → tl_ok s ((x, 0) :: tl) → I (w_ext s) →
  returns (wd_expiration_body active call tt) s (λ r s', r = inl tt ∧ tl_ok s' tl ∧ I (w_ext s') ∧
    wd_unchanged ((x, 0) :: tl).*1 s s' ∧ w_ext s' = run_call (callof (w_dogs s) x) (w_ext s)).
Proof.
  intros Hh Hok HI. destruct (tl_split _ _ [] _ _ _ Hok) as (d & Hd & Ha & Hl & Hn & Hx & _).
  rewrite last_time_nil in Hl. pose proof (tl_repr _ _ _ Hok) as Hr. simpl in Hr.
  pose proof (tl_argc _ _ _ Hok x d ltac:(set_solver) Hd) as Hargc. pose proof (tl_nodup _ _ _ Hok) as Hnd.
  unfold wd_expiration_body, nonnull. apply returns_bind. eapply returns_head; [exact Hok|].
  change (hd_or NULL ((x, 0) :: tl).*1) with x. rewrite (proj2 (Z.eqb_neq _ _)) by done. cbn [negb].
  apply returns_bind. eapply returns_dog; [exact Hd|]. rewrite (proj2 (Z.leb_le _ _)) by lia.
  apply returns_bind. unfold links at 1. apply returns_zoom.
  eapply returns_mono; [by apply sq_remfirst_spec|]. intros r m' (-> & [Hr' Hwr] & _).
  apply returns_bind. unfold links at 1. apply returns_zoom. eapply returns_load.
  { unfold HEAD. rewrite Z.add_0_r. apply Hr'. }
  apply returns_bind. simpl.
  eapply (returns_mono _ _ (λ _ s1, s1 = WdState m' (inherit (w_dogs s) (wd_lag d) tl) (g_wdnfree s) (w_ext s))).
  { destruct tl as [|[y u] tl]; simpl; [by apply returns_ret|]. rewrite hd_or_cons.
    assert (Hok2 : tl_ok s ([(x, 0)] ++ (y, u) :: tl)) by done.
    destruct (tl_split _ _ _ _ _ _ Hok2) as (dy & Hdy & _ & Hly & _ & Hy & Hty & Htym).
    rewrite last_time_cons, last_time_nil in Hly, Hty. simpl in Hly, Hty. unfold INT_MAX in *.
    rewrite (proj2 (Z.eqb_neq _ _)) by done. cbn [negb]. apply returns_bind. eapply returns_dog; [exact Hd|].
    eapply returns_upd; [exact Hdy|]. simpl. rewrite s32_small by lia. f_equal.
    apply map_eq. intros z. destruct (decide (z = y)) as [->|].
    - by rewrite lookup_insert_eq, lookup_alter_eq, Hdy.
    - by rewrite lookup_insert_ne, lookup_alter_ne by done. }
  intros _ s1 ->. simpl in Hnd. apply NoDup_cons in Hnd as [Hnd _].
  assert (Hlk : inherit (w_dogs s) (wd_lag d) tl !! x = Some d) by (by rewrite inherit_other).
  apply returns_bind. eapply returns_upd; [exact Hlk|]. simpl. apply returns_bind.
  eapply (returns_dog x (WDOG_CLRACTIVE d)); [simpl; by rewrite lookup_insert_eq|].
  apply returns_bind, returns_assert.
  { simpl. rewrite (proj2 (Z.leb_le _ _)), (proj2 (Z.leb_le _ _)) by lia. done. }
  apply returns_bind. eapply returns_mono; [apply Hh; exact HI|]. simpl. intros _ s2 [-> HI2]. apply returns_ret.
  split_and!; [done| |done| |].
  - by apply (tl_ok_remove active s [] x 0 tl d m').
  - split_and!; simpl; [split| |done|].
    + intros y. rewrite (same_calls_upd _ _ _ _ Hlk) by done. apply inherit_calls.
    + intros y. rewrite (same_kinds_upd _ _ _ _ Hlk) by apply kind_clr_flag. apply inherit_kinds.
    + done.
    + intros y Hy. rewrite lookup_insert_ne by set_solver. apply inherit_other. set_solver.
  - simpl. unfold callof. by rewrite Hd.
Qed.

Lemma expire_all s tl fuel :
  handlers_ok → tl_ok s tl → (length tl < fuel)%nat → I (w_ext s) →
  returns (loop fuel (wd_expiration_body active call) tt) s (λ _ s', tl_ok s' (pending tl) ∧ I (w_ext s') ∧
    wd_unchanged tl.*1 s s' ∧ w_ext s' = run_calls (w_dogs s) (due tl).*1 (w_ext s)).
Proof.
  intros Hh. revert s fuel. induction tl as [|[x t] tl IH]; intros s [|fuel] Hok Hfuel HI; simpl in Hfuel; try lia;
    rewrite loop_S; apply returns_bind.
  { unfold wd_expiration_body at 1. apply returns_bind. eapply returns_head; [exact Hok|]. simpl.
    apply returns_ret, returns_ret. split_and!; [done|done|apply wd_unchanged_refl|done]. }
  destruct (tl_split _ _ [] _ _ _ Hok) as (d & Hd & _ & Hl & _ & Hx & Ht & _).
  rewrite last_time_nil in Hl, Ht. destruct (decide (t = 0)) as [->|Hne].
  - eapply returns_mono; [by apply (expire_one s x tl)|]. intros r s1 (-> & Hok1 & HI1 & Hs1 & He1).
    eapply returns_mono; [apply (IH s1); [done|lia|done]|]. intros [] s2 (Hok2 & HI2 & Hs2 & He2).
    unfold due, pending. rewrite !filter_cons. rewrite decide_False, decide_True by (simpl; lia).
    split_and!; [done|done| |].
    + eapply wd_unchanged_trans; [|exact Hs1|exact Hs2]. set_solver.
    + rewrite He2, (run_calls_same (w_dogs s) (w_dogs s1)), He1 by apply Hs1. done.
  - destruct (due_none _ _ _ _ Hok) as [Ed Ep]; [lia|]. rewrite Ed, Ep.
    unfold wd_expiration_body at 1, nonnull. apply returns_bind. eapply returns_head; [exact Hok|].
    change (hd_or NULL ((x, t) :: tl).*1) with x. rewrite (proj2 (Z.eqb_neq _ _)) by done. cbn [negb].
    apply returns_bind. eapply returns_dog; [exact Hd|]. rewrite (proj2 (Z.leb_gt _ _)) by lia.
    apply returns_ret, returns_ret. split_and!; [done|done|apply wd_unchanged_refl|done].
Qed.

(** ** One tick *)
Definition tick tl : timeline := (λ e, (e.1, e.2 - 1)) <$> tl.

Lemma tick_fst tl : (tick tl).*1 = tl.*1.
Proof. unfold tick. rewrite <-list_fmap_compose. by apply list_fmap_ext. Qed.

Lemma lags_ok_tick D acc tl : lags_ok D acc tl → lags_ok D (acc - 1) (tick tl).
Proof.
  revert acc. induction tl as [|[x t] tl IH]; intros acc; simpl; [done|].
  intros ((d & Hd & Hl) & Ht & Hok). split_and!; [|lia|by apply IH]. exists d. split; [done|lia].
Qed.

Lemma tl_ok_tick s x t tl d :
  tl_ok s ((x, t) :: tl) → 1 ≤ t → w_dogs s !! x = Some d →
  tl_ok (WdState (w_mem s) (<[x:=set_lag (wd_lag d - 1) d]> (w_dogs s)) (g_wdnfree s) (w_ext s))
    (tick ((x, t) :: tl)).
Proof.
  intros Hok Ht Hd. pose proof (tl_nodup _ _ _ Hok) as Hnd. pose proof Hok as [Hr Hl Hm Ha Hc].
  simpl in Hl. destruct Hl as ((d' & Hd' & Hlag) & _ & Hl). rewrite Hd in Hd'. injection Hd' as <-.
  simpl in Hnd. apply NoDup_cons in Hnd as [Hx _]. split; simpl.
  - rewrite tick_fst. done.
  - split_and!; [|lia|].
    + eexists. rewrite lookup_insert_eq. split; [done|]. simpl. lia.
    + eapply (lags_ok_frame (w_dogs s)); [|by apply lags_ok_tick]. intros y Hy.
      rewrite tick_fst in Hy. unfold same_lag. rewrite lookup_insert_ne; [done|]. by intros ->.
  - apply Forall_cons in Hm as [Hm0 Hm]. constructor; [simpl in *; lia|].
    apply Forall_fmap. eapply Forall_impl; [exact Hm|]. simpl. lia.
  - intros y. rewrite tick_fst. change (x :: tl.*1) with ((x, t) :: tl).*1. rewrite Ha.
    destruct (decide (y = x)) as [->|]; [|by rewrite lookup_insert_ne].
    rewrite lookup_insert_eq, Hd. split; intros (d1 & [= <-] & H1); eexists; (split; [done|]).
    + rewrite <-H1. by apply isactive_flags.
    + rewrite <-H1. by apply isactive_flags.
  - intros y d1 Hy. rewrite tick_fst in Hy. destruct (decide (y = x)) as [->|].
    + rewrite lookup_insert_eq. intros [= <-]. simpl. by eapply (Hc x d).
    + rewrite lookup_insert_ne by done. apply Hc. done.
Qed.

Lemma wd_timer_spec s tl :
  handlers_ok → tl_ok s tl → positive tl → I (w_ext s) →
  returns (wd_timer active call) s (λ _ s',
    tl_ok s' (pending (tick tl)) ∧ positive (pending (tick tl)) ∧ I (w_ext s') ∧ wd_unchanged tl.*1 s s' ∧
    w_ext s' = run_calls (w_dogs s) (due (tick tl)).*1 (w_ext s)).
Proof.
  intros Hh Hok Hp HI.
  assert (Hpp : ∀ l, positive (pending l)).
  { intros l. unfold positive, pending. rewrite Forall_forall. intros e [He _]%list_elem_of_filter. lia. }
  unfold wd_timer, nonnull. apply returns_bind. eapply returns_head; [exact Hok|].
  destruct tl as [|[x t] tl].
  { apply returns_ret. split_and!; [done|apply Hpp|done|apply wd_unchanged_refl|done]. }
  apply Forall_cons in Hp as [Ht _]. simpl in Ht.
  destruct (tl_split _ _ [] _ _ _ Hok) as (d & Hd & _ & Hl & _ & Hx & _ & Htm).
  rewrite last_time_nil in Hl. unfold INT_MAX in *.
  change (hd_or NULL ((x, t) :: tl).*1) with x. rewrite (proj2 (Z.eqb_neq _ _)) by done. cbn [negb].
  apply returns_bind. eapply returns_upd; [exact Hd|]. rewrite s32_small by lia.
  pose proof (tl_ok_tick _ _ _ _ _ Hok Ht Hd) as Hok1. set (s1 := WdState _ _ _ _) in *.
  assert (Hs1 : wd_unchanged ((x, t) :: tl).*1 s s1).
  { split_and!; [split; [by apply (same_calls_upd _ _ d)|by apply (same_kinds_upd _ _ d)]|done|apply writes_refl|].
    intros y Hy. simpl. rewrite lookup_insert_ne by set_solver. done. }
  unfold wd_expiration. apply returns_bind. eapply returns_head; [exact Hok1|].
  change (hd_or NULL (tick ((x, t) :: tl)).*1) with x. apply returns_bind.
  eapply returns_dog; [simpl; by rewrite lookup_insert_eq|]. simpl.
  destruct (Z.leb_spec (wd_lag d - 1) 0).
  - apply returns_bind, returns_gets. eapply returns_mono; [apply (expire_all s1 (tick ((x, t) :: tl))); [done|done| |done]|].
    + pose proof (tl_fuel _ _ _ Hok1) as Hf. simpl in *. lia.
    + intros [] s2 (Hok2 & HI2 & Hs2 & He2). rewrite tick_fst in Hs2. split_and!; [done|apply Hpp|done| |].
      * by eapply wd_unchanged_trans.
      * rewrite He2. by apply run_calls_same, Hs1.
  - apply returns_ret. simpl in Hok1. destruct (due_none s1 x (t - 1) (tick tl) Hok1) as [Ed Ep]; [lia|].
    change (tick ((x, t) :: tl)) with ((x, t - 1) :: tick tl). split_and!; [by rewrite Ep|apply Hpp|done|done|by rewrite Ed].
Qed.

(** ** Many ticks *)
Fixpoint ticks (n : nat) : M (wdstate E) unit :=
  match n with O => mret tt | S n => wd_timer active call;; ticks n end.

Definition within (n : Z) tl : timeline := filter (λ e, e.2 ≤ n) tl.
Definition after (n : Z) tl : timeline := (λ e, (e.1, e.2 - n)) <$> filter (λ e, n < e.2) tl.

(** Sorted timelines split at any time. *)
Lemma within_split s tl n :
  tl_ok s tl → positive tl → 0 ≤ n →
  (within (n + 1) tl).*1 = (due (tick tl)).*1 ++ (within n (pending (tick tl))).*1 ∧
  after (n + 1) tl = after n (pending (tick tl)).
Proof.
  intros Hok _ Hn. pose proof (tl_lags _ _ _ Hok) as Hl. revert Hl. generalize 0 at 1.
  unfold within, due, pending, after. clear Hok. induction tl as [|[x t] tl IH]; intros acc Hl; [done|].
  destruct Hl as (_ & _ & Hl). pose proof (lags_ok_mono _ _ _ Hl) as [Hm _]. destruct (IH _ Hl) as [IH1 IH2].
  cbn [tick fmap list_fmap fst snd]. fold (tick tl). rewrite !filter_cons. cbn [fst snd].
  destruct (decide (t - 1 ≤ 0)).
  - rewrite (decide_True (P:=t ≤ n + 1)) by lia. rewrite (decide_False (P:=0 < t - 1)) by lia.
    rewrite (decide_False (P:=n + 1 < t)) by lia. split; [exact (f_equal (cons x) IH1)|exact IH2].
  - assert (Hd : filter (λ e : Z * Z, e.2 ≤ 0) (tick tl) = []).
    { apply filter_none. unfold tick. intros e (e' & -> & He')%list_elem_of_fmap.
      rewrite Forall_forall in Hm. specialize (Hm e' He'). simpl in *. lia. }
    rewrite Hd in IH1 |- *. rewrite (decide_True (P:=0 < t - 1)) by lia.
    rewrite !filter_cons. cbn [fst snd].
    destruct (decide (t ≤ n + 1)).
    + rewrite (decide_False (P:=n + 1 < t)), (decide_True (P:=t - 1 ≤ n)), (decide_False (P:=n < t - 1)) by lia.
      split; [exact (f_equal (cons x) IH1)|exact IH2].
    + rewrite (decide_True (P:=n + 1 < t)), (decide_False (P:=t - 1 ≤ n)), (decide_True (P:=n < t - 1)) by lia.
      split; [exact IH1|]. rewrite !fmap_cons, IH2. cbn [fst snd]. do 2 f_equal. lia.
Qed.

Lemma ticks_spec s tl n :
  handlers_ok → tl_ok s tl → positive tl → I (w_ext s) →
  returns (ticks n) s (λ _ s', tl_ok s' (after (Z.of_nat n) tl) ∧ same_dogs (w_dogs s) (w_dogs s') ∧
    I (w_ext s') ∧ w_ext s' = run_calls (w_dogs s) (within (Z.of_nat n) tl).*1 (w_ext s)).
Proof.
  intros Hh. revert s tl. induction n as [|n IH]; intros s tl Hok Hp HI.
  { apply returns_ret. change (Z.of_nat 0) with 0.
    assert (E0 : after 0 tl = tl ∧ within 0 tl = []).
    { unfold after, within. clear -Hp. induction Hp as [|[x t] tl Ht _ IH]; [done|]. simpl in Ht.
      rewrite !filter_cons. cbn [snd]. rewrite decide_True, decide_False by lia.
      destruct IH as [IH1 IH2]. split; [|exact IH2]. rewrite fmap_cons, IH1. cbn [fst snd]. do 2 f_equal. lia. }
    destruct E0 as [-> ->]. done. }
  simpl. apply returns_bind. eapply returns_mono; [by apply wd_timer_spec|].
  intros [] s1 (Hok1 & Hp1 & HI1 & Hs1 & He1). eapply returns_mono; [by apply (IH s1)|].
  intros [] s2 (Hok2 & Hs2 & HI2 & He2).
  destruct (within_split s tl (Z.of_nat n)) as [E1 E2]; [done|done|lia|].
  replace (Z.of_nat (S n)) with (Z.of_nat n + 1) by lia. rewrite E1, E2. split_and!; [done| |done|].
  - etrans; [apply Hs1|done].
  - rewrite He2, (run_calls_same (w_dogs s) (w_dogs s1)), He1, run_calls_app by apply Hs1. done.
Qed.
End Timer.
