(* ===== verification/WdogThms.v ===== *)
(** The theorems about watchdog timers. *)

From S2P Require Import Prelude Links Queue QueueSq MmApi Wdog WdogInv WdogSpec WdogTimer.

(** Outside interrupts the kernel allocator is the heap of mm/mm_heap; the
    second component is errno. *)
#[global] Instance heap_alloc (nodelist pid : Z) : KernelAlloc (heap * Z) := {
  kmm_malloc n := zoom fst (λ h x, (h, x.2)) (mm_malloc nodelist pid n);
  sched_kfree p := zoom fst (λ h x, (h, x.2)) (mm_free nodelist pid p);
  wd_set_errno e := modify (λ x, (x.1, e));
}.

(** ** A small system for the witnesses: two watchdogs at 200 and 300, the
    list header at 100, and a log of calls as the rest of the system. *)
Abbreviation log := (list (Z * list Z)).
#[global] Instance log_alloc : KernelAlloc log := {
  kmm_malloc := λ _, mret NULL;
  sched_kfree := λ _, mret tt;
  wd_set_errno := λ _, mret tt;
}.

Definition demo_wd : wdstate log :=
  WdState (list_to_map [(100, 0); (104, 0); (200, 0); (300, 0)])
    (list_to_map [(200, Wdog 0 0 0 0 [0; 0]); (300, Wdog 0 0 0 0 [0; 0])]) 0 [].

Definition demo_call (f : Z) (args : list Z) : M (wdstate log) unit :=
  modify (λ s, WdState (w_mem s) (w_dogs s) (g_wdnfree s) (w_ext s ++ [(f, args)])).

Lemma demo_handlers : handlers_ok demo_call (λ f args l, l ++ [(f, args)]) (λ _, True).
Proof. by intros f args s _. Qed.

Lemma demo_tl_ok : tl_ok 100 demo_wd [].
Proof.
  split; simpl; try done.
  - split_and!; try done. apply (bool_decide_unpack _). reflexivity.
  - intros x. split; [set_solver|]. intros (d & Hd & Ha). unfold demo_wd in Hd. simpl in Hd.
    apply lookup_insert_Some in Hd as [[<- <-]|[_ Hd]]; [done|].
    apply lookup_insert_Some in Hd as [[<- <-]|[_ Hd]]; [done|]. done.
  - set_solver.
Qed.

Lemma demo_startable : startable 100 demo_wd 200.
Proof. split_and!; try done; by eexists. Qed.

(** The same with the watchdog at 200 running, six ticks before it expires. *)
Definition demo_run : wdstate log :=
  WdState (list_to_map [(100, 200); (104, 200); (200, 0); (300, 0)])
    (list_to_map [(200, Wdog 77 6 1 1 [5; 0]); (300, Wdog 0 0 0 0 [0; 0])]) 0 [].

Lemma demo_run_ok : tl_ok 100 demo_run [(200, 6)].
Proof.
  split; simpl.
  - split_and!; try done; [apply (bool_decide_unpack _); reflexivity|by repeat constructor].
  - split_and!; [by eexists|lia|done].
  - repeat constructor. unfold INT_MAX. simpl. lia.
  - intros x. rewrite list_elem_of_singleton. split; [intros ->; by eexists|]. intros (d & Hd & Ha).
    apply lookup_insert_Some in Hd as [[<- <-]|[_ Hd]]; [done|].
    apply lookup_insert_Some in Hd as [[<- <-]|[_ Hd]]; done.
  - intros x d ->%list_elem_of_singleton Hd.
    apply lookup_insert_Some in Hd as [[_ <-]|[? _]]; [|done]. unfold CONFIG_MAX_WDOGPARMS. simpl. lia.
Qed.

(** C21: wd_start arms a watchdog for delay + 1 ticks (capped at INT_MAX) with
    the given function and arguments: it is placed behind all watchdogs that
    expire no later, a previous start of the same watchdog is undone, and no
    other watchdog's expiry changes. *)
Theorem wd_start_correct {E} `{KernelAlloc E} active (s : wdstate E) tl w delay f parms :
  tl_ok active s tl → startable active s w → 0 ≤ delay ≤ INT_MAX → (length parms ≤ 2)%nat →
  returns (wd_start active w delay f parms) s (λ r s', r = 0 ∧
    tl_ok active s' (insert_tl w (Z.min (delay + 1) INT_MAX) (remove_tl w tl)) ∧
    wd_frame active (w :: tl.*1) s s' ∧
    (∀ x, x ≠ w → callof (w_dogs s') x = callof (w_dogs s) x) ∧ callof (w_dogs s') w = Some (f, parms)).
Proof.
  intros Hok Hst Hd Hp. rewrite <-wd_delay_spec by done. by apply wd_start_spec.
Qed.

Lemma wd_start_correct_witness :
  returns (wd_start 100 200 5 77 [1; 2]) demo_wd (λ r s', r = 0 ∧ tl_ok 100 s' [(200, 6)] ∧
    wd_frame 100 [200] demo_wd s' ∧
    (∀ x, x ≠ 200 → callof (w_dogs s') x = callof (w_dogs demo_wd) x) ∧
    callof (w_dogs s') 200 = Some (77, [1; 2])).
Proof.
  apply (wd_start_correct 100 demo_wd [] 200 5 77 [1; 2]);
    [apply demo_tl_ok|apply demo_startable|unfold INT_MAX; lia|simpl; lia].
Defined.

(** wd_cancel takes an active watchdog off the timeline, leaving the expiry
    of every other watchdog as it was, and marks it inactive; on a watchdog
    that is not active it returns ERROR and changes nothing. *)
Theorem wd_cancel_correct {E} `{KernelAlloc E} active (s : wdstate E) tl w :
  tl_ok active s tl → w ≠ NULL → is_Some (w_dogs s !! w) →
  returns (wd_cancel active w) s (λ r s',
    (w ∈ tl.*1 ∧ r = 0 ∧ tl_ok active s' (remove_tl w tl) ∧ wd_frame active tl.*1 s s' ∧
       ∃ d, w_dogs s' !! w = Some d ∧ WDOG_ISACTIVE d = false) ∨
    ((w ∉ tl.*1) ∧ r = -1 ∧ s' = s)).
Proof.
  intros Hok Hw Hd. eapply returns_mono; [by apply wd_cancel_cases|].
  intros r s' [(Hin & -> & Hok' & Hf & _ & Hina)|(Hn & -> & ->)]; [left|by right]. done.
Qed.

Lemma wd_cancel_correct_witness :
  returns (wd_cancel 100 200) demo_run (λ r s',
    (200 ∈ [200] ∧ r = 0 ∧ tl_ok 100 s' [] ∧ wd_frame 100 [200] demo_run s' ∧
       ∃ d, w_dogs s' !! 200 = Some d ∧ WDOG_ISACTIVE d = false) ∨
    ((200 ∉ [200]) ∧ r = -1 ∧ s' = demo_run)).
Proof. apply (wd_cancel_correct 100 demo_run [(200, 6)] 200); [apply demo_run_ok|done|by eexists]. Defined.

(** Wd_gettime returns the ticks until the watchdog expires, zero when it
    is not active. *)
Theorem wd_gettime_correct {E} `{KernelAlloc E} active (s : wdstate E) tl w :
  tl_ok active s tl → is_Some (w_dogs s !! w) → w ≠ NULL →
  returns (wd_gettime active w) s (λ r s', s' = s ∧
    ((∃ t, (w, t) ∈ tl ∧ r = t) ∨ ((w ∉ tl.*1) ∧ r = 0))).
Proof. apply wd_gettime_spec. Qed.

Lemma wd_gettime_correct_witness :
  returns (wd_gettime 100 200) demo_run (λ r s', s' = demo_run ∧
    ((∃ t, (200, t) ∈ [(200, 6)] ∧ r = t) ∨ ((200 ∉ [200]) ∧ r = 0))).
Proof. apply (wd_gettime_correct 100 demo_run [(200, 6)] 200); [apply demo_run_ok|by eexists|done]. Defined.

(** C8: the timer is exact: [n] ticks call exactly the functions of the
    watchdogs due within [n] ticks, each once, with its arguments, in order of
    expiry, and all others are [n] ticks closer to their expiry. *)
Theorem wd_timer_exact {E} `{KernelAlloc E} active call effect I (s : wdstate E) tl n :
  handlers_ok call effect I → tl_ok active s tl → positive tl → I (w_ext s) →
  returns (ticks active call n) s (λ _ s', tl_ok active s' (after (Z.of_nat n) tl) ∧
    same_dogs (w_dogs s) (w_dogs s') ∧ I (w_ext s') ∧
    w_ext s' = run_calls effect (w_dogs s) (within (Z.of_nat n) tl).*1 (w_ext s)).
Proof. intros. by apply ticks_spec. Qed.

Lemma wd_timer_exact_witness :
  returns (ticks 100 demo_call 7) demo_run (λ _ s', tl_ok 100 s' [] ∧
    same_dogs (w_dogs demo_run) (w_dogs s') ∧ True ∧ w_ext s' = [(77, [5])]).
Proof.
  apply (wd_timer_exact 100 demo_call (λ f args l, l ++ [(f, args)]) (λ _, True) demo_run [(200, 6)] 7);
    [apply demo_handlers|apply demo_run_ok|repeat constructor; simpl; lia|done].
Defined.

(** A started watchdog fires after exactly delay + 1 ticks: running [n]
    ticks after wd_start makes its call if and only if delay + 1 <= n. *)
Theorem wd_start_fires_on_time {E} `{KernelAlloc E} active call effect I (s : wdstate E) tl w delay f parms n :
  handlers_ok call effect I → tl_ok active s tl → positive tl → I (w_ext s) → startable active s w →
  0 ≤ delay < INT_MAX → (length parms ≤ 2)%nat →
  returns (wd_start active w delay f parms;; ticks active call n) s (λ _ s', ∃ D xs,
    w_ext s' = run_calls effect D xs (w_ext s) ∧ callof D w = Some (f, parms) ∧
    (w ∈ xs ↔ delay + 1 ≤ Z.of_nat n) ∧ ∀ x, x ≠ w → x ∈ xs ↔ ∃ t, (x, t) ∈ tl ∧ t ≤ Z.of_nat n).
Proof.
  intros Hh Hok Hp HI Hst Hd Hl. unfold INT_MAX in Hd. apply returns_bind.
  eapply returns_mono; [apply (wd_start_spec active s tl w delay f parms); try done; unfold INT_MAX; lia|].
  intros r s1 (_ & Hok1 & (He1 & _) & _ & Hf).
  rewrite wd_delay_spec, Z.min_l in Hok1 by (unfold INT_MAX; lia).
  set (tl1 := insert_tl w (delay + 1) (remove_tl w tl)) in *.
  eapply returns_mono; [apply (ticks_spec active call effect I s1 tl1 n Hh Hok1)|].
  { apply insert_tl_positive; [lia|]. by apply remove_tl_positive. }
  { by rewrite He1. }
  intros [] s2 (_ & _ & _ & He2). exists (w_dogs s1), (within (Z.of_nat n) tl1).*1.
  assert (Hx : ∀ x, x ∈ (within (Z.of_nat n) tl1).*1 ↔ ∃ t, (x, t) ∈ tl1 ∧ t ≤ Z.of_nat n).
  { intros x. unfold within. rewrite list_elem_of_fmap. setoid_rewrite list_elem_of_filter. split.
    - intros ([y t] & -> & Ht & Hin). exists t. done.
    - intros (t & Hin & Ht). by exists (x, t). }
  split_and!.
  - by rewrite He2, He1.
  - done.
  - rewrite Hx. subst tl1. setoid_rewrite insert_tl_elem. unfold remove_tl.
    setoid_rewrite list_elem_of_filter. split.
    + intros (t & [[= ->]|[Hne _]] & Ht); [done|]. by simpl in Hne.
    + intros Hle. exists (delay + 1). split; [by left|done].
  - intros x Hne. rewrite Hx. subst tl1. setoid_rewrite insert_tl_elem. unfold remove_tl.
    setoid_rewrite list_elem_of_filter. split; intros (t & Hin & Ht); exists t; (split; [|done]).
    + destruct Hin as [[= ? ?]|[_ ?]]; done.
    + right. by split.
Qed.

Lemma wd_start_fires_on_time_witness :
  returns (wd_start 100 200 5 77 [1];; ticks 100 demo_call 6) demo_wd (λ _ s', ∃ D xs,
    w_ext s' = run_calls (λ f args l, l ++ [(f, args)]) D xs [] ∧ callof D 200 = Some (77, [1]) ∧
    (200 ∈ xs ↔ 5 + 1 ≤ Z.of_nat 6) ∧ ∀ x, x ≠ 200 → x ∈ xs ↔ ∃ t, (x, t) ∈ [] ∧ t ≤ Z.of_nat 6).
Proof.
  apply (wd_start_fires_on_time 100 demo_call (λ f args l, l ++ [(f, args)]) (λ _, True) demo_wd [] 200 5 77 [1] 6);
    [apply demo_handlers|apply demo_tl_ok|constructor|done|apply demo_startable|unfold INT_MAX; lia|simpl; lia].
Defined.
