(* ===== verification/WdogSys.v ===== *)
(** Watchdog timers: the module as a whole.

    The invariant [dogs_ok] ties the timeline, the list of free watchdogs and
    the watchdogs in use together: the preallocated watchdogs are free or in
    use, each once; the others in use are blocks of the kernel allocator, of
    which [AllocLaws] states what the watchdogs need. *)

From S2P Require Import Prelude Links Queue QueueSq Wdog WdogInv WdogSpec WdogTimer.

(** * The pool of free watchdogs *)

Section WdogPool.
Context {E : Type} `{KernelAlloc E}.
Variables active free : Z.
Implicit Types (s : wdstate E) (x w : Z) (fl : list Z).

(** The free list holds [fl] and g_wdnfree counts it. *)
Record pool_ok s fl : Prop := {
  pool_repr : sq_repr (w_mem s) free fl;
  pool_count : g_wdnfree s = Z.of_nat (length fl);
  pool_dogs : ∀ x, x ∈ fl → is_Some (w_dogs s !! x);
  pool_max : (length fl ≤ 6)%nat;
}.

Definition pool_ready (irq : bool) fl : Prop := irq = true ∨ CONFIG_WDOG_INTRESERVE < Z.of_nat (length fl).

(** wd_create takes the first free watchdog, with clear flags. *)
Lemma wd_create_pool irq s x fl :
  pool_ok s (x :: fl) → pool_ready irq (x :: fl) →
  returns (wd_create free irq) s (λ w s', w = x ∧ pool_ok s' fl ∧ w_ext s' = w_ext s ∧
    (x ∉ fl) ∧ x ≠ NULL ∧ x ≠ free ∧ x ≠ free + 4 ∧ is_Some (w_mem s' !! x) ∧
    ∃ d, w_dogs s' !! x = Some d ∧ wd_flags d = 0).
Proof.
  intros [Hr Hn Hd Hm] Hready. destruct (Hd x) as [d Hx]; [set_solver|].
  pose proof (sq_elem _ x Hr ltac:(set_solver)) as (Hmx & Hx0 & Hxf & Hxf4).
  pose proof (sq_nodup _ Hr) as [Hxn _]%NoDup_cons.
  unfold wd_create. apply returns_bind, returns_gets.
  replace (_ || irq) with true by (rewrite Hn; destruct Hready as [->|]; [by rewrite orb_true_r|lia]).
  apply returns_bind. apply returns_zoom. eapply returns_mono; [by apply sq_remfirst_spec|].
  intros r m' (-> & [Hr' Hw] & Hnx). cbv beta. apply returns_bind, returns_gets, returns_bind, returns_assert.
  { apply Z.ltb_lt. cbn. rewrite Hn. simpl length. lia. }
  apply returns_bind, returns_modify, returns_bind. simpl.
  unfold nonnull. rewrite (proj2 (Z.eqb_neq _ _)) by done. cbn [negb]. apply returns_bind, returns_zoom. simpl.
  assert (Hmx' : is_Some (m' !! x)) by (by eexists).
  apply returns_store; [by unfold FLINK; rewrite Z.add_0_r|]. eapply returns_upd; [exact Hx|]. apply returns_ret.
  unfold FLINK. rewrite Z.add_0_r. simpl. split_and!; try done.
  - split; simpl.
    + destruct Hr' as (H1 & H2 & H3 & H4 & H5). split_and!; try done;
        [by rewrite lookup_insert_ne..|]. by apply sseg_insert_other.
    + rewrite Hn. simpl. lia.
    + intros y Hy. rewrite lookup_insert_ne by (by intros ->). apply Hd. set_solver.
    + simpl in Hm. lia.
  - rewrite lookup_insert_eq. by eexists.
  - eexists. rewrite lookup_insert_eq. split; [done|]. done.
Qed.

(** wd_delete of an inactive watchdog of the pool puts it back at the end. *)
Lemma wd_delete_pool s x fl d :
  pool_ok s fl → (length fl < 6)%nat → (x ∉ fl) → x ≠ NULL → x ≠ free → x ≠ free + 4 → is_Some (w_mem s !! x) →
  w_dogs s !! x = Some d → wd_flags d = 0 →
  returns (wd_delete active free x) s (λ r s', r = 0 ∧ pool_ok s' (fl ++ [x]) ∧ w_ext s' = w_ext s).
Proof.
  intros [Hr Hn Hd Hm] Hlen Hxn Hx0 Hxf Hxf4 Hmx Hx Hfl.
  unfold wd_delete. apply returns_bind, returns_assert; [unfold nonnull; lia|].
  apply returns_bind. eapply returns_dog; [done|]. unfold WDOG_ISACTIVE. rewrite Hfl. simpl.
  apply returns_bind, returns_ret, returns_bind. eapply returns_dog; [done|].
  unfold WDOG_ISALLOCED, WDOG_ISSTATIC. rewrite Hfl. simpl. apply returns_bind, returns_bind, returns_zoom.
  eapply returns_mono; [apply (sq_addlast_spec _ _ x fl); [done|]|].
  { split_and!; try done. destruct Hr as (_ & _ & _ & Hnd & _). apply NoDup_cons. split; [set_solver|done]. }
  intros [] m' (Hr' & Hw). apply returns_bind, returns_gets, returns_bind, returns_modify, returns_bind, returns_gets.
  simpl. rewrite Hn, Z.mod_small by lia. apply returns_assert; [unfold CONFIG_PREALLOC_WDOGS; lia|].
  apply returns_ret. split_and!; try done. split; simpl; [done| | |].
  - rewrite length_app. simpl. lia.
  - intros y [Hy| ->%list_elem_of_singleton]%elem_of_app; [by apply Hd|by eexists].
  - rewrite length_app. simpl. lia.
Qed.

(** A watchdog taken from the pool and deleted again goes back: the pool
    keeps the same watchdogs, the first one now last, and the count is right. *)
Theorem wd_create_delete_roundtrip irq s x fl :
  pool_ok s (x :: fl) → pool_ready irq (x :: fl) →
  returns (w ← wd_create free irq; _ ← wd_delete active free w; mret w) s (λ w s',
    w = x ∧ pool_ok s' (fl ++ [x]) ∧ w_ext s' = w_ext s).
Proof.
  intros Hok Hready. pose proof (pool_max _ _ Hok) as Hm. simpl in Hm. apply returns_bind.
  eapply returns_mono; [by apply wd_create_pool|].
  intros w s1 (-> & Hok1 & He1 & Hxn & Hx0 & Hxf & Hxf4 & Hmx & d & Hd & Hfl). apply returns_bind.
  eapply returns_mono; [by apply (wd_delete_pool s1 x fl d)|]. intros r s2 (_ & Hok2 & He2). apply returns_ret.
  split_and!; try done. congruence.
Qed.

(** In an interrupt handler with no free watchdog, wd_create does not return
    NULL as documented: it fails its assertion before it looks at the result. *)
Theorem wd_create_empty_pool_fault s : pool_ok s [] → wd_create free true s = Fault.
Proof.
  intros [Hr Hn _ _]. unfold wd_create, mbind, M_bind. unfold gets at 1. rewrite orb_true_r.
  unfold links, zoom. rewrite (sq_remfirst_empty _ _ Hr). unfold gets, assert. simpl. by rewrite Hn.
Qed.
End WdogPool.

(** Watchdogs at 200 and 220, the free list at 100. *)
#[local] Instance no_alloc : KernelAlloc unit :=
  { kmm_malloc := λ _, mret NULL; sched_kfree := λ _, mret tt; wd_set_errno := λ _, mret tt }.

Definition demo_pool_state : wdstate unit :=
  WdState (list_to_map [(100, 200); (104, 220); (200, 220); (220, 0)])
    (list_to_map [(200, Wdog 0 0 0 0 [0; 0]); (220, Wdog 0 0 0 0 [0; 0])]) 2 tt.

Lemma demo_pool_ok : pool_ok 100 demo_pool_state [200; 220].
Proof.
  split; simpl.
  - split_and!; try done; [apply (bool_decide_unpack _); reflexivity|repeat constructor; lia].
  - done.
  - intros x [->|[->|?%elem_of_nil]%elem_of_cons]%elem_of_cons; [by eexists..|done].
  - lia.
Qed.

Lemma wd_create_delete_roundtrip_witness :
  returns (w ← wd_create 100 true; _ ← wd_delete 300 100 w; mret w) demo_pool_state (λ w s',
    w = 200 ∧ pool_ok 100 s' [220; 200] ∧ w_ext s' = tt).
Proof. apply (wd_create_delete_roundtrip 300 100 true demo_pool_state 200 [220] demo_pool_ok). by left. Defined.

Definition demo_empty_state : wdstate unit := WdState (list_to_map [(100, 0); (104, 0)]) ∅ 0 tt.

Lemma demo_empty_ok : pool_ok 100 demo_empty_state [].
Proof.
  split; simpl; [|done|set_solver|lia]. split_and!; try done. apply (bool_decide_unpack _). reflexivity.
Qed.

Lemma wd_create_empty_pool_fault_witness : wd_create 100 true demo_empty_state = Fault.
Proof. apply (wd_create_empty_pool_fault 100 demo_empty_state demo_empty_ok). Defined.

(** * Timeline, pool and allocator *)

(** [wd_held e X]: in state [e] the watchdogs hold the blocks [X] of the
    allocator; [arena] is where blocks can be; [same_rest] relates states that
    differ in the allocator only. *)
Class AllocLaws (E : Type) `{KernelAlloc E} := {
  wd_held : E → list Z → Prop;
  arena : Z → Prop;
  same_rest : E → E → Prop;
  wd_held_perm e X Y : X ≡ₚ Y → wd_held e X → wd_held e Y;
  wd_held_blocks e X : wd_held e X → NoDup (NULL :: X) ∧ Forall arena X;
  same_rest_refl e : same_rest e e;
  kmm_malloc_ok e X : wd_held e X →
    returns (kmm_malloc SIZEOF_WDOG) e (λ p e', same_rest e e' ∧ wd_held e' (if p =? NULL then X else p :: X));
  sched_kfree_ok e X p : wd_held e (p :: X) →
    returns (sched_kfree p) e (λ _ e', same_rest e e' ∧ wd_held e' X);
}.

(** ** Frames *)
Lemma sq_repr_keep m m' q l :
  (∀ a, a ∈ q :: (q + 4) :: l → m' !! a = m !! a) → sq_repr m q l → sq_repr m' q l.
Proof.
  intros He (H1 & H2 & H3 & H4 & H5). split_and!; [rewrite He by set_solver; done..| |done|done].
  revert H3. apply sseg_frame. intros x Hx. apply He. set_solver.
Qed.

Section Keep.
Context {E : Type} `{KernelAlloc E}.
Variables active : Z.
Implicit Types (s : wdstate E) (tl : timeline) (x w : Z).

Lemma tl_ok_keep s s' tl :
  tl_ok active s tl →
  (∀ a, a ∈ active :: (active + 4) :: tl.*1 → w_mem s' !! a = w_mem s !! a) →
  (∀ x, x ∈ tl.*1 → w_dogs s' !! x = w_dogs s !! x) →
  (∀ x d, x ∉ tl.*1 → w_dogs s' !! x = Some d → WDOG_ISACTIVE d = false) → tl_ok active s' tl.
Proof.
  intros [Hr Hl Hm Ha Hc] Hw Hd Ho. split; [by eapply sq_repr_keep| |done| |].
  - revert Hl. apply lags_ok_frame. intros x Hx. unfold same_lag. by rewrite Hd.
  - intros x. split.
    + intros Hx. rewrite Hd by done. by apply Ha.
    + intros (d & Hx & Hact). destruct (decide (x ∈ tl.*1)) as [|Hn]; [done|]. rewrite (Ho x d Hn Hx) in Hact. done.
  - intros x d Hx. rewrite Hd by done. by apply Hc.
Qed.

Lemma tl_inactive s tl x d : tl_ok active s tl → x ∉ tl.*1 → w_dogs s !! x = Some d → WDOG_ISACTIVE d = false.
Proof.
  intros Hok Hx Hd. destruct (WDOG_ISACTIVE d) eqn:Ha; [|done]. exfalso. apply Hx, (tl_active _ _ _ Hok). eauto.
Qed.

(** Where a watchdog comes from. *)
Lemma alloced_kind d : WDOG_ISALLOCED d = negb (Z.land (dog_kind d) WDOGF_ALLOCED =? 0).
Proof. unfold WDOG_ISALLOCED, dog_kind. by rewrite <-Z.land_assoc. Qed.
Lemma static_kind d : WDOG_ISSTATIC d = negb (Z.land (dog_kind d) WDOGF_STATIC =? 0).
Proof. unfold WDOG_ISSTATIC, dog_kind. by rewrite <-Z.land_assoc. Qed.
End Keep.

(** * The invariant *)
Section WdogSys.
Context {E : Type} `{AllocLaws E}.
Variables active free : Z.
Variable pool : list Z.
Implicit Types (s : wdstate E) (tl : timeline) (x w : Z) (fl P X : list Z).

(** The headers and the preallocated watchdogs lie apart, outside the arena. *)
Record wd_layout : Prop := {
  wl_count : Z.of_nat (length pool) = CONFIG_PREALLOC_WDOGS;
  wl_nodup : NoDup (active :: (active + 4) :: free :: (free + 4) :: pool);
  wl_static : Forall (λ x, ¬ arena x) (active :: (active + 4) :: free :: (free + 4) :: pool);
}.
Context (Hlay : wd_layout).

Definition wd_known s (kind x : Z) : Prop :=
  x ≠ NULL ∧ is_Some (w_mem s !! x) ∧ kindof (w_dogs s) x = Some kind.

(** The timeline [tl]; the free watchdogs [fl]; in use are [P] of the
    preallocated ones and [X] of the allocator. *)
Record dogs_ok s tl fl P X : Prop := {
  do_timeline : tl_ok active s tl;
  do_positive : positive tl;
  do_active : tl.*1 ⊆ P ++ X;
  do_free : sq_repr (w_mem s) free fl;
  do_count : g_wdnfree s = Z.of_nat (length fl);
  do_pool : fl ++ P ≡ₚ pool;
  do_static : ∀ x, x ∈ pool → wd_known s 0 x;
  do_alloced : ∀ x, x ∈ X → wd_known s WDOGF_ALLOCED x;
  do_held : wd_held (w_ext s) X;
}.

Lemma do_apart s tl fl P X :
  dogs_ok s tl fl P X → NoDup (active :: (active + 4) :: free :: (free + 4) :: fl ++ P ++ X).
Proof.
  intros Hok. pose proof (wl_nodup Hlay) as Hnd. pose proof (wl_static Hlay) as Hst.
  destruct (wd_held_blocks _ _ (do_held _ _ _ _ _ Hok)) as [[_ HX]%NoDup_cons Har].
  change (NoDup ([active; active + 4; free; free + 4] ++ pool)) in Hnd.
  change (Forall (λ x, ¬ arena x) ([active; active + 4; free; free + 4] ++ pool)) in Hst.
  change (NoDup ([active; active + 4; free; free + 4] ++ fl ++ P ++ X)).
  rewrite (assoc_L _ fl P X), (assoc_L _ _ (fl ++ P) X). rewrite (do_pool _ _ _ _ _ Hok). apply NoDup_app. split_and!; try done.
  intros x Hx HxX. rewrite Forall_forall in Hst, Har. by apply (Hst x), Har.
Qed.

Lemma do_free_used s tl fl P X x : dogs_ok s tl fl P X → x ∈ fl → x ∉ P ++ X.
Proof.
  intros Hok%do_apart Hx Hin. rewrite !NoDup_cons in Hok. destruct Hok as (_ & _ & _ & _ & Hok).
  apply NoDup_app in Hok as (_ & Hok & _). by apply (Hok x).
Qed.

Lemma do_header s tl fl P X a :
  dogs_ok s tl fl P X → a ∈ [active; active + 4; free; free + 4] → (a ∉ fl) ∧ (a ∉ P ++ X).
Proof.
  intros Hok%do_apart Ha. change (NoDup ([active; active + 4; free; free + 4] ++ fl ++ P ++ X)) in Hok.
  apply NoDup_app in Hok as (_ & Hok & _). specialize (Hok a Ha). by rewrite not_elem_of_app in Hok.
Qed.

Lemma do_tl_free s tl fl P X x : dogs_ok s tl fl P X → x ∈ tl.*1 → x ∉ fl.
Proof. intros Hok Hx Hin. eapply do_free_used; [done..|]. by apply (do_active _ _ _ _ _ Hok). Qed.

Lemma do_header_tl s tl fl P X a :
  dogs_ok s tl fl P X → a ∈ [active; active + 4] → a ∉ free :: (free + 4) :: fl.
Proof.
  intros Hok Ha. destruct (do_header _ _ _ _ _ a Hok) as [H1 _]; [set_solver|]. pose proof (wl_nodup Hlay) as Hnd.
  rewrite !NoDup_cons in Hnd. destruct Hnd as (N1 & N2 & _). rewrite !not_elem_of_cons in *.
  apply elem_of_cons in Ha as [->|Ha]; [naive_solver|]. apply list_elem_of_singleton in Ha as ->. naive_solver.
Qed.

(** What changes the timeline only keeps the rest. *)
Lemma dogs_keep s s' tl tl' fl P X F :
  dogs_ok s tl fl P X → wd_frame active F s s' → F ⊆ P ++ X → tl_ok active s' tl' → positive tl' → tl'.*1 ⊆ P ++ X →
  dogs_ok s' tl' fl P X.
Proof.
  intros Hok (He & Hn & Hw & Hk & _) HF Htl Hp Hsub. pose proof (do_apart _ _ _ _ _ Hok) as Hnd.
  assert (Hkn : ∀ k x, wd_known s k x → wd_known s' k x).
  { intros k x (H1 & H2 & H3). split_and!; [done|by rewrite <-(writes_mapped _ _ _ _ Hw)|by rewrite Hk]. }
  split; try done.
  - eapply sq_repr_keep, (do_free _ _ _ _ _ Hok). intros a Ha. apply Hw. rewrite !elem_of_cons.
    rewrite !NoDup_cons, NoDup_app in Hnd. rewrite !elem_of_cons in Ha. set_solver.
  - rewrite Hn. apply Hok.
  - apply Hok.
  - intros x Hx. by apply Hkn, Hok.
  - intros x Hx. by apply Hkn, Hok.
  - rewrite He. apply Hok.
Qed.

(** ** Cancelling and starting *)
Lemma remove_tl_sub w tl : (remove_tl w tl).*1 ⊆ tl.*1.
Proof.
  intros x ([y t] & -> & [_ Hin]%list_elem_of_filter)%list_elem_of_fmap. apply list_elem_of_fmap. by exists (y, t).
Qed.

Lemma dogs_known s tl fl P X w : dogs_ok s tl fl P X → w ∈ P ++ X → ∃ k, wd_known s k w.
Proof.
  intros Hok [Hw|Hw]%elem_of_app; [exists 0|exists WDOGF_ALLOCED; by apply Hok]. apply (do_static _ _ _ _ _ Hok).
  rewrite <-(do_pool _ _ _ _ _ Hok). set_solver.
Qed.

Lemma known_dog s k w : wd_known s k w → is_Some (w_dogs s !! w).
Proof. unfold wd_known, kindof. intros (_ & _ & Hk). by destruct (w_dogs s !! w). Qed.

Lemma wd_cancel_sys s tl fl P X w :
  dogs_ok s tl fl P X → w ∈ P ++ X →
  returns (wd_cancel active w) s (λ r s', r = (if decide (w ∈ tl.*1) then 0 else -1) ∧
    dogs_ok s' (remove_tl w tl) fl P X ∧ w_ext s' = w_ext s ∧ same_dogs (w_dogs s) (w_dogs s')).
Proof.
  intros Hok Hw. destruct (dogs_known _ _ _ _ _ _ Hok Hw) as (k & Hk). pose proof Hk as (Hn & _).
  eapply returns_mono; [apply (wd_cancel_cases active s tl w); [apply Hok|done|by eapply known_dog]|].
  intros r s' [(Hin & -> & Htl & Hf & Hc & _)|(Hin & -> & ->)].
  - rewrite decide_True by done. split_and!; [done| |apply Hf|by split; [|apply Hf]].
    eapply dogs_keep; [exact Hok|exact Hf|apply Hok|done|by apply remove_tl_positive, Hok|].
    etrans; [apply remove_tl_sub|apply Hok].
  - rewrite decide_False by done. rewrite remove_tl_absent by done. done.
Qed.

Lemma used_startable s tl fl P X w : dogs_ok s tl fl P X → w ∈ P ++ X → startable active s w.
Proof.
  intros Hok Hw. destruct (dogs_known _ _ _ _ _ _ Hok Hw) as (k & Hk). pose proof (do_apart _ _ _ _ _ Hok) as Hnd.
  pose proof Hk as (Hn & Hm & _). rewrite !NoDup_cons in Hnd. split_and!; [done|set_solver..|done|by eapply known_dog].
Qed.

Lemma wd_start_sys s tl fl P X w delay f parms :
  dogs_ok s tl fl P X → w ∈ P ++ X → 0 ≤ delay ≤ INT_MAX → (length parms ≤ 2)%nat →
  returns (wd_start active w delay f parms) s (λ r s', r = 0 ∧
    dogs_ok s' (insert_tl w (Z.min (delay + 1) INT_MAX) (remove_tl w tl)) fl P X ∧ w_ext s' = w_ext s ∧
    (∀ x, x ≠ w → callof (w_dogs s') x = callof (w_dogs s) x) ∧ callof (w_dogs s') w = Some (f, parms)).
Proof.
  intros Hok Hw Hd Hl. eapply returns_mono; [apply (wd_start_spec active s tl w delay f parms); try done|].
  { apply Hok. } { by eapply used_startable. }
  intros r s' (-> & Htl & Hf & Hc & Hcw). rewrite wd_delay_spec in Htl by done. split_and!; [done| |apply Hf|done|done].
  eapply dogs_keep; [exact Hok|exact Hf| |done| |].
  - intros x [->|Hx]%elem_of_cons; [done|by apply (do_active _ _ _ _ _ Hok)].
  - apply insert_tl_positive; [unfold INT_MAX; lia|]. by apply remove_tl_positive, Hok.
  - intros x ([y t] & -> & [[= -> ->]|Hin]%insert_tl_elem)%list_elem_of_fmap; [done|].
    apply (do_active _ _ _ _ _ Hok), (remove_tl_sub w). apply list_elem_of_fmap. by exists (y, t).
Qed.

(** ** Creating *)
Lemma dogs_ok_free_dog s tl fl P X w : dogs_ok s tl fl P X → w ∈ fl → is_Some (w_dogs s !! w).
Proof.
  intros Hok Hw. eapply known_dog, (do_static _ _ _ _ _ Hok). rewrite <-(do_pool _ _ _ _ _ Hok). set_solver.
Qed.

Lemma create_pool_sys s s' tl w fl P X m' d :
  dogs_ok s tl (w :: fl) P X → sq_post free (w :: fl) fl (w_mem s) m' → w_dogs s !! w = Some d →
  s' = WdState (<[w:=NULL]> m') (<[w:=set_flags 0 d]> (w_dogs s)) (g_wdnfree s - 1) (w_ext s) →
  dogs_ok s' tl fl (w :: P) X.
Proof.
  intros Hok [Hr Hw] Hd ->.
  assert (Hww : writes (free :: (free + 4) :: w :: fl) (w_mem s) (<[w:=NULL]> m')).
  { apply writes_insert; [clear; set_solver| |done]. rewrite <-(writes_mapped _ _ _ _ Hw).
    apply (sq_elem (q:=free) (w :: fl)); [apply Hok|apply list_elem_of_here]. }
  pose proof (do_free_used _ _ _ _ _ w Hok (list_elem_of_here _ _)) as HwPX.
  split; simpl.
  - eapply tl_ok_keep; [apply Hok|simpl..].
    + intros a Ha. apply Hww. change (a ∉ free :: (free + 4) :: (w :: fl)).
      apply (elem_of_app [active; active + 4]) in Ha as [Ha|Ha]; [by eapply do_header_tl|].
      pose proof (do_tl_free _ _ _ _ _ _ Hok Ha). apply (do_active _ _ _ _ _ Hok) in Ha.
      rewrite !not_elem_of_cons in *. split_and!; [intros -> .. |tauto|tauto];
        eapply (do_header _ _ _ _ _ _ Hok); [|exact Ha| |exact Ha]; set_solver+.
    + intros x Hx. rewrite lookup_insert_ne; [done|]. intros <-. eapply (do_tl_free _ _ _ _ _ _ Hok Hx), list_elem_of_here.
    + intros x dx Hx [[<- <-]|[Hne Hdx]]%lookup_insert_Some; [done|]. by eapply tl_inactive; [apply Hok|..].
  - apply Hok.
  - etrans; [apply Hok|]. set_solver+.
  - eapply sq_repr_keep, Hr. intros a Ha. rewrite lookup_insert_ne; [done|]. intros <-.
    pose proof (sq_elem _ w (do_free _ _ _ _ _ Hok) (list_elem_of_here _ _)) as (_ & _ & N1 & N2).
    pose proof (sq_nodup _ (do_free _ _ _ _ _ Hok)) as [N3 _]%NoDup_cons. rewrite !elem_of_cons in Ha. tauto.
  - rewrite (do_count _ _ _ _ _ Hok). simpl length. lia.
  - rewrite <-(do_pool _ _ _ _ _ Hok). by rewrite <-Permutation_middle.
  - intros x Hx. destruct (do_static _ _ _ _ _ Hok x Hx) as (H1 & H2 & H3). unfold wd_known, kindof. simpl.
    split_and!; [done|by rewrite <-(writes_mapped _ _ _ _ Hww)|].
    destruct (decide (x = w)) as [->|]; [by rewrite lookup_insert_eq|by rewrite lookup_insert_ne].
  - intros x Hx. destruct (do_alloced _ _ _ _ _ Hok x Hx) as (H1 & H2 & H3). unfold wd_known, kindof. simpl.
    split_and!; [done|by rewrite <-(writes_mapped _ _ _ _ Hww)|].
    rewrite lookup_insert_ne; [done|]. intros <-. apply HwPX, elem_of_app. by right.
  - apply Hok.
Qed.

Lemma create_heap_sys s s' tl w fl P X e' :
  dogs_ok s tl fl P X → w ≠ NULL → wd_held e' (w :: X) →
  s' = new_dog w WDOGF_ALLOCED (WdState (w_mem s) (w_dogs s) (g_wdnfree s) e') → dogs_ok s' tl fl P (w :: X).
Proof.
  intros Hok Hn Hh ->. pose proof (wl_static Hlay) as Hst. rewrite Forall_forall in Hst.
  destruct (wd_held_blocks _ _ Hh) as [Hnd Har]. apply Forall_cons in Har as [Hw Har].
  assert (Hne : ∀ x, x ∈ active :: (active + 4) :: free :: (free + 4) :: pool → w ≠ x) by (intros x Hx ->; by apply (Hst x)).
  rewrite !NoDup_cons in Hnd. destruct Hnd as (_ & HwX & _).
  assert (Hpl : ∀ x, x ∈ fl ++ P → w ≠ x) by (intros x Hx; rewrite (do_pool _ _ _ _ _ Hok) in Hx; apply Hne; set_solver).
  assert (Hkn : ∀ k x, wd_known s k x → w ≠ x → wd_known (new_dog w WDOGF_ALLOCED (WdState (w_mem s) (w_dogs s) (g_wdnfree s) e')) k x).
  { intros k x (H1 & H2 & H3) Hk. unfold wd_known, kindof. simpl. by rewrite !lookup_insert_ne. }
  assert (Htl : w ∉ tl.*1) by (intros Hin%(do_active _ _ _ _ _ Hok); set_solver).
  split; simpl.
  - eapply tl_ok_keep; [apply Hok|simpl..].
    + intros a Ha. rewrite lookup_insert_ne; [done|]. rewrite !elem_of_cons in Ha.
      destruct Ha as [->|[->|Ha]]; [apply Hne; set_solver..|]. by intros <-.
    + intros x Hx. rewrite lookup_insert_ne; [done|]. by intros <-.
    + intros x dx Hx [[<- <-]|[Hxw Hdx]]%lookup_insert_Some; [done|]. by eapply tl_inactive; [apply Hok|..].
  - apply Hok.
  - etrans; [apply Hok|]. set_solver.
  - eapply sq_repr_keep, (do_free _ _ _ _ _ Hok). intros a Ha. rewrite lookup_insert_ne; [done|].
    rewrite !elem_of_cons in Ha. destruct Ha as [->|[->|Ha]]; [apply Hne; set_solver..|]. apply Hpl. set_solver.
  - apply Hok.
  - apply Hok.
  - intros x Hx. apply Hkn; [by apply Hok|]. apply Hne. set_solver.
  - intros x [->|Hx]%elem_of_cons.
    + split_and!; [done|simpl; rewrite lookup_insert_eq; by eexists|]. unfold kindof. simpl. by rewrite lookup_insert_eq.
    + apply Hkn; [by apply Hok|]. by intros <-.
  - done.
Qed.

Lemma dogs_ok_ext s tl fl P X e' :
  dogs_ok s tl fl P X → wd_held e' X → dogs_ok (WdState (w_mem s) (w_dogs s) (g_wdnfree s) e') tl fl P X.
Proof. intros Hok Hh. split; try apply Hok; [|done]. destruct (do_timeline _ _ _ _ _ Hok). by split. Qed.

(** wd_create takes the first free watchdog when enough are left or the caller
    is an interrupt handler, and asks the allocator otherwise. *)
Lemma wd_create_sys irq s tl fl P X :
  dogs_ok s tl fl P X → (irq = true → fl ≠ []) →
  returns (wd_create free irq) s (λ w s', same_rest (w_ext s) (w_ext s') ∧
    (∀ x, x ≠ w → w_dogs s' !! x = w_dogs s !! x) ∧
    if irq || (CONFIG_WDOG_INTRESERVE <? Z.of_nat (length fl)) then
      ∃ fl', fl = w :: fl' ∧ dogs_ok s' tl fl' (w :: P) X ∧ w_ext s' = w_ext s
    else if w =? NULL then dogs_ok s' tl fl P X else dogs_ok s' tl fl P (w :: X)).
Proof.
  intros Hok Hirq. unfold wd_create. apply returns_bind, returns_gets. rewrite (do_count _ _ _ _ _ Hok).
  rewrite (orb_comm (_ <? _) irq). destruct (irq || _) eqn:Eb.
  - destruct fl as [|w fl].
    { exfalso. destruct irq; [by apply Hirq|]. simpl in Eb. done. }
    pose proof (do_free _ _ _ _ _ Hok) as Hr.
    pose proof (sq_elem _ w Hr ltac:(set_solver)) as (Hm & Hw & _).
    destruct (dogs_ok_free_dog s tl (w :: fl) P X w Hok) as [d Hd]; [set_solver|].
    apply returns_bind, returns_zoom. eapply returns_mono; [by apply sq_remfirst_spec|].
    intros r m' (-> & Hpost & Hnx). apply returns_bind, returns_gets, returns_bind, returns_assert.
    { apply Z.ltb_lt. cbn. rewrite (do_count _ _ _ _ _ Hok), length_cons. lia. }
    apply returns_bind, returns_modify, returns_bind. unfold nonnull. rewrite (proj2 (Z.eqb_neq _ _)) by done. cbn [negb].
    apply returns_bind, returns_zoom, returns_store; [by eexists; unfold FLINK; rewrite Z.add_0_r|].
    eapply returns_upd; [exact Hd|]. apply returns_ret. unfold FLINK. rewrite Z.add_0_r.
    split_and!; [apply same_rest_refl| |].
    + intros x Hx. simpl. by rewrite lookup_insert_ne.
    + exists fl. split_and!; [done| |done]. by eapply create_pool_sys.
  - apply orb_false_iff in Eb as [-> Eb]. apply returns_bind. unfold onext. apply returns_zoom.
    eapply returns_mono; [by apply kmm_malloc_ok, (do_held _ _ _ _ _ Hok)|]. intros w e' [Hs Hh].
    apply returns_bind. unfold nonnull. destruct (Z.eqb_spec w NULL) as [->|Hw]; cbn [negb].
    + do 2 apply returns_ret. split_and!; [done|done|]. by apply dogs_ok_ext.
    + apply returns_modify, returns_ret. rewrite (proj2 (Z.eqb_neq _ _)) by done.
      split_and!; [done| |by eapply create_heap_sys].
      intros x Hx. simpl. by rewrite lookup_insert_ne.
Qed.

(** ** Deleting *)
Lemma delete_pool_sys s s' tl w fl P P' X m' :
  dogs_ok s tl fl P X → P ≡ₚ w :: P' → (w ∉ tl.*1) → sq_post free (w :: fl) (fl ++ [w]) (w_mem s) m' →
  s' = WdState m' (w_dogs s) (g_wdnfree s + 1) (w_ext s) → dogs_ok s' tl (fl ++ [w]) P' X.
Proof.
  intros Hok HP Hw [Hr Hww] ->.
  assert (HwP : w ∈ P ++ X) by (rewrite HP; set_solver).
  assert (Hkn : ∀ k x, wd_known s k x → wd_known (WdState m' (w_dogs s) (g_wdnfree s + 1) (w_ext s)) k x).
  { intros k x (H1 & H2 & H3). split_and!; [done|by rewrite <-(writes_mapped _ _ _ _ Hww)|done]. }
  split; simpl.
  - eapply tl_ok_keep; [apply Hok|simpl..].
    + intros a Ha. apply Hww. change (a ∉ free :: (free + 4) :: (w :: fl)).
      apply (elem_of_app [active; active + 4]) in Ha as [Ha|Ha].
      * pose proof (do_header_tl _ _ _ _ _ _ Hok Ha) as Hn. rewrite !not_elem_of_cons in *.
        split_and!; [apply Hn|apply Hn| |apply Hn]. intros ->.
        eapply (do_header _ _ _ _ _ w Hok); [|exact HwP]. set_solver +Ha.
      * pose proof (do_tl_free _ _ _ _ _ _ Hok Ha) as Hf. assert (a ≠ w) by (by intros ->).
        apply (do_active _ _ _ _ _ Hok) in Ha. rewrite !not_elem_of_cons. split_and!; [intros -> ..|done|done];
          eapply (do_header _ _ _ _ _ _ Hok); [|exact Ha| |exact Ha]; clear; set_solver.
    + done.
    + intros x dx Hx Hdx. by eapply tl_inactive; [apply Hok|..].
  - apply Hok.
  - intros x Hx. assert (x ≠ w) by (by intros ->). apply (do_active _ _ _ _ _ Hok) in Hx. rewrite HP in Hx. set_solver.
  - done.
  - rewrite (do_count _ _ _ _ _ Hok), length_app. simpl. lia.
  - rewrite <-(do_pool _ _ _ _ _ Hok), HP, <-(assoc_L _ fl [w] P'). done.
  - intros x Hx. by apply Hkn, Hok.
  - intros x Hx. by apply Hkn, Hok.
  - apply Hok.
Qed.

Lemma delete_heap_sys s tl w fl P X X' e' :
  dogs_ok s tl fl P X → X ≡ₚ w :: X' → (w ∉ tl.*1) → wd_held e' X' →
  dogs_ok (WdState (w_mem s) (w_dogs s) (g_wdnfree s) e') tl fl P X'.
Proof.
  intros Hok HX Hw Hh. split; try apply Hok; try done.
  - destruct (do_timeline _ _ _ _ _ Hok). by split.
  - intros x Hx. assert (x ≠ w) by (by intros ->). apply (do_active _ _ _ _ _ Hok) in Hx. rewrite HX in Hx. set_solver.
  - intros x Hx. apply (do_alloced _ _ _ _ _ Hok x). rewrite HX. set_solver.
Qed.

Lemma elem_of_perm (w : Z) (l : list Z) : w ∈ l → ∃ l', l ≡ₚ w :: l'.
Proof. intros (l1 & l2 & ->)%list_elem_of_split. exists (l1 ++ l2). by rewrite Permutation_middle. Qed.

(** wd_delete stops a watchdog and gives it back where it came from. *)
Lemma wd_delete_sys s tl fl P X w :
  dogs_ok s tl fl P X → w ∈ P ++ X →
  returns (wd_delete active free w) s (λ r s', r = 0 ∧ same_rest (w_ext s) (w_ext s') ∧
    same_dogs (w_dogs s) (w_dogs s') ∧
    ((∃ P', P ≡ₚ w :: P' ∧ dogs_ok s' (remove_tl w tl) (fl ++ [w]) P' X) ∨
     (∃ X', X ≡ₚ w :: X' ∧ dogs_ok s' (remove_tl w tl) fl P X'))).
Proof.
  intros Hok Hw. destruct (dogs_known _ _ _ _ _ _ Hok Hw) as (k & Hk). pose proof Hk as (Hn & _).
  destruct (known_dog _ _ _ Hk) as [d Hd]. unfold wd_delete. apply returns_bind, returns_assert; [unfold nonnull; lia|].
  apply returns_bind. eapply returns_dog; [exact Hd|]. apply returns_bind.
  eapply (returns_mono _ _ (λ _ s1, dogs_ok s1 (remove_tl w tl) fl P X ∧ w_ext s1 = w_ext s ∧ same_dogs (w_dogs s) (w_dogs s1))).
  { destruct (WDOG_ISACTIVE d) eqn:Ha.
    - apply returns_bind. eapply returns_mono; [by apply wd_cancel_sys|]. intros r s1 (_ & H1 & H2 & H3). by apply returns_ret.
    - apply returns_ret. split_and!; [|done|done]. rewrite remove_tl_absent; [done|].
      intros Hin. apply (tl_active _ _ _ (do_timeline _ _ _ _ _ Hok)) in Hin as (d' & Hd' & Ha'). congruence. }
  intros [] s1 (Hok1 & He1 & Hs1). set (tl1 := remove_tl w tl) in *.
  assert (Hwt : w ∉ tl1.*1).
  { intros ([y t] & -> & [Hne _]%list_elem_of_filter)%list_elem_of_fmap. done. }
  assert (Hk1 : kindof (w_dogs s1) w = Some k) by (rewrite (proj2 Hs1); apply Hk).
  unfold kindof in Hk1. destruct (w_dogs s1 !! w) as [d1|] eqn:Hd1; [|done]. injection Hk1 as Hkd.
  apply returns_bind. eapply returns_dog; [exact Hd1|]. rewrite alloced_kind, static_kind, Hkd.
  apply elem_of_app in Hw as [Hw|Hw].
  - pose proof (elem_of_perm _ _ Hw) as [P' HP].
    assert (k = 0) as ->.
    { destruct (do_static _ _ _ _ _ Hok w) as (_ & _ & Hk0); [rewrite <-(do_pool _ _ _ _ _ Hok); set_solver +Hw|].
      destruct Hk as (_ & _ & Hk). congruence. }
    cbn [negb Z.land Z.eqb]. apply returns_bind, returns_bind, returns_zoom.
    pose proof (do_free _ _ _ _ _ Hok1) as Hr.
    assert (HwPX : w ∈ P ++ X) by (by apply elem_of_app; left).
    eapply returns_mono; [apply (sq_addlast_spec _ _ w fl); [done|]|].
    { split_and!; [done| |].
      - by destruct (dogs_known _ _ _ _ _ _ Hok1 HwPX) as (k1 & _ & Hm & _).
      - destruct Hr as (_ & _ & _ & Hnd & _). apply NoDup_cons. split; [|done]. rewrite !not_elem_of_cons.
        split_and!; [intros -> ..|by intros Hin; eapply do_free_used];
          eapply (do_header _ _ _ _ _ _ Hok1); [|exact HwPX| |exact HwPX]; clear; set_solver. }
    intros [] m' Hpost. cbv beta. apply returns_bind, returns_gets, returns_bind, returns_modify, returns_bind, returns_gets.
    simpl. pose proof (do_count _ _ _ _ _ Hok1) as Hc. rewrite Hc.
    assert (Hlen : (length fl < 6)%nat).
    { pose proof (wl_count Hlay) as H6. rewrite <-(do_pool _ _ _ _ _ Hok), HP, length_app in H6.
      unfold CONFIG_PREALLOC_WDOGS in H6. simpl in H6. lia. }
    rewrite Z.mod_small by lia. apply returns_assert; [unfold CONFIG_PREALLOC_WDOGS; lia|].
    apply returns_ret. split_and!; [done|simpl; rewrite He1; apply same_rest_refl|done|]. left. exists P'. split; [done|].
    eapply (delete_pool_sys s1); [done..|]. by rewrite Hc.
  - pose proof (elem_of_perm _ _ Hw) as [X' HX].
    assert (k = WDOGF_ALLOCED) as ->.
    { destruct (do_alloced _ _ _ _ _ Hok w Hw) as (_ & _ & Hk0). destruct Hk as (_ & _ & Hk). congruence. }
    cbn [negb Z.land Z.eqb]. apply returns_bind. unfold onext. apply returns_zoom.
    eapply returns_mono; [apply sched_kfree_ok; eapply wd_held_perm; [exact HX|apply (do_held _ _ _ _ _ Hok1)]|].
    intros [] e' [Hsr Hh]. apply returns_ret. rewrite He1 in Hsr. split_and!; [done|done|done|]. right. exists X'.
    split; [done|]. by eapply delete_heap_sys.
Qed.

(** ** The tick *)
Lemma pending_tick_sub tl : (pending (tick tl)).*1 ⊆ tl.*1.
Proof.
  intros x (e & -> & [_ Hin]%list_elem_of_filter)%list_elem_of_fmap. rewrite <-tick_fst.
  apply list_elem_of_fmap. eauto.
Qed.

Lemma wd_timer_sys call effect (I : E → Prop) s tl fl P X :
  handlers_ok call effect I → (∀ e, I e → wd_held e X) → dogs_ok s tl fl P X → I (w_ext s) →
  returns (wd_timer active call) s (λ _ s', dogs_ok s' (pending (tick tl)) fl P X ∧ I (w_ext s') ∧
    same_dogs (w_dogs s) (w_dogs s') ∧
    w_ext s' = run_calls effect (w_dogs s) (due (tick tl)).*1 (w_ext s)).
Proof.
  intros Hh HI Hok Hi.
  eapply returns_mono; [apply (wd_timer_spec active call effect I s tl Hh); [apply Hok..|done]|].
  intros [] s' (Htl & Hp & Hi' & (Hd & Hn & Hw & Ho) & He). split_and!; [|done|done|done].
  set (s1 := WdState (w_mem s') (w_dogs s') (g_wdnfree s') (w_ext s)).
  assert (Hok1 : dogs_ok s1 (pending (tick tl)) fl P X).
  { eapply dogs_keep; [exact Hok| |apply Hok| |done|].
    - split_and!; [done|done|exact Hw|apply Hd|exact Ho].
    - destruct Htl. by split.
    - etrans; [apply pending_tick_sub|apply Hok]. }
  replace s' with (WdState (w_mem s1) (w_dogs s1) (g_wdnfree s1) (w_ext s')) by (by destruct s').
  apply dogs_ok_ext; [done|]. by apply HI.
Qed.
End WdogSys.
