(* ===== verification/Sched.v ===== *)
(** The scheduler: the task lists and the running task, sched/sched and the
    context switches of arch/arm/src/armv7-m.

    The links of the TCBs (flink at offset 0, blink at offset 4) and the queue
    headers are words of memory, worked on by the operations of [Queue]; the
    other fields of struct tcb_s are a record per TCB address.  [k_running] is
    the task whose context the processor executes.  Interrupts are disabled
    inside the routines, so each runs as one step up to the point where the
    calling task is switched out: then the result is [Suspended] and says what
    is left to do when the task runs again. *)

From S2P Require Import Prelude Queue.

(** * include/nuttx/sched.h, include/sys/types.h *)
Definition TSTATE_TASK_INVALID : Z := 0.
Definition TSTATE_TASK_PENDING : Z := 1.
Definition TSTATE_TASK_READYTORUN : Z := 2.
Definition TSTATE_TASK_RUNNING : Z := 3.
Definition TSTATE_TASK_INACTIVE : Z := 4.
Definition TSTATE_WAIT_SEM : Z := 5.
Definition TSTATE_WAIT_SIG : Z := 6.
Definition TSTATE_WAIT_MQNOTEMPTY : Z := 7.
Definition TSTATE_WAIT_MQNOTFULL : Z := 8.
Definition NUM_TASK_STATES : Z := 9.
Definition is_ready_state (t : Z) : bool := (TSTATE_TASK_READYTORUN <=? t) && (t <=? TSTATE_TASK_RUNNING).
Definition is_blocked_state (t : Z) : bool := (TSTATE_TASK_INACTIVE <=? t) && (t <=? NUM_TASK_STATES - 1).

Definition SCHED_PRIORITY_MAX : Z := 255.
Definition SCHED_PRIORITY_MIN : Z := 1.
Definition SCHED_FIFO : Z := 1.
Definition SCHED_RR : Z := 2.
Definition MAX_LOCK_COUNT : Z := 127.
Definition TCB_FLAG_ROUND_ROBIN : Z := 16.
Definition CONFIG_RR_INTERVAL : Z := 200.
Definition CONFIG_MAX_TASKS : Z := 16.
Definition MSEC_PER_TICK : Z := 10.
Definition CLOCKS_PER_SEC : Z := 100.
Definition MSEC2TICK (msec : Z) : Z := (msec + MSEC_PER_TICK / 2) / MSEC_PER_TICK.
Definition PIDHASH (pid : Z) : Z := Z.land pid (CONFIG_MAX_TASKS - 1).

Definition OK : Z := 0.
Definition ERROR : Z := -1.
Definition ESRCH : Z := 3.
Definition EINTR : Z := 4.
Definition EAGAIN : Z := 11.
Definition EFAULT : Z := 14.
Definition EINVAL : Z := 22.
Definition ETIMEDOUT : Z := 110.

Record tcb_s := Tcb {
  pid : Z;
  sched_priority : Z;
  task_state : Z;
  flags : Z;
  lockcount : Z;
  timeslice : Z;
  waitsem : Z;
  pterrno : Z;
}.

Definition set_priority (p : Z) (t : tcb_s) : tcb_s :=
  Tcb (pid t) p (task_state t) (flags t) (lockcount t) (timeslice t) (waitsem t) (pterrno t).
Definition set_state (v : Z) (t : tcb_s) : tcb_s :=
  Tcb (pid t) (sched_priority t) v (flags t) (lockcount t) (timeslice t) (waitsem t) (pterrno t).
Definition set_policy (f ts : Z) (t : tcb_s) : tcb_s :=
  Tcb (pid t) (sched_priority t) (task_state t) f (lockcount t) ts (waitsem t) (pterrno t).
Definition set_lockcount (n : Z) (t : tcb_s) : tcb_s :=
  Tcb (pid t) (sched_priority t) (task_state t) (flags t) n (timeslice t) (waitsem t) (pterrno t).
Definition set_timeslice (n : Z) (t : tcb_s) : tcb_s :=
  Tcb (pid t) (sched_priority t) (task_state t) (flags t) (lockcount t) n (waitsem t) (pterrno t).
Definition set_waitsem (w : Z) (t : tcb_s) : tcb_s :=
  Tcb (pid t) (sched_priority t) (task_state t) (flags t) (lockcount t) (timeslice t) w (pterrno t).
Definition set_pterrno (e : Z) (t : tcb_s) : tcb_s :=
  Tcb (pid t) (sched_priority t) (task_state t) (flags t) (lockcount t) (timeslice t) (waitsem t) e.

(** * sched/sched/sched.h *)
Record pidhash_s := Pidhash {
  ph_tcb : Z;
  ph_pid : Z;
  ph_ticks : Z;
}.

(** Where the task lists are: the addresses of the global queue headers. *)
Class Globals := {
  g_readytorun : Z;
  g_pendingtasks : Z;
  g_inactivetasks : Z;
  g_waitingforsemaphore : Z;
  g_waitingforsignal : Z;
  g_waitingformqnotempty : Z;
  g_waitingformqnotfull : Z;
  g_idletcb : Z;
}.

(** The state: links, TCBs, semaphore counts, the task the processor runs, the
    errno of interrupt handlers, the PID table and the load counter. *)
Record kstate := KState {
  k_mem : mem;
  k_tcbs : gmap Z tcb_s;
  k_sems : gmap Z Z;
  k_running : Z;
  g_irqerrno : Z;
  g_pidhash : list pidhash_s;
  g_cpuload_total : Z;
}.

(** What is left of a call whose task was switched out: nothing but to return
    a value; the rest of sched_unlock, then return; a sched_unlock, then
    return; the rest of sem_wait. *)
Inductive resumption :=
| RReturn (r : Z)
| RUnlock (rtcb r : Z)
| RThenUnlock (r : Z)
| RSemWait.

Inductive result :=
| Returned (r : Z)
| Suspended (k : resumption).

Section Sched.
Context `{Globals}.

(** Are we in an interrupt handler? *)
Variable up_interrupt_context : bool.

Definition set_mem (m : mem) (s : kstate) : kstate :=
  KState m (k_tcbs s) (k_sems s) (k_running s) (g_irqerrno s) (g_pidhash s) (g_cpuload_total s).
Definition set_tcbs (D : gmap Z tcb_s) (s : kstate) : kstate :=
  KState (k_mem s) D (k_sems s) (k_running s) (g_irqerrno s) (g_pidhash s) (g_cpuload_total s).
Definition klinks {A} (e : M mem A) : M kstate A := zoom k_mem set_mem e.
Definition tcb (x : Z) : M kstate tcb_s := λ s,
  match k_tcbs s !! x with Some t => Done (t, s) | None => Fault end.
Definition updt (x : Z) (f : tcb_s → tcb_s) : M kstate unit := λ s,
  match k_tcbs s !! x with
  | Some t => Done (tt, set_tcbs (<[x:=f t]> (k_tcbs s)) s)
  | None => Fault
  end.
Definition set_running (x : Z) (s : kstate) : kstate :=
  KState (k_mem s) (k_tcbs s) (k_sems s) x (g_irqerrno s) (g_pidhash s) (g_cpuload_total s).
Definition set_irqerrno (e : Z) (s : kstate) : kstate :=
  KState (k_mem s) (k_tcbs s) (k_sems s) (k_running s) e (g_pidhash s) (g_cpuload_total s).
Definition set_load (h : list pidhash_s) (n : Z) (s : kstate) : kstate :=
  KState (k_mem s) (k_tcbs s) (k_sems s) (k_running s) (g_irqerrno s) h n.

(** sched/init/os_start.c *)
Definition g_tasklisttable : list (Z * bool) :=
  [ (NULL, false); (g_pendingtasks, true); (g_readytorun, true); (g_readytorun, true);
    (g_inactivetasks, false); (g_waitingforsemaphore, true); (g_waitingforsignal, false);
    (g_waitingformqnotempty, true); (g_waitingformqnotfull, true) ].
Definition tasklist (task_state : Z) : M kstate (Z * bool) := λ s,
  match g_tasklisttable !! Z.to_nat task_state with Some e => Done (e, s) | None => Fault end.

(** The entry of the PID table a PID hashes to. *)
Definition pidhash (p : Z) : M kstate pidhash_s := λ s,
  match g_pidhash s !! Z.to_nat (PIDHASH p) with Some e => Done (e, s) | None => Fault end.

Definition rtr_head : M kstate Z := klinks (load (g_readytorun + HEAD)).
Definition pnd_head : M kstate Z := klinks (load (g_pendingtasks + HEAD)).

(** * sched_addprioritized.c *)
Definition sched_search (p : Z) (next : Z) : M kstate (Z + Z) :=
  if nonnull next then
    t ← tcb next;
    if p <=? sched_priority t then
      n ← klinks (load (next + FLINK));
      mret (inl n)
    else mret (inr next)
  else mret (inr next).

(** The insertion before [next], at the end when there is none. *)
Definition sched_link (tcb next list : Z) : M mem bool :=
  if negb (nonnull next) then
    prev ← load (list + TAIL);
    if negb (nonnull prev) then
      store (tcb + FLINK) NULL;;
      store (tcb + BLINK) NULL;;
      store (list + HEAD) tcb;;
      store (list + TAIL) tcb;;
      mret true
    else
      store (tcb + FLINK) NULL;;
      store (tcb + BLINK) prev;;
      store (prev + FLINK) tcb;;
      store (list + TAIL) tcb;;
      mret false
  else
    prev ← load (next + BLINK);
    if negb (nonnull prev) then
      store (tcb + FLINK) next;;
      store (tcb + BLINK) NULL;;
      store (next + BLINK) tcb;;
      store (list + HEAD) tcb;;
      mret true
    else
      store (tcb + FLINK) next;;
      store (tcb + BLINK) prev;;
      store (prev + FLINK) tcb;;
      store (next + BLINK) tcb;;
      mret false.

Definition sched_addprioritized (x list : Z) : M kstate bool :=
  t ← tcb x;
  assert (SCHED_PRIORITY_MIN <=? sched_priority t);;
  head ← klinks (load (list + HEAD));
  fuel ← gets (λ s, size (k_mem s));
  next ← loop (S fuel) (sched_search (sched_priority t)) head;
  klinks (sched_link x next list).

(** * sched_addreadytorun.c *)
Definition sched_addreadytorun (btcb : Z) : M kstate bool :=
  rtcb ← rtr_head;
  r ← tcb rtcb;
  b ← tcb btcb;
  if negb (lockcount r =? 0) && (sched_priority r <? sched_priority b) then
    _ ← sched_addprioritized btcb g_pendingtasks;
    updt btcb (set_state TSTATE_TASK_PENDING);;
    mret false
  else
    first ← sched_addprioritized btcb g_readytorun;
    if first : bool then
      flink ← klinks (load (btcb + FLINK));
      assert ((lockcount r =? 0) && nonnull flink);;
      updt btcb (set_state TSTATE_TASK_RUNNING);;
      updt flink (set_state TSTATE_TASK_READYTORUN);;
      mret true
    else
      updt btcb (set_state TSTATE_TASK_READYTORUN);;
      mret false.

(** * sched_removereadytorun.c *)
Definition sched_removereadytorun (rtcb : Z) : M kstate bool :=
  blink ← klinks (load (rtcb + BLINK));
  ret ← (if negb (nonnull blink) then
           ntcb ← klinks (load (rtcb + FLINK));
           assert (nonnull ntcb);;
           updt ntcb (set_state TSTATE_TASK_RUNNING);;
           mret true
         else mret false);
  klinks (dq_rem rtcb g_readytorun);;
  updt rtcb (set_state TSTATE_TASK_INVALID);;
  mret ret.

(** * sched_mergepending.c *)
Definition sched_merge_body (v : Z * Z * bool) : M kstate (Z * Z * bool + bool) :=
  let '(pndtcb, rtrtcb, ret) := v in
  if nonnull pndtcb then
    pndnext ← klinks (load (pndtcb + FLINK));
    p ← tcb pndtcb;
    fuel ← gets (λ s, size (k_mem s));
    rtrtcb ← loop (S fuel) (sched_search (sched_priority p)) rtrtcb;
    assert (nonnull rtrtcb);;
    rtrprev ← klinks (load (rtrtcb + BLINK));
    (if negb (nonnull rtrprev) then
       klinks (store (pndtcb + FLINK) rtrtcb;;
               store (pndtcb + BLINK) NULL;;
               store (rtrtcb + BLINK) pndtcb;;
               store (g_readytorun + HEAD) pndtcb);;
       updt rtrtcb (set_state TSTATE_TASK_READYTORUN);;
       updt pndtcb (set_state TSTATE_TASK_RUNNING);;
       mret (inl (pndnext, pndtcb, true))
     else
       klinks (store (pndtcb + FLINK) rtrtcb;;
               store (pndtcb + BLINK) rtrprev;;
               store (rtrprev + FLINK) pndtcb;;
               store (rtrtcb + BLINK) pndtcb);;
       updt pndtcb (set_state TSTATE_TASK_READYTORUN);;
       mret (inl (pndnext, pndtcb, ret)))
  else mret (inr ret).

Definition sched_mergepending : M kstate bool :=
  rtrtcb ← rtr_head;
  pndtcb ← pnd_head;
  fuel ← gets (λ s, size (k_mem s));
  ret ← loop (S fuel) sched_merge_body (pndtcb, rtrtcb, false);
  klinks (store (g_pendingtasks + HEAD) NULL;; store (g_pendingtasks + TAIL) NULL);;
  mret ret.

(** * sched_addblocked.c, sched_removeblocked.c *)
Definition sched_addblocked (btcb task_state : Z) : M kstate unit :=
  assert (is_blocked_state task_state);;
  e ← tasklist task_state;
  let '(list, prioritized) := e : Z * bool in
  (if prioritized then _ ← sched_addprioritized btcb list; mret tt
   else klinks (dq_addlast btcb list));;
  updt btcb (set_state task_state).

Definition sched_removeblocked (btcb : Z) : M kstate unit :=
  b ← tcb btcb;
  assert (is_blocked_state (task_state b));;
  e ← tasklist (task_state b);
  let '(list, _) := e : Z * bool in
  klinks (dq_rem btcb list);;
  updt btcb (set_state TSTATE_TASK_INVALID).

(** * arch/arm/src/armv7-m *)

(** The context switch at the end of the up_ routines, from the task [rtcb]
    that was at the head of the ready-to-run list when the routine was called.
    In an interrupt handler the routine goes on, and the new context is
    restored when the handler returns; otherwise the calling task stops here
    unless it is the new head itself. *)
Definition up_switch (rtcb : Z) : M kstate bool :=
  nexttcb ← rtr_head;
  modify (set_running nexttcb);;
  mret (negb up_interrupt_context && negb (nexttcb =? rtcb)).

(** The result of these routines is whether the caller has been suspended. *)
Definition up_block_task (x task_state' : Z) : M kstate bool :=
  rtcb ← rtr_head;
  t ← tcb x;
  assert (is_ready_state (task_state t));;
  switch_needed ← sched_removereadytorun x;
  sched_addblocked x task_state';;
  pnd ← pnd_head;
  switch_needed ← (if nonnull pnd then merged ← sched_mergepending; mret (switch_needed || merged)
                   else mret switch_needed);
  if switch_needed : bool then up_switch rtcb else mret false.

Definition up_unblock_task (x : Z) : M kstate bool :=
  rtcb ← rtr_head;
  t ← tcb x;
  assert (is_blocked_state (task_state t));;
  sched_removeblocked x;;
  updt x (set_timeslice (MSEC2TICK CONFIG_RR_INTERVAL));;
  switched ← sched_addreadytorun x;
  if switched : bool then up_switch rtcb else mret false.

Definition up_release_pending : M kstate bool :=
  rtcb ← rtr_head;
  switched ← sched_mergepending;
  if switched : bool then up_switch rtcb else mret false.

Definition up_reprioritize_rtr (x priority : Z) : M kstate bool :=
  t ← tcb x;
  assert (is_ready_state (task_state t) && (SCHED_PRIORITY_MIN <=? priority));;
  rtcb ← rtr_head;
  switch_needed ← sched_removereadytorun x;
  updt x (set_priority priority);;
  added ← sched_addreadytorun x;
  if xorb switch_needed added then
    pnd ← pnd_head;
    (if nonnull pnd then _ ← sched_mergepending; mret tt else mret tt);;
    up_switch rtcb
  else mret false.

(** * sched_lock.c, sched_unlock.c, sched_lockcount.c *)
Definition sched_lock : M kstate unit :=
  rtcb ← rtr_head;
  if nonnull rtcb && negb up_interrupt_context then
    r ← tcb rtcb;
    assert (lockcount r <? MAX_LOCK_COUNT);;
    updt rtcb (set_lockcount (lockcount r + 1))
  else mret tt.

(** The part of sched_unlock after up_release_pending. *)
Definition sched_unlock_rr (rtcb : Z) : M kstate unit :=
  r ← tcb rtcb;
  if negb (Z.land (flags r) TCB_FLAG_ROUND_ROBIN =? 0) && (timeslice r =? 0) then
    head ← rtr_head;
    if negb (rtcb =? head) then updt rtcb (set_timeslice (MSEC2TICK CONFIG_RR_INTERVAL)) else mret tt
  else mret tt.

(** sched_unlock, the caller returning [ret] afterwards. *)
Definition sched_unlock (ret : Z) : M kstate result :=
  rtcb ← rtr_head;
  if nonnull rtcb && negb up_interrupt_context then
    r ← tcb rtcb;
    (if negb (lockcount r =? 0) then updt rtcb (set_lockcount (lockcount r - 1)) else mret tt);;
    r ← tcb rtcb;
    if lockcount r <=? 0 then
      updt rtcb (set_lockcount 0);;
      pnd ← pnd_head;
      stopped ← (if nonnull pnd then up_release_pending else mret false);
      if stopped : bool then mret (Suspended (RUnlock rtcb ret))
      else sched_unlock_rr rtcb;; mret (Returned ret)
    else mret (Returned ret)
  else mret (Returned ret).

Definition sched_lockcount : M kstate Z :=
  rtcb ← rtr_head;
  r ← tcb rtcb;
  mret (lockcount r).

(** * sched/errno *)
Definition set_errno (e : Z) : M kstate unit :=
  if negb up_interrupt_context then
    rtcb ← rtr_head;
    if nonnull rtcb then
      r ← tcb rtcb;
      if task_state r =? TSTATE_TASK_RUNNING then updt rtcb (set_pterrno e)
      else modify (set_irqerrno e)
    else modify (set_irqerrno e)
  else modify (set_irqerrno e).

Definition get_errno : M kstate Z :=
  if negb up_interrupt_context then
    rtcb ← rtr_head;
    if nonnull rtcb then
      r ← tcb rtcb;
      if task_state r =? TSTATE_TASK_RUNNING then mret (pterrno r) else gets g_irqerrno
    else gets g_irqerrno
  else gets g_irqerrno.

(** * sched_setpriority.c, sched_yield.c *)
Definition sched_setpriority (x prio : Z) : M kstate result :=
  rtcb ← rtr_head;
  if (prio <? SCHED_PRIORITY_MIN) || (SCHED_PRIORITY_MAX <? prio) then
    set_errno EINVAL;;
    mret (Returned ERROR)
  else
    t ← tcb x;
    if task_state t =? TSTATE_TASK_RUNNING then
      flink ← klinks (load (x + FLINK));
      n ← tcb flink;
      if prio <=? sched_priority n then
        stopped ← up_reprioritize_rtr x prio;
        mret (if stopped : bool then Suspended (RReturn OK) else Returned OK)
      else
        updt x (set_priority prio);;
        mret (Returned OK)
    else if task_state t =? TSTATE_TASK_READYTORUN then
      r ← tcb rtcb;
      if sched_priority r <? prio then
        stopped ← up_reprioritize_rtr x prio;
        mret (if stopped : bool then Suspended (RReturn OK) else Returned OK)
      else
        removed ← sched_removereadytorun x;
        assert (negb removed);;
        updt x (set_priority prio);;
        added ← sched_addreadytorun x;
        assert (negb added);;
        mret (Returned OK)
    else
      e ← tasklist (task_state t);
      let '(list, prioritized) := e : Z * bool in
      (if prioritized then
         klinks (dq_rem x list);;
         updt x (set_priority prio);;
         _ ← sched_addprioritized x list;
         mret tt
       else updt x (set_priority prio));;
      mret (Returned OK).

Definition sched_yield : M kstate result :=
  rtcb ← rtr_head;
  r ← tcb rtcb;
  sched_setpriority rtcb (sched_priority r).

(** * sched_gettcb.c *)
Definition sched_gettcb (p : Z) : M kstate Z :=
  if 0 <=? p then
    e ← pidhash p;
    mret (if p =? ph_pid e then ph_tcb e else NULL)
  else mret NULL.

(** * sched_setparam.c, sched_setscheduler.c; [param] is NULL or the priority
    it points to. *)
Definition then_unlock (r : result) : M kstate result :=
  match r with
  | Returned ret => sched_unlock ret
  | Suspended (RReturn ret) => mret (Suspended (RThenUnlock ret))
  | Suspended k => mret (Suspended k)
  end.

Definition sched_setparam (p : Z) (param : option Z) : M kstate result :=
  match param with
  | None => set_errno EINVAL;; mret (Returned ERROR)
  | Some prio =>
      sched_lock;;
      rtcb ← rtr_head;
      r ← tcb rtcb;
      x ← (if (p =? 0) || (p =? pid r) then mret rtcb else sched_gettcb p);
      if negb (nonnull x) then
        set_errno ESRCH;;
        sched_unlock ERROR
      else
        ret ← sched_setpriority x prio;
        then_unlock ret
  end.

Definition sched_setscheduler (p policy prio : Z) : M kstate result :=
  if negb (policy =? SCHED_FIFO) && negb (policy =? SCHED_RR) then
    set_errno EINVAL;; mret (Returned ERROR)
  else
    rtcb ← rtr_head;
    r ← tcb rtcb;
    x ← sched_gettcb (if p =? 0 then pid r else p);
    if negb (nonnull x) then set_errno ESRCH;; mret (Returned ERROR)
    else
      sched_lock;;
      t ← tcb x;
      (if policy =? SCHED_RR then
         updt x (set_policy (Z.lor (flags t) TCB_FLAG_ROUND_ROBIN) (MSEC2TICK CONFIG_RR_INTERVAL))
       else updt x (set_policy (Z.ldiff (flags t) TCB_FLAG_ROUND_ROBIN) 0));;
      ret ← sched_setpriority x prio;
      then_unlock ret.

(** * sched_getparam.c, sched_getscheduler.c, sched_rrgetinterval.c *)

(** The result is the return value and the priority stored. *)
Definition sched_getparam (p : Z) (param : bool) : M kstate (result * option Z) :=
  if negb param then mret (Returned ERROR, None)
  else
    rtcb ← rtr_head;
    r ← tcb rtcb;
    if (p =? 0) || (p =? pid r) then mret (Returned OK, Some (sched_priority r))
    else
      sched_lock;;
      x ← sched_gettcb p;
      if negb (nonnull x) then
        u ← sched_unlock ERROR; mret (u, None)
      else
        t ← tcb x;
        u ← sched_unlock OK; mret (u, Some (sched_priority t)).

Definition sched_getscheduler (p : Z) : M kstate Z :=
  x ← (if p =? 0 then rtr_head else sched_gettcb p);
  if negb (nonnull x) then set_errno ESRCH;; mret ERROR
  else
    t ← tcb x;
    mret (if negb (Z.land (flags t) TCB_FLAG_ROUND_ROBIN =? 0) then SCHED_RR else SCHED_FIFO).

(** The result is the return value and the interval stored, in seconds and
    nanoseconds. *)
Definition sched_rr_get_interval (p : Z) (interval : bool) : M kstate (Z * option (Z * Z)) :=
  if p <? 0 then set_errno EINVAL;; mret (ERROR, None)
  else
    rrtcb ← (if p =? 0 then rtr_head else sched_gettcb p);
    if negb (p =? 0) && negb (nonnull rrtcb) then set_errno ESRCH;; mret (ERROR, None)
    else if negb interval then set_errno EFAULT;; mret (ERROR, None)
    else mret (OK, Some (CONFIG_RR_INTERVAL / 1000, (CONFIG_RR_INTERVAL `mod` 1000) * 1000000)).

(** * sched_processtimer.c *)
Definition sched_process_timeslice : M kstate bool :=
  rtcb ← rtr_head;
  r ← tcb rtcb;
  if negb (Z.land (flags r) TCB_FLAG_ROUND_ROBIN =? 0) then
    if timeslice r <=? 1 then
      if lockcount r =? 0 then
        updt rtcb (set_timeslice (MSEC2TICK CONFIG_RR_INTERVAL));;
        flink ← klinks (load (rtcb + FLINK));
        if nonnull flink then
          n ← tcb flink;
          if sched_priority r <=? sched_priority n then up_reprioritize_rtr rtcb (sched_priority r)
          else mret false
        else mret false
      else mret false
    else
      updt rtcb (set_timeslice (timeslice r - 1));;
      mret false
  else mret false.

(** * sched_cpuload.c *)
Definition CONFIG_SCHED_CPULOAD_TIMECONSTANT : Z := 2.

Definition set_ticks (n : Z) (e : pidhash_s) : pidhash_s := Pidhash (ph_tcb e) (ph_pid e) n.

Fixpoint cpuload_shift (h : list pidhash_s) (total : Z) : list pidhash_s * Z :=
  match h with
  | [] => ([], total)
  | e :: h =>
      let t := Z.shiftr (ph_ticks e) 1 in
      let '(h, total) := cpuload_shift h (u32 (total + t)) in
      (set_ticks t e :: h, total)
  end.

Definition sched_process_cpuload : M kstate unit :=
  rtcb ← rtr_head;
  r ← tcb rtcb;
  e ← pidhash (pid r);
  h ← gets g_pidhash;
  let h := <[Z.to_nat (PIDHASH (pid r)) := set_ticks (u32 (ph_ticks e + 1)) e]> (h : list pidhash_s) in
  n ← gets g_cpuload_total;
  let n := u32 (n + 1) in
  if CONFIG_SCHED_CPULOAD_TIMECONSTANT * CLOCKS_PER_SEC <? n then
    let '(h, total) := cpuload_shift h 0 in
    modify (set_load h total)
  else modify (set_load h n).

(** The return value and what is stored: total and active. *)
Definition clock_cpuload (p : Z) : M kstate (Z * option (Z * Z)) :=
  e ← pidhash p;
  if nonnull (ph_tcb e) && (ph_pid e =? p) then
    n ← gets g_cpuload_total;
    mret (OK, Some (n, ph_ticks e))
  else mret (- ESRCH, None).
End Sched.
