(* ===== verification/Sem.v ===== *)
(** Counting semaphores, sched/semaphore, in the product configuration
    (no priority inheritance): the code.

    A negative count is the number of tasks that wait, in the prioritized list
    g_waitingforsemaphore with the semaphore noted in their TCB. *)

From S2P Require Import Prelude Queue Sched.

Definition SEM_VALUE_MAX : Z := 0x7fff.

(** The count is an int16_t. *)
Definition s16 (x : Z) : Z := (x + 2 ^ 15) `mod` 2 ^ 16 - 2 ^ 15.

Section Sem.
Context `{Globals}.
Variable up_interrupt_context : bool.

Definition semcount (sem : Z) : M kstate Z := λ s,
  match k_sems s !! sem with Some c => Done (c, s) | None => Fault end.
Definition set_semcount (sem c : Z) : M kstate unit := λ s,
  match k_sems s !! sem with
  | Some _ => Done (tt, KState (k_mem s) (k_tcbs s) (<[sem:=c]> (k_sems s)) (k_running s) (g_irqerrno s)
                          (g_pidhash s) (g_cpuload_total s))
  | None => Fault
  end.

(** * sem_wait.c: the part after the task runs again, then the whole *)
Definition sem_wait_rest : M kstate result :=
  e ← get_errno up_interrupt_context;
  mret (Returned (if negb (e =? EINTR) && negb (e =? ETIMEDOUT) then OK else ERROR)).

Definition sem_wait (sem : Z) : M kstate result :=
  rtcb ← rtr_head;
  assert (negb up_interrupt_context);;
  set_errno up_interrupt_context EINVAL;;
  if nonnull sem then
    c ← semcount sem;
    if 0 <? c then
      set_semcount sem (s16 (c - 1));;
      updt rtcb (set_waitsem NULL);;
      mret (Returned OK)
    else
      r ← tcb rtcb;
      assert (waitsem r =? NULL);;
      set_semcount sem (s16 (c - 1));;
      updt rtcb (set_waitsem sem);;
      set_errno up_interrupt_context 0;;
      stopped ← up_block_task up_interrupt_context rtcb TSTATE_WAIT_SEM;
      if stopped : bool then mret (Suspended RSemWait) else sem_wait_rest
  else mret (Returned ERROR).

(** * sem_trywait.c *)
Definition sem_trywait (sem : Z) : M kstate Z :=
  rtcb ← rtr_head;
  assert (negb up_interrupt_context);;
  set_errno up_interrupt_context EINVAL;;
  if nonnull sem then
    set_errno up_interrupt_context EAGAIN;;
    c ← semcount sem;
    if 0 <? c then
      set_semcount sem (s16 (c - 1));;
      updt rtcb (set_waitsem NULL);;
      mret OK
    else mret ERROR
  else mret ERROR.

(** * sem_post.c *)
Definition sem_post_search (sem : Z) (stcb : Z) : M kstate (Z + Z) :=
  if nonnull stcb then
    t ← tcb stcb;
    if negb (waitsem t =? sem) then
      n ← klinks (load (stcb + FLINK));
      mret (inl n)
    else mret (inr stcb)
  else mret (inr stcb).

Definition sem_post (sem : Z) : M kstate result :=
  if nonnull sem then
    c ← semcount sem;
    assert (c <? SEM_VALUE_MAX);;
    set_semcount sem (s16 (c + 1));;
    c ← semcount sem;
    stopped ← (if c <=? 0 then
                 head ← klinks (load (g_waitingforsemaphore + HEAD));
                 fuel ← gets (λ s, size (k_mem s));
                 stcb ← loop (S fuel) (sem_post_search sem) head;
                 if nonnull stcb then
                   updt stcb (set_waitsem NULL);;
                   up_unblock_task up_interrupt_context stcb
                 else mret false
               else mret false);
    mret (if stopped : bool then Suspended (RReturn OK) else Returned OK)
  else mret (Returned ERROR).

(** * sem_waitirq.c; the result is whether the caller has been suspended. *)
Definition sem_waitirq (wtcb errcode : Z) : M kstate bool :=
  w ← tcb wtcb;
  if task_state w =? TSTATE_WAIT_SEM then
    let sem := waitsem w in
    assert (nonnull sem);;
    c ← semcount sem;
    assert (c <? 0);;
    set_semcount sem (s16 (c + 1));;
    updt wtcb (set_waitsem NULL);;
    updt wtcb (set_pterrno errcode);;
    up_unblock_task up_interrupt_context wtcb
  else mret false.

(** * sem_timedwait.c: the timeout; the rest of the file is in [System]. *)
Definition sem_timeout (p : Z) : M kstate bool :=
  wtcb ← sched_gettcb (s16 p);
  if nonnull wtcb then
    w ← tcb wtcb;
    if task_state w =? TSTATE_WAIT_SEM then sem_waitirq wtcb ETIMEDOUT else mret false
  else mret false.

(** * sem_destroy.c *)
Definition sem_destroy (sem : Z) : M kstate Z :=
  if nonnull sem then
    c ← semcount sem;
    (if 0 <=? c then set_semcount sem 1 else mret tt);;
    mret OK
  else
    set_errno up_interrupt_context EINVAL;;
    mret ERROR.

(** * sem_recover.c *)
Definition sem_recover (x : Z) : M kstate unit :=
  t ← tcb x;
  if task_state t =? TSTATE_WAIT_SEM then
    let sem := waitsem t in
    assert (nonnull sem);;
    c ← semcount sem;
    assert (c <? 0);;
    set_semcount sem (s16 (c + 1));;
    updt x (set_waitsem NULL)
  else mret tt.

(** A suspended task going on when the processor runs it again. *)
Definition resume (k : resumption) : M kstate result :=
  match k with
  | RReturn r => mret (Returned r)
  | RUnlock rtcb r => sched_unlock_rr rtcb;; mret (Returned r)
  | RThenUnlock r => sched_unlock up_interrupt_context r
  | RSemWait => sem_wait_rest
  end.
End Sem.
