(* ===== verification/SchedList.v ===== *)
(** The task lists: prioritized insertion, the search of the code, and the
    seven lists side by side in memory. *)

From Stdlib Require Import Sorting.Sorted.
From stdpp Require Import functions.
From S2P Require Import Prelude Links Queue Sched.

(** * Prioritized lists *)
Section Prio.
Variable p : Z → Z.

(** [x] goes behind all tasks of at least its priority. *)
Fixpoint insert_prio (x : Z) (l : list Z) : list Z :=
  match l with
  | [] => [x]
  | y :: l' => if p x <=? p y then y :: insert_prio x l' else x :: l
  end.

Definition desc (l : list Z) : Prop := StronglySorted (λ x y, p y ≤ p x) l.

Lemma insert_prio_split x l :
  ∃ l1 l2, l = l1 ++ l2 ∧ insert_prio x l = l1 ++ x :: l2 ∧
    Forall (λ y, p x ≤ p y) l1 ∧ (∀ y, head l2 = Some y → p y < p x).
Proof.
  induction l as [|y l (l1 & l2 & -> & E & H1 & H2)]; simpl.
  - by exists [], [].
  - destruct (p x <=? p y) eqn:Hp.
    + exists (y :: l1), l2. simpl. rewrite E. split_and!; [done|done| |done]. constructor; [lia|done].
    + exists [], (y :: l1 ++ l2). split_and!; [done|done|done|]. intros ? [= <-]. lia.
Qed.

Lemma insert_prio_perm x l : insert_prio x l ≡ₚ x :: l.
Proof.
  destruct (insert_prio_split x l) as (l1 & l2 & -> & -> & _). by rewrite Permutation_middle.
Qed.

Lemma insert_prio_elem x l y : y ∈ insert_prio x l ↔ y = x ∨ y ∈ l.
Proof. rewrite insert_prio_perm. set_solver. Qed.

Lemma insert_prio_desc x l : desc l → desc (insert_prio x l).
Proof.
  unfold desc. induction 1 as [|y l Hl IH Hy]; simpl; [by repeat constructor|].
  destruct (p x <=? p y) eqn:Hp.
  - constructor; [done|]. rewrite Forall_forall in *. intros z [->|Hz]%insert_prio_elem; [lia|auto].
  - constructor; [by constructor|]. constructor; [lia|]. rewrite Forall_forall in *.
    intros z Hz. specialize (Hy z Hz). lia.
Qed.

(** Passing a prefix of at least the same priority. *)
Lemma insert_prio_app x l1 l2 :
  Forall (λ y, p x ≤ p y) l1 → insert_prio x (l1 ++ l2) = l1 ++ insert_prio x l2.
Proof.
  induction 1 as [|y l1 Hy _ IH]; simpl; [done|]. rewrite (proj2 (Z.leb_le _ _)) by done. by rewrite IH.
Qed.

Lemma desc_app l1 l2 : desc (l1 ++ l2) → desc l1 ∧ desc l2 ∧ ∀ x y, x ∈ l1 → y ∈ l2 → p y ≤ p x.
Proof.
  unfold desc. induction l1 as [|z l1 IH]; simpl.
  - intros Hd. split_and!; [constructor|done|set_solver].
  - intros [Hd Hz]%StronglySorted_inv. destruct (IH Hd) as (H1 & H2 & H3). rewrite Forall_forall in Hz.
    split_and!; [|done|].
    + constructor; [done|]. apply Forall_forall. intros y Hy. apply Hz. set_solver.
    + intros x y [->|Hx]%elem_of_cons Hy; [apply Hz; set_solver|auto].
Qed.

Lemma desc_remove l1 x l2 : desc (l1 ++ x :: l2) → desc (l1 ++ l2).
Proof.
  unfold desc. induction l1 as [|z l1 IH]; simpl; intros [Hd Hz]%StronglySorted_inv; [done|].
  constructor; [auto|]. rewrite Forall_forall in *. intros y Hy. apply Hz. set_solver.
Qed.

(** Merging a second list, as inserting its elements one by one. *)
Definition merge_prio (l k : list Z) : list Z := foldl (λ l x, insert_prio x l) l k.

Lemma merge_prio_perm l k : merge_prio l k ≡ₚ l ++ k.
Proof.
  revert l. induction k as [|x k IH]; intros l; simpl; [by rewrite app_nil_r|].
  rewrite IH, insert_prio_perm. by rewrite <-Permutation_middle.
Qed.

Lemma merge_prio_desc l k : desc l → desc (merge_prio l k).
Proof. revert l. induction k as [|x k IH]; intros l Hl; simpl; [done|]. apply IH. by apply insert_prio_desc. Qed.
End Prio.

Lemma insert_prio_ext p p' x l :
  (∀ y, y ∈ x :: l → p y = p' y) → insert_prio p x l = insert_prio p' x l.
Proof.
  intros He. induction l as [|y l IH]; simpl; [done|]. rewrite <-!He by set_solver.
  rewrite IH; [done|]. intros z Hz. apply He. set_solver.
Qed.

Lemma desc_ext p p' l : (∀ y, y ∈ l → p y = p' y) → desc p l → desc p' l.
Proof.
  unfold desc. intros He. induction 1 as [|y l Hl IH Hy]; [constructor|]. constructor.
  - apply IH. intros z Hz. apply He. set_solver.
  - rewrite Forall_forall in *. intros z Hz. rewrite <-!He by set_solver. auto.
Qed.

(** The priority of a task. *)
Definition prio (D : gmap Z tcb_s) (x : Z) : Z := default 0 (sched_priority <$> D !! x).

Lemma prio_some D x t : D !! x = Some t → prio D x = sched_priority t.
Proof. unfold prio. by intros ->. Qed.

(** * Symbolic execution *)
Section Exec.
Context `{Globals}.
Implicit Types (s : kstate).

Lemma returns_klinks {A} (e : M mem A) s (Q : A → kstate → Prop) :
  returns e (k_mem s) (λ a m, Q a (set_mem m s)) → returns (klinks e) s Q.
Proof. apply returns_zoom. Qed.

Lemma returns_kload a v s (Q : Z → kstate → Prop) :
  k_mem s !! a = Some v → Q v s → returns (klinks (load a)) s Q.
Proof. intros Ha HQ. apply returns_klinks. eapply returns_load; [done|]. by destruct s. Qed.

Lemma returns_tcb x t s (Q : tcb_s → kstate → Prop) :
  k_tcbs s !! x = Some t → Q t s → returns (tcb x) s Q.
Proof. unfold returns, tcb. by intros ->. Qed.

Lemma returns_updt x f t s (Q : unit → kstate → Prop) :
  k_tcbs s !! x = Some t → Q tt (set_tcbs (<[x:=f t]> (k_tcbs s)) s) → returns (updt x f) s Q.
Proof. unfold returns, updt. by intros ->. Qed.

(** * sched_addprioritized *)
Lemma sched_search_loop s p b l1 l2 fuel :
  dseg 0 (k_mem s) b (l1 ++ l2) NULL → Forall (λ x, x ≠ NULL) (l1 ++ l2) →
  Forall (λ y, ∃ t, k_tcbs s !! y = Some t ∧ p ≤ sched_priority t) l1 →
  (∀ y, head l2 = Some y → ∃ t, k_tcbs s !! y = Some t ∧ sched_priority t < p) →
  (length l1 < fuel)%nat →
  returns (loop fuel (sched_search p) (hd_or NULL (l1 ++ l2))) s (λ r s', r = hd_or NULL l2 ∧ s' = s).
Proof.
  revert b l1. induction fuel as [|fuel IH]; intros b l1; [lia|]. rewrite loop_S.
  destruct l1 as [|y l1]; simpl.
  - intros Hd Hn _ Hl _. apply returns_bind. unfold sched_search. destruct l2 as [|y l2].
    + by do 2 apply returns_ret.
    + rewrite hd_or_cons. apply Forall_cons in Hn as [Hy _]. unfold nonnull. rewrite (proj2 (Z.eqb_neq _ _)) by done.
      cbn [negb]. destruct (Hl y eq_refl) as (t & Ht & Hp). apply returns_bind. eapply returns_tcb; [done|].
      rewrite (proj2 (Z.leb_gt _ _)) by done. by do 2 apply returns_ret.
  - intros (Hf & _ & Hd) [Hy Hn]%Forall_cons [(t & Ht & Hp) Hl1]%Forall_cons Hl Hlen.
    apply returns_bind. unfold sched_search at 1. rewrite hd_or_cons. unfold nonnull.
    rewrite (proj2 (Z.eqb_neq _ _)) by done. cbn [negb]. apply returns_bind. eapply returns_tcb; [done|].
    rewrite (proj2 (Z.leb_le _ _)) by done. apply returns_bind. eapply returns_kload; [exact Hf|].
    apply returns_ret. eapply IH; try done. lia.
Qed.

Lemma sched_link_spec m q x l1 l2 :
  dq_repr m q (l1 ++ l2) → dq_fresh m q x (l1 ++ l2) →
  returns (sched_link x (hd_or NULL l2) q) m (λ r m',
    r = bool_decide (l1 = []) ∧ dq_post q (x :: l1 ++ l2) (l1 ++ x :: l2) m m').
Proof.
  intros Hr Hf. unfold sched_link. destruct l2 as [|y l2].
  - rewrite app_nil_r in *. pose proof Hr as (Hq & Ht & _). pose proof Hf as (Hx & Hm1 & Hm2 & Hs).
    pose proof (dq_fresh_sep _ _ q Hf ltac:(set_solver)) as Hxq.
    unfold FLINK, BLINK, HEAD, TAIL, nonnull. rewrite hd_or_nil. simpl.
    destruct (list_snoc_cases l1) as [->|(l' & y & ->)].
    + rewrite hd_or_nil in Hq. unfold last_or in Ht; simpl in Ht. rsteps. split; [done|]. split; [|by touch].
      apply dq_splice with (m:=m) (l1:=[]) (l2:=[]); try done; try mem_solve. frame_solve.
    + pose proof (dq_node _ _ _ Hr) as (H1 & H2 & H3 & H4 & H5 & _).
      pose proof (dq_fresh_sep _ _ y Hf ltac:(set_solver)) as H6.
      rewrite last_or_snoc in *. rsteps. split; [by destruct l'|]. split; [|by touch].
      apply dq_splice with (m:=m) (l1:=l' ++ [y]) (l2:=[]);
        rewrite ?app_nil_r, ?last_or_snoc, ?last_snoc; try done; try mem_solve.
      * rewrite hd_or_app in Hq |- *. mem_solve.
      * intros ? [= <-]. mem_solve.
      * frame_solve.
  - pose proof Hr as (Hq & Ht & _). pose proof Hf as (Hx & Hm1 & Hm2 & Hs).
    pose proof (dq_fresh_sep _ _ q Hf ltac:(set_solver)) as Hxq.
    pose proof (dq_node _ _ _ Hr) as (H1 & H2 & H3 & H4 & _ & _).
    pose proof (dq_fresh_sep _ _ y Hf ltac:(set_solver)) as H6.
    unfold FLINK, BLINK, HEAD, TAIL, nonnull. rewrite hd_or_cons.
    destruct (list_snoc_cases l1) as [->|(l & z & ->)].
    + unfold last_or in H2; simpl in *. rsteps. split; [done|]. split; [|by touch].
      apply dq_splice with (m:=m) (l1:=[]) (l2:=y :: l2); try done; try mem_solve.
      * rewrite last_or_cons in Ht |- *. mem_solve.
      * intros ? [= <-]. mem_solve.
      * frame_solve.
    + rewrite <-app_assoc in *. simpl in *.
      pose proof (dq_node _ _ _ Hr) as (P1 & P2 & P3 & P4 & _ & _).
      pose proof (dq_pair _ _ _ _ Hr) as (N1 & N2 & N3 & N4 & N5 & _ & N7).
      pose proof (dq_fresh_sep _ _ z Hf ltac:(set_solver)) as N6.
      rewrite last_or_snoc in *. rsteps. split; [by destruct l|]. split; [|by touch].
      replace (l ++ z :: x :: y :: l2) with ((l ++ [z]) ++ x :: y :: l2) by (by rewrite <-app_assoc).
      apply dq_splice with (m:=m); rewrite ?last_or_snoc, ?last_snoc, <-?app_assoc; try done; try mem_solve.
      * rewrite hd_or_app. unfold hd_or; simpl. destruct l; simpl in *; mem_solve.
      * rewrite last_or_app in Ht. rewrite !last_or_cons in Ht. rewrite !last_or_cons. mem_solve.
      * intros ? [= <-]. mem_solve.
      * intros ? [= <-]. mem_solve.
      * simpl. frame_solve.
Qed.

Lemma dq_fuel m q l : dq_repr m q l → (length l ≤ size m)%nat.
Proof.
  intros Hr. pose proof (dq_nodup _ Hr) as Hnd. destruct Hr as (_ & _ & Hd & _).
  rewrite <-size_dom. rewrite <-(size_list_to_set (C:=gset Z)) by done. apply subseteq_size.
  intros y Hy%elem_of_list_to_set. apply elem_of_dom.
  pose proof (dseg_mapped _ _ _ _ _ _ Hd Hy) as [Hm _]. by rewrite Z.add_0_r in Hm.
Qed.

Definition has_tcbs (D : gmap Z tcb_s) (l : list Z) : Prop := ∀ y, y ∈ l → is_Some (D !! y).

Lemma sched_addprioritized_spec s q x l t :
  dq_repr (k_mem s) q l → dq_fresh (k_mem s) q x l → has_tcbs (k_tcbs s) l →
  k_tcbs s !! x = Some t → SCHED_PRIORITY_MIN ≤ sched_priority t →
  returns (sched_addprioritized x q) s (λ r s', ∃ m', s' = set_mem m' s ∧
    r = bool_decide (head (insert_prio (prio (k_tcbs s)) x l) = Some x) ∧
    dq_post q (x :: l) (insert_prio (prio (k_tcbs s)) x l) (k_mem s) m').
Proof.
  intros Hr Hf Hts Ht Hp. unfold sched_addprioritized.
  destruct (insert_prio_split (prio (k_tcbs s)) x l) as (l1 & l2 & -> & Ei & Hl1 & Hl2). rewrite Ei.
  assert (Hx : x ∉ l1 ++ l2).
  { destruct Hf as (_ & _ & _ & Hs). apply spaced_NoDup in Hs. apply NoDup_cons in Hs as [Hs _]. set_solver. }
  apply returns_bind. eapply returns_tcb; [done|]. apply returns_bind. apply returns_assert; [lia|].
  apply returns_bind. eapply returns_kload; [unfold HEAD; rewrite Z.add_0_r; apply Hr|].
  apply returns_bind, returns_gets, returns_bind. pose proof Hr as (_ & _ & Hd & _ & Hn).
  rewrite (prio_some _ _ _ Ht) in Hl1, Hl2.
  eapply returns_mono; [eapply (sched_search_loop s _ NULL l1 l2); try done|].
  - rewrite Forall_forall in *. intros y Hy. destruct (Hts y) as [ty Hty]; [set_solver|]. exists ty.
    split; [done|]. specialize (Hl1 y Hy). by rewrite (prio_some _ _ _ Hty) in Hl1.
  - intros y Hy. destruct (Hts y) as [ty Hty]; [destruct l2; set_solver|]. exists ty. split; [done|].
    specialize (Hl2 y Hy). by rewrite (prio_some _ _ _ Hty) in Hl2.
  - pose proof (dq_fuel _ _ _ Hr) as Hlen. rewrite length_app in Hlen. lia.
  - intros r s' [-> ->]. apply returns_klinks. eapply returns_mono; [by apply sched_link_spec|].
    intros r m' [-> Hpost]. exists m'. split_and!; [done| |done]. apply bool_decide_ext.
    destruct l1 as [|z l1]; simpl; [done|]. split; [done|]. intros [= ->]. set_solver.
Qed.
End Exec.
