(* ===== verification/SchedInv.v ===== *)
(** The invariant of the task lists.

    [T] gives the tasks in each list, by the address of the list header.
    [lists_ok] says the headers and links in memory are those lists, apart
    from each other; [rq_ok] adds what the scheduler keeps of the TCBs: the
    state of a task names the list it is in, prioritized lists are in order of
    priority, and the idle task closes the ready-to-run list. *)

From Stdlib Require Import Sorting.Sorted.
From stdpp Require Import functions.
From S2P Require Import Prelude Links Queue Sched SchedList.

Section SchedInv.
Context `{Globals}.
Implicit Types (m : mem) (D : gmap Z tcb_s) (T : Z → list Z) (s : kstate) (q x y : Z).

Definition queues : list Z :=
  [ g_readytorun; g_pendingtasks; g_inactivetasks; g_waitingforsemaphore; g_waitingforsignal;
    g_waitingformqnotempty; g_waitingformqnotfull ].

Record lists_ok m T : Prop := {
  lo_nodup : NoDup queues;
  lo_repr : ∀ q, q ∈ queues → dq_repr m q (T q);
  lo_apart : ∀ q q', q ∈ queues → q' ∈ queues → q ≠ q' →
    ∀ x y, x ∈ q :: T q → y ∈ q' :: T q' → 8 ≤ Z.abs (x - y);
}.

(** A TCB that is in no list. *)
Definition free m T x : Prop :=
  x ≠ NULL ∧ is_Some (m !! x) ∧ is_Some (m !! (x + 4)) ∧
  ∀ q y, q ∈ queues → y ∈ q :: T q → 8 ≤ Z.abs (x - y).

Lemma dq_repr_touches m m' q l F :
  touches F m m' → (∀ x y, x ∈ q :: l → y ∈ F → 8 ≤ Z.abs (x - y)) → dq_repr m q l → dq_repr m' q l.
Proof.
  intros [_ Ht] Hs (H1 & H2 & H3 & H4 & H5).
  assert (He : ∀ x, x ∈ q :: l → m' !! x = m !! x ∧ m' !! (x + 4) = m !! (x + 4)).
  { intros x Hx. split; apply Ht, Forall_forall; intros y Hy; specialize (Hs x y Hx Hy); lia. }
  destruct (He q) as [E1 E2]; [set_solver|]. split_and!; try done; [congruence..|].
  revert H3. apply dseg_frame. intros x Hx. rewrite Z.add_0_r. apply He. set_solver.
Qed.

Lemma free_fresh m T x q : lists_ok m T → free m T x → q ∈ queues → dq_fresh m q x (T q).
Proof.
  intros Hok (Hx & H1 & H2 & Hs) Hq. pose proof (lo_repr _ _ Hok q Hq) as (_ & _ & _ & Hsp & _).
  split_and!; try done. split; [|done]. apply Forall_forall. intros y Hy. by apply (Hs q).
Qed.

Lemma lists_add m T m' q x l' :
  lists_ok m T → q ∈ queues → free m T x → l' ≡ₚ x :: T q →
  dq_post q (x :: T q) l' m m' → lists_ok m' (<[q:=l']> T).
Proof.
  intros Hok Hq (Hx & _ & _ & Hs) Hp [Hr Ht].
  assert (Hap : ∀ q', q' ∈ queues → q' ≠ q → ∀ a b, a ∈ q' :: T q' → b ∈ q :: x :: T q → 8 ≤ Z.abs (a - b)).
  { intros q' Hq' Hne a b Ha Hb. destruct (decide (b = x)) as [->|Hbx].
    - specialize (Hs q' a Hq' Ha). lia.
    - eapply (lo_apart _ _ Hok q' q); [done..|]. set_solver. }
  split.
  - apply Hok.
  - intros q' Hq'. destruct (decide (q' = q)) as [->|Hne]; [by rewrite fn_lookup_insert|].
    rewrite fn_lookup_insert_ne by done. eapply dq_repr_touches; [exact Ht| |by apply Hok].
    by apply Hap.
  - intros q1 q2 Hq1 Hq2 Hne a b.
    destruct (decide (q1 = q)) as [->|H1]; destruct (decide (q2 = q)) as [->|H2]; try done;
      rewrite ?fn_lookup_insert, ?fn_lookup_insert_ne by done; rewrite ?Hp; intros Ha Hb.
    + specialize (Hap q2 Hq2 H2 b a Hb Ha). lia.
    + by apply (Hap q1).
    + by apply (lo_apart _ _ Hok q1 q2).
Qed.

Lemma lists_rem m T m' q l1 x l2 :
  lists_ok m T → q ∈ queues → T q = l1 ++ x :: l2 →
  dq_post q (l1 ++ x :: l2) (l1 ++ l2) m m' →
  lists_ok m' (<[q:=l1 ++ l2]> T) ∧ free m' (<[q:=l1 ++ l2]> T) x.
Proof.
  intros Hok Hq ET [Hr Ht].
  assert (Hsub : ∀ a, a ∈ q :: l1 ++ l2 → a ∈ q :: T q) by (rewrite ET; set_solver).
  split.
  - split.
    + apply Hok.
    + intros q' Hq'. destruct (decide (q' = q)) as [->|Hne]; [by rewrite fn_lookup_insert|].
      rewrite fn_lookup_insert_ne by done. eapply dq_repr_touches; [exact Ht| |by apply Hok].
      rewrite <-ET. intros a b Ha Hb. by apply (lo_apart _ _ Hok q' q).
    + intros q1 q2 Hq1 Hq2 Hne a b Ha Hb. apply (lo_apart _ _ Hok q1 q2); try done.
      * destruct (decide (q1 = q)) as [->|H1]; [rewrite fn_lookup_insert in Ha; auto|].
        by rewrite fn_lookup_insert_ne in Ha.
      * destruct (decide (q2 = q)) as [->|H1]; [rewrite fn_lookup_insert in Hb; auto|].
        by rewrite fn_lookup_insert_ne in Hb.
  - pose proof (lo_repr _ _ Hok q Hq) as Hrq. rewrite ET in Hrq.
    pose proof (dq_node _ _ _ Hrq) as (N1 & N2 & N3 & N4 & _).
    split_and!; [done| | |].
    + rewrite <-(touches_mapped _ _ _ _ Ht). by eexists.
    + rewrite <-(touches_mapped _ _ _ _ Ht). by eexists.
    + intros q' y Hq' Hy. destruct (decide (q' = q)) as [->|Hne].
      * rewrite fn_lookup_insert in Hy. apply elem_of_cons in Hy as [->|Hy]; [lia|].
        by apply (dq_sep_app _ _ _ _ Hrq).
      * rewrite fn_lookup_insert_ne in Hy by done. apply (lo_apart _ _ Hok q q'); try done.
        rewrite ET. set_solver.
Qed.

(** A task is in at most one list, once. *)
Lemma lists_unique m T q q' x : lists_ok m T → q ∈ queues → q' ∈ queues → x ∈ T q → x ∈ T q' → q = q'.
Proof.
  intros Hok Hq Hq' Hx Hx'. destruct (decide (q = q')) as [|Hne]; [done|].
  pose proof (lo_apart _ _ Hok q q' Hq Hq' Hne x x ltac:(set_solver) ltac:(set_solver)). lia.
Qed.

Lemma lists_nodup m T q : lists_ok m T → q ∈ queues → NoDup (T q).
Proof. intros Hok Hq. eapply dq_nodup, Hok, Hq. Qed.

Lemma free_notin m T x q : free m T x → q ∈ queues → x ∉ T q.
Proof. intros (_ & _ & _ & Hs) Hq Hx. specialize (Hs q x Hq ltac:(set_solver)). lia. Qed.

(** * The TCBs *)

(** The state a task in list [q] with contents [l] has. *)
Definition tstate q (l : list Z) x : Z :=
  if decide (q = g_readytorun) then
    if decide (head l = Some x) then TSTATE_TASK_RUNNING else TSTATE_TASK_READYTORUN
  else if decide (q = g_pendingtasks) then TSTATE_TASK_PENDING
  else if decide (q = g_inactivetasks) then TSTATE_TASK_INACTIVE
  else if decide (q = g_waitingforsemaphore) then TSTATE_WAIT_SEM
  else if decide (q = g_waitingforsignal) then TSTATE_WAIT_SIG
  else if decide (q = g_waitingformqnotempty) then TSTATE_WAIT_MQNOTEMPTY
  else TSTATE_WAIT_MQNOTFULL.

Definition prioritized q : Prop := q ≠ g_inactivetasks ∧ q ≠ g_waitingforsignal.

Record rq_ok m D T : Prop := {
  rq_lists : lists_ok m T;
  rq_tcb : ∀ q x, q ∈ queues → x ∈ T q → ∃ t, D !! x = Some t ∧ task_state t = tstate q (T q) x;
  rq_desc : ∀ q, q ∈ queues → prioritized q → desc (prio D) (T q);
  rq_idle : ∃ r, T g_readytorun = r ++ [g_idletcb];
  rq_idle_prio : prio D g_idletcb = 0;
  rq_prio : ∀ q x, q ∈ queues → x ∈ T q → x ≠ g_idletcb → 1 ≤ prio D x ≤ 255;
}.

(** What changes of the TCBs when tasks move between lists: their state only. *)
Definition same_but_state D D' : Prop := ∀ x, set_state 0 <$> D' !! x = set_state 0 <$> D !! x.

#[global] Instance same_but_state_refl : Reflexive same_but_state.
Proof. done. Qed.
#[global] Instance same_but_state_trans : Transitive same_but_state.
Proof. intros D1 D2 D3 H1 H2 x. by rewrite H2, H1. Qed.

Lemma same_but_state_upd D x v t :
  D !! x = Some t → same_but_state D (<[x:=set_state v t]> D).
Proof.
  intros Ht y. destruct (decide (y = x)) as [->|]; [|by rewrite lookup_insert_ne].
  by rewrite lookup_insert_eq, Ht.
Qed.

Lemma same_but_state_some D D' x t :
  same_but_state D D' → D !! x = Some t → ∃ v, D' !! x = Some (set_state v t).
Proof.
  intros Hs Ht. specialize (Hs x). rewrite Ht in Hs. simpl in Hs. destruct (D' !! x) as [t'|]; [|done].
  injection Hs as Hs. exists (task_state t'). destruct t, t'; unfold set_state in *; simpl in *. congruence.
Qed.

Lemma same_but_state_prio D D' x : same_but_state D D' → prio D' x = prio D x.
Proof.
  intros Hs. unfold prio. specialize (Hs x). destruct (D' !! x), (D !! x); simpl in *; try done.
  injection Hs. intros. congruence.
Qed.

Lemma tstate_ne q l x y l' : q ≠ g_readytorun → tstate q l x = tstate q l' y.
Proof. intros Hq. unfold tstate. destruct (decide (q = g_readytorun)); done. Qed.

Lemma tstate_ready l x :
  tstate g_readytorun l x = if decide (head l = Some x) then TSTATE_TASK_RUNNING else TSTATE_TASK_READYTORUN.
Proof. unfold tstate. destruct (decide (g_readytorun = g_readytorun)); done. Qed.

Lemma ready_in : g_readytorun ∈ queues.
Proof. unfold queues. set_solver. Qed.
Lemma pending_in : g_pendingtasks ∈ queues.
Proof. unfold queues. set_solver. Qed.
Lemma waitsem_in : g_waitingforsemaphore ∈ queues.
Proof. unfold queues. set_solver. Qed.

Lemma rq_has_tcbs m D T q : rq_ok m D T → q ∈ queues → has_tcbs D (T q).
Proof. intros Hok Hq x Hx. destruct (rq_tcb _ _ _ Hok q x Hq Hx) as (t & Ht & _). by eexists. Qed.

(** Rebuilding the invariant after one list changed and the states with it. *)
Lemma rq_change m D T m' D' q l' :
  rq_ok m D T → q ∈ queues → lists_ok m' (<[q:=l']> T) → (∀ x, prio D' x = prio D x) →
  (∀ q' x, q' ∈ queues → q' ≠ q → x ∈ T q' → D' !! x = D !! x) →
  (∀ x, x ∈ l' → ∃ t, D' !! x = Some t ∧ task_state t = tstate q l' x) →
  (prioritized q → desc (prio D) l') →
  (q = g_readytorun → ∃ r, l' = r ++ [g_idletcb]) →
  (∀ x, x ∈ l' → x ≠ g_idletcb → 1 ≤ prio D x ≤ 255) →
  rq_ok m' D' (<[q:=l']> T).
Proof.
  intros Hok Hq Hl Hp Ho Hs Hd Hi Hr. split.
  - done.
  - intros q' x Hq'. destruct (decide (q' = q)) as [->|Hne]; [rewrite fn_lookup_insert; auto|].
    rewrite fn_lookup_insert_ne by done. intros Hx. rewrite (Ho q' x) by done. by apply (rq_tcb _ _ _ Hok).
  - intros q' Hq' Hpr. destruct (decide (q' = q)) as [->|Hne].
    + rewrite fn_lookup_insert. eapply desc_ext; [|by apply Hd]. auto.
    + rewrite fn_lookup_insert_ne by done. eapply desc_ext; [|by apply (rq_desc _ _ _ Hok)]. auto.
  - destruct (decide (q = g_readytorun)) as [->|Hne]; [rewrite fn_lookup_insert; auto|].
    rewrite fn_lookup_insert_ne by done. apply Hok.
  - rewrite Hp. apply Hok.
  - intros q' x Hq'. rewrite Hp. destruct (decide (q' = q)) as [->|Hne]; [rewrite fn_lookup_insert; auto|].
    rewrite fn_lookup_insert_ne by done. by apply (rq_prio _ _ _ Hok).
Qed.

(** Only the seven lists matter. *)
Definition same_lists T T' : Prop := ∀ q, q ∈ queues → T q = T' q.

#[global] Instance same_lists_equiv : Equivalence same_lists.
Proof.
  split; unfold same_lists.
  - done.
  - intros T1 T2 H1 q Hq. symmetry. auto.
  - intros T1 T2 T3 H1 H2 q Hq. rewrite H1; auto.
Qed.

Lemma rq_ok_same m D T T' : same_lists T T' → rq_ok m D T → rq_ok m D T'.
Proof.
  unfold same_lists. intros He Hok. pose proof (rq_lists _ _ _ Hok) as Hl. split.
  - split; [apply Hl| |].
    + intros q Hq. rewrite <-He by done. by apply Hl.
    + intros q q' Hq Hq'. rewrite <-!He by done. by apply Hl.
  - intros q x Hq. rewrite <-He by done. by apply Hok.
  - intros q Hq. rewrite <-He by done. by apply Hok.
  - rewrite <-He by apply ready_in. apply Hok.
  - apply Hok.
  - intros q x Hq. rewrite <-He by done. by apply Hok.
Qed.

#[global] Instance rq_ok_proper m D : Proper (same_lists ==> iff) (rq_ok m D).
Proof. intros T T' He. split; apply rq_ok_same; [done|by symmetry]. Qed.

Lemma same_lists_insert T q l l' : same_lists (<[q:=l]> (<[q:=l']> T)) (<[q:=l]> T).
Proof.
  intros q' _. destruct (decide (q' = q)) as [->|]; [by rewrite !fn_lookup_insert|].
  by rewrite !fn_lookup_insert_ne.
Qed.

Lemma same_lists_comm T q q' l l' :
  q ≠ q' → same_lists (<[q:=l]> (<[q':=l']> T)) (<[q':=l']> (<[q:=l]> T)).
Proof.
  intros Hne r _. unfold insert, fn_insert. repeat case_decide; congruence.
Qed.

Lemma same_lists_id T q l : T q = l → same_lists (<[q:=l]> T) T.
Proof. intros <- q' _. destruct (decide (q' = q)) as [->|]; [by rewrite fn_lookup_insert|by rewrite fn_lookup_insert_ne]. Qed.
End SchedInv.

Create HintDb sched.
#[export] Hint Resolve ready_in pending_in waitsem_in : sched.
