(* ===== verification/SchedOps.v ===== *)
(** Moving tasks between the lists: what the sched_add and sched_remove
    routines do, on the lists and on the TCBs. *)

From Stdlib Require Import Sorting.Sorted.
From stdpp Require Import functions.
From S2P Require Import Prelude Links Queue Sched SchedList SchedInv.

Section SchedOps.
Context `{Globals}.
Implicit Types (m : mem) (D : gmap Z tcb_s) (T : Z → list Z) (s : kstate) (q x y : Z).

Definition rqs s T : Prop := rq_ok (k_mem s) (k_tcbs s) T.

(** Only links and task states differ. *)
Definition moved s s' : Prop :=
  same_but_state (k_tcbs s) (k_tcbs s') ∧ k_sems s' = k_sems s ∧ k_running s' = k_running s ∧
  g_irqerrno s' = g_irqerrno s ∧ g_pidhash s' = g_pidhash s ∧ g_cpuload_total s' = g_cpuload_total s.

#[global] Instance moved_refl : Reflexive moved.
Proof. done. Qed.
#[global] Instance moved_trans : Transitive moved.
Proof.
  intros s1 s2 s3 (A1 & A2 & A3 & A4 & A5 & A6) (B1 & B2 & B3 & B4 & B5 & B6).
  split_and!; [by etrans|congruence..].
Qed.

Lemma moved_upd s x t v :
  k_tcbs s !! x = Some t → moved s (set_tcbs (<[x:=set_state v t]> (k_tcbs s)) s).
Proof. intros Ht. split_and!; try done. by apply same_but_state_upd. Qed.

Lemma moved_mem s m : moved s (set_mem m s).
Proof. done. Qed.

Definition lock D x : Z := default 0 (lockcount <$> D !! x).

Lemma lock_some D x t : D !! x = Some t → lock D x = lockcount t.
Proof. unfold lock. by intros ->. Qed.

Lemma same_but_state_lock D D' x : same_but_state D D' → lock D' x = lock D x.
Proof.
  intros Hs. unfold lock. specialize (Hs x). destruct (D' !! x), (D !! x); simpl in *; try done.
  injection Hs. intros. congruence.
Qed.

(** The first task of the ready-to-run list. *)
Definition running T : Z := hd_or NULL (T g_readytorun).

Lemma running_head m D T : rq_ok m D T → ∃ r, T g_readytorun = running T :: r.
Proof.
  intros Hok. destruct (rq_idle _ _ _ Hok) as [r E]. unfold running. rewrite E. destruct r; simpl; eauto.
Qed.

Lemma running_upd T l : running (<[g_readytorun:=l]> T) = hd_or NULL l.
Proof. unfold running. by rewrite fn_lookup_insert. Qed.

Lemma returns_rtr_head s T (Q : Z → kstate → Prop) :
  lists_ok (k_mem s) T → Q (running T) s → returns rtr_head s Q.
Proof.
  intros Hl HQ. eapply returns_kload; [|done]. unfold HEAD. rewrite Z.add_0_r.
  apply (lo_repr _ _ Hl), ready_in.
Qed.

Lemma returns_pnd_head s T (Q : Z → kstate → Prop) :
  lists_ok (k_mem s) T → Q (hd_or NULL (T g_pendingtasks)) s → returns pnd_head s Q.
Proof.
  intros Hl HQ. eapply returns_kload; [|done]. unfold HEAD. rewrite Z.add_0_r.
  apply (lo_repr _ _ Hl), pending_in.
Qed.

(** ** sched_removereadytorun *)
Lemma ready_rest D T m l1 x l2 :
  rq_ok m D T → T g_readytorun = l1 ++ x :: l2 → x ≠ g_idletcb → ∃ r, l2 = r ++ [g_idletcb].
Proof.
  intros Hok E Hx. destruct (rq_idle _ _ _ Hok) as [r Er]. rewrite E in Er.
  destruct (list_snoc_cases l2) as [->|(l & z & ->)].
  - apply app_inj_tail in Er as [_ ->]. done.
  - exists l. f_equal. rewrite app_comm_cons, app_assoc in Er. apply app_inj_tail in Er as [_ ->]. done.
Qed.

Lemma ready_removed m D T m' D' l1 x l2 :
  rq_ok m D T → T g_readytorun = l1 ++ x :: l2 → x ≠ g_idletcb →
  dq_post g_readytorun (l1 ++ x :: l2) (l1 ++ l2) m m' → same_but_state D D' →
  (∀ y, y ≠ x → (l1 = [] → head l2 ≠ Some y) → D' !! y = D !! y) →
  (l1 = [] → ∀ y, head l2 = Some y → ∃ t, D' !! y = Some t ∧ task_state t = TSTATE_TASK_RUNNING) →
  rq_ok m' D' (<[g_readytorun:=l1 ++ l2]> T) ∧ free m' (<[g_readytorun:=l1 ++ l2]> T) x.
Proof.
  intros Hok E Hx Hpost Hsb Ho Hh.
  destruct (lists_rem m T m' g_readytorun l1 x l2 (rq_lists _ _ _ Hok) ready_in E Hpost) as [Hl Hfree].
  pose proof (lists_nodup _ _ _ (rq_lists _ _ _ Hok) ready_in) as Hnd. rewrite E in Hnd.
  pose proof (ready_rest _ _ _ _ _ _ Hok E Hx) as [r Er]. split; [|done].
  eapply rq_change; try done.
  - apply ready_in.
  - intros y. by apply same_but_state_prio.
  - intros q' y Hq' Hne Hy. apply Ho.
    + intros ->. apply Hne. eapply lists_unique; [apply Hok|done|apply ready_in|done|]. rewrite E. set_solver.
    + intros -> Hy'. apply Hne. eapply lists_unique; [apply Hok|done|apply ready_in|done|]. rewrite E.
      destruct l2; set_solver.
  - intros y Hy. rewrite tstate_ready.
    assert (Hyx : y ≠ x).
    { intros ->. apply NoDup_app in Hnd as (_ & Hnd & [Hn _]%NoDup_cons). set_solver. }
    destruct (rq_tcb _ _ _ Hok _ y ready_in) as (t & Ht & Hst); [rewrite E; set_solver|].
    rewrite tstate_ready, E in Hst. destruct l1 as [|z l1]; simpl in *.
    + rewrite decide_False in Hst by congruence. destruct (decide (head l2 = Some y)) as [Hy'|Hy'].
      * by apply Hh.
      * exists t. rewrite Ho; done.
    + exists t. rewrite Ho; done.
  - intros _. pose proof (rq_desc _ _ _ Hok _ ready_in) as Hd. rewrite E in Hd.
    eapply desc_remove, Hd. pose proof (lo_nodup _ _ (rq_lists _ _ _ Hok)) as Hq. unfold queues in Hq.
    split; apply NoDup_cons in Hq as [Hq _]; set_solver.
  - intros _. exists (l1 ++ r). by rewrite Er, app_assoc.
  - intros y Hy. apply (rq_prio _ _ _ Hok _ y ready_in). rewrite E. set_solver.
Qed.

Lemma sched_removereadytorun_spec s T l1 x l2 :
  rqs s T → T g_readytorun = l1 ++ x :: l2 → x ≠ g_idletcb →
  returns (sched_removereadytorun x) s (λ r s', r = bool_decide (l1 = []) ∧ moved s s' ∧
    rqs s' (<[g_readytorun:=l1 ++ l2]> T) ∧ free (k_mem s') (<[g_readytorun:=l1 ++ l2]> T) x).
Proof.
  intros Hok E Hx. pose proof (rq_lists _ _ _ Hok) as Hl.
  pose proof (lo_repr _ _ Hl _ ready_in) as Hr. rewrite E in Hr.
  pose proof (dq_node _ _ _ Hr) as (N1 & N2 & N3 & N4 & _).
  pose proof (lists_nodup _ _ _ Hl ready_in) as Hnd. rewrite E in Hnd.
  pose proof (ready_rest _ _ _ _ _ _ Hok E Hx) as [r Er].
  destruct (rq_tcb _ _ _ Hok _ x ready_in) as (tx & Htx & _); [rewrite E; set_solver|].
  unfold sched_removereadytorun. apply returns_bind. eapply returns_kload; [exact N2|].
  destruct l1 as [|z l1].
  - unfold last_or; simpl. destruct l2 as [|n l2]; [by destruct r|].
    apply returns_bind, returns_bind. eapply returns_kload; [unfold FLINK; rewrite Z.add_0_r; exact N1|].
    rewrite hd_or_cons.
    assert (Hn0 : n ≠ NULL) by (destruct Hr as (_ & _ & _ & _ & Hn); rewrite Forall_forall in Hn; apply Hn; set_solver).
    assert (Hxn : x ≠ n) by (intros ->; apply NoDup_cons in Hnd as [Hnd _]; set_solver).
    destruct (rq_tcb _ _ _ Hok _ n ready_in) as (tn & Htn & _); [rewrite E; set_solver|].
    apply returns_bind, returns_assert; [unfold nonnull; lia|].
    apply returns_bind. eapply returns_updt; [done|]. apply returns_ret, returns_bind, returns_klinks.
    eapply returns_mono; [apply (dq_rem_spec _ _ [] x (n :: l2)), Hr|].
    intros [] m' (Hpost & _). apply returns_bind.
    eapply returns_updt; [simpl; rewrite lookup_insert_ne by done; exact Htx|].
    set (D' := <[x:=_]> _).
    assert (Hsb : same_but_state (k_tcbs s) D').
    { subst D'. etrans; [by apply same_but_state_upd|]. apply same_but_state_upd. simpl.
      by rewrite lookup_insert_ne. }
    apply returns_ret. split; [done|]. split; [done|].
    eapply (ready_removed _ (k_tcbs s) T _ _ [] x (n :: l2)); try done; simpl.
    + intros y Hy Hyn. subst D'. simpl. rewrite !lookup_insert_ne by naive_solver. done.
    + intros _ y [= <-]. subst D'. simpl. rewrite lookup_insert_ne, lookup_insert_eq by done. by eexists.
  - assert (Hz : last_or NULL (z :: l1) ≠ NULL).
    { destruct Hr as (_ & _ & _ & _ & Hn). rewrite Forall_forall in Hn. apply Hn. rewrite last_or_cons.
      destruct (list_snoc_cases l1) as [->|(l' & w & ->)]; [|rewrite last_or_snoc]; set_solver. }
    unfold nonnull. rewrite (proj2 (Z.eqb_neq _ _)) by done. cbn [negb].
    apply returns_bind, returns_ret, returns_bind, returns_klinks.
    eapply returns_mono; [apply (dq_rem_spec _ _ (z :: l1) x l2), Hr|].
    intros [] m' (Hpost & _). apply returns_bind. eapply returns_updt; [exact Htx|].
    apply returns_ret. split; [by rewrite bool_decide_eq_false_2|].
    split; [etrans; [apply (moved_mem s m')|by apply moved_upd]|].
    eapply (ready_removed _ (k_tcbs s) T _ _ (z :: l1) x l2); try done.
    + by apply same_but_state_upd.
    + intros y Hy _. simpl. by rewrite lookup_insert_ne.
Qed.

(** ** Adding a task to a list *)
Lemma rq_added m D T m' D' q x l' :
  rq_ok m D T → q ∈ queues → free m T x → dq_post q (x :: T q) l' m m' → l' ≡ₚ x :: T q →
  (∀ y, prio D' y = prio D y) → 1 ≤ prio D x ≤ 255 →
  (∀ y, y ∉ l' → D' !! y = D !! y) →
  (∀ y, y ∈ l' → ∃ t, D' !! y = Some t ∧ task_state t = tstate q l' y) →
  (prioritized q → desc (prio D) l') → (q = g_readytorun → ∃ r, l' = r ++ [g_idletcb]) →
  rq_ok m' D' (<[q:=l']> T).
Proof.
  intros Hok Hq Hf Hpost Hperm Hp Hpx Ho Hs Hd Hi. eapply rq_change; try done.
  - by eapply lists_add; [apply Hok|..].
  - intros q' y Hq' Hne Hy. apply Ho. rewrite Hperm. intros [->|Hy']%elem_of_cons.
    + by eapply free_notin.
    + apply Hne. by eapply lists_unique; [apply Hok|..].
  - intros y. rewrite Hperm. intros [->|Hy]%elem_of_cons; [done|]. by apply (rq_prio _ _ _ Hok q).
Qed.

Lemma free_not_idle m D T x : rq_ok m D T → free m T x → x ≠ g_idletcb.
Proof.
  intros Hok Hf ->. apply (free_notin _ _ _ _ Hf ready_in). destruct (rq_idle _ _ _ Hok) as [r ->]. set_solver.
Qed.

Lemma insert_before_idle (p : Z → Z) x r y :
  p y < p x → ∃ r', insert_prio p x (r ++ [y]) = r' ++ [y].
Proof.
  intros Hp. induction r as [|z r [r' IH]]; simpl.
  - rewrite (proj2 (Z.leb_gt _ _)) by done. by exists [x].
  - destruct (p x <=? p z).
    + exists (z :: r'). by rewrite IH.
    + by exists (x :: z :: r).
Qed.

Lemma prioritized_ready m T : lists_ok m T → prioritized g_readytorun ∧ prioritized g_pendingtasks ∧
  prioritized g_waitingforsemaphore ∧ g_pendingtasks ≠ g_readytorun ∧ g_waitingforsemaphore ≠ g_readytorun ∧
  g_waitingforsemaphore ≠ g_pendingtasks.
Proof.
  intros Hl. pose proof (lo_nodup _ _ Hl) as Hnd. unfold queues, prioritized in *.
  repeat (apply NoDup_cons in Hnd as [? Hnd]). set_solver.
Qed.

(** The lists after sched_addreadytorun: a task that would preempt a task that
    has locked the scheduler waits in the list of pending tasks. *)
Definition held D T x : bool := negb (lock D (running T) =? 0) && (prio D (running T) <? prio D x).
Definition add_ready D T x : Z → list Z :=
  if held D T x then <[g_pendingtasks:=insert_prio (prio D) x (T g_pendingtasks)]> T
  else <[g_readytorun:=insert_prio (prio D) x (T g_readytorun)]> T.

Lemma sched_add_spec s T x t q :
  rqs s T → free (k_mem s) T x → q ∈ queues → k_tcbs s !! x = Some t → 1 ≤ sched_priority t ≤ 255 →
  returns (sched_addprioritized x q) s (λ r s', ∃ m', s' = set_mem m' s ∧
    r = bool_decide (head (insert_prio (prio (k_tcbs s)) x (T q)) = Some x) ∧
    dq_post q (x :: T q) (insert_prio (prio (k_tcbs s)) x (T q)) (k_mem s) m').
Proof.
  intros Hok Hf Hq Ht Hp. pose proof (rq_lists _ _ _ Hok) as Hl.
  apply (sched_addprioritized_spec s q x (T q) t); try done.
  - by apply Hl.
  - by apply free_fresh.
  - by eapply rq_has_tcbs.
  - unfold SCHED_PRIORITY_MIN. lia.
Qed.

Lemma ready_head_inserted D T m x :
  rq_ok m D T → free m T x → head (insert_prio (prio D) x (T g_readytorun)) = Some x →
  insert_prio (prio D) x (T g_readytorun) = x :: T g_readytorun ∧ prio D (running T) < prio D x.
Proof.
  intros Hok Hf Hh. destruct (running_head _ _ _ Hok) as [r E].
  destruct (insert_prio_split (prio D) x (T g_readytorun)) as (l1 & l2 & E1 & E2 & H1 & H2).
  rewrite E2 in *. destruct l1 as [|z l1]; simpl in *.
  - split; [congruence|]. apply H2. rewrite <-E1, E. done.
  - injection Hh as ->. exfalso. apply (free_notin _ _ _ _ Hf ready_in). rewrite E1. set_solver.
Qed.

Lemma added_behind m D T m' q x t v :
  rq_ok m D T → free m T x → q ∈ queues → prioritized q → D !! x = Some t → 1 ≤ sched_priority t ≤ 255 →
  let l' := insert_prio (prio D) x (T q) in
  dq_post q (x :: T q) l' m m' → head l' ≠ Some x ∨ q ≠ g_readytorun → tstate q l' x = v →
  rq_ok m' (<[x:=set_state v t]> D) (<[q:=l']> T).
Proof.
  intros Hok Hf Hq Hpr Ht Hp l' Hpost Hh Hv.
  eapply rq_added; try done; [apply insert_prio_perm|..].
  - intros y. by apply same_but_state_prio, same_but_state_upd.
  - by rewrite (prio_some _ _ _ Ht).
  - intros y Hy. rewrite lookup_insert_ne; [done|]. intros <-. apply Hy, insert_prio_elem. by left.
  - intros y [->|Hy]%insert_prio_elem; [rewrite lookup_insert_eq; by eexists|].
    assert (y ≠ x) by (intros ->; by apply (free_notin _ _ _ _ Hf Hq)). rewrite lookup_insert_ne by done.
    destruct (rq_tcb _ _ _ Hok q y Hq Hy) as (ty & Hty & Hst). exists ty. split; [done|]. rewrite Hst.
    destruct (decide (q = g_readytorun)) as [->|Hne]; [|by apply tstate_ne]. rewrite !tstate_ready.
    destruct Hh as [Hh|]; [|done]. subst l'. destruct (T g_readytorun); simpl in *; [done|].
    destruct (_ <=? _); done.
  - intros _. apply insert_prio_desc. by apply (rq_desc _ _ _ Hok).
  - intros ->. destruct (rq_idle _ _ _ Hok) as [r E]. subst l'. rewrite E. apply insert_before_idle.
    rewrite (rq_idle_prio _ _ _ Hok), (prio_some _ _ _ Ht). lia.
Qed.

Lemma added_head m D T m' x t r tr :
  rq_ok m D T → free m T x → D !! x = Some t → 1 ≤ sched_priority t ≤ 255 →
  T g_readytorun = r :: tail (T g_readytorun) → D !! r = Some tr → prio D r < prio D x →
  dq_post g_readytorun (x :: T g_readytorun) (x :: T g_readytorun) m m' →
  rq_ok m' (<[r:=set_state TSTATE_TASK_READYTORUN tr]> (<[x:=set_state TSTATE_TASK_RUNNING t]> D))
    (<[g_readytorun:=x :: T g_readytorun]> T).
Proof.
  intros Hok Hf Ht Hp Er Htr Hlt Hpost.
  assert (Hrx : r ≠ x).
  { intros <-. apply (free_notin _ _ _ _ Hf ready_in). rewrite Er. set_solver. }
  pose proof (prioritized_ready _ _ (rq_lists _ _ _ Hok)) as (P1 & _).
  eapply rq_added; try done; [apply ready_in|..].
  - intros y. apply same_but_state_prio. etrans; [by apply (same_but_state_upd D x TSTATE_TASK_RUNNING)|].
    apply same_but_state_upd. by rewrite lookup_insert_ne.
  - by rewrite (prio_some _ _ _ Ht).
  - intros y Hy. rewrite !lookup_insert_ne; [done|set_solver|]. intros <-. rewrite Er in Hy. set_solver.
  - intros y Hy. rewrite tstate_ready. simpl. destruct (decide (y = r)) as [->|Hyr].
    { rewrite lookup_insert_eq, decide_False by congruence. by eexists. }
    rewrite lookup_insert_ne by done. destruct (decide (y = x)) as [->|Hyx].
    { rewrite lookup_insert_eq, decide_True by done. by eexists. }
    rewrite lookup_insert_ne, decide_False by congruence.
    destruct (rq_tcb _ _ _ Hok _ y ready_in) as (ty & Hty & Hst); [set_solver|]. exists ty. split; [done|].
    rewrite Hst, tstate_ready, Er. simpl. by rewrite decide_False by congruence.
  - intros _. pose proof (rq_desc _ _ _ Hok _ ready_in P1) as Hd. rewrite Er in Hd |- *. constructor; [done|].
    apply StronglySorted_inv in Hd as [_ Hd]. constructor; [lia|]. rewrite Forall_forall in *.
    intros y Hy. specialize (Hd y Hy). lia.
  - intros _. destruct (rq_idle _ _ _ Hok) as [l ->]. by exists (x :: l).
Qed.

Lemma sched_addreadytorun_spec s T x t :
  rqs s T → free (k_mem s) T x → k_tcbs s !! x = Some t → 1 ≤ sched_priority t ≤ 255 →
  returns (sched_addreadytorun x) s (λ r s', moved s s' ∧
    rqs s' (add_ready (k_tcbs s) T x) ∧
    r = bool_decide (running (add_ready (k_tcbs s) T x) = x)).
Proof.
  intros Hok Hf Ht Hp. pose proof (rq_lists _ _ _ Hok) as Hl.
  destruct (running_head _ _ _ Hok) as [rest Er]. pose proof (prioritized_ready _ _ Hl) as (P1 & P2 & _ & P3 & _).
  assert (Hrx : running T ≠ x).
  { intros <-. apply (free_notin _ _ _ _ Hf ready_in). rewrite Er. set_solver. }
  destruct (rq_tcb _ _ _ Hok _ (running T) ready_in) as (tr & Htr & _); [rewrite Er; set_solver|].
  unfold sched_addreadytorun. apply returns_bind. eapply returns_rtr_head; [done|].
  apply returns_bind. eapply returns_tcb; [done|]. apply returns_bind. eapply returns_tcb; [done|].
  rewrite <-(lock_some _ _ _ Htr), <-(prio_some _ _ _ Ht), <-(prio_some _ _ _ Htr).
  change (negb _ && _) with (held (k_tcbs s) T x). unfold add_ready. destruct (held (k_tcbs s) T x) eqn:Hheld.
  - apply returns_bind. eapply returns_mono; [by apply (sched_add_spec s T x t g_pendingtasks); auto with sched|].
    intros r s' (m' & -> & _ & Hpost). apply returns_bind. eapply returns_updt; [exact Ht|].
    apply returns_ret. split_and!; [etrans; [apply (moved_mem s m')|by apply moved_upd]| |].
    + eapply added_behind; try done; [apply pending_in|by right|]. unfold tstate.
      rewrite decide_False by done. by rewrite decide_True.
    + rewrite bool_decide_eq_false_2; [done|]. unfold running. by rewrite fn_lookup_insert_ne.
  - apply returns_bind. eapply returns_mono; [by apply (sched_add_spec s T x t g_readytorun); auto with sched|].
    intros r s' (m' & -> & -> & Hpost). rewrite running_upd. case_bool_decide as Hh.
    + destruct (ready_head_inserted _ _ _ _ Hok Hf Hh) as [Ei Hlt]. rewrite Ei in *.
      pose proof Hpost as [Hrepr _]. pose proof (dq_node [] _ _ Hrepr) as (N1 & _).
      rewrite Er, hd_or_cons in N1. rewrite Er in Hrepr. pose proof (dq_node [x] _ rest Hrepr) as (_ & _ & N3 & _).
      apply returns_bind. eapply returns_kload; [unfold FLINK; rewrite Z.add_0_r; exact N1|].
      apply returns_bind. apply returns_assert; [unfold held in Hheld; unfold nonnull; lia|].
      apply returns_bind. eapply returns_updt; [exact Ht|]. apply returns_bind.
      eapply returns_updt; [simpl; rewrite lookup_insert_ne by done; exact Htr|].
      apply returns_ret. split_and!; [|apply (added_head (k_mem s) _ _ _ x t (running T) tr); try done|by rewrite bool_decide_eq_true_2].
      * etrans; [apply (moved_mem s m')|]. etrans; [by apply (moved_upd _ x t TSTATE_TASK_RUNNING)|].
        apply moved_upd. simpl. by rewrite lookup_insert_ne.
      * by rewrite Er.
    + apply returns_bind. eapply returns_updt; [exact Ht|].
      apply returns_ret. split_and!; [etrans; [apply (moved_mem s m')|by apply moved_upd]| |].
      * eapply added_behind; try done; [apply ready_in|by left|]. rewrite tstate_ready. by rewrite decide_False.
      * rewrite bool_decide_eq_false_2; [done|]. unfold hd_or. rewrite Er in *. simpl in *. by destruct (_ <=? _).
Qed.
End SchedOps.
