(* ===== verification/SchedMerge.v ===== *)
(** sched_mergepending: the pending tasks go to the ready-to-run list in one
    pass over both lists. *)

From Stdlib Require Import Sorting.Sorted.
From stdpp Require Import functions.
From S2P Require Import Prelude Links Queue Sched SchedList SchedInv SchedOps.

Section SchedMerge.
Context `{Globals}.
Implicit Types (m : mem) (D : gmap Z tcb_s) (T : Z → list Z) (s : kstate) (q x y : Z) (R rest : list Z).

(** The memory with the header of the pending list cleared, as the routine
    leaves it at its end. *)
Definition clr m : mem := <[g_pendingtasks + 4:=NULL]> (<[g_pendingtasks:=NULL]> m).

Definition merged T R : Z → list Z := <[g_readytorun:=R]> (<[g_pendingtasks:=[]]> T).

Lemma touches_clr F m m' :
  is_Some (m !! g_pendingtasks) → is_Some (m !! (g_pendingtasks + 4)) →
  touches F m m' → touches F (clr m) (clr m').
Proof.
  intros H1 H2 Ht. pose proof Ht as [Hd He]. split.
  - unfold clr. rewrite !dom_insert_L. by rewrite Hd.
  - intros a Ha. unfold clr. destruct (decide (a = g_pendingtasks + 4)) as [->|Ha1]; [by rewrite !lookup_insert_eq|].
    rewrite !(lookup_insert_ne _ (g_pendingtasks + 4)) by done.
    destruct (decide (a = g_pendingtasks)) as [->|Ha2]; [by rewrite !lookup_insert_eq|].
    rewrite !(lookup_insert_ne _ g_pendingtasks) by done. by apply He.
Qed.

Lemma clr_touches m : is_Some (m !! g_pendingtasks) → is_Some (m !! (g_pendingtasks + 4)) →
  touches [g_pendingtasks] m (clr m) ∧ touches [g_pendingtasks] (clr m) m.
Proof.
  intros H1 H2. assert (Hd : dom (clr m) = dom m).
  { unfold clr. rewrite dom_insert_lookup_L by (rewrite lookup_insert_ne by lia; done).
    by rewrite dom_insert_lookup_L. }
  assert (He : ∀ a, a ≠ g_pendingtasks → a ≠ g_pendingtasks + 4 → clr m !! a = m !! a).
  { intros a ??. unfold clr. by rewrite !lookup_insert_ne. }
  split; (split; [done|]); intros a [? ?]%Forall_singleton; [|symmetry]; by apply He.
Qed.

(** Where the loop stands: [R] is the ready-to-run list built so far and
    [rest] the pending tasks still to go. *)
Record merging s T R rest : Prop := {
  mg_rq : rq_ok (clr (k_mem s)) (k_tcbs s) (merged T R);
  mg_seg : ∃ b, dseg 0 (k_mem s) b rest NULL;
  mg_spaced : spaced rest;
  mg_free : ∀ x, x ∈ rest → free (clr (k_mem s)) (merged T R) x;
  mg_prio : ∀ x, x ∈ rest → 1 ≤ prio (k_tcbs s) x ≤ 255;
  mg_tcb : has_tcbs (k_tcbs s) rest;
  mg_desc : desc (prio (k_tcbs s)) rest;
  mg_head : is_Some (k_mem s !! g_pendingtasks) ∧ is_Some (k_mem s !! (g_pendingtasks + 4));
}.

Lemma merged_ready T R : merged T R g_readytorun = R.
Proof. unfold merged. by rewrite fn_lookup_insert. Qed.

Lemma merged_pending T R : g_pendingtasks ≠ g_readytorun → merged T R g_pendingtasks = [].
Proof. intros. unfold merged. rewrite fn_lookup_insert_ne by done. by rewrite fn_lookup_insert. Qed.

Lemma merging_ready s T R rest : merging s T R rest → dq_repr (k_mem s) g_readytorun R.
Proof.
  intros Hm. pose proof (rq_lists _ _ _ (mg_rq _ _ _ _ Hm)) as Hl.
  pose proof (lo_repr _ _ Hl _ ready_in) as Hr. rewrite merged_ready in Hr.
  destruct (mg_head _ _ _ _ Hm) as [H1 H2]. destruct (clr_touches _ H1 H2) as [_ Ht].
  eapply dq_repr_touches; [exact Ht| |done]. intros a b Ha ->%list_elem_of_singleton.
  pose proof (prioritized_ready _ _ Hl) as (_ & _ & _ & P3 & _).
  apply (lo_apart _ _ Hl g_readytorun g_pendingtasks); auto with sched; [|set_solver].
  by rewrite merged_ready.
Qed.

Lemma merging_fresh s T R rest x :
  merging s T R rest → x ∈ rest → dq_fresh (k_mem s) g_readytorun x R.
Proof.
  intros Hm Hx. pose proof (rq_lists _ _ _ (mg_rq _ _ _ _ Hm)) as Hl.
  pose proof (mg_free _ _ _ _ Hm x Hx) as Hf. pose proof (free_fresh _ _ _ _ Hl Hf ready_in) as (F1 & F2 & F3 & F4).
  rewrite merged_ready in F4. destruct (mg_head _ _ _ _ Hm) as [H1 H2].
  destruct (clr_touches _ H1 H2) as [_ Ht]. split_and!; try done; by rewrite <-(touches_mapped _ _ _ _ Ht).
Qed.

(** The state after one pending task has been linked in. *)
Lemma merging_step s T R x rest m' D' R' :
  merging s T R (x :: rest) → R' ≡ₚ x :: R → same_but_state (k_tcbs s) D' →
  dq_post g_readytorun (x :: R) R' (k_mem s) m' →
  (dq_post g_readytorun (x :: R) R' (clr (k_mem s)) (clr m') → rq_ok (clr m') D' (merged T R')) →
  merging (set_tcbs D' (set_mem m' s)) T R' rest.
Proof.
  intros Hm Hp Hsb [Hr Ht] Hrq. pose proof (rq_lists _ _ _ (mg_rq _ _ _ _ Hm)) as Hl.
  destruct (mg_head _ _ _ _ Hm) as [H1 H2]. pose proof (touches_clr _ _ _ H1 H2 Ht) as Htc.
  pose proof (prioritized_ready _ _ Hl) as (_ & _ & _ & P3 & _).
  pose proof (mg_spaced _ _ _ _ Hm) as [Hsx Hs]. rewrite Forall_forall in Hsx.
  assert (H1' : is_Some (m' !! g_pendingtasks)) by (by rewrite <-(touches_mapped _ _ _ _ Ht)).
  assert (H2' : is_Some (m' !! (g_pendingtasks + 4))) by (by rewrite <-(touches_mapped _ _ _ _ Ht)).
  assert (Hfx : free (clr (k_mem s)) (merged T R) x) by (apply (mg_free _ _ _ _ Hm); set_solver).
  assert (Hap : ∀ z, z ∈ rest → ∀ q y, q ∈ queues → y ∈ q :: merged T R' q → 8 ≤ Z.abs (z - y)).
  { intros z Hz q y Hq Hy. destruct (mg_free _ _ _ _ Hm z) as (_ & _ & _ & Hfz); [set_solver|].
    destruct (decide (y = x)) as [->|Hyx]; [specialize (Hsx z Hz); lia|].
    apply (Hfz q); [done|]. destruct (decide (q = g_readytorun)) as [->|Hq'].
    - rewrite merged_ready in *. rewrite Hp in Hy. set_solver.
    - unfold merged in *. by rewrite fn_lookup_insert_ne in * by done. }
  split; simpl; try done.
  - apply Hrq. split; [|done]. eapply dq_repr_touches; [apply (proj1 (clr_touches m' H1' H2'))| |exact Hr].
    intros a b Ha ->%list_elem_of_singleton.
    destruct (decide (a = x)) as [->|Hax].
    + destruct Hfx as (_ & _ & _ & Hfx). apply (Hfx g_pendingtasks); [apply pending_in|set_solver].
    + apply (lo_apart _ _ Hl g_readytorun g_pendingtasks); auto with sched; [|set_solver].
      rewrite merged_ready. rewrite Hp in Ha. set_solver.
  - destruct (mg_seg _ _ _ _ Hm) as [b (_ & _ & Hseg)]. exists x. revert Hseg. apply dseg_frame.
    intros z Hz. rewrite Z.add_0_r. destruct Ht as [_ Ht].
    assert (Hz' : ∀ y, y ∈ g_readytorun :: x :: R → 8 ≤ Z.abs (z - y)).
    { intros y Hy. apply (Hap z Hz g_readytorun); [apply ready_in|]. rewrite merged_ready, Hp. set_solver. }
    split; apply Ht, Forall_forall; intros y Hy; specialize (Hz' y Hy); lia.
  - intros z Hz. destruct (mg_free _ _ _ _ Hm z) as (F1 & F2 & F3 & _); [set_solver|].
    split_and!; [done|by rewrite <-(touches_mapped _ _ _ _ Htc)..|by apply Hap].
  - intros z Hz. rewrite (same_but_state_prio _ _ _ Hsb). apply (mg_prio _ _ _ _ Hm). set_solver.
  - intros z Hz. destruct (mg_tcb _ _ _ _ Hm z) as [t Ht']; [set_solver|].
    destruct (same_but_state_some _ _ _ _ Hsb Ht') as [v ->]. by eexists.
  - pose proof (mg_desc _ _ _ _ Hm) as [Hd _]%StronglySorted_inv. revert Hd. apply desc_ext.
    intros y _. symmetry. by apply same_but_state_prio.
Qed.

(** The stores of the loop body are those of sched_addprioritized. *)
Lemma sched_link_front m x y q Q :
  y ≠ NULL → m !! (y + 4) = Some NULL → returns (sched_link x y q) m Q →
  returns (store (x + FLINK) y;; store (x + BLINK) NULL;; store (y + BLINK) x;; store (q + HEAD) x) m
    (λ _, Q true).
Proof.
  intros Hy Hb. unfold sched_link, nonnull. rewrite (proj2 (Z.eqb_neq _ _)) by done. cbn [negb].
  unfold returns, mbind, M_bind, load. unfold BLINK at 1. rewrite Hb. simpl.
  repeat (destruct (store _ _ _) as [[[] ?]| |]; try done).
Qed.

Lemma sched_link_middle m x y z q Q :
  y ≠ NULL → z ≠ NULL → m !! (y + 4) = Some z → returns (sched_link x y q) m Q →
  returns (store (x + FLINK) y;; store (x + BLINK) z;; store (z + FLINK) x;; store (y + BLINK) x) m
    (λ _, Q false).
Proof.
  intros Hy Hz Hb. unfold sched_link, nonnull. rewrite (proj2 (Z.eqb_neq _ _)) by done. cbn [negb].
  unfold returns, mbind, M_bind, load. unfold BLINK at 1. rewrite Hb. rewrite (proj2 (Z.eqb_neq _ _)) by done. simpl.
  repeat (destruct (store _ _ _) as [[[] ?]| |]; try done).
Qed.

Lemma merge_head (p : Z → Z) y l k :
  (∀ z, z ∈ k → p z ≤ p y) → head (merge_prio p (y :: l) k) = Some y.
Proof.
  revert l. induction k as [|x k IH]; intros l Hk; [done|]. simpl.
  rewrite (proj2 (Z.leb_le _ _)) by (apply Hk; set_solver). apply IH. set_solver.
Qed.

Lemma merged_insert T R R' : same_lists (<[g_readytorun:=R']> (merged T R)) (merged T R').
Proof. apply same_lists_insert. Qed.

(** A pending task always finds a task to go before: the idle task. *)
Lemma merge_split s T r1 r2 x rest :
  merging s T (r1 ++ r2) (x :: rest) →
  (∀ y z, y ∈ r1 → z ∈ x :: rest → prio (k_tcbs s) z ≤ prio (k_tcbs s) y) →
  ∃ k1 y k2, r2 = k1 ++ y :: k2 ∧
    insert_prio (prio (k_tcbs s)) x (r1 ++ r2) = (r1 ++ k1) ++ x :: y :: k2 ∧
    Forall (λ z, prio (k_tcbs s) x ≤ prio (k_tcbs s) z) (r1 ++ k1) ∧ prio (k_tcbs s) y < prio (k_tcbs s) x.
Proof.
  intros Hm Hle. set (p := prio (k_tcbs s)) in *.
  assert (Hr1 : Forall (λ z, p x ≤ p z) r1) by (apply Forall_forall; intros z Hz; apply Hle; set_solver).
  destruct (insert_prio_split p x r2) as (k1 & k2 & E & Ei & Hk1 & Hk2).
  rewrite (insert_prio_app p x r1 r2), Ei by done. destruct k2 as [|y k2].
  - exfalso. pose proof (mg_rq _ _ _ _ Hm) as Hrq. destruct (rq_idle _ _ _ Hrq) as [r Er].
    rewrite merged_ready, E, app_nil_r in Er.
    assert (Hall : Forall (λ z, p x ≤ p z) (r1 ++ k1)) by (by apply Forall_app).
    rewrite Er, Forall_app, Forall_singleton in Hall. destruct Hall as [_ Hall].
    pose proof (rq_idle_prio _ _ _ Hrq). pose proof (mg_prio _ _ _ _ Hm x ltac:(set_solver)). subst p. lia.
  - exists k1, y, k2. split_and!; [done|by rewrite <-app_assoc|by apply Forall_app|]. by apply Hk2.
Qed.

Lemma merge_front s T R x rest y tx ty m' :
  merging s T R (x :: rest) → R = y :: tail R → k_tcbs s !! x = Some tx → k_tcbs s !! y = Some ty →
  prio (k_tcbs s) y < prio (k_tcbs s) x → dq_post g_readytorun (x :: R) (x :: R) (k_mem s) m' →
  let s' := set_tcbs (<[x:=set_state TSTATE_TASK_RUNNING tx]> (<[y:=set_state TSTATE_TASK_READYTORUN ty]> (k_tcbs s)))
              (set_mem m' s) in
  merging s' T (x :: R) rest ∧ moved s s'.
Proof.
  intros Hm ER Htx Hty Hlt Hpost s'. pose proof (mg_rq _ _ _ _ Hm) as Hrq.
  pose proof (mg_free _ _ _ _ Hm x ltac:(set_solver)) as Hf.
  assert (Hyx : y ≠ x).
  { intros ->. apply (free_notin _ _ _ _ Hf ready_in). rewrite merged_ready, ER. set_solver. }
  assert (Hsb : same_but_state (k_tcbs s) (<[x:=set_state TSTATE_TASK_RUNNING tx]>
    (<[y:=set_state TSTATE_TASK_READYTORUN ty]> (k_tcbs s)))).
  { etrans; [by apply (same_but_state_upd _ y TSTATE_TASK_READYTORUN)|]. apply same_but_state_upd.
    by rewrite lookup_insert_ne. }
  split; [|done]. eapply merging_step; try done. intros Hpc. rewrite <-merged_insert.
  rewrite insert_insert_ne by done. pose proof (mg_prio _ _ _ _ Hm x ltac:(set_solver)) as Hpx.
  rewrite (prio_some _ _ _ Htx) in Hpx.
  pose proof (added_head (clr (k_mem s)) (k_tcbs s) (merged T R) (clr m') x tx y ty) as Ha.
  rewrite merged_ready in Ha. by apply Ha.
Qed.

Lemma merge_behind s T R x rest R' tx m' :
  merging s T R (x :: rest) → k_tcbs s !! x = Some tx → R' = insert_prio (prio (k_tcbs s)) x R →
  head R' ≠ Some x → dq_post g_readytorun (x :: R) R' (k_mem s) m' →
  let s' := set_tcbs (<[x:=set_state TSTATE_TASK_READYTORUN tx]> (k_tcbs s)) (set_mem m' s) in
  merging s' T R' rest ∧ moved s s'.
Proof.
  intros Hm Htx -> Hh Hpost s'. pose proof (mg_rq _ _ _ _ Hm) as Hrq.
  pose proof (mg_free _ _ _ _ Hm x ltac:(set_solver)) as Hf.
  pose proof (mg_prio _ _ _ _ Hm x ltac:(set_solver)) as Hpx. rewrite (prio_some _ _ _ Htx) in Hpx.
  pose proof (prioritized_ready _ _ (rq_lists _ _ _ Hrq)) as (P1 & _).
  pose proof (same_but_state_upd _ x TSTATE_TASK_READYTORUN _ Htx) as Hsb.
  split; [|done]. eapply merging_step; try done; [apply insert_prio_perm|]. intros Hpc. rewrite <-merged_insert.
  pose proof (added_behind (clr (k_mem s)) (k_tcbs s) (merged T R) (clr m') g_readytorun x tx TSTATE_TASK_READYTORUN) as Ha.
  rewrite merged_ready in Ha. apply Ha; auto with sched. rewrite tstate_ready. by rewrite decide_False.
Qed.

(** One round of the loop. *)
Lemma merge_round s T r1 r2 x rest ret :
  let p := prio (k_tcbs s) in
  merging s T (r1 ++ r2) (x :: rest) → (∀ y z, y ∈ r1 → z ∈ x :: rest → p z ≤ p y) →
  returns (sched_merge_body (x, hd_or NULL r2, ret)) s (λ v s', ∃ r1' r2',
    let R' := insert_prio p x (r1 ++ r2) in
    R' = r1' ++ r2' ∧ (∀ y, y ∈ r1' → p x ≤ p y) ∧ hd_or NULL r2' = x ∧
    merging s' T R' rest ∧ moved s s' ∧
    v = inl (hd_or NULL rest, x, ret || bool_decide (head R' ≠ head (r1 ++ r2)))).
Proof.
  intros p Hm Hle. pose proof (merging_ready _ _ _ _ Hm) as Hr. pose proof (mg_rq _ _ _ _ Hm) as Hrq.
  pose proof (merging_fresh _ _ _ _ x Hm ltac:(set_solver)) as Hfr.
  pose proof (mg_free _ _ _ _ Hm x ltac:(set_solver)) as Hf.
  pose proof (rq_has_tcbs _ _ _ _ Hrq ready_in) as Hts. rewrite merged_ready in Hts.
  destruct (merge_split _ _ _ _ _ _ Hm Hle) as (k1 & y & k2 & -> & Ei & Hge & Hlt). fold p in Ei, Hge, Hlt.
  assert (ER : r1 ++ k1 ++ y :: k2 = (r1 ++ k1) ++ y :: k2) by apply app_assoc.
  assert (Hxn : x ∉ r1 ++ k1 ++ y :: k2).
  { pose proof (free_notin _ _ _ _ Hf ready_in) as Hx. by rewrite merged_ready in Hx. }
  destruct (mg_tcb _ _ _ _ Hm x) as [tx Htx]; [set_solver|]. destruct (Hts y) as [ty Hty]; [set_solver|].
  pose proof Hfr as (Hx0 & _). unfold sched_merge_body, nonnull. rewrite (proj2 (Z.eqb_neq _ _)) by done. cbn [negb].
  destruct (mg_seg _ _ _ _ Hm) as [b (Hseg & _)]. apply returns_bind. eapply returns_kload; [exact Hseg|].
  apply returns_bind. eapply returns_tcb; [done|]. apply returns_bind, returns_gets, returns_bind.
  pose proof Hr as (_ & _ & [_ Hd2]%dseg_app & _ & Hn). apply Forall_app in Hn as [_ Hn].
  apply Forall_app in Hge as [Hge1 Hge2].
  eapply returns_mono; [eapply (sched_search_loop s _ _ k1 (y :: k2)); [exact Hd2|done| | |]|].
  - rewrite <-(prio_some _ _ _ Htx). fold p. rewrite Forall_forall in *. intros z Hz.
    destruct (Hts z) as [tz Htz]; [set_solver|]. exists tz. split; [done|]. rewrite <-(prio_some _ _ _ Htz). auto.
  - intros ? [= <-]. exists ty. split; [done|]. rewrite <-(prio_some _ _ _ Htx), <-(prio_some _ _ _ Hty). done.
  - pose proof (dq_fuel _ _ _ Hr) as Hlen. rewrite !length_app in Hlen. lia.
  - intros r s' [-> ->]. rewrite hd_or_cons. rewrite ER in *. pose proof (dq_node _ _ _ Hr) as (N1 & N2 & N3 & _).
    apply returns_bind, returns_assert; [lia|]. apply returns_bind. eapply returns_kload; [exact N2|].
    pose proof (sched_link_spec _ _ _ _ _ Hr Hfr) as Hlink. rewrite hd_or_cons in Hlink.
    rewrite Ei. destruct (decide (r1 ++ k1 = [])) as [E0|E0].
    + rewrite E0 in *. simpl in *. apply returns_bind, returns_klinks.
      eapply returns_mono; [by eapply sched_link_front, Hlink|]. intros [] m' [_ Hpost].
      apply returns_bind. eapply returns_updt; [exact Hty|]. apply returns_bind.
      eapply returns_updt; [simpl; rewrite lookup_insert_ne by set_solver; exact Htx|]. apply returns_ret.
      destruct (merge_front s T (y :: k2) x rest y tx ty m') as [Hm' Hmv]; try done.
      exists [], (x :: y :: k2). split_and!; try done; [set_solver|].
      rewrite (bool_decide_eq_true_2 (Some x ≠ Some y)) by (intros [= ->]; set_solver). by rewrite orb_true_r.
    + assert (Hz : last_or NULL (r1 ++ k1) ≠ NULL).
      { destruct (list_snoc_cases (r1 ++ k1)) as [?|(l & z & El)]; [done|]. rewrite El, last_or_snoc.
        destruct Hr as (_ & _ & _ & _ & Hn'). rewrite El, Forall_forall in Hn'. apply Hn'. set_solver. }
      rewrite (proj2 (Z.eqb_neq _ _)) by done. cbn [negb]. apply returns_bind, returns_klinks.
      eapply returns_mono; [by eapply sched_link_middle, Hlink|]. intros [] m' [_ Hpost].
      apply returns_bind. eapply returns_updt; [exact Htx|]. apply returns_ret.
      assert (Hh : head ((r1 ++ k1) ++ x :: y :: k2) = head ((r1 ++ k1) ++ y :: k2)) by (by destruct (r1 ++ k1)).
      destruct (merge_behind s T ((r1 ++ k1) ++ y :: k2) x rest ((r1 ++ k1) ++ x :: y :: k2) tx m') as [Hm' Hmv];
        try done.
      { rewrite Hh. destruct (r1 ++ k1); [done|]. intros [= ->]. set_solver. }
      exists (r1 ++ k1), (x :: y :: k2). split_and!; try done.
      * intros z Hz'. rewrite Forall_forall in *. set_solver.
      * rewrite (bool_decide_eq_false_2 (_ ≠ _)) by (rewrite Hh; by intros []). by rewrite orb_false_r.
Qed.

Lemma merge_prio_ext p p' l k : (∀ y, p y = p' y) → merge_prio p l k = merge_prio p' l k.
Proof.
  intros He. revert l. induction k as [|x k IH]; intros l; [done|]. simpl.
  rewrite (insert_prio_ext p p') by auto. apply IH.
Qed.

Lemma merge_prio_cons p l x k : merge_prio p l (x :: k) = merge_prio p (insert_prio p x l) k.
Proof. done. Qed.

(** The head changes at most once: by the first task inserted there. *)
Lemma merge_head_changed (p : Z → Z) x R rest :
  desc p (x :: rest) → R ≠ [] →
  bool_decide (head (insert_prio p x R) ≠ head R) ||
    bool_decide (head (merge_prio p (insert_prio p x R) rest) ≠ head (insert_prio p x R)) =
  bool_decide (head (merge_prio p R (x :: rest)) ≠ head R).
Proof.
  intros [_ Hd]%StronglySorted_inv HR. rewrite Forall_forall in Hd. simpl. destruct R as [|y R]; [done|]. simpl.
  destruct (p x <=? p y) eqn:E; simpl.
  - rewrite (bool_decide_eq_false_2 (Some y ≠ Some y)) by (by intros []). done.
  - rewrite merge_head by auto. rewrite (bool_decide_eq_false_2 (Some x ≠ Some x)) by (by intros []). apply orb_false_r.
Qed.

Lemma merge_loop s T r1 r2 rest ret fuel :
  let p := prio (k_tcbs s) in
  merging s T (r1 ++ r2) rest → (∀ y z, y ∈ r1 → z ∈ rest → p z ≤ p y) → (length rest < fuel)%nat →
  returns (loop fuel sched_merge_body (hd_or NULL rest, hd_or NULL r2, ret)) s (λ ret' s',
    merging s' T (merge_prio p (r1 ++ r2) rest) [] ∧ moved s s' ∧
    ret' = ret || bool_decide (head (merge_prio p (r1 ++ r2) rest) ≠ head (r1 ++ r2))).
Proof.
  revert s r1 r2 ret fuel. induction rest as [|x rest IH]; intros s r1 r2 ret [|fuel] p Hm Hle Hlen;
    try (simpl in Hlen; lia); rewrite loop_S; apply returns_bind.
  - do 2 apply returns_ret. split_and!; try done. simpl.
    rewrite (bool_decide_eq_false_2 (_ ≠ _)) by (by intros []). by rewrite orb_false_r.
  - rewrite hd_or_cons. eapply returns_mono; [by apply merge_round|].
    intros v s' (r1' & r2' & ER & Hge & Hx & Hm' & Hmv & ->). fold p in ER, Hge, Hm' |- *.
    pose proof (mg_desc _ _ _ _ Hm) as Hd. fold p in Hd.
    assert (Hp : ∀ y, prio (k_tcbs s') y = p y) by (intros y; by apply same_but_state_prio, Hmv).
    rewrite <-Hx. rewrite ER in Hm'. eapply returns_mono; [apply IH; [done| |simpl in Hlen; lia]|].
    + intros y z Hy Hz. rewrite !Hp. specialize (Hge y Hy). apply StronglySorted_inv in Hd as [_ Hd].
      rewrite Forall_forall in Hd. specialize (Hd z Hz). simpl in Hd. lia.
    + intros ret' s'' (Hm'' & Hmv' & ->). rewrite !Hx, (merge_prio_ext (prio (k_tcbs s')) p) by done.
      rewrite (merge_prio_ext (prio (k_tcbs s')) p) in Hm'' by done.
      split_and!; [by rewrite merge_prio_cons, ER|by etrans|]. rewrite <-ER, <-orb_assoc. f_equal.
      apply merge_head_changed; [done|]. destruct (running_head _ _ _ (mg_rq _ _ _ _ Hm)) as [r Er].
      rewrite merged_ready in Er. by rewrite Er.
Qed.

(** The pending tasks while none of them has been moved yet. *)
Lemma merging_start s T : rqs s T → merging s T (T g_readytorun) (T g_pendingtasks).
Proof.
  intros Hok. pose proof (rq_lists _ _ _ Hok) as Hl.
  pose proof (prioritized_ready _ _ Hl) as (P1 & P2 & _ & P3 & _).
  pose proof (lo_repr _ _ Hl _ pending_in) as Hp. pose proof Hp as (Hp1 & Hp2 & Hp3 & [Hp4 Hp5] & Hp6).
  assert (H1 : is_Some (k_mem s !! g_pendingtasks)) by (by eexists).
  assert (H2 : is_Some (k_mem s !! (g_pendingtasks + 4))) by (by eexists).
  destruct (clr_touches _ H1 H2) as [Ht _].
  assert (HT : ∀ q, q ∈ queues → q ≠ g_pendingtasks → merged T (T g_readytorun) q = T q).
  { intros q Hq Hne. unfold merged, insert, fn_insert. repeat case_decide; congruence. }
  assert (Hpe : merged T (T g_readytorun) g_pendingtasks = []) by (by apply merged_pending).
  assert (Hsub : ∀ q y, q ∈ queues → y ∈ q :: merged T (T g_readytorun) q → y ∈ q :: T q).
  { intros q y Hq. destruct (decide (q = g_pendingtasks)) as [->|]; [rewrite Hpe; set_solver|by rewrite HT]. }
  split; try done; simpl.
  - split.
    + split; [apply Hl| |].
      * intros q Hq. destruct (decide (q = g_pendingtasks)) as [->|Hne].
        { rewrite Hpe. split_and!; try done; unfold clr; [|apply lookup_insert_eq].
          rewrite lookup_insert_ne by lia. apply lookup_insert_eq. }
        rewrite HT by done. eapply dq_repr_touches; [exact Ht| |by apply Hl].
        intros a b Ha ->%list_elem_of_singleton. apply (lo_apart _ _ Hl q g_pendingtasks); auto with sched. set_solver.
      * intros q q' Hq Hq' Hne a b Ha Hb. apply (lo_apart _ _ Hl q q'); auto.
    + intros q x Hq. destruct (decide (q = g_pendingtasks)) as [->|Hne]; [rewrite Hpe; set_solver|].
      rewrite HT by done. by apply (rq_tcb _ _ _ Hok).
    + intros q Hq Hpr. destruct (decide (q = g_pendingtasks)) as [->|Hne]; [rewrite Hpe; constructor|].
      rewrite HT by done. by apply (rq_desc _ _ _ Hok).
    + rewrite HT by (done || apply ready_in). apply Hok.
    + apply Hok.
    + intros q x Hq. destruct (decide (q = g_pendingtasks)) as [->|Hne]; [rewrite Hpe; set_solver|].
      rewrite HT by done. by apply (rq_prio _ _ _ Hok).
  - by exists NULL.
  - intros x Hx. rewrite Forall_forall in Hp4, Hp6.
    pose proof (dseg_mapped _ _ _ _ _ _ Hp3 Hx) as [M1 M2]. rewrite Z.add_0_r in M1, M2.
    split_and!; [auto|by rewrite <-(touches_mapped _ _ _ _ Ht)..|].
    intros q y Hq Hy. destruct (decide (q = g_pendingtasks)) as [->|Hne].
    + rewrite Hpe in Hy. apply list_elem_of_singleton in Hy as ->. specialize (Hp4 x Hx). simpl in Hp4. lia.
    + rewrite HT in Hy by done. apply (lo_apart _ _ Hl g_pendingtasks q); auto with sched. set_solver.
  - intros x Hx. apply (rq_prio _ _ _ Hok g_pendingtasks); auto with sched. intros ->. apply P3.
    destruct (rq_idle _ _ _ Hok) as [r Er]. eapply lists_unique; [exact Hl|apply pending_in|apply ready_in|done|].
    rewrite Er. set_solver.
  - by eapply rq_has_tcbs, pending_in.
  - by apply (rq_desc _ _ _ Hok), P2; apply pending_in.
Qed.

Lemma sched_mergepending_spec s T :
  rqs s T →
  returns sched_mergepending s (λ r s',
    let R := merge_prio (prio (k_tcbs s)) (T g_readytorun) (T g_pendingtasks) in
    moved s s' ∧ rqs s' (merged T R) ∧ r = bool_decide (head R ≠ head (T g_readytorun))).
Proof.
  intros Hok. pose proof (rq_lists _ _ _ Hok) as Hl. unfold sched_mergepending.
  apply returns_bind. eapply returns_rtr_head; [done|]. apply returns_bind. eapply returns_pnd_head; [done|].
  apply returns_bind, returns_gets, returns_bind.
  eapply returns_mono; [apply (merge_loop s T [] (T g_readytorun) (T g_pendingtasks) false)|].
  - by apply merging_start.
  - set_solver.
  - pose proof (dq_fuel _ _ _ (lo_repr _ _ Hl _ pending_in)). lia.
  - intros r s' (Hm & Hmv & ->). destruct (mg_head _ _ _ _ Hm) as [H1 H2].
    apply returns_bind, returns_klinks. apply returns_bind, returns_store.
    { unfold HEAD. by rewrite Z.add_0_r. }
    apply returns_store; [unfold HEAD, TAIL; rewrite lookup_insert_ne by lia; done|]. apply returns_ret.
    unfold HEAD, TAIL. rewrite Z.add_0_r. split_and!; [by etrans; [|apply moved_mem]| |done].
    apply (mg_rq _ _ _ _ Hm).
Qed.
End SchedMerge.
