(* ===== verification/SchedSwitch.v ===== *)
(** Blocking, unblocking and reprioritizing tasks: the up_ routines, which
    move a task and switch to the new head of the ready-to-run list. *)

From Stdlib Require Import Sorting.Sorted.
From stdpp Require Import functions.
From S2P Require Import Prelude Links Queue Sched SchedList SchedInv SchedOps SchedMerge.

Section SchedSwitch.
Context `{Globals}.
Implicit Types (m : mem) (D : gmap Z tcb_s) (T : Z → list Z) (s : kstate) (q x y : Z).

(** ** The lists of blocked tasks *)

(** The headers are pairwise different. *)
Ltac queue_facts H :=
  pose proof H as Hnd; unfold queues in Hnd; rewrite !NoDup_cons, !not_elem_of_cons in Hnd; destruct_and? Hnd.
Ltac prio_iff := split; [intros; try done; split; congruence|intros []; congruence].

Definition tasklist_of (st : Z) : Z * bool := default (NULL, false) (g_tasklisttable !! Z.to_nat st).

Lemma blocked_cases (st : Z) : is_blocked_state st = true →
  st = TSTATE_TASK_INACTIVE ∨ st = TSTATE_WAIT_SEM ∨ st = TSTATE_WAIT_SIG ∨ st = TSTATE_WAIT_MQNOTEMPTY ∨
  st = TSTATE_WAIT_MQNOTFULL.
Proof.
  unfold is_blocked_state, NUM_TASK_STATES, TSTATE_TASK_INACTIVE, TSTATE_WAIT_SEM, TSTATE_WAIT_SIG,
    TSTATE_WAIT_MQNOTEMPTY, TSTATE_WAIT_MQNOTFULL. lia.
Qed.

Lemma blocked_list m T st :
  lists_ok m T → is_blocked_state st = true →
  g_tasklisttable !! Z.to_nat st = Some (tasklist_of st) ∧ (tasklist_of st).1 ∈ queues ∧
  (tasklist_of st).1 ≠ g_readytorun ∧ (tasklist_of st).1 ≠ g_pendingtasks ∧
  ((tasklist_of st).2 = true ↔ prioritized (tasklist_of st).1) ∧ ∀ l x, tstate (tasklist_of st).1 l x = st.
Proof.
  intros Hl Hst. queue_facts (lo_nodup _ _ Hl). unfold tstate, prioritized, queues. rewrite !elem_of_cons.
  destruct (blocked_cases _ Hst) as [->|[->|[->|[->| ->]]]]; simpl;
    (split_and!; [done|tauto|congruence|congruence|prio_iff|]; intros l x;
     repeat (rewrite decide_False by congruence); by rewrite ?decide_True by done).
Qed.

(** A list from the state of the tasks in it. *)
Lemma tstate_list m T q l x :
  lists_ok m T → q ∈ queues → q ≠ g_readytorun →
  g_tasklisttable !! Z.to_nat (tstate q l x) = Some (tasklist_of (tstate q l x)) ∧
  (tasklist_of (tstate q l x)).1 = q ∧ ((tasklist_of (tstate q l x)).2 = true ↔ prioritized q) ∧
  tstate q l x ≠ TSTATE_TASK_RUNNING ∧ tstate q l x ≠ TSTATE_TASK_READYTORUN ∧
  (q ≠ g_pendingtasks → is_blocked_state (tstate q l x) = true).
Proof.
  intros Hl Hq Hr. queue_facts (lo_nodup _ _ Hl). unfold queues in Hq. unfold tstate, prioritized.
  rewrite decide_False by done.
  repeat (apply elem_of_cons in Hq as [->|Hq]; [first [done|
    repeat (rewrite decide_False by congruence); rewrite ?decide_True by done;
    split_and!; [done|done|simpl; prio_iff|done|done|intros; (done || congruence)]]|]).
  by apply elem_of_nil in Hq.
Qed.

Lemma returns_tasklist st e s (Q : Z * bool → kstate → Prop) :
  g_tasklisttable !! Z.to_nat st = Some e → Q e s → returns (tasklist st) s Q.
Proof. unfold returns, tasklist. by intros ->. Qed.

Definition add_blocked D T x st : Z → list Z :=
  let q := (tasklist_of st).1 in
  <[q:=if (tasklist_of st).2 then insert_prio (prio D) x (T q) else T q ++ [x]]> T.

Lemma added_last m D T m' q x t v :
  rq_ok m D T → free m T x → q ∈ queues → ¬ prioritized q → q ≠ g_readytorun → D !! x = Some t →
  1 ≤ sched_priority t ≤ 255 → dq_post q (x :: T q) (T q ++ [x]) m m' → (∀ l, tstate q l x = v) →
  rq_ok m' (<[x:=set_state v t]> D) (<[q:=T q ++ [x]]> T).
Proof.
  intros Hok Hf Hq Hpr Hne Ht Hp Hpost Hv. eapply rq_added; try done.
  - by rewrite Permutation_app_comm.
  - intros y. by apply same_but_state_prio, same_but_state_upd.
  - by rewrite (prio_some _ _ _ Ht).
  - intros y Hy. rewrite lookup_insert_ne; [done|]. set_solver.
  - intros y Hy. destruct (decide (y = x)) as [->|Hyx]; [rewrite lookup_insert_eq; by eexists|].
    rewrite lookup_insert_ne by done. destruct (rq_tcb _ _ _ Hok q y Hq) as (ty & Hty & Hst); [set_solver|].
    exists ty. split; [done|]. rewrite Hst. by apply tstate_ne.
Qed.

Lemma sched_addblocked_spec s T x t st :
  rqs s T → free (k_mem s) T x → k_tcbs s !! x = Some t → 1 ≤ sched_priority t ≤ 255 →
  is_blocked_state st = true →
  returns (sched_addblocked x st) s (λ _ s', moved s s' ∧ rqs s' (add_blocked (k_tcbs s) T x st)).
Proof.
  intros Hok Hf Ht Hp Hst. pose proof (rq_lists _ _ _ Hok) as Hl.
  destruct (blocked_list _ _ _ Hl Hst) as (Htab & Hq & Hq1 & Hq2 & Hpr & Hts).
  unfold sched_addblocked. apply returns_bind, returns_assert; [done|].
  apply returns_bind. eapply returns_tasklist; [done|]. unfold add_blocked.
  destruct (tasklist_of st) as [q []]; simpl in *; apply returns_bind.
  - apply returns_bind. eapply returns_mono; [by apply (sched_add_spec s T x t q)|].
    intros r s' (m' & -> & _ & Hpost). apply returns_ret. eapply returns_updt; [exact Ht|].
    split; [etrans; [apply (moved_mem s m')|by apply moved_upd]|].
    eapply added_behind; try done; [by apply Hpr|by right].
  - apply returns_klinks. eapply returns_mono; [apply (dq_addlast_spec _ _ _ (T q)); [by apply Hl|by apply free_fresh]|].
    intros [] m' Hpost. eapply returns_updt; [exact Ht|].
    split; [etrans; [apply (moved_mem s m')|by apply moved_upd]|].
    eapply added_last; try done. intros Hpr'%Hpr. done.
Qed.

(** ** Taking a task out of a list other than the ready-to-run list *)
Lemma rq_removed m D T m' D' q l1 x l2 :
  rq_ok m D T → q ∈ queues → q ≠ g_readytorun → T q = l1 ++ x :: l2 →
  dq_post q (l1 ++ x :: l2) (l1 ++ l2) m m' → (∀ y, y ≠ x → D' !! y = D !! y) →
  rq_ok m' D' (<[q:=l1 ++ l2]> T) ∧ free m' (<[q:=l1 ++ l2]> T) x ∧ x ≠ g_idletcb.
Proof.
  intros Hok Hq Hne E Hpost Ho. pose proof (rq_lists _ _ _ Hok) as Hl.
  destruct (lists_rem m T m' q l1 x l2 Hl Hq E Hpost) as [Hl' Hfree].
  pose proof (lists_nodup _ _ _ Hl Hq) as Hnd. rewrite E in Hnd.
  assert (Hx : ∀ y, y ∈ l1 ++ l2 → y ≠ x).
  { intros y Hy ->. apply NoDup_app in Hnd as (_ & Hnd & [Hn _]%NoDup_cons). set_solver. }
  assert (Hxo : ∀ q' y, q' ∈ queues → q' ≠ q → y ∈ T q' → y ≠ x).
  { intros q' y Hq' Hqq Hy ->. apply Hqq. eapply (lists_unique _ _ q' q x); [exact Hl|done|done|done|]. rewrite E. set_solver. }
  assert (Hxi : x ≠ g_idletcb).
  { intros ->. destruct (rq_idle _ _ _ Hok) as [r Er]. eapply (Hxo g_readytorun); auto with sched. rewrite Er. set_solver. }
  assert (Hpr : ∀ y, y ≠ x → prio D' y = prio D y) by (intros y Hy; unfold prio; by rewrite Ho).
  split_and!; [|done|done]. split.
  - done.
  - intros q' y Hq'. destruct (decide (q' = q)) as [->|Hqq].
    + rewrite fn_lookup_insert. intros Hy. rewrite Ho by auto.
      destruct (rq_tcb _ _ _ Hok q y Hq) as (t & Ht & Hst); [rewrite E; set_solver|].
      exists t. split; [done|]. rewrite Hst. by apply tstate_ne.
    + rewrite fn_lookup_insert_ne by done. intros Hy. rewrite Ho by eauto. by apply (rq_tcb _ _ _ Hok).
  - intros q' Hq' Hp'. destruct (decide (q' = q)) as [->|Hqq].
    + rewrite fn_lookup_insert. pose proof (rq_desc _ _ _ Hok q Hq Hp') as Hd. rewrite E in Hd.
      apply desc_remove in Hd. revert Hd. apply desc_ext. intros y Hy. symmetry. auto.
    + rewrite fn_lookup_insert_ne by done. eapply desc_ext, (rq_desc _ _ _ Hok q' Hq' Hp').
      intros y Hy. symmetry. eauto.
  - rewrite fn_lookup_insert_ne by done. apply Hok.
  - rewrite Hpr by done. apply Hok.
  - intros q' y Hq'. destruct (decide (q' = q)) as [->|Hqq].
    + rewrite fn_lookup_insert. intros Hy. rewrite Hpr by auto. apply (rq_prio _ _ _ Hok q y Hq). rewrite E. set_solver.
    + rewrite fn_lookup_insert_ne by done. intros Hy. rewrite Hpr by eauto. by apply (rq_prio _ _ _ Hok q').
Qed.

Lemma sched_removeblocked_spec s T q l1 x l2 :
  rqs s T → q ∈ queues → q ≠ g_readytorun → q ≠ g_pendingtasks → T q = l1 ++ x :: l2 →
  returns (sched_removeblocked x) s (λ _ s', moved s s' ∧ rqs s' (<[q:=l1 ++ l2]> T) ∧
    free (k_mem s') (<[q:=l1 ++ l2]> T) x).
Proof.
  intros Hok Hq H1 H2 E. pose proof (rq_lists _ _ _ Hok) as Hl.
  destruct (rq_tcb _ _ _ Hok q x Hq) as (t & Ht & Hst); [rewrite E; set_solver|].
  destruct (tstate_list _ _ _ (T q) x Hl Hq H1) as (Htab & Hlist & _ & _ & _ & Hb). rewrite <-Hst in *.
  unfold sched_removeblocked. apply returns_bind. eapply returns_tcb; [done|].
  apply returns_bind, returns_assert; [by apply Hb|]. apply returns_bind. eapply returns_tasklist; [done|].
  destruct (tasklist_of (task_state t)) as [q' b]. simpl in Hlist. subst q'.
  apply returns_bind, returns_klinks. pose proof (lo_repr _ _ Hl _ Hq) as Hr. rewrite E in Hr.
  eapply returns_mono; [by apply dq_rem_spec|]. intros [] m' (Hpost & _).
  eapply returns_updt; [exact Ht|]. split; [etrans; [apply (moved_mem s m')|by apply moved_upd]|].
  destruct (rq_removed (k_mem s) (k_tcbs s) T m' (<[x:=set_state TSTATE_TASK_INVALID t]> (k_tcbs s)) q l1 x l2)
    as (A1 & A2 & _); try done.
  intros y Hy. by rewrite lookup_insert_ne.
Qed.

(** ** Changes of a TCB that the lists do not see *)
Lemma rq_field m D T x t t' :
  rq_ok m D T → D !! x = Some t → task_state t' = task_state t → sched_priority t' = sched_priority t →
  rq_ok m (<[x:=t']> D) T.
Proof.
  intros Hok Ht Hs Hp.
  assert (Hpr : ∀ y, prio (<[x:=t']> D) y = prio D y).
  { intros y. unfold prio. destruct (decide (y = x)) as [->|]; [|by rewrite lookup_insert_ne].
    rewrite lookup_insert_eq, Ht. simpl. congruence. }
  split; try apply Hok.
  - intros q y Hq Hy. destruct (rq_tcb _ _ _ Hok q y Hq Hy) as (ty & Hty & Hst).
    destruct (decide (y = x)) as [->|]; [|rewrite lookup_insert_ne by done; by eexists].
    rewrite lookup_insert_eq. exists t'. split; [done|]. congruence.
  - intros q Hq Hpq. eapply desc_ext, (rq_desc _ _ _ Hok q Hq Hpq). auto.
  - rewrite Hpr. apply Hok.
  - intros q y Hq Hy. rewrite Hpr. by apply (rq_prio _ _ _ Hok q).
Qed.

Lemma rq_field_free m D T x t' : rq_ok m D T → free m T x → rq_ok m (<[x:=t']> D) T.
Proof.
  intros Hok Hf.
  assert (Hx : ∀ q y, q ∈ queues → y ∈ T q → y ≠ x).
  { intros q y Hq Hy ->. by eapply free_notin. }
  assert (Hpr : ∀ y, y ≠ x → prio (<[x:=t']> D) y = prio D y).
  { intros y Hy. unfold prio. by rewrite lookup_insert_ne. }
  split; try apply Hok.
  - intros q y Hq Hy. rewrite lookup_insert_ne; [by apply (rq_tcb _ _ _ Hok)|]. intros <-. by eapply Hx.
  - intros q Hq Hpq. eapply desc_ext, (rq_desc _ _ _ Hok q Hq Hpq). intros y Hy. symmetry. eauto.
  - rewrite Hpr by (apply not_eq_sym; by eapply free_not_idle). apply Hok.
  - intros q y Hq Hy. rewrite Hpr by eauto. by apply (rq_prio _ _ _ Hok q).
Qed.
End SchedSwitch.
