(* ===== verification/SchedKernel.v ===== *)
(** The kernel invariant, [sched_ok], and the routines that switch tasks. *)

From Stdlib Require Import Sorting.Sorted.
From stdpp Require Import functions.
From S2P Require Import Prelude Links Queue Sched SchedList SchedInv SchedOps SchedMerge SchedSwitch.

Section SchedKernel.
Context `{Globals}.
Implicit Types (m : mem) (D : gmap Z tcb_s) (T : Z → list Z) (s : kstate) (q x y : Z) (irq : bool).

Definition locks_ok D : Prop := ∀ x t, D !! x = Some t → 0 ≤ lockcount t ≤ MAX_LOCK_COUNT.

(** Between two steps of the kernel: the processor runs the first task of the
    ready-to-run list, and tasks are pending only while that task has locked
    the scheduler. *)
Record sched_ok s T : Prop := {
  so_rq : rqs s T;
  so_run : k_running s = running T;
  so_pend : T g_pendingtasks = [] ∨ lock (k_tcbs s) (running T) ≠ 0;
  so_lock : locks_ok (k_tcbs s);
}.

(** What a switch leaves alone besides the TCBs. *)
Definition kept s s' : Prop :=
  k_sems s' = k_sems s ∧ g_irqerrno s' = g_irqerrno s ∧ g_pidhash s' = g_pidhash s ∧
  g_cpuload_total s' = g_cpuload_total s.

#[global] Instance kept_refl : Reflexive kept.
Proof. done. Qed.
#[global] Instance kept_trans : Transitive kept.
Proof. intros s1 s2 s3 (A1 & A2 & A3 & A4) (B1 & B2 & B3 & B4). split_and!; congruence. Qed.

Lemma moved_kept s s' : moved s s' → kept s s'.
Proof. by intros (_ & ? & _ & ? & ? & ?). Qed.

Lemma locks_ok_same D D' : same_but_state D D' → locks_ok D → locks_ok D'.
Proof.
  intros Hs Hl x t' Ht'. specialize (Hs x). rewrite Ht' in Hs. destruct (D !! x) as [t|] eqn:Ht; [|done].
  injection Hs. intros. specialize (Hl x t Ht). congruence.
Qed.

Lemma locks_ok_upd D x t' : locks_ok D → 0 ≤ lockcount t' ≤ MAX_LOCK_COUNT → locks_ok (<[x:=t']> D).
Proof. intros Hl Hr y t [[-> <-]|[_ Hy]]%lookup_insert_Some; [done|by eapply Hl]. Qed.

(** The lists with the pending tasks released. *)
Definition release D T : Z → list Z := merged T (merge_prio (prio D) (T g_readytorun) (T g_pendingtasks)).

Lemma release_none D T : T g_pendingtasks = [] → same_lists (release D T) T.
Proof.
  intros E. unfold release. rewrite E. simpl. unfold merged. intros q Hq. unfold insert, fn_insert.
  repeat case_decide; congruence.
Qed.

Lemma release_pending m D T : rq_ok m D T → release D T g_pendingtasks = [].
Proof. intros Hok. apply merged_pending. by apply (prioritized_ready m T (rq_lists _ _ _ Hok)). Qed.

Lemma release_running D T : running (release D T) = hd_or NULL (merge_prio (prio D) (T g_readytorun) (T g_pendingtasks)).
Proof. apply running_upd. Qed.

Lemma release_ext D D' T : (∀ y, prio D y = prio D' y) → release D T = release D' T.
Proof. intros He. unfold release. by rewrite (merge_prio_ext (prio D) (prio D')). Qed.

Lemma running_same T T' : same_lists T T' → running T = running T'.
Proof. intros He. unfold running. by rewrite He by apply ready_in. Qed.

(** The lines with which a routine releases the pending tasks. *)
Lemma release_spec {A B} s T (f : bool → A) (a : A) (k : A → M kstate B) (Q : B → kstate → Prop) :
  rqs s T → f false = a →
  (∀ s' b, moved s s' → rqs s' (release (k_tcbs s) T) →
     (b = false → running (release (k_tcbs s) T) = running T) →
     returns (k (f b)) s' Q) →
  returns (pnd ← pnd_head;
           v ← (if nonnull pnd then r ← sched_mergepending; mret (f r) else mret a); k v) s Q.
Proof.
  intros Hok Hf HQ. pose proof (rq_lists _ _ _ Hok) as Hl. apply returns_bind.
  eapply returns_pnd_head; [done|]. apply returns_bind. destruct (T g_pendingtasks) as [|x P] eqn:EP.
  - rewrite hd_or_nil. apply returns_ret. rewrite <-Hf. apply (HQ s false); [done| |].
    + unfold rqs. by rewrite release_none.
    + intros _. by apply running_same, release_none.
  - pose proof (lo_repr _ _ Hl _ pending_in) as (_ & _ & _ & _ & Hn). rewrite EP, Forall_cons in Hn.
    rewrite hd_or_cons. unfold nonnull. rewrite (proj2 (Z.eqb_neq _ _)) by apply Hn. cbn [negb].
    apply returns_bind. eapply returns_mono; [by apply sched_mergepending_spec|].
    intros r s' (Hmv & Hrq & ->). apply returns_ret. apply HQ; [done|done|].
    intros Eb%bool_decide_eq_false. rewrite release_running. unfold running, hd_or. f_equal.
    by apply dec_stable.
Qed.

Lemma up_switch_spec irq s T r :
  rqs s T →
  returns (up_switch irq r) s (λ b s', s' = set_running (running T) s ∧ b = negb irq && negb (running T =? r)).
Proof.
  intros Hok. unfold up_switch. apply returns_bind. eapply returns_rtr_head; [by apply (rq_lists _ _ _ Hok)|].
  apply returns_bind, returns_modify. by apply returns_ret.
Qed.

(** ** up_block_task *)
Definition block_lists D T l1 x l2 st : Z → list Z :=
  release D (add_blocked D (<[g_readytorun:=l1 ++ l2]> T) x st).

Lemma add_blocked_running m D T x st :
  lists_ok m T → is_blocked_state st = true → running (add_blocked D T x st) = running T.
Proof.
  intros Hl Hst. destruct (blocked_list _ _ _ Hl Hst) as (_ & _ & Hq & _). unfold running, add_blocked.
  by rewrite fn_lookup_insert_ne.
Qed.

Lemma add_blocked_ext D D' T x st :
  (∀ y, prio D y = prio D' y) → add_blocked D T x st = add_blocked D' T x st.
Proof. intros He. unfold add_blocked. by rewrite (insert_prio_ext (prio D) (prio D')) by auto. Qed.

Lemma up_block_task_spec irq s T l1 x l2 st :
  rqs s T → k_running s = running T → T g_readytorun = l1 ++ x :: l2 → x ≠ g_idletcb →
  is_blocked_state st = true →
  let T' := block_lists (k_tcbs s) T l1 x l2 st in
  returns (up_block_task irq x st) s (λ b s', rqs s' T' ∧ k_running s' = running T' ∧
    same_but_state (k_tcbs s) (k_tcbs s') ∧ kept s s' ∧
    b = negb irq && negb (running T' =? running T)).
Proof.
  intros Hok Hrun E Hx Hst T'. pose proof (rq_lists _ _ _ Hok) as Hl.
  destruct (rq_tcb _ _ _ Hok _ x ready_in) as (t & Ht & Hts); [rewrite E; set_solver|].
  pose proof (rq_prio _ _ _ Hok _ x ready_in ltac:(rewrite E; set_solver) Hx) as Hp.
  unfold up_block_task. apply returns_bind. eapply returns_rtr_head; [done|].
  apply returns_bind. eapply returns_tcb; [done|]. apply returns_bind, returns_assert.
  { rewrite Hts, tstate_ready. by destruct (decide _). }
  apply returns_bind. eapply returns_mono; [by apply sched_removereadytorun_spec|].
  intros r s1 (-> & Hmv1 & Hok1 & Hf1).
  destruct (same_but_state_some _ _ _ _ (proj1 Hmv1) Ht) as [v Ht1].
  assert (Hp1 : ∀ y, prio (k_tcbs s1) y = prio (k_tcbs s) y) by (intros y; by apply same_but_state_prio, Hmv1).
  apply returns_bind. eapply returns_mono; [apply (sched_addblocked_spec s1 _ x _ st Hok1 Hf1 Ht1); [|done]|].
  { simpl. by rewrite <-(prio_some _ _ _ Ht). }
  intros [] s2 (Hmv2 & Hok2). rewrite (add_blocked_ext _ (k_tcbs s)) in Hok2 by done.
  assert (Hp2 : ∀ y, prio (k_tcbs s2) y = prio (k_tcbs s) y).
  { intros y. rewrite <-Hp1. by apply same_but_state_prio, Hmv2. }
  eapply (release_spec s2 _ (λ r, bool_decide (l1 = []) || r)); [done|by rewrite orb_false_r|].
  intros s3 b Hmv3 Hok3 Hb. rewrite (release_ext _ (k_tcbs s)) in Hok3, Hb by done. fold (block_lists (k_tcbs s) T l1 x l2 st) in Hok3, Hb.
  fold T' in Hok3, Hb. assert (Hmv : moved s s3) by (etrans; [exact Hmv1|by etrans]).
  destruct (bool_decide (l1 = []) || b) eqn:Eb.
  - eapply returns_mono; [by apply up_switch_spec|]. intros b' s4 (-> & ->).
    split_and!; try done; [apply Hmv|by apply moved_kept in Hmv as (?&?&?&?)..].
  - apply returns_ret. apply orb_false_iff in Eb as [E1 E2]. apply bool_decide_eq_false in E1.
    assert (HT : running T' = running T).
    { rewrite Hb by done. rewrite (add_blocked_running (k_mem s1)) by (done || apply (rq_lists _ _ _ Hok1)).
      rewrite running_upd. unfold running. rewrite E. by destruct l1. }
    rewrite HT, Z.eqb_refl. split_and!; try done; [|apply Hmv|by apply moved_kept|by rewrite andb_false_r].
    destruct Hmv as (_ & _ & -> & _). done.
Qed.

(** ** up_unblock_task *)
Definition RR_TICKS : Z := MSEC2TICK CONFIG_RR_INTERVAL.

Lemma held_ext D D' T x :
  (∀ y, prio D y = prio D' y) → (∀ y, lock D y = lock D' y) → held D T x = held D' T x.
Proof. intros Hp Hk. unfold held. by rewrite Hk, !Hp. Qed.

Lemma add_ready_ext D D' T x :
  (∀ y, prio D y = prio D' y) → (∀ y, lock D y = lock D' y) → add_ready D T x = add_ready D' T x.
Proof.
  intros Hp Hk. unfold add_ready. rewrite (held_ext D D') by done.
  by rewrite !(insert_prio_ext (prio D) (prio D')) by auto.
Qed.

Lemma add_ready_running D T x :
  T g_readytorun ≠ [] → g_pendingtasks ≠ g_readytorun →
  running (add_ready D T x) = running T ∨ running (add_ready D T x) = x.
Proof.
  intros HT Hne. unfold add_ready. destruct (held D T x).
  - left. unfold running. by rewrite fn_lookup_insert_ne.
  - rewrite running_upd. unfold running. destruct (T g_readytorun); [done|]. simpl. destruct (_ <=? _); auto.
Qed.

Definition unblock_tcb D x : gmap Z tcb_s := alter (set_timeslice RR_TICKS) x D.

Lemma prio_alter D x f y : (∀ t, sched_priority (f t) = sched_priority t) → prio (alter f x D) y = prio D y.
Proof.
  intros Hf. unfold prio. destruct (decide (y = x)) as [->|]; [rewrite lookup_alter_eq|by rewrite lookup_alter_ne].
  destruct (D !! x); simpl; [by rewrite Hf|done].
Qed.

Lemma lock_alter D x f y : (∀ t, lockcount (f t) = lockcount t) → lock (alter f x D) y = lock D y.
Proof.
  intros Hf. unfold lock. destruct (decide (y = x)) as [->|]; [rewrite lookup_alter_eq|by rewrite lookup_alter_ne].
  destruct (D !! x); simpl; [by rewrite Hf|done].
Qed.

Lemma insert_alter D D' x t v f :
  same_but_state D D' → D !! x = Some t → D' !! x = Some (set_state v t) →
  (∀ t, set_state 0 (f (set_state v t)) = set_state 0 (f t)) →
  same_but_state (alter f x D) (<[x:=f (set_state v t)]> D').
Proof.
  intros Hs Ht Ht' Hf y. destruct (decide (y = x)) as [->|].
  - rewrite lookup_insert_eq, lookup_alter_eq, Ht. simpl. by rewrite Hf.
  - rewrite lookup_insert_ne, lookup_alter_ne by done. apply Hs.
Qed.

Definition unblock_lists D T q l1 x l2 : Z → list Z := add_ready D (<[q:=l1 ++ l2]> T) x.

Lemma up_unblock_task_spec irq s T q l1 x l2 :
  rqs s T → k_running s = running T → q ∈ queues → q ≠ g_readytorun → q ≠ g_pendingtasks →
  T q = l1 ++ x :: l2 →
  let T' := unblock_lists (k_tcbs s) T q l1 x l2 in
  returns (up_unblock_task irq x) s (λ b s', rqs s' T' ∧ k_running s' = running T' ∧
    same_but_state (unblock_tcb (k_tcbs s) x) (k_tcbs s') ∧ kept s s' ∧
    b = negb irq && negb (running T' =? running T)).
Proof.
  intros Hok Hrun Hq Hq1 Hq2 E T'. pose proof (rq_lists _ _ _ Hok) as Hl.
  pose proof (prioritized_ready _ _ Hl) as (_ & _ & _ & P3 & _).
  assert (Hin : x ∈ T q) by (rewrite E; set_solver).
  destruct (rq_tcb _ _ _ Hok q x Hq Hin) as (t & Ht & Hts).
  assert (Hxi : x ≠ g_idletcb).
  { intros ->. destruct (rq_idle _ _ _ Hok) as [r Er]. apply Hq1. eapply lists_unique; [exact Hl|done|apply ready_in|done|].
    rewrite Er. set_solver. }
  assert (Hrx : running T ≠ x).
  { intros <-. destruct (running_head _ _ _ Hok) as [r Er]. apply Hq1.
    eapply lists_unique; [exact Hl|done|apply ready_in|done|]. rewrite Er. set_solver. }
  pose proof (rq_prio _ _ _ Hok q x Hq Hin Hxi) as Hp. rewrite (prio_some _ _ _ Ht) in Hp.
  unfold up_unblock_task. apply returns_bind. eapply returns_rtr_head; [done|].
  apply returns_bind. eapply returns_tcb; [done|]. apply returns_bind, returns_assert.
  { rewrite Hts. by eapply tstate_list. }
  apply returns_bind. eapply returns_mono; [by eapply sched_removeblocked_spec|].
  intros [] s1 (Hmv1 & Hok1 & Hf1). destruct (same_but_state_some _ _ _ _ (proj1 Hmv1) Ht) as [v Ht1].
  apply returns_bind. eapply returns_updt; [exact Ht1|]. fold RR_TICKS.
  set (t2 := set_timeslice RR_TICKS (set_state v t)). set (s2 := set_tcbs _ _).
  assert (Hsb2 : same_but_state (unblock_tcb (k_tcbs s) x) (k_tcbs s2)).
  { subst s2 t2. simpl. apply (insert_alter _ _ _ _ v (set_timeslice RR_TICKS)); try done. apply Hmv1. }
  assert (Hok2 : rqs s2 (<[q:=l1 ++ l2]> T)) by (subst s2; by eapply rq_field).
  apply returns_bind. eapply returns_mono; [apply (sched_addreadytorun_spec s2 (<[q:=l1 ++ l2]> T) x t2); try done|].
  { subst s2. simpl. apply lookup_insert_eq. }
  intros r s3 (Hmv3 & Hok3 & ->).
  assert (ET : add_ready (k_tcbs s2) (<[q:=l1 ++ l2]> T) x = T').
  { apply add_ready_ext; intros y.
    - rewrite (same_but_state_prio _ _ _ Hsb2). by apply prio_alter.
    - rewrite (same_but_state_lock _ _ _ Hsb2). by apply lock_alter. }
  rewrite ET in *.
  assert (Hsb : same_but_state (unblock_tcb (k_tcbs s) x) (k_tcbs s3)) by (etrans; [exact Hsb2|apply Hmv3]).
  assert (Hk : kept s s3) by (etrans; [apply moved_kept, Hmv1|by apply (moved_kept s2)]).
  case_bool_decide as Hr.
  - eapply returns_mono; [by apply up_switch_spec|]. intros b s4 (-> & ->). done.
  - apply returns_ret.
    assert (HT : running T' = running T).
    { destruct (add_ready_running (k_tcbs s) (<[q:=l1 ++ l2]> T) x) as [HT|HT]; try done.
      - rewrite fn_lookup_insert_ne by done. by destruct (running_head _ _ _ Hok) as [r ->].
      - unfold T', unblock_lists. rewrite HT. unfold running. by rewrite fn_lookup_insert_ne. }
    rewrite HT, Z.eqb_refl, andb_false_r. split_and!; try done.
    destruct Hmv3 as (_ & _ & -> & _). simpl. destruct Hmv1 as (_ & _ & -> & _). done.
Qed.
End SchedKernel.
