(* ===== verification/SchedApi.v ===== *)
(** Reprioritizing, locking, unlocking and time slices: every entry of the
    scheduler keeps [sched_ok]. *)

From Stdlib Require Import Sorting.Sorted.
From stdpp Require Import functions.
From S2P Require Import Prelude Links Queue Sched SchedList SchedInv SchedOps SchedMerge SchedSwitch SchedKernel.

Section SchedApi.
Context `{Globals}.
Implicit Types (m : mem) (D : gmap Z tcb_s) (T : Z → list Z) (s : kstate) (q x y : Z) (irq : bool).

(** The same tasks, in the ready-to-run and pending lists together and in each
    other list. *)
Definition same_tasks T T' : Prop :=
  T' g_readytorun ++ T' g_pendingtasks ≡ₚ T g_readytorun ++ T g_pendingtasks ∧
  ∀ q, q ∈ queues → q ≠ g_readytorun → q ≠ g_pendingtasks → T' q ≡ₚ T q.

#[global] Instance same_tasks_refl : Reflexive same_tasks.
Proof. done. Qed.
#[global] Instance same_tasks_trans : Transitive same_tasks.
Proof. intros T1 T2 T3 [A1 A2] [B1 B2]. split; [by rewrite B1|]. intros q ???. rewrite B2 by done. by apply A2. Qed.

Lemma same_tasks_release m D T : lists_ok m T → same_tasks T (release D T).
Proof.
  intros Hl. pose proof (prioritized_ready _ _ Hl) as (_ & _ & _ & P3 & _). split.
  - unfold release. rewrite merged_ready, merged_pending by done. rewrite app_nil_r. apply merge_prio_perm.
  - intros q Hq H1 H2. unfold release, merged. by rewrite !fn_lookup_insert_ne.
Qed.

Lemma same_tasks_readd m D T l1 x l2 :
  lists_ok m T → T g_readytorun = l1 ++ x :: l2 → same_tasks T (add_ready D (<[g_readytorun:=l1 ++ l2]> T) x).
Proof.
  intros Hl E. pose proof (prioritized_ready _ _ Hl) as (_ & _ & _ & P3 & _). unfold add_ready. split.
  - rewrite E. destruct (held _ _ _).
    + rewrite fn_lookup_insert, !(fn_lookup_insert_ne _ g_pendingtasks), fn_lookup_insert by done.
      rewrite fn_lookup_insert_ne by done. rewrite insert_prio_perm. by rewrite <-!Permutation_middle.
    + rewrite !fn_lookup_insert, !fn_lookup_insert_ne by done. rewrite insert_prio_perm.
      by rewrite <-Permutation_middle.
  - intros q Hq H1 H2. destruct (held _ _ _); by rewrite !fn_lookup_insert_ne.
Qed.

(** ** up_release_pending *)
Lemma up_release_pending_spec irq s T :
  rqs s T → k_running s = running T →
  let T' := release (k_tcbs s) T in
  returns (up_release_pending irq) s (λ b s', rqs s' T' ∧ k_running s' = running T' ∧
    same_but_state (k_tcbs s) (k_tcbs s') ∧ kept s s' ∧ b = negb irq && negb (running T' =? running T)).
Proof.
  intros Hok Hrun T'. unfold up_release_pending. apply returns_bind.
  eapply returns_rtr_head; [by apply (rq_lists _ _ _ Hok)|].
  apply returns_bind. eapply returns_mono; [by apply sched_mergepending_spec|].
  intros r s1 (Hmv & Hok1 & ->). fold (release (k_tcbs s) T) in Hok1. fold T' in Hok1. case_bool_decide as Hr.
  - eapply returns_mono; [by apply up_switch_spec|]. intros b s2 (-> & ->).
    split_and!; try done; [apply Hmv|by apply (moved_kept s s1)].
  - apply returns_ret.
    assert (HT : running T' = running T) by (unfold T'; rewrite release_running; unfold running, hd_or; by rewrite Hr).
    rewrite HT, Z.eqb_refl, andb_false_r. split_and!; try done; [|apply Hmv|by apply moved_kept].
    by destruct Hmv as (_ & _ & -> & _).
Qed.

(** ** up_reprioritize_rtr *)
Definition reprio D x p : gmap Z tcb_s := alter (set_priority p) x D.

Lemma lock_reprio D x p y : lock (reprio D x p) y = lock D y.
Proof. by apply lock_alter. Qed.

Lemma prio_reprio_ne D x p y : y ≠ x → prio (reprio D x p) y = prio D y.
Proof. intros Hy. unfold prio, reprio. by rewrite lookup_alter_ne. Qed.

Lemma prio_reprio_eq D x p t : D !! x = Some t → prio (reprio D x p) x = p.
Proof. intros Ht. unfold prio, reprio. by rewrite lookup_alter_eq, Ht. Qed.

Definition reprio_lists D T l1 x l2 : Z → list Z :=
  let T2 := add_ready D (<[g_readytorun:=l1 ++ l2]> T) x in
  if xorb (bool_decide (l1 = [])) (bool_decide (running T2 = x)) then release D T2 else T2.

Lemma reprio_lists_ok m D T l1 x l2 :
  rq_ok m D T → T g_readytorun = l1 ++ x :: l2 → x ≠ g_idletcb →
  T g_pendingtasks = [] ∨ lock D (running T) ≠ 0 →
  ∀ D', let T' := reprio_lists D' T l1 x l2 in
  (∀ y, lock D' y = lock D y) →
  (T' g_pendingtasks = [] ∨ lock D' (running T') ≠ 0) ∧ same_tasks T T'.
Proof.
  intros Hok E Hx Hpend D' T' Hlk. pose proof (rq_lists _ _ _ Hok) as Hl.
  pose proof (prioritized_ready _ _ Hl) as (_ & _ & _ & P3 & _).
  set (T1 := <[g_readytorun:=l1 ++ l2]> T). set (T2 := add_ready D' T1 x).
  assert (Hst2 : same_tasks T T2) by (by eapply same_tasks_readd).
  unfold T', reprio_lists. fold T1 T2.
  destruct (xorb _ _) eqn:Ex.
  { split; [left; unfold release; by apply merged_pending|]. etrans; [done|].
    split.
    - unfold release. rewrite merged_ready, merged_pending by done. rewrite app_nil_r. apply merge_prio_perm.
    - intros q Hq H1 H2. unfold release, merged. by rewrite !fn_lookup_insert_ne. }
  split; [|done]. apply xorb_eq in Ex. rewrite Hlk.
  pose proof (ready_rest _ _ _ _ _ _ Hok E Hx) as [r Er].
  assert (Hx1 : x ∉ l1 ++ l2).
  { pose proof (lists_nodup _ _ _ Hl ready_in) as Hnd. rewrite E in Hnd.
    apply NoDup_app in Hnd as (_ & Hnd & [Hn _]%NoDup_cons). set_solver. }
  assert (HR1 : running T1 = hd_or NULL (l1 ++ l2)) by apply running_upd.
  assert (HR1x : running T1 ≠ x).
  { rewrite HR1. destruct l1, l2; simpl in *; try (by destruct r); intros <-; set_solver. }
  destruct (add_ready_running D' T1 x) as [HR2|HR2]; [|done|fold T2 in HR2..].
  { unfold T1. rewrite fn_lookup_insert. by destruct l1, l2; destruct r. }
  - rewrite (bool_decide_eq_false_2 (running T2 = x)) in Ex by (by rewrite HR2).
    apply bool_decide_eq_false in Ex.
    assert (HR : running T1 = running T) by (rewrite HR1; unfold running; rewrite E; by destruct l1).
    rewrite HR2, HR. unfold T2, add_ready. destruct (held D' T1 x) eqn:Hh.
    + right. unfold held in Hh. rewrite HR, Hlk in Hh. lia.
    + destruct Hpend as [Hp|Hp]; [left|by right]. unfold T1. by rewrite !fn_lookup_insert_ne.
  - rewrite (bool_decide_eq_true_2 (running T2 = x)) in Ex by done. rewrite HR2. apply bool_decide_eq_true in Ex.
    assert (HR : running T = x) by (unfold running; rewrite E, Ex; done). rewrite HR in Hpend.
    destruct Hpend as [Hp|Hp]; [left|by right]. unfold T2, add_ready in *. destruct (held D' T1 x) eqn:Hh.
    + exfalso. apply HR1x. rewrite <-HR2. unfold running. by rewrite fn_lookup_insert_ne.
    + unfold T1. by rewrite !fn_lookup_insert_ne.
Qed.

Lemma reprio_lists_ext D D' T l1 x l2 :
  (∀ y, prio D y = prio D' y) → (∀ y, lock D y = lock D' y) →
  reprio_lists D T l1 x l2 = reprio_lists D' T l1 x l2.
Proof. intros Hp Hk. unfold reprio_lists. rewrite (add_ready_ext D D') by done. by rewrite (release_ext D D'). Qed.

Lemma up_reprioritize_rtr_spec irq s T l1 x l2 p :
  rqs s T → k_running s = running T → T g_readytorun = l1 ++ x :: l2 → x ≠ g_idletcb → 1 ≤ p ≤ 255 →
  let D1 := reprio (k_tcbs s) x p in
  let T' := reprio_lists D1 T l1 x l2 in
  returns (up_reprioritize_rtr irq x p) s (λ b s', rqs s' T' ∧ k_running s' = running T' ∧
    same_but_state D1 (k_tcbs s') ∧ kept s s' ∧ b = negb irq && negb (running T' =? running T)).
Proof.
  intros Hok Hrun E Hx Hp D1 T'. pose proof (rq_lists _ _ _ Hok) as Hl.
  destruct (rq_tcb _ _ _ Hok _ x ready_in) as (t & Ht & Hts); [rewrite E; set_solver|].
  pose proof (ready_rest _ _ _ _ _ _ Hok E Hx) as [r Er].
  pose proof (prioritized_ready _ _ Hl) as (_ & _ & _ & P3 & _).
  unfold up_reprioritize_rtr. apply returns_bind. eapply returns_tcb; [done|].
  apply returns_bind, returns_assert.
  { rewrite Hts, tstate_ready. unfold SCHED_PRIORITY_MIN. destruct (decide _); simpl; lia. }
  apply returns_bind. eapply returns_rtr_head; [done|].
  apply returns_bind. eapply returns_mono; [by apply sched_removereadytorun_spec|].
  intros r1 s1 (-> & Hmv1 & Hok1 & Hf1). destruct (same_but_state_some _ _ _ _ (proj1 Hmv1) Ht) as [v Ht1].
  apply returns_bind. eapply returns_updt; [exact Ht1|].
  set (t2 := set_priority p (set_state v t)). set (s2 := set_tcbs _ _). set (T1 := <[g_readytorun:=l1 ++ l2]> T) in *.
  assert (Hsb2 : same_but_state D1 (k_tcbs s2)).
  { subst s2 t2. simpl. apply (insert_alter _ _ _ _ v (set_priority p)); try done. apply Hmv1. }
  assert (Hp2 : ∀ y, prio (k_tcbs s2) y = prio D1 y) by (intros y; by apply same_but_state_prio).
  assert (Hk2 : ∀ y, lock (k_tcbs s2) y = lock D1 y) by (intros y; by apply same_but_state_lock).
  assert (Hok2 : rqs s2 T1) by (subst s2; by apply rq_field_free).
  apply returns_bind. eapply returns_mono; [apply (sched_addreadytorun_spec s2 T1 x t2); try done|].
  { subst s2. simpl. apply lookup_insert_eq. }
  intros r2 s3 (Hmv3 & Hok3 & ->). rewrite (add_ready_ext _ D1) in * by done. set (T2 := add_ready D1 T1 x) in *.
  assert (Hsb3 : same_but_state D1 (k_tcbs s3)) by (etrans; [exact Hsb2|apply Hmv3]).
  assert (Hk3 : kept s s3) by (etrans; [apply moved_kept, Hmv1|by apply (moved_kept s2)]).
  assert (Hrun3 : k_running s3 = running T).
  { destruct Hmv3 as (_ & _ & -> & _). simpl. by destruct Hmv1 as (_ & _ & -> & _). }
  unfold T', reprio_lists. fold T1 T2. destruct (xorb _ _) eqn:Ex.
  - eapply (release_spec s3 T2 (λ _, tt)); [done|done|]. intros s4 b Hmv4 Hok4 _.
    rewrite (release_ext _ D1) in Hok4 by (intros y; by apply same_but_state_prio).
    eapply returns_mono; [by apply up_switch_spec|]. intros b' s5 (-> & ->). split_and!; try done.
    + etrans; [exact Hsb3|apply Hmv4].
    + etrans; [exact Hk3|]. by apply (moved_kept s3 s4).
  - apply returns_ret. apply xorb_eq in Ex.
    assert (HT : running T2 = running T).
    { destruct (add_ready_running D1 T1 x) as [HT|HT]; [|done|fold T2 in HT..].
      { unfold T1. rewrite fn_lookup_insert. by destruct l1, l2; destruct r. }
      - destruct l1 as [|z l1].
        + rewrite bool_decide_eq_true_2 in Ex by done. symmetry in Ex. apply bool_decide_eq_true in Ex.
          rewrite Ex. unfold running. by rewrite E.
        + rewrite HT. unfold T1. rewrite running_upd. unfold running. by rewrite E.
      - rewrite (bool_decide_eq_true_2 (running T2 = x)) in Ex by done. apply bool_decide_eq_true in Ex.
        rewrite HT. unfold running. by rewrite E, Ex. }
    rewrite HT, Z.eqb_refl, andb_false_r. done.
Qed.
End SchedApi.
