(* ===== verification/SchedEntry.v ===== *)
(** The entries of the scheduler keep [sched_ok]: blocking, unblocking,
    locking, unlocking, changing priorities and the time slice. *)

From Stdlib Require Import Sorting.Sorted.
From stdpp Require Import functions.
From S2P Require Import Prelude Links Queue Sched SchedList SchedInv SchedOps SchedMerge SchedSwitch SchedKernel SchedApi.

Section SchedEntry.
Context `{Globals}.
Implicit Types (m : mem) (D : gmap Z tcb_s) (T : Z → list Z) (s : kstate) (q x y : Z) (irq : bool).

Lemma locks_ok_alter D D' x f :
  (∀ t, lockcount (f t) = lockcount t) → same_but_state (alter f x D) D' → locks_ok D → locks_ok D'.
Proof.
  intros Hf Hs Hl. eapply locks_ok_same; [exact Hs|]. intros y t Hy.
  destruct (decide (y = x)) as [->|]; [|rewrite lookup_alter_ne in Hy by done; by eapply Hl].
  rewrite lookup_alter_eq in Hy. destruct (D !! x) as [t0|] eqn:E; [|done]. injection Hy as <-. rewrite Hf.
  by eapply Hl.
Qed.

(** The running task blocks. *)
Lemma block_ok irq s T l2 st :
  sched_ok s T → T g_readytorun = running T :: l2 → running T ≠ g_idletcb → is_blocked_state st = true →
  let T' := block_lists (k_tcbs s) T [] (running T) l2 st in
  returns (up_block_task irq (running T) st) s (λ b s', sched_ok s' T' ∧
    same_but_state (k_tcbs s) (k_tcbs s') ∧ kept s s' ∧ b = negb irq).
Proof.
  intros Hok E Hx Hst T'. pose proof (so_rq _ _ Hok) as Hrq.
  eapply returns_mono; [apply (up_block_task_spec irq s T [] (running T) l2 st); try done; apply Hok|].
  intros b s' (Hrq' & Hrun' & Hsb & Hk & ->). fold T' in Hrq', Hrun' |- *.
  assert (Hpend : T' g_pendingtasks = []).
  { apply merged_pending. by apply (prioritized_ready _ _ (rq_lists _ _ _ Hrq)). }
  split_and!; try done.
  - split; try done; [by left|]. eapply locks_ok_same; [exact Hsb|apply Hok].
  - rewrite (proj2 (Z.eqb_neq _ _)), andb_true_r; [done|]. intros Hr.
    pose proof (rq_lists _ _ _ Hrq) as Hl. pose proof (rq_lists _ _ _ Hrq') as Hl'.
    destruct (blocked_list _ _ _ Hl Hst) as (_ & Hq & Hq1 & Hq2 & _).
    destruct (running_head _ _ _ Hrq') as [r Er]. apply Hq1.
    eapply (lists_unique _ T' _ _ (running T)); [exact Hl'|done|apply ready_in| |rewrite Er, Hr; set_solver].
    unfold T', block_lists, release, merged. rewrite !(fn_lookup_insert_ne _ _ (tasklist_of st).1) by done.
    unfold add_blocked. rewrite fn_lookup_insert. destruct (_.2); [apply insert_prio_elem; by left|set_solver].
Qed.

(** A blocked task becomes ready. *)
Lemma add_ready_pend D T x :
  T g_readytorun ≠ [] → g_pendingtasks ≠ g_readytorun → T g_pendingtasks = [] ∨ lock D (running T) ≠ 0 →
  add_ready D T x g_pendingtasks = [] ∨ lock D (running (add_ready D T x)) ≠ 0.
Proof.
  intros HT P3 Hp. destruct (held D T x) eqn:Hh.
  - right. unfold add_ready. rewrite Hh. unfold running at 1. rewrite fn_lookup_insert_ne by done.
    unfold held in Hh. unfold running in Hh. lia.
  - destruct (add_ready_running D T x HT P3) as [->| Hr].
    + unfold add_ready. rewrite Hh, fn_lookup_insert_ne by done. done.
    + unfold add_ready in *. rewrite Hh in *. rewrite running_upd in *. rewrite fn_lookup_insert_ne by done.
      destruct Hp as [Hp|Hp]; [by left|]. unfold held, running in *. destruct (T g_readytorun) as [|y l]; [done|].
      rewrite !hd_or_cons in *. simpl. destruct (prio D x <=? prio D y) eqn:El; [by right|].
      exfalso. assert ((lock D y =? 0) = false) by lia. lia.
Qed.

Lemma unblock_ok irq s T q l1 x l2 :
  sched_ok s T → q ∈ queues → q ≠ g_readytorun → q ≠ g_pendingtasks → T q = l1 ++ x :: l2 →
  let T' := unblock_lists (k_tcbs s) T q l1 x l2 in
  returns (up_unblock_task irq x) s (λ b s', sched_ok s' T' ∧
    same_but_state (unblock_tcb (k_tcbs s) x) (k_tcbs s') ∧ kept s s' ∧
    b = negb irq && negb (running T' =? running T)).
Proof.
  intros Hok Hq H1 H2 E T'. pose proof (so_rq _ _ Hok) as Hrq.
  pose proof (prioritized_ready _ _ (rq_lists _ _ _ Hrq)) as (_ & _ & _ & P3 & _).
  eapply returns_mono; [eapply (up_unblock_task_spec irq s T q); try done; apply Hok|].
  intros b s' (Hrq' & Hrun' & Hsb & Hk & ->). fold T' in Hrq', Hrun' |- *. split_and!; try done.
  assert (Hlk : ∀ y, lock (k_tcbs s') y = lock (k_tcbs s) y).
  { intros y. rewrite (same_but_state_lock _ _ _ Hsb). by apply lock_alter. }
  split; try done.
  - rewrite Hlk. apply add_ready_pend; [|done|].
    + rewrite fn_lookup_insert_ne by done. by destruct (running_head _ _ _ Hrq) as [r ->].
    + unfold running. rewrite !fn_lookup_insert_ne by done. apply Hok.
  - eapply locks_ok_alter; [|exact Hsb|apply Hok]. done.
Qed.

(** Locking. *)
Lemma head_tcb s T : rqs s T → ∃ t, k_tcbs s !! running T = Some t ∧ running T ≠ NULL.
Proof.
  intros Hrq. destruct (running_head _ _ _ Hrq) as [r Er].
  destruct (rq_tcb _ _ _ Hrq _ (running T) ready_in) as (t & Ht & _); [rewrite Er; set_solver|].
  exists t. split; [done|]. pose proof (lo_repr _ _ (rq_lists _ _ _ Hrq) _ ready_in) as (_ & _ & _ & _ & Hn).
  rewrite Er, Forall_cons in Hn. apply Hn.
Qed.

Lemma sched_ok_field s T x t t' :
  sched_ok s T → k_tcbs s !! x = Some t → task_state t' = task_state t → sched_priority t' = sched_priority t →
  0 ≤ lockcount t' ≤ MAX_LOCK_COUNT → T g_pendingtasks = [] ∨ x ≠ running T ∨ lockcount t' ≠ 0 →
  sched_ok (set_tcbs (<[x:=t']> (k_tcbs s)) s) T.
Proof.
  intros Hok Ht Hs Hp Hl Hpd. split; simpl.
  - eapply rq_field; try done. apply Hok.
  - apply Hok.
  - destruct (so_pend _ _ Hok) as [?|Hk]; [by left|]. destruct Hpd as [?|Hpd]; [by left|right].
    unfold lock in *. destruct (decide (x = running T)) as [->|]; [|by rewrite lookup_insert_ne].
    rewrite lookup_insert_eq. simpl. by destruct Hpd.
  - apply locks_ok_upd; [apply Hok|done].
Qed.

Lemma sched_lock_ok s T t :
  sched_ok s T → k_tcbs s !! running T = Some t → lockcount t < MAX_LOCK_COUNT →
  returns (sched_lock false) s (λ _ s', sched_ok s' T ∧
    s' = set_tcbs (<[running T:=set_lockcount (lockcount t + 1) t]> (k_tcbs s)) s).
Proof.
  intros Hok Ht Hlt. pose proof (so_rq _ _ Hok) as Hrq. destruct (head_tcb _ _ Hrq) as (_ & _ & Hn).
  pose proof (so_lock _ _ Hok _ _ Ht) as Hl. unfold sched_lock. apply returns_bind.
  eapply returns_rtr_head; [apply (rq_lists _ _ _ Hrq)|]. unfold nonnull. rewrite (proj2 (Z.eqb_neq _ _)) by done. simpl.
  apply returns_bind. eapply returns_tcb; [done|]. apply returns_bind, returns_assert; [lia|].
  eapply returns_updt; [done|]. split; [|done]. eapply sched_ok_field; try done; simpl; [lia|]. right; right. lia.
Qed.

(** The lists after sched_unlock: the last unlock releases the pending tasks. *)
Definition unlock_lists s T : Z → list Z :=
  if lock (k_tcbs s) (running T) <=? 1 then release (k_tcbs s) T else T.

Lemma sched_unlock_rr_none s T x t :
  k_tcbs s !! x = Some t → lists_ok (k_mem s) T →
  Z.land (flags t) TCB_FLAG_ROUND_ROBIN = 0 ∨ timeslice t ≠ 0 ∨ running T = x →
  returns (sched_unlock_rr x) s (λ _ s', s' = s).
Proof.
  intros Ht Hl Hc. unfold sched_unlock_rr. apply returns_bind. eapply returns_tcb; [done|].
  destruct (negb _ && _) eqn:Eb; [|by apply returns_ret]. apply returns_bind.
  eapply returns_rtr_head; [done|]. destruct Hc as [Hc|[Hc| ->]]; [lia|lia|]. rewrite Z.eqb_refl. by apply returns_ret.
Qed.

Lemma sched_ok_release s T s' D E :
  sched_ok s T → let T' := release D T in
  rqs s' T' → k_running s' = running T' → same_but_state E (k_tcbs s') → locks_ok E → sched_ok s' T'.
Proof.
  intros Hok T' Hrq' Hrun' Hsb Hl. split; try done.
  - left. apply merged_pending. by apply (prioritized_ready _ _ (rq_lists _ _ _ (so_rq _ _ Hok))).
  - by eapply locks_ok_same.
Qed.

Lemma sched_unlock_ok s T t ret :
  sched_ok s T → k_tcbs s !! running T = Some t →
  let T' := unlock_lists s T in
  returns (sched_unlock false ret) s (λ r s', sched_ok s' T' ∧ kept s s' ∧
    same_but_state (<[running T:=set_lockcount (Z.max 0 (lockcount t - 1)) t]> (k_tcbs s)) (k_tcbs s') ∧
    r = if running T' =? running T then Returned ret else Suspended (RUnlock (running T) ret)).
Proof.
  intros Hok Ht T'. pose proof (so_rq _ _ Hok) as Hrq. destruct (head_tcb _ _ Hrq) as (_ & _ & Hn).
  pose proof (so_lock _ _ Hok _ _ Ht) as Hl. pose proof (rq_lists _ _ _ Hrq) as Hls.
  unfold sched_unlock. apply returns_bind. eapply returns_rtr_head; [done|].
  unfold nonnull at 1. rewrite (proj2 (Z.eqb_neq _ _)) by done. simpl. apply returns_bind. eapply returns_tcb; [done|].
  set (t1 := set_lockcount (Z.max 0 (lockcount t - 1)) t).
  apply returns_bind.
  assert (Hdec : returns (if negb (lockcount t =? 0) then updt (running T) (set_lockcount (lockcount t - 1)) else mret tt) s
    (λ _ s1, s1 = set_tcbs (<[running T:=t1]> (k_tcbs s)) s)).
  { destruct (negb _) eqn:E0.
    - eapply returns_updt; [done|]. unfold t1. by replace (Z.max 0 (lockcount t - 1)) with (lockcount t - 1) by lia.
    - apply returns_ret. unfold t1. replace (Z.max 0 (lockcount t - 1)) with (lockcount t) by lia.
      rewrite insert_id; [by destruct s|]. by destruct t. }
  eapply returns_mono; [exact Hdec|]. intros [] s1 ->. apply returns_bind.
  eapply returns_tcb; [apply lookup_insert_eq|]. unfold T', unlock_lists. rewrite (lock_some _ _ _ Ht).
  change (lockcount t1) with (Z.max 0 (lockcount t - 1)). destruct (_ <=? 0) eqn:E0.
  - rewrite (proj2 (Z.leb_le (lockcount t) 1)) by lia. apply returns_bind. eapply returns_updt; [apply lookup_insert_eq|].
    set (s2 := set_tcbs (<[running T:=t1]> (k_tcbs s)) s).
    assert (E2 : set_tcbs (<[running T:=set_lockcount 0 t1]> (k_tcbs s2)) s2 = s2).
    { unfold s2, set_tcbs. simpl. rewrite insert_insert_eq. do 2 f_equal. unfold t1, set_lockcount. simpl.
      f_equal. lia. }
    rewrite E2.
    assert (Hrq2 : rqs s2 T) by (subst s2; by eapply rq_field).
    assert (Hp2 : ∀ y, prio (k_tcbs s2) y = prio (k_tcbs s) y).
    { intros y. subst s2. unfold prio. simpl. destruct (decide (y = running T)) as [->|]; [|by rewrite lookup_insert_ne].
      by rewrite lookup_insert_eq, Ht. }
    assert (Hl2 : locks_ok (k_tcbs s2)) by (apply locks_ok_upd; [apply Hok|simpl; lia]).
    apply returns_bind. eapply returns_pnd_head; [done|].
    assert (Hstop : returns (if nonnull (hd_or NULL (T g_pendingtasks)) then up_release_pending false else mret false) s2
      (λ b s', sched_ok s' (release (k_tcbs s) T) ∧ same_but_state (k_tcbs s2) (k_tcbs s') ∧ kept s s' ∧
        b = negb (running (release (k_tcbs s) T) =? running T))).
    { destruct (T g_pendingtasks) as [|z P] eqn:EP.
      - rewrite hd_or_nil. apply returns_ret. pose proof (release_none (k_tcbs s) T EP) as Hrel.
        rewrite (running_same _ _ Hrel), Z.eqb_refl. split_and!; try done.
        apply (sched_ok_release s T s2 (k_tcbs s) (k_tcbs s2)); try done; [unfold rqs; by rewrite Hrel|].
        rewrite (running_same _ _ Hrel). apply Hok.
      - pose proof (lo_repr _ _ Hls _ pending_in) as (_ & _ & _ & _ & Hz). rewrite EP, Forall_cons in Hz.
        rewrite hd_or_cons. unfold nonnull. rewrite (proj2 (Z.eqb_neq _ _)) by apply Hz. simpl.
        eapply returns_mono; [apply (up_release_pending_spec false s2 T Hrq2), Hok|].
        intros b s' (A1 & A2 & A3 & A4 & ->). rewrite (release_ext (k_tcbs s2) (k_tcbs s)) in A1, A2 |- * by done.
        split_and!; try done.
        by apply (sched_ok_release s T s' (k_tcbs s) (k_tcbs s2)). }
    apply returns_bind. eapply returns_mono; [exact Hstop|]. intros b s' (Hok' & Hsb & Hk & ->).
    destruct (running (release (k_tcbs s) T) =? running T) eqn:Er; cbn [negb].
    + destruct (same_but_state_some _ _ (running T) t1 Hsb (lookup_insert_eq _ _ _)) as [v Hv].
      apply returns_bind. eapply returns_mono; [eapply (sched_unlock_rr_none _ _ _ _ Hv)|].
      { apply (rq_lists _ _ _ (so_rq _ _ Hok')). } { right; right. lia. }
      intros [] s'' ->. by apply returns_ret.
    + by apply returns_ret.
  - rewrite (proj2 (Z.leb_gt (lockcount t) 1)) by lia. rewrite Z.eqb_refl. apply returns_ret. split_and!; try done.
    eapply sched_ok_field; try done; simpl; lia.
Qed.
End SchedEntry.
