(* ===== verification/SchedPrio.v ===== *)
(** sched_setpriority, on every branch, and the time slice. *)

From Stdlib Require Import Sorting.Sorted.
From stdpp Require Import functions.
From S2P Require Import Prelude Links Queue Sched SchedList SchedInv SchedOps SchedMerge SchedSwitch SchedKernel SchedApi SchedEntry.

Section SchedPrio.
Context `{Globals}.
Implicit Types (m : mem) (D : gmap Z tcb_s) (T : Z → list Z) (s : kstate) (q x y : Z) (irq : bool).

(** The result of a call that returns [ret]: the task is suspended when
    another one runs now. *)
Definition switched irq T T' (ret : Z) : result :=
  if negb irq && negb (running T' =? running T) then Suspended (RReturn ret) else Returned ret.

Lemma switched_same irq T T' ret : running T' = running T → switched irq T T' ret = Returned ret.
Proof. intros E. unfold switched. by rewrite E, Z.eqb_refl, andb_false_r. Qed.

Lemma reprio_insert D x p t : D !! x = Some t → reprio D x p = <[x:=set_priority p t]> D.
Proof.
  intros Ht. apply map_eq. intros y. unfold reprio. destruct (decide (y = x)) as [->|].
  - by rewrite lookup_alter_eq, lookup_insert_eq, Ht.
  - by rewrite lookup_alter_ne, lookup_insert_ne.
Qed.

(** Raising the head of a list, or a task of a list that is not prioritized. *)
Lemma rq_reprio_stay m D T q x t p :
  rq_ok m D T → q ∈ queues → x ∈ T q → x ≠ g_idletcb → D !! x = Some t → 1 ≤ p ≤ 255 →
  (prioritized q → ∃ l, T q = x :: l ∧ ∀ y, y ∈ l → prio D y ≤ p) →
  rq_ok m (<[x:=set_priority p t]> D) T.
Proof.
  intros Hok Hq Hin Hx Ht Hp Hpr.
  assert (Hne : ∀ y, y ≠ x → prio (<[x:=set_priority p t]> D) y = prio D y).
  { intros y Hy. unfold prio. by rewrite lookup_insert_ne. }
  assert (Heq : prio (<[x:=set_priority p t]> D) x = p) by (unfold prio; by rewrite lookup_insert_eq).
  split; try apply Hok.
  - intros q' y Hq' Hy. destruct (rq_tcb _ _ _ Hok q' y Hq' Hy) as (ty & Hty & Hst).
    destruct (decide (y = x)) as [->|]; [|rewrite lookup_insert_ne by done; by eexists].
    rewrite lookup_insert_eq. eexists. split; [done|]. simpl. congruence.
  - intros q' Hq' Hp'. pose proof (rq_desc _ _ _ Hok q' Hq' Hp') as Hd. destruct (decide (q' = q)) as [->|Hqq].
    + destruct (Hpr Hp') as (l & E & Hl). pose proof (lists_nodup _ _ _ (rq_lists _ _ _ Hok) Hq) as Hnd.
      rewrite E in *. apply NoDup_cons in Hnd as [Hnx _]. apply StronglySorted_inv in Hd as [Hd _]. constructor.
      * eapply desc_ext, Hd. intros y Hy. symmetry. apply Hne. by intros ->.
      * apply Forall_forall. intros y Hy. rewrite Heq, Hne by (by intros ->). auto.
    + eapply desc_ext, Hd. intros y Hy. symmetry. apply Hne. intros ->. apply Hqq.
      by eapply (lists_unique _ _ _ _ x (rq_lists _ _ _ Hok)).
  - rewrite Hne by done. apply Hok.
  - intros q' y Hq' Hy Hyi. destruct (decide (y = x)) as [->|]; [by rewrite Heq|].
    rewrite Hne by done. by apply (rq_prio _ _ _ Hok q').
Qed.

Definition setprio_post irq s T x p (r : result) (s' : kstate) : Prop :=
  ∃ T', sched_ok s' T' ∧ same_tasks T T' ∧ same_but_state (reprio (k_tcbs s) x p) (k_tcbs s') ∧ kept s s' ∧
    r = switched irq T T' OK.

Lemma setprio_stay irq s T q x t p :
  sched_ok s T → q ∈ queues → x ∈ T q → x ≠ g_idletcb → k_tcbs s !! x = Some t → 1 ≤ p ≤ 255 →
  (prioritized q → ∃ l, T q = x :: l ∧ ∀ y, y ∈ l → prio (k_tcbs s) y ≤ p) →
  setprio_post irq s T x p (Returned OK) (set_tcbs (<[x:=set_priority p t]> (k_tcbs s)) s).
Proof.
  intros Hok Hq Hin Hx Ht Hp Hpr. exists T. rewrite switched_same by done. rewrite (reprio_insert _ _ _ t) by done.
  split_and!; try done. split; simpl.
  - eapply rq_reprio_stay; try done. apply Hok.
  - apply Hok.
  - destruct (so_pend _ _ Hok) as [?|Hk]; [by left|right]. rewrite <-(reprio_insert _ _ _ t), lock_reprio; done.
  - apply locks_ok_upd; [apply Hok|]. simpl. by apply (so_lock _ _ Hok x).
Qed.

Lemma setprio_rtr irq s T l1 x l2 p :
  sched_ok s T → T g_readytorun = l1 ++ x :: l2 → x ≠ g_idletcb → 1 ≤ p ≤ 255 →
  returns (up_reprioritize_rtr irq x p) s (λ b s',
    setprio_post irq s T x p (if b : bool then Suspended (RReturn OK) else Returned OK) s').
Proof.
  intros Hok E Hx Hp. pose proof (so_rq _ _ Hok) as Hrq.
  eapply returns_mono; [apply (up_reprioritize_rtr_spec irq s T l1 x l2 p); try done; apply Hok|].
  intros b s' (Hrq' & Hrun' & Hsb & Hk & ->). eexists. split_and!; [| |done|done|done].
  - split; [exact Hrq'|exact Hrun'| |].
    + rewrite (same_but_state_lock _ _ _ Hsb).
      apply (reprio_lists_ok _ _ _ _ _ _ Hrq E Hx (so_pend _ _ Hok)). intros y. apply lock_reprio.
    + eapply locks_ok_alter; [|exact Hsb|apply Hok]. done.
  - apply (reprio_lists_ok _ _ _ _ _ _ Hrq E Hx (so_pend _ _ Hok)). intros y. apply lock_reprio.
Qed.

(** A ready task whose new priority does not exceed the running task's. *)
Lemma setprio_behind irq s T z l1 x l2 p :
  sched_ok s T → T g_readytorun = z :: l1 ++ x :: l2 → x ≠ g_idletcb → 1 ≤ p ≤ 255 →
  p ≤ prio (k_tcbs s) z →
  returns (removed ← sched_removereadytorun x; assert (negb removed);;
           updt x (set_priority p);; added ← sched_addreadytorun x; assert (negb added);;
           mret (Returned OK)) s (setprio_post irq s T x p).
Proof.
  intros Hok E Hx Hp Hle. pose proof (so_rq _ _ Hok) as Hrq. pose proof (rq_lists _ _ _ Hrq) as Hl.
  destruct (rq_tcb _ _ _ Hrq _ x ready_in) as (t & Ht & _); [rewrite E; set_solver|].
  assert (Hzx : z ≠ x).
  { pose proof (lists_nodup _ _ _ Hl ready_in) as Hnd. rewrite E in Hnd. apply NoDup_cons in Hnd as [Hz _]. set_solver. }
  pose proof (prioritized_ready _ _ Hl) as (_ & _ & _ & P3 & _).
  apply returns_bind. eapply returns_mono; [by apply (sched_removereadytorun_spec s T (z :: l1) x l2)|].
  intros r s1 (-> & Hmv1 & Hok1 & Hf1). rewrite bool_decide_eq_false_2 by done.
  apply returns_bind, returns_assert; [done|]. destruct (same_but_state_some _ _ _ _ (proj1 Hmv1) Ht) as [v Ht1].
  apply returns_bind. eapply returns_updt; [exact Ht1|].
  set (t2 := set_priority p (set_state v t)). set (s2 := set_tcbs _ _).
  set (T1 := <[g_readytorun:=(z :: l1) ++ l2]> T) in *. set (D1 := reprio (k_tcbs s) x p).
  assert (Hsb2 : same_but_state D1 (k_tcbs s2)).
  { subst s2 t2. simpl. apply (insert_alter _ _ _ _ v (set_priority p)); try done. apply Hmv1. }
  assert (Hp2 : ∀ y, prio (k_tcbs s2) y = prio D1 y) by (intros y; by apply same_but_state_prio).
  assert (Hok2 : rqs s2 T1) by (subst s2; by apply rq_field_free).
  assert (HR1 : running T1 = z) by (unfold T1; by rewrite running_upd).
  assert (HRT : running T = z) by (unfold running; by rewrite E).
  assert (Hcmp : (prio D1 x <=? prio D1 z) = true).
  { unfold D1. rewrite (prio_reprio_eq _ _ _ _ Ht), prio_reprio_ne by done. lia. }
  assert (Hheld : held D1 T1 x = false) by (unfold held; rewrite HR1; lia).
  apply returns_bind. eapply returns_mono; [apply (sched_addreadytorun_spec s2 T1 x t2); try done|].
  { subst s2. simpl. apply lookup_insert_eq. }
  intros r2 s3 (Hmv3 & Hok3 & ->).
  rewrite (add_ready_ext _ D1) in * by (intros y; (by apply same_but_state_prio) || by apply same_but_state_lock).
  set (T2 := add_ready D1 T1 x) in *.
  assert (HR2 : running T2 = z).
  { unfold T2, add_ready. rewrite Hheld, running_upd. unfold T1. rewrite fn_lookup_insert. simpl. by rewrite Hcmp. }
  rewrite bool_decide_eq_false_2 by (by rewrite HR2). apply returns_bind, returns_assert; [done|]. apply returns_ret.
  assert (Hsb3 : same_but_state D1 (k_tcbs s3)) by (etrans; [exact Hsb2|apply Hmv3]).
  assert (Hlk : ∀ y, lock (k_tcbs s3) y = lock (k_tcbs s) y).
  { intros y. rewrite (same_but_state_lock _ _ _ Hsb3). apply lock_reprio. }
  exists T2. rewrite switched_same by congruence. split_and!; try done.
  - split; [done| | |].
    + rewrite HR2. destruct Hmv3 as (_ & _ & -> & _). simpl. destruct Hmv1 as (_ & _ & -> & _).
      rewrite (so_run _ _ Hok). done.
    + rewrite Hlk, HR2. destruct (so_pend _ _ Hok) as [Hpd|Hpd]; [left|right; by rewrite <-HRT].
      unfold T2, add_ready. rewrite Hheld. unfold T1. by rewrite !fn_lookup_insert_ne.
    + eapply locks_ok_alter; [|exact Hsb3|apply Hok]. done.
  - by eapply (same_tasks_readd _ D1 T (z :: l1)).
  - etrans; [apply moved_kept, Hmv1|]. by apply (moved_kept s2).
Qed.

(** A task of another prioritized list. *)
Lemma setprio_list irq s T q l1 x l2 p :
  sched_ok s T → q ∈ queues → q ≠ g_readytorun → prioritized q → T q = l1 ++ x :: l2 → 1 ≤ p ≤ 255 →
  returns (klinks (dq_rem x q);; updt x (set_priority p);; _ ← sched_addprioritized x q; mret tt) s
    (λ _, setprio_post irq s T x p (Returned OK)).
Proof.
  intros Hok Hq Hne Hpr E Hp. pose proof (so_rq _ _ Hok) as Hrq. pose proof (rq_lists _ _ _ Hrq) as Hl.
  destruct (rq_tcb _ _ _ Hrq q x Hq) as (t & Ht & Hst); [rewrite E; set_solver|].
  pose proof (lo_repr _ _ Hl _ Hq) as Hr. rewrite E in Hr.
  apply returns_bind, returns_klinks. eapply returns_mono; [by apply dq_rem_spec|]. intros [] m1 (Hpost & _).
  destruct (rq_removed (k_mem s) (k_tcbs s) T m1 (k_tcbs s) q l1 x l2) as (Hrq1 & Hf1 & Hxi); try done.
  apply returns_bind. eapply returns_updt; [exact Ht|]. set (t2 := set_priority p t). set (s2 := set_tcbs _ _).
  set (T1 := <[q:=l1 ++ l2]> T) in *.
  assert (Hok2 : rqs s2 T1) by (subst s2; by apply rq_field_free).
  assert (Ht2 : k_tcbs s2 !! x = Some t2) by (subst s2; simpl; apply lookup_insert_eq).
  apply returns_bind. eapply returns_mono; [by apply (sched_add_spec s2 T1 x t2 q)|].
  intros r s3 (m3 & -> & _ & Hpost3). apply returns_ret.
  assert (Hrq3 : rq_ok m3 (k_tcbs s2) (<[q:=insert_prio (prio (k_tcbs s2)) x (T1 q)]> T1)).
  { rewrite <-(insert_id (k_tcbs s2) x t2) at 1 by done.
    replace t2 with (set_state (task_state t2) t2) at 1 by (by destruct t).
    eapply added_behind; try done; [by right|]. simpl. rewrite Hst. by apply tstate_ne. }
  set (T3 := <[q:=insert_prio (prio (k_tcbs s2)) x (T1 q)]> T1) in *. exists T3.
  assert (HR : running T3 = running T) by (unfold running, T3, T1; by rewrite !fn_lookup_insert_ne).
  rewrite switched_same by done. rewrite (reprio_insert _ _ _ t) by done. split_and!; try done.
  - split; simpl; [done| | |].
    + rewrite HR. apply Hok.
    + rewrite HR, <-(reprio_insert _ _ p t), lock_reprio by done.
      destruct (so_pend _ _ Hok) as [Hpd|]; [|by right]. left.
      unfold T3. rewrite fn_lookup_insert_ne; [unfold T1; rewrite fn_lookup_insert_ne; [done|]|];
        (intros Heq; rewrite <-Heq, E in Hpd; by destruct l1).
    + apply locks_ok_upd; [apply Hok|]. apply (so_lock _ _ Hok x t Ht).
  - pose proof (prioritized_ready _ _ Hl) as (_ & _ & _ & P3 & _).
    assert (Hperm : insert_prio (prio (k_tcbs s2)) x (T1 q) ≡ₚ T q).
    { rewrite insert_prio_perm. unfold T1. rewrite fn_lookup_insert, E. by rewrite Permutation_middle. }
    split.
    + unfold T3, T1. rewrite !(fn_lookup_insert_ne _ q g_readytorun) by done. f_equiv.
      destruct (decide (q = g_pendingtasks)) as [->|]; [by rewrite fn_lookup_insert|by rewrite !fn_lookup_insert_ne].
    + intros q' Hq' H1 H2. unfold T3. destruct (decide (q' = q)) as [->|]; [by rewrite fn_lookup_insert|].
      unfold T1. by rewrite !fn_lookup_insert_ne.
Qed.

Lemma sched_setpriority_ok irq s T q x p :
  sched_ok s T → q ∈ queues → x ∈ T q → x ≠ g_idletcb → 1 ≤ p ≤ 255 →
  returns (sched_setpriority irq x p) s (setprio_post irq s T x p).
Proof.
  intros Hok Hq Hin Hx Hp. pose proof (so_rq _ _ Hok) as Hrq. pose proof (rq_lists _ _ _ Hrq) as Hl.
  destruct (rq_tcb _ _ _ Hrq q x Hq Hin) as (t & Ht & Hst).
  unfold sched_setpriority. apply returns_bind. eapply returns_rtr_head; [done|].
  unfold SCHED_PRIORITY_MIN, SCHED_PRIORITY_MAX. replace ((p <? 1) || (255 <? p)) with false by lia.
  apply returns_bind. eapply returns_tcb; [done|]. rewrite Hst.
  pose proof Hin as (l1 & l2 & E)%list_elem_of_split. destruct (decide (q = g_readytorun)) as [->|Hne].
  - rewrite tstate_ready, E. destruct l1 as [|z l1].
    + rewrite decide_True by done. cbn [Z.eqb TSTATE_TASK_RUNNING]. change (TSTATE_TASK_RUNNING =? TSTATE_TASK_RUNNING) with true.
      pose proof (ready_rest _ _ _ _ _ _ Hrq E Hx) as [r Er]. destruct l2 as [|n l2]; [by destruct r|].
      pose proof (lo_repr _ _ Hl _ ready_in) as Hr. rewrite E in Hr. pose proof (dq_node [] _ _ Hr) as (N1 & _).
      apply returns_bind. eapply returns_kload; [unfold FLINK; rewrite Z.add_0_r; exact N1|]. rewrite hd_or_cons.
      destruct (rq_tcb _ _ _ Hrq _ n ready_in) as (tn & Htn & _); [rewrite E; set_solver|].
      apply returns_bind. eapply returns_tcb; [done|]. destruct (p <=? sched_priority tn) eqn:Ep.
      * apply returns_bind. eapply returns_mono; [by apply (setprio_rtr irq s T [] x (n :: l2) p)|].
        intros b s' Hpost. by apply returns_ret.
      * apply returns_bind. eapply returns_updt; [done|]. apply returns_ret.
        eapply setprio_stay; try done. intros _. exists (n :: l2). split; [done|].
        pose proof (prioritized_ready _ _ Hl) as (P1 & _). pose proof (rq_desc _ _ _ Hrq _ ready_in P1) as Hd.
        rewrite E in Hd. apply StronglySorted_inv in Hd as [Hd _]. apply StronglySorted_inv in Hd as [_ Hd].
        rewrite Forall_forall in Hd. rewrite (prio_some _ _ _ Htn) in Hd.
        intros y [->|Hy]%elem_of_cons; [rewrite (prio_some _ _ _ Htn); lia|]. specialize (Hd y Hy). simpl in Hd. lia.
    + assert (Hzx : z ≠ x).
      { pose proof (lists_nodup _ _ _ Hl ready_in) as Hnd. rewrite E in Hnd. apply NoDup_cons in Hnd as [Hz _]. set_solver. }
      rewrite decide_False by (simpl; congruence).
      change (TSTATE_TASK_READYTORUN =? TSTATE_TASK_RUNNING) with false.
      change (TSTATE_TASK_READYTORUN =? TSTATE_TASK_READYTORUN) with true. cbv iota.
      assert (HRT : running T = z) by (unfold running; by rewrite E). rewrite HRT.
      destruct (rq_tcb _ _ _ Hrq _ z ready_in) as (tz & Htz & _); [rewrite E; set_solver|].
      apply returns_bind. eapply returns_tcb; [done|]. destruct (sched_priority tz <? p) eqn:Ep.
      * apply returns_bind. eapply returns_mono; [by apply (setprio_rtr irq s T (z :: l1) x l2 p)|].
        intros b s' Hpost. by apply returns_ret.
      * eapply setprio_behind; try done. rewrite (prio_some _ _ _ Htz). lia.
  - destruct (tstate_list _ _ _ (T q) x Hl Hq Hne) as (Htab & Hlist & Hprl & Hn1 & Hn2 & _).
    rewrite (proj2 (Z.eqb_neq _ _) Hn1), (proj2 (Z.eqb_neq _ _) Hn2). cbv iota.
    apply returns_bind. eapply returns_tasklist; [done|]. destruct (tasklist_of _) as [q' b]. simpl in Hlist, Hprl. subst q'.
    apply returns_bind. destruct b.
    + eapply returns_mono; [by eapply (setprio_list irq s T q l1 x l2 p); try done; apply Hprl|].
      intros [] s' Hpost. by apply returns_ret.
    + eapply returns_updt; [done|]. apply returns_ret. eapply setprio_stay; try done. by intros ?%Hprl.
Qed.
End SchedPrio.
