(* ===== verification/SchedSlice.v ===== *)
(** Round-robin time slices, errno, and the tasks found in memory. *)

From Stdlib Require Import Sorting.Sorted.
From stdpp Require Import functions.
From S2P Require Import Prelude Links Queue Sched SchedList SchedInv SchedOps SchedMerge SchedSwitch SchedKernel SchedApi SchedEntry SchedPrio.

Section SchedSlice.
Context `{Globals}.
Implicit Types (m : mem) (D : gmap Z tcb_s) (T : Z → list Z) (s : kstate) (q x y : Z) (irq : bool).

Definition round_robin (t : tcb_s) : bool := negb (Z.land (flags t) TCB_FLAG_ROUND_ROBIN =? 0).

(** The slice of the running task [t] is used up and it may be preempted. *)
Definition slice_over (t : tcb_s) : bool := round_robin t && (timeslice t <=? 1) && (lockcount t =? 0).

(** The running task goes behind the ready tasks of its priority. *)
Definition rotate D T : Z → list Z :=
  <[g_readytorun:=insert_prio (prio D) (running T) (tail (T g_readytorun))]> T.

Definition slice_tcb (t : tcb_s) : tcb_s :=
  if slice_over t then set_timeslice RR_TICKS t
  else if round_robin t && (1 <? timeslice t) then set_timeslice (timeslice t - 1) t
  else t.

(** Rotating a list in order of priority is what reprioritizing does. *)
Lemma reprio_rotate m D T x n l2 :
  rq_ok m D T → T g_readytorun = x :: n :: l2 → T g_pendingtasks = [] → prio D x ≤ prio D n →
  same_lists (reprio_lists D T [] x (n :: l2)) (rotate D T).
Proof.
  intros Hok E Hpd Hle. pose proof (rq_lists _ _ _ Hok) as Hl.
  pose proof (prioritized_ready _ _ Hl) as (_ & _ & _ & P3 & _).
  assert (Hxn : n ≠ x).
  { pose proof (lists_nodup _ _ _ Hl ready_in) as Hnd. rewrite E in Hnd. apply NoDup_cons in Hnd as [Hx _]. set_solver. }
  unfold reprio_lists. simpl. set (T1 := <[g_readytorun:=n :: l2]> T).
  assert (HT2 : add_ready D T1 x = <[g_readytorun:=insert_prio (prio D) x (n :: l2)]> T1).
  { unfold add_ready. assert (Hr : running T1 = n) by (unfold T1; by rewrite running_upd).
    unfold held. rewrite Hr. replace (prio D n <? prio D x) with false by lia. rewrite andb_false_r.
    unfold T1. by rewrite fn_lookup_insert. }
  rewrite HT2. rewrite (bool_decide_eq_false_2 (running _ = x)).
  2:{ rewrite running_upd. simpl. replace (prio D x <=? prio D n) with true by lia. done. }
  simpl. rewrite release_none.
  2:{ rewrite fn_lookup_insert_ne by done. unfold T1. by rewrite fn_lookup_insert_ne. }
  unfold rotate, T1. rewrite same_lists_insert. rewrite E. unfold running. rewrite E. done.
Qed.

Lemma reprio_same D x t : D !! x = Some t → reprio D x (sched_priority t) = D.
Proof. intros Ht. rewrite (reprio_insert _ _ _ t) by done. apply insert_id. rewrite Ht. by destruct t. Qed.

Lemma sched_ok_same s T T' : same_lists T T' → sched_ok s T → sched_ok s T'.
Proof.
  intros He Hok. split.
  - unfold rqs. rewrite <-He. apply Hok.
  - rewrite <-(running_same _ _ He). apply Hok.
  - rewrite <-(running_same _ _ He), <-(He _ pending_in). apply Hok.
  - apply Hok.
Qed.

(** The lists after a tick: the running task is rotated when its slice is over
    and the next task has the same priority. *)
Definition slice_lists D T : Z → list Z :=
  match D !! running T, tail (T g_readytorun) with
  | Some t, n :: _ => if slice_over t && (prio D (running T) <=? prio D n) then rotate D T else T
  | _, _ => T
  end.

Lemma setprio_rotate irq s T n l2 t :
  sched_ok s T → T g_readytorun = running T :: n :: l2 → k_tcbs s !! running T = Some t →
  running T ≠ g_idletcb → T g_pendingtasks = [] → prio (k_tcbs s) (running T) ≤ prio (k_tcbs s) n →
  returns (up_reprioritize_rtr irq (running T) (sched_priority t)) s (λ _ s',
    sched_ok s' (rotate (k_tcbs s) T) ∧ same_but_state (k_tcbs s) (k_tcbs s') ∧ kept s s').
Proof.
  intros Hok E Ht Hx Hpd Hle. pose proof (so_rq _ _ Hok) as Hrq.
  pose proof (rq_prio _ _ _ Hrq _ (running T) ready_in ltac:(rewrite E; set_solver) Hx) as Hp.
  rewrite (prio_some _ _ _ Ht) in Hp.
  eapply returns_mono; [apply (up_reprioritize_rtr_spec irq s T [] (running T) (n :: l2)); try done; apply Hok|].
  rewrite reprio_same by done. intros b s' (Hrq' & Hrun' & Hsb & Hk & _). split; [|done].
  assert (He := reprio_rotate _ _ _ _ _ _ Hrq E Hpd Hle). split.
  - unfold rqs. by rewrite <-He.
  - by rewrite <-(running_same _ _ He).
  - left. unfold rotate.
    pose proof (prioritized_ready _ _ (rq_lists _ _ _ Hrq)) as (_ & _ & _ & P3 & _). by rewrite fn_lookup_insert_ne.
  - eapply locks_ok_same; [exact Hsb|apply Hok].
Qed.

Lemma sched_process_timeslice_ok irq s T t :
  sched_ok s T → k_tcbs s !! running T = Some t →
  returns (sched_process_timeslice irq) s (λ _ s', sched_ok s' (slice_lists (k_tcbs s) T) ∧ kept s s' ∧
    same_but_state (<[running T:=slice_tcb t]> (k_tcbs s)) (k_tcbs s')).
Proof.
  intros Hok Ht. pose proof (so_rq _ _ Hok) as Hrq. pose proof (rq_lists _ _ _ Hrq) as Hl.
  pose proof (so_lock _ _ Hok _ _ Ht) as Hlk.
  unfold sched_process_timeslice. apply returns_bind. eapply returns_rtr_head; [done|].
  apply returns_bind. eapply returns_tcb; [done|]. fold (round_robin t).
  unfold slice_tcb, slice_lists, slice_over. rewrite Ht.
  assert (Hsame : ∀ t', task_state t' = task_state t → sched_priority t' = sched_priority t → lockcount t' = lockcount t →
    sched_ok (set_tcbs (<[running T:=t']> (k_tcbs s)) s) T).
  { intros t' H1 H2 H3. eapply sched_ok_field; try done; rewrite H3; [done|].
    destruct (so_pend _ _ Hok) as [|Hpd]; [by left|]. rewrite (lock_some _ _ _ Ht) in Hpd. auto. }
  destruct (round_robin t); simpl; [|apply returns_ret; rewrite insert_id by done; split_and!; try done;
    by destruct (tail (T g_readytorun))].
  destruct (timeslice t <=? 1) eqn:Ets; simpl.
  - replace (1 <? timeslice t) with false by lia. destruct (lockcount t =? 0) eqn:Elk; simpl.
    2:{ apply returns_ret. rewrite insert_id by done. split_and!; try done. by destruct (tail (T g_readytorun)). }
    apply returns_bind. eapply returns_updt; [done|]. fold RR_TICKS.
    set (s2 := set_tcbs _ _). assert (Hok2 : sched_ok s2 T) by (by apply Hsame).
    assert (Ht2 : k_tcbs s2 !! running T = Some (set_timeslice RR_TICKS t)) by apply lookup_insert_eq.
    assert (Hpd : T g_pendingtasks = []).
    { destruct (so_pend _ _ Hok) as [|Hpd]; [done|]. rewrite (lock_some _ _ _ Ht) in Hpd. lia. }
    destruct (running_head _ _ _ Hrq) as [r Er]. rewrite Er. simpl.
    pose proof (lo_repr _ _ Hl _ ready_in) as Hr. rewrite Er in Hr. pose proof (dq_node [] _ _ Hr) as (N1 & _).
    apply returns_bind. eapply returns_kload; [unfold FLINK; rewrite Z.add_0_r; exact N1|].
    destruct r as [|n l2].
    { rewrite hd_or_nil. apply returns_ret. done. }
    pose proof (dq_node [_] n l2 Hr) as (_ & _ & N3 & _). rewrite hd_or_cons. unfold nonnull.
    rewrite (proj2 (Z.eqb_neq _ _)) by done. cbn [negb].
    destruct (rq_tcb _ _ _ Hrq _ n ready_in) as (tn & Htn & _); [rewrite Er; set_solver|].
    assert (Hne : running T ≠ n).
    { pose proof (lists_nodup _ _ _ Hl ready_in) as Hnd. rewrite Er in Hnd. apply NoDup_cons in Hnd as [Hx _]. set_solver. }
    assert (Htn2 : k_tcbs s2 !! n = Some tn) by (simpl; by rewrite lookup_insert_ne).
    apply returns_bind. eapply returns_tcb; [exact Htn2|].
    rewrite <-(prio_some _ _ _ Ht), <-(prio_some _ _ _ Htn).
    destruct (prio (k_tcbs s) (running T) <=? prio (k_tcbs s) n) eqn:Ep; [|by apply returns_ret].
    assert (Hpr : ∀ y, prio (k_tcbs s2) y = prio (k_tcbs s) y).
    { intros y. subst s2. unfold prio. simpl. destruct (decide (y = running T)) as [->|]; [|by rewrite lookup_insert_ne].
      by rewrite lookup_insert_eq, Ht. }
    assert (Hidle : running T ≠ g_idletcb).
    { intros Hi. pose proof (prioritized_ready _ _ Hl) as (P1 & _). pose proof (rq_desc _ _ _ Hrq _ ready_in P1) as Hd.
      rewrite Er in Hd. apply StronglySorted_inv in Hd as [_ Hd]. apply Forall_cons in Hd as [Hd _].
      pose proof (rq_prio _ _ _ Hrq _ n ready_in ltac:(rewrite Er; set_solver) ltac:(congruence)) as Hpn.
      rewrite Hi, (rq_idle_prio _ _ _ Hrq) in Hd. lia. }
    rewrite (prio_some _ _ _ Ht). change (sched_priority t) with (sched_priority (set_timeslice RR_TICKS t)).
    eapply returns_mono; [eapply (setprio_rotate irq s2 T n l2); try done; rewrite !Hpr; lia|].
    intros _ s' (Hok' & Hsb & Hk). split_and!; try done.
    eapply sched_ok_same, Hok'. intros q _. unfold rotate. by rewrite (insert_prio_ext (prio (k_tcbs s2)) (prio (k_tcbs s))) by auto.
  - replace (1 <? timeslice t) with true by lia. apply returns_bind. eapply returns_updt; [done|]. apply returns_ret.
    split_and!; try done. destruct (tail (T g_readytorun)); by apply Hsame.
Qed.
End SchedSlice.
