(* ===== verification/SemInv.v ===== *)
(** The invariant of semaphores: a negative count is the number of waiters. *)

From Stdlib Require Import Sorting.Sorted.
From stdpp Require Import functions.
From S2P Require Import Prelude Links Queue Sched Sem SchedList SchedInv SchedOps SchedMerge SchedSwitch SchedKernel SchedApi SchedEntry SchedPrio SchedSlice.

Section SemInv.
Context `{Globals}.
Implicit Types (m : mem) (D : gmap Z tcb_s) (T : Z → list Z) (s : kstate) (q x y sem c : Z) (irq : bool).

Lemma s16_small c : - 2 ^ 15 ≤ c < 2 ^ 15 → s16 c = c.
Proof. intros Hc. unfold s16. rewrite Z.mod_small by lia. lia. Qed.

Definition wsem D x : Z := default NULL (waitsem <$> D !! x).

Lemma wsem_some D x t : D !! x = Some t → wsem D x = waitsem t.
Proof. unfold wsem. by intros ->. Qed.

Lemma same_but_state_wsem D D' x : same_but_state D D' → wsem D' x = wsem D x.
Proof.
  intros Hs. unfold wsem. specialize (Hs x). destruct (D' !! x), (D !! x); simpl in *; try done.
  injection Hs. intros. congruence.
Qed.

Lemma same_but_state_size D D' : same_but_state D D' → size D' = size D.
Proof.
  intros Hs. rewrite <-!size_dom. f_equal. apply set_eq. intros x. rewrite !elem_of_dom. specialize (Hs x).
  destruct (D' !! x), (D !! x); simpl in Hs; try done; split; intros []; done.
Qed.

Lemma wsem_alter D x f y : (∀ t, waitsem (f t) = waitsem t) → wsem (alter f x D) y = wsem D y.
Proof.
  intros Hf. unfold wsem. destruct (decide (y = x)) as [->|]; [rewrite lookup_alter_eq|by rewrite lookup_alter_ne].
  destruct (D !! x); simpl; [by rewrite Hf|done].
Qed.

(** The tasks that wait for [sem], in the order in which they will get it. *)
Definition waiters D T sem : list Z := filter (λ x, wsem D x = sem) (T g_waitingforsemaphore).

Record sem_ok s T : Prop := {
  sm_sched : sched_ok s T;
  sm_count : ∀ sem c, k_sems s !! sem = Some c →
    c ≤ SEM_VALUE_MAX ∧ Z.of_nat (length (waiters (k_tcbs s) T sem)) = Z.max 0 (- c);
  sm_wait : ∀ x, x ∈ T g_waitingforsemaphore →
    wsem (k_tcbs s) x ≠ NULL ∧ is_Some (k_sems s !! wsem (k_tcbs s) x);
  sm_nowait : ∀ q x, q ∈ queues → q ≠ g_waitingforsemaphore → x ∈ T q → wsem (k_tcbs s) x = NULL;
  sm_tasks : Z.of_nat (size (k_tcbs s)) ≤ CONFIG_MAX_TASKS;
}.

(** No count comes near the lower bound of an int16_t. *)
Lemma sem_bound s T sem c : sem_ok s T → k_sems s !! sem = Some c → - CONFIG_MAX_TASKS ≤ c ≤ SEM_VALUE_MAX.
Proof.
  intros Hok Hc. destruct (sm_count _ _ Hok sem c Hc) as [Hle Hlen]. split; [|done].
  pose proof (so_rq _ _ (sm_sched _ _ Hok)) as Hrq. pose proof (sm_tasks _ _ Hok).
  assert (Hl : (length (waiters (k_tcbs s) T sem) ≤ size (k_tcbs s))%nat); [|lia].
  unfold waiters. etrans; [apply length_filter|]. rewrite <-size_dom.
  pose proof (lists_nodup _ _ _ (rq_lists _ _ _ Hrq) waitsem_in) as Hnd.
  rewrite <-(size_list_to_set (C:=gset Z)) by done. apply subseteq_size.
  intros x Hx%elem_of_list_to_set. apply elem_of_dom. by eapply rq_has_tcbs, Hx; [|apply waitsem_in].
Qed.

Lemma waiters_length D D' T l sem :
  T g_waitingforsemaphore ≡ₚ l → (∀ y, y ∈ l → wsem D y = wsem D' y) →
  length (waiters D T sem) = length (filter (λ x, wsem D' x = sem) l).
Proof.
  intros Hp He. unfold waiters. rewrite Hp. f_equal. clear Hp. induction l as [|y l IH]; [done|].
  rewrite !filter_cons. rewrite He by set_solver. rewrite IH by set_solver. done.
Qed.

Section Steps.
Context {s s' : kstate} {T T' : Z → list Z}.
Hypothesis Hok : sem_ok s T.
Hypothesis Hok' : sched_ok s' T'.
Hypothesis Hsize : size (k_tcbs s') = size (k_tcbs s).
Hypothesis Hno : ∀ q y, q ∈ queues → q ≠ g_waitingforsemaphore → y ∈ T' q → wsem (k_tcbs s') y = NULL.

(** A task starts to wait. *)
Lemma sem_added x sem c :
  T' g_waitingforsemaphore ≡ₚ x :: T g_waitingforsemaphore → (x ∉ T g_waitingforsemaphore) → sem ≠ NULL →
  wsem (k_tcbs s') x = sem → (∀ y, y ≠ x → wsem (k_tcbs s') y = wsem (k_tcbs s) y) →
  k_sems s !! sem = Some c → c ≤ 0 → k_sems s' = <[sem:=c - 1]> (k_sems s) → sem_ok s' T'.
Proof.
  intros Hp Hnx Hsem Hx Hy Hc Hle Hs. split; try done.
  - intros sem' c' Hc'. rewrite Hs in Hc'. rewrite (waiters_length _ (k_tcbs s') _ _ _ Hp) by done.
    rewrite filter_cons. assert (Hlen : length (filter (λ y, wsem (k_tcbs s') y = sem') (T g_waitingforsemaphore)) =
      length (waiters (k_tcbs s) T sem')).
    { symmetry. apply waiters_length; [done|]. intros y Hin. symmetry. apply Hy. by intros ->. }
    rewrite Hx. destruct (decide (sem = sem')) as [<-|Hne].
    + rewrite lookup_insert_eq in Hc'. injection Hc' as <-. destruct (sm_count _ _ Hok sem c Hc) as [? Hl].
      rewrite <-Hlen in Hl. simpl. unfold SEM_VALUE_MAX. lia.
    + rewrite lookup_insert_ne in Hc' by done. rewrite Hlen. by apply (sm_count _ _ Hok).
  - intros y. rewrite Hp, Hs. intros [->|Hin]%elem_of_cons.
    + rewrite Hx. split; [done|]. rewrite lookup_insert_eq. by eexists.
    + rewrite Hy by (by intros ->). destruct (sm_wait _ _ Hok y Hin) as [? Hsome]. split; [done|].
      rewrite lookup_insert_is_Some'. by right.
  - rewrite Hsize. apply Hok.
Qed.

(** A waiter gets the semaphore, or gives up. *)
Lemma sem_removed x sem c :
  T g_waitingforsemaphore ≡ₚ x :: T' g_waitingforsemaphore → (x ∉ T' g_waitingforsemaphore) →
  wsem (k_tcbs s) x = sem → (∀ y, y ≠ x → wsem (k_tcbs s') y = wsem (k_tcbs s) y) →
  k_sems s !! sem = Some c → c < 0 → k_sems s' = <[sem:=c + 1]> (k_sems s) → sem_ok s' T'.
Proof.
  intros Hp Hnx Hx Hy Hc Hlt Hs. split; try done.
  - intros sem' c' Hc'. rewrite Hs in Hc'.
    assert (Hlen : length (waiters (k_tcbs s') T' sem') =
      length (filter (λ y, wsem (k_tcbs s) y = sem') (T' g_waitingforsemaphore))).
    { apply waiters_length; [done|]. intros y Hin. apply Hy. by intros ->. }
    pose proof (waiters_length (k_tcbs s) (k_tcbs s) T _ sem' Hp ltac:(done)) as Hlen'.
    rewrite filter_cons, Hx in Hlen'. rewrite Hlen. destruct (decide (sem = sem')) as [<-|Hne].
    + rewrite lookup_insert_eq in Hc'. injection Hc' as <-. destruct (sm_count _ _ Hok sem c Hc) as [? Hl].
      rewrite Hlen' in Hl. simpl in Hl. unfold SEM_VALUE_MAX. lia.
    + rewrite lookup_insert_ne in Hc' by done. rewrite <-Hlen'. by apply (sm_count _ _ Hok).
  - intros y Hin. rewrite Hy by (by intros ->). rewrite Hs. destruct (sm_wait _ _ Hok y) as [? Hsome].
    + rewrite Hp. set_solver.
    + split; [done|]. rewrite lookup_insert_is_Some'. by right.
  - rewrite Hsize. apply Hok.
Qed.

(** Nobody starts or stops waiting; a count may change above zero. *)
Lemma sem_kept :
  T' g_waitingforsemaphore ≡ₚ T g_waitingforsemaphore →
  (∀ y, y ∈ T g_waitingforsemaphore → wsem (k_tcbs s') y = wsem (k_tcbs s) y) →
  (∀ sem c', k_sems s' !! sem = Some c' → ∃ c, k_sems s !! sem = Some c ∧ c' ≤ SEM_VALUE_MAX ∧
     Z.max 0 (- c') = Z.max 0 (- c)) →
  (∀ sem, is_Some (k_sems s !! sem) → is_Some (k_sems s' !! sem)) → sem_ok s' T'.
Proof.
  intros Hp Hy Hc Hd. split; try done.
  - intros sem c' Hc'. destruct (Hc sem c' Hc') as (c & Hc0 & Hm & E). split; [done|]. rewrite E.
    rewrite (waiters_length _ (k_tcbs s) _ _ _ Hp) by done. apply (sm_count _ _ Hok sem c Hc0).
  - intros y. rewrite Hp. intros Hin. rewrite Hy by done. destruct (sm_wait _ _ Hok y Hin). auto.
  - rewrite Hsize. apply Hok.
Qed.
End Steps.

Lemma sem_kept_same s s' T T' :
  sem_ok s T → sched_ok s' T' → size (k_tcbs s') = size (k_tcbs s) → k_sems s' = k_sems s →
  T' g_waitingforsemaphore ≡ₚ T g_waitingforsemaphore →
  (∀ y, wsem (k_tcbs s') y = wsem (k_tcbs s) y) →
  (∀ q y, q ∈ queues → q ≠ g_waitingforsemaphore → y ∈ T' q → ∃ q0, q0 ∈ queues ∧ q0 ≠ g_waitingforsemaphore ∧ y ∈ T q0) →
  sem_ok s' T'.
Proof.
  intros Hok Hok' Hsz Hs Hp Hw Ho. eapply (sem_kept Hok Hok' Hsz); try done.
  - intros q y Hq Hne Hy. rewrite Hw. destruct (Ho q y Hq Hne Hy) as (q0 & ? & ? & ?). by eapply (sm_nowait _ _ Hok q0).
  - intros sem c Hc. rewrite Hs in Hc. exists c. split_and!; try done. by apply (sm_count _ _ Hok sem).
  - by rewrite Hs.
Qed.

(** Where the tasks of the changed lists come from. *)
Lemma same_tasks_from m T T' q y :
  lists_ok m T → same_tasks T T' → q ∈ queues → q ≠ g_waitingforsemaphore → y ∈ T' q →
  ∃ q0, q0 ∈ queues ∧ q0 ≠ g_waitingforsemaphore ∧ y ∈ T q0.
Proof.
  intros Hl [Hs1 Hs2] Hq Hne Hy. pose proof (prioritized_ready _ _ Hl) as (_ & _ & _ & P3 & P4 & P5).
  destruct (decide (q = g_readytorun ∨ q = g_pendingtasks)) as [Hrp|Hrp].
  - assert (Hin : y ∈ T' g_readytorun ++ T' g_pendingtasks) by (destruct Hrp as [-> | ->]; set_solver).
    rewrite Hs1, elem_of_app in Hin. destruct Hin as [Hin|Hin].
    + exists g_readytorun. split_and!; [apply ready_in|done|done].
    + exists g_pendingtasks. split_and!; [apply pending_in|done|done].
  - exists q. split_and!; try done. rewrite <-Hs2 by (done || tauto). done.
Qed.

Lemma sem_ok_tasks s s' T T' :
  sem_ok s T → sched_ok s' T' → same_tasks T T' → size (k_tcbs s') = size (k_tcbs s) → k_sems s' = k_sems s →
  (∀ y, wsem (k_tcbs s') y = wsem (k_tcbs s) y) → sem_ok s' T'.
Proof.
  intros Hok Hok' Ht Hsz Hs Hw. pose proof (rq_lists _ _ _ (so_rq _ _ (sm_sched _ _ Hok))) as Hl.
  pose proof (prioritized_ready _ _ Hl) as (_ & _ & _ & P3 & P4 & P5).
  eapply sem_kept_same; try done; [by apply Ht; try apply waitsem_in|].
  intros q y. by apply (same_tasks_from (k_mem s)).
Qed.
End SemInv.
