(* ===== verification/SemSpec.v ===== *)
(** The semaphore operations keep the invariant; what each does. *)

From Stdlib Require Import Sorting.Sorted.
From stdpp Require Import functions.
From S2P Require Import Prelude Links Queue Sched Sem SchedList SchedInv SchedOps SchedMerge SchedSwitch SchedKernel SchedApi SchedEntry SchedPrio SchedSlice SemInv.

(** * sem_wait and its helpers *)

Section SemSpec.
Context `{Globals}.
Implicit Types (m : mem) (D : gmap Z tcb_s) (T : Z → list Z) (s : kstate) (q x y sem c : Z) (irq : bool).

Definition set_sems (S : gmap Z Z) s : kstate :=
  KState (k_mem s) (k_tcbs s) S (k_running s) (g_irqerrno s) (g_pidhash s) (g_cpuload_total s).

Lemma returns_semcount sem c s (Q : Z → kstate → Prop) :
  k_sems s !! sem = Some c → Q c s → returns (semcount sem) s Q.
Proof. unfold returns, semcount. by intros ->. Qed.

Lemma returns_set_semcount sem c c' s (Q : unit → kstate → Prop) :
  k_sems s !! sem = Some c → Q tt (set_sems (<[sem:=c']> (k_sems s)) s) → returns (set_semcount sem c') s Q.
Proof. unfold returns, set_semcount. by intros ->. Qed.

Lemma head_running s T : rqs s T → ∃ t, k_tcbs s !! running T = Some t ∧ running T ≠ NULL ∧ task_state t = TSTATE_TASK_RUNNING.
Proof.
  intros Hrq. destruct (running_head _ _ _ Hrq) as [r Er]. destruct (head_tcb _ _ Hrq) as (t & Ht & Hn).
  destruct (rq_tcb _ _ _ Hrq _ (running T) ready_in) as (t' & Ht' & Hst); [rewrite Er; set_solver|].
  exists t. split_and!; try done. rewrite tstate_ready, Er in Hst. simpl in Hst. rewrite decide_True in Hst by done. congruence.
Qed.

Lemma set_errno_spec s T t e :
  rqs s T → k_tcbs s !! running T = Some t →
  returns (set_errno false e) s (λ _ s', s' = set_tcbs (<[running T:=set_pterrno e t]> (k_tcbs s)) s).
Proof.
  intros Hrq Ht. destruct (head_running _ _ Hrq) as (t' & Ht' & Hn & Hst). rewrite Ht in Ht'. injection Ht' as <-.
  unfold set_errno. cbn [negb]. apply returns_bind. eapply returns_rtr_head; [apply (rq_lists _ _ _ Hrq)|].
  unfold nonnull. rewrite (proj2 (Z.eqb_neq _ _)) by done. cbn [negb]. apply returns_bind. eapply returns_tcb; [done|].
  rewrite Hst. simpl. by eapply returns_updt.
Qed.

(** Changes of a TCB that neither the lists nor the semaphores see. *)
Definition same_sched (t t' : tcb_s) : Prop :=
  task_state t' = task_state t ∧ sched_priority t' = sched_priority t ∧ lockcount t' = lockcount t.

Lemma sched_ok_same_sched s T x t t' :
  sched_ok s T → k_tcbs s !! x = Some t → same_sched t t' → sched_ok (set_tcbs (<[x:=t']> (k_tcbs s)) s) T.
Proof.
  intros Hok Ht (H1 & H2 & H3). eapply sched_ok_field; try done; rewrite H3; [by apply (so_lock _ _ Hok x)|].
  destruct (so_pend _ _ Hok) as [|Hpd]; [by left|]. destruct (decide (x = running T)) as [->|]; [|auto].
  rewrite (lock_some _ _ _ Ht) in Hpd. auto.
Qed.

Lemma size_insert_same D x t t' : D !! x = Some t → size (<[x:=t']> D) = size D.
Proof. intros Ht. rewrite <-!size_dom. by rewrite dom_insert_lookup_L. Qed.

Lemma wsem_insert D x t' y : wsem (<[x:=t']> D) y = if decide (y = x) then waitsem t' else wsem D y.
Proof. unfold wsem. case_decide as E; [subst; by rewrite lookup_insert_eq|by rewrite lookup_insert_ne]. Qed.

Lemma sem_ok_field s T x t t' :
  sem_ok s T → k_tcbs s !! x = Some t → same_sched t t' → waitsem t' = waitsem t →
  sem_ok (set_tcbs (<[x:=t']> (k_tcbs s)) s) T.
Proof.
  intros Hok Ht Hs Hw. eapply sem_ok_tasks; try done.
  - by eapply sched_ok_same_sched; [apply Hok|..].
  - by eapply size_insert_same.
  - intros y. simpl. rewrite wsem_insert. case_decide; [|done]. subst. by rewrite (wsem_some _ _ _ Ht).
Qed.

Lemma sem_ok_insert_sem s T sem c c' :
  sem_ok s T → k_sems s !! sem = Some c → 0 ≤ c' ≤ SEM_VALUE_MAX → 0 ≤ c →
  sem_ok (set_sems (<[sem:=c']> (k_sems s)) s) T.
Proof.
  intros Hok Hc Hc' Hc0.
  assert (Hs : sched_ok (set_sems (<[sem:=c']> (k_sems s)) s) T) by (split; apply Hok).
  eapply (sem_kept Hok Hs); try done; simpl.
  - intros q y. apply (sm_nowait _ _ Hok).
  - intros sem' c1 [[<- <-]|[Hne Hc1]]%lookup_insert_Some.
    + exists c. split_and!; [done|lia|lia].
    + exists c1. split_and!; try done. by apply (sm_count _ _ Hok sem').
  - intros sem' Hsome. rewrite lookup_insert_is_Some'. by right.
Qed.

(** ** sem_wait and sem_trywait *)
Lemma running_nowait s T : sem_ok s T → wsem (k_tcbs s) (running T) = NULL.
Proof.
  intros Hok. pose proof (so_rq _ _ (sm_sched _ _ Hok)) as Hrq. destruct (running_head _ _ _ Hrq) as [r Er].
  pose proof (prioritized_ready _ _ (rq_lists _ _ _ Hrq)) as (_ & _ & _ & _ & P4 & _).
  apply (sm_nowait _ _ Hok g_readytorun); auto with sched. rewrite Er. set_solver.
Qed.

Definition sleep_lists D T : Z → list Z :=
  block_lists D T [] (running T) (tail (T g_readytorun)) TSTATE_WAIT_SEM.

Lemma sleep_waiting D T :
  g_waitingforsemaphore ≠ g_readytorun → g_waitingforsemaphore ≠ g_pendingtasks →
  sleep_lists D T g_waitingforsemaphore = insert_prio (prio D) (running T) (T g_waitingforsemaphore).
Proof.
  intros P4 P5. unfold sleep_lists, block_lists, release, merged. rewrite !fn_lookup_insert_ne by done.
  unfold add_blocked. simpl. rewrite fn_lookup_insert. by rewrite fn_lookup_insert_ne.
Qed.

Lemma sleep_others m D T q y :
  lists_ok m T → q ∈ queues → q ≠ g_waitingforsemaphore → y ∈ sleep_lists D T q →
  ∃ q0, q0 ∈ queues ∧ q0 ≠ g_waitingforsemaphore ∧ y ∈ T q0.
Proof.
  intros Hl Hq Hne Hy. pose proof (prioritized_ready _ _ Hl) as (_ & _ & _ & P3 & P4 & P5).
  unfold sleep_lists, block_lists, release in Hy. set (T1 := add_blocked _ _ _ _) in Hy.
  assert (H1 : ∀ q y, q ≠ g_waitingforsemaphore → y ∈ T1 q → y ∈ T q).
  { intros q' z Hq' Hz. unfold T1, add_blocked in Hz. simpl in Hz. rewrite fn_lookup_insert_ne in Hz by done.
    destruct (decide (q' = g_readytorun)) as [->|]; [|by rewrite fn_lookup_insert_ne in Hz].
    rewrite fn_lookup_insert in Hz. by destruct (T g_readytorun); [|right]. }
  destruct (decide (q = g_readytorun)) as [->|Hqr].
  - rewrite merged_ready, merge_prio_perm, elem_of_app in Hy. destruct Hy as [Hy|Hy]; apply H1 in Hy; try done.
    + exists g_readytorun. auto with sched.
    + exists g_pendingtasks. auto with sched.
  - exists q. split_and!; try done. apply H1; [done|]. unfold merged in Hy. rewrite fn_lookup_insert_ne in Hy by done.
    destruct (decide (q = g_pendingtasks)) as [->|]; [rewrite fn_lookup_insert in Hy; set_solver|].
    by rewrite fn_lookup_insert_ne in Hy.
Qed.

Lemma block_lists_ext D D' T l1 x l2 st :
  (∀ y, prio D y = prio D' y) → block_lists D T l1 x l2 st = block_lists D' T l1 x l2 st.
Proof. intros He. unfold block_lists. rewrite (add_blocked_ext D D') by done. by rewrite (release_ext D D'). Qed.

Lemma prio_same_sched D x t t' y :
  D !! x = Some t → sched_priority t' = sched_priority t → prio (<[x:=t']> D) y = prio D y.
Proof.
  intros Ht Hp. unfold prio. destruct (decide (y = x)) as [->|]; [|by rewrite lookup_insert_ne].
  rewrite lookup_insert_eq, Ht. simpl. congruence.
Qed.

Lemma sem_sleep s T sem c t t' :
  sem_ok s T → running T ≠ g_idletcb → sem ≠ NULL → k_sems s !! sem = Some c → c ≤ 0 →
  k_tcbs s !! running T = Some t → same_sched t t' → waitsem t' = sem →
  let s1 := set_tcbs (<[running T:=t']> (k_tcbs s)) (set_sems (<[sem:=c - 1]> (k_sems s)) s) in
  returns (up_block_task false (running T) TSTATE_WAIT_SEM) s1 (λ b s', b = true ∧
    sem_ok s' (sleep_lists (k_tcbs s) T) ∧ k_sems s' = <[sem:=c - 1]> (k_sems s) ∧ g_pidhash s' = g_pidhash s ∧
    same_but_state (<[running T:=t']> (k_tcbs s)) (k_tcbs s')).
Proof.
  intros Hok Hi Hsem Hc Hle Ht Hs Hw s1. pose proof (sm_sched _ _ Hok) as Hso. pose proof (so_rq _ _ Hso) as Hrq.
  pose proof (rq_lists _ _ _ Hrq) as Hl. pose proof (prioritized_ready _ _ Hl) as (_ & _ & _ & P3 & P4 & P5).
  assert (Hso1 : sched_ok s1 T).
  { eapply (sched_ok_same_sched (set_sems (<[sem:=c - 1]> (k_sems s)) s)); [|exact Ht|done]. split; apply Hso. }
  destruct (running_head _ _ _ Hrq) as [r Er].
  eapply returns_mono; [apply (block_ok false s1 T r TSTATE_WAIT_SEM); try done|].
  intros b s' (Hok' & Hsb & (Hk1 & _ & Hk2 & _) & ->). split; [done|].
  assert (ET : block_lists (k_tcbs s1) T [] (running T) r TSTATE_WAIT_SEM = sleep_lists (k_tcbs s) T).
  { unfold sleep_lists. rewrite Er. apply block_lists_ext. intros y. simpl. by eapply prio_same_sched, Hs. }
  rewrite ET in Hok'. split_and!; try done.
  assert (Hw' : ∀ y, wsem (k_tcbs s') y = if decide (y = running T) then sem else wsem (k_tcbs s) y).
  { intros y. rewrite (same_but_state_wsem _ _ _ Hsb). simpl. rewrite wsem_insert. by rewrite Hw. }
  assert (Hnx : running T ∉ T g_waitingforsemaphore).
  { intros Hin. apply P4. eapply (lists_unique _ _ _ _ (running T) Hl); auto with sched. rewrite Er. set_solver. }
  assert (Hrw : running T ∈ sleep_lists (k_tcbs s) T g_waitingforsemaphore).
  { rewrite sleep_waiting by done. apply insert_prio_elem. by left. }
  eapply (sem_added Hok Hok'); try done.
  - rewrite (same_but_state_size _ _ Hsb). by eapply size_insert_same.
  - intros q y Hq Hne Hy. rewrite Hw'. rewrite decide_False.
    + destruct (sleep_others _ _ _ _ _ Hl Hq Hne Hy) as (q0 & ? & ? & ?). by apply (sm_nowait _ _ Hok q0).
    + intros ->. apply Hne. eapply (lists_unique _ _ _ _ (running T)); [apply (rq_lists _ _ _ (so_rq _ _ Hok'))|done|..];
        auto with sched.
  - rewrite sleep_waiting by done. apply insert_prio_perm.
  - rewrite Hw'. by rewrite decide_True.
  - intros y Hy. rewrite Hw'. by rewrite decide_False.
Qed.

(** What sem_wait does: take a count, or go to sleep behind the waiters of at
    least its priority. *)
Definition sem_wait_post s T t sem c (r : result) (s' : kstate) : Prop :=
  k_sems s' = <[sem:=c - 1]> (k_sems s) ∧ g_pidhash s' = g_pidhash s ∧
  if 0 <? c then
    r = Returned OK ∧ sem_ok s' T ∧ same_but_state (<[running T:=set_pterrno EINVAL t]> (k_tcbs s)) (k_tcbs s')
  else
    r = Suspended RSemWait ∧ sem_ok s' (sleep_lists (k_tcbs s) T) ∧
    same_but_state (<[running T:=set_pterrno 0 (set_waitsem sem t)]> (k_tcbs s)) (k_tcbs s').

Lemma set_waitsem_id t : waitsem t = NULL → set_waitsem NULL t = t.
Proof. destruct t; simpl. by intros ->. Qed.

Lemma sem_take s T x t sem c :
  sem_ok s T → k_tcbs s !! x = Some t → waitsem t = NULL → k_sems s !! sem = Some c → 0 < c →
  returns (set_semcount sem (s16 (c - 1));; updt x (set_waitsem NULL)) s (λ _ s',
    sem_ok s' T ∧ s' = set_sems (<[sem:=c - 1]> (k_sems s)) s).
Proof.
  intros Hok Ht Hw Hc Hpos. destruct (sem_bound _ _ _ _ Hok Hc) as [_ Hmax]. unfold SEM_VALUE_MAX in Hmax.
  rewrite s16_small by lia. apply returns_bind. eapply returns_set_semcount; [done|].
  eapply returns_updt; [exact Ht|]. simpl. rewrite set_waitsem_id, insert_id by done.
  change (set_tcbs (k_tcbs s) ?s') with (set_sems (<[sem:=c - 1]> (k_sems s)) s).
  split; [|done]. eapply sem_ok_insert_sem; try done; unfold SEM_VALUE_MAX; lia.
Qed.

Lemma sem_wait_ok s T t sem c :
  sem_ok s T → running T ≠ g_idletcb → sem ≠ NULL → k_sems s !! sem = Some c →
  k_tcbs s !! running T = Some t → returns (sem_wait false sem) s (sem_wait_post s T t sem c).
Proof.
  intros Hok Hi Hsem Hc Ht. pose proof (so_rq _ _ (sm_sched _ _ Hok)) as Hrq.
  pose proof (running_nowait _ _ Hok) as Hnw. rewrite (wsem_some _ _ _ Ht) in Hnw.
  destruct (sem_bound _ _ _ _ Hok Hc) as [Hmin Hmax]. unfold SEM_VALUE_MAX, CONFIG_MAX_TASKS in *.
  unfold sem_wait. apply returns_bind. eapply returns_rtr_head; [apply (rq_lists _ _ _ Hrq)|].
  apply returns_bind, returns_assert; [done|]. apply returns_bind. eapply returns_mono; [by apply set_errno_spec|].
  intros [] s1 ->. set (t1 := set_pterrno EINVAL t). set (s1 := set_tcbs _ s).
  assert (Hok1 : sem_ok s1 T) by (eapply sem_ok_field; done).
  assert (Ht1 : k_tcbs s1 !! running T = Some t1) by apply lookup_insert_eq.
  unfold nonnull. rewrite (proj2 (Z.eqb_neq _ _)) by done. cbn [negb]. apply returns_bind.
  eapply returns_semcount; [exact Hc|]. unfold sem_wait_post. destruct (0 <? c) eqn:Ec.
  - pose proof (sem_take s1 T (running T) t1 sem c Hok1 Ht1 Hnw Hc ltac:(lia)) as Htake.
    apply returns_elim in Htake as ([] & s2 & Ht2 & Hok2 & ->). unfold mbind, M_bind in *.
    unfold returns. destruct (set_semcount sem (s16 (c - 1)) s1) as [[[] s2']| |]; try done.
    rewrite Ht2. simpl. split_and!; try done.
  - apply returns_bind. eapply returns_tcb; [exact Ht1|]. apply returns_bind, returns_assert; [simpl; lia|].
    rewrite s16_small by lia. apply returns_bind. eapply returns_set_semcount; [exact Hc|].
    apply returns_bind. eapply returns_updt; [exact Ht1|]. set (s2 := set_tcbs _ _). apply returns_bind.
    assert (Hrq2 : rqs s2 T).
    { eapply (rq_field (k_mem s1)); [apply (so_rq _ _ (sm_sched _ _ Hok1))|exact Ht1|done|done]. }
    eapply returns_mono; [apply (set_errno_spec s2 T (set_waitsem sem t1)); [done|apply lookup_insert_eq]|].
    intros [] s3 ->. set (t3 := set_pterrno 0 (set_waitsem sem t)).
    set (s3 := set_tcbs (<[running T:=t3]> (k_tcbs s)) (set_sems (<[sem:=c - 1]> (k_sems s)) s)).
    assert (E3 : set_tcbs (<[running T:=set_pterrno 0 (set_waitsem sem t1)]> (k_tcbs s2)) s2 = s3).
    { unfold s3, s2, s1, set_tcbs, set_sems. simpl. by rewrite !insert_insert_eq. }
    rewrite E3. apply returns_bind.
    eapply returns_mono; [apply (sem_sleep s T sem c t t3); try done; lia|].
    intros b s' (-> & Hok' & Hs' & Hh & Hsb). apply returns_ret. done.
Qed.

(** ** sem_post, sem_waitirq: waking a waiter *)
Definition wake_lists D T l1 x l2 : Z → list Z := unblock_lists D T g_waitingforsemaphore l1 x l2.

Lemma wake_waiting m D T l1 x l2 : lists_ok m T → wake_lists D T l1 x l2 g_waitingforsemaphore = l1 ++ l2.
Proof.
  intros Hl. pose proof (prioritized_ready _ _ Hl) as (_ & _ & _ & P3 & P4 & P5).
  unfold wake_lists, unblock_lists, add_ready. destruct (held _ _ _); rewrite fn_lookup_insert_ne by done;
    by rewrite fn_lookup_insert.
Qed.

Lemma wake_others m D T l1 x l2 q y :
  lists_ok m T → q ≠ g_waitingforsemaphore → y ∈ wake_lists D T l1 x l2 q → y = x ∨ y ∈ T q.
Proof.
  intros Hl Hne. pose proof (prioritized_ready _ _ Hl) as (_ & _ & _ & P3 & P4 & P5).
  unfold wake_lists, unblock_lists, add_ready.
  assert (HT : ∀ q', q' ≠ g_waitingforsemaphore → (<[g_waitingforsemaphore:=l1 ++ l2]> T) q' = T q')
    by (intros; by rewrite fn_lookup_insert_ne).
  destruct (held _ _ _).
  - destruct (decide (q = g_pendingtasks)) as [->|]; [|rewrite fn_lookup_insert_ne by done; rewrite HT; auto].
    rewrite fn_lookup_insert, HT by done. by rewrite insert_prio_elem.
  - destruct (decide (q = g_readytorun)) as [->|]; [|rewrite fn_lookup_insert_ne by done; rewrite HT; auto].
    rewrite fn_lookup_insert, HT by done. by rewrite insert_prio_elem.
Qed.

Lemma lock_same_sched D x t t' y :
  D !! x = Some t → lockcount t' = lockcount t → lock (<[x:=t']> D) y = lock D y.
Proof.
  intros Ht Hp. unfold lock. destruct (decide (y = x)) as [->|]; [|by rewrite lookup_insert_ne].
  rewrite lookup_insert_eq, Ht. simpl. congruence.
Qed.

(** The task [x] stops waiting for [sem] with TCB [t'] and becomes ready. *)
Lemma sem_wake irq s T l1 x l2 sem c t t' :
  sem_ok s T → T g_waitingforsemaphore = l1 ++ x :: l2 → k_tcbs s !! x = Some t → waitsem t = sem →
  k_sems s !! sem = Some c → c < 0 → same_sched t t' → waitsem t' = NULL →
  let s1 := set_tcbs (<[x:=t']> (k_tcbs s)) (set_sems (<[sem:=c + 1]> (k_sems s)) s) in
  let T' := wake_lists (k_tcbs s) T l1 x l2 in
  returns (up_unblock_task irq x) s1 (λ b s', sem_ok s' T' ∧ k_sems s' = <[sem:=c + 1]> (k_sems s) ∧
    g_pidhash s' = g_pidhash s ∧
    same_but_state (<[x:=set_timeslice RR_TICKS t']> (k_tcbs s)) (k_tcbs s') ∧
    b = negb irq && negb (running T' =? running T)).
Proof.
  intros Hok E Ht Hw Hc Hlt Hs Hw' s1 T'. pose proof (sm_sched _ _ Hok) as Hso. pose proof (so_rq _ _ Hso) as Hrq.
  pose proof (rq_lists _ _ _ Hrq) as Hl. pose proof (prioritized_ready _ _ Hl) as (_ & _ & _ & P3 & P4 & P5).
  assert (Hso1 : sched_ok s1 T).
  { eapply (sched_ok_same_sched (set_sems (<[sem:=c + 1]> (k_sems s)) s)); [|exact Ht|done]. split; apply Hso. }
  eapply returns_mono; [by apply (unblock_ok irq s1 T g_waitingforsemaphore l1 x l2 Hso1 waitsem_in)|].
  intros b s' (Hok' & Hsb & (Hk1 & _ & Hk2 & _) & ->).
  assert (ET : unblock_lists (k_tcbs s1) T g_waitingforsemaphore l1 x l2 = T').
  { apply add_ready_ext; intros y; simpl; [by eapply prio_same_sched, Hs|by eapply lock_same_sched, Hs]. }
  rewrite ET in *.
  assert (Hsb' : same_but_state (<[x:=set_timeslice RR_TICKS t']> (k_tcbs s)) (k_tcbs s')).
  { etrans; [|exact Hsb]. unfold unblock_tcb, s1. simpl. intros y. destruct (decide (y = x)) as [->|].
    - by rewrite lookup_alter_eq, !lookup_insert_eq.
    - by rewrite lookup_alter_ne, !lookup_insert_ne. }
  split_and!; try done.
  assert (Hws : ∀ y, wsem (k_tcbs s') y = if decide (y = x) then NULL else wsem (k_tcbs s) y).
  { intros y. rewrite (same_but_state_wsem _ _ _ Hsb'), wsem_insert. simpl. by rewrite Hw'. }
  pose proof (lists_nodup _ _ _ Hl waitsem_in) as Hnd. rewrite E in Hnd.
  assert (Hwl : T' g_waitingforsemaphore = l1 ++ l2) by (by apply (wake_waiting (k_mem s))).
  assert (Hsz : size (k_tcbs s') = size (k_tcbs s)).
  { rewrite (same_but_state_size _ _ Hsb'). by eapply size_insert_same. }
  assert (Hno : ∀ q y, q ∈ queues → q ≠ g_waitingforsemaphore → y ∈ T' q → wsem (k_tcbs s') y = NULL).
  { intros q y Hq Hne Hy. rewrite Hws. case_decide as Hyx; [done|].
    destruct (wake_others _ _ _ _ _ _ _ _ Hl Hne Hy) as [?|Hy']; [done|]. by apply (sm_nowait _ _ Hok q). }
  apply (sem_removed Hok Hok' Hsz Hno x sem c); try done.
  - rewrite Hwl, E. by rewrite Permutation_middle.
  - rewrite Hwl. apply NoDup_app in Hnd as (_ & Hnd & [Hn _]%NoDup_cons). set_solver.
  - by rewrite (wsem_some _ _ _ Ht).
  - intros y Hy. rewrite Hws. by rewrite decide_False.
Qed.
End SemSpec.

(** * sem_post *)

Section SemPost.
Context `{Globals}.
Implicit Types (m : mem) (D : gmap Z tcb_s) (T : Z → list Z) (s : kstate) (q x y sem c : Z) (irq : bool).

(** The first waiter for [sem]: nobody before it in the list waits for it. *)
Definition first_waiter D T sem l1 x l2 : Prop :=
  T g_waitingforsemaphore = l1 ++ x :: l2 ∧ wsem D x = sem ∧ Forall (λ y, wsem D y ≠ sem) l1.

Lemma first_waiter_exists D T sem :
  waiters D T sem ≠ [] → ∃ l1 x l2, first_waiter D T sem l1 x l2.
Proof.
  unfold waiters, first_waiter. induction (T g_waitingforsemaphore) as [|y l IH]; [done|].
  rewrite filter_cons. case_decide as E.
  - intros _. exists [], y, l. split_and!; done.
  - intros Hne. destruct (IH Hne) as (l1 & x & l2 & -> & Hx & Hl). exists (y :: l1), x, l2.
    split_and!; [done|done|by constructor].
Qed.

Lemma sem_search_loop s sem b l1 x l2 t fuel :
  dseg 0 (k_mem s) b (l1 ++ x :: l2) NULL → Forall (λ x, x ≠ NULL) (l1 ++ x :: l2) → has_tcbs (k_tcbs s) l1 →
  Forall (λ y, wsem (k_tcbs s) y ≠ sem) l1 → k_tcbs s !! x = Some t → waitsem t = sem → (length l1 < fuel)%nat →
  returns (loop fuel (sem_post_search sem) (hd_or NULL (l1 ++ x :: l2))) s (λ r s', r = x ∧ s' = s).
Proof.
  revert b l1. induction fuel as [|fuel IH]; intros b l1; [lia|]. rewrite loop_S.
  destruct l1 as [|y l1]; simpl; intros Hd Hn Hts Hw Ht Hx Hlen; apply returns_bind; unfold sem_post_search at 1;
    rewrite hd_or_cons; apply Forall_cons in Hn as [Hy Hn]; unfold nonnull;
    rewrite (proj2 (Z.eqb_neq _ _)) by done; cbn [negb]; apply returns_bind.
  - eapply returns_tcb; [done|]. rewrite Hx, Z.eqb_refl. cbn [negb]. by do 2 apply returns_ret.
  - destruct (Hts y) as [ty Hty]; [set_solver|]. apply Forall_cons in Hw as [Hwy Hw].
    eapply returns_tcb; [done|]. rewrite (wsem_some _ _ _ Hty) in Hwy. rewrite (proj2 (Z.eqb_neq _ _)) by done. cbn [negb].
    destruct Hd as (Hf & _ & Hd). apply returns_bind. eapply returns_kload; [exact Hf|]. apply returns_ret.
    eapply IH; try done; [|lia]. intros z Hz. apply Hts. set_solver.
Qed.

(** What sem_post does: hand the count to the first waiter, or add it. *)
Definition sem_post_post irq s T sem c (r : result) (s' : kstate) : Prop :=
  k_sems s' = <[sem:=c + 1]> (k_sems s) ∧ g_pidhash s' = g_pidhash s ∧
  if c <? 0 then
    ∃ l1 x l2 t, let T' := wake_lists (k_tcbs s) T l1 x l2 in
      first_waiter (k_tcbs s) T sem l1 x l2 ∧ k_tcbs s !! x = Some t ∧
      sem_ok s' T' ∧ r = switched irq T T' OK ∧
      same_but_state (<[x:=set_timeslice RR_TICKS (set_waitsem NULL t)]> (k_tcbs s)) (k_tcbs s')
  else r = Returned OK ∧ sem_ok s' T ∧ k_tcbs s' = k_tcbs s.

Lemma sem_post_ok irq s T sem c :
  sem_ok s T → sem ≠ NULL → k_sems s !! sem = Some c → c < SEM_VALUE_MAX →
  returns (sem_post irq sem) s (sem_post_post irq s T sem c).
Proof.
  intros Hok Hsem Hc Hmax. pose proof (so_rq _ _ (sm_sched _ _ Hok)) as Hrq. pose proof (rq_lists _ _ _ Hrq) as Hl.
  destruct (sem_bound _ _ _ _ Hok Hc) as [Hmin _]. unfold CONFIG_MAX_TASKS in Hmin.
  unfold sem_post, nonnull at 1. rewrite (proj2 (Z.eqb_neq _ _)) by done. cbn [negb]. apply returns_bind.
  eapply returns_semcount; [done|]. apply returns_bind, returns_assert; [lia|].
  unfold SEM_VALUE_MAX in Hmax. rewrite s16_small by lia. apply returns_bind. eapply returns_set_semcount; [done|].
  apply returns_bind. eapply returns_semcount; [apply lookup_insert_eq|]. apply returns_bind.
  unfold sem_post_post. destruct (c + 1 <=? 0) eqn:Ec.
  - rewrite (proj2 (Z.ltb_lt c 0)) by lia. destruct (sm_count _ _ Hok sem c Hc) as [_ Hlen].
    destruct (first_waiter_exists (k_tcbs s) T sem) as (l1 & x & l2 & E & Hx & Hl1).
    { intros E. rewrite E in Hlen. simpl in Hlen. lia. }
    pose proof (lo_repr _ _ Hl _ waitsem_in) as Hr. pose proof (rq_has_tcbs _ _ _ _ Hrq waitsem_in) as Hts.
    rewrite E in Hr, Hts. destruct (Hts x) as [t Ht]; [set_solver|]. rewrite (wsem_some _ _ _ Ht) in Hx.
    pose proof (dq_fuel _ _ _ Hr) as Hfuel. rewrite length_app in Hfuel. simpl in Hfuel.
    pose proof Hr as (Hh & _ & Hd & _ & Hn).
    apply returns_bind. eapply returns_kload; [unfold HEAD; rewrite Z.add_0_r; exact Hh|].
    apply returns_bind, returns_gets, returns_bind.
    eapply returns_mono; [eapply (sem_search_loop _ sem NULL l1 x l2 t); try done; simpl|].
    { intros y Hy. apply Hts. set_solver. } { lia. }
    intros r s1 [-> ->]. apply Forall_app in Hn as [_ Hn]. apply Forall_cons in Hn as [Hx0 _].
    unfold nonnull. rewrite (proj2 (Z.eqb_neq _ _)) by done. cbn [negb].
    apply returns_bind. eapply returns_updt; [exact Ht|].
    eapply returns_mono; [by apply (sem_wake irq s T l1 x l2 sem c t (set_waitsem NULL t)); try done; lia|].
    intros b s' (Hok' & Hs' & Hh' & Hsb & ->). apply returns_ret. split_and!; try done.
    exists l1, x, l2, t. split; [|done]. split; [done|]. split; [|done]. by rewrite (wsem_some _ _ _ Ht).
  - rewrite (proj2 (Z.ltb_ge c 0)) by lia. do 2 apply returns_ret. split_and!; try done.
    eapply sem_ok_insert_sem; try done; unfold SEM_VALUE_MAX; lia.
Qed.

(** The wait of [x] ends with [errcode]. *)
Definition sem_waitirq_post irq s T l1 x l2 t sem c errcode (b : bool) (s' : kstate) : Prop :=
  let T' := wake_lists (k_tcbs s) T l1 x l2 in
  sem_ok s' T' ∧ k_sems s' = <[sem:=c + 1]> (k_sems s) ∧ g_pidhash s' = g_pidhash s ∧
  same_but_state (<[x:=set_timeslice RR_TICKS (set_pterrno errcode (set_waitsem NULL t))]> (k_tcbs s)) (k_tcbs s') ∧
  b = negb irq && negb (running T' =? running T).

Lemma sem_waitirq_ok irq s T l1 x l2 t sem c errcode :
  sem_ok s T → T g_waitingforsemaphore = l1 ++ x :: l2 → k_tcbs s !! x = Some t → waitsem t = sem →
  k_sems s !! sem = Some c →
  returns (sem_waitirq irq x errcode) s (sem_waitirq_post irq s T l1 x l2 t sem c errcode).
Proof.
  intros Hok E Ht Hw Hc. pose proof (so_rq _ _ (sm_sched _ _ Hok)) as Hrq. pose proof (rq_lists _ _ _ Hrq) as Hl.
  pose proof (prioritized_ready _ _ Hl) as (_ & _ & _ & P3 & P4 & P5).
  assert (Hin : x ∈ T g_waitingforsemaphore) by (rewrite E; set_solver).
  destruct (rq_tcb _ _ _ Hrq _ x waitsem_in Hin) as (t' & Ht' & Hst). rewrite Ht in Ht'. injection Ht' as <-.
  assert (Hst' : task_state t = TSTATE_WAIT_SEM).
  { rewrite Hst. destruct (blocked_list _ _ TSTATE_WAIT_SEM Hl eq_refl) as (_ & _ & _ & _ & _ & Hb). apply Hb. }
  destruct (sm_wait _ _ Hok x Hin) as [Hn _]. rewrite (wsem_some _ _ _ Ht), Hw in Hn.
  assert (Hlt : c < 0).
  { destruct (sm_count _ _ Hok sem c Hc) as [_ Hlen].
    assert (Hx : x ∈ waiters (k_tcbs s) T sem).
    { apply list_elem_of_filter. split; [|done]. by rewrite (wsem_some _ _ _ Ht). }
    destruct (waiters (k_tcbs s) T sem); [set_solver|]. simpl in Hlen. lia. }
  destruct (sem_bound _ _ _ _ Hok Hc) as [Hmin _]. unfold CONFIG_MAX_TASKS in Hmin.
  unfold sem_waitirq. apply returns_bind. eapply returns_tcb; [done|]. rewrite Hst', Hw, Z.eqb_refl.
  apply returns_bind, returns_assert; [unfold nonnull; lia|]. apply returns_bind. eapply returns_semcount; [done|].
  apply returns_bind, returns_assert; [lia|]. rewrite s16_small by lia.
  apply returns_bind. eapply returns_set_semcount; [done|]. apply returns_bind. eapply returns_updt; [exact Ht|].
  apply returns_bind. eapply returns_updt; [apply lookup_insert_eq|].
  set (t2 := set_pterrno errcode (set_waitsem NULL t)).
  match goal with |- returns _ ?s2 _ =>
    replace s2 with (set_tcbs (<[x:=t2]> (k_tcbs s)) (set_sems (<[sem:=c + 1]> (k_sems s)) s)) end.
  2:{ unfold set_tcbs, set_sems. simpl. by rewrite insert_insert_eq. }
  by apply (sem_wake irq s T l1 x l2 sem c t t2).
Qed.

(** The waiter that gets the semaphore has the highest priority of all. *)
Lemma first_waiter_highest s T sem l1 x l2 y :
  sem_ok s T → first_waiter (k_tcbs s) T sem l1 x l2 → y ∈ waiters (k_tcbs s) T sem →
  prio (k_tcbs s) y ≤ prio (k_tcbs s) x.
Proof.
  intros Hok (E & Hx & Hl1) [Hy Hin]%list_elem_of_filter.
  pose proof (so_rq _ _ (sm_sched _ _ Hok)) as Hrq. pose proof (rq_lists _ _ _ Hrq) as Hl.
  pose proof (prioritized_ready _ _ Hl) as (_ & _ & P6 & _).
  pose proof (rq_desc _ _ _ Hrq _ waitsem_in P6) as Hd. rewrite E in Hin, Hd.
  apply desc_app in Hd as (_ & Hd & _). apply StronglySorted_inv in Hd as [_ Hd]. rewrite Forall_forall in Hd, Hl1.
  apply elem_of_app in Hin as [Hin|Hin]; [by apply Hl1 in Hin|].
  apply elem_of_cons in Hin as [->|Hin]; [done|by apply Hd].
Qed.
End SemPost.
