(* ===== verification/SchedMembers.v ===== *)
(** Which tasks the kernel has: no call gains or loses one, changes its PID or
    touches the table that finds it. *)

From stdpp Require Import functions.
From S2P Require Import Prelude Links Queue Sched Sem SchedList SchedInv SchedOps SchedMerge SchedSwitch SchedKernel SchedApi SchedEntry SchedPrio SchedSlice SemInv SemSpec.

Section Members.
Context `{Globals}.
Implicit Types (m : mem) (D : gmap Z tcb_s) (T : Z → list Z) (s : kstate) (q x y : Z).

Definition member T x : Prop := ∃ q, q ∈ queues ∧ x ∈ T q.
Definition same_members T T' : Prop := ∀ x, member T' x ↔ member T x.

#[global] Instance same_members_equiv : Equivalence same_members.
Proof.
  split; unfold same_members.
  - done.
  - intros T1 T2 H1 x. by rewrite H1.
  - intros T1 T2 T3 H1 H2 x. by rewrite H2, H1.
Qed.

Lemma member_upd T q l x : q ∈ queues →
  member (<[q:=l]> T) x ↔ x ∈ l ∨ ∃ q', q' ∈ queues ∧ q' ≠ q ∧ x ∈ T q'.
Proof.
  intros Hq. unfold member. split.
  - intros (q' & Hq' & Hx). destruct (decide (q' = q)) as [->|Hne].
    + rewrite fn_lookup_insert in Hx. by left.
    + rewrite fn_lookup_insert_ne in Hx by done. right. eauto.
  - intros [Hx|(q' & Hq' & Hne & Hx)].
    + exists q. by rewrite fn_lookup_insert.
    + exists q'. by rewrite fn_lookup_insert_ne.
Qed.

(** Adding a task to one list, and taking it out. *)
Lemma member_add T q l x y : q ∈ queues → l ≡ₚ x :: T q → member (<[q:=l]> T) y ↔ y = x ∨ member T y.
Proof.
  intros Hq Hl. rewrite member_upd by done. rewrite Hl, elem_of_cons. unfold member. split.
  - intros [[->|Hy]|(q' & ? & ? & ?)]; eauto.
  - intros [->|(q' & Hq' & Hy)]; [by left; left|]. destruct (decide (q' = q)) as [->|]; [by left; right|]. right. eauto.
Qed.

Lemma member_del T q l x y : q ∈ queues → T q ≡ₚ x :: l → y = x ∨ member (<[q:=l]> T) y ↔ member T y.
Proof.
  intros Hq Hl. rewrite member_upd by done. unfold member. split.
  - intros [->|[Hy|(q' & ? & ? & ?)]]; [..|by eauto]; exists q; rewrite Hl; set_solver.
  - intros (q' & Hq' & Hy). destruct (decide (q' = q)) as [->|]; [|right; right; by eauto].
    rewrite Hl in Hy. apply elem_of_cons in Hy as [?|?]; auto.
Qed.

Lemma same_members_tasks T T' : same_tasks T T' → same_members T T'.
Proof.
  assert (Hsub : ∀ T1 T2 x, same_tasks T1 T2 → member T1 x → member T2 x).
  { intros T1 T2 x [H1 H2] (q & Hq & Hx). destruct (decide (q = g_readytorun ∨ q = g_pendingtasks)) as [Hqq|Hqq].
    - assert (Hin : x ∈ T2 g_readytorun ++ T2 g_pendingtasks).
      { rewrite H1. destruct Hqq as [-> | ->]; set_solver. }
      apply elem_of_app in Hin as [Hin|Hin]; eexists; (split; [|exact Hin]); auto with sched.
    - exists q. split; [done|]. rewrite H2; [done|done|tauto..]. }
  intros [H1 H2] x. split; apply Hsub; split; [symmetry; done|by symmetry; apply H2|done|done].
Qed.

Lemma same_members_same_lists T T' : same_lists T T' → same_members T T'.
Proof. intros He x. unfold member. split; intros (q & Hq & Hx); exists q; [rewrite He|rewrite <-He]; done. Qed.

Lemma same_members_block m D T l1 x l2 st :
  lists_ok m T → T g_readytorun = l1 ++ x :: l2 → is_blocked_state st = true →
  same_members T (block_lists D T l1 x l2 st).
Proof.
  intros Hl E Hst. pose proof (prioritized_ready _ _ Hl) as (_ & _ & _ & P3 & _).
  destruct (blocked_list _ _ _ Hl Hst) as (_ & Hq & Hq1 & Hq2 & _ & _). unfold block_lists, release, merged. intros y.
  set (T1 := <[g_readytorun:=l1 ++ l2]> T). set (T2 := add_blocked D T1 x st).
  assert (H2 : member T2 y ↔ y = x ∨ member T1 y).
  { unfold T2, add_blocked. apply member_add; [done|]. destruct (tasklist_of st).2; [apply insert_prio_perm|].
    by rewrite Permutation_app_comm. }
  assert (H3 : y = x ∨ member T1 y ↔ member T y).
  { apply member_del; [apply ready_in|rewrite E; by rewrite Permutation_middle]. }
  rewrite <-H3, <-H2.
  unfold member. split; intros (q & Hqq & Hy).
  - destruct (decide (q = g_readytorun)) as [->|Hr].
    + rewrite fn_lookup_insert, merge_prio_perm, elem_of_app in Hy. destruct Hy; eauto using ready_in, pending_in.
    + rewrite fn_lookup_insert_ne in Hy by done. destruct (decide (q = g_pendingtasks)) as [->|].
      * rewrite fn_lookup_insert in Hy. by apply elem_of_nil in Hy.
      * rewrite fn_lookup_insert_ne in Hy by done. eauto.
  - destruct (decide (q = g_readytorun ∨ q = g_pendingtasks)) as [Hr|Hr].
    + exists g_readytorun. split; [apply ready_in|]. rewrite fn_lookup_insert, merge_prio_perm, elem_of_app.
      destruct Hr as [-> | ->]; auto.
    + apply Decidable.not_or in Hr as [Hr1 Hr2]. exists q. by rewrite !fn_lookup_insert_ne.
Qed.

Lemma same_members_unblock D T q l1 x l2 :
  q ∈ queues → T q = l1 ++ x :: l2 → same_members T (unblock_lists D T q l1 x l2).
Proof.
  intros Hq E y. unfold unblock_lists, add_ready. rewrite <-(member_del T q (l1 ++ l2) x y);
    [|done|rewrite E; by rewrite Permutation_middle].
  destruct (held _ _ _); apply member_add; auto with sched; apply insert_prio_perm.
Qed.

(** * What every call keeps *)
Definition evolves s T s' T' : Prop :=
  same_members T T' ∧ (∀ x, pid <$> k_tcbs s' !! x = pid <$> k_tcbs s !! x) ∧ g_pidhash s' = g_pidhash s.

Lemma evolves_refl s T : evolves s T s T.
Proof. done. Qed.

Lemma evolves_trans s1 T1 s2 T2 s3 T3 : evolves s1 T1 s2 T2 → evolves s2 T2 s3 T3 → evolves s1 T1 s3 T3.
Proof. intros (A1 & A2 & A3) (B1 & B2 & B3). split_and!; [by etrans|intros x; by rewrite B2|congruence]. Qed.

Lemma same_but_state_pid D D' x : same_but_state D D' → pid <$> D' !! x = pid <$> D !! x.
Proof. intros Hs. specialize (Hs x). destruct (D' !! x), (D !! x); simpl in *; try done. injection Hs. congruence. Qed.

Lemma pid_insert D x t t' y : D !! x = Some t → pid t' = pid t → pid <$> <[x:=t']> D !! y = pid <$> D !! y.
Proof.
  intros Ht Hp. destruct (decide (y = x)) as [->|]; [|by rewrite lookup_insert_ne]. rewrite lookup_insert_eq, Ht. simpl. by rewrite Hp.
Qed.

Lemma pid_alter D x f y : (∀ t, pid (f t) = pid t) → pid <$> alter f x D !! y = pid <$> D !! y.
Proof.
  intros Hf. destruct (decide (y = x)) as [->|]; [|by rewrite lookup_alter_ne]. rewrite lookup_alter_eq.
  destruct (D !! x); simpl; [by rewrite Hf|done].
Qed.

(** A change of one TCB, then of the states. *)
Lemma evolves_upd s T s' T' D1 :
  same_but_state D1 (k_tcbs s') → same_members T T' → (∀ y, pid <$> D1 !! y = pid <$> k_tcbs s !! y) →
  g_pidhash s' = g_pidhash s → evolves s T s' T'.
Proof. intros Hs Hm Hp Hh. split_and!; try done. intros x. by rewrite (same_but_state_pid _ _ _ Hs). Qed.

Lemma evolves_field s T x t t' :
  k_tcbs s !! x = Some t → pid t' = pid t → evolves s T (set_tcbs (<[x:=t']> (k_tcbs s)) s) T.
Proof. intros Ht Hp. split_and!; try done. intros y. by apply (pid_insert _ x t). Qed.

(** A call went well: the invariant holds again. *)
Definition steps_to s T s' : Prop := ∃ T', sem_ok s' T' ∧ evolves s T s' T'.

Lemma steps_to_refl s T : sem_ok s T → steps_to s T s.
Proof. intros Hok. exists T. split; [done|apply evolves_refl]. Qed.

Lemma steps_to_trans s T s1 T1 s' : evolves s T s1 T1 → steps_to s1 T1 s' → steps_to s T s'.
Proof. intros He (T' & Hok & He'). exists T'. split; [done|by eapply evolves_trans]. Qed.

(** ** Semaphores *)
Lemma sem_wait_evolves s T t sem c r s' :
  sem_ok s T → k_tcbs s !! running T = Some t → sem_wait_post s T t sem c r s' → steps_to s T s'.
Proof.
  intros Hok Ht (_ & Hh & Hp). pose proof (rq_lists _ _ _ (so_rq _ _ (sm_sched _ _ Hok))) as Hl.
  destruct (running_head _ _ _ (so_rq _ _ (sm_sched _ _ Hok))) as [rr Er].
  destruct (0 <? c); destruct Hp as (_ & Hok' & Hsb).
  - exists T. split; [done|]. eapply (evolves_upd _ _ _ _ _ Hsb); [done|by intros y; eapply pid_insert|done].
  - exists (sleep_lists (k_tcbs s) T). split; [done|].
    eapply (evolves_upd _ _ _ _ _ Hsb); [|by intros y; eapply pid_insert|done].
    eapply same_members_block; [done|by rewrite Er|done].
Qed.

Lemma wake_evolves s T l1 x l2 t t' s' :
  T g_waitingforsemaphore = l1 ++ x :: l2 → k_tcbs s !! x = Some t → pid t' = pid t →
  sem_ok s' (wake_lists (k_tcbs s) T l1 x l2) → same_but_state (<[x:=t']> (k_tcbs s)) (k_tcbs s') →
  g_pidhash s' = g_pidhash s → steps_to s T s'.
Proof.
  intros E Ht Hp Hok' Hsb Hh. exists (wake_lists (k_tcbs s) T l1 x l2). split; [done|].
  eapply (evolves_upd _ _ _ _ _ Hsb); [|by intros y; eapply pid_insert|done].
  by apply same_members_unblock; [apply waitsem_in|].
Qed.
End Members.
