(* ===== verification/Kernel.v ===== *)
(** The kernel as a transition system: every entry of the scheduler and of the
    semaphores is a step, and every step keeps the invariant. *)

From Stdlib Require Import Sorting.Sorted.
From stdpp Require Import functions relations.
From S2P Require Import Prelude Links Queue Sched Sem SchedList SchedInv SchedOps SchedMerge SchedSwitch SchedKernel SchedApi SchedEntry SchedPrio SchedSlice SemInv SemSpec SchedMembers.

(** The words of a queue determine its nodes. *)
Lemma dseg_unique fo m p p' l l' :
  dseg fo m p l NULL → dseg fo m p' l' NULL → hd_or NULL l = hd_or NULL l' →
  Forall (λ x, x ≠ NULL) l → Forall (λ x, x ≠ NULL) l' → l = l'.
Proof.
  revert p p' l'. induction l as [|x l IH]; intros p p' [|y l']; simpl; intros Hd Hd' Hh Hn Hn';
    rewrite ?hd_or_cons, ?hd_or_nil in Hh; try done.
  - apply Forall_cons in Hn' as [Hy _]. congruence.
  - apply Forall_cons in Hn as [Hx _]. congruence.
  - subst y. destruct Hd as (E & _ & Hd), Hd' as (E' & _ & Hd'). apply Forall_cons in Hn as [_ Hn], Hn' as [_ Hn'].
    f_equal. eapply IH; try done. congruence.
Qed.

Lemma dq_repr_unique m q l l' : dq_repr m q l → dq_repr m q l' → l = l'.
Proof.
  intros (H1 & _ & H2 & _ & H3) (H1' & _ & H2' & _ & H3'). eapply dseg_unique; try done. congruence.
Qed.

Section Kernel.
Context `{Globals}.
Implicit Types (T : Z → list Z) (s : kstate) (q x y sem c : Z) (irq : bool).

(** Task [x] is found in the list at [q]. *)
Definition queued s q x : Prop := ∃ l, dq_repr (k_mem s) q l ∧ x ∈ l.

Lemma queued_in s T q x : rqs s T → q ∈ queues → queued s q x ↔ x ∈ T q.
Proof.
  intros Hrq Hq. pose proof (lo_repr _ _ (rq_lists _ _ _ Hrq) q Hq) as Hr. split.
  - intros (l & Hl & Hx). by rewrite (dq_repr_unique _ _ _ _ Hr Hl).
  - intros Hx. by exists (T q).
Qed.

(** The calls: by the running task, by interrupt handlers ([irq]), and by a
    suspended task that goes on. *)
Inductive kstep : kstate → kstate → Prop :=
| step_block st b s s' :
    k_running s ≠ g_idletcb → is_blocked_state st = true → st ≠ TSTATE_WAIT_SEM →
    up_block_task false (k_running s) st s = Done (b, s') → kstep s s'
| step_unblock irq q x b s s' :
    queued s q x → q ∈ queues → q ≠ g_readytorun → q ≠ g_pendingtasks → q ≠ g_waitingforsemaphore →
    up_unblock_task irq x s = Done (b, s') → kstep s s'
| step_lock s s' : sched_lock false s = Done (tt, s') → kstep s s'
| step_unlock ret r s s' : sched_unlock false ret s = Done (r, s') → kstep s s'
| step_setpriority irq q x p r s s' :
    queued s q x → q ∈ queues → x ≠ g_idletcb →
    sched_setpriority irq x p s = Done (r, s') → kstep s s'
| step_timeslice b s s' : sched_process_timeslice true s = Done (b, s') → kstep s s'
| step_sem_wait sem r s s' :
    k_running s ≠ g_idletcb → sem_wait false sem s = Done (r, s') → kstep s s'
| step_sem_trywait sem r s s' : sem_trywait false sem s = Done (r, s') → kstep s s'
| step_sem_post irq sem r s s' : sem_post irq sem s = Done (r, s') → kstep s s'
| step_sem_waitirq irq x e b s s' :
    queued s g_waitingforsemaphore x → sem_waitirq irq x e s = Done (b, s') → kstep s s'
| step_resume k r s s' : resume false k s = Done (r, s') → kstep s s'.

Definition kernel_ok s : Prop := ∃ T, sem_ok s T.

(** The lists in which the invariant [H] holds. *)
Ltac lists_of H := match type of H with sched_ok _ ?T => exists T end.

Lemma set_errno_ok irq s T e : sem_ok s T → returns (set_errno irq e) s (λ _ s', sem_ok s' T ∧ evolves s T s' T ∧ k_sems s' = k_sems s).
Proof.
  intros Hok. pose proof (so_rq _ _ (sm_sched _ _ Hok)) as Hrq. destruct irq.
  - unfold set_errno. simpl. apply returns_modify. split; [|done]. split; try apply Hok. split; apply Hok.
  - destruct (head_tcb _ _ Hrq) as (t & Ht & _). eapply returns_mono; [by apply set_errno_spec|].
    intros [] s' ->. split_and!; [by eapply sem_ok_field|by eapply evolves_field|done].
Qed.

Lemma block_kernel_ok s T st :
  sem_ok s T → running T ≠ g_idletcb → is_blocked_state st = true → st ≠ TSTATE_WAIT_SEM →
  returns (up_block_task false (running T) st) s (λ _, steps_to s T).
Proof.
  intros Hok Hi Hst Hne. pose proof (sm_sched _ _ Hok) as Hso. pose proof (so_rq _ _ Hso) as Hrq.
  pose proof (rq_lists _ _ _ Hrq) as Hl. pose proof (prioritized_ready _ _ Hl) as (_ & _ & _ & P3 & P4 & P5).
  destruct (running_head _ _ _ Hrq) as [r Er].
  destruct (blocked_list _ _ _ Hl Hst) as (_ & Hq & Hq1 & Hq2 & _ & Hts).
  assert (Hqs : (tasklist_of st).1 ≠ g_waitingforsemaphore).
  { intros E. apply Hne. rewrite <-(Hts [] 0), E.
    destruct (blocked_list _ _ TSTATE_WAIT_SEM Hl eq_refl) as (_ & _ & _ & _ & _ & Hb). apply Hb. }
  eapply returns_mono; [by apply (block_ok false s T r st)|]. intros b s' (Hok' & Hsb & (Hk & _ & Hh & _) & _).
  lists_of Hok'. split; [|eapply (evolves_upd _ _ _ _ _ Hsb); [by eapply same_members_block|done|done]].
  eapply sem_kept_same; [exact Hok|exact Hok'|by apply same_but_state_size|done| | |].
  - unfold block_lists, release, merged. rewrite !fn_lookup_insert_ne by done. unfold add_blocked.
    by rewrite !fn_lookup_insert_ne.
  - intros y. by apply same_but_state_wsem.
  - intros q y Hqq Hqw Hy. unfold block_lists, release in Hy. set (T1 := add_blocked _ _ _ _) in Hy.
    assert (H1 : ∀ q y, q ≠ g_waitingforsemaphore → q ∈ queues → y ∈ T1 q →
      ∃ q0, q0 ∈ queues ∧ q0 ≠ g_waitingforsemaphore ∧ y ∈ T q0).
    { intros q' z Hq' Hqin Hz. unfold T1, add_blocked in Hz. destruct (decide (q' = (tasklist_of st).1)) as [->|Hqn].
      - rewrite fn_lookup_insert in Hz. rewrite (fn_lookup_insert_ne _ _ (tasklist_of st).1) in Hz by done.
        assert (Hz' : z = running T ∨ z ∈ T (tasklist_of st).1)
          by (destruct (tasklist_of st) as [? []]; simpl in *; [by apply insert_prio_elem in Hz|]; apply elem_of_app in Hz; rewrite list_elem_of_singleton in Hz; tauto).
        destruct Hz' as [->|Hz']; [|by eauto]. exists g_readytorun. rewrite Er. split_and!; auto with sched. apply list_elem_of_here.
      - rewrite fn_lookup_insert_ne in Hz by done. exists q'. split_and!; try done.
        destruct (decide (q' = g_readytorun)) as [->|]; [|by rewrite fn_lookup_insert_ne in Hz].
        rewrite fn_lookup_insert in Hz. rewrite Er. simpl in Hz. by apply list_elem_of_further. }
    destruct (decide (q = g_readytorun)) as [->|Hqr].
    + rewrite merged_ready, merge_prio_perm, elem_of_app in Hy. destruct Hy as [Hy|Hy].
      * apply (H1 g_readytorun); auto with sched.
      * apply (H1 g_pendingtasks); auto with sched.
    + apply (H1 q); try done. unfold merged in Hy. rewrite fn_lookup_insert_ne in Hy by done.
      destruct (decide (q = g_pendingtasks)) as [->|]; [rewrite fn_lookup_insert in Hy; set_solver|].
      by rewrite fn_lookup_insert_ne in Hy.
Qed.

Lemma unblock_kernel_ok irq s T q x :
  sem_ok s T → q ∈ queues → q ≠ g_readytorun → q ≠ g_pendingtasks → q ≠ g_waitingforsemaphore → x ∈ T q →
  returns (up_unblock_task irq x) s (λ _, steps_to s T).
Proof.
  intros Hok Hq H1 H2 H3 Hx. pose proof (sm_sched _ _ Hok) as Hso. pose proof (so_rq _ _ Hso) as Hrq.
  pose proof (rq_lists _ _ _ Hrq) as Hl. pose proof (prioritized_ready _ _ Hl) as (_ & _ & _ & P3 & P4 & P5).
  pose proof Hx as (l1 & l2 & E)%list_elem_of_split.
  eapply returns_mono; [by apply (unblock_ok irq s T q l1 x l2)|]. intros b s' (Hok' & Hsb & (Hk & _ & Hh & _) & _).
  lists_of Hok'. split; [|eapply (evolves_upd _ _ _ _ _ Hsb); [by apply same_members_unblock|by intros y; apply pid_alter|done]].
  eapply sem_kept_same; [exact Hok|exact Hok'| |done| | |].
  - rewrite (same_but_state_size _ _ Hsb). unfold unblock_tcb. rewrite <-!size_dom. by rewrite dom_alter_L.
  - unfold unblock_lists, add_ready. by destruct (held _ _ _); rewrite !fn_lookup_insert_ne.
  - intros y. rewrite (same_but_state_wsem _ _ _ Hsb). by apply wsem_alter.
  - intros q' y Hq' Hqw Hy. unfold unblock_lists, add_ready in Hy.
    assert (HT : ∀ q0 z, z ∈ (<[q:=l1 ++ l2]> T) q0 → z ∈ T q0).
    { intros q0 z Hz. destruct (decide (q0 = q)) as [->|]; [|by rewrite fn_lookup_insert_ne in Hz].
      rewrite fn_lookup_insert in Hz. rewrite E. apply elem_of_app in Hz. apply elem_of_app. rewrite elem_of_cons. tauto. }
    assert (Hy' : y = x ∨ y ∈ T q').
    { destruct (held _ _ _).
      - destruct (decide (q' = g_pendingtasks)) as [->|]; [|rewrite fn_lookup_insert_ne in Hy by done; auto].
        rewrite fn_lookup_insert in Hy. apply insert_prio_elem in Hy as [?|Hy]; auto.
      - destruct (decide (q' = g_readytorun)) as [->|]; [|rewrite fn_lookup_insert_ne in Hy by done; auto].
        rewrite fn_lookup_insert in Hy. apply insert_prio_elem in Hy as [?|Hy]; auto. }
    destruct Hy' as [->|Hy']; eauto.
Qed.

Lemma partial_tcb x s (Q : tcb_s → kstate → Prop) :
  (∀ t, k_tcbs s !! x = Some t → Q t s) → partial (tcb x) s Q.
Proof. intros HQ t s'. unfold tcb. destruct (k_tcbs s !! x); [|done]. intros [= <- <-]. auto. Qed.

Lemma partial_semcount sem s (Q : Z → kstate → Prop) :
  (∀ c, k_sems s !! sem = Some c → Q c s) → partial (semcount sem) s Q.
Proof. intros HQ c s'. unfold semcount. destruct (k_sems s !! sem); [|done]. intros [= <- <-]. auto. Qed.

Lemma lock_kernel_ok s T : sem_ok s T → partial (sched_lock false) s (λ _, steps_to s T).
Proof.
  intros Hok. pose proof (sm_sched _ _ Hok) as Hso. destruct (head_tcb _ _ (so_rq _ _ Hso)) as (t & Ht & Hn).
  destruct (decide (lockcount t < MAX_LOCK_COUNT)) as [Hlt|Hge].
  - apply returns_partial. eapply returns_mono; [by eapply sched_lock_ok|]. intros [] s' (Hok' & ->). exists T.
    split; [|by eapply evolves_field]. eapply sem_ok_tasks; try done; simpl; [by eapply size_insert_same|]. intros y. rewrite wsem_insert.
    case_decide; [|done]. subst. by rewrite (wsem_some _ _ _ Ht).
  - unfold sched_lock. apply partial_bind, returns_partial.
    eapply returns_rtr_head; [apply (rq_lists _ _ _ (so_rq _ _ Hso))|].
    unfold nonnull. rewrite (proj2 (Z.eqb_neq _ _)) by done. simpl.
    apply partial_bind, partial_tcb. intros t' Ht'. rewrite Ht in Ht'. injection Ht' as <-.
    apply partial_bind, partial_assert. lia.
Qed.

Lemma unlock_tasks s T : rqs s T → same_tasks T (unlock_lists s T).
Proof.
  intros Hrq. unfold unlock_lists. destruct (_ <=? 1); [|done]. by eapply same_tasks_release, (rq_lists _ _ _ Hrq).
Qed.

Lemma unlock_kernel_ok s T ret : sem_ok s T → returns (sched_unlock false ret) s (λ _, steps_to s T).
Proof.
  intros Hok. pose proof (sm_sched _ _ Hok) as Hso. destruct (head_tcb _ _ (so_rq _ _ Hso)) as (t & Ht & Hn).
  eapply returns_mono; [by apply (sched_unlock_ok s T t ret)|]. intros r s' (Hok' & (Hk & _ & Hh & _) & Hsb & _).
  lists_of Hok'. split; [|eapply (evolves_upd _ _ _ _ _ Hsb); [by apply same_members_tasks, unlock_tasks, Hso|by intros y; eapply pid_insert|done]].
  eapply sem_ok_tasks; [exact Hok|exact Hok'|by apply unlock_tasks, Hso| |done|].
  - rewrite (same_but_state_size _ _ Hsb). by eapply size_insert_same.
  - intros y. rewrite (same_but_state_wsem _ _ _ Hsb), wsem_insert. case_decide; [|done]. subst.
    by rewrite (wsem_some _ _ _ Ht).
Qed.

Lemma setpriority_kernel_ok irq s T q x p :
  sem_ok s T → q ∈ queues → x ∈ T q → x ≠ g_idletcb → returns (sched_setpriority irq x p) s (λ _, steps_to s T).
Proof.
  intros Hok Hq Hx Hi. pose proof (sm_sched _ _ Hok) as Hso. destruct (decide (1 ≤ p ≤ 255)) as [Hp|Hp].
  - eapply returns_mono; [by eapply sched_setpriority_ok|].
    intros r s' (T' & Hok' & Ht & Hsb & (Hk & _ & Hh & _) & _). exists T'.
    split; [|eapply (evolves_upd _ _ _ _ _ Hsb); [by apply same_members_tasks|by intros y; apply pid_alter|done]].
    eapply sem_ok_tasks; try done.
    + rewrite (same_but_state_size _ _ Hsb). unfold reprio. rewrite <-!size_dom. by rewrite dom_alter_L.
    + intros y. rewrite (same_but_state_wsem _ _ _ Hsb). by apply wsem_alter.
  - unfold sched_setpriority. apply returns_bind. eapply returns_rtr_head; [apply (rq_lists _ _ _ (so_rq _ _ Hso))|].
    unfold SCHED_PRIORITY_MIN, SCHED_PRIORITY_MAX. replace ((p <? 1) || (255 <? p)) with true by lia.
    apply returns_bind. eapply returns_mono; [by apply set_errno_ok|]. intros [] s' (Hok' & He & _). apply returns_ret. by exists T.
Qed.

Lemma rotate_tasks m D T : rq_ok m D T → same_tasks T (rotate D T).
Proof.
  intros Hok. pose proof (prioritized_ready _ _ (rq_lists _ _ _ Hok)) as (_ & _ & _ & P3 & _).
  destruct (running_head _ _ _ Hok) as [r Er]. unfold rotate. rewrite Er. simpl. split.
  - rewrite fn_lookup_insert, fn_lookup_insert_ne by done. by rewrite insert_prio_perm, Er.
  - intros q Hq H1 H2. by rewrite fn_lookup_insert_ne.
Qed.

Lemma slice_sem_ok irq s T t :
  sem_ok s T → k_tcbs s !! running T = Some t →
  returns (sched_process_timeslice irq) s (λ _ s', sem_ok s' (slice_lists (k_tcbs s) T) ∧
    evolves s T s' (slice_lists (k_tcbs s) T) ∧ same_tasks T (slice_lists (k_tcbs s) T) ∧
    same_but_state (<[running T:=slice_tcb t]> (k_tcbs s)) (k_tcbs s')).
Proof.
  intros Hok Ht. pose proof (sm_sched _ _ Hok) as Hso. pose proof (so_rq _ _ Hso) as Hrq.
  eapply returns_mono; [by apply (sched_process_timeslice_ok irq s T t)|]. intros b s' (Hok' & (Hk & _ & Hh & _) & Hsb).
  assert (Hst : same_tasks T (slice_lists (k_tcbs s) T)).
  { unfold slice_lists. rewrite Ht. destruct (tail _); [done|]. destruct (_ && _); [|done]. by eapply rotate_tasks. }
  assert (Hkeep : pid (slice_tcb t) = pid t ∧ waitsem (slice_tcb t) = waitsem t).
  { unfold slice_tcb. destruct (slice_over t); [done|]. by destruct (_ && _). }
  split; [|split; [|by split]].
  - eapply sem_ok_tasks; [exact Hok|exact Hok'|done| |done|].
    + rewrite (same_but_state_size _ _ Hsb). by eapply size_insert_same.
    + intros y. rewrite (same_but_state_wsem _ _ _ Hsb), wsem_insert. case_decide; [|done]. subst.
      rewrite (wsem_some _ _ _ Ht). apply Hkeep.
  - eapply (evolves_upd _ _ _ _ _ Hsb); [by apply same_members_tasks|intros y; by eapply pid_insert, Hkeep|done].
Qed.

Lemma slice_kernel_ok irq s T : sem_ok s T → returns (sched_process_timeslice irq) s (λ _, steps_to s T).
Proof.
  intros Hok. destruct (head_tcb _ _ (so_rq _ _ (sm_sched _ _ Hok))) as (t & Ht & _).
  eapply returns_mono; [by apply slice_sem_ok|]. intros b s' (Hok' & He & _). by eexists.
Qed.

Lemma wait_kernel_ok s T sem :
  sem_ok s T → running T ≠ g_idletcb → partial (sem_wait false sem) s (λ _, steps_to s T).
Proof.
  intros Hok Hi. pose proof (so_rq _ _ (sm_sched _ _ Hok)) as Hrq. destruct (head_tcb _ _ Hrq) as (t & Ht & Hn).
  destruct (decide (sem ≠ NULL ∧ is_Some (k_sems s !! sem))) as [[Hs [c Hc]]|Hno].
  - apply returns_partial. eapply returns_mono; [by apply (sem_wait_ok s T t sem c)|]. intros r s'.
    apply sem_wait_evolves; done.
  - unfold sem_wait. apply partial_bind, returns_partial. eapply returns_rtr_head; [apply (rq_lists _ _ _ Hrq)|].
    apply partial_bind, partial_assert. intros _. apply partial_bind, returns_partial.
    eapply returns_mono; [by apply set_errno_ok|]. intros [] s' (Hok' & He' & Hs'). unfold nonnull. destruct (sem =? 0) eqn:E0; simpl.
    + apply partial_ret. by exists T.
    + apply partial_bind, partial_semcount. intros c Hc. exfalso. apply Hno. rewrite Hs' in Hc. split; [lia|by eexists].
Qed.

(** sem_trywait takes a count or changes nothing but errno. *)
Lemma trywait_kernel_ok s T sem : sem_ok s T → partial (sem_trywait false sem) s (λ _, steps_to s T).
Proof.
  intros Hok. pose proof (so_rq _ _ (sm_sched _ _ Hok)) as Hrq.
  unfold sem_trywait. apply partial_bind, returns_partial. eapply returns_rtr_head; [apply (rq_lists _ _ _ Hrq)|].
  apply partial_bind, partial_assert. intros _. apply partial_bind, returns_partial.
  eapply returns_mono; [by apply set_errno_ok|]. intros [] s1 (Hok1 & He1 & _). destruct (nonnull sem); [|apply partial_ret; by exists T].
  apply partial_bind, returns_partial. eapply returns_mono; [by apply set_errno_ok|]. intros [] s2 (Hok2 & He2 & _).
  assert (He : evolves s T s2 T) by (by eapply evolves_trans).
  apply partial_bind, partial_semcount. intros c Hc. destruct (0 <? c) eqn:Ec; [|apply partial_ret; by exists T].
  destruct (head_tcb _ _ (so_rq _ _ (sm_sched _ _ Hok2))) as (t & Ht & _).
  pose proof (running_nowait _ _ Hok2) as Hnw. rewrite (wsem_some _ _ _ Ht) in Hnw.
  pose proof (sem_take s2 T (running T) t sem c Hok2 Ht Hnw Hc ltac:(lia)) as Htake.
  apply returns_elim in Htake as ([] & s3 & E3 & Hok3 & ->). unfold mbind, M_bind in E3.
  apply partial_bind. intros [] s3' E3'. rewrite E3' in E3. apply partial_bind. intros [] s4 E4. rewrite E3 in E4.
  injection E4 as <-. apply partial_ret. by exists T.
Qed.

Lemma post_kernel_ok irq s T sem : sem_ok s T → partial (sem_post irq sem) s (λ _, steps_to s T).
Proof.
  intros Hok. destruct (decide (sem = NULL)) as [->|Hs]; [by apply partial_ret, steps_to_refl|].
  destruct (k_sems s !! sem) as [c|] eqn:Hc.
  - destruct (decide (c < SEM_VALUE_MAX)) as [Hlt|Hge].
    + apply returns_partial. eapply returns_mono; [by apply (sem_post_ok irq s T sem c)|]. intros r s' (_ & Hh & Hp).
      destruct (c <? 0).
      * destruct Hp as (l1 & x & l2 & t & (E & _) & Ht & Hok' & _ & Hsb). eapply wake_evolves; [exact E|exact Ht| |exact Hok'|exact Hsb|exact Hh]; done.
      * destruct Hp as (_ & Hok' & Ht). exists T. split; [done|]. split; [done|]. split; [by rewrite Ht|done].
    + unfold sem_post, nonnull. rewrite (proj2 (Z.eqb_neq _ _)) by done. cbn [negb]. apply partial_bind, partial_semcount.
      intros c' Hc'. rewrite Hc in Hc'. injection Hc' as <-. apply partial_bind, partial_assert. lia.
  - unfold sem_post, nonnull. rewrite (proj2 (Z.eqb_neq _ _)) by done. cbn [negb]. apply partial_bind, partial_semcount.
    intros c' Hc'. congruence.
Qed.

Lemma waitirq_kernel_ok irq s T x e :
  sem_ok s T → x ∈ T g_waitingforsemaphore → returns (sem_waitirq irq x e) s (λ _, steps_to s T).
Proof.
  intros Hok Hx. pose proof (so_rq _ _ (sm_sched _ _ Hok)) as Hrq.
  destruct (rq_tcb _ _ _ Hrq _ x waitsem_in Hx) as (t & Ht & _). destruct (sm_wait _ _ Hok x Hx) as [_ [c Hc]].
  rewrite (wsem_some _ _ _ Ht) in Hc. pose proof Hx as (l1 & l2 & E)%list_elem_of_split.
  eapply returns_mono; [by apply (sem_waitirq_ok irq s T l1 x l2 t (waitsem t) c e)|].
  intros b s' (Hok' & _ & Hh & Hsb & _). eapply wake_evolves; [exact E|exact Ht| |exact Hok'|exact Hsb|exact Hh]; done.
Qed.

Lemma resume_kernel_ok s T k : sem_ok s T → partial (resume false k) s (λ _, steps_to s T).
Proof.
  intros Hok. pose proof (so_rq _ _ (sm_sched _ _ Hok)) as Hrq. pose proof (steps_to_refl s T Hok) as Hst.
  destruct k as [r|x r|r|]; simpl.
  - by apply partial_ret.
  - apply partial_bind. unfold sched_unlock_rr. apply partial_bind, partial_tcb. intros t Ht.
    destruct (_ && _); [|by do 2 apply partial_ret].
    apply partial_bind, returns_partial. eapply returns_rtr_head; [apply (rq_lists _ _ _ Hrq)|].
    destruct (negb _); [|by do 2 apply partial_ret]. apply returns_partial.
    eapply returns_updt; [done|]. apply partial_ret. exists T. split; [by eapply sem_ok_field|by eapply evolves_field].
  - by eapply returns_partial, unlock_kernel_ok.
  - apply partial_bind. intros e s' E. apply partial_ret. unfold get_errno in E. simpl in E. revert E.
    apply (partial_bind _ _ _ (λ _, steps_to s T)), returns_partial. eapply returns_rtr_head; [apply (rq_lists _ _ _ Hrq)|].
    destruct (nonnull _); [|by intros ? ? [= _ <-]]. apply partial_bind, partial_tcb. intros t Ht.
    destruct (_ =? _); by intros ? ? [= _ <-].
Qed.

(** Every step keeps the invariant, and the tasks. *)
Lemma kstep_evolves s T s' : sem_ok s T → kstep s s' → steps_to s T s'.
Proof.
  intros Hok Hst. pose proof (sm_sched _ _ Hok) as Hso. pose proof (so_rq _ _ Hso) as Hrq.
  destruct Hst as [st b s s' Hi Hb Hne E|irq q x b s s' Hx Hq H1 H2 H3 E|s s' E|ret r s s' E|irq q x p r s s' Hx Hq Hi E
    |b s s' E|sem r s s' Hi E|sem r s s' E|irq sem r s s' E|irq x e b s s' Hx E|k r s s' E].
  - rewrite (so_run _ _ Hso) in *. by eapply (returns_partial _ _ _ (block_kernel_ok s T st Hok Hi Hb Hne)).
  - apply (queued_in s T) in Hx; [|done..].
    by eapply (returns_partial _ _ _ (unblock_kernel_ok irq s T q x Hok Hq H1 H2 H3 Hx)).
  - by eapply (lock_kernel_ok s T Hok).
  - by eapply (returns_partial _ _ _ (unlock_kernel_ok s T ret Hok)).
  - apply (queued_in s T) in Hx; [|done..]. by eapply (returns_partial _ _ _ (setpriority_kernel_ok irq s T q x p Hok Hq Hx Hi)).
  - by eapply (returns_partial _ _ _ (slice_kernel_ok true s T Hok)).
  - rewrite (so_run _ _ Hso) in Hi. by eapply (wait_kernel_ok s T sem Hok Hi).
  - by eapply (trywait_kernel_ok s T sem Hok).
  - by eapply (post_kernel_ok irq s T sem Hok).
  - apply (queued_in s T) in Hx; [|done|apply waitsem_in].
    by eapply (returns_partial _ _ _ (waitirq_kernel_ok irq s T x e Hok Hx)).
  - by eapply (resume_kernel_ok s T k Hok).
Qed.

Lemma kstep_ok s s' : kernel_ok s → kstep s s' → kernel_ok s'.
Proof. intros [T Hok] Hst. destruct (kstep_evolves s T s' Hok Hst) as (T' & Hok' & _). by exists T'. Qed.

Lemma ksteps_ok s s' : kernel_ok s → rtc kstep s s' → kernel_ok s'.
Proof. intros Hok Hs. induction Hs; [done|]. eauto using kstep_ok. Qed.
End Kernel.
