(* ===== verification/KernelThms.v ===== *)
(** The theorems about the scheduler and the semaphores. *)

From Stdlib Require Import Sorting.Sorted.
From stdpp Require Import functions relations.
From S2P Require Import Prelude Links Queue Sched Sem SchedList SchedInv SchedOps SchedMerge SchedSwitch SchedKernel SchedApi SchedEntry SchedPrio SchedSlice SemInv SemSpec Kernel.

Section KernelThms.
Context `{Globals}.
Implicit Types (T : Z → list Z) (s : kstate) (q x y sem c : Z) (irq : bool).

(** C1: whatever sequence of scheduler and semaphore calls, interrupts and
    timer ticks runs, the processor executes the first task of the
    ready-to-run list, no ready task has a higher priority than it, and no
    task is left pending unless it has locked the scheduler. *)
Theorem kernel_runs_highest_priority s0 T0 s :
  sem_ok s0 T0 → rtc kstep s0 s →
  ∃ rest, dq_repr (k_mem s) g_readytorun (k_running s :: rest) ∧
    (∀ x, queued s g_readytorun x → prio (k_tcbs s) x ≤ prio (k_tcbs s) (k_running s)) ∧
    (lock (k_tcbs s) (k_running s) = 0 → ∀ x, ¬ queued s g_pendingtasks x).
Proof.
  intros Hok Hs. destruct (ksteps_ok s0 s (ex_intro _ T0 Hok) Hs) as [T HT].
  pose proof (sm_sched _ _ HT) as Hso. pose proof (so_rq _ _ Hso) as Hrq. pose proof (rq_lists _ _ _ Hrq) as Hl.
  destruct (running_head _ _ _ Hrq) as [r Er]. rewrite (so_run _ _ Hso). exists r. split_and!.
  - rewrite <-Er. by apply (lo_repr _ _ Hl), ready_in.
  - intros x Hx. apply (queued_in s T) in Hx; [|done|apply ready_in].
    pose proof (prioritized_ready _ _ Hl) as (P1 & _). pose proof (rq_desc _ _ _ Hrq _ ready_in P1) as Hd.
    rewrite Er in Hx, Hd. apply StronglySorted_inv in Hd as [_ Hd]. rewrite Forall_forall in Hd.
    apply elem_of_cons in Hx as [->|Hx]; [done|by apply Hd].
  - intros Hk x Hx. apply (queued_in s T) in Hx; [|done|apply pending_in].
    destruct (so_pend _ _ Hso) as [E|Hn]; [rewrite E in Hx; set_solver|done].
Qed.

(** C11: at any time, a semaphore with count -n < 0 has exactly n waiting tasks
    and one with count 0 or more has none; no count overflows its int16_t. *)
Theorem semaphore_counts_waiters s0 T0 s sem c :
  sem_ok s0 T0 → rtc kstep s0 s → k_sems s !! sem = Some c →
  - CONFIG_MAX_TASKS ≤ c ≤ SEM_VALUE_MAX ∧
  ∃ l, dq_repr (k_mem s) g_waitingforsemaphore l ∧
    Z.of_nat (length (filter (λ x, wsem (k_tcbs s) x = sem) l)) = Z.max 0 (- c).
Proof.
  intros Hok Hs Hc. destruct (ksteps_ok s0 s (ex_intro _ T0 Hok) Hs) as [T HT]. split; [by eapply sem_bound|].
  pose proof (so_rq _ _ (sm_sched _ _ HT)) as Hrq. exists (T g_waitingforsemaphore). split.
  - by apply (lo_repr _ _ (rq_lists _ _ _ Hrq)), waitsem_in.
  - by apply (sm_count _ _ HT sem c).
Qed.

(** C13: sem_post gives the count to the waiter of highest priority, the one
    that has waited longest among those, and makes it ready: it runs at once
    when it has a higher priority than the running task and the scheduler is
    not locked; without waiters the count goes up by one. *)
Theorem sem_post_correct irq s T sem c :
  sem_ok s T → sem ≠ NULL → k_sems s !! sem = Some c → c < SEM_VALUE_MAX →
  returns (sem_post irq sem) s (λ r s', k_sems s' = <[sem:=c + 1]> (k_sems s) ∧
    if c <? 0 then
      ∃ l1 x l2, let T' := wake_lists (k_tcbs s) T l1 x l2 in
        T g_waitingforsemaphore = l1 ++ x :: l2 ∧ wsem (k_tcbs s) x = sem ∧
        (∀ y, y ∈ l1 → wsem (k_tcbs s) y ≠ sem) ∧
        (∀ y, y ∈ waiters (k_tcbs s) T sem → prio (k_tcbs s) y ≤ prio (k_tcbs s) x) ∧
        sem_ok s' T' ∧ T' g_waitingforsemaphore = l1 ++ l2 ∧ (x ∈ T' g_readytorun ∨ x ∈ T' g_pendingtasks) ∧
        (lock (k_tcbs s) (running T) = 0 → prio (k_tcbs s) (running T) < prio (k_tcbs s) x → k_running s' = x)
    else r = Returned OK ∧ sem_ok s' T ∧ k_tcbs s' = k_tcbs s).
Proof.
  intros Hok Hs Hc Hm. pose proof (so_rq _ _ (sm_sched _ _ Hok)) as Hrq. pose proof (rq_lists _ _ _ Hrq) as Hl.
  pose proof (prioritized_ready _ _ Hl) as (_ & _ & _ & P3 & P4 & P5).
  eapply returns_mono; [by apply (sem_post_ok irq s T sem c)|]. intros r s' (Hk & _ & Hp). split; [done|].
  destruct (c <? 0); [|done]. destruct Hp as (l1 & x & l2 & t & Hfw & Ht & Hok' & _ & _).
  exists l1, x, l2. pose proof Hfw as (E & Hx & Hl1). split_and!; try done.
  - by rewrite Forall_forall in Hl1.
  - intros y. by apply (first_waiter_highest _ _ _ _ _ _ _ Hok Hfw).
  - by apply (wake_waiting (k_mem s)).
  - unfold wake_lists, unblock_lists, add_ready. destruct (held _ _ _).
    + right. rewrite fn_lookup_insert. apply insert_prio_elem. by left.
    + left. rewrite fn_lookup_insert. apply insert_prio_elem. by left.
  - intros Hk0 Hlt. rewrite (so_run _ _ (sm_sched _ _ Hok')). unfold wake_lists, unblock_lists, add_ready, held.
    assert (HR : running (<[g_waitingforsemaphore:=l1 ++ l2]> T) = running T)
      by (unfold running; by rewrite fn_lookup_insert_ne).
    rewrite HR, Hk0. simpl. rewrite running_upd, fn_lookup_insert_ne by done.
    destruct (running_head _ _ _ Hrq) as [rr Er]. rewrite Er. simpl.
    by replace (prio (k_tcbs s) x <=? prio (k_tcbs s) (running T)) with false by lia.
Qed.

(** C14: sem_wait takes a count when there is one; otherwise the caller goes to
    sleep behind the waiters of at least its priority and the next ready task
    runs. *)
Theorem sem_wait_correct s T t sem c :
  sem_ok s T → running T ≠ g_idletcb → sem ≠ NULL → k_sems s !! sem = Some c →
  k_tcbs s !! running T = Some t →
  returns (sem_wait false sem) s (λ r s', k_sems s' = <[sem:=c - 1]> (k_sems s) ∧
    if 0 <? c then r = Returned OK ∧ sem_ok s' T
    else r = Suspended RSemWait ∧ ∃ T', sem_ok s' T' ∧ k_running s' ≠ running T ∧
      T' g_waitingforsemaphore = insert_prio (prio (k_tcbs s)) (running T) (T g_waitingforsemaphore) ∧
      T' g_readytorun = merge_prio (prio (k_tcbs s)) (tail (T g_readytorun)) (T g_pendingtasks)).
Proof.
  intros Hok Hi Hs Hc Ht. pose proof (so_rq _ _ (sm_sched _ _ Hok)) as Hrq. pose proof (rq_lists _ _ _ Hrq) as Hl.
  pose proof (prioritized_ready _ _ Hl) as (_ & _ & _ & P3 & P4 & P5).
  eapply returns_mono; [by apply (sem_wait_ok s T t sem c)|]. intros r s' (Hk & _ & Hp). split; [done|].
  destruct (0 <? c); [by destruct Hp as (? & ? & _)|]. destruct Hp as (-> & Hok' & _). split; [done|].
  eexists. split; [exact Hok'|]. assert (Hw := sleep_waiting (k_tcbs s) T P4 P5). split_and!; [|done|].
  - rewrite (so_run _ _ (sm_sched _ _ Hok')). intros E. apply P4.
    pose proof (so_rq _ _ (sm_sched _ _ Hok')) as Hrq'. destruct (running_head _ _ _ Hrq') as [rr Er].
    eapply (lists_unique _ _ _ _ (running T) (rq_lists _ _ _ Hrq')); auto with sched.
    + rewrite Hw. apply insert_prio_elem. by left.
    + rewrite Er, E. set_solver.
  - unfold sleep_lists, block_lists, release. rewrite merged_ready. unfold add_blocked. simpl.
    by rewrite !(fn_lookup_insert_ne _ g_waitingforsemaphore), fn_lookup_insert, fn_lookup_insert_ne by done.
Qed.

(** The wait of a task on a semaphore nobody else waits for, however it ends. *)
Lemma sole_waiter s T t sem s1 T1 :
  sem_ok s T → k_sems s !! sem = Some 0 → k_tcbs s !! running T = Some t → sem_ok s1 T1 →
  T1 g_waitingforsemaphore = insert_prio (prio (k_tcbs s)) (running T) (T g_waitingforsemaphore) →
  same_but_state (<[running T:=set_pterrno 0 (set_waitsem sem t)]> (k_tcbs s)) (k_tcbs s1) →
  ∀ x, x ∈ waiters (k_tcbs s1) T1 sem → x = running T.
Proof.
  intros Hok Hc Ht Hok1 Hw Hsb x [Hx Hin]%list_elem_of_filter. rewrite Hw in Hin.
  apply insert_prio_elem in Hin as [?|Hin]; [done|]. destruct (decide (x = running T)) as [|Hne]; [done|exfalso].
  rewrite (same_but_state_wsem _ _ _ Hsb), wsem_insert, decide_False in Hx by done.
  destruct (sm_count _ _ Hok sem 0 Hc) as [_ Hlen].
  assert (Hy : x ∈ waiters (k_tcbs s) T sem) by (by apply list_elem_of_filter).
  destruct (waiters (k_tcbs s) T sem); [set_solver|]. simpl in Hlen. lia.
Qed.

Lemma resume_errno s T t :
  rqs s T → k_tcbs s !! running T = Some t →
  returns (resume false RSemWait) s (λ r s', s' = s ∧
    r = Returned (if negb (pterrno t =? EINTR) && negb (pterrno t =? ETIMEDOUT) then OK else ERROR)).
Proof.
  intros Hrq Ht. destruct (head_running _ _ Hrq) as (t' & Ht' & Hn & Hst). rewrite Ht in Ht'. injection Ht' as <-.
  unfold resume, sem_wait_rest, get_errno. simpl. apply returns_bind, returns_bind.
  eapply returns_rtr_head; [apply (rq_lists _ _ _ Hrq)|]. unfold nonnull. rewrite (proj2 (Z.eqb_neq _ _)) by done. simpl.
  apply returns_bind. eapply returns_tcb; [done|]. rewrite Hst. simpl. by do 2 apply returns_ret.
Qed.

(** C34: a task that waits on a semaphore gets it by the next sem_post: it is
    ready again, the count is back at zero, and when it runs its sem_wait
    returns OK. *)
Theorem sem_wait_post_handoff s T t sem :
  sem_ok s T → running T ≠ g_idletcb → sem ≠ NULL → k_sems s !! sem = Some 0 → k_tcbs s !! running T = Some t →
  returns (r ← sem_wait false sem; _ ← sem_post true sem; mret r) s (λ r s', r = Suspended RSemWait ∧
    ∃ T', sem_ok s' T' ∧ k_sems s' !! sem = Some 0 ∧ (running T ∈ T' g_readytorun ∨ running T ∈ T' g_pendingtasks) ∧
      (k_running s' = running T → returns (resume false RSemWait) s' (λ r s'', r = Returned OK ∧ s'' = s'))).
Proof.
  intros Hok Hi Hs Hc Ht. pose proof (rq_lists _ _ _ (so_rq _ _ (sm_sched _ _ Hok))) as Hl.
  pose proof (prioritized_ready _ _ Hl) as (_ & _ & _ & P3 & P4 & P5).
  apply returns_bind. eapply returns_mono; [by apply (sem_wait_ok s T t sem 0)|].
  intros r s1 (Hk1 & _ & -> & Hok1 & Hsb1). set (T1 := sleep_lists (k_tcbs s) T) in *.
  assert (Hc1 : k_sems s1 !! sem = Some (-1)) by (rewrite Hk1; apply lookup_insert_eq).
  apply returns_bind. eapply returns_mono; [by apply (sem_post_ok true s1 T1 sem (-1))|].
  intros p s2 (Hk2 & _ & l1 & x & l2 & t1 & (E & Hx & Hl1) & Ht1 & Hok2 & _ & Hsb2). apply returns_ret. split; [done|].
  assert (x = running T) as ->.
  { eapply (sole_waiter s T t sem s1 T1); try done; [by apply sleep_waiting|]. apply list_elem_of_filter.
    split; [done|]. rewrite E. set_solver. }
  eexists. split_and!; [exact Hok2|rewrite Hk2; apply lookup_insert_eq| |].
  - unfold wake_lists, unblock_lists, add_ready. destruct (held _ _ _); [right|left];
      rewrite fn_lookup_insert; apply insert_prio_elem; by left.
  - intros Hr. rewrite (so_run _ _ (sm_sched _ _ Hok2)) in Hr.
    destruct (same_but_state_some _ _ (running T) _ Hsb1 (lookup_insert_eq _ _ _)) as [v1 E1].
    rewrite Ht1 in E1. injection E1 as ->.
    destruct (same_but_state_some _ _ (running T) _ Hsb2 (lookup_insert_eq _ _ _)) as [v2 E2].
    rewrite <-Hr in E2. eapply returns_mono; [by eapply resume_errno, E2; apply (sm_sched _ _ Hok2)|].
    intros r s' [-> ->]. done.
Qed.

(** A wait that times out gives its count back and returns ERROR. *)
Theorem sem_wait_timeout s T t sem :
  sem_ok s T → running T ≠ g_idletcb → sem ≠ NULL → k_sems s !! sem = Some 0 → k_tcbs s !! running T = Some t →
  returns (r ← sem_wait false sem; _ ← sem_waitirq true (running T) ETIMEDOUT; mret r) s (λ r s',
    r = Suspended RSemWait ∧ ∃ T', sem_ok s' T' ∧ k_sems s' !! sem = Some 0 ∧
      (k_running s' = running T → returns (resume false RSemWait) s' (λ r s'', r = Returned ERROR ∧ s'' = s'))).
Proof.
  intros Hok Hi Hs Hc Ht. pose proof (rq_lists _ _ _ (so_rq _ _ (sm_sched _ _ Hok))) as Hl.
  pose proof (prioritized_ready _ _ Hl) as (_ & _ & _ & P3 & P4 & P5).
  apply returns_bind. eapply returns_mono; [by apply (sem_wait_ok s T t sem 0)|].
  intros r s1 (Hk1 & _ & -> & Hok1 & Hsb1). set (T1 := sleep_lists (k_tcbs s) T) in *.
  destruct (same_but_state_some _ _ (running T) _ Hsb1 (lookup_insert_eq _ _ _)) as [v1 E1].
  assert (Hin : running T ∈ T1 g_waitingforsemaphore).
  { unfold T1. rewrite sleep_waiting by done. apply insert_prio_elem. by left. }
  pose proof Hin as (l1 & l2 & E)%list_elem_of_split.
  apply returns_bind. eapply returns_mono; [eapply (sem_waitirq_ok true s1 T1 l1 (running T) l2 _ sem (-1)); try done|].
  { rewrite Hk1. apply lookup_insert_eq. }
  intros b s2 (Hok2 & Hk2 & _ & Hsb2 & _). apply returns_ret. split; [done|]. eexists.
  split_and!; [exact Hok2|rewrite Hk2; apply lookup_insert_eq|]. intros Hr.
  rewrite (so_run _ _ (sm_sched _ _ Hok2)) in Hr.
  destruct (same_but_state_some _ _ (running T) _ Hsb2 (lookup_insert_eq _ _ _)) as [v2 E2].
  rewrite <-Hr in E2. eapply returns_mono; [by eapply resume_errno, E2; apply (sm_sched _ _ Hok2)|].
  intros r s' [-> ->]. done.
Qed.

(** C20: sched_mergepending is a stable merge: it puts every pending task behind
    the ready tasks of at least its priority in one pass, empties the pending
    list and tells whether another task is first now. *)
Theorem sched_mergepending_correct s T :
  rqs s T →
  returns sched_mergepending s (λ r s', ∃ T',
    T' g_readytorun = merge_prio (prio (k_tcbs s)) (T g_readytorun) (T g_pendingtasks) ∧
    T' g_readytorun ≡ₚ T g_readytorun ++ T g_pendingtasks ∧ T' g_pendingtasks = [] ∧
    (∀ q, q ≠ g_readytorun → q ≠ g_pendingtasks → T' q = T q) ∧
    rqs s' T' ∧ same_but_state (k_tcbs s) (k_tcbs s') ∧
    r = bool_decide (head (T' g_readytorun) ≠ head (T g_readytorun))).
Proof.
  intros Hrq. pose proof (prioritized_ready _ _ (rq_lists _ _ _ Hrq)) as (_ & _ & _ & P3 & _).
  eapply returns_mono; [by apply sched_mergepending_spec|]. intros r s' (Hmv & Hrq' & ->). eexists.
  rewrite merged_ready, merged_pending by done. split_and!; try done.
  - apply merge_prio_perm.
  - intros q H1 H2. unfold merged. by rewrite !fn_lookup_insert_ne.
  - apply Hmv.
Qed.

(** C35: sched_unlock undoes one sched_lock; the last one releases the pending
    tasks, and the caller is suspended exactly when one of them preempts it. *)
Theorem sched_unlock_correct s T t ret :
  sched_ok s T → k_tcbs s !! running T = Some t →
  returns (sched_unlock false ret) s (λ r s', ∃ T',
    (T' = if lockcount t <=? 1 then release (k_tcbs s) T else T) ∧ sched_ok s' T' ∧ same_tasks T T' ∧
    same_but_state (<[running T:=set_lockcount (Z.max 0 (lockcount t - 1)) t]> (k_tcbs s)) (k_tcbs s') ∧
    r = if k_running s' =? running T then Returned ret else Suspended (RUnlock (running T) ret)).
Proof.
  intros Hok Ht. eapply returns_mono; [by apply (sched_unlock_ok s T t ret)|]. intros r s' (Hok' & _ & Hsb & ->).
  exists (unlock_lists s T). rewrite (so_run _ _ Hok'). split_and!; try done.
  - unfold unlock_lists. by rewrite (lock_some _ _ _ Ht).
  - by apply unlock_tasks, Hok.
Qed.

(** sched_setpriority gives any task but the idle task its new priority and
    keeps the lists in order and the highest task running, on every branch;
    the caller is suspended exactly when another task runs now. *)
Theorem sched_setpriority_correct irq s T q x p :
  sched_ok s T → q ∈ queues → x ∈ T q → x ≠ g_idletcb → 1 ≤ p ≤ 255 →
  returns (sched_setpriority irq x p) s (λ r s', ∃ T', sched_ok s' T' ∧ same_tasks T T' ∧
    same_but_state (alter (set_priority p) x (k_tcbs s)) (k_tcbs s') ∧
    r = if negb irq && negb (k_running s' =? running T) then Suspended (RReturn OK) else Returned OK).
Proof.
  intros Hok Hq Hx Hi Hp. eapply returns_mono; [by eapply sched_setpriority_ok|].
  intros r s' (T' & Hok' & Ht & Hsb & _ & ->). exists T'. rewrite (so_run _ _ Hok'). done.
Qed.

(** A tick of the running round-robin task counts its slice down; at the
    end of the slice, unless it has locked the scheduler, the slice starts anew
    and the task goes behind the ready tasks of its priority if there are any. *)
Theorem sched_process_timeslice_correct s T t :
  sched_ok s T → k_tcbs s !! running T = Some t →
  returns (sched_process_timeslice true) s (λ _ s',
    sched_ok s' (match tail (T g_readytorun) with
                 | n :: _ => if slice_over t && (prio (k_tcbs s) (running T) <=? prio (k_tcbs s) n)
                             then <[g_readytorun:=insert_prio (prio (k_tcbs s)) (running T) (tail (T g_readytorun))]> T
                             else T
                 | [] => T
                 end) ∧
    same_but_state (<[running T:=slice_tcb t]> (k_tcbs s)) (k_tcbs s')).
Proof.
  intros Hok Ht. eapply returns_mono; [by apply (sched_process_timeslice_ok true s T t)|].
  intros b s' (Hok' & _ & Hsb). split; [|done]. unfold slice_lists, rotate in Hok'. rewrite Ht in Hok'.
  by destruct (tail (T g_readytorun)).
Qed.
End KernelThms.

(** * A small system for the witnesses: task 1100 runs with the scheduler
    locked, task 1300 is pending, task 1200 waits for the semaphore at 5000. *)
#[local] Instance demo_globals : Globals := {|
  g_readytorun := 100; g_pendingtasks := 200; g_inactivetasks := 300; g_waitingforsemaphore := 400;
  g_waitingforsignal := 500; g_waitingformqnotempty := 600; g_waitingformqnotfull := 700; g_idletcb := 1000;
|}.

Definition demo_k : kstate := {|
  k_mem := list_to_map
    [(100, 1100); (104, 1000); (200, 1300); (204, 1300); (300, 0); (304, 0); (400, 1200); (404, 1200);
     (500, 0); (504, 0); (600, 0); (604, 0); (700, 0); (704, 0);
     (1000, 0); (1004, 1100); (1100, 1000); (1104, 0); (1200, 0); (1204, 0); (1300, 0); (1304, 0)];
  k_tcbs := list_to_map
    [(1000, Tcb 0 0 TSTATE_TASK_READYTORUN 0 0 0 NULL 0);
     (1100, Tcb 1 100 TSTATE_TASK_RUNNING TCB_FLAG_ROUND_ROBIN 1 5 NULL 0);
     (1200, Tcb 2 150 TSTATE_WAIT_SEM 0 0 0 5000 0);
     (1300, Tcb 3 120 TSTATE_TASK_PENDING 0 0 0 NULL 0)];
  k_sems := list_to_map [(5000, -1); (5004, 0); (5008, 2)];
  k_running := 1100; g_irqerrno := 0; g_pidhash := []; g_cpuload_total := 0;
|}.

Definition demo_T (q : Z) : list Z :=
  if q =? 100 then [1100; 1000] else if q =? 200 then [1300] else if q =? 400 then [1200] else [].

Ltac demo_queue H :=
  unfold queues in H; simpl in H; repeat (apply elem_of_cons in H as [->|H]); [..|by apply elem_of_nil in H].

Ltac demo_mem := repeat match goal with
  | H : _ ∈ _ :: _ |- _ => apply elem_of_cons in H as [->|H]
  | H : _ ∈ [] |- _ => by apply elem_of_nil in H
  end.

(** Everything lies on multiples of 100 and belongs to one list. *)
Definition owner (x : Z) : Z :=
  if x <? 1000 then x else if x <=? 1100 then 100 else if x =? 1200 then 400 else 200.

Lemma demo_owner q : q ∈ queues → ∀ x, x ∈ q :: demo_T q → owner x = q ∧ x `mod` 100 = 0.
Proof.
  intros Hq x Hx. demo_queue Hq; cbv [demo_T Z.eqb Pos.eqb] in Hx; demo_mem; done.
Qed.

Lemma demo_lists : lists_ok (k_mem demo_k) demo_T.
Proof.
  split.
  - apply (bool_decide_unpack _). reflexivity.
  - intros q Hq. demo_queue Hq; (split; [vm_compute; reflexivity|split; [vm_compute; reflexivity|split; [|split]]]);
      cbv [demo_T Z.eqb Pos.eqb dseg spaced]; repeat (split || constructor); vm_compute; done.
  - intros q q' Hq Hq' Hne x y Hx Hy. destruct (demo_owner q Hq x Hx) as [E1 H1].
    destruct (demo_owner q' Hq' y Hy) as [E2 H2]. assert (x ≠ y) by congruence. mod_lia.
Qed.

Lemma demo_rq : rqs demo_k demo_T.
Proof.
  split.
  - apply demo_lists.
  - intros q x Hq Hx. demo_queue Hq; cbv [demo_T Z.eqb Pos.eqb] in Hx; demo_mem; by eexists.
  - intros q Hq _. demo_queue Hq; repeat constructor; vm_compute; congruence.
  - by exists [1100].
  - reflexivity.
  - intros q x Hq Hx Hi. demo_queue Hq; cbv [demo_T Z.eqb Pos.eqb] in Hx; demo_mem; try done; vm_compute; split; congruence.
Qed.

Lemma demo_tcbs_forall (P : tcb_s → Prop) : map_Forall (λ _, P) (k_tcbs demo_k) → ∀ x t, k_tcbs demo_k !! x = Some t → P t.
Proof. intros HP x t. apply HP. Qed.

Lemma demo_sched : sched_ok demo_k demo_T.
Proof.
  split.
  - apply demo_rq.
  - reflexivity.
  - right. done.
  - intros x t. apply (demo_tcbs_forall (λ t, 0 ≤ lockcount t ≤ MAX_LOCK_COUNT)). unfold demo_k; simpl.
    repeat (apply map_Forall_insert_2; [vm_compute; split; congruence|]). apply map_Forall_empty.
Qed.

Lemma demo_sem : sem_ok demo_k demo_T.
Proof.
  split.
  - apply demo_sched.
  - intros sem c Hc. unfold demo_k in Hc; simpl in Hc.
    repeat (apply lookup_insert_Some in Hc as [[<- <-]|[_ Hc]]; [by vm_compute|]). done.
  - intros x Hx. unfold demo_T in Hx; simpl in Hx; demo_mem. split; [done|by eexists].
  - intros q x Hq Hne Hx. demo_queue Hq; cbv [demo_T Z.eqb Pos.eqb] in Hx; demo_mem; done.
  - by vm_compute.
Qed.

(** * Witnesses *)
Definition demo_t : tcb_s := Tcb 1 100 TSTATE_TASK_RUNNING TCB_FLAG_ROUND_ROBIN 1 5 NULL 0.

(** One tick later. *)
Lemma demo_tick : ∃ s, sched_process_timeslice true demo_k = Done (false, s).
Proof. vm_compute. by eexists. Qed.

Lemma kernel_runs_highest_priority_witness :
  ∃ s rest, sched_process_timeslice true demo_k = Done (false, s) ∧
    dq_repr (k_mem s) g_readytorun (k_running s :: rest).
Proof.
  destruct demo_tick as [s E].
  destruct (kernel_runs_highest_priority demo_k demo_T s demo_sem (rtc_once _ _ (step_timeslice _ _ _ E))) as (rest & Hr & _).
  exists s, rest. split; assumption.
Defined.

Lemma semaphore_counts_waiters_witness :
  ∃ l, dq_repr (k_mem demo_k) g_waitingforsemaphore l ∧
    Z.of_nat (length (filter (λ x, wsem (k_tcbs demo_k) x = 5000) l)) = Z.max 0 (- -1).
Proof.
  destruct (semaphore_counts_waiters demo_k demo_T demo_k 5000 (-1) demo_sem (rtc_refl _ _) eq_refl) as (_ & l & Hl & Hn).
  exists l. split; assumption.
Defined.

Lemma sem_post_correct_witness :
  ∃ r s', sem_post true 5000 demo_k = Done (r, s') ∧ k_sems s' !! 5000 = Some 0.
Proof.
  destruct (returns_elim _ _ _ (sem_post_correct true demo_k demo_T 5000 (-1) demo_sem ltac:(done) eq_refl ltac:(done)))
    as (r & s' & E & Hk & _).
  exists r, s'. split; [exact E|]. rewrite Hk. apply lookup_insert_eq.
Defined.

Lemma sem_wait_correct_witness :
  ∃ s' T', sem_wait false 5004 demo_k = Done (Suspended RSemWait, s') ∧ sem_ok s' T' ∧
    T' g_waitingforsemaphore = insert_prio (prio (k_tcbs demo_k)) (running demo_T) (demo_T g_waitingforsemaphore).
Proof.
  destruct (returns_elim _ _ _ (sem_wait_correct demo_k demo_T demo_t 5004 0 demo_sem ltac:(done) ltac:(done) eq_refl eq_refl))
    as (r & s' & E & _ & -> & T' & Hok & _ & Hw & _).
  exists s', T'. split_and!; assumption.
Defined.

Lemma sem_wait_post_handoff_witness :
  ∃ s', (r ← sem_wait false 5004; _ ← sem_post true 5004; mret r) demo_k = Done (Suspended RSemWait, s') ∧
    k_sems s' !! 5004 = Some 0.
Proof.
  destruct (returns_elim _ _ _ (sem_wait_post_handoff demo_k demo_T demo_t 5004 demo_sem ltac:(done) ltac:(done) eq_refl eq_refl))
    as (r & s' & E & -> & T' & _ & Hc & _).
  exists s'. split_and!; assumption.
Defined.

Lemma sem_wait_timeout_witness :
  ∃ s', (r ← sem_wait false 5004; _ ← sem_waitirq true (running demo_T) ETIMEDOUT; mret r) demo_k =
    Done (Suspended RSemWait, s') ∧ k_sems s' !! 5004 = Some 0.
Proof.
  destruct (returns_elim _ _ _ (sem_wait_timeout demo_k demo_T demo_t 5004 demo_sem ltac:(done) ltac:(done) eq_refl eq_refl))
    as (r & s' & E & -> & T' & _ & Hc & _).
  exists s'. split_and!; assumption.
Defined.

Lemma sched_mergepending_correct_witness :
  ∃ r s' T', sched_mergepending demo_k = Done (r, s') ∧ rqs s' T' ∧ T' g_pendingtasks = [].
Proof.
  destruct (returns_elim _ _ _ (sched_mergepending_correct demo_k demo_T demo_rq))
    as (r & s' & E & T' & _ & _ & Hp & _ & Hrq & _).
  exists r, s', T'. split_and!; assumption.
Defined.

Lemma sched_unlock_correct_witness :
  ∃ r s', sched_unlock false 0 demo_k = Done (r, s') ∧ sched_ok s' (release (k_tcbs demo_k) demo_T).
Proof.
  destruct (returns_elim _ _ _ (sched_unlock_correct demo_k demo_T demo_t 0 demo_sched eq_refl))
    as (r & s' & E & T' & HT & Hok & _).
  exists r, s'. split; [exact E|]. by rewrite HT in Hok.
Defined.

Lemma sched_setpriority_correct_witness :
  ∃ r s' T', sched_setpriority false 1200 50 demo_k = Done (r, s') ∧ sched_ok s' T' ∧ same_tasks demo_T T'.
Proof.
  destruct (returns_elim _ _ _ (sched_setpriority_correct false demo_k demo_T g_waitingforsemaphore 1200 50 demo_sched waitsem_in
    ltac:(by apply list_elem_of_singleton) ltac:(done) ltac:(lia))) as (r & s' & E & T' & Hok & Ht & _).
  exists r, s', T'. split_and!; assumption.
Defined.

Lemma sched_process_timeslice_correct_witness :
  ∃ b s', sched_process_timeslice true demo_k = Done (b, s') ∧
    same_but_state (<[running demo_T:=slice_tcb demo_t]> (k_tcbs demo_k)) (k_tcbs s').
Proof.
  destruct (returns_elim _ _ _ (sched_process_timeslice_correct demo_k demo_T demo_t demo_sched eq_refl))
    as (b & s' & E & _ & Hsb).
  exists b, s'. split_and!; assumption.
Defined.
