(* ===== verification/System.v ===== *)
(** The system: the scheduler, the semaphores, the system clock and the
    watchdogs put together, in sem_timedwait and in the timer tick.

    The state nests as the components call each other: the watchdogs run on
    the clock's state, which holds the kernel's and the rest of the system [R]
    (the allocator and the RTC, class [Platform]).  Each watchdog that expires
    calls sem_timeout or a function of another part of the system. *)

From S2P Require Import Prelude Queue Calendar Clock Wdog Sched Sem.

Class Platform (R : Type) := {
  p_malloc : Z → M R Z;
  p_kfree : Z → M R unit;
  p_rtc_getdatetime : M R (tm * Z);
  p_rtc_settime : timespec → M R unit;
}.

(** The kernel, the field waitdog of each TCB, and the rest. *)
Record sysrest (R : Type) := SysRest {
  y_kernel : kstate;
  y_waitdog : gmap Z Z;
  y_plat : R;
}.
Arguments SysRest {_} _ _ _.
Arguments y_kernel {_} _.
Arguments y_waitdog {_} _.
Arguments y_plat {_} _.

Definition ENOMEM : Z := 12.

Section System.
Context {R : Type} `{Platform R} `{Globals}.

Definition set_kernel (k : kstate) (y : sysrest R) : sysrest R := SysRest k (y_waitdog y) (y_plat y).
Definition set_waitdogs (W : gmap Z Z) (y : sysrest R) : sysrest R := SysRest (y_kernel y) W (y_plat y).
Definition set_plat (r : R) (y : sysrest R) : sysrest R := SysRest (y_kernel y) (y_waitdog y) r.

(** Tasks call these, so errno is that of the running task. *)
#[global] Instance sys_rtc : RtcClock (sysrest R) := {
  up_rtc_getdatetime_with_subseconds := zoom y_plat set_plat p_rtc_getdatetime;
  up_rtc_settime tp := zoom y_plat set_plat (p_rtc_settime tp);
  clock_set_errno e := zoom y_kernel set_kernel (set_errno false e);
}.

#[global] Instance sys_alloc : KernelAlloc (clock (sysrest R)) := {
  kmm_malloc n := rest (zoom y_plat set_plat (p_malloc n));
  sched_kfree p := rest (zoom y_plat set_plat (p_kfree p));
  wd_set_errno e := rest (zoom y_kernel set_kernel (set_errno false e));
}.

Definition sys : Type := wdstate (clock (sysrest R)).
Definition kern {A} (e : M kstate A) : M sys A := onext (rest (zoom y_kernel set_kernel e)).
Definition get_waitdog (x : Z) : M sys Z := gets (λ s, default NULL (y_waitdog (c_ext (w_ext s)) !! x)).
Definition set_waitdog (x w : Z) : M sys unit := onext (rest (modify (λ y, set_waitdogs (<[x:=w]> (y_waitdog y)) y))).

(** &g_wdactivelist, &g_wdfreelist; the address of sem_timeout; the other
    functions that watchdogs call. *)
Variables g_wdactivelist g_wdfreelist SEM_TIMEOUT : Z.
Variable other : Z → list Z → M (clock (sysrest R)) unit.

Definition wd_handler (f : Z) (args : list Z) : M (clock (sysrest R)) unit :=
  if f =? SEM_TIMEOUT then rest (zoom y_kernel set_kernel (_ ← sem_timeout true (hd_or 0 args); mret tt))
  else other f args.
Definition wd_call (f : Z) (args : list Z) : M sys unit := onext (wd_handler f args).

(** * sched/sched/sched_processtimer.c *)
Definition sched_process_timer : M sys unit :=
  onext clock_timer;;
  kern sched_process_cpuload;;
  wd_timer g_wdactivelist wd_call;;
  _ ← kern (sched_process_timeslice true);
  mret tt.

(** * sched/task/task_getpid.c *)
Definition getpid : M kstate Z :=
  rtcb ← rtr_head;
  if nonnull rtcb then
    t ← tcb rtcb;
    mret (pid t)
  else mret 0.

(** * sched/semaphore/sem_timedwait.c

    Interrupts are enabled at some places of sem_timedwait, which is cut there
    into four parts.  The first reserves a watchdog: the result is an error
    code or OK. *)
Definition timedwait_reserve (rtcb sem : Z) (abstime : option timespec) : M sys Z :=
  wd ← get_waitdog rtcb;
  assert (wd =? NULL);;
  if negb (bool_decide (is_Some abstime)) || negb (nonnull sem) then mret EINVAL
  else
    wd ← wd_create g_wdfreelist false;
    set_waitdog rtcb wd;;
    mret (if nonnull wd then OK else ENOMEM).

(** From irqsave to the wait.  The result: sem_wait has returned, or the task
    sleeps in it; or the function ends here, with an error code or OK. *)
Inductive timedwait :=
| TwWaited (r : result)
| TwExit (errcode : Z).

Definition timedwait_wait (rtcb sem : Z) (abstime : timespec) : M sys timedwait :=
  ret ← kern (sem_trywait false sem);
  if ret =? OK then mret (TwExit OK)
  else if (tv_nsec abstime <? 0) || (1000000000 <=? tv_nsec abstime) then mret (TwExit EINVAL)
  else
    r ← onext (clock_abstime2ticks CLOCK_REALTIME abstime);
    match r : Z * option Z with
    | (errcode, Some ticks) =>
        if (errcode =? OK) && (ticks <=? 0) then mret (TwExit ETIMEDOUT)
        else if negb (errcode =? OK) then mret (TwExit errcode)
        else
          wd ← get_waitdog rtcb;
          p ← kern getpid;
          wd_start g_wdactivelist wd ticks SEM_TIMEOUT [u32 p];;
          r ← kern (sem_wait false sem);
          mret (TwWaited r)
    | (errcode, None) => mret (TwExit errcode)
    end.

(** After the wait, which returned [ret], to irqrestore; the result is the
    error code. *)
Definition timedwait_stop (rtcb ret : Z) : M sys Z :=
  errcode ← (if ret <? 0 then kern (get_errno false) else mret OK);
  wd ← get_waitdog rtcb;
  _ ← wd_cancel g_wdactivelist wd;
  mret errcode.

(** The exits: with a watchdog to delete, and with an error. *)
Definition timedwait_leave (rtcb : Z) : M sys unit :=
  wd ← get_waitdog rtcb;
  _ ← wd_delete g_wdactivelist g_wdfreelist wd;
  set_waitdog rtcb NULL.

Definition timedwait_return (ret errcode : Z) : M sys Z :=
  if ret <? 0 then kern (set_errno false errcode);; mret ret else mret ret.

(** A task that sleeps in sem_timedwait going on. *)
Definition sem_timedwait_resume (rtcb : Z) : M sys Z :=
  r ← kern (sem_wait_rest false);
  match r with
  | Returned ret =>
      errcode ← timedwait_stop rtcb ret;
      timedwait_leave rtcb;;
      timedwait_return ret errcode
  | Suspended _ => λ _, Fault
  end.

(** The whole, without interruption; when it is suspended,
    [sem_timedwait_resume] is left to do. *)
Definition sem_timedwait (sem : Z) (abstime : option timespec) : M sys result :=
  rtcb ← kern rtr_head;
  errcode ← timedwait_reserve rtcb sem abstime;
  if negb (errcode =? OK) then
    ret ← timedwait_return ERROR errcode;
    mret (Returned ret)
  else
    r ← timedwait_wait rtcb sem (default (Timespec 0 0) abstime);
    match r with
    | TwExit errcode =>
        timedwait_leave rtcb;;
        ret ← timedwait_return (if errcode =? OK then OK else ERROR) errcode;
        mret (Returned ret)
    | TwWaited (Suspended k) => mret (Suspended k)
    | TwWaited (Returned ret) =>
        errcode ← timedwait_stop rtcb ret;
        timedwait_leave rtcb;;
        ret ← timedwait_return ret errcode;
        mret (Returned ret)
    end.
End System.
