(* ===== verification/SystemInv.v ===== *)
(** The invariant of the system apart from the watchdogs' own: the kernel's
    tasks and semaphores, the table of PIDs and the clock; and what the
    functions called from the timer tick do to it. *)

From stdpp Require Import functions.
From S2P Require Import Prelude Links Queue Calendar Clock ClockThms Wdog WdogInv WdogSpec WdogTimer WdogSys.
From S2P Require Import Sched Sem SchedList SchedInv SchedOps SchedMerge SchedSwitch SchedKernel SchedApi SchedEntry SchedPrio SchedSlice SemInv SemSpec SchedMembers Kernel System.

(** What the system needs of the platform: an allocator for the watchdogs,
    which setting the RTC leaves alone. *)
Class PlatformLaws (R : Type) `{Platform R} := {
  p_held : R → list Z → Prop;
  p_arena : Z → Prop;
  p_held_perm r X Y : X ≡ₚ Y → p_held r X → p_held r Y;
  p_held_blocks r X : p_held r X → NoDup (NULL :: X) ∧ Forall p_arena X;
  p_malloc_ok r X : p_held r X →
    returns (p_malloc SIZEOF_WDOG) r (λ p r', p_held r' (if p =? NULL then X else p :: X));
  p_kfree_ok r X p : p_held r (p :: X) → returns (p_kfree p) r (λ _ r', p_held r' X);
  p_rtc_settime_ok r X tp : p_held r X → returns (p_rtc_settime tp) r (λ _ r', p_held r' X);
}.

Section SystemInv.
Context {R : Type} `{PlatformLaws R} `{Globals}.
Implicit Types (e : clock (sysrest R)) (T : Z → list Z) (W : gmap Z Z) (pidof : Z → option Z) (X : list Z) (x y w : Z).

Definition ker e : kstate := y_kernel (c_ext e).
Definition put_ker (k : kstate) e : clock (sysrest R) := set_cext (set_kernel k (c_ext e)) e.
Definition put_plat (r : R) e : clock (sysrest R) := set_cext (set_plat r (c_ext e)) e.

Lemma put_ker_ker k e : ker (put_ker k e) = k.
Proof. done. Qed.
Lemma put_ker_id e : put_ker (ker e) e = e.
Proof. by destruct e as [? ? ? ? []]. Qed.

(** The allocator of the system. *)
#[global] Program Instance sys_alloc_laws : AllocLaws (clock (sysrest R)) := {
  wd_held e X := p_held (y_plat (c_ext e)) X;
  arena := p_arena;
  same_rest e e' := ∃ r, e' = put_plat r e;
}.
Next Obligation. intros e X Y. apply p_held_perm. Qed.
Next Obligation. intros e X. apply p_held_blocks. Qed.
Next Obligation. intros e. exists (y_plat (c_ext e)). by destruct e as [? ? ? ? []]. Qed.
Next Obligation.
  intros e X Hh. apply returns_zoom, returns_zoom. eapply returns_mono; [eapply p_malloc_ok; exact Hh|].
  intros p r Hr. split; [by exists r|exact Hr].
Qed.
Next Obligation.
  intros e X p Hh. apply returns_zoom, returns_zoom. eapply returns_mono; [eapply p_kfree_ok; exact Hh|].
  intros [] r Hr. split; [by exists r|exact Hr].
Qed.

(** * The PID table *)

(** [pidof] gives the PID of each task. *)
Record pids_ok (h : list pidhash_s) pidof : Prop := {
  pi_len : length h = Z.to_nat CONFIG_MAX_TASKS;
  pi_task : ∀ x p, pidof x = Some p → 0 ≤ p < 2 ^ 15 ∧
    ∃ d, h !! Z.to_nat (PIDHASH p) = Some d ∧ ph_pid d = p ∧ ph_tcb d = x;
  pi_tcb : ∀ i d, h !! i = Some d → ph_tcb d ≠ NULL → pidof (ph_tcb d) = Some (ph_pid d);
}.

Lemma pids_inj h pidof x y p : pids_ok h pidof → pidof x = Some p → pidof y = Some p → x = y.
Proof.
  intros Hp Hx Hy. destruct (pi_task _ _ Hp x p Hx) as (_ & d & He & _ & <-).
  destruct (pi_task _ _ Hp y p Hy) as (_ & f & He' & _ & <-). congruence.
Qed.

Lemma pidhash_range p : (Z.to_nat (PIDHASH p) < Z.to_nat CONFIG_MAX_TASKS)%nat.
Proof.
  unfold PIDHASH, CONFIG_MAX_TASKS. change (16 - 1) with (Z.ones 4). rewrite Z.land_ones by lia.
  pose proof (Z.mod_pos_bound p (2 ^ 4)). lia.
Qed.

Lemma returns_pidhash h pidof s p (Q : pidhash_s → kstate → Prop) :
  pids_ok h pidof → g_pidhash s = h →
  (∀ d, h !! Z.to_nat (PIDHASH p) = Some d → Q d s) → returns (pidhash p) s Q.
Proof.
  intros Hp <- HQ. unfold returns, pidhash. destruct (lookup_lt_is_Some_2 (g_pidhash s) (Z.to_nat (PIDHASH p))) as [d He].
  - rewrite (pi_len _ _ Hp). apply pidhash_range.
  - rewrite He. auto.
Qed.

(** sched_gettcb finds the task with a PID, or none. *)
Lemma sched_gettcb_ok s pidof p :
  pids_ok (g_pidhash s) pidof →
  returns (sched_gettcb p) s (λ x s', s' = s ∧ (x ≠ NULL → pidof x = Some p) ∧ (∀ y, pidof y = Some p → x = y)).
Proof.
  intros Hp. unfold sched_gettcb. destruct (Z.leb_spec 0 p).
  - apply returns_bind. eapply returns_pidhash; [done|done|]. intros d He. apply returns_ret. split; [done|]. split.
    + destruct (Z.eqb_spec p (ph_pid d)) as [->|]; [|done]. intros Hn. by apply (pi_tcb _ _ Hp _ d He).
    + intros y Hy. destruct (pi_task _ _ Hp y p Hy) as (_ & f & He' & Hpe & <-). rewrite He in He'. injection He' as <-.
      by rewrite Hpe, Z.eqb_refl.
  - apply returns_ret. split_and!; [done|done|]. intros y Hy. destruct (pi_task _ _ Hp y p Hy). lia.
Qed.

(** * The invariant *)

(** The kernel's invariant; every task is in a list. *)
Definition kern_ok (k : kstate) T : Prop := sem_ok k T ∧ ∀ x, is_Some (k_tcbs k !! x) → member T x.

(** [W] are the watchdogs of sem_timedwait, [X] the blocks of the watchdogs. *)
Record rest_ok W pidof X e : Prop := {
  ro_clock : clock_ok e;
  ro_kernel : ∃ T, kern_ok (ker e) T;
  ro_pids : pids_ok (g_pidhash (ker e)) pidof;
  ro_pid : ∀ x, pid <$> k_tcbs (ker e) !! x = pidof x;
  ro_waitdog : y_waitdog (c_ext e) = W;
  ro_held : wd_held e X;
}.

Lemma kern_ok_steps k T k' : kern_ok k T → steps_to k T k' → ∃ T', kern_ok k' T' ∧ evolves k T k' T'.
Proof.
  intros [Hok Hm] (T' & Hok' & He). exists T'. split; [|done]. split; [done|]. destruct He as (Hs & Hp & _).
  intros x Hx. apply Hs, Hm. specialize (Hp x). destruct (k_tcbs k' !! x) as [t'|]; [|by destruct Hx].
  destruct (k_tcbs k !! x); [by eexists|done].
Qed.

(** A call of the kernel keeps the invariant. *)
Lemma rest_ok_steps W pidof X e T k' : rest_ok W pidof X e → kern_ok (ker e) T → steps_to (ker e) T k' → rest_ok W pidof X (put_ker k' e).
Proof.
  intros Hok HT Hst. destruct (kern_ok_steps _ _ _ HT Hst) as (T' & HT' & _ & Hp & Hh). split.
  - destruct (ro_clock _ _ _ _ Hok). by split.
  - by exists T'.
  - rewrite put_ker_ker, Hh. apply Hok.
  - intros x. rewrite put_ker_ker, Hp. apply Hok.
  - apply (ro_waitdog _ _ _ _ Hok).
  - apply (ro_held _ _ _ _ Hok).
Qed.

(** A task that waits for a semaphore is in its list. *)
Lemma waiting_in k T x t :
  kern_ok k T → k_tcbs k !! x = Some t → task_state t = TSTATE_WAIT_SEM → x ∈ T g_waitingforsemaphore.
Proof.
  intros [Hok Hm] Ht Hst. destruct (Hm x) as (q & Hq & Hx); [by eexists|].
  destruct (rq_tcb _ _ _ (so_rq _ _ (sm_sched _ _ Hok)) q x Hq Hx) as (t' & Ht' & Hst').
  rewrite Ht in Ht'. injection Ht' as <-. rewrite Hst in Hst'. unfold tstate in Hst'.
  destruct (decide (q = g_waitingforsemaphore)) as [->|]; [done|].
  repeat case_decide; discriminate.
Qed.

Lemma waiting_state k T x :
  sem_ok k T → x ∈ T g_waitingforsemaphore → ∃ t, k_tcbs k !! x = Some t ∧ task_state t = TSTATE_WAIT_SEM.
Proof.
  intros Hok Hx. pose proof (so_rq _ _ (sm_sched _ _ Hok)) as Hrq. destruct (rq_tcb _ _ _ Hrq _ x waitsem_in Hx) as (t & Ht & Hst).
  exists t. split; [done|]. rewrite Hst. destruct (blocked_list _ _ TSTATE_WAIT_SEM (rq_lists _ _ _ Hrq) eq_refl) as (_ & _ & _ & _ & _ & Hb). apply Hb.
Qed.

(** * Waiting, and having timed out *)
Definition waits_for (k : kstate) x (sem : Z) : Prop :=
  ∃ t, k_tcbs k !! x = Some t ∧ task_state t = TSTATE_WAIT_SEM ∧ waitsem t = sem.
Definition waiting (k : kstate) x : Prop := ∃ sem, waits_for k x sem.
Definition timed_out (k : kstate) x : Prop :=
  ∃ t, k_tcbs k !! x = Some t ∧ TSTATE_TASK_PENDING ≤ task_state t ≤ TSTATE_TASK_RUNNING ∧
    waitsem t = NULL ∧ pterrno t = ETIMEDOUT.

Definition errno_of (D : gmap Z tcb_s) x : option Z := pterrno <$> D !! x.

Lemma same_but_state_errno D D' x : same_but_state D D' → errno_of D' x = errno_of D x.
Proof.
  intros Hs. unfold errno_of. specialize (Hs x). destruct (D' !! x), (D !! x); simpl in *; try done. injection Hs. congruence.
Qed.

Lemma waits_lists k T x sem :
  kern_ok k T → waits_for k x sem ↔ x ∈ T g_waitingforsemaphore ∧ wsem (k_tcbs k) x = sem.
Proof.
  intros Hok. split.
  - intros (t & Ht & Hst & Hw). split; [by eapply waiting_in|]. by rewrite (wsem_some _ _ _ Ht).
  - intros [Hx Hw]. destruct (waiting_state k T x (proj1 Hok) Hx) as (t & Ht & Hst). exists t.
    by rewrite (wsem_some _ _ _ Ht) in Hw.
Qed.

Lemma out_lists k T x :
  kern_ok k T → timed_out k x ↔ (x ∈ T g_readytorun ∨ x ∈ T g_pendingtasks) ∧ errno_of (k_tcbs k) x = Some ETIMEDOUT.
Proof.
  intros [Hok Hm]. pose proof (so_rq _ _ (sm_sched _ _ Hok)) as Hrq.
  pose proof (prioritized_ready _ _ (rq_lists _ _ _ Hrq)) as (_ & _ & _ & P3 & P4 & P5). split.
  - intros (t & Ht & Hst & Hw & He). split; [|unfold errno_of; rewrite Ht; simpl; congruence].
    destruct (Hm x) as (q & Hq & Hx); [by eexists|]. destruct (rq_tcb _ _ _ Hrq q x Hq Hx) as (t' & Ht' & Hst').
    rewrite Ht in Ht'. injection Ht' as <-. unfold tstate in Hst'.
    destruct (decide (q = g_readytorun)) as [->|]; [by left|]. destruct (decide (q = g_pendingtasks)) as [->|]; [by right|].
    exfalso. repeat case_decide; rewrite Hst' in Hst; by destruct Hst.
  - intros [Hx He]. unfold errno_of in He.
    assert (∃ q, q ∈ queues ∧ q ≠ g_waitingforsemaphore ∧ x ∈ T q ∧ (q = g_readytorun ∨ q = g_pendingtasks))
      as (q & Hq & Hne & Hxq & Hqq).
    { destruct Hx; [exists g_readytorun|exists g_pendingtasks]; auto with sched. }
    destruct (rq_tcb _ _ _ Hrq q x Hq Hxq) as (t & Ht & Hst). rewrite Ht in He. injection He as He. exists t.
    pose proof (sm_nowait _ _ Hok q x Hq Hne Hxq) as Hw. rewrite (wsem_some _ _ _ Ht) in Hw. split_and!; try done.
    + rewrite Hst. unfold tstate. destruct Hqq as [-> | ->]; repeat case_decide; done.
    + rewrite Hst. unfold tstate. destruct Hqq as [-> | ->]; repeat case_decide; done.
Qed.

(** ** Waking a task *)
Lemma wake_joins D T l1 y l2 m :
  lists_ok m T → T g_waitingforsemaphore = l1 ++ y :: l2 →
  let T' := wake_lists D T l1 y l2 in
  (y ∈ T' g_readytorun ∨ y ∈ T' g_pendingtasks) ∧
  ∀ x, x ∈ T g_readytorun ∨ x ∈ T g_pendingtasks → x ∈ T' g_readytorun ∨ x ∈ T' g_pendingtasks.
Proof.
  intros Hl E T'. pose proof (prioritized_ready _ _ Hl) as (_ & _ & _ & P3 & P4 & P5).
  unfold T', wake_lists, unblock_lists, add_ready. destruct (SchedOps.held _ _ _); split.
  - right. rewrite fn_lookup_insert, insert_prio_elem. by left.
  - intros x [Hx|Hx]; [left; by rewrite !fn_lookup_insert_ne|right].
    rewrite fn_lookup_insert, insert_prio_elem, fn_lookup_insert_ne by done. by right.
  - left. rewrite fn_lookup_insert, insert_prio_elem. by left.
  - intros x [Hx|Hx]; [left|right; by rewrite !fn_lookup_insert_ne].
    rewrite fn_lookup_insert, insert_prio_elem, fn_lookup_insert_ne by done. by right.
Qed.

(** What waking [y] with TCB [t'] means for the tasks. *)
Lemma wake_tasks k T k' l1 y l2 t t' :
  kern_ok k T → T g_waitingforsemaphore = l1 ++ y :: l2 → k_tcbs k !! y = Some t → pterrno t' = ETIMEDOUT →
  kern_ok k' (wake_lists (k_tcbs k) T l1 y l2) → same_but_state (<[y:=t']> (k_tcbs k)) (k_tcbs k') →
  timed_out k' y ∧ (∀ x, waiting k' x → waiting k x) ∧
  (∀ x sem, x ≠ y → waits_for k x sem → waits_for k' x sem) ∧ (∀ x, timed_out k x → timed_out k' x).
Proof.
  intros Hok E Ht He Hok' Hsb. pose proof Hok as [Hs _]. pose proof (rq_lists _ _ _ (so_rq _ _ (sm_sched _ _ Hs))) as Hl.
  destruct (wake_joins (k_tcbs k) T l1 y l2 _ Hl E) as [Hy Hx]. split_and!.
  - apply (out_lists _ _ _ Hok'). split; [done|]. rewrite (same_but_state_errno _ _ _ Hsb). unfold errno_of.
    rewrite lookup_insert_eq. simpl. congruence.
  - intros x [sem [Hw Hws]%(waits_lists _ _ _ _ Hok')]. exists (wsem (k_tcbs k) x). apply (waits_lists _ _ _ _ Hok). split; [|done].
    rewrite (wake_waiting (k_mem k)) in Hw by done. rewrite E. apply elem_of_app in Hw. apply elem_of_app. rewrite elem_of_cons. tauto.
  - intros x sem Hne [Hw Hws]%(waits_lists _ _ _ _ Hok). apply (waits_lists _ _ _ _ Hok').
    rewrite (wake_waiting (k_mem k)) by done. split.
    + rewrite E in Hw. apply elem_of_app in Hw. apply elem_of_app. rewrite elem_of_cons in Hw. tauto.
    + rewrite (same_but_state_wsem _ _ _ Hsb), wsem_insert. by rewrite decide_False.
  - intros x [Hq Hex]%(out_lists _ _ _ Hok). apply (out_lists _ _ _ Hok'). split; [by apply Hx|].
    rewrite (same_but_state_errno _ _ _ Hsb). unfold errno_of. destruct (decide (x = y)) as [->|].
    + rewrite lookup_insert_eq. simpl. congruence.
    + by rewrite lookup_insert_ne.
Qed.

Lemma task_nonnull k T x : kern_ok k T → is_Some (k_tcbs k !! x) → x ≠ NULL.
Proof.
  intros [Hok Hm] Hx. destruct (Hm x Hx) as (q & Hq & Hin).
  pose proof (lo_repr _ _ (rq_lists _ _ _ (so_rq _ _ (sm_sched _ _ Hok))) q Hq) as (_ & _ & _ & _ & Hn).
  rewrite Forall_forall in Hn. by apply Hn.
Qed.

(** ** sem_timeout *)
Lemma sem_timeout_ok k T pidof p :
  kern_ok k T → pids_ok (g_pidhash k) pidof → (∀ x, pid <$> k_tcbs k !! x = pidof x) →
  returns (sem_timeout true p) k (λ _ k', steps_to k T k' ∧ (∀ x, waiting k' x → waiting k x) ∧
    (∀ x, pidof x = Some (s16 p) → ∀ sem, waits_for k x sem → timed_out k' x) ∧
    (∀ x, pidof x ≠ Some (s16 p) → ∀ sem, waits_for k x sem → waits_for k' x sem) ∧
    (∀ x, timed_out k x → timed_out k' x)).
Proof.
  intros Hok Hp Hpid. unfold sem_timeout. apply returns_bind.
  eapply returns_mono; [by apply sched_gettcb_ok|]. intros y k1 (-> & Hy & Huniq).
  destruct (decide (y = NULL)) as [->|Hn]; unfold nonnull.
  { apply returns_ret. split_and!; [by apply steps_to_refl, Hok|done| |done|done].
    intros x Hx sem (t & Ht & _). exfalso. eapply task_nonnull; [done|by exists t|]. symmetry. by apply Huniq. }
  rewrite (proj2 (Z.eqb_neq _ _)) by done. cbn [negb]. specialize (Hy Hn).
  pose proof (Hpid y) as Hpy. rewrite Hy in Hpy. destruct (k_tcbs k !! y) as [t|] eqn:Ht; [|done].
  apply returns_bind. eapply returns_tcb; [exact Ht|]. destruct (Z.eqb_spec (task_state t) TSTATE_WAIT_SEM) as [Hst|Hst].
  - pose proof (waiting_in _ _ _ _ Hok Ht Hst) as Hin. pose proof Hin as (l1 & l2 & E)%list_elem_of_split.
    destruct Hok as [Hs Hm]. destruct (sm_wait _ _ Hs y Hin) as [_ [c Hc]]. rewrite (wsem_some _ _ _ Ht) in Hc.
    eapply returns_mono; [by apply (sem_waitirq_ok true k T l1 y l2 t (waitsem t) c ETIMEDOUT)|].
    intros b k' (Hok' & _ & Hh & Hsb & _). set (t' := set_timeslice _ _) in Hsb.
    assert (Hst' : steps_to k T k') by (eapply wake_evolves; [exact E|exact Ht| |exact Hok'|exact Hsb|exact Hh]; done).
    split; [done|].
    assert (Hk' : kern_ok k' (wake_lists (k_tcbs k) T l1 y l2)).
    { split; [done|]. intros x Hx. apply (same_members_unblock (k_tcbs k) T g_waitingforsemaphore l1 y l2 waitsem_in E), Hm.
      destruct Hx as [tx Hx]. pose proof (same_but_state_pid _ _ x Hsb) as Hpx. rewrite Hx in Hpx.
      destruct (decide (x = y)) as [->|]; [by eexists|]. rewrite lookup_insert_ne in Hpx by done. by destruct (k_tcbs k !! x). }
    destruct (wake_tasks k T k' l1 y l2 t t' (conj Hs Hm) E Ht eq_refl Hk' Hsb) as (HA & HN & HB & HC). split_and!; [done| | |done].
    + intros x Hx sem _. by rewrite <-(Huniq x Hx).
    + intros x Hx sem Hw. apply HB; [|done]. by intros ->.
  - apply returns_ret. split_and!; [by apply steps_to_refl, Hok|done| |done|done].
    intros x Hx sem (tx & Htx & Hsx & _). exfalso. rewrite <-(Huniq x Hx), Ht in Htx. by injection Htx as <-.
Qed.
End SystemInv.
