(* ===== verification/SystemTick.v ===== *)
(** The timer tick of the system: it keeps the invariant, and ends the waits
    whose time has come. *)

From stdpp Require Import functions.
From S2P Require Import Prelude Links Queue Calendar Clock ClockThms Wdog WdogInv WdogSpec WdogTimer WdogSys.
From S2P Require Import Sched Sem SchedList SchedInv SchedOps SchedMerge SchedSwitch SchedKernel SchedApi SchedEntry SchedPrio SchedSlice SemInv SemSpec SchedMembers Kernel System SystemInv.

Section Tick.
Context {R : Type} `{PlatformLaws R} `{Globals}.
Implicit Types (e : clock (sysrest R)) (k : kstate) (T : Z → list Z) (W : gmap Z Z) (pidof : Z → option Z) (X : list Z) (x y w : Z).

(** ** The CPU load *)
Definition same_entries (h h' : list pidhash_s) : Prop :=
  (λ d, (ph_tcb d, ph_pid d)) <$> h' = (λ d, (ph_tcb d, ph_pid d)) <$> h.

Lemma cpuload_shift_entries h n : same_entries h (cpuload_shift h n).1.
Proof.
  unfold same_entries. revert n. induction h as [|d h IH]; intros n; simpl; [done|].
  specialize (IH (u32 (n + Z.shiftr (ph_ticks d) 1))). destruct (cpuload_shift h _) as [h' n']. exact (f_equal (cons _) IH).
Qed.

Lemma insert_entries h i d n : h !! i = Some d → same_entries h (<[i:=set_ticks n d]> h).
Proof.
  intros Hd. unfold same_entries. rewrite list_fmap_insert. apply list_insert_id. by rewrite list_lookup_fmap, Hd.
Qed.

Lemma pids_ok_entries h h' pidof : same_entries h h' → pids_ok h pidof → pids_ok h' pidof.
Proof.
  intros Hs Hp. assert (Hl : ∀ i, (λ d, (ph_tcb d, ph_pid d)) <$> h' !! i = (λ d, (ph_tcb d, ph_pid d)) <$> h !! i).
  { intros i. by rewrite <-!list_lookup_fmap, Hs. }
  split.
  - rewrite <-(pi_len _ _ Hp). apply (f_equal length) in Hs. by rewrite !length_fmap in Hs.
  - intros x p Hx. destruct (pi_task _ _ Hp x p Hx) as (Hr & d & Hd & Hdp & Hdt). split; [done|].
    specialize (Hl (Z.to_nat (PIDHASH p))). rewrite Hd in Hl. destruct (h' !! _) as [d'|]; [|done].
    injection Hl as E1 E2. exists d'. split_and!; [done|congruence..].
  - intros i d' Hd' Hn. specialize (Hl i). rewrite Hd' in Hl. destruct (h !! i) as [d|] eqn:Hd; [|done].
    injection Hl as E1 E2. rewrite E1, E2. apply (pi_tcb _ _ Hp i); [done|]. congruence.
Qed.

Lemma kern_ok_load k T h n : kern_ok k T → kern_ok (set_load h n k) T.
Proof. intros [Hs Hm]. split; [|done]. split; try apply Hs. split; apply Hs. Qed.

Lemma cpuload_ok k T pidof :
  kern_ok k T → pids_ok (g_pidhash k) pidof → (∀ x, pid <$> k_tcbs k !! x = pidof x) →
  returns sched_process_cpuload k (λ _ k', kern_ok k' T ∧ k_tcbs k' = k_tcbs k ∧ pids_ok (g_pidhash k') pidof).
Proof.
  intros Hok Hp Hpid. pose proof (so_rq _ _ (sm_sched _ _ (proj1 Hok))) as Hrq.
  destruct (head_tcb _ _ Hrq) as (t & Ht & _).
  unfold sched_process_cpuload. apply returns_bind. eapply returns_rtr_head; [apply (rq_lists _ _ _ Hrq)|].
  apply returns_bind. eapply returns_tcb; [exact Ht|]. apply returns_bind.
  eapply returns_pidhash; [exact Hp|done|]. intros d Hd. apply returns_bind, returns_gets, returns_bind, returns_gets.
  pose proof (insert_entries _ _ _ (u32 (ph_ticks d + 1)) Hd) as Hi. set (h1 := <[_:=_]> (g_pidhash k)) in *.
  assert (Hset : ∀ h n, same_entries (g_pidhash k) h → kern_ok (set_load h n k) T ∧ k_tcbs (set_load h n k) = k_tcbs k ∧
     pids_ok (g_pidhash (set_load h n k)) pidof).
  { intros h n Hh. split_and!; [by apply kern_ok_load|done|by eapply pids_ok_entries]. }
  destruct (_ <? _); [|by apply returns_modify, Hset]. pose proof (cpuload_shift_entries h1 0) as Hsh.
  destruct (cpuload_shift h1 0) as [h2 n2]. apply returns_modify, Hset. exact (eq_trans Hsh Hi).
Qed.

(** ** The time slice *)
Lemma slice_ok k T :
  kern_ok k T →
  returns (sched_process_timeslice true) k (λ _ k', steps_to k T k' ∧ (∀ x, waiting k' x → waiting k x) ∧
    (∀ x sem, waits_for k x sem → waits_for k' x sem) ∧ (∀ x, timed_out k x → timed_out k' x)).
Proof.
  intros Hok. pose proof (so_rq _ _ (sm_sched _ _ (proj1 Hok))) as Hrq.
  pose proof (prioritized_ready _ _ (rq_lists _ _ _ Hrq)) as (_ & _ & _ & P3 & P4 & P5).
  destruct (head_tcb _ _ Hrq) as (t & Ht & _).
  eapply returns_mono; [by apply slice_sem_ok; [apply Hok|]|]. intros b k' (Hok' & He & Hst & Hsb).
  set (T' := slice_lists (k_tcbs k) T) in *.
  assert (Hk' : kern_ok k' T').
  { destruct (kern_ok_steps k T k' Hok) as (T1 & [_ Hm] & Hs1 & _); [by exists T'|]. split; [done|].
    intros x Hx. apply Hm, Hs1 in Hx. by apply He. }
  assert (Hsl : waitsem (slice_tcb t) = waitsem t ∧ pterrno (slice_tcb t) = pterrno t).
  { unfold slice_tcb. destruct (slice_over t); [done|]. by destruct (_ && _). }
  assert (Hwl : T' g_waitingforsemaphore ≡ₚ T g_waitingforsemaphore) by (apply (proj2 Hst); [apply waitsem_in|done..]).
  split_and!; [by exists T'| | |].
  - intros x [sem [Hx _]%(waits_lists _ _ _ _ Hk')]. rewrite Hwl in Hx. eexists. by apply (waits_lists _ _ _ _ Hok).
  - intros x sem [Hx Hw]%(waits_lists _ _ _ _ Hok). apply (waits_lists _ _ _ _ Hk'). split.
    + by rewrite Hwl.
    + rewrite (same_but_state_wsem _ _ _ Hsb), wsem_insert. case_decide as Ex; [|done]. rewrite (proj1 Hsl), <-Hw.
      rewrite (wsem_some (k_tcbs k) x t); [done|congruence].
  - intros x [Hx Hex]%(out_lists _ _ _ Hok). apply (out_lists _ _ _ Hk'). split.
    + apply elem_of_app. rewrite (proj1 Hst). by apply elem_of_app.
    + rewrite (same_but_state_errno _ _ _ Hsb). unfold errno_of in *. destruct (decide (x = running T)) as [->|].
      * rewrite lookup_insert_eq. rewrite Ht in Hex. simpl in *. by rewrite (proj2 Hsl).
      * by rewrite lookup_insert_ne.
Qed.

(** ** The functions that watchdogs call *)
Variables g_wdactivelist SEM_TIMEOUT : Z.
Variable other : Z → list Z → M (clock (sysrest R)) unit.

(** What the timer relies on for the functions of other components: they
    return, keep the invariant, and put no task to sleep. *)
Definition others_ok W pidof X : Prop := ∀ f args e, rest_ok W pidof X e →
  returns (other f args) e (λ _ e', rest_ok W pidof X e' ∧ ∀ x, waiting (ker e') x → waiting (ker e) x).

(** They leave task [x] alone, which waits. *)
Definition others_spare x : Prop := ∀ f args e r e', other f args e = Done (r, e') →
  (waiting (ker e) x → waiting (ker e') x) ∧ (timed_out (ker e) x → timed_out (ker e') x).

Local Abbreviation handler := (wd_handler SEM_TIMEOUT other).
Local Abbreviation call := (wd_call SEM_TIMEOUT other).

(** The call [c] of a watchdog ends the wait of [x]. *)
Definition targets pidof x (c : option (Z * list Z)) : Prop :=
  ∃ args, c = Some (SEM_TIMEOUT, args) ∧ pidof x = Some (s16 (hd_or 0 args)).
#[global] Instance targets_dec pidof x c : Decision (targets pidof x c).
Proof.
  destruct c as [[f args]|]; [|right; by intros (? & ? & _)].
  destruct (decide (f = SEM_TIMEOUT ∧ pidof x = Some (s16 (hd_or 0 args)))) as [[-> Hd]|Hd]; [left; by exists args|].
  right. intros (a & [= -> ->] & Ha). by apply Hd.
Qed.

(** What calls that end the wait of [x], or do not ([b]), do to it. *)
Definition wait_outcome x (b : bool) e e' : Prop :=
  (∀ y, waiting (ker e') y → waiting (ker e) y) ∧ (b = true → ¬ waiting (ker e') x) ∧
  (others_spare x → (waiting (ker e) x → if b then timed_out (ker e') x else waiting (ker e') x) ∧
    (timed_out (ker e) x → timed_out (ker e') x)).

Lemma timed_out_not_waiting k x : timed_out k x → ¬ waiting k x.
Proof. intros (t & Ht & Hs & _) (sem & t' & Ht' & Hs' & _). rewrite Ht in Ht'. injection Ht' as <-. rewrite Hs' in Hs. by destruct Hs. Qed.

Lemma wait_outcome_refl x e : wait_outcome x false e e.
Proof. done. Qed.

Lemma wait_outcome_trans x b1 b2 e1 e2 e3 : wait_outcome x b1 e1 e2 → wait_outcome x b2 e2 e3 → wait_outcome x (b1 || b2) e1 e3.
Proof.
  intros (A1 & A2 & A3) (B1 & B2 & B3). split_and!; [by auto| |].
  - destruct b1; [|done]. intros _ Hw. by apply A2, B1.
  - intros Hq. destruct (A3 Hq) as [C1 C2], (B3 Hq) as [D1 D2]. split; [|by auto].
    intros Hw%C1. destruct b1; [by apply D2|by apply D1].
Qed.

Lemma handler_ok W pidof X x f args e :
  others_ok W pidof X → rest_ok W pidof X e →
  returns (handler f args) e (λ _ e', rest_ok W pidof X e' ∧ wait_outcome x (bool_decide (targets pidof x (Some (f, args)))) e e').
Proof.
  intros Ho Hok. unfold wd_handler. destruct (Z.eqb_spec f SEM_TIMEOUT) as [->|Hf].
  - destruct (ro_kernel _ _ _ _ Hok) as [T HT]. apply returns_zoom, returns_zoom, returns_bind.
    eapply returns_mono; [eapply sem_timeout_ok; [exact HT|apply (ro_pids _ _ _ _ Hok)|apply (ro_pid _ _ _ _ Hok)]|].
    intros b k' (Hst & HN & HA & HB & HC). apply returns_ret. change (set_cext _ e) with (put_ker k' e). split; [by eapply rest_ok_steps|].
    unfold wait_outcome. rewrite put_ker_ker. destruct (bool_decide_reflect (targets pidof x (Some (SEM_TIMEOUT, args)))) as [Ht|Ht].
    + assert (Hp : pidof x = Some (s16 (hd_or 0 args))) by (by destruct Ht as (a & [= <-] & Ha)).
      split_and!; [done| |].
      * intros _ Hw. destruct (HN x Hw) as [sem Hw']. exact (timed_out_not_waiting _ _ (HA x Hp sem Hw') Hw).
      * intros _. split; [intros [sem Hw]; by eapply HA|apply HC].
    + split_and!; [done|done|]. intros _. split; [|apply HC]. intros [sem Hw]. exists sem. apply HB; [|done].
      intros Hp. apply Ht. by eexists.
  - rewrite bool_decide_eq_false_2 by (intros (a & [= ? ?] & _); done).
    pose proof (Ho f args e Hok) as Hr. apply returns_elim in Hr as (r & e' & E & Hok' & HN).
    eapply returns_intro; [exact E|]. split; [done|]. split_and!; [done|done|]. intros Hq. by eapply Hq.
Qed.

Definition wd_effect (f : Z) (args : list Z) e : clock (sysrest R) :=
  match handler f args e with Done (_, e') => e' | _ => e end.

Lemma effect_ok W pidof X x f args e :
  others_ok W pidof X → rest_ok W pidof X e →
  rest_ok W pidof X (wd_effect f args e) ∧ wait_outcome x (bool_decide (targets pidof x (Some (f, args)))) e (wd_effect f args e).
Proof.
  intros Ho Hok. pose proof (handler_ok W pidof X x f args e Ho Hok) as Hr.
  apply returns_elim in Hr as ([] & e' & E & Hr). unfold wd_effect. by rewrite E.
Qed.

Lemma sys_handlers W pidof X : others_ok W pidof X → handlers_ok call wd_effect (rest_ok W pidof X).
Proof.
  intros Ho f args s Hok. unfold wd_call, onext. apply returns_zoom.
  pose proof (handler_ok W pidof X 0 f args (w_ext s) Ho Hok) as Hr. apply returns_elim in Hr as ([] & e' & E & Hr & _).
  eapply returns_intro; [exact E|]. unfold wd_effect. by rewrite E.
Qed.

Lemma run_calls_outcome W pidof X x D xs e :
  others_ok W pidof X → rest_ok W pidof X e →
  rest_ok W pidof X (run_calls wd_effect D xs e) ∧
  wait_outcome x (existsb (λ w, bool_decide (targets pidof x (callof D w))) xs) e (run_calls wd_effect D xs e).
Proof.
  intros Ho. revert e. induction xs as [|w xs IH]; intros e Hok; [done|]. unfold run_calls. simpl.
  assert (Hs : rest_ok W pidof X (run_call wd_effect (callof D w) e) ∧
    wait_outcome x (bool_decide (targets pidof x (callof D w))) e (run_call wd_effect (callof D w) e)).
  { destruct (callof D w) as [[f args]|]; [by apply effect_ok|]. rewrite bool_decide_eq_false_2; [done|]. by intros (? & ? & _). }
  destruct Hs as [Hok1 HA]. destruct (IH _ Hok1) as [Hok2 HB]. split; [exact Hok2|]. by eapply wait_outcome_trans.
Qed.

(** * The invariant of the system *)
Variables g_wdfreelist : Z.
Variable pool : list Z.
Context (Hlay : wd_layout g_wdactivelist g_wdfreelist pool).
Implicit Types (s : wdstate (clock (sysrest R))) (tl : timeline) (fl P U : list Z).

Definition waitdog s x : Z := default NULL (y_waitdog (c_ext (w_ext s)) !! x).

(** The watchdogs in use are those that clients hold, [U], and those of the
    tasks in sem_timedwait, one each; the function sem_timeout is called for
    such a task only, by its own watchdog. *)
Record sys_ok s tl fl P X pidof U : Prop := {
  sy_dogs : dogs_ok g_wdactivelist g_wdfreelist pool s tl fl P X;
  sy_rest : rest_ok (y_waitdog (c_ext (w_ext s))) pidof X (w_ext s);
  sy_used : ∀ w, w ∈ P ++ X ↔ w ∈ U ∨ ∃ x, waitdog s x = w ∧ w ≠ NULL;
  sy_client : NoDup U ∧ ∀ x, waitdog s x ≠ NULL → waitdog s x ∉ U;
  sy_task : ∀ x, waitdog s x ≠ NULL → is_Some (pidof x);
  sy_inj : ∀ x y, waitdog s x = waitdog s y → waitdog s x ≠ NULL → x = y;
  sy_timeout : ∀ w args, w ∈ tl.*1 → callof (w_dogs s) w = Some (SEM_TIMEOUT, args) →
    ∃ x p, waitdog s x = w ∧ pidof x = Some p ∧ args = [u32 p];
}.

(** What changes the kernel's state or the timeline only. *)
Lemma sys_ok_keep s s' tl tl' fl P X pidof U :
  sys_ok s tl fl P X pidof U → dogs_ok g_wdactivelist g_wdfreelist pool s' tl' fl P X →
  rest_ok (y_waitdog (c_ext (w_ext s))) pidof X (w_ext s') →
  (∀ w, w ∈ tl'.*1 → w ∈ tl.*1 ∧ callof (w_dogs s') w = callof (w_dogs s) w) → sys_ok s' tl' fl P X pidof U.
Proof.
  intros Hok Hd Hr Ht. assert (Hw : y_waitdog (c_ext (w_ext s')) = y_waitdog (c_ext (w_ext s))) by apply Hr.
  assert (Hws : ∀ x, waitdog s' x = waitdog s x) by (intros x; unfold waitdog; by rewrite Hw).
  split; try done.
  - by rewrite Hw.
  - intros w. setoid_rewrite Hws. apply Hok.
  - setoid_rewrite Hws. apply Hok.
  - setoid_rewrite Hws. apply Hok.
  - setoid_rewrite Hws. apply Hok.
  - intros w args Hin Hc. destruct (Ht w Hin) as [Hin' Hc']. rewrite Hc' in Hc. setoid_rewrite Hws.
    by apply (sy_timeout _ _ _ _ _ _ _ Hok).
Qed.

Definition set_wext e s : wdstate (clock (sysrest R)) := WdState (w_mem s) (w_dogs s) (g_wdnfree s) e.

Lemma sys_ok_ext s tl fl P X pidof U e' :
  sys_ok s tl fl P X pidof U → rest_ok (y_waitdog (c_ext (w_ext s))) pidof X e' → sys_ok (set_wext e' s) tl fl P X pidof U.
Proof.
  intros Hok Hr. eapply sys_ok_keep; [exact Hok| |done|done]. apply dogs_ok_ext; [apply Hok|apply Hr].
Qed.

(** A call of the kernel in the system. *)
Lemma returns_kern {A} (c : M kstate A) s (Q : A → wdstate (clock (sysrest R)) → Prop) :
  returns c (ker (w_ext s)) (λ r k', Q r (set_wext (put_ker k' (w_ext s)) s)) → returns (kern c) s Q.
Proof. intros Hc. by apply returns_zoom, returns_zoom, returns_zoom. Qed.

Lemma wait_outcome_same x e e' : k_tcbs (ker e') = k_tcbs (ker e) → wait_outcome x false e e'.
Proof.
  intros He. assert (Hw : ∀ y sem, waits_for (ker e') y sem ↔ waits_for (ker e) y sem) by (intros; unfold waits_for; by rewrite He).
  split_and!; [|done|].
  - intros y [sem Hs]. exists sem. by apply Hw.
  - intros _. split; [intros [sem Hs]; exists sem; by apply Hw|]. unfold timed_out. by rewrite He.
Qed.

(** * The timer tick *)
Lemma tick_sys s tl fl P X pidof U :
  (∀ W X, others_ok W pidof X) → sys_ok s tl fl P X pidof U →
  returns (sched_process_timer g_wdactivelist SEM_TIMEOUT other) s (λ _ s',
    sys_ok s' (pending (tick tl)) fl P X pidof U ∧ same_dogs (w_dogs s) (w_dogs s') ∧ (∀ y, waitdog s' y = waitdog s y) ∧
    ∀ x, wait_outcome x (existsb (λ w, bool_decide (targets pidof x (callof (w_dogs s) w))) (due (tick tl)).*1) (w_ext s) (w_ext s')).
Proof.
  intros Ho Hok. unfold sched_process_timer.
  apply returns_bind, returns_zoom, returns_modify. set (e1 := set_timer _ (w_ext s)).
  assert (Hr1 : rest_ok (y_waitdog (c_ext (w_ext s))) pidof X e1).
  { destruct (sy_rest _ _ _ _ _ _ _ Hok) as [[Ht Hb Hm] Hk Hp Hpid Hw Hh]. split; try done. split; try done.
    apply u32_range. }
  pose proof (sys_ok_ext _ _ _ _ _ _ _ _ Hok Hr1) as Hok1.
  apply returns_bind, returns_kern. destruct (ro_kernel _ _ _ _ Hr1) as [T HT].
  eapply returns_mono; [eapply cpuload_ok; [exact HT|apply Hr1|apply Hr1]|]. intros [] k2 (HT2 & Ht2 & Hp2).
  set (e2 := put_ker k2 e1).
  assert (Hr2 : rest_ok (y_waitdog (c_ext (w_ext s))) pidof X e2).
  { split; [|by exists T|done| |apply Hr1|apply Hr1].
    - destruct (ro_clock _ _ _ _ Hr1). by split.
    - intros x. unfold e2. rewrite put_ker_ker, Ht2. apply Hr1. }
  pose proof (sys_ok_ext _ _ _ _ _ _ _ _ Hok1 Hr2) as Hok2.
  apply returns_bind. eapply returns_mono.
  { apply (wd_timer_sys _ _ _ Hlay call wd_effect (rest_ok (y_waitdog (c_ext (w_ext s))) pidof X) _ tl fl P X);
      [by apply sys_handlers|intros e He; apply He|apply Hok2|exact Hr2]. }
  intros [] s3 (Hd3 & Hr3 & Hs3 & He3). change (same_dogs (w_dogs s) (w_dogs s3)) in Hs3.
  change (w_ext s3 = run_calls wd_effect (w_dogs s) (due (tick tl)).*1 e2) in He3. apply returns_bind, returns_kern.
  destruct (ro_kernel _ _ _ _ Hr3) as [T3 HT3]. eapply returns_mono; [by apply slice_ok|].
  intros b k4 (Hst & HN & HW & HO). apply returns_ret.
  assert (Hr4 : rest_ok (y_waitdog (c_ext (w_ext s))) pidof X (put_ker k4 (w_ext s3))) by (by eapply rest_ok_steps).
  split_and!; [|exact Hs3| |].
  - eapply sys_ok_keep; [exact Hok|apply dogs_ok_ext; [exact Hd3|apply Hr4]|exact Hr4|]. intros w Hw. split; [by apply pending_tick_sub|].
    apply (proj1 Hs3).
  - intros y. pose proof (ro_waitdog _ _ _ _ Hr4) as Hw4. unfold waitdog. simpl in *. by rewrite Hw4.
  - intros x. change (w_ext (set_wext _ s3)) with (put_ker k4 (w_ext s3)).
    destruct (run_calls_outcome _ pidof X x (w_dogs s) (due (tick tl)).*1 e2 (Ho _ _) Hr2) as [_ Hout].
    rewrite <-He3 in Hout. assert (Hsl : wait_outcome x false (w_ext s3) (put_ker k4 (w_ext s3))).
    { split_and!; [apply HN|done|]. intros _. split; [intros [sem Hw]; exists sem; by apply HW|apply HO]. }
    pose proof (wait_outcome_trans _ _ _ _ _ _ (wait_outcome_trans _ _ _ _ _ _ (wait_outcome_same x (w_ext s) e2 Ht2) Hout) Hsl) as Hall.
    rewrite orb_false_r in Hall. exact Hall.
Qed.
End Tick.
