(* ===== verification/SystemOps.v ===== *)
(** What the operations on kernel, clock and watchdogs do in the system: each
    keeps its invariant. *)

From stdpp Require Import functions.
From S2P Require Import Prelude Links Queue QueueSq Calendar Clock ClockThms Wdog WdogInv WdogSpec WdogTimer WdogSys.
From S2P Require Import Sched Sem SchedList SchedInv SchedOps SemInv SemSpec SchedMembers Kernel System SystemInv SystemTick.

Section Ops.
Context {R : Type} `{PlatformLaws R} `{Globals}.
Variables g_wdactivelist g_wdfreelist SEM_TIMEOUT : Z.
Variable pool : list Z.
Context (Hlay : wd_layout g_wdactivelist g_wdfreelist pool).
Implicit Types (e : clock (sysrest R)) (s : wdstate (clock (sysrest R))) (k : kstate) (T : Z → list Z) (W : gmap Z Z).
Implicit Types (pidof : Z → option Z) (X P U fl : list Z) (tl : timeline) (x y w : Z).
Local Abbreviation sys_ok := (sys_ok g_wdactivelist SEM_TIMEOUT g_wdfreelist pool).
Local Abbreviation dogs_ok := (dogs_ok g_wdactivelist g_wdfreelist pool).

Definition put_waitdogs W e : clock (sysrest R) := set_cext (set_waitdogs W (c_ext e)) e.

(** ** The kernel *)
Lemma sys_ok_kern s tl fl P X pidof U T k' :
  sys_ok s tl fl P X pidof U → kern_ok (ker (w_ext s)) T → steps_to (ker (w_ext s)) T k' →
  sys_ok (set_wext (put_ker k' (w_ext s)) s) tl fl P X pidof U.
Proof. intros Hok HT Hst. apply sys_ok_ext; [done..|]. eapply rest_ok_steps; [apply Hok|done..]. Qed.

(** ** The allocator and the table of watchdogs *)
Lemma rest_ok_plat W pidof X X' e r : rest_ok W pidof X e → wd_held (put_plat r e) X' → rest_ok W pidof X' (put_plat r e).
Proof. intros Hok Hh. split; try apply Hok; [|done]. destruct (ro_clock _ _ _ _ Hok). by split. Qed.

Lemma rest_ok_waitdogs W W' pidof X e : rest_ok W pidof X e → rest_ok W' pidof X (put_waitdogs W' e).
Proof. intros Hok. split; try apply Hok; [|done]. destruct (ro_clock _ _ _ _ Hok). by split. Qed.

(** ** Watchdogs that come into use *)
Definition comes w P X P' X' : Prop := w ≠ NULL ∧ (w ∉ P ++ X) ∧ P' ++ X' ≡ₚ w :: P ++ X.

Lemma create_sys irq s tl fl P X W pidof :
  dogs_ok s tl fl P X → rest_ok W pidof X (w_ext s) → (irq = true → fl ≠ []) →
  returns (wd_create g_wdfreelist irq) s (λ w s', (∃ r, w_ext s' = put_plat r (w_ext s)) ∧
    (∀ y, y ≠ w → w_dogs s' !! y = w_dogs s !! y) ∧
    ∃ fl' P' X', dogs_ok s' tl fl' P' X' ∧ rest_ok W pidof X' (w_ext s') ∧
      if decide (w = NULL) then fl' = fl ∧ P' = P ∧ X' = X ∧ Z.of_nat (length fl) ≤ CONFIG_WDOG_INTRESERVE
      else comes w P X P' X').
Proof.
  intros Hd Hr Hirq. eapply returns_mono; [by eapply wd_create_sys|]. intros w s' ([r He] & Hy & Hc).
  split; [by exists r|]. split; [done|]. rewrite He in *. destruct (irq || _) eqn:Eb.
  - destruct Hc as (fl' & -> & Hd' & He'). assert (Hn : w ≠ NULL).
    { pose proof (sq_elem _ w (do_free _ _ _ _ _ _ _ _ Hd) (list_elem_of_here _ _)) as Hw. apply Hw. }
    exists fl', (w :: P), X. rewrite decide_False by done. split_and!; [done| |split_and!; [done| |done]].
    + eapply rest_ok_plat; [done|]. rewrite <-He. apply (do_held _ _ _ _ _ _ _ _ Hd').
    + eapply do_free_used; [done..|]. apply list_elem_of_here.
  - destruct (Z.eqb_spec w NULL) as [->|Hn].
    + exists fl, P, X. rewrite decide_True by done. apply orb_false_iff in Eb as [_ Eb%Z.ltb_ge].
      split_and!; try done. eapply rest_ok_plat; [done|].
      rewrite <-He. apply (do_held _ _ _ _ _ _ _ _ Hc).
    + exists fl, P, (w :: X). rewrite decide_False by done. split_and!; [done| |split_and!; [done| |by rewrite <-Permutation_middle]].
      * eapply rest_ok_plat; [done|]. rewrite <-He. apply (do_held _ _ _ _ _ _ _ _ Hc).
      * pose proof (do_apart _ _ _ Hlay _ _ _ _ _ Hc) as Hnd. rewrite !NoDup_cons, NoDup_app in Hnd.
        destruct Hnd as (_ & _ & _ & _ & _ & _ & Hnd). rewrite <-Permutation_middle in Hnd. by apply NoDup_cons in Hnd as [? _].
Qed.

(** The new watchdog goes to a client, or to a task in sem_timedwait. *)
Lemma sys_ok_create s s' tl fl fl' P P' X X' pidof U w :
  sys_ok s tl fl P X pidof U → dogs_ok s' tl fl' P' X' → rest_ok (y_waitdog (c_ext (w_ext s))) pidof X' (w_ext s') →
  comes w P X P' X' → (∀ y, y ≠ w → w_dogs s' !! y = w_dogs s !! y) → sys_ok s' tl fl' P' X' pidof (w :: U).
Proof.
  intros Hok Hd Hr (Hn & Hw & HPX) Hy. assert (Ew : y_waitdog (c_ext (w_ext s')) = y_waitdog (c_ext (w_ext s))) by apply Hr.
  assert (Hws : ∀ x, waitdog s' x = waitdog s x) by (intros x; unfold waitdog; by rewrite Ew).
  assert (Hfresh : ∀ x, waitdog s x ≠ NULL → waitdog s x ≠ w).
  { intros x Hx Ex. apply Hw, (sy_used _ _ _ _ _ _ _ _ _ _ _ Hok). right. exists x. by rewrite <-Ex. }
  assert (HwU : w ∉ U) by (intros Hin; apply Hw, (sy_used _ _ _ _ _ _ _ _ _ _ _ Hok); by left).
  destruct (sy_client _ _ _ _ _ _ _ _ _ _ _ Hok) as [Hnd HU].
  split; [done|by rewrite Ew|..]; setoid_rewrite Hws; try apply Hok.
  - intros y. rewrite HPX, !elem_of_cons, (sy_used _ _ _ _ _ _ _ _ _ _ _ Hok). tauto.
  - split; [by apply NoDup_cons|]. intros x Hx [Hxw|Hin]%elem_of_cons; [by eapply Hfresh|by eapply HU].
  - intros y args Hin. unfold callof. rewrite Hy; [by apply (sy_timeout _ _ _ _ _ _ _ _ _ _ _ Hok)|].
    intros ->. by apply Hw, (do_active _ _ _ _ _ _ _ _ (sy_dogs _ _ _ _ _ _ _ _ _ _ _ Hok)).
Qed.

Lemma waitdog_insert s s' x w y :
  y_waitdog (c_ext (w_ext s')) = <[x:=w]> (y_waitdog (c_ext (w_ext s))) →
  waitdog s' y = if decide (y = x) then w else waitdog s y.
Proof.
  intros E. unfold waitdog. rewrite E. case_decide as Hy; [subst; by rewrite lookup_insert_eq|by rewrite lookup_insert_ne].
Qed.

(** A watchdog passes from the clients to task [x]. *)
Lemma sys_ok_assign s tl fl P X pidof U x w :
  sys_ok s tl fl P X pidof (w :: U) → waitdog s x = NULL → is_Some (pidof x) → w ≠ NULL →
  sys_ok (set_wext (put_waitdogs (<[x:=w]> (y_waitdog (c_ext (w_ext s)))) (w_ext s)) s) tl fl P X pidof U.
Proof.
  intros Hok Hx Hp Hn. set (s' := set_wext _ _).
  assert (Hws : ∀ y, waitdog s' y = if decide (y = x) then w else waitdog s y) by (intros y; by apply waitdog_insert).
  destruct (sy_client _ _ _ _ _ _ _ _ _ _ _ Hok) as [[HwU Hnd]%NoDup_cons HU].
  assert (Hr : rest_ok (<[x:=w]> (y_waitdog (c_ext (w_ext s)))) pidof X (w_ext s')).
  { eapply rest_ok_waitdogs, Hok. }
  split; [|exact Hr|..].
  - apply dogs_ok_ext; [apply Hok|apply Hr].
  - intros y. rewrite (sy_used _ _ _ _ _ _ _ _ _ _ _ Hok), elem_of_cons. split.
    + intros [[->|Hy]|(z & Hz & Hy)]; [|by left|].
      * right. exists x. rewrite Hws, decide_True by done. done.
      * right. exists z. rewrite Hws, decide_False; [done|]. intros ->. congruence.
    + intros [Hy|(z & Hz & Hy)]; [by left; right|]. rewrite Hws in Hz. case_decide; [by left; left|]. right. eauto.
  - split; [done|]. intros y Hy. rewrite Hws in *. case_decide; [done|]. intros Hin. eapply HU; [exact Hy|]. by right.
  - intros y. rewrite Hws. case_decide as Hyx; [by subst|]. apply Hok.
  - intros y z. rewrite !Hws. repeat case_decide; try congruence.
    + intros E _. exfalso. eapply (HU z); rewrite <-E; [done|apply list_elem_of_here].
    + intros E _. exfalso. eapply (HU y); rewrite E; [done|apply list_elem_of_here].
    + apply Hok.
  - intros y args Hin Hc. destruct (sy_timeout _ _ _ _ _ _ _ _ _ _ _ Hok y args Hin Hc) as (z & p & Hz & Hpz & Ha).
    exists z, p. rewrite Hws, decide_False; [done|]. intros ->. rewrite Hx in Hz. subst y.
    pose proof (sy_dogs _ _ _ _ _ _ _ _ _ _ _ Hok) as Hd. apply (do_active _ _ _ _ _ _ _ _ Hd) in Hin.
    edestruct dogs_known as (k & Hk & _); [exact Hlay|exact Hd|exact Hin|done].
Qed.

(** ** Starting and stopping *)
Lemma start_sys s tl fl P X pidof U w delay f parms :
  sys_ok s tl fl P X pidof U → w ∈ P ++ X → 0 ≤ delay ≤ INT_MAX → (length parms ≤ 2)%nat →
  (f = SEM_TIMEOUT → ∃ x p, waitdog s x = w ∧ pidof x = Some p ∧ parms = [u32 p]) →
  returns (wd_start g_wdactivelist w delay f parms) s (λ r s', r = 0 ∧ w_ext s' = w_ext s ∧
    sys_ok s' (insert_tl w (Z.min (delay + 1) INT_MAX) (remove_tl w tl)) fl P X pidof U ∧
    (∀ y, y ≠ w → callof (w_dogs s') y = callof (w_dogs s) y) ∧ callof (w_dogs s') w = Some (f, parms)).
Proof.
  intros Hok Hw Hd Hl Hf. eapply returns_mono; [eapply wd_start_sys; [done|apply Hok|done..]|].
  intros r s' (-> & Hd' & He & Hy & Hcw). split_and!; try done.
  assert (Hws : ∀ x, waitdog s' x = waitdog s x) by (intros x; unfold waitdog; by rewrite He).
  split; [done|rewrite He; apply Hok|..]; setoid_rewrite Hws; try apply Hok.
  intros y args Hin Hc. destruct (decide (y = w)) as [->|Hne].
  - rewrite Hcw in Hc. injection Hc as -> ->. by apply Hf.
  - rewrite Hy in Hc by done. apply (sy_timeout _ _ _ _ _ _ _ _ _ _ _ Hok); [|done].
    apply list_elem_of_fmap in Hin as ([z t] & -> & [[= -> ->]|Hin]%insert_tl_elem); [done|].
    apply (remove_tl_sub w). apply list_elem_of_fmap. eauto.
Qed.

Lemma cancel_sys s tl fl P X pidof U w :
  sys_ok s tl fl P X pidof U → w ∈ P ++ X →
  returns (wd_cancel g_wdactivelist w) s (λ r s', r = (if decide (w ∈ tl.*1) then 0 else -1) ∧
    w_ext s' = w_ext s ∧ sys_ok s' (remove_tl w tl) fl P X pidof U ∧ same_dogs (w_dogs s) (w_dogs s')).
Proof.
  intros Hok Hw. eapply returns_mono; [eapply wd_cancel_sys; [done|apply Hok|done]|].
  intros r s' (-> & Hd & He & Hs). split_and!; try done. eapply sys_ok_keep; [exact Hok|done|rewrite He; apply Hok|].
  intros y Hy. split; [by eapply remove_tl_sub|apply Hs].
Qed.

(** ** Watchdogs that are given back *)
Lemma delete_sys s tl fl P X W pidof w :
  dogs_ok s tl fl P X → rest_ok W pidof X (w_ext s) → w ∈ P ++ X →
  returns (wd_delete g_wdactivelist g_wdfreelist w) s (λ r s', r = 0 ∧ (∃ r, w_ext s' = put_plat r (w_ext s)) ∧
    same_dogs (w_dogs s) (w_dogs s') ∧ ∃ fl' P' X', P ++ X ≡ₚ w :: P' ++ X' ∧
      dogs_ok s' (remove_tl w tl) fl' P' X' ∧ rest_ok W pidof X' (w_ext s')).
Proof.
  intros Hd Hr Hw. eapply returns_mono; [eapply wd_delete_sys; done|].
  intros r s' (-> & [p He] & Hs & Hc). split_and!; [done|by exists p|done|]. rewrite He.
  destruct Hc as [(P' & HP & Hd')|(X' & HX & Hd')]; pose proof (do_held _ _ _ _ _ _ _ _ Hd') as Hh; rewrite He in Hh.
  - exists (fl ++ [w]), P', X. split_and!; [by rewrite HP|done|by eapply rest_ok_plat].
  - exists fl, P, X'. split_and!; [by rewrite HX, <-Permutation_middle|done|by eapply rest_ok_plat].
Qed.

(** By the client that held it, or by the task in sem_timedwait. *)
Lemma sys_ok_delete s s' tl fl fl' P P' X X' W' pidof U U' w :
  sys_ok s tl fl P X pidof U → dogs_ok s' (remove_tl w tl) fl' P' X' → rest_ok W' pidof X' (w_ext s') →
  P ++ X ≡ₚ w :: P' ++ X' → same_dogs (w_dogs s) (w_dogs s') →
  (W' = y_waitdog (c_ext (w_ext s)) ∧ U ≡ₚ w :: U' ∨
   ∃ x, waitdog s x = w ∧ W' = <[x:=NULL]> (y_waitdog (c_ext (w_ext s))) ∧ U' = U) →
  sys_ok s' (remove_tl w tl) fl' P' X' pidof U'.
Proof.
  intros Hok Hd Hr HP Hs HW. destruct (sy_client _ _ _ _ _ _ _ _ _ _ _ Hok) as [Hnd HU].
  assert (Ew : y_waitdog (c_ext (w_ext s')) = W') by apply Hr.
  pose proof (sy_dogs _ _ _ _ _ _ _ _ _ _ _ Hok) as Hd0. assert (Hin : w ∈ P ++ X) by (rewrite HP; apply list_elem_of_here).
  assert (Hn : w ≠ NULL) by (edestruct dogs_known as (k & Hk & _); [exact Hlay|exact Hd0|exact Hin|done]).
  assert (Hws : ∀ y, waitdog s' y = if decide (waitdog s y = w) then NULL else waitdog s y).
  { intros y. destruct HW as [[-> HUU]|(x & Hx & -> & _)].
    - unfold waitdog at 1. rewrite Ew. fold (waitdog s y). case_decide as Hy; [|done]. exfalso.
      eapply (HU y); rewrite Hy; [done|]. rewrite HUU. apply list_elem_of_here.
    - rewrite (waitdog_insert s s' x NULL) by done. repeat case_decide; try congruence. exfalso.
      match goal with Hne : y ≠ x |- _ => apply Hne end. apply (sy_inj _ _ _ _ _ _ _ _ _ _ _ Hok); congruence. }
  assert (HUU : NoDup U' ∧ ∀ y, y ∈ U' ↔ y ∈ U ∧ y ≠ w).
  { destruct HW as [[-> HUU]|(x & Hx & -> & ->)].
    - rewrite HUU in Hnd. apply NoDup_cons in Hnd as [Hw Hnd]. split; [done|]. intros y. rewrite HUU, elem_of_cons.
      naive_solver.
    - split; [done|]. intros y. split; [|tauto]. intros Hy. split; [done|]. intros ->. eapply (HU x); by rewrite Hx. }
  assert (Hnot : w ∉ P' ++ X').
  { pose proof (do_apart _ _ _ Hlay _ _ _ _ _ Hd0) as Hnp. rewrite !NoDup_cons, NoDup_app in Hnp.
    destruct Hnp as (_ & _ & _ & _ & _ & _ & Hnp). rewrite HP in Hnp. by apply NoDup_cons in Hnp as [? _]. }
  destruct HUU as [Hnd' HUU]. split; [done|by rewrite Ew|..].
  - intros y. rewrite HUU. setoid_rewrite Hws. pose proof (sy_used _ _ _ _ _ _ _ _ _ _ _ Hok y) as Hu.
    rewrite HP, elem_of_cons in Hu. split.
    + intros Hy. assert (y ≠ w) by (by intros ->). destruct (proj1 Hu (or_intror Hy)) as [?|(x & Hx & ?)]; [by left|].
      right. exists x. by rewrite decide_False by congruence.
    + intros [[Hy Hne]|(x & Hx & Hy)].
      * destruct (proj2 Hu (or_introl Hy)); [done|done].
      * case_decide; [congruence|]. destruct (proj2 Hu); [by right; exists x|congruence|done].
  - split; [done|]. intros x. rewrite Hws, HUU. case_decide; [done|]. intros Hx [Hin' _]. by eapply HU.
  - intros x. rewrite Hws. case_decide; [done|]. apply Hok.
  - intros x y. rewrite !Hws. repeat case_decide; try congruence. apply Hok.
  - intros y args Hy Hc. assert (y ≠ w).
    { intros ->. apply list_elem_of_fmap in Hy as ([z t] & -> & [Hne _]%list_elem_of_filter). done. }
    rewrite <-(proj1 Hs y) in Hc || rewrite (proj1 Hs y) in Hc.
    destruct (sy_timeout _ _ _ _ _ _ _ _ _ _ _ Hok y args) as (x & p & Hx & Hp & Ha); [by eapply remove_tl_sub|done|].
    exists x, p. rewrite Hws, decide_False by congruence. done.
Qed.

(** ** Setting the clock *)
Lemma settime_sys s tl fl P X pidof U tp :
  sys_ok s tl fl P X pidof U → norm tp →
  returns (onext (clock_settime CLOCK_REALTIME tp)) s (λ _ s',
    sys_ok s' tl fl P X pidof U ∧ w_dogs s' = w_dogs s ∧ ∀ y, waitdog s' y = waitdog s y).
Proof.
  intros Hok Hn. pose proof (sy_rest _ _ _ _ _ _ _ _ _ _ _ Hok) as Hr. apply returns_zoom.
  eapply returns_mono.
  { apply (settime_spec (w_ext s) tp (λ v, ∃ r, v = set_plat r (c_ext (w_ext s)) ∧ p_held r X)); [|by apply Hr|done|].
    - apply returns_zoom. eapply returns_mono; [apply p_rtc_settime_ok, (ro_held _ _ _ _ Hr)|]. intros [] r Hh. by exists r.
    - exists (y_plat (c_ext (w_ext s))). split; [by destruct (c_ext (w_ext s))|]. apply (ro_held _ _ _ _ Hr). }
  intros r e' (_ & y & (p & -> & Hh) & ->). split; [|done]. apply (sys_ok_ext _ _ _ _ _ _ _ _ _ _ _ _ Hok).
  split; try apply Hr; [|done]. destruct (ro_clock _ _ _ _ Hr). split; [done| |done]. apply ts_of_norm.
Qed.
End Ops.
