(* ===== verification/SystemSem.v ===== *)
(** sem_timedwait in the system, part by part. *)

From stdpp Require Import functions.
From S2P Require Import Prelude Links Queue QueueSq Calendar Clock ClockThms Wdog WdogInv WdogSpec WdogTimer WdogSys.
From S2P Require Import Sched Sem SchedList SchedInv SchedOps SchedMerge SchedSwitch SchedKernel SchedApi SchedEntry SchedPrio SchedSlice SemInv SemSpec SchedMembers Kernel System SystemInv SystemTick SystemOps.

(** ** Kernel calls of the running task *)
Section Calls.
Context `{Globals}.
Implicit Types (k : kstate) (T : Z → list Z) (x sem c : Z).

(** What keeps the task lists, and [x] running. *)
Definition calls k T k' : Prop := kern_ok k' T ∧ evolves k T k' T ∧ k_running k' = k_running k.

Lemma calls_steps k T k' : calls k T k' → steps_to k T k'.
Proof. intros ([Hok _] & He & _). by exists T. Qed.

Lemma kern_ok_evolves k T k' T' : kern_ok k T → sem_ok k' T' → evolves k T k' T' → kern_ok k' T'.
Proof.
  intros [_ Hm] Hok (Hs & Hp & _). split; [done|]. intros x Hx. apply Hs, Hm. specialize (Hp x).
  destruct (k_tcbs k' !! x); [|by destruct Hx]. by destruct (k_tcbs k !! x).
Qed.

Lemma calls_intro k T k' : kern_ok k T → sem_ok k' T → evolves k T k' T → calls k T k'.
Proof.
  intros Hk Hok He. split; [by eapply kern_ok_evolves|]. split; [done|].
  by rewrite (so_run _ _ (sm_sched _ _ Hok)), (so_run _ _ (sm_sched _ _ (proj1 Hk))).
Qed.

Lemma set_errno_calls k T e :
  kern_ok k T → returns (set_errno false e) k (λ _ k', calls k T k' ∧ k_sems k' = k_sems k ∧ errno_of (k_tcbs k') (running T) = Some e).
Proof.
  intros Hk. pose proof (so_rq _ _ (sm_sched _ _ (proj1 Hk))) as Hrq. destruct (head_tcb _ _ Hrq) as (t & Ht & _).
  eapply returns_mono; [by apply set_errno_spec|]. intros [] k' ->. split_and!; [|done|].
  - apply calls_intro; [done|by eapply sem_ok_field; [apply Hk|..]|by eapply evolves_field].
  - unfold errno_of. simpl. by rewrite lookup_insert_eq.
Qed.

Lemma calls_trans k1 k2 k3 T : calls k1 T k2 → calls k2 T k3 → calls k1 T k3.
Proof. intros (A1 & A2 & A3) (B1 & B2 & B3). split; [done|]. split; [by eapply evolves_trans|congruence]. Qed.

Lemma calls_refl k T : kern_ok k T → calls k T k.
Proof. intros Hk. apply calls_intro; [done|apply Hk|done]. Qed.

(** sem_trywait takes a count when there is one. *)
Lemma sem_trywait_calls k T sem c :
  kern_ok k T → sem ≠ NULL → k_sems k !! sem = Some c →
  returns (sem_trywait false sem) k (λ r k', calls k T k' ∧
    if 0 <? c then r = OK ∧ k_sems k' = <[sem:=c - 1]> (k_sems k) else r = ERROR ∧ k_sems k' = k_sems k).
Proof.
  intros Hk Hs Hc. pose proof (so_rq _ _ (sm_sched _ _ (proj1 Hk))) as Hrq.
  unfold sem_trywait. apply returns_bind. eapply returns_rtr_head; [apply (rq_lists _ _ _ Hrq)|].
  apply returns_bind, returns_assert; [done|]. apply returns_bind.
  eapply returns_mono; [by apply set_errno_calls|]. intros [] k1 (HC1 & Hs1 & _).
  unfold nonnull. rewrite (proj2 (Z.eqb_neq _ _)) by done. cbn [negb]. apply returns_bind.
  eapply returns_mono; [by apply set_errno_calls, HC1|]. intros [] k2 (HC2 & Hs2 & _).
  pose proof (calls_trans _ _ _ _ HC1 HC2) as HC. rewrite <-Hs1, <-Hs2 in *. apply returns_bind.
  eapply returns_semcount; [exact Hc|]. destruct (Z.ltb_spec 0 c); [|by apply returns_ret].
  destruct (head_tcb _ _ (so_rq _ _ (sm_sched _ _ (proj1 (proj1 HC))))) as (t & Ht & _).
  pose proof (running_nowait _ _ (proj1 (proj1 HC))) as Hnw. rewrite (wsem_some _ _ _ Ht) in Hnw.
  pose proof (sem_take k2 T (running T) t sem c (proj1 (proj1 HC)) Ht Hnw Hc ltac:(lia)) as Htake.
  apply returns_elim in Htake as ([] & k3 & E3 & Hok3 & ->). unfold mbind, M_bind in *.
  unfold returns. destruct (set_semcount sem (s16 (c - 1)) k2) as [[[] k2']| |]; try done. rewrite E3. simpl.
  split; [|done]. eapply calls_trans; [exact HC|]. by apply calls_intro; [apply HC|..].
Qed.

Lemma getpid_calls k T t :
  kern_ok k T → k_tcbs k !! running T = Some t → returns getpid k (λ p k', p = pid t ∧ k' = k).
Proof.
  intros Hk Ht. pose proof (so_rq _ _ (sm_sched _ _ (proj1 Hk))) as Hrq. destruct (head_tcb _ _ Hrq) as (t' & _ & Hn).
  unfold getpid. apply returns_bind. eapply returns_rtr_head; [apply (rq_lists _ _ _ Hrq)|]. unfold nonnull.
  rewrite (proj2 (Z.eqb_neq _ _)) by done. cbn [negb]. apply returns_bind. eapply returns_tcb; [exact Ht|]. by apply returns_ret.
Qed.

Lemma sem_wait_sleeps k T sem c :
  kern_ok k T → running T ≠ g_idletcb → sem ≠ NULL → k_sems k !! sem = Some c → c ≤ 0 →
  returns (sem_wait false sem) k (λ r k', r = Suspended RSemWait ∧ steps_to k T k' ∧
    k_sems k' = <[sem:=c - 1]> (k_sems k) ∧ waits_for k' (running T) sem).
Proof.
  intros Hk Hi Hs Hc Hle. pose proof (so_rq _ _ (sm_sched _ _ (proj1 Hk))) as Hrq.
  pose proof (rq_lists _ _ _ Hrq) as Hl. pose proof (prioritized_ready _ _ Hl) as (_ & _ & _ & P3 & P4 & P5).
  destruct (head_tcb _ _ Hrq) as (t & Ht & _).
  eapply returns_mono; [apply (sem_wait_ok k T t sem c); try done; apply Hk|]. intros r k' Hp.
  pose proof (sem_wait_evolves k T t sem c r k' (proj1 Hk) Ht) as Hev. destruct Hp as (Hk' & Hh & Hp).
  rewrite (proj2 (Z.ltb_ge _ _)) in Hp by done. destruct Hp as (-> & Hok' & Hsb).
  split_and!; [done| |done|].
  - apply Hev; try done. split_and!; try done. by rewrite (proj2 (Z.ltb_ge _ _)) by done.
  - assert (Hin : running T ∈ sleep_lists (k_tcbs k) T g_waitingforsemaphore).
    { rewrite sleep_waiting by done. apply insert_prio_elem. by left. }
    destruct (waiting_state k' _ _ Hok' Hin) as (t' & Ht' & Hst). exists t'. split_and!; [done|done|].
    rewrite <-(wsem_some (k_tcbs k') (running T) t' Ht'), (same_but_state_wsem _ _ _ Hsb), wsem_insert. by rewrite decide_True.
Qed.
End Calls.

Section SemTimed.
Context {R : Type} `{PlatformLaws R} `{Globals}.
Variables g_wdactivelist g_wdfreelist SEM_TIMEOUT : Z.
Variable pool : list Z.
Context (Hlay : wd_layout g_wdactivelist g_wdfreelist pool).
Implicit Types (e : clock (sysrest R)) (s : wdstate (clock (sysrest R))) (k : kstate) (T : Z → list Z) (W : gmap Z Z).
Implicit Types (pidof : Z → option Z) (X P U fl : list Z) (tl : timeline) (x y w sem c : Z).
Local Abbreviation sys_ok := (sys_ok g_wdactivelist SEM_TIMEOUT g_wdfreelist pool).

(** The kernel's state and the time are the same. *)
Definition alike s s' : Prop := ker (w_ext s') = ker (w_ext s) ∧ realtime (w_ext s') = realtime (w_ext s).

Lemma alike_plat s s' r : w_ext s' = put_plat r (w_ext s) → alike s s'.
Proof. unfold alike. by intros ->. Qed.

Lemma alike_trans s1 s2 s3 : alike s1 s2 → alike s2 s3 → alike s1 s3.
Proof. intros [A1 A2] [B1 B2]. split; congruence. Qed.

Lemma sys_waitdog s tl fl P X pidof U x : sys_ok s tl fl P X pidof U → waitdog s x ≠ NULL → waitdog s x ∈ P ++ X.
Proof. intros Hok Hx. apply (sy_used _ _ _ _ _ _ _ _ _ _ _ Hok). right. eauto. Qed.

Lemma returns_waitdog x s (Q : Z → wdstate (clock (sysrest R)) → Prop) : Q (waitdog s x) s → returns (get_waitdog x) s Q.
Proof. done. Qed.

(** Noting the watchdog of a task. *)
Definition with_waitdog x w s := set_wext (put_waitdogs (<[x:=w]> (y_waitdog (c_ext (w_ext s)))) (w_ext s)) s.

Lemma with_waitdog_eq x w s : waitdog (with_waitdog x w s) x = w.
Proof. rewrite (waitdog_insert s _ x w) by done. by rewrite decide_True. Qed.

Lemma returns_set_waitdog x w s (Q : unit → wdstate (clock (sysrest R)) → Prop) :
  Q tt (with_waitdog x w s) → returns (set_waitdog x w) s Q.
Proof. done. Qed.

Lemma with_null_ok s tl fl P X pidof U x :
  sys_ok s tl fl P X pidof U → waitdog s x = NULL → sys_ok (with_waitdog x NULL s) tl fl P X pidof U.
Proof.
  intros Hok Hx. assert (Hws : ∀ y, waitdog (with_waitdog x NULL s) y = waitdog s y).
  { intros y. rewrite (waitdog_insert s _ x NULL) by done. case_decide; congruence. }
  pose proof (rest_ok_waitdogs _ (<[x:=NULL]> (y_waitdog (c_ext (w_ext s)))) _ _ _ (sy_rest _ _ _ _ _ _ _ _ _ _ _ Hok)) as Hr.
  split; [|exact Hr|..]; try (setoid_rewrite Hws; apply Hok). apply dogs_ok_ext; [apply Hok|apply Hr].
Qed.

(** ** Before the wait *)
Lemma reserve_sys s tl fl P X pidof U x sem abstime :
  sys_ok s tl fl P X pidof U → waitdog s x = NULL → is_Some (pidof x) →
  returns (timedwait_reserve g_wdfreelist x sem abstime) s (λ r s', alike s s' ∧
    if bool_decide (is_Some abstime ∧ sem ≠ NULL) then ∃ fl' P' X', sys_ok s' tl fl' P' X' pidof U ∧
      (∀ y, y ≠ x → waitdog s' y = waitdog s y) ∧ (∀ v, v ∈ P ++ X → callof (w_dogs s') v = callof (w_dogs s) v) ∧
      (r = ENOMEM ∧ P' ++ X' = P ++ X ∧ waitdog s' x = NULL ∧ Z.of_nat (length fl) ≤ CONFIG_WDOG_INTRESERVE ∨
       r = OK ∧ comes (waitdog s' x) P X P' X')
    else r = EINVAL ∧ s' = s).
Proof.
  intros Hok Hx Hp. unfold timedwait_reserve. apply returns_bind, returns_waitdog, returns_bind.
  apply returns_assert; [by apply Z.eqb_eq|]. unfold nonnull.
  destruct (bool_decide_reflect (is_Some abstime ∧ sem ≠ NULL)) as [[[t ->] Hs]|Hno].
  - rewrite (proj2 (Z.eqb_neq _ _)) by done. cbn [negb orb]. rewrite bool_decide_eq_true_2 by by eexists. cbn [negb orb].
    apply returns_bind. eapply returns_mono; [eapply create_sys; [exact Hlay|apply Hok|apply Hok|done]|].
    intros w s1 ([p He] & Hy & fl' & P' & X' & Hd & Hr & Hc). apply returns_bind, returns_set_waitdog, returns_ret.
    assert (Ha : alike s (with_waitdog x w s1)) by (unfold alike; simpl; rewrite He; done). split; [done|].
    assert (Hwy : ∀ y, waitdog s1 y = waitdog s y) by (intros y; unfold waitdog; by rewrite He).
    assert (Hwz : ∀ y, y ≠ x → waitdog (with_waitdog x w s1) y = waitdog s y).
    { intros y Hyx. rewrite (waitdog_insert s1 _ x w), decide_False by done. apply Hwy. }
    assert (Hnn : NULL ∉ P ++ X).
    { intros Hin. edestruct dogs_known as (k & Hk & _); [exact Hlay|apply Hok|exact Hin|done]. }
    case_decide as Hw.
    + destruct Hc as (-> & -> & -> & Hl). exists fl, P, X. subst w.
      assert (Hcl : ∀ v, v ∈ P ++ X → callof (w_dogs s1) v = callof (w_dogs s) v).
      { intros v Hin. unfold callof. rewrite Hy; [done|]. by intros ->. }
      split_and!; [|done|done|left; split_and!; [done|done|apply with_waitdog_eq|done]].
      apply with_null_ok; [|by rewrite Hwy]. eapply sys_ok_keep; [exact Hok|done|done|].
      intros v Hin. split; [done|]. apply Hcl, (do_active _ _ _ _ _ _ _ _ (sy_dogs _ _ _ _ _ _ _ _ _ _ _ Hok)), Hin.
    + exists fl', P', X'. split_and!.
      * eapply sys_ok_assign; [exact Hlay| |by rewrite Hwy|done|done]. by eapply sys_ok_create.
      * done.
      * intros v Hin. unfold callof. simpl. rewrite Hy; [done|]. intros ->. by apply Hc.
      * right. rewrite with_waitdog_eq. split; [|done]. by destruct (Z.eqb_spec w NULL).
  - destruct (negb _ || _) eqn:E; [by apply returns_ret|]. exfalso. apply Hno.
    apply orb_false_iff in E as [E1 E2]. apply negb_false_iff, bool_decide_eq_true in E1. split; [done|]. lia.
Qed.

(** ** The wait *)
Definition timeout_ticks e (abstime : timespec) : Z :=
  if ns abstime <? ns (realtime e) then -1 else s32 (ticks_for (ns abstime - ns (realtime e))).

Lemma sys_calls s tl fl P X pidof U T k' :
  sys_ok s tl fl P X pidof U → calls (ker (w_ext s)) T k' → kern_ok (ker (w_ext s)) T →
  sys_ok (set_wext (put_ker k' (w_ext s)) s) tl fl P X pidof U.
Proof. intros Hok Hc HT. eapply sys_ok_kern; [exact Hok|exact HT|by apply calls_steps]. Qed.

Lemma wait_sys s tl fl P X pidof U T x sem c t :
  sys_ok s tl fl P X pidof U → kern_ok (ker (w_ext s)) T → running T = x → x ≠ g_idletcb → waitdog s x ≠ NULL →
  sem ≠ NULL → k_sems (ker (w_ext s)) !! sem = Some c → 0 ≤ tv_sec t < 2 ^ 32 →
  let n := timeout_ticks (w_ext s) t in let w := waitdog s x in
  returns (timedwait_wait g_wdactivelist SEM_TIMEOUT x sem t) s (λ r s',
    (∀ y, waitdog s' y = waitdog s y) ∧
    let same := sys_ok s' tl fl P X pidof U ∧ calls (ker (w_ext s)) T (ker (w_ext s')) ∧ w_dogs s' = w_dogs s in
    let sems s' := k_sems (ker (w_ext s')) in
    if 0 <? c then r = TwExit OK ∧ same ∧ sems s' = <[sem:=c - 1]> (sems s)
    else if (tv_nsec t <? 0) || (1000000000 <=? tv_nsec t) then r = TwExit EINVAL ∧ same ∧ sems s' = sems s
    else if n <=? 0 then r = TwExit ETIMEDOUT ∧ same ∧ sems s' = sems s
    else r = TwWaited (Suspended RSemWait) ∧
      sys_ok s' (insert_tl w (Z.min (n + 1) INT_MAX) (remove_tl w tl)) fl P X pidof U ∧
      callof (w_dogs s') w = (λ p, (SEM_TIMEOUT, [u32 p])) <$> pidof x ∧
      (∀ v, v ≠ w → callof (w_dogs s') v = callof (w_dogs s) v) ∧
      sems s' = <[sem:=c - 1]> (sems s) ∧ waits_for (ker (w_ext s')) x sem).
Proof.
  intros Hok HT Hx Hi Hw Hs Hc Ht n w. unfold timedwait_wait. apply returns_bind, returns_kern.
  eapply returns_mono; [by eapply sem_trywait_calls|]. intros r k1 (HC1 & Hr1).
  assert (Hok1 := sys_calls _ _ _ _ _ _ _ _ _ Hok HC1 HT). set (s1 := set_wext (put_ker k1 (w_ext s)) s) in *.
  destruct (0 <? c) eqn:Ec.
  { destruct Hr1 as [-> Hs1]. rewrite Z.eqb_refl. by apply returns_ret. }
  destruct Hr1 as [-> Hs1]. change (ERROR =? OK) with false. cbv iota.
  destruct (_ || _) eqn:En; [by apply returns_ret|]. apply orb_false_iff in En as [En1 En2].
  assert (Hn : norm t) by (split; [done|unfold NSEC_PER_SEC; lia]).
  apply returns_bind, returns_zoom. eapply returns_mono; [apply (abstime2ticks_spec (w_ext s1)); [|done]|].
  { apply (sy_rest _ _ _ _ _ _ _ _ _ _ _ Hok1). }
  intros r e [-> ->]. change (realtime (w_ext s1)) with (realtime (w_ext s)). fold (timeout_ticks (w_ext s) t). fold n.
  rewrite Z.eqb_refl. cbn [andb negb]. destruct (Z.leb_spec n 0) as [|Hpos]; [by apply returns_ret|].
  apply returns_bind, returns_waitdog, returns_bind, returns_kern. pose proof (proj1 HC1) as HT1.
  destruct (head_tcb _ _ (so_rq _ _ (sm_sched _ _ (proj1 HT1)))) as (u & Hu & _). rewrite Hx in Hu.
  pose proof (sy_rest _ _ _ _ _ _ _ _ _ _ _ Hok1) as Hr1. assert (Hp : pidof x = Some (pid u)).
  { rewrite <-(ro_pid _ _ _ _ Hr1). change (ker (w_ext s1)) with k1. by rewrite Hu. }
  eapply returns_mono; [eapply (getpid_calls k1); [exact HT1|by rewrite Hx]|]. intros p k' [-> ->].
  apply returns_bind. eapply returns_mono.
  { apply (start_sys _ _ _ _ Hlay s1 tl fl P X pidof U w n SEM_TIMEOUT [u32 (pid u)] Hok1); [|split|simpl; lia|].
    - by apply (sys_waitdog s1 _ _ _ _ _ _ x Hok1).
    - lia.
    - unfold n, timeout_ticks, INT_MAX. case_match; [done|]. unfold s32. mod_lia.
    - intros _. exists x, (pid u). done. }
  intros _ s2 (_ & He2 & Hok2 & Hoth & Hcall). apply returns_bind, returns_kern. rewrite He2.
  eapply returns_mono; [eapply (sem_wait_sleeps k1 T sem c); [done|congruence|done|by rewrite Hs1|by apply Z.ltb_ge]|].
  intros r k3 (-> & Hst & Hs3 & Hw3). apply returns_ret. change (ker (w_ext s1)) with k1. split.
  { intros y. change (waitdog (set_wext ?e s2) y) with (default NULL (y_waitdog (c_ext (w_ext s1)) !! y)). done. }
  split_and!; [done| | |exact Hoth| |by rewrite <-Hx].
  - rewrite <-He2. eapply sys_ok_kern; [exact Hok2|by rewrite He2|by rewrite He2].
  - by rewrite Hp.
  - rewrite <-Hs1. exact Hs3.
Qed.

(** ** After the wait *)

(** The task has given its watchdog back. *)
Definition ended s tl P X pidof U x s' : Prop :=
  waitdog s' x = NULL ∧ (∀ y, y ≠ x → waitdog s' y = waitdog s y) ∧ (∀ v, callof (w_dogs s') v = callof (w_dogs s) v) ∧
  ∃ fl' P' X', sys_ok s' tl fl' P' X' pidof U ∧ P ++ X ≡ₚ waitdog s x :: P' ++ X'.

Lemma leave_sys s tl fl P X pidof U x :
  sys_ok s tl fl P X pidof U → waitdog s x ≠ NULL →
  returns (timedwait_leave g_wdactivelist g_wdfreelist x) s (λ _ s',
    alike s s' ∧ ended s (remove_tl (waitdog s x) tl) P X pidof U x s').
Proof.
  intros Hok Hx. unfold timedwait_leave. apply returns_bind, returns_waitdog, returns_bind.
  eapply returns_mono; [eapply delete_sys; [exact Hlay|apply Hok|apply Hok|by eapply sys_waitdog]|].
  intros r s1 (-> & [p He] & Hs & fl' & P' & X' & HP & Hd & Hr). apply returns_set_waitdog.
  assert (Ew : y_waitdog (c_ext (w_ext s1)) = y_waitdog (c_ext (w_ext s))) by (by rewrite He).
  split; [by split; simpl; rewrite He|]. split; [apply with_waitdog_eq|]. split.
  { intros y Hy. rewrite (waitdog_insert s1 _ x NULL), decide_False by done. unfold waitdog. by rewrite Ew. }
  split; [apply (proj1 Hs)|]. exists fl', P', X'. split; [|done].
  pose proof (rest_ok_waitdogs _ (<[x:=NULL]> (y_waitdog (c_ext (w_ext s)))) _ _ _ Hr) as Hr'.
  unfold with_waitdog. rewrite Ew. eapply sys_ok_delete; [exact Hlay|exact Hok| |exact Hr'|exact HP|exact Hs|].
  - apply dogs_ok_ext; [exact Hd|apply Hr'].
  - right. by exists x.
Qed.

Lemma stop_sys s tl fl P X pidof U T x t ret :
  sys_ok s tl fl P X pidof U → kern_ok (ker (w_ext s)) T → running T = x → waitdog s x ≠ NULL →
  k_tcbs (ker (w_ext s)) !! x = Some t →
  returns (timedwait_stop g_wdactivelist x ret) s (λ r s', r = (if ret <? 0 then pterrno t else OK) ∧
    w_ext s' = w_ext s ∧ sys_ok s' (remove_tl (waitdog s x) tl) fl P X pidof U ∧ same_dogs (w_dogs s) (w_dogs s')).
Proof.
  intros Hok HT Hx Hw Ht. unfold timedwait_stop. apply returns_bind.
  eapply (returns_mono _ _ (λ r s1, r = (if ret <? 0 then pterrno t else OK) ∧ s1 = set_wext (w_ext s) s)).
  { destruct (ret <? 0); [|apply returns_ret; by destruct s].
    apply returns_kern. pose proof (so_rq _ _ (sm_sched _ _ (proj1 HT))) as Hrq.
    destruct (head_running _ _ Hrq) as (t' & Ht' & Hn & Hst). rewrite Hx, Ht in Ht'. injection Ht' as <-.
    unfold get_errno. cbn [negb]. apply returns_bind. eapply returns_rtr_head; [apply (rq_lists _ _ _ Hrq)|].
    unfold nonnull. rewrite (proj2 (Z.eqb_neq _ _)) by done. cbn [negb]. apply returns_bind.
    eapply returns_tcb; [by rewrite Hx|]. rewrite Hst. simpl. apply returns_ret. by rewrite put_ker_id. }
  intros r s1 [-> ->]. replace (set_wext (w_ext s) s) with s by (by destruct s).
  apply returns_bind, returns_waitdog, returns_bind.
  eapply returns_mono; [eapply cancel_sys; [exact Hlay|exact Hok|by eapply sys_waitdog]|].
  intros r s2 (-> & He & Hok2 & Hs2). by apply returns_ret.
Qed.

Lemma return_sys s tl fl P X pidof U T ret errcode :
  sys_ok s tl fl P X pidof U → kern_ok (ker (w_ext s)) T →
  returns (timedwait_return ret errcode) s (λ r s', r = ret ∧ sys_ok s' tl fl P X pidof U ∧ calls (ker (w_ext s)) T (ker (w_ext s')) ∧
    (∀ y, waitdog s' y = waitdog s y) ∧ w_dogs s' = w_dogs s ∧
    k_sems (ker (w_ext s')) = k_sems (ker (w_ext s)) ∧ (ret < 0 → errno_of (k_tcbs (ker (w_ext s'))) (running T) = Some errcode)).
Proof.
  intros Hok HT. unfold timedwait_return. destruct (Z.ltb_spec ret 0).
  - apply returns_bind, returns_kern. eapply returns_mono; [by apply set_errno_calls|].
    intros [] k' (HC & Hs & He). apply returns_ret. split_and!; try done. by eapply sys_calls.
  - apply returns_ret. split_and!; try done. lia.
Qed.
End SemTimed.
