(* ===== verification/SystemRun.v ===== *)
(** sem_timedwait as a whole, and the runs of the system: sequences of kernel
    calls, timer ticks, calls of the clock and of the watchdogs, and of
    sem_timedwait. *)

From stdpp Require Import functions relations.
From S2P Require Import Prelude Links Queue QueueSq Calendar Clock ClockThms Wdog WdogInv WdogSpec WdogTimer WdogSys.
From S2P Require Import Sched Sem SchedList SchedInv SchedOps SchedMerge SchedSwitch SchedKernel SchedApi SchedEntry SchedPrio SchedSlice SemInv SemSpec SchedMembers Kernel System SystemInv SystemTick SystemOps SystemSem.

Section Run.
Context {R : Type} `{PlatformLaws R} `{Globals}.
Variables g_wdactivelist g_wdfreelist SEM_TIMEOUT : Z.
Variable other : Z → list Z → M (clock (sysrest R)) unit.
Variable pool : list Z.
Context (Hlay : wd_layout g_wdactivelist g_wdfreelist pool).
Implicit Types (e : clock (sysrest R)) (s : wdstate (clock (sysrest R))) (k : kstate) (T : Z → list Z).
Implicit Types (pidof : Z → option Z) (X P U fl : list Z) (tl : timeline) (x y w v sem c : Z).
Local Abbreviation sys_ok := (sys_ok g_wdactivelist SEM_TIMEOUT g_wdfreelist pool).
Local Abbreviation timedwait := (sem_timedwait g_wdactivelist g_wdfreelist SEM_TIMEOUT).
Local Abbreviation timedwait_resume := (sem_timedwait_resume g_wdactivelist g_wdfreelist).

(** * The whole of sem_timedwait *)

(** What it leaves alone: the watchdogs of the other tasks, and what the
    watchdogs in use [D] call. *)
Definition frame x (D : list Z) s s' : Prop :=
  (∀ y, y ≠ x → waitdog s' y = waitdog s y) ∧ ∀ v, v ∈ D → v ≠ waitdog s x → callof (w_dogs s') v = callof (w_dogs s) v.

(** Task [x] runs on, without a watchdog; as many watchdogs are in use. *)
Definition back tl P X pidof U x s' : Prop :=
  waitdog s' x = NULL ∧ k_running (ker (w_ext s')) = x ∧ ∃ fl' P' X', sys_ok s' tl fl' P' X' pidof U ∧ P' ++ X' ≡ₚ P ++ X.

(** Task [x] waits; in [n] ticks its watchdog ends the wait. *)
Definition armed tl pidof x (n : Z) s : Prop :=
  waiting (ker (w_ext s)) x ∧ (waitdog s x, n) ∈ tl ∧
  callof (w_dogs s) (waitdog s x) = (λ p, (SEM_TIMEOUT, [u32 p])) <$> pidof x.

Definition failed x (e : Z) s (r : result) s' : Prop :=
  r = Returned ERROR ∧ errno_of (k_tcbs (ker (w_ext s'))) x = Some e ∧ k_sems (ker (w_ext s')) = k_sems (ker (w_ext s)).

(** Giving the watchdog back, and the return. *)
Definition left s tl P X pidof U x ret errcode s' : Prop :=
  waitdog s' x = NULL ∧ k_running (ker (w_ext s')) = x ∧ (∀ y, y ≠ x → waitdog s' y = waitdog s y) ∧
  (∀ v, callof (w_dogs s') v = callof (w_dogs s) v) ∧ k_sems (ker (w_ext s')) = k_sems (ker (w_ext s)) ∧
  (ret < 0 → errno_of (k_tcbs (ker (w_ext s'))) x = Some errcode) ∧
  ∃ fl' P' X', sys_ok s' (remove_tl (waitdog s x) tl) fl' P' X' pidof U ∧ P ++ X ≡ₚ waitdog s x :: P' ++ X'.

Lemma leave_return_sys s tl fl P X pidof U T x ret errcode :
  sys_ok s tl fl P X pidof U → kern_ok (ker (w_ext s)) T → running T = x → waitdog s x ≠ NULL →
  returns (timedwait_leave g_wdactivelist g_wdfreelist x) s (λ _ s1, returns (timedwait_return ret errcode) s1
    (λ r s', r = ret ∧ left s tl P X pidof U x ret errcode s')).
Proof.
  intros Hok HT Hx Hw. eapply returns_mono; [by eapply leave_sys|].
  intros [] s1 ([Hk _] & Hw1 & Hy1 & Hc1 & fl' & P' & X' & Hok1 & HP).
  eapply returns_mono; [eapply (return_sys _ _ _ _ s1 _ _ _ _ _ _ T); [exact Hok1|by rewrite Hk]|].
  intros r s2 (-> & Hok2 & HC & Hy2 & Hd2 & Hs2 & He2). split; [done|]. split_and!.
  - by rewrite Hy2.
  - rewrite (proj2 (proj2 HC)), Hk, <-Hx. apply (so_run _ _ (sm_sched _ _ (proj1 HT))).
  - intros y Hy. by rewrite Hy2, Hy1.
  - intros v. by rewrite Hd2.
  - by rewrite Hs2, Hk.
  - intros Hr. rewrite <-Hx. by apply He2.
  - by exists fl', P', X'.
Qed.

(** From a failure to the return. *)
Lemma fail_sys s tl fl P X pidof U T x ret errcode (D : list Z) s0 P0 X0 :
  sys_ok s tl fl P X pidof U → kern_ok (ker (w_ext s)) T → running T = x → waitdog s x = NULL → ret < 0 →
  P ++ X ≡ₚ P0 ++ X0 → frame x D s0 s → k_sems (ker (w_ext s)) = k_sems (ker (w_ext s0)) →
  returns (timedwait_return ret errcode) s (λ r s', r = ret ∧ frame x D s0 s' ∧ back tl P0 X0 pidof U x s' ∧
    errno_of (k_tcbs (ker (w_ext s'))) x = Some errcode ∧ k_sems (ker (w_ext s')) = k_sems (ker (w_ext s0))).
Proof.
  intros Hok HT Hx Hw Hret HP [F1 F2] Hs. eapply returns_mono; [by eapply return_sys|].
  intros r s' (-> & Hok' & HC & Hy & Hd & Hs' & He). split_and!; [done|split| |rewrite <-Hx; by apply He|congruence].
  - intros y Hyx. by rewrite Hy, F1.
  - intros v. rewrite Hd. apply F2.
  - split; [by rewrite Hy|]. split; [|by exists fl, P, X].
    by rewrite (proj2 (proj2 HC)), (so_run _ _ (sm_sched _ _ (proj1 HT))).
Qed.

(** How a call of sem_timedwait ends. *)
Definition timedwait_post s tl fl P X pidof U x sem c (abstime : option timespec) (r : result) s' : Prop :=
  let done := back tl P X pidof U x s' in
  let sems' := k_sems (ker (w_ext s')) in
  let taken := <[sem:=c - 1]> (k_sems (ker (w_ext s))) in
  match abstime with
  | Some t =>
      if sem =? NULL then failed x EINVAL s r s' ∧ done
      else failed x ENOMEM s r s' ∧ done ∧ Z.of_nat (length fl) ≤ CONFIG_WDOG_INTRESERVE ∨
        let n := timeout_ticks (w_ext s) t in
        if 0 <? c then r = Returned OK ∧ done ∧ sems' = taken
        else if (tv_nsec t <? 0) || (1000000000 <=? tv_nsec t) then failed x EINVAL s r s' ∧ done
        else if n <=? 0 then failed x ETIMEDOUT s r s' ∧ done
        else r = Suspended RSemWait ∧ waits_for (ker (w_ext s')) x sem ∧ sems' = taken ∧
          ∃ fl' P' X', let tl' := insert_tl (waitdog s' x) (Z.min (n + 1) INT_MAX) tl in
            sys_ok s' tl' fl' P' X' pidof U ∧ P' ++ X' ≡ₚ waitdog s' x :: P ++ X ∧
            armed tl' pidof x (Z.min (n + 1) INT_MAX) s'
  | None => failed x EINVAL s r s' ∧ done
  end.

Lemma sem_timedwait_sys s tl fl P X pidof U T x sem c abstime :
  sys_ok s tl fl P X pidof U → kern_ok (ker (w_ext s)) T → running T = x → x ≠ g_idletcb → waitdog s x = NULL →
  (sem ≠ NULL → k_sems (ker (w_ext s)) !! sem = Some c) → (∀ t, abstime = Some t → 0 ≤ tv_sec t < 2 ^ 32) →
  returns (timedwait sem abstime) s (λ r s', frame x (P ++ X) s s' ∧
    timedwait_post s tl fl P X pidof U x sem c abstime r s').
Proof.
  intros Hok HT Hx Hi Hw Hsem Ht. pose proof (so_rq _ _ (sm_sched _ _ (proj1 HT))) as Hrq.
  assert (Hp : is_Some (pidof x)).
  { destruct (head_tcb _ _ Hrq) as (t & Htx & _). rewrite Hx in Htx. pose proof (sy_rest _ _ _ _ _ _ _ _ _ _ _ Hok) as Hr.
    rewrite <-(ro_pid _ _ _ _ Hr), Htx. by eexists. }
  unfold sem_timedwait. apply returns_bind, returns_kern.
  eapply returns_rtr_head; [apply (rq_lists _ _ _ Hrq)|]. rewrite Hx.
  rewrite put_ker_id. replace (set_wext (w_ext s) s) with s by (by destruct s).
  apply returns_bind. eapply returns_mono; [by eapply reserve_sys|]. intros r s1 [[Hk1 Htm1] Hres].
  assert (HT1 : kern_ok (ker (w_ext s1)) T) by (by rewrite Hk1).
  destruct (bool_decide_reflect (is_Some abstime ∧ sem ≠ NULL)) as [[[t ->] Hs]|Hno].
  - specialize (Ht t eq_refl). specialize (Hsem Hs). apply Z.eqb_neq in Hs as Hs0.
    destruct Hres as (fl' & P' & X' & Hok1 & Hy1 & Hc1 & [(-> & HP & Hw1 & Hl)|(-> & Hn1 & Hfresh & HP)]).
    + change (negb (ENOMEM =? OK)) with true. cbv iota. apply returns_bind.
      eapply returns_mono; [apply (fail_sys s1 tl fl' P' X' pidof U T x ERROR ENOMEM (P ++ X) s P X); try done|].
      { by rewrite HP. } { split; auto. } { by rewrite Hk1. }
      intros r s2 (-> & Hf & Hb & He & Hs2). apply returns_ret. split; [exact Hf|]. unfold timedwait_post. rewrite Hs0. left. done.
    + change (negb (OK =? OK)) with false. cbv iota. change (default _ (Some t)) with t. apply returns_bind.
      eapply returns_mono; [eapply (wait_sys _ _ _ _ Hlay s1 tl fl' P' X' pidof U T x sem c t); try done; by rewrite Hk1|].
      intros r s2 (Hy2 & Hr). set (w := waitdog s1 x) in *. set (n := timeout_ticks (w_ext s1) t) in *.
      assert (Hn : timeout_ticks (w_ext s) t = n) by (unfold n, timeout_ticks; by rewrite Htm1).
      assert (Htl : w ∉ tl.*1).
      { intros Hin. apply Hfresh, (do_active _ _ _ _ _ _ _ _ (sy_dogs _ _ _ _ _ _ _ _ _ _ _ Hok)), Hin. }
      rewrite Hk1 in Hr. unfold timedwait_post. rewrite Hs0, Hn.
      assert (Hexit : ∀ ret errcode (Q : result → wdstate (clock (sysrest R)) → Prop),
        sys_ok s2 tl fl' P' X' pidof U ∧ calls (ker (w_ext s)) T (ker (w_ext s2)) ∧ w_dogs s2 = w_dogs s1 →
        (∀ s', frame x (P ++ X) s s' → back tl P X pidof U x s' → k_sems (ker (w_ext s')) = k_sems (ker (w_ext s2)) →
          (ret < 0 → errno_of (k_tcbs (ker (w_ext s'))) x = Some errcode) → Q (Returned ret) s') →
        returns (timedwait_leave g_wdactivelist g_wdfreelist x;; r ← timedwait_return ret errcode; mret (Returned r)) s2 Q).
      { intros ret errcode Q (Hok2 & HC & Hd2) HQ. apply returns_bind.
        eapply returns_mono; [eapply leave_return_sys; [exact Hok2|apply HC|done|by rewrite Hy2]|]. intros [] s3 Hl.
        apply returns_bind. eapply returns_mono; [exact Hl|]. intros ret' s' (-> & A1 & A2 & A3 & A4 & A5 & A6 & fl2 & P2 & X2 & A7 & A8). apply returns_ret, HQ; try done.
        - split; [intros y Hy; rewrite A3, Hy2 by done; auto|]. intros v Hv _. rewrite A4, Hd2. auto.
        - split_and!; [done|done|]. rewrite Hy2 in A7, A8. fold w in A7, A8. rewrite remove_tl_absent in A7 by done.
          exists fl2, P2, X2. split; [done|]. rewrite HP in A8. by apply Permutation.Permutation_cons_inv in A8. }
      destruct (0 <? c); [|destruct (_ || _); [|destruct (n <=? 0)]].
      * destruct Hr as (-> & Hsame & Hs2). apply (Hexit OK OK); [done|]. intros s' Hf Hb Hs' _. split; [done|].
        right. split_and!; [done|done|by rewrite Hs', Hs2, Hk1].
      * destruct Hr as (-> & Hsame & Hs2). apply (Hexit ERROR EINVAL); [done|]. intros s' Hf Hb Hs' He. split; [done|].
        right. split; [|done]. split_and!; [done|by apply He|by rewrite Hs', Hs2, Hk1].
      * destruct Hr as (-> & Hsame & Hs2). apply (Hexit ERROR ETIMEDOUT); [done|]. intros s' Hf Hb Hs' He. split; [done|].
        right. split; [|done]. split_and!; [done|by apply He|by rewrite Hs', Hs2, Hk1].
      * destruct Hr as (-> & Hok2 & Hc2 & Hcy & Hs2 & Hw2). apply returns_ret. split.
        { split; [intros y Hy; rewrite Hy2; auto|]. intros v Hv Hvn. rewrite Hcy; [auto|]. by intros ->. }
        right. rewrite Hy2. fold w. split_and!; [done|done|by rewrite Hs2, Hk1|]. rewrite remove_tl_absent in Hok2 by done.
        exists fl', P', X'. split_and!; [done|by rewrite HP|]. split; [by exists sem|]. rewrite Hy2. fold w. split; [|done].
        apply insert_tl_elem. by left.
  - destruct Hres as [-> ->]. change (negb (EINVAL =? OK)) with true. cbv iota. apply returns_bind.
    eapply returns_mono; [apply (fail_sys s tl fl P X pidof U T x ERROR EINVAL (P ++ X) s P X); done|].
    intros r s2 (-> & Hf & Hb & He & Hs2). apply returns_ret. split; [exact Hf|]. unfold timedwait_post.
    destruct abstime as [t|]; [|done]. destruct (Z.eqb_spec sem NULL) as [|Hs]; [done|]. exfalso. apply Hno. by split; [eexists|].
Qed.

(** * A task that goes on in sem_timedwait *)
Definition wait_result (t : tcb_s) : Z := if negb (pterrno t =? EINTR) && negb (pterrno t =? ETIMEDOUT) then OK else ERROR.

Lemma sem_timedwait_resume_sys s tl fl P X pidof U T x t :
  sys_ok s tl fl P X pidof U → kern_ok (ker (w_ext s)) T → running T = x → waitdog s x ≠ NULL →
  k_tcbs (ker (w_ext s)) !! x = Some t →
  returns (timedwait_resume x) s (λ r s', r = wait_result t ∧ left s tl P X pidof U x r (pterrno t) s').
Proof.
  intros Hok HT Hx Hw Ht. pose proof (so_rq _ _ (sm_sched _ _ (proj1 HT))) as Hrq.
  destruct (head_running _ _ Hrq) as (t' & Ht' & Hn & Hst). rewrite Hx, Ht in Ht'. injection Ht' as <-.
  unfold sem_timedwait_resume. apply returns_bind, returns_kern. unfold sem_wait_rest. apply returns_bind.
  unfold get_errno. cbn [negb]. apply returns_bind. eapply returns_rtr_head; [apply (rq_lists _ _ _ Hrq)|].
  unfold nonnull. rewrite (proj2 (Z.eqb_neq _ _)) by done. cbn [negb]. apply returns_bind.
  eapply returns_tcb; [by rewrite Hx|]. rewrite Hst. simpl. do 2 apply returns_ret. rewrite put_ker_id.
  fold (wait_result t). replace (set_wext (w_ext s) s) with s by (by destruct s).
  apply returns_bind. eapply returns_mono; [by eapply stop_sys|]. intros e s1 (-> & He1 & Hok1 & Hs1).
  assert (Hy : ∀ y, waitdog s1 y = waitdog s y) by (intros y; unfold waitdog; by rewrite He1).
  apply returns_bind. eapply returns_mono; [eapply leave_return_sys; [exact Hok1|by rewrite He1|done|by rewrite Hy]|].
  intros [] s2 Hl. eapply returns_mono; [exact Hl|].
  intros r s' (-> & A1 & A2 & A3 & A4 & A5 & A6 & fl2 & P2 & X2 & A7 & A8). split; [done|]. split_and!; [done|done|..].
  - intros y Hyx. rewrite A3, Hy; done.
  - intros v. rewrite A4. apply Hs1.
  - by rewrite A5, He1.
  - intros Hr. rewrite A6 by done. by rewrite (proj2 (Z.ltb_lt _ _)).
  - rewrite Hy, remove_tl_absent in A7; [rewrite Hy in A8; eauto 6|].
    intros ([v n] & E & [Hne _]%list_elem_of_filter)%list_elem_of_fmap. done.
Qed.

(** * Runs

    The state, with the watchdogs that clients hold. *)
Inductive syscall : wdstate (clock (sysrest R)) * list Z → wdstate (clock (sysrest R)) * list Z → Prop :=
| sys_kernel s k U : kstep (ker (w_ext s)) k → syscall (s, U) (set_wext (put_ker k (w_ext s)) s, U)
| sys_settime tp r s s' U :
    norm tp → onext (clock_settime CLOCK_REALTIME tp) s = Done (r, s') → syscall (s, U) (s', U)
| sys_create irq w s s' U :
    wd_create g_wdfreelist irq s = Done (w, s') → syscall (s, U) (s', if w =? NULL then U else w :: U)
| sys_start w delay f parms r s s' U :
    w ∈ U → 0 ≤ delay ≤ INT_MAX → (length parms ≤ 2)%nat → f ≠ SEM_TIMEOUT →
    wd_start g_wdactivelist w delay f parms s = Done (r, s') → syscall (s, U) (s', U)
| sys_cancel w r s s' U : w ∈ U → wd_cancel g_wdactivelist w s = Done (r, s') → syscall (s, U) (s', U)
| sys_delete w r s s' U U' :
    U ≡ₚ w :: U' → wd_delete g_wdactivelist g_wdfreelist w s = Done (r, s') → syscall (s, U) (s', U')
| sys_timedwait sem abstime r s s' U :
    let x := k_running (ker (w_ext s)) in
    x ≠ g_idletcb → waitdog s x = NULL → (sem ≠ NULL → is_Some (k_sems (ker (w_ext s)) !! sem)) →
    (∀ t, abstime = Some t → 0 ≤ tv_sec t < 2 ^ 32) →
    timedwait sem abstime s = Done (r, s') → syscall (s, U) (s', U)
| sys_timedwait_resume r s s' U :
    let x := k_running (ker (w_ext s)) in
    waitdog s x ≠ NULL → timedwait_resume x s = Done (r, s') → syscall (s, U) (s', U).

Inductive sysstep : wdstate (clock (sysrest R)) * list Z → wdstate (clock (sysrest R)) * list Z → Prop :=
| sys_call su su' : syscall su su' → sysstep su su'
| sys_tick s s' U : sched_process_timer g_wdactivelist SEM_TIMEOUT other s = Done (tt, s') → sysstep (s, U) (s', U).

Definition sys_inv pidof (su : wdstate (clock (sysrest R)) * list Z) : Prop :=
  ∃ tl fl P X, sys_ok su.1 tl fl P X pidof su.2.

(** What the functions that watchdogs call keep to. *)
Definition others_fair : Prop := ∀ W pidof X, others_ok other W pidof X.

Lemma create_done irq s tl fl P X w s' :
  dogs_ok g_wdactivelist g_wdfreelist pool s tl fl P X → wd_create g_wdfreelist irq s = Done (w, s') → irq = true → fl ≠ [].
Proof.
  intros Hd E -> ->. rewrite wd_create_empty_pool_fault in E; [done|]. split.
  - apply (do_free _ _ _ _ _ _ _ _ Hd).
  - apply (do_count _ _ _ _ _ _ _ _ Hd).
  - by intros x ?%elem_of_nil.
  - simpl. lia.
Qed.

Lemma sys_kern_ok s tl fl P X pidof U : sys_ok s tl fl P X pidof U → ∃ T, kern_ok (ker (w_ext s)) T ∧ running T = k_running (ker (w_ext s)).
Proof.
  intros Hok. destruct (ro_kernel _ _ _ _ (sy_rest _ _ _ _ _ _ _ _ _ _ _ Hok)) as [T HT]. exists T. split; [done|].
  symmetry. apply (so_run _ _ (sm_sched _ _ (proj1 HT))).
Qed.

Lemma sys_client_used s tl fl P X pidof U w : sys_ok s tl fl P X pidof U → w ∈ U → w ∈ P ++ X.
Proof. intros Hok Hw. apply (sy_used _ _ _ _ _ _ _ _ _ _ _ Hok). by left. Qed.

(** A task that waits keeps its watchdog, with the time it has. *)
Definition keeps_armed pidof s tl s' tl' : Prop :=
  ∀ x n, armed tl pidof x n s → waiting (ker (w_ext s')) x → armed tl' pidof x n s'.

Lemma keeps_armed_intro pidof s tl s' tl' :
  (∀ x n, waiting (ker (w_ext s)) x → (waitdog s x, n) ∈ tl →
    waitdog s' x = waitdog s x ∧ (waitdog s x, n) ∈ tl' ∧ callof (w_dogs s') (waitdog s x) = callof (w_dogs s) (waitdog s x)) →
  keeps_armed pidof s tl s' tl'.
Proof. intros Hk x n (Hw & Hin & Hc) Hw'. destruct (Hk x n Hw Hin) as (Hx & Hin' & Hc'). unfold armed. by rewrite Hx, Hc'. Qed.

Lemma armed_dog s tl fl P X pidof U x n :
  sys_ok s tl fl P X pidof U → (waitdog s x, n) ∈ tl → waitdog s x ∈ P ++ X ∧ waitdog s x ≠ NULL ∧ waitdog s x ∉ U.
Proof.
  intros Hok Hin. pose proof (sy_dogs _ _ _ _ _ _ _ _ _ _ _ Hok) as Hd.
  assert (Hw : waitdog s x ∈ P ++ X) by (apply (do_active _ _ _ _ _ _ _ _ Hd), list_elem_of_fmap; by eexists (_, _)).
  assert (Hn : waitdog s x ≠ NULL) by (edestruct dogs_known as (k & Hk & _); [exact Hlay|exact Hd|exact Hw|done]).
  split_and!; [done..|]. by apply Hok.
Qed.

Lemma remove_tl_elem w v n tl : v ≠ w → (v, n) ∈ tl → (v, n) ∈ remove_tl w tl.
Proof. intros Hn Hin. by apply list_elem_of_filter. Qed.

(** What a call leads to. *)
Definition next_ok pidof s tl (su' : wdstate (clock (sysrest R)) * list Z) : Prop :=
  ∃ tl' fl' P' X', sys_ok su'.1 tl' fl' P' X' pidof su'.2 ∧ keeps_armed pidof s tl su'.1 tl'.

Lemma create_call s tl fl P X pidof U irq w s' :
  sys_ok s tl fl P X pidof U → wd_create g_wdfreelist irq s = Done (w, s') →
  next_ok pidof s tl (s', if w =? NULL then U else w :: U).
Proof.
  intros Hok E. pose proof (sy_dogs _ _ _ _ _ _ _ _ _ _ _ Hok) as Hd.
  pose proof (create_sys _ _ pool Hlay irq s tl fl P X _ pidof Hd (sy_rest _ _ _ _ _ _ _ _ _ _ _ Hok)
    (create_done _ _ _ _ _ _ _ _ Hd E)) as Hr. unfold returns in Hr. rewrite E in Hr.
  destruct Hr as ([p He] & Hy & fl' & P' & X' & Hd' & Hr' & Hc). exists tl, fl', P', X'. simpl. split.
  - destruct (Z.eqb_spec w NULL) as [->|Hn]; [|rewrite decide_False in Hc by done; by eapply sys_ok_create].
    rewrite decide_True in Hc by done. destruct Hc as (-> & -> & -> & _). eapply sys_ok_keep; [exact Hok|done|done|].
    intros v Hin. split; [done|]. unfold callof. rewrite Hy; [done|]. intros ->.
    apply (do_active _ _ _ _ _ _ _ _ Hd) in Hin. edestruct dogs_known as (k & Hk & _); [exact Hlay|exact Hd|exact Hin|done].
  - apply keeps_armed_intro. intros x n _ Hin. destruct (armed_dog _ _ _ _ _ _ _ _ _ Hok Hin) as (Hw & Hn & _).
    split_and!; [unfold waitdog; by rewrite He|done|]. unfold callof. rewrite Hy; [done|]. intros Ew.
    case_decide; [congruence|]. destruct Hc as (_ & Hf & _). by rewrite Ew in Hw.
Qed.

Lemma timedwait_call s tl fl P X pidof U sem abstime r s' :
  let x := k_running (ker (w_ext s)) in
  sys_ok s tl fl P X pidof U → x ≠ g_idletcb → waitdog s x = NULL → (sem ≠ NULL → is_Some (k_sems (ker (w_ext s)) !! sem)) →
  (∀ t, abstime = Some t → 0 ≤ tv_sec t < 2 ^ 32) → timedwait sem abstime s = Done (r, s') → next_ok pidof s tl (s', U).
Proof.
  intros x Hok Hi Hx Hsem Ht E. destruct (sys_kern_ok _ _ _ _ _ _ _ Hok) as (T & HT & HxT).
  assert (Hc : ∃ c, sem ≠ NULL → k_sems (ker (w_ext s)) !! sem = Some c).
  { destruct (decide (sem = NULL)) as [|Hs]; [by exists 0|]. destruct (Hsem Hs) as [c Hc]. by exists c. }
  destruct Hc as [c Hc]. pose proof (sem_timedwait_sys s tl fl P X pidof U T x sem c abstime Hok HT HxT Hi Hx Hc Ht) as Hr.
  unfold returns in Hr. rewrite E in Hr. destruct Hr as [[F1 F2] Hp].
  assert (Hkeep : ∀ tl' fl' P' X', sys_ok s' tl' fl' P' X' pidof U → tl ⊆ tl' → next_ok pidof s tl (s', U)).
  { intros tl' fl' P' X' Hok' Hsub. exists tl', fl', P', X'. split; [done|]. apply keeps_armed_intro. intros y n _ Hin.
    destruct (armed_dog _ _ _ _ _ _ _ _ _ Hok Hin) as (Hw & Hn & _). split_and!; [|by apply Hsub|].
    - apply F1. intros ->. congruence.
    - apply F2; [done|]. by rewrite Hx. }
  assert (Hb : back tl P X pidof U x s' → next_ok pidof s tl (s', U)).
  { intros (_ & _ & fl2 & P2 & X2 & Hok2 & _). by eapply Hkeep. }
  unfold timedwait_post in Hp. destruct abstime as [t|]; [|eapply Hb, Hp]. destruct (sem =? NULL); [eapply Hb, Hp|].
  destruct Hp as [(_ & Hbb & _)|Hp]; [by apply Hb|]. destruct (0 <? c); [eapply Hb, Hp|]. destruct (_ || _); [eapply Hb, Hp|].
  destruct (_ <=? 0); [eapply Hb, Hp|]. destruct Hp as (_ & _ & _ & fl' & P' & X' & Hok' & _). eapply Hkeep; [exact Hok'|].
  intros a Ha. apply insert_tl_elem. by right.
Qed.

Lemma resume_call s tl fl P X pidof U r s' :
  let x := k_running (ker (w_ext s)) in
  sys_ok s tl fl P X pidof U → waitdog s x ≠ NULL → timedwait_resume x s = Done (r, s') → next_ok pidof s tl (s', U).
Proof.
  intros x Hok Hx E. destruct (sys_kern_ok _ _ _ _ _ _ _ Hok) as (T & HT & HxT).
  destruct (head_running _ _ (so_rq _ _ (sm_sched _ _ (proj1 HT)))) as (t & Htx & _ & Hst). rewrite HxT in Htx.
  pose proof (sem_timedwait_resume_sys s tl fl P X pidof U T x t Hok HT HxT Hx Htx) as Hr.
  unfold returns in Hr. rewrite E in Hr. destruct Hr as (_ & _ & _ & Hy & Hc & _ & _ & fl' & P' & X' & Hok' & _).
  eexists _, _, _, _. split; [exact Hok'|]. apply keeps_armed_intro. intros y n (sem & t' & Ht' & Hst' & _) Hin.
  assert (Hne : y ≠ x) by (intros ->; unfold x in *; rewrite Htx in Ht'; injection Ht' as <-; by rewrite Hst in Hst'). split_and!; [by apply Hy| |apply Hc].
  apply remove_tl_elem; [|done]. intros Ew. apply Hne, (sy_inj _ _ _ _ _ _ _ _ _ _ _ Hok); [done|by rewrite Ew].
Qed.

Lemma syscall_sys s tl fl P X pidof U su' : sys_ok s tl fl P X pidof U → syscall (s, U) su' → next_ok pidof s tl su'.
Proof.
  intros Hok Hst. inversion Hst; subst; clear Hst.
  - destruct (sys_kern_ok _ _ _ _ _ _ _ Hok) as (T & HT & _). exists tl, fl, P, X. split.
    + eapply sys_ok_kern; [done..|]. eapply kstep_evolves; [apply HT|done].
    + by apply keeps_armed_intro.
  - match goal with E : onext _ s = _, Hn : norm tp |- _ => pose proof (settime_sys _ _ _ _ s tl fl P X pidof U tp Hok Hn) as Hr;
      unfold returns in Hr; rewrite E in Hr end.
    destruct Hr as (Hok' & Hd & Hy). exists tl, fl, P, X. split; [done|]. apply keeps_armed_intro. intros x n _ Hin.
    simpl. by rewrite Hy, Hd.
  - by eapply create_call.
  - match goal with E : wd_start _ _ _ _ _ _ = _, Hw : w ∈ U, Hf : f ≠ _ |- _ =>
      pose proof (start_sys _ _ _ _ Hlay s tl fl P X pidof U w delay f parms Hok (sys_client_used _ _ _ _ _ _ _ _ Hok Hw)
        ltac:(done) ltac:(done) (λ Ef, False_ind _ (Hf Ef))) as Hr; unfold returns in Hr; rewrite E in Hr; rename Hw into HwU end.
    destruct Hr as (_ & He & Hok' & Hc & _). eexists _, fl, P, X. split; [exact Hok'|]. apply keeps_armed_intro. intros x n _ Hin.
    destruct (armed_dog _ _ _ _ _ _ _ _ _ Hok Hin) as (_ & _ & Hn). assert (waitdog s x ≠ w) by congruence.
    split_and!; [unfold waitdog; simpl; by rewrite He| |by apply Hc]. apply insert_tl_elem. right. by apply remove_tl_elem.
  - match goal with E : wd_cancel _ _ _ = _, Hw : w ∈ U |- _ =>
      pose proof (cancel_sys _ _ _ _ Hlay s tl fl P X pidof U w Hok (sys_client_used _ _ _ _ _ _ _ _ Hok Hw)) as Hr;
      unfold returns in Hr; rewrite E in Hr; rename Hw into HwU end.
    destruct Hr as (_ & He & Hok' & Hs). eexists _, fl, P, X. split; [exact Hok'|]. apply keeps_armed_intro. intros x n _ Hin.
    destruct (armed_dog _ _ _ _ _ _ _ _ _ Hok Hin) as (_ & _ & Hn). assert (waitdog s x ≠ w) by congruence.
    split_and!; [unfold waitdog; simpl; by rewrite He|by apply remove_tl_elem|apply Hs].
  - match goal with HU : U ≡ₚ w :: U' |- _ => assert (HwU : w ∈ U) by (rewrite HU; apply list_elem_of_here) end.
    pose proof (sys_client_used _ _ _ _ _ _ _ _ Hok HwU) as Hw.
    pose proof (delete_sys _ _ pool Hlay s tl fl P X _ pidof w (sy_dogs _ _ _ _ _ _ _ _ _ _ _ Hok) (sy_rest _ _ _ _ _ _ _ _ _ _ _ Hok) Hw) as Hr.
    match goal with E : wd_delete _ _ _ _ = _ |- _ => unfold returns in Hr; rewrite E in Hr end.
    destruct Hr as (_ & [p He] & Hs & fl' & P' & X' & HP & Hd' & Hr'). eexists _, _, _, _.
    split; [eapply sys_ok_delete; [done..|]; by left|]. apply keeps_armed_intro. intros x n _ Hin.
    destruct (armed_dog _ _ _ _ _ _ _ _ _ Hok Hin) as (_ & _ & Hn). assert (waitdog s x ≠ w) by congruence.
    split_and!; [unfold waitdog; simpl; by rewrite He|by apply remove_tl_elem|apply Hs].
  - by eapply timedwait_call.
  - by eapply resume_call.
Qed.

Lemma syscall_ok pidof su su' : sys_inv pidof su → syscall su su' → sys_inv pidof su'.
Proof.
  destruct su as [s U]. intros (tl & fl & P & X & Hok) Hst.
  destruct (syscall_sys _ _ _ _ _ _ _ _ Hok Hst) as (tl' & fl' & P' & X' & Hok' & _). by eexists _, _, _, _.
Qed.

Lemma sysstep_ok pidof su su' : others_fair → sys_inv pidof su → sysstep su su' → sys_inv pidof su'.
Proof.
  intros Ho Hinv Hst. destruct Hst as [su su' Hc|s s' U E]; [by eapply syscall_ok|]. destruct Hinv as (tl & fl & P & X & Hok). simpl in Hok.
  pose proof (tick_sys g_wdactivelist SEM_TIMEOUT other g_wdfreelist pool Hlay s tl fl P X pidof U (λ W Y, Ho W pidof Y) Hok) as Hr.
  unfold returns in Hr. rewrite E in Hr. destruct Hr as (Hok' & _). by eexists _, _, _, _.
Qed.

Lemma sysruns_ok pidof su su' : others_fair → sys_inv pidof su → rtc sysstep su su' → sys_inv pidof su'.
Proof. intros Ho Hi Hs. induction Hs; [done|]. eauto using sysstep_ok. Qed.
End Run.
