(* ===== verification/SystemHeap.v ===== *)
(** The system on the memory manager: the heap of [MmSpec] is an allocator as
    the watchdogs need it. *)

From S2P Require Import Prelude MmHeap MmApi MmInv MmSpec MmThms MmBlocks Calendar Clock Wdog System SystemInv.

(** The platform: the heap at [nodelist], of which [my_pid] is the task that
    locks it, and the real-time clock. *)
#[global] Instance heap_platform {E} `{RtcClock E} (nodelist my_pid : Z) : Platform (heap * E) := {
  p_malloc n := zoom fst (λ h r, (h, r.2)) (mm_malloc nodelist my_pid n);
  p_kfree p := zoom fst (λ h r, (h, r.2)) (mm_free nodelist my_pid p);
  p_rtc_getdatetime := zoom snd (λ d r, (r.1, d)) up_rtc_getdatetime_with_subseconds;
  p_rtc_settime tp := zoom snd (λ d r, (r.1, d)) (up_rtc_settime tp);
}.

Section HeapPlatform.
Context {E : Type} `{RtcClock E}.
Variables nodelist lo hi my_pid : Z.
Context (Hlay : layout_ok nodelist lo hi) (Hpid : 0 ≤ my_pid).
Context (Hrtc : ∀ (e : E) tp, returns (up_rtc_settime tp) e (λ _ _, True)).

#[refine] Instance heap_platform_laws : @PlatformLaws (heap * E) (heap_platform nodelist my_pid) := {
  p_held r X := blocks_held nodelist lo hi my_pid r.1 X;
  p_arena p := lo < p < hi;
}.
Proof.
  - intros r X Y. apply blocks_perm.
  - intros r X Ho. split; [apply Ho|]. apply Forall_forall. intros p. by eapply blocks_inside.
  - intros r X Ho. apply returns_zoom. eapply returns_mono; [by apply (blocks_malloc _ _ _ _ Hlay Hpid _ X); [exact Ho|unfold SIZEOF_WDOG; lia..]|].
    by intros p h' Hb.
  - intros r X p Ho. apply returns_zoom. eapply returns_mono; [by apply (blocks_free _ _ _ _ Hlay Hpid _ X)|].
    by intros [] h' Hb.
  - intros r X tp Ho. apply returns_zoom. eapply returns_mono; [apply Hrtc|]. by intros [] e _.
Defined.
End HeapPlatform.
