(* ===== verification/SystemThms.v ===== *)
(** The system: the theorems. *)

From stdpp Require Import functions relations.
From S2P Require Import Prelude Links Queue QueueSq Calendar Clock ClockThms Wdog WdogInv WdogSpec WdogTimer WdogSys.
From S2P Require Import Sched Sem SchedList SchedInv SchedOps SchedMerge SchedSwitch SchedKernel SchedApi SchedEntry SchedPrio SchedSlice SemInv SemSpec SchedMembers Kernel KernelThms System SystemInv SystemTick SystemOps SystemSem SystemRun MmHeap MmApi MmInv MmSpec MmInit MmThms MmBlocks SystemHeap.

Lemma s16_u32 p : 0 ≤ p < 2 ^ 15 → s16 (u32 p) = p.
Proof. intros Hp. unfold s16, u32. mod_lia. Qed.

Lemma tick_elem v m tl : (v, m) ∈ tick tl ↔ (v, m + 1) ∈ tl.
Proof.
  unfold tick. rewrite list_elem_of_fmap. split.
  - intros ([y t] & [= -> ->] & Hin). by replace (t - 1 + 1) with t by lia.
  - intros Hin. exists (v, m + 1). split; [|done]. simpl. f_equal. lia.
Qed.

Lemma timeline_unique tl (v a b : Z) : NoDup tl.*1 → (v, a) ∈ tl → (v, b) ∈ tl → a = b.
Proof.
  induction tl as [|[y t] tl IH]; simpl; intros Hnd Ha Hb; [by apply elem_of_nil in Ha|].
  apply NoDup_cons in Hnd as [Hy Hnd]. assert (Hno : ∀ c, (y, c) ∉ tl) by (intros c Hc; apply Hy, list_elem_of_fmap; by eexists (_, _)).
  apply elem_of_cons in Ha as [Ha|Ha], Hb as [Hb|Hb]; simplify_eq; [done|by apply Hno in Hb|by apply Hno in Ha|auto].
Qed.

Section SystemThms.
Context {R : Type} `{PlatformLaws R} `{Globals}.
Variables g_wdactivelist g_wdfreelist SEM_TIMEOUT : Z.
Variable other : Z → list Z → M (clock (sysrest R)) unit.
Variable pool : list Z.
Context (Hlay : wd_layout g_wdactivelist g_wdfreelist pool).
Implicit Types (e : clock (sysrest R)) (s : wdstate (clock (sysrest R))) (k : kstate) (T : Z → list Z).
Implicit Types (pidof : Z → option Z) (X P U fl : list Z) (tl : timeline) (x y w v sem c n : Z).
Local Abbreviation sys_ok := (sys_ok g_wdactivelist SEM_TIMEOUT g_wdfreelist pool).
Local Abbreviation armed := (armed SEM_TIMEOUT).
Local Abbreviation timer := (sched_process_timer g_wdactivelist SEM_TIMEOUT other).

(** ** A tick of a waiting task *)
Lemma ends_wait s tl fl P X pidof U x n :
  sys_ok s tl fl P X pidof U → armed tl pidof x n s →
  existsb (λ w, bool_decide (targets SEM_TIMEOUT pidof x (callof (w_dogs s) w))) (due (tick tl)).*1 = (n =? 1).
Proof.
  intros Hok (Hw & Hin & Hc). pose proof (sy_dogs _ _ _ _ _ _ _ _ _ _ _ Hok) as Hd.
  pose proof (sy_rest _ _ _ _ _ _ _ _ _ _ _ Hok) as Hr. pose proof (do_positive _ _ _ _ _ _ _ _ Hd) as Hpos.
  destruct (armed_dog _ _ _ _ Hlay _ _ _ _ _ _ _ _ _ Hok Hin) as (_ & Hn & _).
  destruct (sy_task _ _ _ _ _ _ _ _ _ _ _ Hok x Hn) as [p Hp]. rewrite Hp in Hc. simpl in Hc.
  destruct (pi_task _ _ (ro_pids _ _ _ _ Hr) x p Hp) as (Hpr & _). unfold positive in Hpos. rewrite Forall_forall in Hpos.
  pose proof (Hpos _ Hin) as Hn1. simpl in Hn1. apply eq_bool_prop_intro.
  rewrite existb_True, Exists_exists, Is_true_true, Z.eqb_eq. unfold due. split.
  - intros (v & ([v' m] & -> & [Hm Hv]%list_elem_of_filter)%list_elem_of_fmap & Ht%Is_true_true%bool_decide_eq_true). simpl in *.
    apply tick_elem in Hv. destruct Ht as (args & Hcv & Hpa).
    destruct (sy_timeout _ _ _ _ _ _ _ _ _ _ _ Hok v' args) as (y & q & Hy & Hq & ->); [apply list_elem_of_fmap; by eexists (_, _)|done|].
    destruct (pi_task _ _ (ro_pids _ _ _ _ Hr) y q Hq) as (Hqr & _). rewrite hd_or_cons, s16_u32 in Hpa by done.
    assert (x = y) as <- by (eapply pids_inj; [apply (ro_pids _ _ _ _ Hr)|done|done]). subst v'.
    pose proof (timeline_unique _ _ _ _ (tl_nodup _ _ _ (do_timeline _ _ _ _ _ _ _ _ Hd)) Hin Hv). lia.
  - intros ->. exists (waitdog s x). split.
    + apply list_elem_of_fmap. exists (waitdog s x, 0). split; [done|]. apply list_elem_of_filter. split; [done|]. by apply tick_elem.
    + apply Is_true_true, bool_decide_eq_true. exists [u32 p]. split; [done|]. by rewrite hd_or_cons, s16_u32.
Qed.

Lemma armed_tick s tl fl P X pidof U x n :
  others_fair other → sys_ok s tl fl P X pidof U → armed tl pidof x n s →
  returns timer s (λ _ s', let tl' := pending (tick tl) in
    sys_ok s' tl' fl P X pidof U ∧ 1 ≤ n ∧ waitdog s' x = waitdog s x ∧
    (waiting (ker (w_ext s')) x → 1 < n ∧ armed tl' pidof x (n - 1) s') ∧
    (others_spare other x → if n =? 1 then timed_out (ker (w_ext s')) x else waiting (ker (w_ext s')) x)).
Proof.
  intros Ho Hok Ha. pose proof Ha as (Hw & Hin & Hc).
  pose proof (do_positive _ _ _ _ _ _ _ _ (sy_dogs _ _ _ _ _ _ _ _ _ _ _ Hok)) as Hpos.
  unfold positive in Hpos. rewrite Forall_forall in Hpos. pose proof (Hpos _ Hin) as Hn1. simpl in Hn1.
  eapply returns_mono; [eapply (tick_sys g_wdactivelist SEM_TIMEOUT other g_wdfreelist pool Hlay s tl fl P X pidof U); [|done]; intros; apply Ho|].
  intros [] s' (Hok' & Hs & Hwy & Hout). specialize (Hout x). rewrite (ends_wait _ _ _ _ _ _ _ _ _ Hok Ha) in Hout.
  destruct Hout as (HA & HB & HC).
  pose proof (Hwy x) as Hwx.
  split_and!; [done|done|done| |].
  - intros Hw'. assert (n ≠ 1) by (intros ->; by apply HB). split; [lia|]. split; [done|]. rewrite Hwx. split.
    + apply list_elem_of_filter. split; [simpl; lia|]. apply tick_elem. by replace (n - 1 + 1) with n by lia.
    + by rewrite (proj1 Hs).
  - intros Hsp. by apply HC.
Qed.

(** * sem_timedwait *)
Local Abbreviation timedwait := (sem_timedwait g_wdactivelist g_wdfreelist SEM_TIMEOUT).
Local Abbreviation syscall := (syscall g_wdactivelist g_wdfreelist SEM_TIMEOUT).
Local Abbreviation sysstep := (sysstep g_wdactivelist g_wdfreelist SEM_TIMEOUT other).
Local Abbreviation sys_inv := (sys_inv g_wdactivelist g_wdfreelist SEM_TIMEOUT pool).

(** What a caller of sem_timedwait sees to: it is a task, in no other
    sem_timedwait; the semaphore is one; the seconds fit their type. *)
Definition may_timedwait s (sem c : Z) (abstime : option timespec) : Prop :=
  let x := k_running (ker (w_ext s)) in
  x ≠ g_idletcb ∧ waitdog s x = NULL ∧ (sem ≠ NULL → k_sems (ker (w_ext s)) !! sem = Some c) ∧
  ∀ t, abstime = Some t → 0 ≤ tv_sec t < 2 ^ 32.

(** C10: sem_timedwait returns EINVAL for null pointers and ENOMEM when there
    is no watchdog for it; it takes a count when there is one; else it returns
    EINVAL for nanoseconds out of range and ETIMEDOUT when the time has come;
    else the caller sleeps, its watchdog set to the first tick after that time.
    Whenever it returns, the watchdog is given back. *)
Theorem sem_timedwait_correct s tl fl P X pidof U sem c abstime :
  sys_ok s tl fl P X pidof U → may_timedwait s sem c abstime →
  returns (timedwait sem abstime) s (λ r s',
    timedwait_post g_wdactivelist g_wdfreelist SEM_TIMEOUT pool s tl fl P X pidof U (k_running (ker (w_ext s))) sem c abstime r s').
Proof.
  intros Hok (Hi & Hx & Hc & Ht). destruct (sys_kern_ok _ _ _ _ _ _ _ _ _ _ _ Hok) as (T & HT & HxT).
  eapply returns_mono; [by eapply sem_timedwait_sys|]. intros r s' [_ Hp]. exact Hp.
Qed.

(** A task that goes on in sem_timedwait stops its watchdog and gives it
    back; it returns OK if it has got the semaphore, and ERROR with errno
    ETIMEDOUT if the wait has timed out. *)
Theorem sem_timedwait_resume_correct s tl fl P X pidof U t :
  let x := k_running (ker (w_ext s)) in
  sys_ok s tl fl P X pidof U → waitdog s x ≠ NULL → k_tcbs (ker (w_ext s)) !! x = Some t →
  returns (sem_timedwait_resume g_wdactivelist g_wdfreelist x) s (λ r s',
    r = (if negb (pterrno t =? EINTR) && negb (pterrno t =? ETIMEDOUT) then OK else ERROR) ∧
    (timed_out (ker (w_ext s)) x → r = ERROR ∧ errno_of (k_tcbs (ker (w_ext s'))) x = Some ETIMEDOUT) ∧
    waitdog s' x = NULL ∧ k_running (ker (w_ext s')) = x ∧ k_sems (ker (w_ext s')) = k_sems (ker (w_ext s)) ∧
    ∃ fl' P' X', sys_ok s' (remove_tl (waitdog s x) tl) fl' P' X' pidof U ∧ P ++ X ≡ₚ waitdog s x :: P' ++ X').
Proof.
  intros x Hok Hw Ht. destruct (sys_kern_ok _ _ _ _ _ _ _ _ _ _ _ Hok) as (T & HT & HxT).
  eapply returns_mono; [by eapply sem_timedwait_resume_sys|].
  intros r s' (-> & Hw' & Hx & _ & _ & Hs & He & Hok'). split_and!; try done.
  intros (t' & Ht' & _ & _ & Hto). rewrite Ht in Ht'. injection Ht' as <-.
  assert (Hr : wait_result t = ERROR) by (unfold wait_result; by rewrite Hto). split; [done|].
  rewrite <-Hto. apply He. rewrite Hr. done.
Qed.

(** Runs in which task [x] waits all along, with the number of ticks. *)
Inductive waits x : nat → wdstate (clock (sysrest R)) * list Z → wdstate (clock (sysrest R)) * list Z → Prop :=
| waits_refl su : waiting (ker (w_ext su.1)) x → waits x 0 su su
| waits_call m su su1 su2 : waits x m su su1 → syscall su1 su2 → waiting (ker (w_ext su2.1)) x → waits x m su su2
| waits_tick m su s s' U :
    waits x m su (s, U) → timer s = Done (tt, s') → waiting (ker (w_ext s')) x → waits x (S m) su (s', U).

Lemma waits_armed x n m s tl fl P X pidof U su :
  others_fair other → sys_ok s tl fl P X pidof U → armed tl pidof x n s → waits x m (s, U) su →
  ∃ tl' fl' P' X', sys_ok su.1 tl' fl' P' X' pidof su.2 ∧ armed tl' pidof x (n - Z.of_nat m) su.1.
Proof.
  intros Ho Hok Ha Hr. remember (s, U) as su0 eqn:E0. induction Hr as [su Hw|m su su1 su2 Hr IH Hc Hw|m su s1 s2 U1 Hr IH Et Hw].
  - subst su. exists tl, fl, P, X. by rewrite Z.sub_0_r.
  - destruct (IH E0) as (tl1 & fl1 & P1 & X1 & Hok1 & Ha1). destruct su1 as [s1 U1].
    destruct (syscall_sys _ _ _ _ Hlay _ _ _ _ _ _ _ _ Hok1 Hc) as (tl2 & fl2 & P2 & X2 & Hok2 & Hk).
    exists tl2, fl2, P2, X2. split; [done|]. by apply Hk.
  - destruct (IH E0) as (tl1 & fl1 & P1 & X1 & Hok1 & Ha1). simpl in *.
    pose proof (armed_tick _ _ _ _ _ _ _ _ _ Ho Hok1 Ha1) as Htk. unfold returns in Htk. rewrite Et in Htk.
    destruct Htk as (Hok2 & _ & _ & Hnext & _). eexists _, fl1, P1, X1. split; [exact Hok2|].
    destruct (Hnext Hw) as [_ Ha2]. by replace (n - Z.of_nat (S m)) with (n - Z.of_nat m - 1) by lia.
Qed.

(** C5: whatever other tasks and interrupts do, a wait in sem_timedwait that
    nothing else ends lasts [n] ticks, [n] - 1 being the number of ticks until
    the given time, rounded up: none before the last one ends it, and that one
    does, with ETIMEDOUT. *)
Theorem sem_timedwait_times_out s tl fl P X pidof U sem c t s1 m s2 U2 :
  let x := k_running (ker (w_ext s)) in let n := Z.min (timeout_ticks (w_ext s) t + 1) INT_MAX in
  others_fair other → sys_ok s tl fl P X pidof U → may_timedwait s sem c (Some t) →
  timedwait sem (Some t) s = Done (Suspended RSemWait, s1) → waits x m (s1, U) (s2, U2) →
  Z.of_nat m < n ∧
  returns timer s2 (λ _ s3, sys_inv pidof (s3, U2) ∧ waitdog s3 x ≠ NULL ∧
    (waiting (ker (w_ext s3)) x → Z.of_nat m + 1 < n) ∧
    (others_spare other x → if Z.of_nat m + 1 =? n then timed_out (ker (w_ext s3)) x else waiting (ker (w_ext s3)) x)).
Proof.
  intros x n Ho Hok (Hi & Hx & Hc & Ht) E Hr. destruct (sys_kern_ok _ _ _ _ _ _ _ _ _ _ _ Hok) as (T & HT & HxT).
  pose proof (sem_timedwait_sys _ _ _ _ Hlay s tl fl P X pidof U T x sem c (Some t) Hok HT HxT Hi Hx Hc Ht) as Hpost.
  unfold returns in Hpost. rewrite E in Hpost. destruct Hpost as [_ Hpost].
  assert (Hs : ∃ tl1 fl1 P1 X1, sys_ok s1 tl1 fl1 P1 X1 pidof U ∧ armed tl1 pidof x n s1).
  { unfold timedwait_post in Hpost. destruct (sem =? NULL); [by destruct Hpost as [(? & _) _]|].
    destruct Hpost as [[(? & _) _]|Hpost]; [done|]. destruct (0 <? c); [by destruct Hpost as (? & _)|].
    destruct (_ || _); [by destruct Hpost as [(? & _) _]|]. destruct (_ <=? 0); [by destruct Hpost as [(? & _) _]|].
    destruct Hpost as (_ & _ & _ & fl1 & P1 & X1 & Hok1 & _ & Ha1). by eexists _, _, _, _. }
  destruct Hs as (tl1 & fl1 & P1 & X1 & Hok1 & Ha1).
  destruct (waits_armed _ _ _ _ _ _ _ _ _ _ _ Ho Hok1 Ha1 Hr) as (tl2 & fl2 & P2 & X2 & Hok2 & Ha2). simpl in Hok2, Ha2.
  pose proof (armed_tick _ _ _ _ _ _ _ _ _ Ho Hok2 Ha2) as Ht3. apply returns_elim in Ht3 as ([] & s3 & E3 & Hok3 & H3 & Hw3 & Hn3 & Hsp3).
  split; [lia|]. eapply returns_intro; [exact E3|]. split_and!.
  - by eexists _, _, _, _.
  - rewrite Hw3. destruct Ha2 as (_ & Hin & _). by eapply armed_dog.
  - intros Hw. destruct (Hn3 Hw). lia.
  - intros Hsp. specialize (Hsp3 Hsp). destruct (Z.eqb_spec (n - Z.of_nat m) 1), (Z.eqb_spec (Z.of_nat m + 1) n); try lia; done.
Qed.

(** C6: in every run of the system the invariant holds: the kernel's state and
    the watchdogs' are in order, the processor runs the first task of the
    ready-to-run list; each preallocated watchdog is free, held by a client, or
    the one of a single task in sem_timedwait; a watchdog that will call
    sem_timeout belongs to such a task. *)
Theorem system_invariant pidof su0 s U :
  others_fair other → sys_inv pidof su0 → rtc sysstep su0 (s, U) → let k := ker (w_ext s) in
  ∃ T tl fl P X, sem_ok k T ∧ head (T g_readytorun) = Some (k_running k) ∧
    dogs_ok g_wdactivelist g_wdfreelist pool s tl fl P X ∧
    (∀ w, w ∈ pool → w ∈ fl ∨ w ∈ U ∨ ∃ x, waitdog s x = w) ∧
    (∀ w, w ∈ U → (w ∉ fl) ∧ ∀ x, waitdog s x ≠ w) ∧
    (∀ x, waitdog s x ≠ NULL → (waitdog s x ∉ fl) ∧ ∀ y, waitdog s y = waitdog s x → y = x) ∧
    (∀ w args, w ∈ tl.*1 → callof (w_dogs s) w = Some (SEM_TIMEOUT, args) →
      ∃ x t, waitdog s x = w ∧ k_tcbs k !! x = Some t ∧ args = [u32 (pid t)]).
Proof.
  intros Ho Hi Hr k. destruct (sysruns_ok _ _ _ _ _ Hlay _ _ _ Ho Hi Hr) as (tl & fl & P & X & Hok). simpl in Hok.
  destruct (sys_kern_ok _ _ _ _ _ _ _ _ _ _ _ Hok) as (T & HT & HxT). exists T, tl, fl, P, X.
  pose proof (sy_dogs _ _ _ _ _ _ _ _ _ _ _ Hok) as Hd. pose proof (sy_rest _ _ _ _ _ _ _ _ _ _ _ Hok) as Hrest.
  pose proof (sy_used _ _ _ _ _ _ _ _ _ _ _ Hok) as Hu.
  assert (Hfree : ∀ w, w ∈ P ++ X → w ∉ fl) by (intros w Hw Hf; by eapply (do_free_used _ _ _ Hlay)).
  assert (Hnn : NULL ∉ P ++ X).
  { intros Hin. edestruct dogs_known as (kk & Hk & _); [exact Hlay|exact Hd|exact Hin|done]. }
  split_and!; [apply HT| |done|..].
  - destruct (running_head _ _ _ (so_rq _ _ (sm_sched _ _ (proj1 HT)))) as [r Er]. by rewrite Er, HxT.
  - intros w Hw. rewrite <-(do_pool _ _ _ _ _ _ _ _ Hd), elem_of_app in Hw. destruct Hw as [Hw|Hw]; [by left|right].
    destruct (proj1 (Hu w)) as [?|(x & Hx & _)]; [apply elem_of_app; by left|by left|right; by exists x].
  - intros w Hw. assert (HwPX : w ∈ P ++ X) by (apply Hu; by left). split; [by apply Hfree|]. intros x Hx.
    destruct (sy_client _ _ _ _ _ _ _ _ _ _ _ Hok) as [_ HU]. eapply (HU x); rewrite Hx; [by intros ->|done].
  - intros x Hx. split; [apply Hfree, Hu; right; by exists x|]. intros y Hy.
    apply (sy_inj _ _ _ _ _ _ _ _ _ _ _ Hok); [done|by rewrite Hy].
  - intros w args Hw Hc. destruct (sy_timeout _ _ _ _ _ _ _ _ _ _ _ Hok w args Hw Hc) as (x & p & Hx & Hp & ->).
    rewrite <-(ro_pid _ _ _ _ Hrest x) in Hp. fold k in Hp. destruct (k_tcbs k !! x) as [t|] eqn:Et; [|done].
    injection Hp as <-. by exists x, t.
Qed.
End SystemThms.

(** C36: the system on the memory manager: in every run, every watchdog in use
    that is not preallocated is a live block of a well-formed heap. *)
Theorem system_on_heap {E} `{RtcClock E, Globals} nodelist lo hi my_pid active free f_timeout other pool pidof Hheap Hpid Hrtc su0
    (s : wdstate (clock (sysrest (heap * E)))) U :
  let platform := heap_platform nodelist my_pid in let laws := heap_platform_laws nodelist lo hi my_pid Hheap Hpid Hrtc in
  @wd_layout _ _ (@sys_alloc_laws _ platform laws _) active free pool →
  @others_fair _ platform laws _ other → @sys_inv _ platform laws _ active free f_timeout pool pidof su0 →
  rtc (@sysstep _ platform _ active free f_timeout other) su0 (s, U) →
  ∃ cs, state_ok nodelist lo hi (y_plat (c_ext (w_ext s))).1 cs ∧
    ∀ w, w ∈ U ∨ (∃ x, waitdog s x = w ∧ w ≠ NULL) → w ∉ pool → ∃ c, live lo hi cs c ∧ w = c_addr c + 8.
Proof.
  intros platform laws Hlay Ho Hi Hr. destruct (sysruns_ok _ _ _ _ _ Hlay _ _ _ Ho Hi Hr) as (tl & fl & P & X & Hok). simpl in Hok.
  pose proof (sy_dogs _ _ _ _ _ _ _ _ _ _ _ Hok) as Hd. destruct (do_held _ _ _ _ _ _ _ _ Hd) as (_ & _ & cs & Hcs & HX).
  exists cs. split; [exact Hcs|]. intros w Hw Hp. apply HX. apply (sy_used _ _ _ _ _ _ _ _ _ _ _ Hok) in Hw.
  apply elem_of_app in Hw as [Hw|Hw]; [|done]. exfalso. apply Hp. rewrite <-(do_pool _ _ _ _ _ _ _ _ Hd). apply elem_of_app. by right.
Qed.

(** * A small system for the witnesses: the tasks of [demo_k]; six watchdogs,
    all free; the heap of [demo_heap]; an RTC that cannot be set. *)
#[local] Existing Instance demo_globals.
#[local] Instance demo_no_rtc : RtcClock unit := {
  up_rtc_getdatetime_with_subseconds := mret (Tm 0 0 0 1 0 100, 0);
  up_rtc_settime tp := mret tt;
  clock_set_errno e := mret tt;
}.
#[local] Instance demo_platform : Platform (heap * unit) := heap_platform 4096 3.
Lemma demo_pid : 0 ≤ 3.
Proof. done. Qed.

Lemma demo_rtc_ok (e : unit) tp : returns (Clock.up_rtc_settime tp) e (λ _ _, True).
Proof. done. Qed.

#[local] Instance demo_laws : PlatformLaws (heap * unit) :=
  heap_platform_laws 4096 4400 4656 3 demo_layout demo_pid demo_rtc_ok.

Definition demo_kernel : kstate :=
  set_load ([Pidhash 1000 0 0; Pidhash 1100 1 0; Pidhash 1200 2 0; Pidhash 1300 3 0] ++ replicate 12 (Pidhash 0 0 0)) 0 demo_k.
Definition demo_pids (x : Z) : option Z :=
  if x =? 1000 then Some 0 else if x =? 1100 then Some 1 else if x =? 1200 then Some 2 else if x =? 1300 then Some 3 else None.
Definition demo_dogs : list Z := [2100; 2200; 2300; 2400; 2500; 2600].

Definition demo_sys : wdstate (clock (sysrest (heap * unit))) := WdState
  (list_to_map ([(2000, 0); (2004, 0); (2010, 2100); (2014, 2600)] ++ zip demo_dogs (tail demo_dogs ++ [0])))
  (list_to_map ((λ w, (w, Wdog 0 0 0 0 [0; 0])) <$> demo_dogs)) 6
  (Clock 12345 (Timespec 77 999999999) (Timespec 0 0) true (SysRest demo_kernel ∅ (demo_heap, tt))).

Definition demo_other (f : Z) (args : list Z) : M (clock (sysrest (heap * unit))) unit := mret tt.

Lemma demo_pids_ok : pids_ok (g_pidhash demo_kernel) demo_pids.
Proof.
  split; [done|..].
  - intros x p. unfold demo_pids. repeat (case_match; [intros [= <-]; split; [lia|]; eexists; split_and!; [done|done|simpl; lia]|]). done.
  - intros i d Hd. do 4 (destruct i as [|i]; [by injection Hd as <-|]). do 12 (destruct i as [|i]; [by injection Hd as <-|]). done.
Qed.

Lemma demo_sys_dogs : dogs_ok 2000 2010 demo_dogs demo_sys [] demo_dogs [] [].
Proof.
  split; try done.
  - split; try done; [split_and!; try done; apply (bool_decide_unpack _); reflexivity| |by intros x d ?%elem_of_nil].
    intros x. split; [by intros ?%elem_of_nil|]. intros (d & Hd & Ha). unfold demo_sys in Hd. simpl in Hd.
    repeat (apply lookup_insert_Some in Hd as [[<- <-]|[_ Hd]]; [done|]). done.
  - constructor.
  - split_and!; try done; [apply (bool_decide_unpack _); reflexivity|repeat constructor; lia].
  - intros x Hx. unfold demo_dogs in Hx. demo_mem; (split_and!; [done|by eexists|done]).
  - by intros x ?%elem_of_nil.
  - split_and!; [|apply demo_lock|].
    + apply NoDup_cons. split; [set_solver|constructor].
    + eexists. split; [apply (proj1 demo_ok)|set_solver].
Qed.

Lemma demo_sys_ok : sys_ok 2000 9000 2010 demo_dogs demo_sys [] demo_dogs [] [] demo_pids [].
Proof.
  split; try done.
  - apply demo_sys_dogs.
  - split; try done.
    + exists demo_T. apply kern_ok_load. split; [apply demo_sem|]. intros x [t Ht]. unfold demo_k in Ht. simpl in Ht.
      apply lookup_insert_Some in Ht as [[<- _]|[_ Ht]]; [exists 100; split; [by left|by right; left]|].
      apply lookup_insert_Some in Ht as [[<- _]|[_ Ht]]; [exists 100; split; [by left|by left]|].
      apply lookup_insert_Some in Ht as [[<- _]|[_ Ht]]; [exists g_waitingforsemaphore; split; [apply waitsem_in|by left]|].
      apply lookup_insert_Some in Ht as [[<- _]|[_ Ht]]; [exists g_pendingtasks; split; [apply pending_in|by left]|]. done.
    + apply demo_pids_ok.
    + intros x. unfold demo_pids. destruct (Z.eqb_spec x 1000) as [->|]; [done|]. destruct (Z.eqb_spec x 1100) as [->|]; [done|].
      destruct (Z.eqb_spec x 1200) as [->|]; [done|]. destruct (Z.eqb_spec x 1300) as [->|]; [done|].
      unfold demo_sys, demo_kernel, demo_k. simpl. by rewrite !lookup_insert_ne.
    + eapply do_held, demo_sys_dogs.
  - intros w. split; [by intros ?%elem_of_nil|]. intros [?%elem_of_nil|(x & <- & Hx)]; done.
  - split; [constructor|]. done.
  - by intros w args ?%elem_of_nil.
Qed.

Lemma demo_sys_layout : wd_layout 2000 2010 demo_dogs.
Proof.
  split; [done|apply (bool_decide_unpack _); reflexivity|]. unfold demo_dogs. repeat constructor; intros [? ?]; lia.
Qed.

Lemma demo_fair : others_fair demo_other.
Proof. intros W pidof X f args e Hok. by apply returns_ret. Qed.

Definition demo_time : timespec := Timespec 300 1.

Lemma demo_may : may_timedwait demo_sys 5004 0 (Some demo_time).
Proof. split_and!; [done|done|done|]. intros t [= <-]. simpl. lia. Qed.

(** The call that goes to sleep, and the tick after it. *)
Definition demo_asleep : wdstate (clock (sysrest (heap * unit))) :=
  match sem_timedwait 2000 2010 9000 5004 (Some demo_time) demo_sys with Done (_, s) => s | _ => demo_sys end.
Definition demo_ticked : wdstate (clock (sysrest (heap * unit))) :=
  match sched_process_timer 2000 9000 demo_other demo_asleep with Done (_, s) => s | _ => demo_sys end.
Definition is_waiting (k : kstate) (x : Z) : bool :=
  match k_tcbs k !! x with Some t => task_state t =? TSTATE_WAIT_SEM | None => false end.

Lemma is_waiting_ok k x : is_waiting k x = true → waiting k x.
Proof. unfold is_waiting. destruct (k_tcbs k !! x) as [t|] eqn:E; [|done]. intros Hs%Z.eqb_eq. by exists (waitsem t), t. Qed.

Lemma demo_sleeps : sem_timedwait 2000 2010 9000 5004 (Some demo_time) demo_sys = Done (Suspended RSemWait, demo_asleep).
Proof.
  assert (Hb : match sem_timedwait 2000 2010 9000 5004 (Some demo_time) demo_sys with
    | Done (Suspended RSemWait, _) => true | _ => false end = true) by (vm_compute; reflexivity).
  unfold demo_asleep. by destruct (sem_timedwait _ _ _ _ _ _) as [[[r|[]] s]| |].
Qed.

Lemma demo_ticks : sched_process_timer 2000 9000 demo_other demo_asleep = Done (tt, demo_ticked).
Proof.
  assert (Hb : match sched_process_timer 2000 9000 demo_other demo_asleep with Done _ => true | _ => false end = true)
    by (vm_compute; reflexivity).
  unfold demo_ticked. by destruct (sched_process_timer _ _ _ _) as [[[] s]| |].
Qed.

Lemma demo_waits : waits 2000 2010 9000 demo_other 1100 1 (demo_asleep, []) (demo_ticked, []).
Proof.
  eapply waits_tick; [apply waits_refl|apply demo_ticks|]; apply is_waiting_ok; vm_compute; reflexivity.
Qed.

Lemma demo_run : rtc (sysstep 2000 2010 9000 demo_other) (demo_sys, []) (demo_ticked, []).
Proof.
  eapply rtc_l; [apply sys_call; eapply (sys_timedwait _ _ _ 5004 (Some demo_time))|].
  - done.
  - done.
  - by eexists.
  - intros t [= <-]. simpl. lia.
  - apply demo_sleeps.
  - apply rtc_once, sys_tick, demo_ticks.
Qed.

Lemma demo_inv : sys_inv 2000 2010 9000 demo_dogs demo_pids (demo_sys, []).
Proof. exists [], demo_dogs, [], []. apply demo_sys_ok. Qed.

(** * Witnesses *)
Lemma sem_timedwait_correct_witness :
  returns (sem_timedwait 2000 2010 9000 5004 (Some demo_time)) demo_sys (λ r s',
    timedwait_post 2000 2010 9000 demo_dogs demo_sys [] demo_dogs [] [] demo_pids [] (k_running (ker (w_ext demo_sys))) 5004 0
      (Some demo_time) r s').
Proof. apply (sem_timedwait_correct 2000 2010 9000 demo_dogs demo_sys_layout); [apply demo_sys_ok|apply demo_may]. Defined.

Lemma sem_timedwait_times_out_witness :
  returns (sched_process_timer 2000 9000 demo_other) demo_ticked (λ _ s3,
    sys_inv 2000 2010 9000 demo_dogs demo_pids (s3, []) ∧ waitdog s3 1100 ≠ NULL).
Proof.
  destruct (sem_timedwait_times_out 2000 2010 9000 demo_other demo_dogs demo_sys_layout demo_sys [] demo_dogs [] [] demo_pids []
    5004 0 demo_time demo_asleep 1 demo_ticked [] demo_fair demo_sys_ok demo_may demo_sleeps demo_waits) as (_ & Hr).
  eapply returns_mono; [exact Hr|]. intros _ s3 (Hi & Hw & _). split; [exact Hi|exact Hw].
Defined.

Lemma system_invariant_witness :
  ∃ tl fl P X, dogs_ok 2000 2010 demo_dogs demo_ticked tl fl P X.
Proof.
  destruct (system_invariant 2000 2010 9000 demo_other demo_dogs demo_sys_layout demo_pids (demo_sys, []) demo_ticked [] demo_fair
    demo_inv demo_run) as (T & tl & fl & P & X & _ & _ & Hd & _).
  exists tl, fl, P, X. exact Hd.
Defined.

(** Task 1100 in sem_timedwait, with a watchdog, about to return. *)
Definition demo_reserved : wdstate (clock (sysrest (heap * unit))) :=
  match timedwait_reserve 2010 1100 5004 (Some demo_time) demo_sys with Done (_, s) => s | _ => demo_sys end.

Lemma demo_reserved_ok : ∃ fl P X, sys_ok 2000 9000 2010 demo_dogs demo_reserved [] fl P X demo_pids [] ∧ waitdog demo_reserved 1100 ≠ NULL.
Proof.
  pose proof (reserve_sys 2000 2010 9000 demo_dogs demo_sys_layout demo_sys [] demo_dogs [] [] demo_pids [] 1100 5004 (Some demo_time)
    demo_sys_ok eq_refl ltac:(by eexists)) as Hr.
  assert (Hb : match timedwait_reserve 2010 1100 5004 (Some demo_time) demo_sys with Done (r, _) => r =? OK | _ => false end = true)
    by (vm_compute; reflexivity).
  unfold returns in Hr. unfold demo_reserved. destruct (timedwait_reserve _ _ _ _ _) as [[r s]| |]; [|done..].
  apply Z.eqb_eq in Hb as ->. destruct Hr as (_ & fl & P & X & Hok & _ & _ & [(? & _)|(_ & Hn & _)]); [done|]. by exists fl, P, X.
Qed.

Lemma sem_timedwait_resume_correct_witness :
  ∃ r s', sem_timedwait_resume 2000 2010 1100 demo_reserved = Done (r, s') ∧ waitdog s' 1100 = NULL ∧ k_running (ker (w_ext s')) = 1100.
Proof.
  destruct demo_reserved_ok as (fl & P & X & Hok & Hw).
  destruct (returns_elim _ _ _ (sem_timedwait_resume_correct 2000 2010 9000 demo_dogs demo_sys_layout demo_reserved [] fl P X demo_pids []
    demo_t Hok Hw eq_refl)) as (r & s' & E & _ & _ & Hn & Hx & _).
  exists r, s'. split; [exact E|]. split; [exact Hn|exact Hx].
Defined.

Lemma system_on_heap_witness :
  ∃ cs, state_ok 4096 4400 4656 (y_plat (c_ext (w_ext demo_ticked))).1 cs.
Proof.
  destruct (system_on_heap 4096 4400 4656 3 2000 2010 9000 demo_other demo_dogs demo_pids demo_layout demo_pid demo_rtc_ok
    (demo_sys, []) demo_ticked [] demo_sys_layout demo_fair demo_inv demo_run) as (cs & Hcs & _).
  exists cs. exact Hcs.
Defined.
