(* ===== verification/Ubx.v ===== *)
(** The u-blox GPS driver, apps/system/ubgps: the UBX protocol (ubx.c), the
    timers and the poll loop (ubgps_poll.c), the NMEA line buffer and the byte
    dispatch (ubgps_internal.c).

    The queues of the driver (timers, callbacks) are lists, which [QueueThms]
    shows the sq operations implement.  A message buffer is a list of bytes
    under its address, [None] for a byte not written yet: an access outside a
    buffer, to a freed buffer or to a byte not written is a fault. *)

From S2P Require Import Prelude.

Definition OK : Z := 0.
Definition ERROR : Z := -1.
Definition EAGAIN : Z := 11.
Definition EBUSY : Z := 16.
Definition EINVAL : Z := 22.

(** * ubx.h *)
Definition UBX_SYNC_CHAR_1 : Z := 0xB5.
Definition UBX_SYNC_CHAR_2 : Z := 0x62.
Definition UBX_CLASS_ACK : Z := 0x05.
Definition UBX_CLASS_CFG : Z := 0x06.
Definition UBX_ACK_ACK : Z := 0x01.
Definition UBX_ACK_NAK : Z := 0x00.
Definition UBX_ACK_ACK_LEN : Z := 2.
Definition UBX_MSG_ACK_TIMEOUT : Z := 200.
Definition UBX_MSG_RECV_TIMEOUT : Z := 300.
Definition UBX_MSG_MAX_PAYLOAD_LENGTH : Z := 1024.
Definition SIZEOF_UBX_MSG : Z := 4.
Definition SIZEOF_TIMER : Z := 24.
Definition SIZEOF_CALLBACK_ENTRY : Z := 16.
Definition O_NONBLOCK : Z := Z.shiftl 1 6.

Inductive ubx_state_e :=
| UBX_STATE_MSG_WAIT
| UBX_STATE_MSG_SYNC
| UBX_STATE_MSG_HEADER
| UBX_STATE_MSG_PAYLOAD
| UBX_STATE_MSG_CHECKSUM1
| UBX_STATE_MSG_CHECKSUM2.

#[global] Instance ubx_state_eq_dec : EqDecision ubx_state_e.
Proof. solve_decision. Defined.

(** The value of the enumerator. *)
Definition state_value (st : ubx_state_e) : Z :=
  match st with
  | UBX_STATE_MSG_WAIT => 0
  | UBX_STATE_MSG_SYNC => 1
  | UBX_STATE_MSG_HEADER => 2
  | UBX_STATE_MSG_PAYLOAD => 3
  | UBX_STATE_MSG_CHECKSUM1 => 4
  | UBX_STATE_MSG_CHECKSUM2 => 5
  end.

(** A struct ubx_msg_s as bytes: class, message id, length (little endian),
    payload. *)
Abbreviation bytes := (list Z).
Definition class_id (m : bytes) : Z := default 0 (m !! 0%nat).
Definition msg_id (m : bytes) : Z := default 0 (m !! 1%nat).
Definition msg_length (m : bytes) : Z := default 0 (m !! 2%nat) + 256 * default 0 (m !! 3%nat).
Definition payload (m : bytes) : bytes := drop 4 m.
Definition UBX_GET_U1 (m : bytes) (offset : nat) : Z := default 0 (payload m !! offset).

Record ubx_receiver_s := Receiver {
  state : ubx_state_e;
  waiting_ack : bytes;
  header : bytes;
  msg : Z;
  offset : Z;
  ck_a : Z;
  ck_b : Z;
  send_timer_id : Z;
  receive_timer_id : Z;
  callback : Z;
  priv : Z;
}.

Definition set_state st r := Receiver st (waiting_ack r) (header r) (msg r) (offset r) (ck_a r) (ck_b r)
  (send_timer_id r) (receive_timer_id r) (callback r) (priv r).
Definition set_waiting_ack w r := Receiver (state r) w (header r) (msg r) (offset r) (ck_a r) (ck_b r)
  (send_timer_id r) (receive_timer_id r) (callback r) (priv r).
Definition set_header h r := Receiver (state r) (waiting_ack r) h (msg r) (offset r) (ck_a r) (ck_b r)
  (send_timer_id r) (receive_timer_id r) (callback r) (priv r).
Definition set_msg m r := Receiver (state r) (waiting_ack r) (header r) m (offset r) (ck_a r) (ck_b r)
  (send_timer_id r) (receive_timer_id r) (callback r) (priv r).
Definition set_offset o r := Receiver (state r) (waiting_ack r) (header r) (msg r) o (ck_a r) (ck_b r)
  (send_timer_id r) (receive_timer_id r) (callback r) (priv r).
Definition set_checksum a b r := Receiver (state r) (waiting_ack r) (header r) (msg r) (offset r) a b
  (send_timer_id r) (receive_timer_id r) (callback r) (priv r).
Definition set_send_timer t r := Receiver (state r) (waiting_ack r) (header r) (msg r) (offset r) (ck_a r)
  (ck_b r) t (receive_timer_id r) (callback r) (priv r).
Definition set_receive_timer t r := Receiver (state r) (waiting_ack r) (header r) (msg r) (offset r) (ck_a r)
  (ck_b r) (send_timer_id r) t (callback r) (priv r).
Definition set_callback c p r := Receiver (state r) (waiting_ack r) (header r) (msg r) (offset r) (ck_a r)
  (ck_b r) (send_timer_id r) (receive_timer_id r) c p.

(** * ubgps_poll.c, ubgps_internal.h *)
Record gps_priv_timer_s := Timer {
  t_entry : Z;
  t_alarm : Z * Z;
  t_callback : Z;
  t_priv : Z;
  t_id : Z;
}.

Record gps_callback_entry_s := CallbackEntry {
  cb_entry : Z;
  event_mask : Z;
  cb_callback : Z;
  cb_priv : Z;
}.

Record nmea_data_s := Nmea {
  line : option (list (option Z));
  line_size : Z;
  current_len : Z;
}.

(** The events the modelled code publishes. *)
Inductive gps_event :=
| NewTimer
| NmeaData (line : list (option Z)).
Definition event_id (e : gps_event) : Z :=
  match e with NewTimer => Z.shiftl 1 7 | NmeaData _ => Z.shiftl 1 4 end.

(** What the driver uses of the operating system, whose state is [E]. *)
Class Os (E : Type) := {
  malloc : Z → M E Z;
  calloc : Z → Z → M E Z;
  free : Z → M E unit;
  clock_gettime : M E (Z * Z);
  sys_write : Z → bytes → M E Z;
  sys_read : Z → Z → M E bytes;
  fcntl_getfl : Z → M E Z;
  fcntl_setfl : Z → Z → M E Z;
  get_errno : M E Z;
  set_errno : Z → M E unit;
}.

(** The driver: struct ubgps_s and the message buffers. *)
Record ubgps_s (E : Type) := Gps {
  ubx_receiver : ubx_receiver_s;
  timers : list gps_priv_timer_s;
  timer_id_cnt : Z;
  bufs : gmap Z (list (option Z));
  callback_event_mask : Z;
  callbacks : list gps_callback_entry_s;
  nmea : nmea_data_s;
  gps_fd : Z;
  is_nonblocking : bool;
  g_os : E;
}.
Arguments Gps {_} _ _ _ _ _ _ _ _ _ _.
Arguments ubx_receiver {_} _.
Arguments timers {_} _.
Arguments timer_id_cnt {_} _.
Arguments bufs {_} _.
Arguments callback_event_mask {_} _.
Arguments callbacks {_} _.
Arguments nmea {_} _.
Arguments gps_fd {_} _.
Arguments is_nonblocking {_} _.
Arguments g_os {_} _.

Section Ubx.
Context {E : Type} `{Os E}.
Local Abbreviation st := (ubgps_s E).

(** &ubx_timeout and &gps->state.ubx_receiver; the functions the driver calls: the UBX callback (called
    with the private pointer, the message and the timeout flag), the other
    timer functions and the registered event callbacks. *)
Variables ubx_timeout_fn receiver : Z.
Variable call_ubx : Z → Z → bytes → bool → M st Z.
Variable call_timer : Z → Z → Z → M st Z.
Variable call_user : Z → gps_event → Z → M st unit.

Definition set_receiver r (s : st) : st := Gps r (timers s) (timer_id_cnt s) (bufs s) (callback_event_mask s)
  (callbacks s) (nmea s) (gps_fd s) (is_nonblocking s) (g_os s).
Definition set_timers t n (s : st) : st := Gps (ubx_receiver s) t n (bufs s) (callback_event_mask s)
  (callbacks s) (nmea s) (gps_fd s) (is_nonblocking s) (g_os s).
Definition set_bufs b (s : st) : st := Gps (ubx_receiver s) (timers s) (timer_id_cnt s) b (callback_event_mask s)
  (callbacks s) (nmea s) (gps_fd s) (is_nonblocking s) (g_os s).
Definition set_callbacks m c (s : st) : st := Gps (ubx_receiver s) (timers s) (timer_id_cnt s) (bufs s)
  m c (nmea s) (gps_fd s) (is_nonblocking s) (g_os s).
Definition set_nmea n (s : st) : st := Gps (ubx_receiver s) (timers s) (timer_id_cnt s) (bufs s)
  (callback_event_mask s) (callbacks s) n (gps_fd s) (is_nonblocking s) (g_os s).
Definition set_nonblocking b (s : st) : st := Gps (ubx_receiver s) (timers s) (timer_id_cnt s) (bufs s)
  (callback_event_mask s) (callbacks s) (nmea s) (gps_fd s) b (g_os s).
Definition set_os x (s : st) : st := Gps (ubx_receiver s) (timers s) (timer_id_cnt s) (bufs s)
  (callback_event_mask s) (callbacks s) (nmea s) (gps_fd s) (is_nonblocking s) x.

Definition os {A} (e : M E A) : M st A := zoom g_os set_os e.
Definition recv {A} (f : ubx_receiver_s → A) : M st A := gets (λ s, f (ubx_receiver s)).
Definition upd_recv (f : ubx_receiver_s → ubx_receiver_s) : M st unit :=
  modify (λ s, set_receiver (f (ubx_receiver s)) s).

(** Message buffers. *)
Definition new_buf (p n : Z) : M st unit :=
  modify (λ s, set_bufs (<[p:=replicate (Z.to_nat n) None]> (bufs s)) s).
Definition free_buf (p : Z) : M st unit := λ s,
  match bufs s !! p with
  | Some _ => (os (free p);; modify (λ s, set_bufs (delete p (bufs s)) s)) s
  | None => Fault
  end.
Definition write_buf (p i v : Z) : M st unit := λ s,
  match bufs s !! p with
  | Some b => if (0 <=? i) && (i <? Z.of_nat (length b))
              then Done (tt, set_bufs (<[p:=<[Z.to_nat i:=Some v]> b]> (bufs s)) s) else Fault
  | None => Fault
  end.
(** The first [n] bytes, all of which must have been written. *)
Definition read_buf (p n : Z) : M st bytes := λ s,
  match bufs s !! p with
  | Some b => if n <=? Z.of_nat (length b)
              then match mapM id (take (Z.to_nat n) b) with Some m => Done (m, s) | None => Fault end
              else Fault
  | None => Fault
  end.
(** The message at [p]: its header, then as many bytes as it says. *)
Definition read_msg (p : Z) : M st bytes :=
  h ← read_buf p SIZEOF_UBX_MSG;
  read_buf p (SIZEOF_UBX_MSG + msg_length h).

(** * ubgps_internal.c: events *)


(** The entry at an address and the address of the next one, NULL at the end;
    an address that is not in the queue is a fault. *)
Fixpoint find_entry (a : Z) (cbs : list gps_callback_entry_s) : option (gps_callback_entry_s * Z) :=
  match cbs with
  | [] => None
  | cb :: cbs => if cb_entry cb =? a then Some (cb, default NULL (cb_entry <$> head cbs)) else find_entry a cbs
  end.
Definition entry_at (a : Z) : M st (gps_callback_entry_s * Z) := λ s,
  match find_entry a (callbacks s) with Some e => Done (e, s) | None => Fault end.

Definition publish_body (ev : gps_event) (cb : Z) : M st (Z + unit) :=
  if nonnull cb then
    e ← entry_at cb;
    (if negb (Z.land (event_mask e.1) (event_id ev) =? 0) && nonnull (cb_callback e.1)
     then call_user (cb_callback e.1) ev (cb_priv e.1) else mret tt);;
    e ← entry_at cb;
    mret (inl e.2)
  else mret (inr tt).

Definition ubgps_publish_event (ev : gps_event) : M st unit :=
  mask ← gets callback_event_mask;
  if Z.land mask (event_id ev) =? 0 then mret tt
  else
    cbs ← gets callbacks;
    loop (S (length cbs)) (publish_body ev) (default NULL (cb_entry <$> head (cbs : list _))).

Fixpoint gc_loop (cbs : list gps_callback_entry_s) : M st unit :=
  match cbs with
  | [] => mret tt
  | cb :: cbs =>
      (if event_mask cb =? 0 then
         modify (λ s, set_callbacks (callback_event_mask s)
                        (filter (λ e, cb_entry e ≠ cb_entry cb) (callbacks s)) s);;
         os (free (cb_entry cb))
       else mret tt);;
      gc_loop cbs
  end.
Definition __ubgps_gc_callbacks : M st unit := cbs ← gets callbacks; gc_loop cbs.

(** * ubgps.c: registering callbacks *)

(** The search: [None] when the callback is registered and active, otherwise
    the inactive entry to use again and the mask of the other entries. *)
Fixpoint register_scan (callback : Z) (cbs : list gps_callback_entry_s) (reuse : option gps_callback_entry_s)
    (mask : Z) : option (option gps_callback_entry_s * Z) :=
  match cbs with
  | [] => Some (reuse, mask)
  | cb :: cbs =>
      if cb_callback cb =? callback then
        if negb (event_mask cb =? 0) then None else register_scan callback cbs (Some cb) mask
      else register_scan callback cbs reuse (Z.lor mask (event_mask cb))
  end.

Definition ubgps_callback_register (mask callback pr : Z) : M st Z :=
  if negb (nonnull callback) then mret ERROR
  else
    cbs ← gets callbacks;
    match register_scan callback cbs None 0 with
    | None => mret ERROR
    | Some (reuse, others) =>
        modify (λ s, set_callbacks (Z.lor others mask) (callbacks s) s);;
        entry ← match reuse with
                | Some cb =>
                    modify (λ s, set_callbacks (callback_event_mask s)
                                   (filter (λ e, cb_entry e ≠ cb_entry cb) (callbacks s)) s);;
                    mret (cb_entry cb)
                | None => os (malloc SIZEOF_CALLBACK_ENTRY)
                end;
        if negb (nonnull entry) then mret ERROR
        else
          modify (λ s, set_callbacks (callback_event_mask s)
                         (callbacks s ++ [CallbackEntry entry mask callback pr]) s);;
          mret OK
    end.

(** Deactivating the entries of a callback; the mask of the other entries and
    whether there was one. *)
Fixpoint unregister_scan (callback : Z) (cbs : list gps_callback_entry_s) : list gps_callback_entry_s * Z * bool :=
  match cbs with
  | [] => ([], 0, false)
  | cb :: cbs =>
      let '(cbs, mask, found) := unregister_scan callback cbs in
      if cb_callback cb =? callback then
        (CallbackEntry (cb_entry cb) 0 (cb_callback cb) (cb_priv cb) :: cbs, mask, true)
      else (cb :: cbs, Z.lor (event_mask cb) mask, found)
  end.

Definition ubgps_callback_unregister (callback : Z) : M st Z :=
  if negb (nonnull callback) then mret ERROR
  else
    cbs ← gets callbacks;
    let '(cbs, mask, found) := unregister_scan callback cbs in
    modify (set_callbacks mask cbs);;
    mret (if found then OK else ERROR).

(** * ubgps_poll.c: timers *)

(** Whole seconds of the timeout. *)
Definition add_timeout (ta : Z * (Z * Z)) : M st (Z * (Z * Z) + Z * (Z * Z)) :=
  let '(timeout_msec, (sec, nsec)) := ta in
  if 1000 <=? timeout_msec then mret (inl (timeout_msec - 1000, (u32 (sec + 1), nsec)))
  else mret (inr ta).

Definition __ubgps_set_timer (timeout_msec timer_cb cb_priv : Z) : M st Z :=
  assert (nonnull timer_cb);;
  timer ← os (calloc 1 SIZEOF_TIMER);
  if negb (nonnull timer) then mret ERROR
  else
    alarm ← os clock_gettime;
    ta ← loop (S (Z.to_nat (timeout_msec / 1000))) add_timeout (timeout_msec, alarm);
    let '(timeout_msec, (sec, nsec)) := ta : Z * (Z * Z) in
    let alarm := (sec, s32 (nsec + timeout_msec * (1000 * 1000))) in
    cnt ← gets timer_id_cnt;
    let id := u16 (cnt + 1) in
    modify (λ s, set_timers (timers s ++ [Timer timer alarm timer_cb cb_priv id]) id s);;
    ubgps_publish_event NewTimer;;
    mret id.

(** The first timer with the id, and the timers without it. *)
Definition find_timer (id : Z) (ts : list gps_priv_timer_s) : option (nat * gps_priv_timer_s) :=
  list_find (λ t, t_id t = id) ts.

Definition __ubgps_remove_timer (id : Z) : M st unit :=
  ts ← gets timers;
  match find_timer (u16 id) ts with
  | Some (i, t) =>
      modify (λ s, set_timers (delete i (timers s)) (timer_id_cnt s) s);;
      os (free (t_entry t))
  | None => mret tt
  end.

(** * ubx.c *)

(** Freeing a pending message and resetting the receiver, the last part of
    ubx_timeout, ubx_msg_receive and ubx_reset. *)
Definition ubx_reset_state : M st unit :=
  stv ← recv state;
  (if state_value UBX_STATE_MSG_PAYLOAD <=? state_value stv then
     p ← recv msg;
     free_buf p
   else mret tt);;
  upd_recv (set_state UBX_STATE_MSG_WAIT);;
  upd_recv (set_checksum 0 0).

Definition ubx_stop_receive_timer : M st unit :=
  t ← recv receive_timer_id;
  if 0 <=? t then
    __ubgps_remove_timer t;;
    upd_recv (set_receive_timer (-1))
  else mret tt.

Definition ubx_stop_send_timer : M st unit :=
  t ← recv send_timer_id;
  if 0 <=? t then
    __ubgps_remove_timer t;;
    upd_recv (set_send_timer (-1))
  else mret tt.

Definition ubx_timeout (timer_id : Z) : M st Z :=
  send ← recv send_timer_id;
  rcv ← recv receive_timer_id;
  (if timer_id =? send then
     upd_recv (set_send_timer (-1));;
     cb ← recv callback;
     if nonnull cb then
       p ← recv priv;
       w ← recv waiting_ack;
       _ ← call_ubx cb p w true;
       mret tt
     else mret tt
   else if timer_id =? rcv then
     upd_recv (set_receive_timer (-1));;
     ubx_reset_state
   else mret tt);;
  mret OK.

Definition ubx_initialize (cb pr : Z) : M st Z :=
  upd_recv (set_state UBX_STATE_MSG_WAIT);;
  upd_recv (set_send_timer (-1));;
  upd_recv (set_receive_timer (-1));;
  upd_recv (set_callback cb pr);;
  upd_recv (set_header (replicate 4 0));;
  mret OK.

Definition ubx_reset : M st Z :=
  ubx_stop_send_timer;;
  ubx_stop_receive_timer;;
  ubx_reset_state;;
  mret OK.

Definition ubx_deinitialize : M st Z := ubx_reset.

Definition ubx_busy : M st bool :=
  t ← recv send_timer_id;
  mret (0 <=? t).

Definition ubx_msg_allocate (class msgid payload_length : Z) : M st Z :=
  m ← os (malloc (SIZEOF_UBX_MSG + payload_length));
  if negb (nonnull m) then mret NULL
  else
    modify (λ s, set_bufs (<[m:=Some <$> [class; msgid; u8 payload_length; u8 (payload_length / 256)] ++
                                  replicate (Z.to_nat payload_length) 0]> (bufs s)) s);;
    mret m.

Definition full_write_body (fd : Z) (bt : bytes * Z) : M st (bytes * Z + Z) :=
  let '(buf, total) := bt in
  n ← os (sys_write fd buf);
  r ← (if n =? ERROR then
         error ← os get_errno;
         if negb (error =? EAGAIN) then mret None else mret (Some 0)
       else mret (Some n));
  match r with
  | None => mret (inr ERROR)
  | Some nwritten =>
      let buf := drop (Z.to_nat nwritten) buf in
      let total := total + nwritten in
      mret (match buf with [] => inr total | _ => inl (buf, total) end)
  end.

(** [fuel] bounds the number of write calls. *)
Definition __ubgps_full_write (fuel : nat) (fd : Z) (buf : bytes) : M st Z :=
  loop fuel (full_write_body fd) (buf, 0).

(** 8-bit Fletcher checksum. *)
Fixpoint ubx_checksum (ck_a ck_b : Z) (data : bytes) : Z * Z :=
  match data with
  | [] => (ck_a, ck_b)
  | d :: data => let ck_a := u8 (ck_a + d) in ubx_checksum ck_a (u8 (ck_b + ck_a)) data
  end.

Definition ubx_msg_send (fuel : nat) (fd m : Z) : M st Z :=
  if (fd <? 0) || negb (nonnull m) then
    os (set_errno EINVAL);;
    mret ERROR
  else
    t ← recv send_timer_id;
    if 0 <=? t then
      os (set_errno EBUSY);;
      mret ERROR
    else
      ret ← __ubgps_full_write fuel fd [UBX_SYNC_CHAR_1; UBX_SYNC_CHAR_2];
      if negb (ret =? 2) then mret ERROR
      else
        data ← read_msg m;
        ret ← __ubgps_full_write fuel fd data;
        if negb (ret =? SIZEOF_UBX_MSG + msg_length data) then mret ERROR
        else
          let '(a, b) := ubx_checksum 0 0 data in
          ret ← __ubgps_full_write fuel fd [a; b];
          if negb (ret =? 2) then mret ERROR
          else
            (if class_id data =? UBX_CLASS_CFG then
               upd_recv (set_waiting_ack (take 4 data));;
               t ← __ubgps_set_timer UBX_MSG_ACK_TIMEOUT ubx_timeout_fn receiver;
               upd_recv (set_send_timer t)
             else mret tt);;
            mret OK.

(** ** ubx_msg_receive *)

(** Leaving the switch: a return with a value, or a break to the reset. *)
Inductive leave := Return (r : Z) | Break (invalid : bool).

Definition ubx_receive_wait (data : Z) : M st leave :=
  if data =? UBX_SYNC_CHAR_1 then
    upd_recv (set_state UBX_STATE_MSG_SYNC);;
    t ← __ubgps_set_timer UBX_MSG_RECV_TIMEOUT ubx_timeout_fn receiver;
    upd_recv (set_receive_timer t);;
    mret (Return OK)
  else mret (Return ERROR).

Definition ubx_receive_sync (data : Z) : M st leave :=
  if negb (data =? UBX_SYNC_CHAR_2) then mret (Break true)
  else
    upd_recv (set_offset 0);;
    upd_recv (set_state UBX_STATE_MSG_HEADER);;
    mret (Return OK).

(** The header is complete. *)
Definition ubx_receive_alloc : M st leave :=
  h ← recv header;
  if UBX_MSG_MAX_PAYLOAD_LENGTH <? msg_length h then mret (Break true)
  else
    m ← os (malloc (SIZEOF_UBX_MSG + msg_length h));
    upd_recv (set_msg m);;
    if negb (nonnull m) then mret (Break false)
    else
      new_buf m (SIZEOF_UBX_MSG + msg_length h);;
      write_buf m 0 (class_id h);;
      write_buf m 1 (msg_id h);;
      write_buf m 2 (default 0 (h !! 2%nat));;
      write_buf m 3 (default 0 (h !! 3%nat));;
      (if 0 <? msg_length h then
         upd_recv (set_offset 0);;
         upd_recv (set_state UBX_STATE_MSG_PAYLOAD)
       else upd_recv (set_state UBX_STATE_MSG_CHECKSUM1));;
      mret (Return OK).

Definition ubx_receive_header (data : Z) : M st leave :=
  off ← recv offset;
  h ← recv header;
  assert ((0 <=? off) && (off <? Z.of_nat (length h)));;
  upd_recv (set_header (<[Z.to_nat off:=data]> h));;
  upd_recv (set_offset (off + 1));;
  if off + 1 <? SIZEOF_UBX_MSG then mret (Return OK) else ubx_receive_alloc.

Definition ubx_receive_payload (data : Z) : M st leave :=
  p ← recv msg;
  off ← recv offset;
  write_buf p (SIZEOF_UBX_MSG + off) data;;
  upd_recv (set_offset (off + 1));;
  h ← read_buf p SIZEOF_UBX_MSG;
  (if msg_length h <=? off + 1 then upd_recv (set_state UBX_STATE_MSG_CHECKSUM1) else mret tt);;
  mret (Return OK).

Definition ubx_receive_checksum1 (data : Z) : M st leave :=
  a ← recv ck_a;
  if negb (a =? data) then mret (Break true)
  else
    upd_recv (set_state UBX_STATE_MSG_CHECKSUM2);;
    mret (Return OK).

(** Is [m] the acknowledgment of the message with header [w]? *)
Definition is_ack (m w : bytes) : bool :=
  (msg_length m =? UBX_ACK_ACK_LEN) && (class_id m =? UBX_CLASS_ACK) &&
  ((msg_id m =? UBX_ACK_ACK) || (msg_id m =? UBX_ACK_NAK)) &&
  (UBX_GET_U1 m 0 =? class_id w) && (UBX_GET_U1 m 1 =? msg_id w).

Definition ubx_receive_checksum2 (data : Z) : M st leave :=
  b ← recv ck_b;
  if negb (b =? data) then mret (Break true)
  else
    p ← recv msg;
    m ← read_msg p;
    t ← recv send_timer_id;
    w ← recv waiting_ack;
    (if (0 <=? t) && is_ack m w then ubx_stop_send_timer else mret tt);;
    cb ← recv callback;
    assert (nonnull cb);;
    pr ← recv priv;
    _ ← call_ubx cb pr m false;
    mret (Break false).

Definition ubx_receive_switch (data : Z) : M st leave :=
  stv ← recv state;
  (if (state_value UBX_STATE_MSG_HEADER <=? state_value stv) &&
      (state_value stv <=? state_value UBX_STATE_MSG_PAYLOAD) then
     a ← recv ck_a;
     b ← recv ck_b;
     upd_recv (set_checksum (u8 (a + data)) (u8 (b + u8 (a + data))))
   else mret tt);;
  match stv with
  | UBX_STATE_MSG_WAIT => ubx_receive_wait data
  | UBX_STATE_MSG_SYNC => ubx_receive_sync data
  | UBX_STATE_MSG_HEADER => ubx_receive_header data
  | UBX_STATE_MSG_PAYLOAD => ubx_receive_payload data
  | UBX_STATE_MSG_CHECKSUM1 => ubx_receive_checksum1 data
  | UBX_STATE_MSG_CHECKSUM2 => ubx_receive_checksum2 data
  end.

(** From the label try_again to the end. *)
Definition ubx_receive_round (data : Z) (_ : unit) : M st (unit + Z) :=
  v ← ubx_receive_switch data;
  match v with
  | Return r => mret (inr r)
  | Break invalid =>
      ubx_stop_receive_timer;;
      ubx_reset_state;;
      mret (if invalid : bool then inl tt else inr OK)
  end.

(** The byte is tried again at most once. *)
Definition ubx_msg_receive (data : Z) : M st Z := loop 2 (ubx_receive_round data) tt.

(** * ubgps_internal.c: NMEA lines and the receiver *)
Definition nmea_store (v : Z) : M st unit :=
  n ← gets nmea;
  match line n with
  | Some l =>
      assert ((0 <=? current_len n) && (current_len n <? Z.of_nat (length l)));;
      modify (set_nmea (Nmea (Some (<[Z.to_nat (current_len n):=Some v]> l)) (line_size n) (current_len n + 1)))
  | None => assert false
  end.

(** The byte stored last. *)
Definition nmea_last : M st Z := λ s,
  match line (nmea s) ≫= (λ l, l !! Z.to_nat (current_len (nmea s) - 1)) with
  | Some (Some v) => Done (v, s)
  | _ => Fault
  end.

Definition nmea_receiver (data : Z) : M st Z :=
  n ← gets nmea;
  match line n with
  | None => mret OK
  | Some _ =>
      nmea_send ← (if (data =? 13) || (data =? 10) then
                     if negb (current_len n =? 0) then
                       v ← nmea_last;
                       (if negb (v =? 0) then nmea_store 0 else mret tt);;
                       mret true
                     else mret false
                   else
                     nmea_store data;;
                     n ← gets nmea;
                     if current_len n =? u32 (line_size n - 1) then
                       nmea_store 0;;
                       mret true
                     else mret false);
      n ← gets nmea;
      (if (nmea_send : bool) && (1 <? current_len n) then
         ubgps_publish_event (NmeaData (default [] (line n)));;
         n ← gets nmea;
         modify (set_nmea (Nmea (line n) (line_size n) 0))
       else mret tt);;
      mret OK
  end.

Definition ubgps_set_nonblocking (set : bool) : M st Z :=
  fd ← gets gps_fd;
  assert (0 <=? fd);;
  cur ← gets is_nonblocking;
  if eqb set cur then mret OK
  else
    flags ← os (fcntl_getfl fd);
    if flags =? ERROR then mret ERROR
    else
      ret ← os (fcntl_setfl fd (if set then Z.lor flags O_NONBLOCK else Z.ldiff flags O_NONBLOCK));
      if ret =? ERROR then mret ERROR
      else
        modify (set_nonblocking set);;
        mret OK.

(** Passing the bytes read to the UBX receiver, and those it ignores to the
    NMEA receiver. *)
Fixpoint ubgps_dispatch (input : bytes) : M st unit :=
  match input with
  | [] => mret tt
  | data :: input =>
      r ← ubx_msg_receive data;
      (if r =? ERROR then _ ← nmea_receiver data; mret tt else mret tt);;
      ubgps_dispatch input
  end.

Definition ubgps_receiver_body (fd : Z) (_ : unit) : M st (unit + Z) :=
  ret ← ubgps_set_nonblocking true;
  if ret <? 0 then mret (inr ERROR)
  else
    input ← os (sys_read fd 32);
    match input with
    | [] =>
        ret ← ubgps_set_nonblocking false;
        mret (inr (if ret <? 0 then ERROR else OK))
    | _ =>
        ret ← ubgps_set_nonblocking false;
        if ret <? 0 then mret (inr ERROR)
        else
          ubgps_dispatch input;;
          __ubgps_gc_callbacks;;
          mret (inl tt)
    end.

(** [fuel] bounds the number of read calls. *)
Definition ubgps_receiver (fuel : nat) (fd : Z) : M st Z := loop fuel (ubgps_receiver_body fd) tt.

(** * ubgps_poll.c: the poll loop *)

(** Milliseconds from [now] to [alarm]; C division truncates. *)
Definition msec_diff (alarm now : Z * Z) : Z :=
  (alarm.1 - now.1) * 1000 + Z.quot (alarm.2 - now.2) (1000 * 1000).

Definition run_timer (cb id pr : Z) : M st Z :=
  if cb =? ubx_timeout_fn then ubx_timeout id else call_timer cb id pr.

Definition gps_handle_expired_timer (i : nat) (t : gps_priv_timer_s) : M st unit :=
  modify (λ s, set_timers (delete i (timers s)) (timer_id_cnt s) s);;
  os (free (t_entry t));;
  _ ← run_timer (t_callback t) (t_id t) (t_priv t);
  __ubgps_gc_callbacks.

Definition poll_timers_body (now : Z * Z) (i : nat) : M st (nat + unit) :=
  ts ← gets timers;
  match ts !! i with
  | None => mret (inr tt)
  | Some t =>
      assert (nonnull (t_callback t));;
      if msec_diff (t_alarm t) now <=? 0 then
        gps_handle_expired_timer i t;;
        mret (inl O)
      else mret (inl (S i))
  end.

(** [fuel] bounds the steps through the timers, [rfuel] the reads; [pollin] is
    POLLIN in revents. *)
Definition gps_poll_event (fuel rfuel : nat) (fd : Z) (pollin : bool) : M st Z :=
  gfd ← gets gps_fd;
  if negb (fd =? gfd) then
    os (set_errno EINVAL);;
    mret ERROR
  else
    ts ← gets timers;
    (match ts with
     | [] => mret tt
     | _ =>
         now ← os clock_gettime;
         loop fuel (poll_timers_body now) O
     end);;
    if pollin then
      ret ← ubgps_receiver rfuel fd;
      mret (if negb (ret =? OK) then ERROR else OK)
    else mret OK.

Definition ubgps_poll_timedout (fuel rfuel : nat) : M st Z :=
  fd ← gets gps_fd;
  gps_poll_event fuel rfuel fd false.

(** The poll timeout: the shortest time to an alarm, at most INT_MAX. *)
Fixpoint poll_timeout (now : Z * Z) (ts : list gps_priv_timer_s) (shortest : Z) : M st Z :=
  match ts with
  | [] => mret shortest
  | t :: ts =>
      assert (nonnull (t_callback t));;
      let d := msec_diff (t_alarm t) now in
      if d <=? 0 then mret 0
      else
        let d := if 2 ^ 31 - 1 <? d then 2 ^ 31 - 1 else d in
        poll_timeout now ts (if d <? shortest then d else shortest)
  end.

(** The arguments are whether the pointers are not NULL; the result is the
    status and the timeout stored.  pfd is set to wait for input on gps_fd. *)
Definition ubgps_poll_setup (pfd timeout : bool) : M st (Z * option Z) :=
  if negb pfd || negb timeout then
    os (set_errno EINVAL);;
    mret (ERROR, None)
  else
    ts ← gets timers;
    match ts with
    | [] => mret (OK, Some (-1))
    | _ =>
        now ← os clock_gettime;
        d ← poll_timeout now ts (2 ^ 31 - 1);
        mret (OK, Some d)
    end.
End Ubx.
