(* ===== verification/UbxInv.v ===== *)
(** The GPS driver: what it relies on, its invariant, and the timers and
    events.

    [OsLaws] states what the driver needs of the operating system: blocks of
    memory are handed out once and stay valid until freed.  [client_ok] states
    what it needs of the functions it calls back. *)

From S2P Require Import Prelude Ubx.

(** Range checks. *)
Ltac zbool := repeat (apply andb_true_iff; split); rewrite ?Z.leb_le, ?Z.ltb_lt, ?Z.eqb_eq; lia.

(** * The laws of the operating system *)

(** [owned e X]: in state [e], the driver holds the memory blocks [X];
    [seen e]: the messages the application has received so far, which only
    the application changes; [sent e]: the bytes written to the serial line,
    which only write changes. *)
Class OsLaws (E : Type) `{Os E} := {
  owned : E → list Z → Prop;
  seen : E → list bytes;
  sent : E → bytes;
  owned_perm e X Y : X ≡ₚ Y → owned e X → owned e Y;
  owned_nodup e X : owned e X → NoDup (NULL :: X);
  malloc_ok e X n : owned e X → 1 ≤ n < 2 ^ 31 → returns (malloc n) e (λ p e',
    (seen e', sent e') = (seen e, sent e) ∧ owned e' (if p =? NULL then X else p :: X));
  calloc_ok e X n z : owned e X → 1 ≤ n → 1 ≤ z → n * z < 2 ^ 31 → returns (calloc n z) e (λ p e',
    (seen e', sent e') = (seen e, sent e) ∧ owned e' (if p =? NULL then X else p :: X));
  free_ok e X p : owned e (p :: X) →
    returns (free p) e (λ _ e', (seen e', sent e') = (seen e, sent e) ∧ owned e' X);
  clock_ok e X : owned e X →
    returns clock_gettime e (λ _ e', (seen e', sent e') = (seen e, sent e) ∧ owned e' X);
  write_ok e X fd bs : owned e X → returns (sys_write fd bs) e (λ n e', owned e' X ∧
    ((n = ERROR ∧ (seen e', sent e') = (seen e, sent e)) ∨
     (0 ≤ n ≤ Z.of_nat (length bs) ∧ (seen e', sent e') = (seen e, sent e ++ take (Z.to_nat n) bs))));
  get_errno_ok e X : owned e X →
    returns get_errno e (λ _ e', (seen e', sent e') = (seen e, sent e) ∧ owned e' X);
  set_errno_ok e X v : owned e X →
    returns (set_errno v) e (λ _ e', (seen e', sent e') = (seen e, sent e) ∧ owned e' X);
}.

(** * Frames *)
Definition byte (d : Z) : Prop := 0 ≤ d < 256.

(** A message that fits the receiver. *)
Definition wf_msg (m : bytes) : Prop :=
  Forall byte m ∧ Z.of_nat (length m) = SIZEOF_UBX_MSG + msg_length m ∧ msg_length m ≤ UBX_MSG_MAX_PAYLOAD_LENGTH.

(** The bytes of a message on the line. *)
Definition frame (m : bytes) : bytes :=
  let '(a, b) := ubx_checksum 0 0 m in [UBX_SYNC_CHAR_1; UBX_SYNC_CHAR_2] ++ m ++ [a; b].

(** * The invariant *)

(** The state of the receiver after the bytes [h] of a frame. *)
Definition progress (r : ubx_receiver_s) (B : gmap Z (list (option Z))) (h : bytes) : Prop :=
  match state r with
  | UBX_STATE_MSG_WAIT => h = [] ∧ ck_a r = 0 ∧ ck_b r = 0
  | UBX_STATE_MSG_SYNC => h = [UBX_SYNC_CHAR_1] ∧ ck_a r = 0 ∧ ck_b r = 0
  | UBX_STATE_MSG_HEADER => ∃ x, h = UBX_SYNC_CHAR_1 :: UBX_SYNC_CHAR_2 :: x ∧ (length x < 4)%nat ∧
      offset r = Z.of_nat (length x) ∧ take (length x) (header r) = x ∧ (ck_a r, ck_b r) = ubx_checksum 0 0 x
  | UBX_STATE_MSG_PAYLOAD => ∃ x y, h = UBX_SYNC_CHAR_1 :: UBX_SYNC_CHAR_2 :: x ++ y ∧ length x = 4%nat ∧
      offset r = Z.of_nat (length y) ∧ Z.of_nat (length y) < msg_length x ≤ UBX_MSG_MAX_PAYLOAD_LENGTH ∧
      B !! msg r = Some ((Some <$> x ++ y) ++ replicate (Z.to_nat (msg_length x) - length y) None) ∧
      (ck_a r, ck_b r) = ubx_checksum 0 0 (x ++ y)
  | UBX_STATE_MSG_CHECKSUM1 => ∃ m, h = UBX_SYNC_CHAR_1 :: UBX_SYNC_CHAR_2 :: m ∧ wf_msg m ∧
      B !! msg r = Some (Some <$> m) ∧ (ck_a r, ck_b r) = ubx_checksum 0 0 m
  | UBX_STATE_MSG_CHECKSUM2 => ∃ m, h = UBX_SYNC_CHAR_1 :: UBX_SYNC_CHAR_2 :: m ++ [ck_a r] ∧ wf_msg m ∧
      B !! msg r = Some (Some <$> m) ∧ (ck_a r, ck_b r) = ubx_checksum 0 0 m
  end.

(** The memory blocks of the driver. *)
Definition blocks {E} (s : ubgps_s E) : list Z :=
  (map_to_list (bufs s)).*1 ++ (t_entry <$> timers s) ++ (cb_entry <$> callbacks s).

(** The driver in order, at whatever point of a frame: a message that is being
    received has its buffer. *)
Record gps_live {E} `{OsLaws E} (s : ubgps_s E) : Prop := {
  live_owned : owned (g_os s) (blocks s);
  live_header : length (header (ubx_receiver s)) = 4%nat;
  live_pending : state_value UBX_STATE_MSG_PAYLOAD ≤ state_value (state (ubx_receiver s)) →
    is_Some (bufs s !! msg (ubx_receiver s));
  live_callback : callback (ubx_receiver s) ≠ NULL;
  live_timers : Forall (λ t, t_callback t ≠ NULL) (timers s);
}.

(** The driver with [h] received of a frame. *)
Record gps_ok {E} `{OsLaws E} (s : ubgps_s E) (h : bytes) : Prop := {
  ok_live : gps_live s;
  ok_bytes : Forall byte h;
  ok_progress : progress (ubx_receiver s) (bufs s) h;
}.

(** A step of the driver that passes no message to the application, and leaves
    the NMEA line alone. *)
Definition quiet {E} `{OsLaws E} (s s' : ubgps_s E) : Prop :=
  (seen (g_os s'), nmea s') = (seen (g_os s), nmea s).

(** A step that passes the message [m] to the application. *)
Definition delivers {E} `{OsLaws E} (m : bytes) (s s' : ubgps_s E) : Prop :=
  (seen (g_os s'), nmea s') = (seen (g_os s) ++ [m], nmea s).

(** Chains of such steps. *)
Ltac quiet := unfold quiet, delivers in *; simpl in *; congruence.

(** What the driver relies on in the functions it calls back: they keep the
    driver in order; the UBX callback may reset the receiver; the event
    callbacks may deactivate entries but leave the queue itself alone while
    it is being worked through. *)
Record client_ok {E} `{OsLaws E} (call_ubx : Z → Z → bytes → bool → M (ubgps_s E) Z)
    (call_user : Z → gps_event → Z → M (ubgps_s E) unit) : Prop := {
  ubx_ok cb pr m t s h : gps_ok s h →
    returns (call_ubx cb pr m t) s (λ _ s', (gps_ok s' h ∨ gps_ok s' []) ∧
      if t : bool then quiet s s' else delivers m s s');
  user_ok cb ev pr s h : gps_ok s h →
    returns (call_user cb ev pr) s (λ _ s', gps_ok s' h ∧ quiet s s' ∧ sent (g_os s') = sent (g_os s) ∧
      cb_entry <$> callbacks s' = cb_entry <$> callbacks s);
}.

Section UbxInv.
Context {E : Type} `{OsLaws E}.
Implicit Types (s : ubgps_s E) (h : bytes).

(** An operation of the system inside the driver. *)
Lemma returns_os {A} (e : M E A) s (Q : A → E → Prop) (R : A → ubgps_s E → Prop) :
  returns e (g_os s) Q → (∀ a x, Q a x → R a (set_os x s)) → returns (os e) s R.
Proof. intros He HR. apply returns_zoom. eapply returns_mono; [exact He|]. auto. Qed.

Lemma returns_upd_recv f s (Q : unit → ubgps_s E → Prop) :
  Q tt (set_receiver (f (ubx_receiver s)) s) → returns (upd_recv f) s Q.
Proof. done. Qed.

(** Fields of the receiver that are not about the frame being received. *)
Definition same_frame (r r' : ubx_receiver_s) : Prop :=
  state r' = state r ∧ header r' = header r ∧ msg r' = msg r ∧ offset r' = offset r ∧
  ck_a r' = ck_a r ∧ ck_b r' = ck_b r ∧ callback r' = callback r.

Lemma progress_same r r' B h : same_frame r r' → progress r B h → progress r' B h.
Proof. intros (E1 & E2 & E3 & E4 & E5 & E6 & _). unfold progress. by rewrite E1, E2, E3, E4, E5, E6. Qed.

Lemma gps_live_recv s r' : same_frame (ubx_receiver s) r' → gps_live s → gps_live (set_receiver r' s).
Proof.
  intros (E1 & E2 & E3 & _ & _ & _ & E7) [H1 H2 H3 H4 H5]. split; simpl; rewrite ?E1, ?E2, ?E3, ?E7; done.
Qed.

Lemma gps_ok_recv s h r' : same_frame (ubx_receiver s) r' → gps_ok s h → gps_ok (set_receiver r' s) h.
Proof.
  intros Hr [H1 H2 H3]. split; [by apply gps_live_recv|done|by eapply progress_same].
Qed.

(** The parts of the state the frame being received does not depend on. *)
Lemma gps_live_os s x ts n cbs mask :
  let s' := set_os x (set_callbacks mask cbs (set_timers ts n s)) in
  owned x (blocks s') → Forall (λ t, t_callback t ≠ NULL) ts → gps_live s → gps_live s'.
Proof. intros s' Hx Hts [H1 H2 H3 H4 H5]. by split. Qed.

Lemma gps_ok_os s h x : owned x (blocks s) → gps_ok s h → gps_ok (set_os x s) h.
Proof. intros Hx [[] H2 H3]. by do 2 (split; try done). Qed.


(** ** Events *)
Lemma find_entry_at cbs pre a suf :
  cb_entry <$> cbs = pre ++ a :: suf → NoDup (cb_entry <$> cbs) →
  ∃ cb, find_entry a cbs = Some (cb, hd_or NULL suf).
Proof.
  revert pre. induction cbs as [|cb cbs IH]; intros pre E' Hnd; [by destruct pre|].
  rewrite fmap_cons in E', Hnd. apply NoDup_cons in Hnd as [Hn Hnd]. simpl.
  destruct pre as [|b pre]; injection E' as E1 E2.
  - rewrite E1, Z.eqb_refl. exists cb. do 2 f_equal. unfold hd_or. rewrite <-E2. by destruct cbs.
  - destruct (Z.eqb_spec (cb_entry cb) a) as [Ea|]; [|by eapply IH].
    exfalso. apply Hn. rewrite E2, Ea. set_solver.
Qed.

Lemma entries_nodup s h : gps_ok s h → NoDup (cb_entry <$> callbacks s) ∧ NULL ∉ cb_entry <$> callbacks s.
Proof.
  intros Hok. pose proof (owned_nodup _ _ (live_owned _ (ok_live _ _ Hok))) as [Hn Hnd]%NoDup_cons.
  unfold blocks in Hn, Hnd. rewrite !NoDup_app in Hnd. rewrite !elem_of_app in Hn. naive_solver.
Qed.

Section Client.
Context (call_ubx : Z → Z → bytes → bool → M (ubgps_s E) Z)
  (call_user : Z → gps_event → Z → M (ubgps_s E) unit).
Hypothesis Hclient : client_ok call_ubx call_user.

(** A step that keeps the frame [h], delivers nothing and sends nothing. *)
Definition keeps {A} s h (_ : A) (s' : ubgps_s E) : Prop :=
  gps_ok s' h ∧ quiet s s' ∧ sent (g_os s') = sent (g_os s).

Lemma publish_loop ev : ∀ suf pre fuel s h,
  cb_entry <$> callbacks s = pre ++ suf → (length suf < fuel)%nat → gps_ok s h →
  returns (loop fuel (publish_body call_user ev) (hd_or NULL suf)) s (keeps s h).
Proof.
  induction suf as [|a suf IH]; intros pre fuel s h Ecb Hf Hok; (destruct fuel as [|fuel]; [simpl in *; lia|]); rewrite loop_S.
  { by apply returns_bind, returns_ret, returns_ret. }
  pose proof (entries_nodup s h Hok) as [Hnd Hnull].
  rewrite hd_or_cons. apply returns_bind. unfold publish_body.
  assert (a ≠ NULL) by (intros ->; apply Hnull; rewrite Ecb; set_solver).
  replace (nonnull a) with true by (unfold nonnull; lia).
  assert (Hat : ∀ s1, cb_entry <$> callbacks s1 = pre ++ a :: suf → gps_ok s1 h → ∃ cb,
    entry_at a s1 = Done ((cb, hd_or NULL suf), s1)).
  { intros s1 E1 Hok1. destruct (find_entry_at (callbacks s1) pre a suf E1) as [cb Ef]; [by eapply entries_nodup|].
    exists cb. unfold entry_at. by rewrite Ef. }
  destruct (Hat s Ecb Hok) as [cb Ea]. apply returns_bind. eapply returns_intro; [exact Ea|].
  assert (Hgo : ∀ s1, gps_ok s1 h → quiet s s1 → sent (g_os s1) = sent (g_os s) →
    cb_entry <$> callbacks s1 = cb_entry <$> callbacks s →
    returns (e ← entry_at a; mret (inl e.2)) s1 (λ r s2, returns match r with
      | inl a' => loop fuel (publish_body call_user ev) a' | inr b => mret b end s2 (keeps s h))).
  { intros s1 Hok1 Hq Hs1 E1. rewrite Ecb in E1. destruct (Hat s1 E1 Hok1) as [cb1 Ea1].
    apply returns_bind. eapply returns_intro; [exact Ea1|]. apply returns_ret. simpl.
    eapply returns_mono; [apply (IH (pre ++ [a]) fuel s1 h); [by rewrite <-app_assoc|simpl in Hf; lia|done]|].
    intros [] s2 (? & Hq2 & ?). split_and!; [done|quiet|congruence]. }
  apply returns_bind. simpl. destruct (_ && _).
  - eapply returns_mono; [by apply (user_ok _ _ Hclient)|]. intros [] s1 (? & ? & ? & ?). by apply Hgo.
  - apply returns_ret. by apply Hgo.
Qed.

Lemma publish_ok ev s h :
  gps_ok s h → returns (ubgps_publish_event call_user ev) s (keeps s h).
Proof.
  intros Hok. unfold ubgps_publish_event. apply returns_bind, returns_gets. case_match; [by apply returns_ret|].
  apply returns_bind, returns_gets.
  replace (default NULL (cb_entry <$> head (callbacks s))) with (hd_or NULL (cb_entry <$> callbacks s))
    by (by destruct (callbacks s)).
  eapply publish_loop; [by instantiate (1:=[])|by rewrite length_fmap; lia|done].
Qed.

(** ** Timers *)
Lemma add_timeout_loop t sec nsec s (Q : Z * (Z * Z) → ubgps_s E → Prop) :
  0 ≤ t → Q (t `mod` 1000, (if t / 1000 =? 0 then sec else u32 (sec + t / 1000), nsec)) s →
  returns (loop (S (Z.to_nat (t / 1000))) add_timeout (t, (sec, nsec))) s Q.
Proof.
  intros Ht HQ. remember (Z.to_nat (t / 1000)) as n eqn:Hn. revert t sec HQ Ht Hn.
  induction n as [|n IH]; intros t sec HQ Ht Hn; rewrite loop_S; apply returns_bind; unfold add_timeout.
  - replace (1000 <=? t) with false by mod_lia. do 2 apply returns_ret.
    rewrite Z.mod_small, (Z.div_small t) in HQ by mod_lia. done.
  - replace (1000 <=? t) with true by mod_lia. apply returns_ret. apply IH; [|mod_lia..].
    replace ((t - 1000) `mod` 1000) with (t `mod` 1000) by mod_lia.
    replace ((t - 1000) / 1000) with (t / 1000 - 1) by mod_lia. rewrite (proj2 (Z.eqb_neq (t / 1000) 0)) in HQ by mod_lia.
    destruct (Z.eqb_spec (t / 1000 - 1) 0) as [E1|]; [by replace (t / 1000) with 1 in HQ by lia|].
    unfold u32 in *. rewrite Zplus_mod_idemp_l. by replace (sec + 1 + (t / 1000 - 1)) with (sec + t / 1000) by lia.
Qed.

Lemma set_timer_ok timeout cb pr s h :
  gps_ok s h → cb ≠ NULL → 0 ≤ timeout →
  returns (__ubgps_set_timer call_user timeout cb pr) s (keeps s h).
Proof.
  intros Hok Hcb Ht. pose proof Hok as [[H1 H2 H3 H4 H5] H6 H7].
  unfold __ubgps_set_timer. apply returns_bind, returns_assert; [unfold nonnull; lia|].
  apply returns_bind. eapply returns_os; [by apply calloc_ok|]. intros p x (Hs & Hx). unfold nonnull.
  destruct (Z.eqb_spec p NULL) as [->|Hp]; cbn [negb].
  { apply returns_ret. split_and!; [by apply gps_ok_os|quiet|simpl; congruence]. }
  apply returns_bind. eapply returns_os; [by apply clock_ok|]. intros [sec nsec] y (Hs' & Hy). simpl in Hs', Hy.
  apply returns_bind, add_timeout_loop; [done|]. apply returns_bind, returns_gets, returns_bind, returns_modify, returns_bind.
  eapply returns_mono; [apply (publish_ok NewTimer _ h)|].
  - split; try done. split; try done; simpl.
    + eapply owned_perm; [|exact Hy]. unfold blocks. simpl. rewrite fmap_app. simpl. solve_Permutation.
    + apply Forall_app. split; [done|by repeat constructor].
  - intros [] s' (Hok' & Hq & Hsn). apply returns_ret. split_and!; [done|quiet|simpl in *; congruence].
Qed.
End Client.

Lemma delete_timer_perm (ts : list gps_priv_timer_s) i t :
  ts !! i = Some t → t_entry <$> ts ≡ₚ t_entry t :: (t_entry <$> delete i ts).
Proof. intros Hi. rewrite <-fmap_cons. apply fmap_Permutation. by apply delete_Permutation. Qed.

(** A step that changes at most the timers and the system. *)
Record timers_only s s' : Prop := {
  to_quiet : quiet s s';
  to_receiver : ubx_receiver s' = ubx_receiver s;
  to_bufs : bufs s' = bufs s;
  to_live : gps_live s → gps_live s';
}.

Lemma timers_only_ok s s' h : timers_only s s' → gps_ok s h → gps_ok s' h.
Proof. intros [_ Er Eb Hl] [H1 H2 H3]. split; [auto|done|by rewrite Er, Eb]. Qed.

(** Taking a timer out of the queue. *)
Lemma timer_out s i t :
  gps_live s → timers s !! i = Some t →
  returns (_ ← modify (λ s, set_timers (delete i (timers s)) (timer_id_cnt s) s); os (free (t_entry t))) s
    (λ _, timers_only s).
Proof.
  intros Hok Hi. pose proof Hok as [H1 H2 H3 H4 H5]. apply returns_bind, returns_modify.
  eapply returns_os.
  { eapply free_ok. eapply owned_perm; [|exact H1]. unfold blocks. simpl.
    rewrite (delete_timer_perm _ _ _ Hi). instantiate (1 := blocks (set_timers (delete i (timers s)) (timer_id_cnt s) s)).
    unfold blocks. simpl. solve_Permutation. }
  intros [] x [Hs Hx]. split; [quiet|done|done|]. intros _. split; try done. simpl.
  rewrite Forall_forall in *. intros t' Ht'. apply H5. by eapply list_elem_of_delete_inv.
Qed.

Lemma remove_timer_ok id s : gps_live s → returns (__ubgps_remove_timer id) s (λ _, timers_only s).
Proof.
  intros Hok. unfold __ubgps_remove_timer. apply returns_bind, returns_gets.
  destruct (find_timer _ _) as [[i t]|] eqn:Ef; [|by apply returns_ret].
  apply list_find_Some in Ef as (Hi & _). by apply (timer_out s i t).
Qed.
End UbxInv.
