(* ===== verification/UbxFrame.v ===== *)
(** UBX frames: what a byte sequence can still become, and the Fletcher
    checksum. *)

From S2P Require Import Prelude Ubx UbxInv.

(** [l] is the beginning of the frame of a well-formed message. *)
Definition frame_prefix (l : bytes) : Prop := ∃ m rest, wf_msg m ∧ frame m = l ++ rest.

Lemma frame_alt m a b : ubx_checksum 0 0 m = (a, b) →
  frame m = UBX_SYNC_CHAR_1 :: UBX_SYNC_CHAR_2 :: m ++ [a; b].
Proof. unfold frame. by intros ->. Qed.

Lemma checksum_app a b l1 l2 :
  ubx_checksum a b (l1 ++ l2) = let '(a', b') := ubx_checksum a b l1 in ubx_checksum a' b' l2.
Proof. revert a b. induction l1 as [|d l1 IH]; intros a b; simpl; [done|]. apply IH. Qed.

Lemma checksum_snoc a b l d a' b' :
  (a', b') = ubx_checksum a b l → (u8 (a' + d), u8 (b' + u8 (a' + d))) = ubx_checksum a b (l ++ [d]).
Proof. intros E. by rewrite checksum_app, <-E. Qed.

Lemma msg_length_take m : msg_length (take 4 m) = msg_length m.
Proof. unfold msg_length. by rewrite !lookup_take_lt by lia. Qed.

Lemma msg_length_app x y : length x = 4%nat → msg_length (x ++ y) = msg_length x.
Proof. intros Hx. unfold msg_length. by rewrite !lookup_app_l by lia. Qed.

Lemma byte_default m i : Forall byte m → byte (default 0 (m !! i)).
Proof.
  intros Hm. destruct (m !! i) as [v|] eqn:Hv; simpl; [by eapply Forall_lookup_1 in Hm|unfold byte; lia].
Qed.

Lemma msg_length_nonneg m : Forall byte m → 0 ≤ msg_length m.
Proof.
  intros Hm. pose proof (byte_default m 2 Hm). pose proof (byte_default m 3 Hm). unfold msg_length, byte in *. lia.
Qed.

Lemma wf_length m : wf_msg m → (4 ≤ length m)%nat.
Proof. intros (Hb & Hl & _). pose proof (msg_length_nonneg m Hb). unfold SIZEOF_UBX_MSG in Hl. lia. Qed.

(** The header decides where a message ends. *)
Lemma wf_det m m' t t' : wf_msg m → wf_msg m' → m ++ t = m' ++ t' → m = m' ∧ t = t'.
Proof.
  intros Hm Hm' Eq. pose proof (wf_length _ Hm) as L. pose proof (wf_length _ Hm') as L'.
  assert (Et : take 4 m = take 4 m').
  { rewrite <-(take_app_le m t), <-(take_app_le m' t') by lia. by rewrite Eq. }
  apply app_inj_1; [|done]. destruct Hm as (_ & Hl & _), Hm' as (_ & Hl' & _).
  rewrite <-(msg_length_take m), Et, (msg_length_take m') in Hl. lia.
Qed.

(** ** What is a prefix *)
Lemma prefix_sync l : frame_prefix l → l `prefix_of` [UBX_SYNC_CHAR_1; UBX_SYNC_CHAR_2] ∨
  ∃ x, l = UBX_SYNC_CHAR_1 :: UBX_SYNC_CHAR_2 :: x.
Proof.
  intros (m & rest & _ & Ef). unfold frame in Ef. destruct (ubx_checksum 0 0 m) as [a b].
  destruct l as [|c [|c' l]]; simpl in Ef.
  - left. by eexists.
  - left. injection Ef as <- _. by exists [UBX_SYNC_CHAR_2].
  - right. injection Ef as <- <- _. by exists l.
Qed.

(** Any short header can be completed, and so can any header of acceptable
    length with any part of its payload. *)
Lemma prefix_message x : wf_msg x → frame_prefix (UBX_SYNC_CHAR_1 :: UBX_SYNC_CHAR_2 :: x).
Proof.
  intros Hx. destruct (ubx_checksum 0 0 x) as [a b] eqn:Ec. exists x, [a; b]. split; [done|].
  by rewrite (frame_alt _ _ _ Ec).
Qed.

Lemma prefix_shorten l1 l2 : frame_prefix (l1 ++ l2) → frame_prefix l1.
Proof. intros (m & rest & Hm & Ef). exists m, (l2 ++ rest). by rewrite app_assoc. Qed.

Lemma replicate_bytes n : Forall byte (replicate n 0).
Proof. apply Forall_replicate. unfold byte. lia. Qed.

Lemma prefix_payload x y :
  Forall byte (x ++ y) → length x = 4%nat → Z.of_nat (length y) ≤ msg_length x ≤ UBX_MSG_MAX_PAYLOAD_LENGTH →
  frame_prefix (UBX_SYNC_CHAR_1 :: UBX_SYNC_CHAR_2 :: x ++ y).
Proof.
  intros Hb Hx Hy. apply (prefix_shorten _ (replicate (Z.to_nat (msg_length x) - length y) 0)).
  change (frame_prefix (UBX_SYNC_CHAR_1 :: UBX_SYNC_CHAR_2 :: (x ++ y) ++ replicate (Z.to_nat (msg_length x) - length y) 0)).
  apply prefix_message. rewrite <-app_assoc. unfold wf_msg. rewrite msg_length_app by done. split_and!; [|..|lia].
  - rewrite app_assoc. apply Forall_app. split; [done|apply replicate_bytes].
  - rewrite !length_app, length_replicate, Hx. unfold SIZEOF_UBX_MSG. lia.
Qed.

Lemma prefix_header x :
  Forall byte x → (length x < 4)%nat → frame_prefix (UBX_SYNC_CHAR_1 :: UBX_SYNC_CHAR_2 :: x).
Proof.
  intros Hb Hx. apply (prefix_shorten _ (replicate (4 - length x) 0)).
  change (frame_prefix (UBX_SYNC_CHAR_1 :: UBX_SYNC_CHAR_2 :: (x ++ replicate (4 - length x) 0))).
  rewrite <-(app_nil_r (x ++ _)).
  assert (Hx4 : Forall byte (x ++ replicate (4 - length x) 0)) by (apply Forall_app; split; [done|apply replicate_bytes]).
  apply prefix_payload; [by rewrite app_nil_r| |].
  - rewrite length_app, length_replicate. lia.
  - pose proof (msg_length_nonneg _ Hx4). split; [simpl; lia|]. unfold msg_length.
    pose proof (byte_default _ 2 Hx4) as [_ ?]. replace (default 0 ((x ++ _) !! 3%nat)) with 0; [unfold UBX_MSG_MAX_PAYLOAD_LENGTH; lia|].
    rewrite lookup_app_r, lookup_replicate_2 by lia. done.
Qed.

(** A header that announces too much is no beginning of a frame. *)
Lemma prefix_too_long x rest :
  length x = 4%nat → frame_prefix (UBX_SYNC_CHAR_1 :: UBX_SYNC_CHAR_2 :: x ++ rest) →
  msg_length x ≤ UBX_MSG_MAX_PAYLOAD_LENGTH.
Proof.
  intros Hx (m & t & Hm & Ef). unfold frame in Ef. destruct (ubx_checksum 0 0 m) as [a b]. injection Ef as Ef.
  pose proof (wf_length _ Hm). destruct Hm as (_ & _ & Hmax). rewrite <-msg_length_take in Hmax.
  replace (take 4 m) with x in Hmax; [done|]. rewrite <-(take_app_le m [a; b]) by lia.
  rewrite Ef, <-app_assoc, take_app_length' by lia. done.
Qed.

(** After a whole message only its checksum fits. *)
Lemma prefix_checksum m a b ck rest :
  wf_msg m → ubx_checksum 0 0 m = (a, b) → frame_prefix (UBX_SYNC_CHAR_1 :: UBX_SYNC_CHAR_2 :: m ++ ck ++ rest) →
  length ck = 1%nat → ck = [a].
Proof.
  intros Hm Ec (m' & t & Hm' & Ef) Hck. unfold frame in Ef. destruct (ubx_checksum 0 0 m') as [a' b'] eqn:Ec'.
  injection Ef as Ef. rewrite <-!app_assoc in Ef. apply wf_det in Ef as [-> Ef]; [|done..].
  rewrite Ec in Ec'. injection Ec' as <- <-. destruct ck as [|c [|]]; try done. by injection Ef as -> _.
Qed.

Lemma prefix_checksum2 m a b d :
  wf_msg m → ubx_checksum 0 0 m = (a, b) → frame_prefix (UBX_SYNC_CHAR_1 :: UBX_SYNC_CHAR_2 :: (m ++ [a]) ++ [d]) → d = b.
Proof.
  intros Hm Ec (m' & t & Hm' & Ef). unfold frame in Ef. destruct (ubx_checksum 0 0 m') as [a' b'] eqn:Ec'.
  injection Ef as Ef. rewrite <-!app_assoc in Ef. apply wf_det in Ef as [-> Ef]; [|done..].
  rewrite Ec in Ec'. injection Ec' as <- <-. by injection Ef as -> _.
Qed.

(** The bytes of a frame are bytes. *)
Lemma checksum_bytes l : ∀ a b, byte a → byte b → byte (ubx_checksum a b l).1 ∧ byte (ubx_checksum a b l).2.
Proof.
  induction l as [|d l IH]; intros a b Ha Hb; simpl; [done|].
  apply IH; unfold byte, u8; by apply Z.mod_pos_bound.
Qed.

Lemma frame_bytes m : Forall byte m → Forall byte (frame m).
Proof.
  intros Hm. unfold frame. destruct (checksum_bytes m 0 0) as [Ha Hb]; [done..|].
  destruct (ubx_checksum 0 0 m) as [a b]. simpl in *. do 2 (constructor; [by split|]).
  apply Forall_app. split; [done|]. by do 2 (constructor; [done|]).
Qed.
