(* ===== verification/UbxSpec.v ===== *)
(** The UBX receiver byte by byte: each state of ubx_msg_receive against the
    frames of [UbxFrame]. *)

From S2P Require Import Prelude Ubx UbxInv UbxFrame.

Section UbxSpec.
Context {E : Type} `{OsLaws E}.
Implicit Types (s : ubgps_s E) (h : bytes).

(** ** Buffers *)
Lemma blocks_new s p b : bufs s !! p = None → p :: blocks s ≡ₚ blocks (set_bufs (<[p:=b]> (bufs s)) s).
Proof. intros Hp. unfold blocks. simpl. by rewrite map_to_list_insert by done. Qed.

Lemma blocks_delete s p b : bufs s !! p = Some b → blocks s ≡ₚ p :: blocks (set_bufs (delete p (bufs s)) s).
Proof. intros Hp. unfold blocks. simpl. by rewrite <-(map_to_list_delete _ _ _ Hp). Qed.

Lemma blocks_update s p b b' : bufs s !! p = Some b → blocks (set_bufs (<[p:=b']> (bufs s)) s) ≡ₚ blocks s.
Proof.
  intros Hp. rewrite (blocks_delete s p b Hp). rewrite (blocks_delete _ p b') by (simpl; apply lookup_insert_eq).
  unfold blocks. simpl. by rewrite delete_insert_eq.
Qed.

Lemma returns_write_buf s p i v b (Q : unit → ubgps_s E → Prop) :
  bufs s !! p = Some b → 0 ≤ i < Z.of_nat (length b) →
  Q tt (set_bufs (<[p:=<[Z.to_nat i:=Some v]> b]> (bufs s)) s) → returns (write_buf p i v) s Q.
Proof.
  intros Hp Hi HQ. unfold returns, write_buf. rewrite Hp.
  by replace ((0 <=? i) && (i <? Z.of_nat (length b))) with true by lia.
Qed.

Lemma returns_free_buf s p b (Q : unit → ubgps_s E → Prop) :
  bufs s !! p = Some b →
  returns (_ ← os (free p); modify (λ s, set_bufs (delete p (bufs s)) s)) s Q → returns (free_buf p) s Q.
Proof. intros Hp. unfold returns, free_buf. by rewrite Hp. Qed.

Lemma mapM_Some_fmap (m : bytes) : mapM id (Some <$> m) = Some m.
Proof. induction m as [|d m IH]; [done|]. rewrite fmap_cons. simpl. by rewrite IH. Qed.

Lemma returns_read_buf s p n m junk (Q : bytes → ubgps_s E → Prop) :
  bufs s !! p = Some ((Some <$> m) ++ junk) → n = Z.of_nat (length m) → Q m s → returns (read_buf p n) s Q.
Proof.
  intros Hp -> HQ. unfold returns, read_buf. rewrite Hp, Nat2Z.id, length_app, length_fmap.
  rewrite (proj2 (Z.leb_le _ _)) by lia. rewrite take_app_length' by (by rewrite length_fmap).
  by rewrite mapM_Some_fmap.
Qed.

Lemma returns_read_msg s p m (Q : bytes → ubgps_s E → Prop) :
  bufs s !! p = Some (Some <$> m) → wf_msg m → Q m s → returns (read_msg p) s Q.
Proof.
  intros Hp Hm HQ. pose proof (wf_length _ Hm) as L. unfold read_msg. apply returns_bind.
  apply (returns_read_buf s p _ (take 4 m) (Some <$> drop 4 m)).
  - by rewrite <-fmap_app, take_drop.
  - rewrite length_take. unfold SIZEOF_UBX_MSG. lia.
  - rewrite msg_length_take. apply (returns_read_buf s p _ m []); [by rewrite app_nil_r| |done].
    destruct Hm as (_ & Hl & _). lia.
Qed.

(** ** Back to waiting *)
(** Changing the receiver. *)
Lemma live_r s r' :
  gps_live s → length (header r') = 4%nat → callback r' = callback (ubx_receiver s) →
  (state_value UBX_STATE_MSG_PAYLOAD ≤ state_value (state r') → is_Some (bufs s !! msg r')) →
  gps_live (set_receiver r' s).
Proof. intros [H1 H2 H3 H4 H5] Hh Hc Hp. split; simpl; [done|done|done|by rewrite Hc|done]. Qed.

Lemma live_os s x : gps_live s → owned x (blocks s) → gps_live (set_os x s).
Proof. intros [H1 H2 H3 H4 H5] Hx. by split. Qed.

(** A new message buffer. *)
Lemma live_buf s p x b :
  gps_live s → owned x (p :: blocks s) → bufs s !! p = None → gps_live (set_bufs (<[p:=b]> (bufs s)) (set_os x s)).
Proof.
  intros [H1 H2 H3 H4 H5] Hx Hp. split; try done; simpl.
  - eapply owned_perm; [|exact Hx]. by apply (blocks_new s).
  - intros Hst. apply lookup_insert_is_Some. destruct (decide (p = msg (ubx_receiver s))); auto.
Qed.

Lemma live_wait s :
  gps_live s → gps_ok (set_receiver (set_checksum 0 0 (set_state UBX_STATE_MSG_WAIT (ubx_receiver s))) s) [].
Proof. intros [H1 H2 H3 H4 H5]. do 2 (split; try done). Qed.

Lemma reset_state_ok s : gps_live s → returns ubx_reset_state s (λ _ s', gps_ok s' [] ∧ quiet s s').
Proof.
  intros Hok. pose proof Hok as [H1 H2 H3 H4 H5]. unfold ubx_reset_state. apply returns_bind, returns_gets.
  destruct (_ <=? _) eqn:Hst.
  - apply returns_bind, returns_bind, returns_gets.
    destruct (H3 ltac:(lia)) as [b Hb]. apply (returns_free_buf _ _ b _ Hb).
    apply returns_bind. eapply returns_os.
    { eapply free_ok, owned_perm; [|exact H1]. by apply (blocks_delete _ _ b). }
    intros [] x [Hs Hx]. apply returns_modify, returns_bind, returns_modify, returns_modify. simpl. split; [|quiet].
    do 2 (split; try done).
  - apply returns_bind, returns_ret, returns_bind, returns_modify, returns_modify. split; [|done].
    exact (live_wait s Hok).
Qed.

Lemma stop_receive_ok s : gps_live s → returns ubx_stop_receive_timer s (λ _ s', gps_live s' ∧ quiet s s').
Proof.
  intros Hok. unfold ubx_stop_receive_timer. apply returns_bind, returns_gets. destruct (_ <=? _); [|by apply returns_ret].
  apply returns_bind. eapply returns_mono; [by apply remove_timer_ok|]. intros [] s1 [Hq _ _ Hl].
  apply returns_modify. split; [|done]. apply gps_live_recv; auto; done.
Qed.

Lemma stop_send_ok s h :
  gps_ok s h → returns ubx_stop_send_timer s (λ _ s', gps_ok s' h ∧ quiet s s' ∧
    state (ubx_receiver s') = state (ubx_receiver s)).
Proof.
  intros Hok. unfold ubx_stop_send_timer. apply returns_bind, returns_gets. destruct (_ <=? _).
  - apply returns_bind. eapply returns_mono; [apply remove_timer_ok, Hok|]. intros [] s1 Hto.
    apply returns_modify. split_and!; [|by apply Hto|by rewrite <-(to_receiver _ _ Hto)].
    apply gps_ok_recv; [done|by eapply timers_only_ok].
  - by apply returns_ret.
Qed.

(** ubx_reset brings the receiver back to waiting from any point. *)
Lemma ubx_reset_ok s h :
  gps_ok s h → returns ubx_reset s (λ r s', r = OK ∧ gps_ok s' [] ∧ quiet s s').
Proof.
  intros Hok. unfold ubx_reset. apply returns_bind. eapply returns_mono; [by apply stop_send_ok|].
  intros [] s1 (H1 & Hq1 & _). apply returns_bind. eapply returns_mono; [apply stop_receive_ok, H1|].
  intros [] s2 (H2 & Hq2). apply returns_bind. eapply returns_mono; [by apply reset_state_ok|].
  intros [] s3 (H3 & Hq3). apply returns_ret. split_and!; [done|done|quiet].
Qed.

Lemma gps_ok_nil s : gps_ok s [] → state (ubx_receiver s) = UBX_STATE_MSG_WAIT.
Proof. intros [_ _ Hp]. unfold progress in Hp. destruct (state (ubx_receiver s)); naive_solver. Qed.

Lemma gps_ok_wait_nil s h : gps_ok s h → state (ubx_receiver s) = UBX_STATE_MSG_WAIT → h = [].
Proof. intros [_ _ Hp] Hst. unfold progress in Hp. rewrite Hst in Hp. by destruct Hp. Qed.

Section Receive.
Context (ubx_timeout_fn receiver : Z) (call_ubx : Z → Z → bytes → bool → M (ubgps_s E) Z)
  (call_user : Z → gps_event → Z → M (ubgps_s E) unit).
Hypothesis Hclient : client_ok call_ubx call_user.
Hypothesis Hfn : ubx_timeout_fn ≠ NULL.

(** Memory for a message is always available. *)
Definition available : Prop := ∀ e X n, owned e X → 0 ≤ n ≤ SIZEOF_UBX_MSG + UBX_MSG_MAX_PAYLOAD_LENGTH →
  returns (malloc n) e (λ p _, p ≠ NULL).

(** A byte taken as part of the frame [l]: the frame goes on, unless there is
    no memory for the message. *)
Definition taken s l (v : leave) (s' : ubgps_s E) : Prop :=
  quiet s s' ∧ ((v = Return OK ∧ gps_ok s' l) ∨ (v = Break false ∧ ¬ available ∧ gps_live s')).

(** A byte that does not fit. *)
Definition rejected s (v : leave) (s' : ubgps_s E) : Prop := quiet s s' ∧ v = Break true ∧ gps_live s'.

(** ** One state at a time; the checksum is updated already *)
Lemma receive_wait_ok s d :
  gps_ok s [] → state (ubx_receiver s) = UBX_STATE_MSG_WAIT → byte d →
  returns (ubx_receive_wait ubx_timeout_fn receiver call_user d) s (λ v s', quiet s s' ∧
    if d =? UBX_SYNC_CHAR_1 then v = Return OK ∧ gps_ok s' [UBX_SYNC_CHAR_1]
    else v = Return ERROR ∧ s' = s).
Proof.
  intros Hok Hst Hd. pose proof Hok as [[H1 H2 H3 H4 H5] H6 H7]. unfold ubx_receive_wait.
  destruct (d =? UBX_SYNC_CHAR_1); [|by apply returns_ret].
  apply returns_bind, returns_modify, returns_bind.
  eapply returns_mono; [apply (set_timer_ok call_ubx call_user Hclient UBX_MSG_RECV_TIMEOUT ubx_timeout_fn receiver _ [UBX_SYNC_CHAR_1])|].
  - split; [by split|by repeat constructor|]. unfold progress in *. simpl. rewrite Hst in H7. naive_solver.
  - done.
  - done.
  - intros t s1 (Hok1 & Hq & _). apply returns_bind, returns_modify, returns_ret. split_and!; try done. by apply gps_ok_recv.
Qed.

Lemma receive_sync_ok s d :
  gps_ok s [UBX_SYNC_CHAR_1] → state (ubx_receiver s) = UBX_STATE_MSG_SYNC → byte d →
  returns (ubx_receive_sync d) s (λ v s',
    if d =? UBX_SYNC_CHAR_2 then taken s [UBX_SYNC_CHAR_1; d] v s' else rejected s v s').
Proof.
  intros Hok Hst Hd. pose proof Hok as [[H1 H2 H3 H4 H5] H6 H7]. unfold ubx_receive_sync.
  destruct (Z.eqb_spec d UBX_SYNC_CHAR_2) as [->|]; cbn [negb]; [|by apply returns_ret].
  apply returns_bind, returns_modify, returns_bind, returns_modify, returns_ret. split; [done|left; split; [done|]].
  split; [by split|by repeat constructor|]. unfold progress in *. simpl. rewrite Hst in H7.
  exists []. simpl. destruct H7 as (_ & -> & ->). split_and!; try done. lia.
Qed.

Lemma header_snoc (hd x : bytes) d :
  (length x < length hd)%nat → take (length x) hd = x → take (S (length x)) (<[length x:=d]> hd) = x ++ [d].
Proof.
  intros Hl Hx. erewrite take_S_r by (by rewrite list_lookup_insert_eq). by rewrite take_insert_ge by lia; rewrite Hx.
Qed.

(** The receiver with the checksum updated by [d]. *)
Definition summed d s : ubgps_s E :=
  let r := ubx_receiver s in
  set_receiver (set_checksum (u8 (ck_a r + d)) (u8 (ck_b r + u8 (ck_a r + d))) r) s.

Lemma summed_live d s : gps_live s → gps_live (summed d s).
Proof. intros [H1 H2 H3 H4 H5]. by split. Qed.

(** The buffer of a new message holds its header. *)
Lemma store_header {A} s p x n (k : M (ubgps_s E) A) (Q : A → ubgps_s E → Prop) :
  0 ≤ n → length x = 4%nat →
  returns k (set_bufs (<[p:=(Some <$> x) ++ replicate (Z.to_nat n) None]> (bufs s)) s) Q →
  returns (_ ← new_buf p (SIZEOF_UBX_MSG + n); _ ← write_buf p 0 (class_id x); _ ← write_buf p 1 (msg_id x);
           _ ← write_buf p 2 (default 0 (x !! 2%nat)); _ ← write_buf p 3 (default 0 (x !! 3%nat)); k) s Q.
Proof.
  intros Hn Hx HQ. unfold SIZEOF_UBX_MSG. apply returns_bind, returns_modify.
  replace (Z.to_nat (4 + n)) with (4 + Z.to_nat n)%nat by lia.
  destruct x as [|a [|b [|c [|d [|]]]]]; try done.
  do 4 (apply returns_bind; eapply returns_write_buf; [simpl; apply lookup_insert_eq|simpl; rewrite length_replicate; lia|]).
  simpl in HQ |- *. unfold set_bufs in *. simpl in *. by rewrite !insert_insert_eq.
Qed.

Lemma owned_fresh (e : E) p s : owned e (p :: blocks s) → bufs s !! p = None.
Proof.
  intros Ho. apply owned_nodup in Ho as [_ [Hp _]%NoDup_cons]%NoDup_cons. apply eq_None_not_Some. intros [b Hb].
  apply Hp. unfold blocks. apply elem_of_app. left. apply list_elem_of_fmap. exists (p, b).
  split; [done|]. by apply elem_of_map_to_list.
Qed.

Lemma malloc_msg s n : gps_live s → 0 ≤ n ≤ UBX_MSG_MAX_PAYLOAD_LENGTH →
  returns (os (malloc (SIZEOF_UBX_MSG + n))) s (λ p s', ∃ x, s' = set_os x s ∧ quiet s s' ∧
    if p =? NULL then ¬ available ∧ owned x (blocks s) else owned x (p :: blocks s) ∧ bufs s !! p = None).
Proof.
  intros Hl Hn. destruct (returns_elim _ _ _ (malloc_ok _ _ (SIZEOF_UBX_MSG + n) (live_owned _ Hl) ltac:(unfold SIZEOF_UBX_MSG, UBX_MSG_MAX_PAYLOAD_LENGTH in *; lia))) as (p & x & E1 & Hs & Ho).
  apply returns_zoom. eapply returns_intro; [exact E1|]. exists x. split_and!; [done|quiet|].
  destruct (Z.eqb_spec p NULL) as [->|]; [|split; [done|by eapply owned_fresh]]. split; [|done].
  intros Hav. specialize (Hav _ _ (SIZEOF_UBX_MSG + n) (live_owned _ Hl) ltac:(unfold SIZEOF_UBX_MSG; lia)).
  unfold returns in Hav. by rewrite E1 in Hav.
Qed.

(** A header that is complete in [s]: the message goes on with its payload,
    or with its checksum when there is none. *)
Lemma receive_alloc_ok s x :
  gps_live s → state (ubx_receiver s) = UBX_STATE_MSG_HEADER → header (ubx_receiver s) = x →
  Forall byte x → length x = 4%nat → (ck_a (ubx_receiver s), ck_b (ubx_receiver s)) = ubx_checksum 0 0 x →
  let h := UBX_SYNC_CHAR_1 :: UBX_SYNC_CHAR_2 :: x in
  returns ubx_receive_alloc s (λ v s',
    (frame_prefix h ∧ taken s h v s') ∨ (¬ frame_prefix h ∧ rejected s v s')).
Proof.
  intros Hl Hst Hh Hbx Hx Hck h. unfold ubx_receive_alloc. apply returns_bind, returns_gets. rewrite Hh.
  assert (Hbh : Forall byte h) by (by repeat (constructor; [by split|])).
  destruct (UBX_MSG_MAX_PAYLOAD_LENGTH <? msg_length x) eqn:Hmax.
  { apply returns_ret. right. split; [|done]. subst h. rewrite <-(app_nil_r x). intros Hpre.
    apply prefix_too_long in Hpre; [lia|done]. }
  pose proof (msg_length_nonneg _ Hbx) as Hn. apply returns_bind.
  eapply returns_mono; [apply (malloc_msg s (msg_length x) Hl); lia|].
  intros p s1 (y & -> & Hq & Ho). apply returns_bind, returns_modify. unfold nonnull.
  assert (Hpre : frame_prefix h).
  { subst h. rewrite <-(app_nil_r x). apply prefix_payload; [by rewrite app_nil_r|done|simpl; lia]. }
  destruct (Z.eqb_spec p NULL) as [->|Hpn]; cbn [negb].
  { destruct Ho as [Hna Ho]. apply returns_ret. left. split; [done|]. split; [done|]. right. split_and!; [done|done|].
    apply (live_r (set_os y s)); simpl; [by apply live_os|by destruct Hl|done|]. rewrite Hst. simpl. lia. }
  destruct Ho as [Ho Hfr]. apply store_header; [done|done|]. cbn [bufs set_os set_receiver].
  assert (Hl4 := live_buf s p y ((Some <$> x) ++ replicate (Z.to_nat (msg_length x)) None) Hl Ho Hfr).
  set (s4 := set_bufs _ _) in Hl4.
  assert (Hb4 : bufs s4 !! p = Some ((Some <$> x) ++ replicate (Z.to_nat (msg_length x)) None)) by apply lookup_insert_eq.
  assert (Hlive : ∀ r', header r' = header (ubx_receiver s) → callback r' = callback (ubx_receiver s) → msg r' = p →
    gps_live (set_receiver r' s4)).
  { intros r' E1 E2 E3. apply (live_r s4); [done|rewrite E1; by destruct Hl|done|]. intros _. rewrite E3. by eexists. }
  destruct (0 <? msg_length x) eqn:Hlen; apply returns_bind.
  - apply returns_bind, returns_modify, returns_modify, returns_ret. left. split; [done|]. split; [done|left].
    split; [done|]. split; [by apply Hlive|done|]. unfold progress. simpl. exists x, []. rewrite app_nil_r. simpl.
    split_and!; [done|done|done|lia|lia|by rewrite Nat.sub_0_r|done].
  - apply returns_modify, returns_ret. left. split; [done|]. split; [done|left]. split; [done|].
    split; [by apply Hlive|done|]. unfold progress. simpl. exists x. replace (msg_length x) with 0 in Hb4 by lia.
    rewrite app_nil_r in Hb4. split_and!; [done| |done|done]. split_and!; [done|unfold SIZEOF_UBX_MSG; lia|lia].
Qed.

Lemma receive_header_ok s h d :
  gps_ok s h → state (ubx_receiver s) = UBX_STATE_MSG_HEADER → byte d →
  returns (ubx_receive_header d) (summed d s) (λ v s',
    (frame_prefix (h ++ [d]) ∧ taken s (h ++ [d]) v s') ∨ (¬ frame_prefix (h ++ [d]) ∧ rejected s v s')).
Proof.
  intros [Hl Hb Hp] Hst Hd. unfold progress in Hp. rewrite Hst in Hp. destruct Hp as (x & -> & Hx & Ho & Hh & Hck).
  pose proof (live_header _ Hl) as H4.
  assert (Hbx : Forall byte (x ++ [d])).
  { rewrite Forall_app, Forall_singleton. split; [|done]. by apply Forall_cons in Hb as [_ [_ Hb]%Forall_cons]. }
  pose proof (header_snoc (header (ubx_receiver s)) x d ltac:(lia) Hh) as Hsn.
  pose proof (checksum_snoc 0 0 x d _ _ Hck) as Hck'.
  unfold ubx_receive_header. apply returns_bind, returns_gets, returns_bind, returns_gets, returns_bind, returns_assert.
  { simpl. rewrite Ho, H4. change (Z.of_nat 4) with 4. lia. }
  apply returns_bind, returns_modify, returns_bind, returns_modify. simpl. rewrite Ho, Nat2Z.id.
  set (s2 := set_receiver _ _). change ((UBX_SYNC_CHAR_1 :: UBX_SYNC_CHAR_2 :: x) ++ [d]) with (UBX_SYNC_CHAR_1 :: UBX_SYNC_CHAR_2 :: x ++ [d]).
  assert (Hl2 : gps_live s2).
  { apply (live_r s); simpl; [done|by rewrite length_insert|done|]. rewrite Hst. simpl. lia. }
  destruct (_ <? _) eqn:Hoff; unfold SIZEOF_UBX_MSG in Hoff.
  - apply returns_ret. left. assert (Hx' : (length (x ++ [d]) < 4)%nat) by (rewrite length_app; simpl; lia).
    split; [by apply prefix_header|]. split; [done|left; split; [done|]].
    split; [done|by repeat (constructor; [by split|])|]. unfold progress. simpl. rewrite Hst. exists (x ++ [d]).
    rewrite length_app. simpl. split_and!; [done|lia|lia|by rewrite Nat.add_1_r|done].
  - eapply returns_mono; [apply (receive_alloc_ok s2 (x ++ [d])); try done|].
    + simpl. rewrite take_ge in Hsn by (rewrite length_insert; lia). done.
    + rewrite length_app. simpl. lia.
    + intros v s' [[? Ht]|[? Hr]]; [left|right]; (split; [done|]); [exact Ht|exact Hr].
Qed.

Lemma receive_payload_ok s h d :
  gps_ok s h → state (ubx_receiver s) = UBX_STATE_MSG_PAYLOAD → byte d →
  returns (ubx_receive_payload d) (summed d s) (λ v s', frame_prefix (h ++ [d]) ∧ taken s (h ++ [d]) v s').
Proof.
  intros [Hl Hb Hp] Hst Hd. unfold progress in Hp. rewrite Hst in Hp.
  destruct Hp as (x & y & -> & Hx & Ho & Hy & Hbuf & Hck).
  pose proof (checksum_snoc 0 0 _ d _ _ Hck) as Hck'. rewrite <-app_assoc in Hck'.
  assert (Hbx : Forall byte (x ++ y ++ [d])).
  { rewrite app_assoc, Forall_app, Forall_singleton. split; [|done]. by apply Forall_cons in Hb as [_ [_ Hb]%Forall_cons]. }
  change ((UBX_SYNC_CHAR_1 :: UBX_SYNC_CHAR_2 :: x ++ y) ++ [d]) with (UBX_SYNC_CHAR_1 :: UBX_SYNC_CHAR_2 :: (x ++ y) ++ [d]).
  rewrite <-app_assoc. set (y' := y ++ [d]) in *.
  assert (Hy' : length y' = S (length y)) by (unfold y'; rewrite length_app; simpl; lia).
  set (p := msg (ubx_receiver s)) in *.
  set (b' := (Some <$> x ++ y') ++ replicate (Z.to_nat (msg_length x) - length y') None).
  assert (Hins : <[Z.to_nat (4 + Z.of_nat (length y)):=Some d]>
    ((Some <$> x ++ y) ++ replicate (Z.to_nat (msg_length x) - length y) None) = b').
  { unfold b', y'. rewrite insert_app_r_alt by (rewrite length_fmap, length_app; lia).
    rewrite length_fmap, length_app, Hx. replace (Z.to_nat (4 + Z.of_nat (length y)) - (4 + length y))%nat with O by lia.
    destruct (Z.to_nat (msg_length x) - length y)%nat as [|k] eqn:Hk; [lia|].
    rewrite app_assoc, (fmap_app Some (x ++ y)), <-(app_assoc (Some <$> x ++ y)). simpl. do 3 f_equal.
    rewrite length_app. simpl. lia. }
  unfold ubx_receive_payload. apply returns_bind, returns_gets, returns_bind, returns_gets, returns_bind.
  simpl. rewrite Ho. unfold SIZEOF_UBX_MSG. eapply returns_write_buf; [exact Hbuf| |].
  { rewrite length_app, length_fmap, length_app, length_replicate. lia. }
  rewrite Hins. apply returns_bind, returns_modify, returns_bind.
  apply (returns_read_buf _ _ _ x ((Some <$> y') ++ replicate (Z.to_nat (msg_length x) - length y') None)).
  { simpl. rewrite lookup_insert_eq. unfold b'. by rewrite fmap_app, <-app_assoc. }
  { by rewrite Hx. }
  assert (Hlive : ∀ r', header r' = header (ubx_receiver s) → callback r' = callback (ubx_receiver s) → msg r' = p →
    gps_live (set_receiver r' (set_bufs (<[p:=b']> (bufs s)) s))).
  { intros r' E1 E2 E3. destruct Hl as [H1 H2 H3 H4 H5]. split; simpl; rewrite ?E1, ?E2, ?E3; try done.
    - eapply owned_perm; [|exact H1]. symmetry. by eapply blocks_update.
    - intros _. by rewrite lookup_insert_eq; eexists. }
  assert (Hpre : frame_prefix (UBX_SYNC_CHAR_1 :: UBX_SYNC_CHAR_2 :: x ++ y')).
  { apply prefix_payload; [done|done|lia]. }
  assert (Hbh : Forall byte (UBX_SYNC_CHAR_1 :: UBX_SYNC_CHAR_2 :: x ++ y')) by (by repeat (constructor; [by split|])).
  destruct (_ <=? _) eqn:Hend; apply returns_bind.
  - apply returns_modify, returns_ret. split; [done|]. split; [done|left]. split; [done|].
    split; [by apply Hlive|done|]. unfold progress. simpl. exists (x ++ y').
    assert (Z.to_nat (msg_length x) - length y' = 0)%nat as E0 by lia.
    split_and!; [done| |rewrite lookup_insert_eq; unfold b'; by rewrite E0, app_nil_r|done].
    unfold wf_msg. rewrite msg_length_app, length_app by done. split_and!; [done|unfold SIZEOF_UBX_MSG; lia|lia].
  - apply returns_ret, returns_ret. split; [done|]. split; [done|left]. split; [done|].
    split; [by apply Hlive|done|]. unfold progress. simpl. rewrite Hst. exists x, y'.
    split_and!; [done|done|lia|lia|lia|by rewrite lookup_insert_eq|done].
Qed.

Lemma receive_checksum1_ok s h d :
  gps_ok s h → state (ubx_receiver s) = UBX_STATE_MSG_CHECKSUM1 → byte d →
  returns (ubx_receive_checksum1 d) s (λ v s',
    (frame_prefix (h ++ [d]) ∧ taken s (h ++ [d]) v s') ∨ (¬ frame_prefix (h ++ [d]) ∧ rejected s v s')).
Proof.
  intros [Hl Hb Hp] Hst Hd. unfold progress in Hp. rewrite Hst in Hp. destruct Hp as (m & -> & Hm & Hbuf & Hck).
  unfold ubx_receive_checksum1. apply returns_bind, returns_gets. simpl.
  destruct (Z.eqb_spec (ck_a (ubx_receiver s)) d) as [Ed|Hne]; cbn [negb].
  - apply returns_bind, returns_modify, returns_ret. left. split.
    + exists m, [ck_b (ubx_receiver s)]. split; [done|]. rewrite (frame_alt _ _ _ (eq_sym Hck)), Ed. simpl.
      by rewrite <-app_assoc.
    + split; [done|left; split; [done|]]. split.
      * apply live_r; [done|by destruct Hl|done|]. intros _. simpl. by eexists.
      * change (Forall byte ((UBX_SYNC_CHAR_1 :: UBX_SYNC_CHAR_2 :: m) ++ [d])). by rewrite Forall_app, Forall_singleton.
      * unfold progress. simpl. exists m. split_and!; [by rewrite Ed|done..].
  - apply returns_ret. right. split; [|done]. intros Hpre. apply Hne.
    assert ([d] = [ck_a (ubx_receiver s)]) as [=]; [|done].
    by eapply (prefix_checksum m _ _ [d] []).
Qed.

Lemma receive_checksum2_ok s h d :
  gps_ok s h → state (ubx_receiver s) = UBX_STATE_MSG_CHECKSUM2 → byte d →
  returns (ubx_receive_checksum2 call_ubx d) s (λ v s',
    (∃ m, wf_msg m ∧ h ++ [d] = frame m ∧ v = Break false ∧ gps_live s' ∧ delivers m s s') ∨
    (¬ frame_prefix (h ++ [d]) ∧ rejected s v s')).
Proof.
  intros Hok Hst Hd. pose proof Hok as [Hl Hb Hp]. unfold progress in Hp. rewrite Hst in Hp.
  destruct Hp as (m & Eh & Hm & Hbuf & Hck). unfold ubx_receive_checksum2. apply returns_bind, returns_gets.
  destruct (Z.eqb_spec (ck_b (ubx_receiver s)) d) as [Ed|Hne]; cbn [negb].
  - apply returns_bind, returns_gets, returns_bind. apply (returns_read_msg _ _ m); [done|done|].
    apply returns_bind, returns_gets, returns_bind, returns_gets, returns_bind.
    assert (Hgo : ∀ s1, gps_ok s1 h → quiet s s1 →
      returns (cb ← recv callback; _ ← assert (nonnull cb); pr ← recv priv; _ ← call_ubx cb pr m false; mret (Break false)) s1
        (λ v s', (∃ m, wf_msg m ∧ h ++ [d] = frame m ∧ v = Break false ∧ gps_live s' ∧
           delivers m s s') ∨ (¬ frame_prefix (h ++ [d]) ∧ rejected s v s'))).
    { intros s1 Hok1 Hq1. pose proof (live_callback _ (ok_live _ _ Hok1)) as Hcb.
      apply returns_bind, returns_gets, returns_bind, returns_assert; [unfold nonnull; lia|].
      apply returns_bind, returns_gets, returns_bind. eapply returns_mono; [by apply (ubx_ok _ _ Hclient)|].
      intros _ s2 [Hl2 Hs2]. apply returns_ret. left. exists m. split_and!; [done| |done| |].
      - rewrite Eh, (frame_alt _ _ _ (eq_sym Hck)), Ed. simpl. by rewrite <-app_assoc.
      - by destruct Hl2 as [[]|[]].
      - quiet. }
    destruct (_ && _); [|by apply returns_ret, Hgo].
    eapply returns_mono; [by apply stop_send_ok|]. intros [] s1 (? & ? & _). by apply Hgo.
  - apply returns_ret. right. split; [|done]. intros Hpre. apply Hne. symmetry. rewrite Eh in Hpre.
    by eapply (prefix_checksum2 m).
Qed.

(** ** A byte *)
(** What ubx_msg_receive does with the byte [d] after the bytes [h] of a frame:
    the frame is complete and its message delivered, or it goes on, or the byte
    does not fit, and starts a new frame or is left to the NMEA receiver. *)
Definition received s h d (r : Z) (s' : ubgps_s E) : Prop :=
  (∃ m, wf_msg m ∧ h ++ [d] = frame m ∧ r = OK ∧ gps_ok s' [] ∧ delivers m s s') ∨
  (frame_prefix (h ++ [d]) ∧ r = OK ∧ quiet s s' ∧ (gps_ok s' (h ++ [d]) ∨ (¬ available ∧ gps_ok s' []))) ∨
  (¬ frame_prefix (h ++ [d]) ∧ quiet s s' ∧
     if d =? UBX_SYNC_CHAR_1 then r = OK ∧ gps_ok s' [UBX_SYNC_CHAR_1] else r = ERROR ∧ gps_ok s' []).

(** The switch in every state. *)
Lemma receive_switch_ok s h d :
  gps_ok s h → state (ubx_receiver s) ≠ UBX_STATE_MSG_WAIT → byte d →
  returns (ubx_receive_switch ubx_timeout_fn receiver call_ubx call_user d) s (λ v s',
    (∃ m, wf_msg m ∧ h ++ [d] = frame m ∧ v = Break false ∧ gps_live s' ∧ delivers m s s') ∨
    (frame_prefix (h ++ [d]) ∧ taken s (h ++ [d]) v s') ∨
    (¬ frame_prefix (h ++ [d]) ∧ rejected s v s')).
Proof.
  intros Hok Hst Hd. unfold ubx_receive_switch. apply returns_bind, returns_gets.
  destruct (state (ubx_receiver s)) eqn:Est; [done|..]; simpl.
  - apply returns_bind, returns_ret. assert (h = [UBX_SYNC_CHAR_1]) as ->.
    { pose proof (ok_progress _ _ Hok) as Hp. unfold progress in Hp. rewrite Est in Hp. naive_solver. }
    eapply returns_mono; [by apply receive_sync_ok|]. intros v s' Hv. right.
    destruct (Z.eqb_spec d UBX_SYNC_CHAR_2) as [->|Hne]; [left|right]; (split; [|done]).
    + by apply (prefix_header []); [|simpl; lia].
    + intros [Hpre|[x [= ->]]]%prefix_sync; [|done]. by apply prefix_cons_inv_2, prefix_cons_inv_1 in Hpre.
  - apply returns_bind, returns_bind, returns_gets, returns_bind, returns_gets, returns_modify.
    eapply returns_mono; [by apply receive_header_ok|]. intros v s' Hv. by right.
  - apply returns_bind, returns_bind, returns_gets, returns_bind, returns_gets, returns_modify.
    eapply returns_mono; [by apply receive_payload_ok|]. intros v s' Hv. right. by left.
  - apply returns_bind, returns_ret. eapply returns_mono; [by apply receive_checksum1_ok|]. intros v s' Hv. by right.
  - apply returns_bind, returns_ret. eapply returns_mono; [by apply receive_checksum2_ok|]. intros v s' [?|?]; auto.
Qed.

(** Leaving the switch by break. *)
Lemma receive_break_ok s (Q : unit → ubgps_s E → Prop) :
  gps_live s → (∀ s', gps_ok s' [] → quiet s s' → Q tt s') →
  returns (_ ← ubx_stop_receive_timer; ubx_reset_state) s Q.
Proof.
  intros Hl HQ. apply returns_bind. eapply returns_mono; [by apply stop_receive_ok|]. intros [] s1 [Hl1 Hq1].
  eapply returns_mono; [by apply reset_state_ok|]. intros [] s2 [Hok2 Hq2]. apply HQ; [done|quiet].
Qed.
End Receive.
End UbxSpec.
