(* ===== verification/UbxStream.v ===== *)
(** Streams of bytes from the GPS: the receiver on whole frames and on
    arbitrary input, and the NMEA line buffer. *)

From S2P Require Import Prelude Ubx UbxInv UbxFrame UbxSpec.

(** [explained l ms h]: the input [l] consists of the frames of the messages
    [ms] in order, bytes in between that belong to none of them, and at the
    end the beginning [h] of a frame. *)
Inductive explained : bytes → list bytes → bytes → Prop :=
| ex_end h : explained h [] h
| ex_skip d l ms h : explained l ms h → explained (d :: l) ms h
| ex_frame m l ms h : wf_msg m → explained l ms h → explained (frame m ++ l) (m :: ms) h.

Lemma explained_skip k l ms h : explained l ms h → explained (k ++ l) ms h.
Proof. intros Hl. induction k as [|d k IH]; [done|]. by apply ex_skip. Qed.

(** The NMEA line buffer holds [text]; there is room for a character and the
    terminating zero. *)
Definition nmea_ok (n : nmea_data_s) (text : bytes) : Prop :=
  ∃ junk, line n = Some ((Some <$> text) ++ junk) ∧ current_len n = Z.of_nat (length text) ∧
    line_size n = Z.of_nat (length text + length junk) ∧ (2 ≤ length junk)%nat ∧ line_size n < 2 ^ 32.

(** The line after one more character: a line end or a full buffer sends it
    off; a lone zero is kept. *)
Definition nmea_next (size : Z) (text : bytes) (d : Z) : bytes :=
  if (d =? 13) || (d =? 10) then (if bool_decide (text = [0]) then text else [])
  else if Z.of_nat (length text) + 1 =? size - 1 then [] else text ++ [d].

Section UbxStream.
Context {E : Type} `{OsLaws E}.
Context (ubx_timeout_fn receiver : Z) (call_ubx : Z → Z → bytes → bool → M (ubgps_s E) Z)
  (call_user : Z → gps_event → Z → M (ubgps_s E) unit).
Hypothesis Hclient : client_ok call_ubx call_user.
Hypothesis Hfn : ubx_timeout_fn ≠ NULL.
Implicit Types (s : ubgps_s E) (h : bytes).

Local Abbreviation receive := (ubx_msg_receive ubx_timeout_fn receiver call_ubx call_user).
Local Abbreviation round := (ubx_receive_round ubx_timeout_fn receiver call_ubx call_user).
Local Abbreviation dispatch := (ubgps_dispatch ubx_timeout_fn receiver call_ubx call_user).

(** * One byte *)

(** Waiting for a frame. *)
Lemma round_wait s d :
  gps_ok s [] → byte d → returns (round d tt) s (λ r s', quiet s s' ∧
    if d =? UBX_SYNC_CHAR_1 then r = inr OK ∧ gps_ok s' [UBX_SYNC_CHAR_1] else r = inr ERROR ∧ gps_ok s' []).
Proof.
  intros Hok Hd. pose proof (gps_ok_nil s Hok) as Hst. unfold ubx_receive_round. apply returns_bind.
  unfold ubx_receive_switch. apply returns_bind, returns_gets. rewrite Hst. simpl. apply returns_bind, returns_ret.
  eapply returns_mono; [by apply (receive_wait_ok ubx_timeout_fn receiver call_ubx call_user Hclient Hfn s d)|].
  intros v s' [Hq Hv]. destruct (d =? UBX_SYNC_CHAR_1); destruct Hv as [-> Hv]; apply returns_ret; [done|by subst].
Qed.

Lemma not_prefix_single d : d ≠ UBX_SYNC_CHAR_1 → ¬ frame_prefix [d].
Proof. intros Hd [Hpre|[x [=]]]%prefix_sync. by apply prefix_cons_inv_1 in Hpre. Qed.

Lemma receive_byte s h d :
  gps_ok s h → byte d → returns (receive d) s (received s h d).
Proof.
  intros Hok Hd. unfold ubx_msg_receive.
  destruct (decide (state (ubx_receiver s) = UBX_STATE_MSG_WAIT)) as [Hw|Hw].
  { pose proof (gps_ok_wait_nil s h Hok Hw) as ->. rewrite loop_S. apply returns_bind.
    eapply returns_mono; [by apply round_wait|]. intros r s' [Hq Hr].
    destruct (Z.eqb_spec d UBX_SYNC_CHAR_1) as [->|Hne]; destruct Hr as [-> Hr]; apply returns_ret; right.
    - left. split_and!; [|done|done|by left]. destruct (prefix_header [] ltac:(done) ltac:(simpl; lia)) as (m & t & Hm & Ef).
      by exists m, (UBX_SYNC_CHAR_2 :: t).
    - right. split_and!; [by apply not_prefix_single|done|]. by rewrite (proj2 (Z.eqb_neq _ _)) by done. }
  rewrite loop_S. apply returns_bind. unfold ubx_receive_round at 1. apply returns_bind.
  eapply returns_mono; [by apply (receive_switch_ok ubx_timeout_fn receiver call_ubx call_user Hclient s h d)|].
  intros v s1 [(m & Hm & Ef & -> & Hl & Hs)|[[Hpre [Hq [[-> Hok1]|(-> & Hna & Hl)]]]|[Hnp (Hq & -> & Hl)]]].
  - apply returns_bind. eapply returns_mono; [by apply stop_receive_ok|]. intros [] s2 [Hl2 Hq2].
    apply returns_bind. eapply returns_mono; [by apply reset_state_ok|]. intros [] s3 [Hok3 Hq3].
    do 2 apply returns_ret. left. exists m. split_and!; [done|done|done|done|quiet].
  - do 2 apply returns_ret. right. left. split_and!; [done|done|done|by left].
  - apply returns_bind. eapply returns_mono; [by apply stop_receive_ok|]. intros [] s2 [Hl2 Hq2].
    apply returns_bind. eapply returns_mono; [by apply reset_state_ok|]. intros [] s3 [Hok3 Hq3].
    do 2 apply returns_ret. right. left. split_and!; [done|done|quiet|by right].
  - apply returns_bind. eapply returns_mono; [by apply stop_receive_ok|]. intros [] s2 [Hl2 Hq2].
    apply returns_bind. eapply returns_mono; [by apply reset_state_ok|]. intros [] s3 [Hok3 Hq3]. apply returns_ret.
    cbv iota. rewrite loop_S. apply returns_bind. eapply returns_mono; [by apply (round_wait s3 d)|].
    intros r s4 [Hq4 Hr]. assert (quiet s s4) by quiet.
    destruct (d =? UBX_SYNC_CHAR_1) eqn:Ed; destruct Hr as [-> Hr]; apply returns_ret; right; right; by rewrite Ed.
Qed.

(** * NMEA lines *)
Lemma nmea_store_ok s text junk0 junk n0 v (Q : unit → ubgps_s E → Prop) :
  nmea s = Nmea (Some ((Some <$> text) ++ junk0 :: junk)) n0 (Z.of_nat (length text)) →
  Q tt (set_nmea (Nmea (Some ((Some <$> text ++ [v]) ++ junk)) n0 (Z.of_nat (length (text ++ [v])))) s) →
  returns (nmea_store v) s Q.
Proof.
  intros En HQ. unfold nmea_store. apply returns_bind, returns_gets. rewrite En. simpl.
  apply returns_bind, returns_assert; [rewrite length_app, length_fmap; cbn [length]; zbool|]. apply returns_modify.
  rewrite Nat2Z.id, insert_app_r_alt by (by rewrite length_fmap). rewrite length_fmap, Nat.sub_diag. simpl.
  rewrite fmap_app, <-app_assoc, length_app in HQ. simpl in HQ.
  by replace (Z.of_nat (length text) + 1) with (Z.of_nat (length text + 1)) by lia.
Qed.

Lemma nmea_shape n text : nmea_ok n text → ∃ a b junk,
  n = Nmea (Some ((Some <$> text) ++ a :: b :: junk)) (Z.of_nat (length text + 2 + length junk)) (Z.of_nat (length text)) ∧
  Z.of_nat (length text + 2 + length junk) < 2 ^ 32.
Proof.
  intros (junk & E1 & E2 & E3 & Hj & Hs). destruct junk as [|a [|b junk]]; [simpl in Hj; lia..|].
  exists a, b, junk. destruct n as [l z c]. simpl in *. subst. split; [|lia]. do 2 f_equal. lia.
Qed.

Lemma set_nmea_ok s h n : gps_ok s h → gps_ok (set_nmea n s) h.
Proof. intros [[] H2 H3]. by do 2 (split; try done). Qed.

(** Sending a line off, [text] being what is written of the buffer. *)
Lemma nmea_send_ok s h text junk n0 c :
  gps_ok s h → nmea s = Nmea (Some ((Some <$> text) ++ junk)) n0 c →
  n0 = Z.of_nat (length text + length junk) → 2 ≤ n0 < 2 ^ 32 →
  returns (_ ← ubgps_publish_event call_user (NmeaData (default [] (line (nmea s))));
           n ← gets nmea; modify (set_nmea (Nmea (line n) (line_size n) 0))) s (λ _ s',
    gps_ok s' h ∧ seen (g_os s') = seen (g_os s) ∧ nmea_ok (nmea s') [] ∧ line_size (nmea s') = n0).
Proof.
  intros Hok En En0 Hn. apply returns_bind.
  eapply returns_mono; [by apply (publish_ok call_ubx call_user Hclient)|]. intros [] s1 (Hok1 & Hq1 & _).
  apply returns_bind, returns_gets, returns_modify. injection Hq1 as Hs1 Hn1.
  split_and!; [by apply set_nmea_ok|done| |simpl; by rewrite Hn1, En].
  exists ((Some <$> text) ++ junk). simpl. rewrite Hn1, En. simpl. rewrite length_app, length_fmap. split_and!; [done..| |]; lia.
Qed.

Lemma nmea_last_ok s t v junk n0 (Q : Z → ubgps_s E → Prop) :
  nmea s = Nmea (Some ((Some <$> t ++ [v]) ++ junk)) n0 (Z.of_nat (length (t ++ [v]))) → Q v s → returns nmea_last s Q.
Proof.
  intros En HQ. unfold returns, nmea_last. rewrite En. simpl.
  replace (Z.to_nat (Z.of_nat (length (t ++ [v])) - 1)) with (length t) by (rewrite length_app; simpl; lia).
  rewrite lookup_app_l by (rewrite length_fmap, length_app; simpl; lia).
  by rewrite list_lookup_fmap, lookup_app_r, Nat.sub_diag by lia.
Qed.

(** The end of nmea_receiver. *)
Definition nmea_finish (send : bool) : M (ubgps_s E) Z :=
  n ← gets nmea;
  (if send && (1 <? current_len n) then
     ubgps_publish_event call_user (NmeaData (default [] (line n)));;
     n ← gets nmea;
     modify (set_nmea (Nmea (line n) (line_size n) 0))
   else mret tt);;
  mret OK.

Lemma nmea_finish_send s0 s h text junk n0 :
  gps_ok s h → seen (g_os s) = seen (g_os s0) → nmea s = Nmea (Some ((Some <$> text) ++ junk)) n0 (Z.of_nat (length text)) →
  n0 = Z.of_nat (length text + length junk) → n0 < 2 ^ 32 → (2 ≤ length text)%nat →
  returns (nmea_finish true) s (λ r s', r = OK ∧ gps_ok s' h ∧ seen (g_os s') = seen (g_os s0) ∧
    nmea_ok (nmea s') [] ∧ line_size (nmea s') = n0).
Proof.
  intros Hok Hs En En0 Hn Hl. unfold nmea_finish. apply returns_bind, returns_gets.
  replace (true && (1 <? current_len (nmea s))) with true by (rewrite En; simpl; lia).
  apply returns_bind. eapply returns_mono; [eapply (nmea_send_ok s h text junk n0); try done; lia|].
  intros [] s' (? & ? & ? & ?). apply returns_ret. split_and!; try done. congruence.
Qed.

(** nmea_receiver keeps the buffer in bounds and assembles the line. *)
Lemma nmea_receiver_ok s h text d :
  gps_ok s h → nmea_ok (nmea s) text →
  returns (nmea_receiver call_user d) s (λ r s', r = OK ∧ gps_ok s' h ∧ seen (g_os s') = seen (g_os s) ∧
    nmea_ok (nmea s') (nmea_next (line_size (nmea s)) text d) ∧ line_size (nmea s') = line_size (nmea s)).
Proof.
  intros Hok Hn. pose proof Hn as (a & b & junk & En & Hsz)%nmea_shape.
  assert (En2 : line_size (nmea s) = Z.of_nat (length text + 2 + length junk)) by (by rewrite En).
  assert (Ec : current_len (nmea s) = Z.of_nat (length text)) by (by rewrite En).
  unfold nmea_receiver, nmea_next. apply returns_bind, returns_gets. rewrite En at 1. cbv iota beta.
  apply returns_bind. rewrite En2, Ec. fold nmea_finish. destruct ((d =? 13) || (d =? 10)).
  - destruct (list_snoc_cases text) as [->|(t & v & ->)].
    { apply returns_ret, returns_bind, returns_gets, returns_bind, returns_ret, returns_ret. by split_and!. }
    rewrite (proj2 (Z.eqb_neq _ _)) by (rewrite length_app; simpl; lia). cbn [negb].
    apply returns_bind. eapply nmea_last_ok; [exact En|]. destruct (Z.eqb_spec v 0) as [->|Hv]; cbn [negb].
    + apply returns_bind, returns_ret, returns_ret. destruct t as [|c t].
      * apply returns_bind, returns_gets. rewrite Ec. apply returns_bind, returns_ret, returns_ret. by split_and!.
      * rewrite bool_decide_false by (by destruct t).
        eapply (nmea_finish_send s s h ((c :: t) ++ [0]) (a :: b :: junk)); try done; [simpl; lia|].
        rewrite length_app. simpl. lia.
    + apply returns_bind. eapply nmea_store_ok; [exact En|]. apply returns_ret.
      rewrite bool_decide_false by (destruct t; [by intros [=]|by destruct t]).
      eapply (nmea_finish_send s _ h ((t ++ [v]) ++ [0]) (b :: junk)); [by apply set_nmea_ok|done|done| |done|].
      * rewrite !length_app. simpl. lia.
      * rewrite !length_app. simpl. lia.
  - apply returns_bind. eapply nmea_store_ok; [exact En|]. apply returns_bind, returns_gets. cbn [nmea set_nmea current_len line_size].
    rewrite u32_small by lia.
    replace (Z.of_nat (length (text ++ [d]))) with (Z.of_nat (length text) + 1) by (rewrite length_app; simpl; lia).
    destruct (Z.eqb_spec (Z.of_nat (length text) + 1) (Z.of_nat (length text + 2 + length junk) - 1)) as [Hfull|Hroom].
    + destruct junk; [|simpl in Hfull; lia]. apply returns_bind. eapply (nmea_store_ok _ (text ++ [d]) b []).
      { simpl. rewrite length_app. simpl. f_equal. lia. }
      apply returns_ret. eapply (nmea_finish_send s _ h ((text ++ [d]) ++ [0]) []); [by do 2 apply set_nmea_ok|done|done| |done|].
      * rewrite !length_app. simpl. lia.
      * rewrite !length_app. simpl. lia.
    + apply returns_ret, returns_bind, returns_gets, returns_bind, returns_ret, returns_ret.
      split_and!; [done|by apply set_nmea_ok|done| |done]. exists (b :: junk). simpl. rewrite length_app. simpl.
      split_and!; [done|lia..].
Qed.

(** * Streams *)

(** What the application has received and the line buffer after some input. *)
Definition after_input s ms h (s' : ubgps_s E) : Prop :=
  gps_ok s' h ∧ seen (g_os s') = seen (g_os s) ++ ms ∧ ∃ text, nmea_ok (nmea s') text.

Lemma dispatch_cons s h d bs text (Q : unit → ubgps_s E → Prop) :
  gps_ok s h → byte d → nmea_ok (nmea s) text →
  (∀ s', (∃ m, wf_msg m ∧ h ++ [d] = frame m ∧ after_input s [m] [] s') ∨
     (frame_prefix (h ++ [d]) ∧ (after_input s [] (h ++ [d]) s' ∨ (¬ available ∧ after_input s [] [] s'))) ∨
     (¬ frame_prefix (h ++ [d]) ∧ after_input s [] (if d =? UBX_SYNC_CHAR_1 then [d] else []) s') →
     returns (dispatch bs) s' Q) →
  returns (dispatch (d :: bs)) s Q.
Proof.
  intros Hok Hd Hn HQ. simpl. apply returns_bind. eapply returns_mono; [by apply receive_byte|].
  assert (Hafter : ∀ s1 h1, gps_ok s1 h1 → quiet s s1 → after_input s [] h1 s1).
  { intros s1 h1 Hok1 Hq. injection Hq as Hs1 Hn1. split_and!; [done|by rewrite app_nil_r|]. rewrite Hn1. by exists text. }
  intros r s1 [(m & Hm & Ef & -> & Hok1 & Hdl)|[(Hpre & -> & Hq & Hcase)|(Hnp & Hq & Hcase)]].
  - apply returns_bind, returns_ret, HQ. left. exists m. injection Hdl as Hs1 Hn1. split_and!; [done|done|]. split_and!; [done|done|].
    rewrite Hn1. by exists text.
  - apply returns_bind, returns_ret, HQ. right. left. split; [done|]. destruct Hcase as [?|[? ?]]; [left|right]; auto.
  - destruct (Z.eqb_spec d UBX_SYNC_CHAR_1) as [->|Hne]; destruct Hcase as [-> Hok1].
    + apply returns_bind, returns_ret, HQ. right. right. split; [done|]. auto.
    + assert (Hn1 : nmea_ok (nmea s1) text) by (injection Hq as _ ->; done).
      apply returns_bind, returns_bind. eapply returns_mono; [by apply (nmea_receiver_ok s1 [] text)|].
      intros _ s2 (_ & Hok2 & Hs2 & Hn2 & _). apply returns_ret, HQ. right. right. split; [done|].
      split_and!; [done| |by eexists]. rewrite Hs2, app_nil_r. by injection Hq.
Qed.

Lemma dispatch_nil s (Q : unit → ubgps_s E → Prop) : Q tt s → returns (dispatch []) s Q.
Proof. done. Qed.

(** Any input is handled, and explains what the application receives. *)
Lemma dispatch_sound bs : ∀ s h text,
  Forall byte bs → gps_ok s h → nmea_ok (nmea s) text →
  returns (dispatch bs) s (λ _ s', ∃ ms h', after_input s ms h' s' ∧ explained (h ++ bs) ms h').
Proof.
  induction bs as [|d bs IH]; intros s h text Hbs Hok Hn.
  { apply dispatch_nil. exists [], h. rewrite app_nil_r. split; [|constructor]. split_and!; [done|by rewrite app_nil_r|by eexists]. }
  apply Forall_cons in Hbs as [Hd Hbs]. eapply dispatch_cons; [done..|]. intros s1 Hcase.
  assert (Hgo : ∀ ms1 h1, after_input s ms1 h1 s1 → (∀ ms h', explained (h1 ++ bs) ms h' → explained (h ++ d :: bs) (ms1 ++ ms) h') →
    returns (dispatch bs) s1 (λ _ s', ∃ ms h', after_input s ms h' s' ∧ explained (h ++ d :: bs) ms h')).
  { intros ms1 h1 (Hok1 & Hs1 & text1 & Hn1) Hex. eapply returns_mono; [by apply (IH s1 h1 text1)|].
    intros _ s2 (ms & h' & (Hok2 & Hs2 & Hn2) & He). exists (ms1 ++ ms), h'. split; [|by apply Hex].
    split_and!; [done| |done]. by rewrite Hs2, Hs1, app_assoc. }
  replace (h ++ d :: bs) with ((h ++ [d]) ++ bs) in * by (by rewrite <-app_assoc).
  destruct Hcase as [(m & Hm & Ef & Ha)|[(_ & [Ha|[_ Ha]])|[_ Ha]]].
  - apply (Hgo [m] []); [done|]. intros ms h' He. rewrite Ef. by apply ex_frame.
  - by apply (Hgo [] (h ++ [d])).
  - apply (Hgo [] []); [done|]. intros ms h' He. by apply explained_skip.
  - destruct (d =? UBX_SYNC_CHAR_1).
    + apply (Hgo [] [d]); [done|]. intros ms h' He. rewrite <-app_assoc. by apply explained_skip.
    + apply (Hgo [] []); [done|]. intros ms h' He. by apply explained_skip.
Qed.

(** A complete frame is not an unfinished one. *)
Lemma frame_not_ok s m : wf_msg m → ¬ gps_ok s (frame m).
Proof.
  intros Hm [_ _ Hp]. pose proof (wf_length _ Hm) as Hl. unfold frame in Hp.
  destruct (ubx_checksum 0 0 m) as [a b]. simpl in Hp. unfold progress in Hp.
  destruct (state (ubx_receiver s)).
  - by destruct Hp.
  - by destruct Hp.
  - destruct Hp as (x & [= <-] & Hx & _). rewrite length_app in Hx. lia.
  - destruct Hp as (x & y & [= Ex] & Hx & _ & Hy & _). assert (take 4 m = x) as <-.
    { rewrite <-(take_app_le m [a; b]) by lia. rewrite Ex. by rewrite take_app_length'. }
    rewrite msg_length_take in Hy. destruct Hm as (_ & Hm & _). apply (f_equal length) in Ex.
    rewrite !length_app in Ex. unfold SIZEOF_UBX_MSG in Hm. simpl in Ex. lia.
  - destruct Hp as (m' & [= Em] & Hm' & _). rewrite <-(app_nil_r m') in Em. by apply wf_det in Em as [_ [=]].
  - destruct Hp as (m' & [= Em] & Hm' & _). by apply wf_det in Em as [_ [=]].
Qed.

(** A frame that comes in completely is delivered, when there is memory for it. *)
Lemma dispatch_frame m : available → wf_msg m → ∀ bs s h text,
  h ++ bs = frame m → bs ≠ [] → Forall byte bs → gps_ok s h → nmea_ok (nmea s) text →
  returns (dispatch bs) s (λ _ s', after_input s [m] [] s').
Proof.
  intros Hav Hm bs. induction bs as [|d bs IH]; intros s h text Ef Hne Hbs Hok Hn; [done|].
  apply Forall_cons in Hbs as [Hd Hbs]. replace (h ++ d :: bs) with ((h ++ [d]) ++ bs) in Ef by (by rewrite <-app_assoc).
  eapply dispatch_cons; [done..|]. intros s1 [(m' & Hm' & Ef' & Ha)|[(_ & [Ha|[? _]])|[Hnp _]]]; [| |done|].
  - rewrite Ef' in Ef. unfold frame in Ef.
    destruct (ubx_checksum 0 0 m) as [a b] eqn:Ec, (ubx_checksum 0 0 m') as [a' b'] eqn:Ec'.
    injection Ef as Ef. rewrite <-app_assoc in Ef. apply wf_det in Ef as [-> Ef]; [|done..].
    rewrite Ec in Ec'. injection Ec' as -> ->. simplify_list_eq. by apply dispatch_nil.
  - destruct bs as [|d' bs].
    + rewrite app_nil_r in Ef. destruct Ha as [Hok1 _]. rewrite Ef in Hok1. by apply frame_not_ok in Hok1.
    + destruct Ha as (Hok1 & Hs1 & text1 & Hn1). eapply returns_mono; [by apply (IH s1 (h ++ [d]) text1)|].
      intros _ s2 (Hok2 & Hs2 & Hn2). split_and!; [done| |done]. by rewrite Hs2, Hs1, app_nil_r.
  - destruct Hnp. exists m, bs. by rewrite Ef.
Qed.

(** Bytes outside a frame without the first synchronization character. *)
Lemma dispatch_noise bs : ∀ s text,
  Forall byte bs → Forall (λ d, d ≠ UBX_SYNC_CHAR_1) bs → gps_ok s [] → nmea_ok (nmea s) text →
  returns (dispatch bs) s (λ _ s', after_input s [] [] s').
Proof.
  induction bs as [|d bs IH]; intros s text Hbs Hns Hok Hn.
  { apply dispatch_nil. split_and!; [done|by rewrite app_nil_r|by eexists]. }
  apply Forall_cons in Hbs as [Hd Hbs]. apply Forall_cons in Hns as [Hds Hns].
  pose proof (not_prefix_single d Hds) as Hnp.
  eapply dispatch_cons; [done..|]. intros s1 [(m & Hm & Ef & Ha)|[(Hpre & _)|[_ Ha]]]; [|done|].
  - destruct Hnp. exists m, []. by rewrite app_nil_r, <-Ef.
  - rewrite (proj2 (Z.eqb_neq _ _)) in Ha by done. destruct Ha as (Hok1 & Hs1 & text1 & Hn1).
    eapply returns_mono; [by apply (IH s1 text1)|]. intros _ s2 (Hok2 & Hs2 & Hn2). split_and!; [done| |done].
    by rewrite Hs2, Hs1, app_nil_r.
Qed.

Lemma dispatch_app l1 l2 s (Q : unit → ubgps_s E → Prop) :
  returns (dispatch l1) s (λ _ s', returns (dispatch l2) s' Q) → returns (dispatch (l1 ++ l2)) s Q.
Proof.
  revert s. induction l1 as [|d l1 IH]; intros s HQ; [done|]. simpl in *. unfold returns, mbind, M_bind in *.
  destruct (receive d s) as [[r s1]| |]; try done. destruct (r =? ERROR).
  - destruct (nmea_receiver call_user d s1) as [[r2 s2]| |]; try done. by apply IH.
  - by apply IH.
Qed.
End UbxStream.
