(* ===== verification/UbxSend.v ===== *)
(** Sending UBX messages, the receive and acknowledgment timeouts, and damaged
    frames. *)

From S2P Require Import Prelude Ubx UbxInv UbxFrame UbxSpec UbxStream.

(** A message that can be sent: its length field is right. *)
Definition sendable (m : bytes) : Prop := Forall byte m ∧ Z.of_nat (length m) = SIZEOF_UBX_MSG + msg_length m.

Lemma wf_sendable m : wf_msg m → sendable m.
Proof. by intros (? & ? & _). Qed.

(** The first checksum byte is the sum of the bytes. *)
Lemma checksum_sum a b l : byte a → (ubx_checksum a b l).1 = u8 (a + foldr Z.add 0 l).
Proof.
  unfold byte, u8. revert a b. induction l as [|d l IH]; intros a b Ha; simpl; [by rewrite Z.add_0_r, Z.mod_small|].
  rewrite IH by apply Z.mod_pos_bound, eq_refl. unfold u8. rewrite Zplus_mod_idemp_l. f_equal. lia.
Qed.

Section UbxSend.
Context {E : Type} `{OsLaws E}.
Context (ubx_timeout_fn receiver : Z) (call_ubx : Z → Z → bytes → bool → M (ubgps_s E) Z)
  (call_user : Z → gps_event → Z → M (ubgps_s E) unit).
Hypothesis Hclient : client_ok call_ubx call_user.
Hypothesis Hfn : ubx_timeout_fn ≠ NULL.
Implicit Types (s : ubgps_s E) (h : bytes).

Local Abbreviation dispatch := (ubgps_dispatch ubx_timeout_fn receiver call_ubx call_user).

(** The serial line takes at least one byte at a time. *)
Definition serial_ready : Prop := ∀ e X fd bs, owned e X → bs ≠ [] → returns (sys_write fd bs) e (λ n _, 0 < n).

Lemma full_write_ok s fd : serial_ready → ∀ fuel bs total x,
  bs ≠ [] → (length bs ≤ fuel)%nat → owned x (blocks s) →
  returns (loop fuel (full_write_body fd) (bs, total)) (set_os x s) (λ r s', ∃ y, s' = set_os y s ∧
    r = total + Z.of_nat (length bs) ∧ owned y (blocks s) ∧ seen y = seen x ∧ sent y = sent x ++ bs).
Proof.
  intros Hready fuel. induction fuel as [|fuel IH]; intros bs total x Hne Hf Hx.
  { destruct bs; [done|simpl in Hf; lia]. }
  rewrite loop_S. apply returns_bind. unfold full_write_body. apply returns_bind, returns_zoom. simpl.
  destruct (returns_elim _ _ _ (write_ok x (blocks s) fd bs Hx)) as (n & y & Ew & Hy & Hw).
  pose proof (Hready x (blocks s) fd bs Hx Hne) as Hpos. unfold returns in Hpos. rewrite Ew in Hpos.
  eapply returns_intro; [exact Ew|]. destruct Hw as [[-> _]|[Hn Hio]]; [by unfold ERROR in Hpos|]. injection Hio as Hs1 Hs2.
  unfold ERROR. rewrite (proj2 (Z.eqb_neq _ _)) by lia. apply returns_bind, returns_ret.
  assert (Hdt : bs = take (Z.to_nat n) bs ++ drop (Z.to_nat n) bs) by (by rewrite take_drop).
  assert (Hlen : length (drop (Z.to_nat n) bs) = (length bs - Z.to_nat n)%nat) by apply length_drop.
  destruct (drop (Z.to_nat n) bs) as [|d rest] eqn:Ed.
  - do 2 apply returns_ret. exists y. rewrite app_nil_r in Hdt. simpl in Hlen. split_and!; [done|lia|done|done|congruence].
  - apply returns_ret. eapply returns_mono; [apply (IH (d :: rest) (total + n) y); [done|lia|done]|].
    intros r s' (z & -> & -> & Hz & Hs3 & Hs4). exists z. split_and!; [done|lia|done|congruence|].
    rewrite Hs4, Hs2, <-app_assoc. by rewrite <-Hdt.
Qed.

Lemma full_write s fd fuel bs :
  serial_ready → owned (g_os s) (blocks s) → bs ≠ [] → (length bs ≤ fuel)%nat →
  returns (__ubgps_full_write fuel fd bs) s (λ r s', ∃ y, s' = set_os y s ∧ r = Z.of_nat (length bs) ∧
    owned y (blocks s) ∧ seen y = seen (g_os s) ∧ sent y = sent (g_os s) ++ bs).
Proof.
  intros Hr Ho Hne Hf. replace s with (set_os (g_os s) s) at 1 by (by destruct s).
  by apply (full_write_ok s fd Hr fuel bs 0).
Qed.

Lemma read_sendable s p m (Q : bytes → ubgps_s E → Prop) :
  bufs s !! p = Some (Some <$> m) → sendable m → Q m s → returns (read_msg p) s Q.
Proof.
  intros Hp [Hb Hl] HQ. pose proof (msg_length_nonneg m Hb). unfold SIZEOF_UBX_MSG in *.
  unfold read_msg. apply returns_bind. apply (returns_read_buf s p _ (take 4 m) (Some <$> drop 4 m)).
  - by rewrite <-fmap_app, take_drop.
  - rewrite length_take. unfold SIZEOF_UBX_MSG. lia.
  - rewrite msg_length_take. apply (returns_read_buf s p _ m []); [by rewrite app_nil_r| |done].
    unfold SIZEOF_UBX_MSG. lia.
Qed.

(** The acknowledgment timer of a configuration message. *)
Lemma ack_timer_ok s h m :
  gps_ok s h →
  returns (if class_id m =? UBX_CLASS_CFG then
             upd_recv (set_waiting_ack (take 4 m));;
             t ← __ubgps_set_timer call_user UBX_MSG_ACK_TIMEOUT ubx_timeout_fn receiver;
             upd_recv (set_send_timer t)
           else mret tt) s (keeps s h).
Proof.
  intros Hok. destruct (class_id m =? UBX_CLASS_CFG); [|by apply returns_ret].
  apply returns_bind, returns_modify, returns_bind.
  eapply returns_mono; [apply (set_timer_ok call_ubx call_user Hclient UBX_MSG_ACK_TIMEOUT ubx_timeout_fn receiver _ h); [by apply gps_ok_recv|done|done]|].
  intros t s1 (Hok1 & Hq & Hs). apply returns_modify. split_and!; [by apply gps_ok_recv|done|done].
Qed.

(** ubx_msg_send writes the frame of the message. *)
Lemma send_ok s h fuel fd p m :
  serial_ready → gps_ok s h → 0 ≤ fd → p ≠ NULL → bufs s !! p = Some (Some <$> m) → sendable m →
  (length m ≤ fuel)%nat → (2 ≤ fuel)%nat → send_timer_id (ubx_receiver s) < 0 →
  returns (ubx_msg_send ubx_timeout_fn receiver call_user fuel fd p) s (λ r s', r = OK ∧ gps_ok s' h ∧ quiet s s' ∧
    sent (g_os s') = sent (g_os s) ++ frame m).
Proof.
  intros Hr Hok Hfd Hp Hb Hm Hf Hf2 Ht. pose proof (live_owned _ (ok_live _ _ Hok)) as Ho.
  unfold ubx_msg_send, nonnull. rewrite (proj2 (Z.ltb_ge _ _)), (proj2 (Z.eqb_neq _ _)) by done. cbn [orb negb].
  apply returns_bind, returns_gets. rewrite (proj2 (Z.leb_gt _ _)) by done.
  apply returns_bind. eapply returns_mono; [by apply (full_write s fd fuel [UBX_SYNC_CHAR_1; UBX_SYNC_CHAR_2])|].
  intros r s1 (y1 & -> & -> & Ho1 & Hs1 & Hw1). cbn [length Z.of_nat Z.eqb negb Pos.eqb Pos.of_succ_nat Pos.succ].
  apply returns_bind. apply (read_sendable _ _ m); [done|done|].
  assert (Hmne : m ≠ []) by (destruct Hm as [Hb0 Hl]; pose proof (msg_length_nonneg m Hb0); intros ->; unfold SIZEOF_UBX_MSG in Hl; simpl in Hl; lia).
  apply returns_bind. eapply returns_mono; [by apply (full_write (set_os y1 s) fd fuel m)|].
  intros r s2 (y2 & -> & -> & Ho2 & Hs2 & Hw2). rewrite (proj2 Hm), Z.eqb_refl. cbn [negb].
  destruct (ubx_checksum 0 0 m) as [a b] eqn:Ec. apply returns_bind.
  eapply returns_mono; [by apply (full_write (set_os y2 (set_os y1 s)) fd fuel [a; b])|].
  intros r s3 (y3 & -> & -> & Ho3 & Hs3 & Hw3). cbn [length Z.of_nat Z.eqb negb Pos.eqb Pos.of_succ_nat Pos.succ].
  apply returns_bind. eapply returns_mono; [apply (ack_timer_ok (set_os y3 s) h m); by apply gps_ok_os|].
  intros [] s4 (Hok4 & Hq4 & Hs4). apply returns_ret. simpl in *. split_and!; [done|done|quiet|].
  rewrite Hs4, Hw3, Hw2, Hw1, (frame_alt _ _ _ Ec). by rewrite <-!app_assoc.
Qed.

(** While a configuration message waits for its acknowledgment nothing is
    sent. *)
Lemma send_busy s h fuel fd p :
  gps_ok s h → 0 ≤ fd → p ≠ NULL → 0 ≤ send_timer_id (ubx_receiver s) →
  returns (ubx_msg_send ubx_timeout_fn receiver call_user fuel fd p) s (λ r s', r = ERROR ∧ keeps s h tt s').
Proof.
  intros Hok Hfd Hp Ht. unfold ubx_msg_send, nonnull.
  rewrite (proj2 (Z.ltb_ge _ _)), (proj2 (Z.eqb_neq _ _)) by done. cbn [orb negb].
  apply returns_bind, returns_gets. rewrite (proj2 (Z.leb_le _ _)) by done. apply returns_bind.
  eapply returns_os; [by apply set_errno_ok, Hok|]. intros [] x [Hs Hx]. apply returns_ret.
  split; [done|]. split_and!; [by apply gps_ok_os|quiet|simpl; congruence].
Qed.

(** ** Timeouts *)
Lemma timeout_ok s h id :
  gps_ok s h →
  returns (ubx_timeout call_ubx id) s (λ r s', r = OK ∧ quiet s s' ∧
    if id =? send_timer_id (ubx_receiver s) then gps_ok s' h ∨ gps_ok s' []
    else if id =? receive_timer_id (ubx_receiver s) then gps_ok s' []
    else s' = s).
Proof.
  intros Hok. unfold ubx_timeout. apply returns_bind, returns_gets, returns_bind, returns_gets, returns_bind.
  destruct (id =? send_timer_id (ubx_receiver s)).
  { apply returns_bind, returns_modify, returns_bind, returns_gets. simpl.
    pose proof (live_callback _ (ok_live _ _ Hok)). unfold nonnull. rewrite (proj2 (Z.eqb_neq _ _)) by done. cbn [negb].
    apply returns_bind, returns_gets, returns_bind, returns_gets, returns_bind.
    eapply returns_mono; [apply (ubx_ok _ _ Hclient _ _ _ true _ h); by apply gps_ok_recv|].
    intros _ s1 [Hok1 Hq]. do 2 apply returns_ret. done. }
  destruct (id =? receive_timer_id (ubx_receiver s)); [|by do 2 apply returns_ret].
  apply returns_bind, returns_modify. eapply returns_mono; [apply reset_state_ok, gps_live_recv; [done|apply Hok]|].
  intros [] s1 [Hok1 Hq]. apply returns_ret. done.
Qed.

(** ** Damaged frames *)
Lemma dispatch_prefix m : available → wf_msg m → ∀ bs s h text rest,
  frame m = h ++ bs ++ rest → rest ≠ [] → Forall byte bs → gps_ok s h → nmea_ok (nmea s) text →
  returns (dispatch bs) s (λ _ s', after_input s [] (h ++ bs) s').
Proof.
  intros Hav Hm bs. induction bs as [|d bs IH]; intros s h text rest Ef Hne Hbs Hok Hn.
  { apply dispatch_nil. rewrite app_nil_r. split_and!; [done|by rewrite app_nil_r|by eexists]. }
  apply Forall_cons in Hbs as [Hd Hbs].
  replace (h ++ (d :: bs) ++ rest) with ((h ++ [d]) ++ bs ++ rest) in Ef by (by rewrite <-app_assoc).
  replace (h ++ d :: bs) with ((h ++ [d]) ++ bs) by (by rewrite <-app_assoc).
  eapply dispatch_cons; [done..|]. intros s1 [(m' & Hm' & Ef' & _)|[(_ & [Ha|[? _]])|[Hnp _]]]; [| |done|].
  - exfalso. rewrite Ef' in Ef. unfold frame in Ef.
    destruct (ubx_checksum 0 0 m) as [a b] eqn:Ec, (ubx_checksum 0 0 m') as [a' b'] eqn:Ec'.
    injection Ef as Ef. rewrite <-app_assoc in Ef. apply wf_det in Ef as [-> Ef]; [|done..].
    rewrite Ec in Ec'. injection Ec' as -> ->. injection Ef as Ef. symmetry in Ef. by apply app_eq_nil in Ef as [_ ->].
  - destruct Ha as (Hok1 & Hs1 & text1 & Hn1). eapply returns_mono; [by apply (IH s1 (h ++ [d]) text1 rest)|].
    intros _ s2 (Hok2 & Hs2 & Hn2). split_and!; [done| |done]. by rewrite Hs2, Hs1, app_nil_r.
  - destruct Hnp. exists m, (bs ++ rest). by rewrite Ef.
Qed.

(** A frame has at least eight bytes. *)
Lemma frame_length m : wf_msg m → (8 ≤ length (frame m))%nat.
Proof.
  intros Hm. pose proof (wf_length _ Hm). unfold frame. destruct (ubx_checksum 0 0 m). rewrite !length_app. simpl. lia.
Qed.

(** A damaged message whose first checksum byte does not match. *)
Lemma dispatch_damaged s text m a b :
  available → wf_msg m → (ubx_checksum 0 0 m).1 ≠ a → byte a → byte b →
  gps_ok s [] → nmea_ok (nmea s) text →
  returns (dispatch ([UBX_SYNC_CHAR_1; UBX_SYNC_CHAR_2] ++ m ++ [a; b])) s (λ _ s', seen (g_os s') = seen (g_os s)).
Proof.
  intros Hav Hm Ha Hba Hbb Hok Hn. destruct (ubx_checksum 0 0 m) as [a0 b0] eqn:Ec. simpl in Ha.
  rewrite app_assoc. apply dispatch_app.
  eapply returns_mono; [eapply (dispatch_prefix m Hav Hm _ s [] text [a0; b0])|]; try done.
  - by rewrite (frame_alt _ _ _ Ec).
  - apply Forall_app. split; [by repeat (constructor; [by split|])|by destruct Hm].
  - intros [] s1 (Hok1 & Hs1 & text1 & Hn1). eapply dispatch_cons; [done..|].
    assert (Hnp : ¬ frame_prefix (([] ++ [UBX_SYNC_CHAR_1; UBX_SYNC_CHAR_2] ++ m) ++ [a])).
    { intros Hpre. apply Ha. assert ([a] = [a0]) as [= ->]; [|done]. by eapply (prefix_checksum m a0 b0 [a] []). }
    intros s2 [(m' & Hm' & Ef & _)|[(Hpre & _)|[_ Ha2]]]; [|done|].
    { destruct Hnp. exists m', []. by rewrite app_nil_r, <-Ef. }
    destruct Ha2 as (Hok2 & Hs2 & text2 & Hn2). eapply dispatch_cons; [done..|].
    assert (Hs02 : seen (g_os s2) = seen (g_os s)) by (by rewrite Hs2, Hs1, !app_nil_r).
    intros s3 [(m' & Hm' & Ef & _)|[(_ & [Ha3|[? _]])|[_ Ha3]]]; [|apply dispatch_nil..|apply dispatch_nil].
    + apply frame_length in Hm'. rewrite <-Ef in Hm'. destruct (a =? UBX_SYNC_CHAR_1); simpl in Hm'; lia.
    + destruct Ha3 as (_ & -> & _). by rewrite app_nil_r.
    + done.
    + destruct Ha3 as (_ & -> & _). by rewrite app_nil_r.
Qed.
End UbxSend.
