(* ===== verification/UbxHeap.v ===== *)
(** The GPS driver on the memory manager: the heap of [MmSpec] keeps the laws
    of memory that the driver relies on. *)

From S2P Require Import Prelude MmHeap MmApi MmInv MmSpec MmThms MmBlocks Ubx UbxInv.

(** The rest of the system: the clock, the serial line (what was written and
    what is still to be read), the messages of the application and errno. *)
Record world := World {
  w_heap : heap;
  w_time : Z * Z;
  w_written : bytes;
  w_input : list bytes;
  w_received : list bytes;
  w_flags : Z;
  w_errno : Z;
}.

Definition set_heap h w := World h (w_time w) (w_written w) (w_input w) (w_received w) (w_flags w) (w_errno w).
Definition add_written bs w := World (w_heap w) (w_time w) (w_written w ++ bs) (w_input w) (w_received w) (w_flags w) (w_errno w).
Definition set_input i w := World (w_heap w) (w_time w) (w_written w) i (w_received w) (w_flags w) (w_errno w).
Definition add_received m w := World (w_heap w) (w_time w) (w_written w) (w_input w) (w_received w ++ [m]) (w_flags w) (w_errno w).
Definition set_w_flags f w := World (w_heap w) (w_time w) (w_written w) (w_input w) (w_received w) f (w_errno w).
Definition set_w_errno e w := World (w_heap w) (w_time w) (w_written w) (w_input w) (w_received w) (w_flags w) e.

(** Memory comes from the heap at [nodelist], used by the task [my_pid]; the
    serial line takes everything that is written. *)
#[global] Instance heap_os (nodelist my_pid : Z) : Os world := {
  malloc n := zoom w_heap set_heap (mm_malloc nodelist my_pid n);
  calloc n z := zoom w_heap set_heap (mm_calloc nodelist my_pid n z);
  free p := zoom w_heap set_heap (mm_free nodelist my_pid p);
  clock_gettime := gets w_time;
  sys_write fd bs := modify (add_written bs);; mret (Z.of_nat (length bs));
  sys_read fd n := i ← gets w_input; match i with [] => mret [] | bs :: i => modify (set_input i);; mret bs end;
  fcntl_getfl fd := gets w_flags;
  fcntl_setfl fd f := modify (set_w_flags f);; mret OK;
  get_errno := gets w_errno;
  set_errno e := modify (set_w_errno e);
}.

(** ** The laws *)
Section HeapOs.
Variables nodelist lo hi my_pid : Z.
Context (Hlay : layout_ok nodelist lo hi) (Hpid : 0 ≤ my_pid).

(** The heap is well-formed and the blocks are live. *)
Definition heap_owned (w : world) (X : list Z) : Prop := blocks_held nodelist lo hi my_pid (w_heap w) X.

#[refine] Instance heap_os_laws : @OsLaws world (heap_os nodelist my_pid) := {
  owned := heap_owned;
  seen := w_received;
  sent := w_written;
}.
Proof.
  - intros w X Y. apply blocks_perm.
  - by intros e X (Hnd & _).
  - intros w X n Ho Hn. apply returns_zoom.
    eapply returns_mono; [by apply (blocks_malloc _ _ _ _ Hlay Hpid _ X); [exact Ho|lia..]|]. by intros r h' Hb.
  - intros w X n z Ho Hn Hz Hnz. apply returns_zoom.
    eapply returns_mono; [by apply (blocks_calloc _ _ _ _ Hlay Hpid _ X)|]. by intros r h' Hb.
  - intros w X p Ho. apply returns_zoom.
    eapply returns_mono; [by apply (blocks_free _ _ _ _ Hlay Hpid _ X)|]. by intros [] h' Hb.
  - intros w X Ho. by apply returns_gets.
  - intros w X fd bs Ho. apply returns_bind, returns_modify, returns_ret. split; [exact Ho|]. right.
    split; [lia|]. simpl. by rewrite Nat2Z.id, firstn_all.
  - intros w X Ho. by apply returns_gets.
  - intros w X v Ho. by apply returns_modify.
Defined.
End HeapOs.
