(* ===== verification/UbxDemo.v ===== *)
(** A small operating system with memory that never runs out, for the
    witnesses of the drivers. *)

From S2P Require Import Prelude Ubx UbxInv.

(** The next free address, the time, what was sent, the application's messages
    and the backup registers of the clock. *)
Record demo_os := DemoOs { d_next : Z; d_time : Z * Z; d_sent : bytes; d_seen : list bytes; d_rtc : Z * Z }.

Definition demo_alloc : M demo_os Z := λ e,
  Done (d_next e, DemoOs (d_next e + 1) (d_time e) (d_sent e) (d_seen e) (d_rtc e)).

#[global] Instance demo_os_os : Os demo_os := {
  malloc _ := demo_alloc;
  calloc _ _ := demo_alloc;
  free _ := mret tt;
  clock_gettime := gets d_time;
  sys_write fd bs := modify (λ e, DemoOs (d_next e) (d_time e) (d_sent e ++ bs) (d_seen e) (d_rtc e));; mret (Z.of_nat (length bs));
  sys_read _ _ := mret [];
  fcntl_getfl _ := mret 0;
  fcntl_setfl _ _ := mret OK;
  get_errno := mret 0;
  set_errno _ := mret tt;
}.

Definition demo_owned (e : demo_os) (X : list Z) : Prop :=
  NoDup (NULL :: X) ∧ 0 < d_next e ∧ ∀ p, p ∈ X → 0 < p < d_next e.

Lemma demo_alloc_ok e X : demo_owned e X →
  returns demo_alloc e (λ p e', (d_seen e', d_sent e') = (d_seen e, d_sent e) ∧ demo_owned e' (if p =? NULL then X else p :: X)).
Proof.
  intros (Hnd & Hn & HX). unfold returns, demo_alloc. split; [done|]. rewrite (proj2 (Z.eqb_neq _ _)) by lia.
  apply NoDup_cons in Hnd as [H0 Hnd]. split_and!; simpl; [|lia|].
  - rewrite !NoDup_cons, !not_elem_of_cons. split_and!; [lia|done| |done]. intros Hin. specialize (HX _ Hin). lia.
  - intros p [->|Hp]%elem_of_cons; [lia|]. specialize (HX _ Hp). lia.
Qed.

#[global, refine] Instance demo_os_laws : OsLaws demo_os := { owned := demo_owned; seen := d_seen; sent := d_sent }.
Proof.
  - intros e X Y HXY (Hnd & Hn & HX). split_and!; [by rewrite <-HXY|done|]. intros p Hp. apply HX. by rewrite HXY.
  - by intros e X (Hnd & _).
  - intros e X n Ho _. by apply demo_alloc_ok.
  - intros e X n z Ho _ _ _. by apply demo_alloc_ok.
  - intros e X p (Hnd & Hn & HX). apply returns_ret. split; [done|]. apply NoDup_cons in Hnd as [H0 [Hp Hnd]%NoDup_cons].
    split_and!; [apply NoDup_cons; split; [set_solver|done]|done|]. intros q Hq. apply HX. set_solver.
  - intros e X Ho. by apply returns_gets.
  - intros e X fd bs Ho. apply returns_bind, returns_modify, returns_ret. split; [exact Ho|]. right.
    split; [lia|]. simpl. by rewrite Nat2Z.id, firstn_all.
  - done.
  - done.
Defined.

