(* ===== verification/UbxThms.v ===== *)
(** The theorems about the GPS driver. *)

From S2P Require Import Prelude MmHeap MmApi MmInv MmSpec MmInit MmThms Ubx UbxInv UbxFrame UbxSpec UbxStream UbxSend UbxHeap UbxDemo.

(** ** The clients of the witnesses: messages are logged. *)
Definition demo_ubx (cb pr : Z) (m : bytes) (t : bool) : M (ubgps_s demo_os) Z :=
  (if t then mret tt
   else modify (λ s, set_os (DemoOs (d_next (g_os s)) (d_time (g_os s)) (d_sent (g_os s)) (d_seen (g_os s) ++ [m]) (d_rtc (g_os s))) s));;
  mret OK.
Definition demo_user (cb : Z) (ev : gps_event) (pr : Z) : M (ubgps_s demo_os) unit := mret tt.

Lemma demo_client : client_ok demo_ubx demo_user.
Proof.
  split.
  - intros cb pr m [] s h Hok; apply returns_bind; [by apply returns_ret; split; [left|]|].
    apply returns_modify, returns_ret. split; [|done]. left. by apply gps_ok_os; [apply Hok|].
  - by intros cb ev pr s h Hok.
Qed.

Definition demo_receiver : ubx_receiver_s :=
  Receiver UBX_STATE_MSG_WAIT (replicate 4 0) (replicate 4 0) NULL 0 0 0 (-1) (-1) 900 901.
Definition demo_gps : ubgps_s demo_os :=
  Gps demo_receiver [] 0 ∅ 0 [] (Nmea (Some (replicate 128 None)) 128 0) 3 false (DemoOs 1000 (50, 7) [] [] (0, 0)).

Lemma demo_gps_ok : gps_ok demo_gps [].
Proof.
  split; [|done|done]. split; try done. split_and!; [|done|set_solver].
  apply NoDup_cons. split; [set_solver|constructor].
Qed.

Lemma demo_nmea_ok : nmea_ok (nmea demo_gps) [].
Proof. exists (replicate 128 None). split_and!; try done. simpl. lia. Qed.

Lemma demo_available : available (E:=demo_os).
Proof. intros e X n (_ & Hn & _) _. unfold returns. simpl. lia. Qed.

Lemma demo_serial : serial_ready (E:=demo_os).
Proof. intros e X fd bs _ Hbs. apply returns_bind, returns_modify, returns_ret. destruct bs; [done|simpl; lia]. Qed.

(** A poll request for the navigation solution. *)
Definition demo_msg : bytes := [0x01; 0x07; 0; 0].
Lemma demo_msg_ok : wf_msg demo_msg.
Proof. split_and!; [|done|done]. by repeat (constructor; [by split|]). Qed.

(** ** The UBX receiver *)

(** C24: ubx_msg_receive with the bytes [h] of a frame behind it: a byte that
    completes the frame of a well-formed message delivers that message, once;
    a byte that can still become a frame is taken (unless there is no memory
    for the message, which drops the frame); any other byte ends the frame and
    is looked at again as the start of a new one, or left to the NMEA
    receiver.  It always returns, at most one retry is needed, and buffers are
    used within bounds and freed. *)
Theorem ubx_receive_correct {E} `{OsLaws E} fn receiver call_ubx call_user (s : ubgps_s E) h d :
  client_ok call_ubx call_user → fn ≠ NULL → gps_ok s h → byte d →
  returns (ubx_msg_receive fn receiver call_ubx call_user d) s (received s h d).
Proof. intros. by apply receive_byte. Qed.

Lemma ubx_receive_correct_witness :
  returns (ubx_msg_receive 800 801 demo_ubx demo_user 0xB5) demo_gps (received demo_gps [] 0xB5).
Proof. apply (ubx_receive_correct 800 801 demo_ubx demo_user demo_gps [] 0xB5 demo_client); [done|apply demo_gps_ok|done]. Defined.

(** C7: whatever bytes come in, the receiver returns without a fault, and the
    messages the application gets are exactly frames of the input, in order
    and not overlapping; the driver is in order afterwards, ready to go on
    with the beginning of a frame at the end of the input. *)
Theorem ubx_stream_sound {E} `{OsLaws E} fn receiver call_ubx call_user (s : ubgps_s E) text bs :
  client_ok call_ubx call_user → fn ≠ NULL → gps_ok s [] → nmea_ok (nmea s) text → Forall byte bs →
  returns (ubgps_dispatch fn receiver call_ubx call_user bs) s (λ _ s', ∃ ms h',
    seen (g_os s') = seen (g_os s) ++ ms ∧ explained bs ms h' ∧ gps_ok s' h' ∧ ∃ text', nmea_ok (nmea s') text').
Proof.
  intros Hc Hfn Hok Hn Hbs. eapply returns_mono; [by apply (dispatch_sound fn receiver _ _ Hc Hfn bs s [] text)|].
  intros [] s' (ms & h' & (Hok' & Hs & Hn') & He). by exists ms, h'.
Qed.

Lemma ubx_stream_sound_witness :
  returns (ubgps_dispatch 800 801 demo_ubx demo_user [0xB5; 0x62; 0x24]) demo_gps (λ _ s', ∃ ms h',
    seen (g_os s') = [] ++ ms ∧ explained [0xB5; 0x62; 0x24] ms h' ∧ gps_ok s' h' ∧ ∃ text', nmea_ok (nmea s') text').
Proof.
  apply (ubx_stream_sound 800 801 demo_ubx demo_user demo_gps [] [0xB5; 0x62; 0x24] demo_client);
    [done|apply demo_gps_ok|apply demo_nmea_ok|by repeat (constructor; [by split|])].
Defined.

(** C15: what ubx_msg_send writes for a message, ubx_msg_receive on the other
    side turns back into that message: a driver that waits for a frame and
    reads these bytes delivers the message, whatever noise without a
    synchronization character comes before. *)
Theorem ubx_send_receive_roundtrip {E} `{OsLaws E} fn receiver call_ubx call_user (s : ubgps_s E) h fuel fd p m :
  client_ok call_ubx call_user → fn ≠ NULL → serial_ready (E:=E) → available (E:=E) →
  gps_ok s h → 0 ≤ fd → p ≠ NULL → bufs s !! p = Some (Some <$> m) → wf_msg m →
  (length m ≤ fuel)%nat → send_timer_id (ubx_receiver s) < 0 →
  returns (ubx_msg_send fn receiver call_user fuel fd p) s (λ r s', r = OK ∧ gps_ok s' h ∧ ∃ bs,
    sent (g_os s') = sent (g_os s) ++ bs ∧
    ∀ (s2 : ubgps_s E) text noise, gps_ok s2 [] → nmea_ok (nmea s2) text → Forall byte noise →
      Forall (λ d, d ≠ UBX_SYNC_CHAR_1) noise →
      returns (ubgps_dispatch fn receiver call_ubx call_user (noise ++ bs)) s2 (λ _ s3,
        seen (g_os s3) = seen (g_os s2) ++ [m] ∧ gps_ok s3 [])).
Proof.
  intros Hc Hfn Hr Hav Hok Hfd Hp Hb Hm Hf Ht. pose proof (wf_length _ Hm) as Hl.
  eapply returns_mono; [apply (send_ok fn receiver _ _ Hc Hfn s h fuel fd p m); try done; [by apply wf_sendable|lia]|].
  intros r s' (-> & Hok' & _ & Hs). split_and!; [done|done|]. exists (frame m). split; [done|].
  intros s2 text noise Hok2 Hn2 Hbn Hns. apply dispatch_app.
  eapply returns_mono; [by apply (dispatch_noise fn receiver _ _ Hc Hfn noise s2 text)|].
  intros [] s3 (Hok3 & Hs3 & text3 & Hn3). rewrite app_nil_r in Hs3.
  eapply returns_mono; [apply (dispatch_frame fn receiver _ _ Hc Hfn m Hav Hm (frame m) s3 [] text3); try done|].
  - intros E0. apply frame_length in Hm. rewrite E0 in Hm. simpl in Hm. lia.
  - by apply frame_bytes, Hm.
  - intros [] s4 (Hok4 & Hs4 & _). split; [by rewrite Hs4, Hs3|done].
Qed.

Definition demo_gps_msg : ubgps_s demo_os := set_bufs {[ 500 := Some <$> demo_msg ]} demo_gps.

Lemma demo_gps_msg_ok : gps_ok demo_gps_msg [].
Proof.
  split; [|done|done]. split; try done. unfold blocks. simpl.
  rewrite map_to_list_singleton. split_and!; [|done|].
  - simpl. rewrite NoDup_cons, list_elem_of_singleton. split; [done|apply NoDup_singleton].
  - intros p ->%list_elem_of_singleton. simpl. lia.
Qed.

Lemma ubx_send_receive_roundtrip_witness :
  ∃ s' bs s3, ubx_msg_send 800 801 demo_user 4 3 500 demo_gps_msg = Done (OK, s') ∧ sent (g_os s') = [] ++ bs ∧
    ubgps_dispatch 800 801 demo_ubx demo_user ([0x24; 0x47] ++ bs) demo_gps = Done (tt, s3) ∧
    seen (g_os s3) = [demo_msg].
Proof.
  destruct (returns_elim _ _ _ (ubx_send_receive_roundtrip 800 801 demo_ubx demo_user demo_gps_msg [] 4 3 500 demo_msg
    demo_client ltac:(done) demo_serial demo_available demo_gps_msg_ok ltac:(lia) ltac:(done) eq_refl demo_msg_ok
    ltac:(simpl; lia) ltac:(simpl; lia))) as (r & s' & E1 & -> & _ & bs & Hs & Hrecv).
  destruct (returns_elim _ _ _ (Hrecv demo_gps [] [0x24; 0x47] demo_gps_ok demo_nmea_ok
    ltac:(by repeat (constructor; [by split|])) ltac:(by repeat (constructor; [done|])))) as ([] & s3 & E2 & Hs3 & _).
  exists s', bs, s3. split_and!; assumption.
Defined.

(** A frame in which one byte of the class, the message id or the payload is
    damaged on the way delivers nothing: the checksum finds it.  Nothing is said
    of damage to the length, the sync characters or the checksum itself. *)
Theorem ubx_detects_damage {E} `{OsLaws E} fn receiver call_ubx call_user (s : ubgps_s E) text m (i : nat) d d0 :
  client_ok call_ubx call_user → fn ≠ NULL → available (E:=E) → gps_ok s [] → nmea_ok (nmea s) text →
  wf_msg m → m !! i = Some d0 → i ≠ 2%nat → i ≠ 3%nat → byte d → d ≠ d0 →
  returns (ubgps_dispatch fn receiver call_ubx call_user (<[(2 + i)%nat:=d]> (frame m))) s (λ _ s',
    seen (g_os s') = seen (g_os s)).
Proof.
  intros Hc Hfn Hav Hok Hn Hm Hi H2 H3 Hd Hne. destruct (ubx_checksum 0 0 m) as [a b] eqn:Ec.
  pose proof (lookup_lt_Some _ _ _ Hi) as Hlt.
  assert (Hm' : wf_msg (<[i:=d]> m)).
  { destruct Hm as (Hb & Hl & Hmax). unfold wf_msg, msg_length in *. rewrite length_insert, !list_lookup_insert_ne by done.
    split_and!; [by apply Forall_insert|done|done]. }
  replace (<[(2 + i)%nat:=d]> (frame m)) with ([UBX_SYNC_CHAR_1; UBX_SYNC_CHAR_2] ++ <[i:=d]> m ++ [a; b]).
  2:{ rewrite (frame_alt _ _ _ Ec). simpl. by rewrite insert_app_l. }
  destruct (checksum_bytes m 0 0) as [Ha Hb]; [done..|]. rewrite Ec in Ha, Hb.
  apply (dispatch_damaged fn receiver _ _ Hc Hfn s text (<[i:=d]> m) a b); try done.
  rewrite checksum_sum by done. assert (Ea : a = u8 (0 + foldr Z.add 0 m)) by (by rewrite <-(checksum_sum 0 0), Ec).
  rewrite Ea, insert_take_drop by done. rewrite <-(take_drop_middle m i d0 Hi) at 3. rewrite !foldr_app. simpl.
  assert (Hd0 : byte d0) by (destruct Hm as [Hb0 _]; by eapply Forall_lookup_1 in Hb0).
  set (z := foldr Z.add 0 (drop (S i) m)).
  assert (Hf : ∀ l x, foldr Z.add x l = x + foldr Z.add 0 l).
  { induction l as [|y l IH]; intros x; simpl; [lia|]. rewrite IH. lia. }
  rewrite (Hf (take i m) (d + z)), (Hf (take i m) (d0 + z)). unfold byte, u8 in *. intros Eq. mod_lia.
Qed.

Lemma ubx_detects_damage_witness :
  returns (ubgps_dispatch 800 801 demo_ubx demo_user (<[(2 + 1)%nat:=8]> (frame demo_msg))) demo_gps (λ _ s', d_seen (g_os s') = []).
Proof.
  apply (ubx_detects_damage 800 801 demo_ubx demo_user demo_gps [] demo_msg 1 8 7 demo_client);
    [done|apply demo_available|apply demo_gps_ok|apply demo_nmea_ok|apply demo_msg_ok|done..].
Defined.

(** After any input, when no more bytes come and the receive timer goes
    off, the receiver is back to waiting and delivers the next frame. *)
Theorem ubx_timeout_recovers {E} `{OsLaws E} fn receiver call_ubx call_user (s : ubgps_s E) h text m :
  client_ok call_ubx call_user → fn ≠ NULL → available (E:=E) → gps_ok s h → nmea_ok (nmea s) text → wf_msg m →
  receive_timer_id (ubx_receiver s) ≠ send_timer_id (ubx_receiver s) →
  returns (_ ← ubx_timeout call_ubx (receive_timer_id (ubx_receiver s));
           ubgps_dispatch fn receiver call_ubx call_user (frame m)) s (λ _ s',
    seen (g_os s') = seen (g_os s) ++ [m] ∧ gps_ok s' []).
Proof.
  intros Hc Hfn Hav Hok Hn Hm Hid. apply returns_bind.
  eapply returns_mono; [by apply (timeout_ok call_ubx call_user Hc s h)|].
  intros r s1 (_ & Hq & Hok1). rewrite (proj2 (Z.eqb_neq _ _)), Z.eqb_refl in Hok1 by done. injection Hq as Hs1 Hn1.
  eapply returns_mono; [apply (dispatch_frame fn receiver _ _ Hc Hfn m Hav Hm (frame m) s1 [] text); try done|].
  - intros E0. apply frame_length in Hm. rewrite E0 in Hm. simpl in Hm. lia.
  - by apply frame_bytes, Hm.
  - by rewrite Hn1.
  - intros [] s2 (Hok2 & Hs2 & _). by rewrite Hs2, Hs1.
Qed.

(** The driver after the first synchronization character. *)
Definition demo_gps_sync : ubgps_s demo_os :=
  set_receiver (set_receive_timer 7 (set_state UBX_STATE_MSG_SYNC demo_receiver)) demo_gps.

Lemma ubx_timeout_recovers_witness :
  returns (_ ← ubx_timeout demo_ubx 7; ubgps_dispatch 800 801 demo_ubx demo_user (frame demo_msg)) demo_gps_sync (λ _ s',
    d_seen (g_os s') = [demo_msg] ∧ gps_ok s' []).
Proof.
  apply (ubx_timeout_recovers 800 801 demo_ubx demo_user demo_gps_sync [UBX_SYNC_CHAR_1] [] demo_msg demo_client);
    [done|apply demo_available| |apply demo_nmea_ok|apply demo_msg_ok|done].
  pose proof demo_gps_ok as [[]]. split; [by split|by repeat (constructor; [by split|])|done].
Defined.

(** ** NMEA lines *)

(** nmea_receiver never writes outside the line buffer: a character is
    added to the line, a line end or a full buffer sends the line off and
    starts an empty one. *)
Theorem nmea_receiver_correct {E} `{OsLaws E} call_ubx call_user (s : ubgps_s E) h text d :
  client_ok call_ubx call_user → gps_ok s h → nmea_ok (nmea s) text →
  returns (nmea_receiver call_user d) s (λ r s', r = OK ∧ gps_ok s' h ∧
    nmea_ok (nmea s') (nmea_next (line_size (nmea s)) text d) ∧ line_size (nmea s') = line_size (nmea s)).
Proof.
  intros Hc Hok Hn. eapply returns_mono; [by apply (nmea_receiver_ok call_ubx call_user Hc s h text)|].
  by intros r s' (-> & ? & _ & ? & ?).
Qed.

Lemma nmea_receiver_correct_witness :
  returns (nmea_receiver demo_user 36) demo_gps (λ r s', r = OK ∧ gps_ok s' [] ∧
    nmea_ok (nmea s') (nmea_next 128 [] 36) ∧ line_size (nmea s') = 128).
Proof. apply (nmea_receiver_correct demo_ubx demo_user demo_gps [] [] 36 demo_client demo_gps_ok demo_nmea_ok). Defined.

(** ** Timers *)

(** A time in nanoseconds; a time as clock_gettime returns it. *)
Definition nanos (t : Z * Z) : Z := t.1 * 10 ^ 9 + t.2.
Definition clock_time (t : Z * Z) : Prop := 0 ≤ t.1 ∧ 0 ≤ t.2 < 10 ^ 9.

(** A timer set for [timeout] milliseconds has expired at every time from
    the timeout on, and at no time a millisecond or more before it. *)
Theorem gps_timer_precision {E} `{Os E} call_user (s : ubgps_s E) timeout cb pr p t0 e1 e2 :
  cb ≠ NULL → 0 ≤ timeout → clock_time t0 → t0.1 + timeout / 1000 < 2 ^ 32 →
  calloc 1 SIZEOF_TIMER (g_os s) = Done (p, e1) → p ≠ NULL → clock_gettime e1 = Done (t0, e2) →
  Z.land (callback_event_mask s) (event_id NewTimer) = 0 →
  returns (__ubgps_set_timer call_user timeout cb pr) s (λ id s', ∃ t, timers s' = timers s ++ [t] ∧
    t_callback t = cb ∧ t_id t = id ∧ ∀ now, clock_time now →
      (nanos t0 + timeout * 10 ^ 6 ≤ nanos now → msec_diff (t_alarm t) now ≤ 0) ∧
      (nanos now + 10 ^ 6 ≤ nanos t0 + timeout * 10 ^ 6 → 0 < msec_diff (t_alarm t) now)).
Proof.
  intros Hcb Ht [Hs0 Hn0] Hov Hcal Hp Hclk Hmask. destruct t0 as [sec nsec]. simpl in *.
  unfold __ubgps_set_timer. apply returns_bind, returns_assert; [unfold nonnull; lia|].
  apply returns_bind, returns_zoom. eapply returns_intro; [exact Hcal|]. unfold nonnull.
  rewrite (proj2 (Z.eqb_neq p 0)) by done. cbn [negb]. apply returns_bind, returns_zoom.
  eapply returns_intro; [exact Hclk|]. apply returns_bind, add_timeout_loop; [done|].
  apply returns_bind, returns_gets, returns_bind, returns_modify, returns_bind.
  unfold ubgps_publish_event. apply returns_bind, returns_gets. simpl. rewrite Hmask. simpl. apply returns_ret, returns_ret.
  eexists. split_and!; [done|done|done|]. intros [nsec' nnsec'] [Hs1 Hn1]. simpl in *.
  replace (if timeout / 1000 =? 0 then sec else u32 (sec + timeout / 1000)) with (sec + timeout / 1000)
    by (destruct (Z.eqb_spec (timeout / 1000) 0); [lia|rewrite u32_small; [done|mod_lia]]).
  rewrite s32_small by mod_lia. unfold msec_diff, nanos. simpl.
  pose proof (Z.quot_rem' (nsec + timeout `mod` 1000 * 1000000 - nnsec') (1000 * 1000)).
  pose proof (Z.rem_bound_abs (nsec + timeout `mod` 1000 * 1000000 - nnsec') (1000 * 1000) ltac:(lia)).
  set (q := Z.quot _ _) in *. set (r := Z.rem _ _) in *. pose proof (Z.div_mod timeout 1000 ltac:(lia)).
  split; intros; lia.
Qed.

Lemma gps_timer_precision_witness :
  returns (__ubgps_set_timer demo_user 300 800 801) demo_gps (λ id s', ∃ t, timers s' = [t] ∧
    t_callback t = 800 ∧ t_id t = id ∧ ∀ now, clock_time now →
      (nanos (50, 7) + 300 * 10 ^ 6 ≤ nanos now → msec_diff (t_alarm t) now ≤ 0) ∧
      (nanos now + 10 ^ 6 ≤ nanos (50, 7) + 300 * 10 ^ 6 → 0 < msec_diff (t_alarm t) now)).
Proof.
  apply (gps_timer_precision demo_user demo_gps 300 800 801 1000 (50, 7) (DemoOs 1001 (50, 7) [] [] (0, 0)) (DemoOs 1001 (50, 7) [] [] (0, 0)));
    [done|lia|split; simpl; lia|done|done|done|done|done].
Defined.

(** ** The driver on the heap *)

(** An application that logs the messages. *)
Definition log_ubx (cb pr : Z) (m : bytes) (t : bool) : M (ubgps_s world) Z :=
  (if t then mret tt else modify (λ s, set_os (add_received m (g_os s)) s));; mret OK.
Definition log_user (cb : Z) (ev : gps_event) (pr : Z) : M (ubgps_s world) unit := mret tt.

Lemma log_client nodelist lo hi my_pid Hlay Hpid :
  @client_ok world (heap_os nodelist my_pid) (heap_os_laws nodelist lo hi my_pid Hlay Hpid) log_ubx log_user.
Proof.
  split.
  - intros cb pr m [] s h Hok; apply returns_bind; [by apply returns_ret; split; [left|]|].
    apply returns_modify, returns_ret. split; [|done]. left. apply gps_ok_os; [|done].
    exact (live_owned _ (ok_live _ _ Hok)).
  - by intros cb ev pr s h Hok.
Qed.

(** C25: the driver on top of the memory manager: whatever bytes come in, the
    heap is well-formed afterwards, every block the driver holds is a live
    block of the heap, and the application has received frames of the input. *)
Theorem gps_on_heap nodelist lo hi my_pid fn receiver (s : ubgps_s world) text bs Hlay Hpid :
  fn ≠ NULL → @gps_ok world (heap_os nodelist my_pid) (heap_os_laws nodelist lo hi my_pid Hlay Hpid) s [] →
  nmea_ok (nmea s) text → Forall byte bs →
  returns (@ubgps_dispatch world (heap_os nodelist my_pid) fn receiver log_ubx log_user bs) s (λ _ s',
    ∃ ms h', w_received (g_os s') = w_received (g_os s) ++ ms ∧ explained bs ms h' ∧
    ∃ cs, state_ok nodelist lo hi (w_heap (g_os s')) cs ∧
      ∀ b, b ∈ blocks s' → ∃ c, MmSpec.live lo hi cs c ∧ b = c_addr c + 8).
Proof.
  intros Hfn Hok Hn Hbs.
  eapply returns_mono; [by apply (dispatch_sound fn receiver _ _ (log_client nodelist lo hi my_pid Hlay Hpid) Hfn bs s [] text)|].
  intros [] s' (ms & h' & (Hok' & Hs & _) & He). exists ms, h'. split_and!; [done|done|].
  destruct (live_owned _ (ok_live _ _ Hok')) as (_ & _ & Hc). exact Hc.
Qed.

Definition demo_world : world := World demo_heap (50, 7) [] [] [] 0 0.
Definition demo_heap_gps : ubgps_s world :=
  Gps demo_receiver [] 0 ∅ 0 [] (Nmea (Some (replicate 128 None)) 128 0) 3 false demo_world.

Lemma demo_heap_gps_ok Hlay Hpid :
  @gps_ok world (heap_os 4096 3) (heap_os_laws 4096 4400 4656 3 Hlay Hpid) demo_heap_gps [].
Proof.
  split; [|done|done]. split; try done. split_and!; [|apply demo_lock|].
  - apply NoDup_cons. split; [set_solver|constructor].
  - eexists. split; [apply (proj1 demo_ok)|set_solver].
Qed.

Lemma gps_on_heap_witness :
  ∃ s', @ubgps_dispatch world (heap_os 4096 3) 800 801 log_ubx log_user (frame demo_msg) demo_heap_gps = Done (tt, s') ∧
    ∃ ms h', w_received (g_os s') = [] ++ ms ∧ explained (frame demo_msg) ms h'.
Proof.
  destruct (returns_elim _ _ _ (gps_on_heap 4096 4400 4656 3 800 801 demo_heap_gps [] (frame demo_msg) demo_layout
    ltac:(lia) ltac:(done) (demo_heap_gps_ok _ _) demo_nmea_ok (frame_bytes _ (proj1 demo_msg_ok)))) as ([] & s' & E1 & ms & h' & Hs & He & _).
  exists s'. split; [exact E1|]. exists ms, h'. split; assumption.
Defined.
