(* ===== verification/Sms.v ===== *)
(** Short messages of the u-blox modem driver,
    apps/system/ubmodem/ubmodem_pdu_util.c: text messages and phone numbers as
    protocol data units (PDUs), in hexadecimal, with long messages in parts.

    Strings and buffers are lists of bytes; a buffer from malloc is a list whose
    bytes are unknown ([None]) until they are written. *)

From S2P Require Import Prelude.

Definition ENOMEM : Z := 12.
Definition EINVAL : Z := 22.

Definition UTF8_ACCEPT : Z := 0.
Definition UTF8_REJECT : Z := 1.

Definition utf8d : list Z := [
  0;0;0;0;0;0;0;0;0;0;0;0;0;0;0;0;0;0;0;0;0;0;0;0;0;0;0;0;0;0;0;0; (* 00..1f *)
  0;0;0;0;0;0;0;0;0;0;0;0;0;0;0;0;0;0;0;0;0;0;0;0;0;0;0;0;0;0;0;0; (* 20..3f *)
  0;0;0;0;0;0;0;0;0;0;0;0;0;0;0;0;0;0;0;0;0;0;0;0;0;0;0;0;0;0;0;0; (* 40..5f *)
  0;0;0;0;0;0;0;0;0;0;0;0;0;0;0;0;0;0;0;0;0;0;0;0;0;0;0;0;0;0;0;0; (* 60..7f *)
  1;1;1;1;1;1;1;1;1;1;1;1;1;1;1;1;9;9;9;9;9;9;9;9;9;9;9;9;9;9;9;9; (* 80..9f *)
  7;7;7;7;7;7;7;7;7;7;7;7;7;7;7;7;7;7;7;7;7;7;7;7;7;7;7;7;7;7;7;7; (* a0..bf *)
  8;8;2;2;2;2;2;2;2;2;2;2;2;2;2;2;2;2;2;2;2;2;2;2;2;2;2;2;2;2;2;2; (* c0..df *)
  0xa;0x3;0x3;0x3;0x3;0x3;0x3;0x3;0x3;0x3;0x3;0x3;0x3;0x4;0x3;0x3; (* e0..ef *)
  0xb;0x6;0x6;0x6;0x5;0x8;0x8;0x8;0x8;0x8;0x8;0x8;0x8;0x8;0x8;0x8; (* f0..ff *)
  0x0;0x1;0x2;0x3;0x5;0x8;0x7;0x1;0x1;0x1;0x4;0x6;0x1;0x1;0x1;0x1; (* s0..s0 *)
  1;1;1;1;1;1;1;1;1;1;1;1;1;1;1;1;1;0;1;1;1;1;1;0;1;0;1;1;1;1;1;1; (* s1..s2 *)
  1;2;1;1;1;1;1;2;1;2;1;1;1;1;1;1;1;1;1;1;1;1;1;2;1;1;1;1;1;1;1;1; (* s3..s4 *)
  1;2;1;1;1;1;1;1;1;2;1;1;1;1;1;1;1;1;1;1;1;1;1;3;1;3;1;1;1;1;1;1; (* s5..s6 *)
  1;3;1;1;1;1;1;3;1;3;1;1;1;1;1;1;1;3;1;1;1;1;1;1;1;1;1;1;1;1;1;1 (* s7..s8 *)
].

(** What is decoded: a code point and what follows it, an error, or the
    beginning of a character at the end of the input. *)
Inductive utf8_result :=
| Accept (codep : Z) (rest : list Z)
| Reject
| Truncated.

(** The iterator over the parts of a long message. *)
Record multipdu_iter_s := MkIter {
  msg_pos : Z;
  part_pos : Z;
  part_count : Z;
  ref_num : Z;
}.

Section Sms.
Context {S : Type}.
Variable malloc : Z → M S Z.
Variable free : Z → M S unit.

(** Reading a byte of a string or table, and writing one into a buffer. *)
Definition at_ (l : list Z) (i : Z) : M S Z := λ s,
  if 0 <=? i then match l !! Z.to_nat i with Some v => Done (v, s) | None => Fault end else Fault.
Definition put (b : list (option Z)) (i v : Z) : M S (list (option Z)) := λ s,
  if (0 <=? i) && (i <? zlength b) then Done (<[Z.to_nat i:=Some v]> b, s) else Fault.
Definition buffer (n : Z) : list (option Z) := replicate (Z.to_nat n) None.

(** * UTF-8 *)

(** The next state and the code point so far. *)
Definition decode (state codep byte : Z) : M S (Z * Z) :=
  type ← at_ utf8d byte;
  let codep := if negb (state =? UTF8_ACCEPT)
    then Z.lor (Z.land byte 0x3f) (u32 (Z.shiftl codep 6))
    else Z.land (Z.shiftr 0xff type) byte in
  state ← at_ utf8d (256 + state * 16 + type);
  mret (state, codep).

Fixpoint utf8_decode_loop (bytes : list Z) (state codep : Z) : M S utf8_result :=
  match bytes with
  | [] => mret Truncated
  | b :: bytes =>
      r ← decode state codep b;
      let '(state, codep) := r in
      if state =? UTF8_ACCEPT then mret (Accept codep bytes)
      else if state =? UTF8_REJECT then mret Reject
      else utf8_decode_loop bytes state codep
  end.

(** The result and the new offset. *)
Definition utf8_decode (buf : list Z) (offset : Z) : M S (Z * Z) :=
  if zlength buf <=? offset then mret (0, offset)
  else
    r ← utf8_decode_loop (drop (Z.to_nat offset) buf) UTF8_ACCEPT 0;
    match r with
    | Accept codep rest => mret (s32 codep, zlength buf - zlength rest)
    | Reject => mret (-1, offset + 1)
    | Truncated => mret (-1, zlength buf)
    end.

Definition ucs2_encode (codep : Z) : Z :=
  if (0 <=? codep) && (codep <=? 0xd7ff) then u16 codep
  else if (0xe000 <=? codep) && (codep <=? 0xffff) then u16 codep
  else 0xfffd.

Definition num_code_points_body (buf : list Z) (stop_at_null : bool) (r : Z * Z) : M S (Z * Z + Z) :=
  let '(pos, count) := r in
  if pos =? zlength buf then mret (inr count)
  else
    d ← utf8_decode buf pos;
    let '(codep, pos) := d in
    if stop_at_null && (codep =? 0) then mret (inr count)
    else mret (inl (pos, count + 1)).

Definition utf8_num_code_points (buf : list Z) (stop_at_null : bool) : M S Z :=
  loop (length buf + 2) (num_code_points_body buf stop_at_null) (0, 0).

(** [out] holds 16-bit numbers; the count and the new offset come with it. *)
Fixpoint utf8_to_ucs2_loop (outcount : nat) (out : list (option Z)) (inbuf : list Z) (inoffset count : Z)
    : M S (list (option Z) * Z * Z) :=
  match outcount with
  | O => mret (out, count, inoffset)
  | Datatypes.S outcount =>
      d ← utf8_decode inbuf inoffset;
      let '(codep, inoffset) := d in
      if codep =? 0 then mret (out, count, inoffset)
      else
        out ← put out count (ucs2_encode codep);
        utf8_to_ucs2_loop outcount out inbuf inoffset (count + 1)
  end.

Definition utf8_to_ucs2 (out : list (option Z)) (outcount : Z) (inbuf : list Z) (inoffset : Z)
    : M S (list (option Z) * Z * Z) :=
  if zlength inbuf <=? inoffset then mret (out, 0, inoffset)
  else utf8_to_ucs2_loop (Z.to_nat outcount) out inbuf inoffset 0.

(** The CPU is little-endian. *)
Definition htons (x : Z) : Z := Z.lor (Z.shiftl (Z.land x 0xff) 8) (Z.shiftr x 8).
Definition bytes_of_u16 (x : Z) : list Z := [Z.land x 0xff; Z.shiftr x 8].

(** The bytes of a buffer, all of which are known. *)
Definition contents (b : list (option Z)) : M S (list Z) := λ s,
  match mapM id b with Some l => Done (l, s) | None => Fault end.

(** The return value, and the new buffer with its contents if there is one. *)
Definition utf8_to_pdu (message : list Z) : M S (Z * option (Z * list Z)) :=
  let mesglen := zlength message in
  mesgchars ← utf8_num_code_points message true;
  ucs2 ← malloc (u32 (2 * mesgchars));
  if negb (nonnull ucs2) then mret (- ENOMEM, None)
  else
    r ← utf8_to_ucs2 (buffer mesgchars) mesgchars message 0;
    let '(out, ucs2len, pos) := r in
    if negb (ucs2len =? mesgchars) || negb (pos =? mesglen) then
      free ucs2;;
      mret (- EINVAL, None)
    else
      l ← contents (take (Z.to_nat ucs2len) out);
      mret (ucs2len * 2, Some (ucs2, flat_map (λ x, bytes_of_u16 (htons x)) l)).

(** * Phone numbers *)

Definition isspace (c : Z) : bool :=
  (c =? 32) || (c =? 9) || (c =? 10) || (c =? 13) || (c =? 12) || (c =? 11).
Definition skipped (c : Z) : bool := isspace c || (c =? 45).

(** The number of digits; [None] when there is another character. *)
Fixpoint address_check (chars : list Z) (numcount : Z) : option Z :=
  match chars with
  | [] => Some numcount
  | c :: chars =>
      if skipped c then address_check chars numcount
      else if (c <? 48) || (57 <? c) then None
      else address_check chars (numcount + 1)
  end.

(** Two digits to a byte, the first one in the low half. *)
Fixpoint address_fill (chars : list Z) (pdu : list (option Z)) (pos prev currnum : Z)
    : M S (list (option Z) * Z * Z) :=
  match chars with
  | [] => mret (pdu, pos, prev)
  | c :: chars =>
      if skipped c then address_fill chars pdu pos prev currnum
      else if Z.land currnum 1 =? 0 then address_fill chars pdu pos (u8 (c - 48)) (currnum + 1)
      else
        pdu ← put pdu pos (u8 (Z.lor (Z.shiftl (c - 48) 4) prev));
        address_fill chars pdu (pos + 1) prev (currnum + 1)
  end.

(** The digit that is left over has 15 beside it. *)
Definition address_filler (numcount : Z) (r : list (option Z) * Z * Z) : M S (list (option Z) * Z) :=
  let '(pdu, pos, prev) := r in
  if Z.land numcount 1 =? 1 then
    pdu ← put pdu pos (u8 (Z.lor (Z.shiftl 0xf 4) prev));
    mret (pdu, pos + 1)
  else mret (pdu, pos).

Definition address_to_pdu (address : list Z) : M S (Z * option (Z * list Z)) :=
  let addrlen := zlength address in
  if addrlen =? 0 then mret (0, None)
  else
    first ← at_ address 0;
    let is_inter := first =? 43 in
    let chars := drop (if is_inter then 1 else 0) address in
    match address_check chars 0 with
    | None => mret (-1, None)
    | Some numcount =>
        let pdulen := 1 + (numcount + 1) `quot` 2 in
        p ← malloc pdulen;
        if negb (nonnull p) then mret (- ENOMEM, None)
        else
          pdu ← put (buffer pdulen) 0 (if is_inter then 0x91 else 0x81);
          r ← address_fill chars pdu 1 0 0;
          w ← address_filler numcount r;
          let '(pdu, pos) := w in
          assert (pos =? pdulen);;
          l ← contents pdu;
          mret (pdulen, Some (p, l))
    end.

(** * The PDU of a message, in hexadecimal *)

(** Whether the message fits, and the iterator. *)
Definition multipart_iterator_init (iter : multipdu_iter_s) (msg_pdulen ref : Z) : bool * multipdu_iter_s :=
  let count :=
    if msg_pdulen <=? 70 * 2 then 1
    else msg_pdulen `quot` (67 * 2) + (if msg_pdulen `rem` (67 * 2) =? 0 then 0 else 1) in
  if 0xff <? count then (false, iter)
  else (true, MkIter 0 0 (u8 count) ref).

Definition tohex (value : Z) : Z := value + (if 9 <? value then 65 - 10 else 48).

(** The buffer, which is NULL while the length is computed, and the position. *)
Definition push_pdu_char (w : option (list (option Z)) * Z) (value : Z) : M S (option (list (option Z)) * Z) :=
  let '(pdubuf, pos) := w in
  let value := u8 value in
  match pdubuf with
  | Some pdu =>
      pdu ← put pdu pos (u8 (tohex (Z.land (Z.shiftr value 4) 0xf)));
      pdu ← put pdu (pos + 1) (u8 (tohex (Z.land value 0xf)));
      mret (Some pdu, pos + 2)
  | None => mret (None, pos + 2)
  end.

(** The loops over the [n] bytes of a PDU from the [i]-th. *)
Fixpoint push_bytes (w : option (list (option Z)) * Z) (l : list Z) (i : Z) (n : nat)
    : M S (option (list (option Z)) * Z) :=
  match n with
  | O => mret w
  | Datatypes.S n =>
      v ← at_ l i;
      w ← push_pdu_char w v;
      push_bytes w l (i + 1) n
  end.

Definition push_pdu (pdu : option (list (option Z))) (recv_pdu msg_pdu : list Z) (msg_pdulen pduflags : Z)
    (multipart : bool) (iter : multipdu_iter_s) : M S (option (list (option Z)) * Z) :=
  let recv_pdulen := zlength recv_pdu in
  w ← push_pdu_char (pdu, 0) 0x00;
  w ← push_pdu_char w pduflags;
  w ← push_pdu_char w 0x00;
  w ← push_pdu_char w ((recv_pdulen - 1) * 2);
  w ← push_bytes w recv_pdu 0 (Z.to_nat recv_pdulen);
  w ← push_pdu_char w 0x00;
  w ← push_pdu_char w 0x08;
  w ← (if multipart then
         w ← push_pdu_char w (msg_pdulen + 6);
         w ← push_pdu_char w 0x05;
         w ← push_pdu_char w 0x00;
         w ← push_pdu_char w 0x03;
         w ← push_pdu_char w (ref_num iter);
         w ← push_pdu_char w (part_count iter);
         push_pdu_char w (part_pos iter + 1)
       else push_pdu_char w msg_pdulen);
  push_bytes w msg_pdu 0 (Z.to_nat msg_pdulen).

(** The return value, the new buffer with its string if there is one, and the
    iterator. Where the result is 0 the pointer to the buffer becomes NULL. *)
Definition prepare_pdu_string (recv_pdu msg_pdu : list Z) (iter : multipdu_iter_s)
    : M S (Z * option (Z * list Z) * multipdu_iter_s) :=
  let multipart := 1 <? part_count iter in
  let msg_pdulen := u32 (zlength msg_pdu - msg_pos iter) in
  let msg_pdu := drop (Z.to_nat (msg_pos iter)) msg_pdu in
  let msg_pdulen := if multipart && (67 * 2 <? msg_pdulen) then 67 * 2 else msg_pdulen in
  if msg_pdulen =? 0 then mret (0, None, iter)
  else if part_pos iter =? part_count iter then mret (0, None, iter)
  else
    let pduflags := if multipart then Z.lor 0x01 0x40 else 0x01 in
    w ← push_pdu None recv_pdu msg_pdu msg_pdulen pduflags multipart iter;
    let pdulen := w.2 in
    p ← malloc (u32 (pdulen + 1));
    if negb (nonnull p) then mret (- ENOMEM, None, iter)
    else
      w ← push_pdu (Some (buffer (pdulen + 1))) recv_pdu msg_pdu msg_pdulen pduflags multipart iter;
      match w with
      | (Some pdu, pos) =>
          pdu ← put pdu pos 0;
          l ← contents pdu;
          mret (pdulen, Some (p, l),
            MkIter (u32 (msg_pos iter + msg_pdulen)) (u8 (part_pos iter + 1)) (part_count iter) (ref_num iter))
      | (None, _) => λ _, Fault
      end.

Definition fromhex (hex0 hex1 : Z) : Z :=
  let num0 := u8 (hex0 - (if 57 <? hex0 then 65 - 10 else 48)) in
  let num1 := u8 (hex1 - (if 57 <? hex1 then 65 - 10 else 48)) in
  u8 (Z.shiftl num0 4 + num1).

Definition get_pdu_smsc_len (pduhex : list Z) : M S Z :=
  a ← at_ pduhex 0;
  b ← at_ pduhex 1;
  mret (1 + fromhex a b).
End Sms.
