(* ===== verification/SmsUtf8.v ===== *)
(** UTF-8 and UCS-2: what the decoder of Sms.v accepts. *)

From stdpp Require Import functions.
From S2P Require Import Prelude Sms.

(** * The encoding of Unicode, in the standard's words *)

(** The scalar values: the code points that are not surrogates. *)
Definition scalar (c : Z) : Prop := 0 ≤ c < 0xd800 ∨ 0xe000 ≤ c < 0x110000.

Definition utf8_encode (c : Z) : list Z :=
  if c <? 0x80 then [c]
  else if c <? 0x800 then [0xc0 + c / 64; 0x80 + c `mod` 64]
  else if c <? 0x10000 then [0xe0 + c / 4096; 0x80 + (c / 64) `mod` 64; 0x80 + c `mod` 64]
  else [0xf0 + c / 262144; 0x80 + (c / 4096) `mod` 64; 0x80 + (c / 64) `mod` 64; 0x80 + c `mod` 64].

(** The well-formed byte sequences (table 3-7 of the standard): the bits of the
    first byte, and the ranges of the bytes that follow it. *)
Definition tail_range : Z * Z := (0x80, 0xbf).

Definition first_byte (b : Z) : option (Z * list (Z * Z)) :=
  if b <=? 0x7f then Some (b, [])
  else if b <? 0xc2 then None
  else if b <=? 0xdf then Some (b - 0xc0, [tail_range])
  else if b =? 0xe0 then Some (0, [(0xa0, 0xbf); tail_range])
  else if b =? 0xed then Some (13, [(0x80, 0x9f); tail_range])
  else if b <=? 0xef then Some (b - 0xe0, [tail_range; tail_range])
  else if b =? 0xf0 then Some (0, [(0x90, 0xbf); tail_range; tail_range])
  else if b <=? 0xf3 then Some (b - 0xf0, [tail_range; tail_range; tail_range])
  else if b =? 0xf4 then Some (4, [(0x80, 0x8f); tail_range; tail_range])
  else None.

Fixpoint ref_tails (codep : Z) (ranges : list (Z * Z)) (l : list Z) : utf8_result :=
  match ranges, l with
  | [], _ => Accept codep l
  | _ :: _, [] => Truncated
  | (lo, hi) :: ranges, b :: l =>
      if (lo <=? b) && (b <=? hi) then ref_tails (codep * 64 + (b - 0x80)) ranges l else Reject
  end.

Definition utf8_ref (l : list Z) : utf8_result :=
  match l with
  | [] => Truncated
  | b :: l =>
      match first_byte b with
      | Some (codep, ranges) => ref_tails codep ranges l
      | None => Reject
      end
  end.

Definition byte (b : Z) : Prop := 0 ≤ b < 256.

(** * The reference decoder inverts the encoding *)

Ltac zbool := repeat match goal with
  | H : _ && _ = true |- _ => apply andb_prop in H as [? ?]
  | H : context [if ?b then _ else _] |- _ => let E := fresh "E" in destruct b eqn:E
  | |- context [if ?b then _ else _] => let E := fresh "E" in destruct b eqn:E
  | H : (_ <=? _) = _ |- _ => (apply Z.leb_le in H || apply Z.leb_gt in H)
  | H : (_ <? _) = _ |- _ => (apply Z.ltb_lt in H || apply Z.ltb_ge in H)
  | H : (_ =? _) = _ |- _ => (apply Z.eqb_eq in H || apply Z.eqb_neq in H)
  end.

Lemma in_range lo hi b : lo ≤ b ≤ hi → (lo <=? b) && (b <=? hi) = true.
Proof. lia. Qed.

(** The first byte of an encoding, with the ranges that hold the others. *)
Lemma utf8_ref_encode c l : scalar c → utf8_ref (utf8_encode c ++ l) = Accept c l.
Proof.
  unfold scalar, utf8_encode. intros Hc.
  destruct (c <? 0x80) eqn:E1; [|destruct (c <? 0x800) eqn:E2; [|destruct (c <? 0x10000) eqn:E3]];
    zbool; simpl; unfold first_byte, tail_range.
  - zbool; [done|lia..].
  - zbool; simpl; try mod_lia. rewrite in_range by mod_lia. f_equal. mod_lia.
  - zbool; simpl; try mod_lia; (rewrite in_range by mod_lia); simpl; (rewrite in_range by mod_lia); f_equal; mod_lia.
  - zbool; simpl; try mod_lia; (rewrite in_range by mod_lia); simpl; (rewrite in_range by mod_lia); simpl;
      (rewrite in_range by mod_lia); f_equal; mod_lia.
Qed.

Lemma ref_tails_accept cp lo hi rs l c rest :
  ref_tails cp ((lo, hi) :: rs) l = Accept c rest →
  ∃ b l', l = b :: l' ∧ lo ≤ b ≤ hi ∧ ref_tails (cp * 64 + (b - 0x80)) rs l' = Accept c rest.
Proof.
  destruct l as [|b l]; [done|]. simpl. destruct (_ && _) eqn:E; [|done]. intros H. exists b, l. zbool. by split_and!.
Qed.

Lemma ref_tails_nil cp l c rest : ref_tails cp [] l = Accept c rest → c = cp ∧ rest = l.
Proof. by intros [= -> ->]. Qed.

Ltac next_tail H :=
  apply ref_tails_accept in H as (? & ? & -> & ? & H).

Lemma utf8_encode1 c : 0 ≤ c < 0x80 → utf8_encode c = [c].
Proof. unfold utf8_encode. intros ?. zbool; [done|lia..]. Qed.
Lemma utf8_encode2 b x : 0xc2 ≤ b ≤ 0xdf → 0x80 ≤ x ≤ 0xbf → utf8_encode ((b - 0xc0) * 64 + (x - 0x80)) = [b; x].
Proof. unfold utf8_encode. intros ??. zbool; [lia|repeat f_equal; mod_lia|lia..]. Qed.
Lemma utf8_encode3 b x y : 0xe0 ≤ b ≤ 0xef → 0x80 ≤ x ≤ 0xbf → 0x80 ≤ y ≤ 0xbf → (b = 0xe0 → 0xa0 ≤ x) →
  utf8_encode (((b - 0xe0) * 64 + (x - 0x80)) * 64 + (y - 0x80)) = [b; x; y].
Proof. unfold utf8_encode. intros ????. zbool; [lia|lia|repeat f_equal; mod_lia|lia]. Qed.
Lemma utf8_encode4 b x y z : 0xf0 ≤ b ≤ 0xf4 → 0x80 ≤ x ≤ 0xbf → 0x80 ≤ y ≤ 0xbf → 0x80 ≤ z ≤ 0xbf → (b = 0xf0 → 0x90 ≤ x) →
  utf8_encode ((((b - 0xf0) * 64 + (x - 0x80)) * 64 + (y - 0x80)) * 64 + (z - 0x80)) = [b; x; y; z].
Proof. unfold utf8_encode. intros ?????. zbool; [lia|lia|lia|repeat f_equal; mod_lia]. Qed.

Lemma utf8_ref_accept l c rest : Forall byte l → utf8_ref l = Accept c rest → scalar c ∧ l = utf8_encode c ++ rest.
Proof.
  destruct l as [|b l]; [done|]. intros Hb. apply Forall_cons in Hb as [Hb _]. unfold byte in Hb.
  unfold utf8_ref, first_byte, tail_range, scalar. intros H. zbool; try done; repeat next_tail H;
    apply ref_tails_nil in H as [-> ->]; (split; [lia|]).
  - by rewrite utf8_encode1 by lia.
  - by rewrite utf8_encode2 by lia.
  - subst. by rewrite (utf8_encode3 0xe0) by lia.
  - subst. by rewrite (utf8_encode3 0xed) by lia.
  - by rewrite utf8_encode3 by lia.
  - subst. by rewrite (utf8_encode4 0xf0) by lia.
  - by rewrite utf8_encode4 by lia.
  - subst. by rewrite (utf8_encode4 0xf4) by lia.
Qed.

(** A character that is cut short can be completed, and only such one is truncated. *)
Lemma ref_tails_truncated cp rs l :
  Forall (λ r, r.1 ≤ r.2 ∧ byte r.1) rs → ref_tails cp rs l = Truncated →
  ∃ t c, t ≠ [] ∧ Forall byte t ∧ ref_tails cp rs (l ++ t) = Accept c [].
Proof.
  revert cp l. induction rs as [|[lo hi] rs IH]; intros cp l Hrs; [done|].
  apply Forall_cons in Hrs as [[Hlo Hby] Hrs]. simpl in Hlo, Hby. destruct l as [|b l]; simpl.
  - intros _. clear IH. exists (lo :: rs.*1). revert cp lo hi Hlo Hby.
    induction Hrs as [|[lo' hi'] rs [Hlo' Hby'] _ IH]; intros cp lo hi Hlo Hby; rewrite in_range by lia.
    + eexists. split_and!; [done|by apply Forall_singleton|done].
    + destruct (IH (cp * 64 + (lo - 0x80)) lo' hi') as (c & _ & Hf & Hc); [done..|].
      exists c. split_and!; [done|by constructor|done].
  - destruct (_ && _) eqn:E; [|done]. intros H. apply IH; done.
Qed.

Lemma ref_tails_prefix cp rs l t c : t ≠ [] → ref_tails cp rs (l ++ t) = Accept c [] → ref_tails cp rs l = Truncated.
Proof.
  intros Ht. revert cp l. induction rs as [|[lo hi] rs IH]; intros cp l; simpl.
  - intros [= _ H]. by apply app_eq_nil in H as [_ ->].
  - destruct l as [|b l]; [done|]. simpl. destruct (_ && _); [|done]. apply IH.
Qed.

Lemma first_byte_ranges b cp rs : first_byte b = Some (cp, rs) → Forall (λ r, r.1 ≤ r.2 ∧ byte r.1) rs.
Proof. unfold first_byte, tail_range, byte. intros H. zbool; simplify_eq; repeat constructor; simpl; lia. Qed.

Lemma utf8_ref_truncated l : Forall byte l →
  utf8_ref l = Truncated ↔ ∃ c t, scalar c ∧ t ≠ [] ∧ utf8_encode c = l ++ t.
Proof.
  intros Hl. split.
  - intros H. assert (∃ t c, t ≠ [] ∧ Forall byte t ∧ utf8_ref (l ++ t) = Accept c []) as (t & c & Ht & Hb & Ha).
    { destruct l as [|b l]; simpl in *.
      - exists [0], 0. split_and!; [done|by repeat constructor|done].
      - destruct (first_byte b) as [[cp rs]|] eqn:E; [|done].
        apply ref_tails_truncated; [by eapply first_byte_ranges|done]. }
    apply utf8_ref_accept in Ha as [Hc Ha]; [|by apply Forall_app]. exists c, t. by rewrite app_nil_r in Ha.
  - intros (c & t & Hc & Ht & E). pose proof (utf8_ref_encode c [] Hc) as H. rewrite app_nil_r, E in H.
    destruct l as [|b l]; [done|]. simpl in *. destruct (first_byte b) as [[cp rs]|]; [|done].
    by eapply ref_tails_prefix.
Qed.

(** * The automaton of the code is the reference decoder *)

Definition table (i : Z) : Z := default 0 (utf8d !! Z.to_nat i).

(** What a state of the automaton still expects. *)
Definition state_ranges (state : Z) : list (Z * Z) :=
  if state =? 2 then [tail_range]
  else if state =? 3 then [tail_range; tail_range]
  else if state =? 4 then [(0xa0, 0xbf); tail_range]
  else if state =? 5 then [(0x80, 0x9f); tail_range]
  else if state =? 6 then [(0x90, 0xbf); tail_range; tail_range]
  else if state =? 7 then [tail_range; tail_range; tail_range]
  else if state =? 8 then [(0x80, 0x8f); tail_range; tail_range]
  else [].

Definition next_state (state b : Z) : Z := table (256 + state * 16 + table b).

(** The table's entries for the first byte of a character. *)
Definition start_ok (b : Z) : bool :=
  match first_byte b with
  | Some (cp, rs) =>
      let st := next_state 0 b in
      bool_decide (state_ranges st = rs) && (Z.land (Z.shiftr 0xff (table b)) b =? cp)
        && negb (st =? 1) && (st <=? 8) && ((st =? 0) || (2 <=? st)) && Bool.eqb (st =? 0) (bool_decide (rs = []))
  | None => next_state 0 b =? 1
  end.

(** ... and for the other bytes. *)
Definition tail_ok (st b : Z) : bool :=
  match state_ranges st with
  | (lo, hi) :: rs =>
      let st' := next_state st b in
      if (lo <=? b) && (b <=? hi) then
        bool_decide (state_ranges st' = rs) && (Z.land b 0x3f =? b - 0x80)
          && ((st' =? 0) || (2 <=? st')) && (st' <=? 8) && Bool.eqb (st' =? 0) (bool_decide (rs = []))
      else st' =? 1
  | [] => false
  end.

Lemma start_table b : byte b → start_ok b = true.
Proof.
  intros Hb. unfold byte in Hb. assert (H : forallb start_ok (seqZ 0 256) = true) by by vm_compute.
  rewrite forallb_forall in H. apply H, list_elem_of_In, elem_of_seqZ. lia.
Qed.

Lemma tail_table st b : 2 ≤ st ≤ 8 → byte b → tail_ok st b = true.
Proof.
  intros Hst Hb. unfold byte in Hb.
  assert (H : forallb (λ st, forallb (tail_ok st) (seqZ 0 256)) (seqZ 2 7) = true) by by vm_compute.
  rewrite forallb_forall in H. specialize (H st). rewrite forallb_forall in H.
  apply H; apply list_elem_of_In, elem_of_seqZ; lia.
Qed.

Lemma table_in_range st b : 0 ≤ st ≤ 8 → byte b → 0 ≤ 256 + st * 16 + table b < 400.
Proof.
  intros Hst Hb. unfold byte in Hb.
  assert (H : forallb (λ b, (0 <=? table b) && (table b <? 16)) (seqZ 0 256) = true) by by vm_compute.
  rewrite forallb_forall in H. specialize (H b ltac:(apply list_elem_of_In, elem_of_seqZ; lia)). simpl in H. lia.
Qed.

Lemma at_table {S} (s : S) i : 0 ≤ i < 400 → at_ utf8d i s = Done (table i, s).
Proof.
  intros Hi. unfold at_, table. rewrite (proj2 (Z.leb_le 0 i)) by lia.
  destruct (lookup_lt_is_Some_2 utf8d (Z.to_nat i)) as [v ->]; [|done].
  change (length utf8d) with 400%nat. lia.
Qed.

Lemma decode_step {S} (s : S) st cp b : 0 ≤ st ≤ 8 → byte b →
  decode st cp b s = Done ((next_state st b,
    if st =? 0 then Z.land (Z.shiftr 0xff (table b)) b else Z.lor (Z.land b 0x3f) (u32 (Z.shiftl cp 6))), s).
Proof.
  intros Hst Hb. unfold decode, mbind, M_bind, mret, M_ret. unfold byte in Hb.
  rewrite at_table by lia. rewrite at_table by by apply table_in_range.
  unfold UTF8_ACCEPT. by destruct (st =? 0).
Qed.

Lemma lor_low6 cp x : 0 ≤ cp < 2 ^ 26 → 0 ≤ x < 64 → Z.lor x (u32 (Z.shiftl cp 6)) = cp * 64 + x.
Proof.
  intros Hc Hx. rewrite u32_small by (rewrite Z.shiftl_mul_pow2; lia). rewrite lor_field; lia.
Qed.

(** The loop in the middle of a character. *)
Lemma decode_loop_tails {S} (s : S) l : Forall byte l → ∀ st cp, 2 ≤ st ≤ 8 →
  0 ≤ cp → (cp + 1) * 64 ^ Z.of_nat (length (state_ranges st)) ≤ 2 ^ 26 →
  utf8_decode_loop l st cp s = Done (ref_tails cp (state_ranges st) l, s).
Proof.
  induction 1 as [|b l Hb Hl IH]; intros st cp Hst Hcp Hbound.
  - simpl. destruct (state_ranges st) as [|[] rs] eqn:E; [|done].
    exfalso. assert (H : forallb (λ st, negb (bool_decide (state_ranges st = []))) (seqZ 2 7) = true) by by vm_compute.
    rewrite forallb_forall in H. specialize (H st ltac:(apply list_elem_of_In, elem_of_seqZ; lia)).
    by rewrite E in H.
  - pose proof (tail_table st b Hst Hb) as Ht. unfold tail_ok in Ht.
    destruct (state_ranges st) as [|[lo hi] rs] eqn:E; [done|]. cbn [ref_tails utf8_decode_loop].
    unfold mbind at 1, M_bind. rewrite decode_step by (done || lia). rewrite (proj2 (Z.eqb_neq st 0)) by lia.
    set (st' := next_state st b) in *. unfold UTF8_ACCEPT, UTF8_REJECT, byte in *.
    destruct ((lo <=? b) && (b <=? hi)) eqn:Er; [|by apply Z.eqb_eq in Ht as ->].
    apply andb_prop in Ht as [Ht Ht5]. apply andb_prop in Ht as [Ht Ht4]. apply andb_prop in Ht as [Ht Ht3].
    apply andb_prop in Ht as [Ht1 Ht2]. apply bool_decide_eq_true in Ht1. apply eqb_prop in Ht5.
    assert (Hlow : 0 ≤ Z.land b 0x3f < 64) by (change 0x3f with (Z.ones 6); rewrite Z.land_ones by lia; mod_lia).
    simpl length in Hbound. rewrite Nat2Z.inj_succ, Z.pow_succ_r in Hbound by lia.
    assert (0 < 64 ^ Z.of_nat (length rs)) by lia.
    rewrite lor_low6 by nia. replace (Z.land b 63) with (b - 0x80) by lia.
    destruct (Z.eqb_spec st' 0) as [E0|E0].
    + symmetry in Ht5. apply bool_decide_eq_true in Ht5. by rewrite Ht5.
    + rewrite (proj2 (Z.eqb_neq st' 1)) by lia. rewrite IH; [by rewrite Ht1|lia|lia|]. rewrite Ht1. nia.
Qed.

Lemma first_byte_bound b cp rs : byte b → first_byte b = Some (cp, rs) → 0 ≤ cp ∧ (cp + 1) * 64 ^ Z.of_nat (length rs) ≤ 2 ^ 26.
Proof. unfold first_byte, byte. intros Hb H. zbool; simplify_eq; simpl length; lia. Qed.

Lemma decode_loop_ref {S} (s : S) l : Forall byte l → utf8_decode_loop l UTF8_ACCEPT 0 s = Done (utf8_ref l, s).
Proof.
  destruct 1 as [|b l Hb Hl]; [done|]. pose proof (start_table b Hb) as Ht. unfold start_ok in Ht.
  cbn [utf8_ref utf8_decode_loop]. unfold mbind at 1, M_bind. rewrite decode_step by (done || lia).
  unfold UTF8_ACCEPT, UTF8_REJECT. simpl (0 =? 0). cbv iota beta.
  destruct (first_byte b) as [[cp rs]|] eqn:E; [|by apply Z.eqb_eq in Ht as ->].
  set (st := next_state 0 b) in *.
  repeat (apply andb_prop in Ht as [Ht ?]).
  apply bool_decide_eq_true in Ht. replace (Z.land (Z.shiftr 255 (table b)) b) with cp by lia.
  match goal with H : Bool.eqb _ _ = true |- _ => apply eqb_prop in H as Hr end.
  destruct (Z.eqb_spec st 0) as [E0|E0].
  - symmetry in Hr. apply bool_decide_eq_true in Hr. by rewrite Hr.
  - rewrite (proj2 (Z.eqb_neq st 1)) by lia. pose proof (first_byte_bound _ _ _ Hb E) as [? ?].
    rewrite decode_loop_tails, Ht; [done|done|lia|lia|]. by rewrite Ht.
Qed.

(** * Texts *)

(** The first code point of a text (-1 where the text is malformed) and what follows it. *)
Definition first_point (l : list Z) : Z * list Z :=
  match utf8_ref l with
  | Accept c rest => (c, rest)
  | Reject => (-1, tail l)
  | Truncated => (-1, [])
  end.

Fixpoint points (n : nat) (l : list Z) : list Z :=
  match n, l with
  | S n, _ :: _ => (first_point l).1 :: points n (first_point l).2
  | _, _ => []
  end.

Definition code_points (l : list Z) : list Z := points (length l) l.

Lemma utf8_encode_cons c : ∃ b t, utf8_encode c = b :: t.
Proof. unfold utf8_encode. zbool; eauto. Qed.

Lemma first_point_split b l : Forall byte (b :: l) → ∃ p, p ≠ [] ∧ b :: l = p ++ (first_point (b :: l)).2.
Proof.
  intros Hb. unfold first_point. destruct (utf8_ref (b :: l)) as [c rest| |] eqn:E.
  - apply utf8_ref_accept in E as [_ E]; [|done]. exists (utf8_encode c). split; [|done].
    by destruct (utf8_encode_cons c) as (? & ? & ->).
  - by exists [b].
  - exists (b :: l). by rewrite app_nil_r.
Qed.

Lemma first_point_char c l : scalar c → first_point (utf8_encode c ++ l) = (c, l).
Proof. intros Hc. unfold first_point. by rewrite utf8_ref_encode. Qed.

Lemma points_encode cs : Forall scalar cs → ∀ n, (length cs ≤ n)%nat → points n (flat_map utf8_encode cs) = cs.
Proof.
  induction 1 as [|c cs Hc Hcs IH]; intros n Hn; [by destruct n|].
  destruct n as [|n]; [simpl in Hn; lia|]. simpl flat_map.
  pose proof (first_point_char c (flat_map utf8_encode cs) Hc) as E.
  destruct (utf8_encode_cons c) as (b & t & Ec). rewrite Ec in *. cbn [app points] in *. rewrite E. simpl.
  f_equal. apply IH. simpl in Hn. lia.
Qed.

Lemma flat_map_length_le cs : (length cs ≤ length (flat_map utf8_encode cs))%nat.
Proof.
  induction cs as [|c cs IH]; [done|]. simpl. destruct (utf8_encode_cons c) as (? & ? & ->). rewrite length_app. simpl. lia.
Qed.

Lemma code_points_encode cs : Forall scalar cs → code_points (flat_map utf8_encode cs) = cs.
Proof. intros H. apply points_encode; [done|]. apply flat_map_length_le. Qed.

Lemma points_fuel n m l : Forall byte l → (length l ≤ n)%nat → (length l ≤ m)%nat → points n l = points m l.
Proof.
  revert m l. induction n as [|n IH]; intros m [|b l] Hb Hn Hm; simpl in Hn, Hm; [by destruct m|lia|by destruct m|].
  destruct m as [|m]; [lia|]. cbn [points]. f_equal.
  destruct (first_point_split b l Hb) as (p & Hp & E).
  assert (length (b :: l) = length p + length (first_point (b :: l)).2)%nat by (by rewrite E at 1; rewrite length_app).
  apply IH; [|destruct p; simpl in *; [done|lia]..]. rewrite E in Hb. by apply Forall_app in Hb as [_ ?].
Qed.

Lemma code_points_cons b l : Forall byte (b :: l) →
  code_points (b :: l) = (first_point (b :: l)).1 :: code_points (first_point (b :: l)).2.
Proof.
  intros Hb. unfold code_points at 1. cbn [length points]. f_equal.
  destruct (first_point_split b l Hb) as (p & Hp & E).
  assert (length (b :: l) = length p + length (first_point (b :: l)).2)%nat by (by rewrite E at 1; rewrite length_app).
  apply points_fuel; [|destruct p; simpl in *; [done|lia]|done]. rewrite E in Hb. by apply Forall_app in Hb as [_ ?].
Qed.

(** C strings: no byte is NUL. *)
Definition text (l : list Z) : Prop := Forall (λ b, 1 ≤ b < 256) l.

Lemma text_byte l : text l → Forall byte l.
Proof. intros H. eapply Forall_impl; [exact H|]. intros x. unfold byte. lia. Qed.

Lemma first_point_range l : Forall byte l → let c := (first_point l).1 in c = -1 ∨ scalar c.
Proof.
  intros Hl. unfold first_point. destruct (utf8_ref l) eqn:E; simpl; auto. apply utf8_ref_accept in E as [? _]; auto.
Qed.

Lemma code_points_range l : Forall byte l → Forall (λ c, c = -1 ∨ scalar c) (code_points l).
Proof.
  unfold code_points. generalize (length l). intros n. revert l. induction n as [|n IH]; intros [|b l] Hl; [constructor..|].
  cbn [points]. constructor; [by apply first_point_range|]. apply IH.
  destruct (first_point_split b l Hl) as (p & _ & E). rewrite E in Hl. by apply Forall_app in Hl as [_ ?].
Qed.

Lemma first_point_nonzero b l : text (b :: l) → (first_point (b :: l)).1 ≠ 0.
Proof.
  intros Ht. unfold first_point. destruct (utf8_ref (b :: l)) eqn:E; simpl; [|done..]. intros ->.
  apply utf8_ref_accept in E as [_ E]; [|by apply text_byte]. injection E as -> _.
  apply Forall_cons in Ht as [? _]. lia.
Qed.

Section Text.
Context {S : Type}.
Implicit Types (s : S).

(** Decoding in the middle of a buffer. *)
Lemma utf8_decode_at s pre l : Forall byte l → l ≠ [] →
  utf8_decode (pre ++ l) (zlength pre) s =
  Done ((first_point l).1, match utf8_ref l with Reject => zlength pre + 1 | _ => zlength (pre ++ l) - zlength (first_point l).2 end, s).
Proof.
  intros Hl Hne. unfold utf8_decode. assert (0 < length l)%nat by (by destruct l; simpl; [|lia]).
  unfold zlength. rewrite (proj2 (Z.leb_gt _ _)) by (rewrite length_app; lia).
  rewrite Nat2Z.id, drop_app_length. unfold mbind, M_bind. rewrite decode_loop_ref by done.
  pose proof (first_point_range l Hl) as Hr. unfold first_point in *.
  destruct (utf8_ref l) as [c rest| |] eqn:E; unfold mret, M_ret; simpl in *; [|done|by rewrite Z.sub_0_r].
  rewrite s32_small; [done|]. unfold scalar in Hr. lia.
Qed.

Lemma utf8_decode_next s pre b l : text (b :: l) → ∃ p, p ≠ [] ∧ b :: l = p ++ (first_point (b :: l)).2 ∧
  utf8_decode (pre ++ b :: l) (zlength pre) s = Done ((first_point (b :: l)).1, zlength (pre ++ p), s).
Proof.
  intros Ht. pose proof (text_byte _ Ht) as Hb. destruct (first_point_split b l Hb) as (p & Hp & E).
  assert (Hlen : length (b :: l) = (length p + length (first_point (b :: l)).2)%nat) by (by rewrite E at 1; rewrite length_app).
  exists p. split_and!; [done..|]. rewrite utf8_decode_at by done. do 3 f_equal. unfold zlength in *.
  rewrite !length_app. destruct (utf8_ref (b :: l)) eqn:Er.
  - lia.
  - unfold first_point in E. rewrite Er in E. change (b :: l) with ([b] ++ l) in E. simpl tail in E.
    apply app_inv_tail in E as <-. simpl. lia.
  - lia.
Qed.

Lemma drop_text p l : text (p ++ l) → text l.
Proof. intros H. by apply Forall_app in H as [_ ?]. Qed.

Lemma utf8_num_code_points_at s l : ∀ n pre count, (length l ≤ n)%nat → text l →
  loop (n + 2) (num_code_points_body (pre ++ l) true) (zlength pre, count) s =
  Done (count + zlength (code_points l), s).
Proof.
  intros n. revert l. induction n as [n IH] using lt_wf_ind. intros l pre count Hn Hl.
  rewrite Nat.add_comm. simpl plus. rewrite loop_S. destruct l as [|b l].
  { unfold mbind, M_bind, num_code_points_body. rewrite app_nil_r, Z.eqb_refl. unfold mret, M_ret.
    by rewrite Z.add_0_r. }
  destruct (utf8_decode_next s pre b l Hl) as (p & Hp & E & Ed). pose proof (first_point_nonzero _ _ Hl) as Hz.
  rewrite code_points_cons by by apply text_byte.
  assert (Hlen : length (b :: l) = (length p + length (first_point (b :: l)).2)%nat) by (by rewrite E at 1; rewrite length_app).
  set (fp := first_point (b :: l)) in *. unfold mbind at 1, M_bind at 1. unfold num_code_points_body at 1.
  rewrite (proj2 (Z.eqb_neq _ _)) by (unfold zlength; rewrite length_app; simpl; lia).
  unfold mbind, M_bind. rewrite Ed. simpl andb. rewrite (proj2 (Z.eqb_neq _ _)) by done. unfold mret, M_ret. simpl andb. cbv beta iota.
  rewrite E, (app_assoc pre p). destruct n as [|n]; [simpl in Hn; lia|].
  replace (Datatypes.S (Datatypes.S n)) with (n + 2)%nat by lia.
  cbn [andb]. cbv beta iota. rewrite (IH n); [unfold zlength; simpl; f_equal; f_equal; lia|lia|destruct p; simpl in *; [done|lia]|].
  rewrite E in Hl. by apply drop_text in Hl.
Qed.

Lemma utf8_num_code_points_text s l : text l →
  utf8_num_code_points l true s = Done (zlength (code_points l), s).
Proof. intros Hl. unfold utf8_num_code_points. by apply (utf8_num_code_points_at s l (length l) []). Qed.

(** A buffer that is filled from its start. *)
Lemma put_next s (l : list Z) v r :
  put ((Some <$> l) ++ None :: r) (zlength l) v s = Done ((Some <$> l ++ [v]) ++ r, s).
Proof.
  unfold put, zlength. rewrite (proj2 (Z.leb_le _ _)), (proj2 (Z.ltb_lt _ _)) by
    (try rewrite length_app, length_fmap; simpl; lia).
  simpl andb. cbv iota. rewrite Nat2Z.id, insert_app_r_alt, length_fmap, Nat.sub_diag by (rewrite length_fmap; lia).
  simpl. by rewrite fmap_app, <-app_assoc.
Qed.

Lemma contents_full s (l : list Z) : contents (Some <$> l) s = Done (l, s).
Proof. unfold contents. by rewrite mapM_fmap_Some by done. Qed.

(** The conversion fills a buffer that has room for all of the text. *)
Lemma utf8_to_ucs2_at s : ∀ n l pre out, text l → n = length (code_points l) →
  utf8_to_ucs2_loop n ((Some <$> out) ++ replicate n None) (pre ++ l) (zlength pre) (zlength out) s =
  Done (Some <$> out ++ (ucs2_encode <$> code_points l), zlength out + Z.of_nat n, zlength (pre ++ l), s).
Proof.
  induction n as [|n IH]; intros l pre out Hl Hn; destruct l as [|b l].
  - simpl. rewrite !app_nil_r. unfold mret, M_ret. do 4 f_equal. lia.
  - by rewrite code_points_cons in Hn by by apply text_byte.
  - done.
  - destruct (utf8_decode_next s pre b l Hl) as (p & Hp & E & Ed). pose proof (first_point_nonzero _ _ Hl) as Hz.
    rewrite code_points_cons in * by by apply text_byte. set (fp := first_point (b :: l)) in *.
    cbn [utf8_to_ucs2_loop replicate]. unfold mbind, M_bind. rewrite Ed, (proj2 (Z.eqb_neq _ _)), put_next by done.
    replace (zlength out + 1) with (zlength (out ++ [ucs2_encode fp.1])) by (unfold zlength; rewrite length_app; simpl; lia).
    rewrite E, (app_assoc pre p), IH; [|by rewrite E in Hl; apply drop_text in Hl|simpl in Hn; lia].
    rewrite <-!app_assoc. unfold zlength. rewrite !length_app. simpl. do 4 f_equal. lia.
Qed.

Lemma utf8_to_ucs2_text s l : text l → let n := zlength (code_points l) in
  utf8_to_ucs2 (buffer n) n l 0 s = Done (Some <$> (ucs2_encode <$> code_points l), n, zlength l, s).
Proof.
  intros Hl n. unfold utf8_to_ucs2. destruct l as [|b l]; [done|].
  rewrite (proj2 (Z.leb_gt _ _)) by (unfold zlength; simpl; lia). unfold buffer, n, zlength. rewrite Nat2Z.id.
  by apply (utf8_to_ucs2_at s _ (b :: l) [] []).
Qed.

Lemma ucs2_encode_range c : 0 ≤ ucs2_encode c < 2 ^ 16.
Proof. unfold ucs2_encode, u16. destruct (_ && _); [|destruct (_ && _)]; mod_lia. Qed.

(** The byte order of the network. *)
Definition be16 (x : Z) : list Z := [x / 256; x `mod` 256].

Lemma htons_bytes x : 0 ≤ x < 2 ^ 16 → bytes_of_u16 (htons x) = be16 x.
Proof.
  intros Hx. unfold bytes_of_u16, htons, be16. change 255 with (Z.ones 8). rewrite !Z.land_ones by lia.
  rewrite Z.lor_comm, Z.shiftr_div_pow2 by lia. rewrite lor_field by mod_lia. rewrite Z.shiftr_div_pow2 by lia.
  f_equal; [mod_lia|f_equal; mod_lia].
Qed.

(** The whole conversion, for any text, well formed or not. *)
Context (malloc : Z → M S Z) (free : Z → M S unit).
Lemma utf8_to_pdu_text s l p s' : text l →
  malloc (u32 (2 * zlength (code_points l))) s = Done (p, s') →
  utf8_to_pdu malloc free l s =
  Done (if nonnull p then (2 * zlength (code_points l), Some (p, flat_map be16 (ucs2_encode <$> code_points l)))
        else (- ENOMEM, None), s').
Proof.
  intros Hl Hm. unfold utf8_to_pdu, mbind, M_bind. rewrite utf8_num_code_points_text, Hm by done.
  destruct (nonnull p); cbn [negb]; cbv beta iota; [|done]. rewrite utf8_to_ucs2_text by done.
  rewrite !Z.eqb_refl. cbn [negb orb]. cbv beta iota. unfold zlength at 1. rewrite Nat2Z.id, take_ge by by rewrite !length_fmap.
  rewrite contents_full. unfold mret, M_ret. do 3 f_equal; [lia|]. do 2 f_equal.
  clear Hm. induction (code_points l) as [|c cs IH]; [done|]. cbn [fmap list_fmap flat_map].
  by rewrite htons_bytes, IH by apply ucs2_encode_range.
Qed.
End Text.
