(* ===== verification/SmsPdu.v ===== *)
(** Phone numbers and the PDUs of a message: what Sms.v writes, and a receiver
    that reads it: a tolerant one, and one that takes the length of the address
    as 3GPP TS 23.040 means it. *)

From stdpp Require Import functions.
From S2P Require Import Prelude Sms SmsUtf8.

(** * Phone numbers *)

Definition digit (c : Z) : bool := (48 <=? c) && (c <=? 57).

(** The number a caller dials: international or not, and its digits. *)
Definition dial (address : list Z) : option (bool * list Z) :=
  let is_inter := bool_decide (head address = Some 43) in
  let ds := filter (λ c, skipped c = false) (if is_inter then tail address else address) in
  if forallb digit ds then Some (is_inter, (λ c, c - 48) <$> ds) else None.

(** Semi-octets: two digits to a byte, the first one in the low half, with the filler 15. *)
Fixpoint semi_octets (ds : list Z) : list Z :=
  match ds with
  | a :: b :: ds => (b * 16 + a) :: semi_octets ds
  | [a] => [15 * 16 + a]
  | [] => []
  end.

Fixpoint read_semi_octets (l : list Z) : list Z :=
  match l with
  | [] => []
  | b :: l => b `mod` 16 :: (if b / 16 =? 15 then [] else b / 16 :: read_semi_octets l)
  end.

(** The type-of-address byte and the semi-octets. *)
Definition address_pdu (n : bool * list Z) : list Z := (if n.1 then 0x91 else 0x81) :: semi_octets n.2.

Definition read_address (l : list Z) : option (bool * list Z) :=
  match l with
  | 0x91 :: l => Some (true, read_semi_octets l)
  | 0x81 :: l => Some (false, read_semi_octets l)
  | _ => None
  end.

Definition nibble_digits (ds : list Z) : Prop := Forall (λ d, 0 ≤ d ≤ 9) ds.

Lemma semi_octets_ind (P : list Z → Prop) :
  P [] → (∀ a, P [a]) → (∀ a b ds, P ds → P (a :: b :: ds)) → ∀ ds, P ds.
Proof.
  intros H0 H1 H2. fix IH 1. intros [|a [|b ds]]; [done|apply H1|apply H2, IH].
Qed.

Lemma nibble_split hi lo : 0 ≤ lo < 16 → (hi * 16 + lo) `mod` 16 = lo ∧ (hi * 16 + lo) / 16 = hi.
Proof. intros. mod_lia. Qed.

Lemma read_semi_octets_spec ds : nibble_digits ds → read_semi_octets (semi_octets ds) = ds.
Proof.
  induction ds as [|a|a b ds IH] using semi_octets_ind; intros Hd; [done|..]; unfold nibble_digits in *;
    repeat match goal with H : Forall _ (_ :: _) |- _ => apply Forall_cons in H as [? H] end; simpl in *.
  - destruct (nibble_split 15 a) as [-> ->]; [lia|done].
  - destruct (nibble_split b a) as [-> ->]; [lia|]. rewrite (proj2 (Z.eqb_neq _ _)) by lia. by rewrite IH.
Qed.

Lemma semi_octets_length ds : Z.of_nat (length (semi_octets ds)) = (zlength ds + 1) `quot` 2.
Proof.
  unfold zlength. induction ds as [|a|a b ds IH] using semi_octets_ind; [done..|].
  simpl length. rewrite Nat2Z.inj_succ, IH. rewrite !Z.quot_div_nonneg by lia. mod_lia.
Qed.

Lemma dial_digits address n : dial address = Some n → nibble_digits n.2.
Proof.
  unfold dial. destruct (forallb _ _) eqn:E; [|done]. intros [= <-]. simpl. rewrite forallb_forall in E.
  apply Forall_fmap, Forall_forall. intros c Hc. specialize (E c (proj1 (list_elem_of_In _ _) Hc)). unfold digit in E. simpl. lia.
Qed.

Lemma read_address_pdu address n : dial address = Some n → read_address (address_pdu n) = Some n.
Proof.
  intros Hd%dial_digits. destruct n as [[] ds]; unfold address_pdu; simpl; by rewrite read_semi_octets_spec.
Qed.

Section Address.
Context {S : Type}.
Implicit Types (s : S) (ds : list Z).

Lemma address_check_spec l n : address_check l n =
  let ds := filter (λ c, skipped c = false) l in if forallb digit ds then Some (n + zlength ds) else None.
Proof.
  revert n. induction l as [|c l IH]; intros n; simpl; [by rewrite Z.add_0_r|].
  destruct (skipped c) eqn:E; [rewrite filter_cons_False by congruence; apply IH|].
  rewrite filter_cons_True by done. simpl. unfold digit at 1. rewrite Z.ltb_antisym, (Z.ltb_antisym c 57), <-negb_andb.
  destruct (_ && _); simpl; [|done]. rewrite IH. cbv zeta. destruct (forallb _ _); [|done].
  unfold zlength. simpl length. f_equal. lia.
Qed.

Lemma address_fill_filter l pdu pos prev k s :
  address_fill l pdu pos prev k s = address_fill (filter (λ c, skipped c = false) l) pdu pos prev k s.
Proof.
  revert pdu pos prev k s. induction l as [|c l IH]; intros; [done|]. destruct (skipped c) eqn:E.
  - rewrite filter_cons_False by congruence. simpl. by rewrite E.
  - rewrite filter_cons_True by done. simpl. rewrite E. destruct (_ =? 0); [done|].
    unfold mbind, M_bind. destruct (put _ _ _ _) as [[]| |]; [|done..]. apply IH.
Qed.

Lemma land_1 k : Z.land k 1 = k `mod` 2.
Proof. change 1 with (Z.ones 1) at 1. by rewrite Z.land_ones. Qed.

Lemma nibbles hi lo : 0 ≤ hi < 16 → 0 ≤ lo < 16 → u8 (Z.lor (Z.shiftl hi 4) (u8 lo)) = hi * 16 + lo.
Proof.
  intros Hh Hl. unfold u8. rewrite (Z.mod_small lo) by lia. rewrite Z.lor_comm, lor_field by lia.
  rewrite Z.mod_small by lia. lia.
Qed.

(** The loop that writes the digits, and the filler behind it. *)
Lemma address_fill_spec (ds : list Z) : ∀ out prev k n s,
  Forall (λ c, skipped c = false ∧ digit c = true) ds → k `mod` 2 = 0 → n `mod` 2 = zlength ds `mod` 2 →
  let so := semi_octets ((λ c, c - 48) <$> ds) in
  (r ← address_fill ds ((Some <$> out) ++ replicate (length so) None) (zlength out) prev k;
   address_filler n r) s = Done (Some <$> out ++ so, zlength (out ++ so), s).
Proof.
  induction ds as [|a|a b ds IH] using semi_octets_ind; intros out prev k n s Hd Hk Hn.
  - unfold mbind, M_bind. simpl. rewrite land_1, Hn. simpl. by rewrite !app_nil_r.
  - apply Forall_cons in Hd as [[Ha Hda] _]. unfold digit in Hda.
    unfold mbind, M_bind. simpl. rewrite Ha, !land_1, Hk. unfold mret at 1, M_ret at 1. cbn [Z.eqb].
    unfold address_filler. rewrite land_1, Hn. change (zlength [a] `mod` 2 =? 1) with true. cbv iota.
    unfold mbind, M_bind. rewrite put_next, nibbles by lia. unfold mret, M_ret. rewrite app_nil_r. do 3 f_equal.
    unfold zlength. rewrite length_app. simpl. lia.
  - apply Forall_cons in Hd as [[Ha Hda] Hd]. apply Forall_cons in Hd as [[Hb Hdb] Hd]. unfold digit in Hda, Hdb.
    specialize (IH (out ++ [(b - 48) * 16 + (a - 48)]) (u8 (a - 48)) (k + 1 + 1) n s Hd).
    cbv zeta in *. unfold mbind, M_bind in *. cbn [fmap list_fmap semi_octets length replicate address_fill].
    rewrite Ha, Hb, !land_1, Hk. cbn [Z.eqb]. rewrite (proj2 (Z.eqb_neq ((k + 1) `mod` 2) 0)) by mod_lia.
    unfold mbind, M_bind. rewrite put_next, nibbles by lia.
    replace (zlength out + 1) with (zlength (out ++ [(b - 48) * 16 + (a - 48)])) by (unfold zlength; rewrite length_app; simpl; lia).
    rewrite IH; [by rewrite <-!app_assoc|mod_lia|]. rewrite Hn. unfold zlength. simpl length. mod_lia.
Qed.

Context (malloc : Z → M S Z).

Lemma at_hd c (l : list Z) s : at_ (c :: l) 0 s = Done (c, s).
Proof. done. Qed.

Lemma buffer_cons (x : Z) l : buffer (zlength (x :: l)) = None :: replicate (length l) None.
Proof. unfold buffer, zlength. by rewrite Nat2Z.id. Qed.

(** The number in a non-empty string. *)
Lemma address_to_pdu_cons s c l :
  address_to_pdu malloc (c :: l) s =
  match dial (c :: l) with
  | None => Done (-1, None, s)
  | Some n =>
      match malloc (zlength (address_pdu n)) s with
      | Done (p, s') => Done (if nonnull p then (zlength (address_pdu n), Some (p, address_pdu n)) else (- ENOMEM, None), s')
      | Blocked => Blocked
      | Fault => Fault
      end
  end.
Proof.
  unfold address_to_pdu, dial. rewrite (proj2 (Z.eqb_neq _ _)) by (unfold zlength; simpl; lia).
  unfold mbind at 1, M_bind at 1. rewrite at_hd. simpl head. rewrite (bool_decide_ext _ (c = 43)) by naive_solver.
  replace (drop (if c =? 43 then 1%nat else 0%nat) (c :: l)) with (if bool_decide (c = 43) then l else c :: l)
    by (by destruct (Z.eqb_spec c 43); case_bool_decide).
  replace (c =? 43) with (bool_decide (c = 43)) by (by destruct (Z.eqb_spec c 43); case_bool_decide).
  simpl tail. set (chars := if bool_decide _ then _ else _). generalize (bool_decide (c = 43)). intros is_inter.
  cbv zeta. rewrite address_check_spec. cbv zeta.
  set (ds := filter (λ c, skipped c = false) chars). destruct (forallb digit ds) eqn:Ed; [|done].
  unfold address_pdu. cbn [fst snd]. set (so := semi_octets _). set (toa := if is_inter then 145 else 129).
  assert (Hlen : 1 + (0 + zlength ds + 1) `quot` 2 = zlength (toa :: so)).
  { unfold zlength at 2. simpl length. rewrite Nat2Z.inj_succ. unfold so. rewrite semi_octets_length. unfold zlength. rewrite length_fmap, Z.add_0_l. lia. }
  rewrite Hlen. unfold mbind at 1, M_bind at 1. destruct (malloc _ s) as [[p s']| |]; [|done..].
  destruct (nonnull p); cbn [negb]; cbv beta iota; [|done].
  rewrite buffer_cons. unfold mbind at 1, M_bind at 1. pose proof (put_next s' [] toa (replicate (length so) None)) as Hp. change (zlength []) with 0 in Hp. cbn [fmap list_fmap app] in Hp. rewrite Hp.
  assert (Hds : Forall (λ c, skipped c = false ∧ digit c = true) ds).
  { apply Forall_forall. intros x Hx. split; [by apply list_elem_of_filter in Hx as [? _]|].
    rewrite forallb_forall in Ed. by apply Ed, list_elem_of_In. }
  pose proof (address_fill_spec ds [toa] 0 0 (0 + zlength ds) s' Hds eq_refl eq_refl) as Hf. cbv zeta in Hf.
  fold so in Hf. unfold mbind, M_bind in *. rewrite address_fill_filter. fold ds.
  change (zlength [toa]) with 1 in Hf.
  destruct (address_fill _ _ _ _ _ _) as [[r s'']| |]; [|discriminate Hf..]. rewrite Hf.
  change ([toa] ++ so) with (toa :: so). unfold assert. rewrite Z.eqb_refl, contents_full. done.
Qed.
End Address.

(** * Hexadecimal *)

Definition hex (v : Z) : list Z := [tohex (v / 16); tohex (v `mod` 16)].

Definition hex_val (c : Z) : option Z :=
  if (48 <=? c) && (c <=? 57) then Some (c - 48)
  else if (65 <=? c) && (c <=? 70) then Some (c - 55)
  else None.

(** The bytes of a string of hexadecimal digits with its NUL. *)
Fixpoint unhex (l : list Z) : option (list Z) :=
  match l with
  | [0] => Some []
  | a :: b :: l => x ← hex_val a; y ← hex_val b; r ← unhex l; Some (x * 16 + y :: r)
  | _ => None
  end.

Lemma hex_val_tohex x : 0 ≤ x < 16 → hex_val (tohex x) = Some x.
Proof.
  intros Hx. assert (H : forallb (λ x, bool_decide (hex_val (tohex x) = Some x)) (seqZ 0 16) = true) by by vm_compute.
  rewrite forallb_forall in H. eapply bool_decide_eq_true_1, H, list_elem_of_In, elem_of_seqZ. lia.
Qed.

Lemma unhex_hex l : Forall byte l → unhex (flat_map hex l ++ [0]) = Some l.
Proof.
  induction 1 as [|v l Hv Hl IH]; [done|]. unfold byte in Hv. simpl flat_map. simpl app.
  cbn [unhex]. rewrite !hex_val_tohex by mod_lia. simpl. rewrite IH. simpl.
  assert (v `div` 16 * 16 + v `mod` 16 = v) as -> by mod_lia. by destruct (tohex _).
Qed.

Lemma tohex_small x : 0 ≤ x < 16 → u8 (tohex x) = tohex x.
Proof. intros Hx. unfold u8, tohex. destruct (9 <? x); rewrite Z.mod_small; lia. Qed.

Section Push.
Context {S : Type}.
Implicit Types (s : S).

(** The buffer with the bytes written so far and those to come, or no buffer. *)
Definition pushed (b : bool) (out todo : list Z) : option (list (option Z)) * Z :=
  (if b then Some ((Some <$> flat_map hex out) ++ replicate (2 * length todo + 1) None) else None, 2 * zlength out).

Lemma flat_map_hex_length l : length (flat_map hex l) = (2 * length l)%nat.
Proof. induction l as [|v l IH]; [done|]. simpl. lia. Qed.

Lemma push_pdu_char_next s b out v todo : push_pdu_char (pushed b out (u8 v :: todo)) v s = Done (pushed b (out ++ [u8 v]) todo, s).
Proof.
  assert (Hp : 2 * zlength out + 2 = 2 * zlength (out ++ [u8 v])) by (unfold zlength; rewrite length_app; simpl; lia).
  unfold push_pdu_char, pushed. rewrite <-Hp. destruct b; [|done].
  set (x := u8 v). assert (0 ≤ x < 256) by (unfold x, u8; mod_lia).
  rewrite Z.shiftr_div_pow2 by lia. change 0xf with (Z.ones 4). rewrite !Z.land_ones by lia. change (2 ^ 4) with 16.
  rewrite (Z.mod_small (x / 16)) by mod_lia. rewrite !tohex_small by mod_lia.
  replace (2 * length (x :: todo) + 1)%nat with (Datatypes.S (Datatypes.S (2 * length todo + 1))) by (simpl; lia).
  cbn [replicate]. unfold mbind, M_bind.
  replace (2 * zlength out) with (zlength (flat_map hex out)) by (unfold zlength; rewrite flat_map_hex_length; lia).
  rewrite put_next.
  replace (zlength (flat_map hex out) + 1) with (zlength (flat_map hex out ++ [tohex (x / 16)])) by (unfold zlength; rewrite length_app; simpl; lia).
  rewrite put_next. unfold mret, M_ret. do 4 f_equal.
  rewrite flat_map_app. simpl. by rewrite <-!app_assoc.
Qed.

Lemma push_next s b out v x todo : u8 v = x →
  push_pdu_char (pushed b out (x :: todo)) v s = Done (pushed b (out ++ [x]) todo, s).
Proof. intros <-. apply push_pdu_char_next. Qed.

Lemma at_lookup (l : list Z) i v s : l !! i = Some v → at_ l (Z.of_nat i) s = Done (v, s).
Proof. intros H. unfold at_. by rewrite (proj2 (Z.leb_le _ _)), Nat2Z.id, H by lia. Qed.

Lemma push_bytes_next s b l : Forall byte l → ∀ n i out todo, (i + n ≤ length l)%nat →
  push_bytes (pushed b out (take n (drop i l) ++ todo)) l (Z.of_nat i) n s = Done (pushed b (out ++ take n (drop i l)) todo, s).
Proof.
  intros Hl. induction n as [|n IH]; intros i out todo Hi; [by rewrite take_0, app_nil_r|].
  destruct (lookup_lt_is_Some_2 l i) as [v Hv]; [lia|]. rewrite (drop_S l v i) by done. cbn [take app push_bytes].
  unfold mbind, M_bind. rewrite (at_lookup l i v) by done.
  assert (Hu : u8 v = v) by (apply Z.mod_small; exact (Forall_lookup_1 _ _ _ _ Hl Hv)).
  pose proof (push_pdu_char_next s b out v (take n (drop (Datatypes.S i) l) ++ todo)) as Hp. rewrite Hu in Hp. rewrite Hp.
  replace (Z.of_nat i + 1) with (Z.of_nat (Datatypes.S i)) by lia. rewrite IH by lia. by rewrite <-app_assoc.
Qed.

Lemma push_part s b l n out todo : Forall byte l → (n ≤ length l)%nat →
  push_bytes (pushed b out (take n l ++ todo)) l 0 (Z.to_nat (Z.of_nat n)) s = Done (pushed b (out ++ take n l) todo, s).
Proof. intros Hl Hn. rewrite Nat2Z.id. by apply (push_bytes_next s b l Hl n 0). Qed.

Lemma push_all s b l out todo : Forall byte l →
  push_bytes (pushed b out (l ++ todo)) l 0 (Z.to_nat (zlength l)) s = Done (pushed b (out ++ l) todo, s).
Proof. intros Hl. pose proof (push_part s b l (length l) out todo Hl ltac:(lia)) as H. by rewrite firstn_all in H. Qed.

(** The bytes of a PDU. *)
Definition tpdu (recv_pdu data : list Z) (flags : Z) (multipart : bool) (iter : multipdu_iter_s) : list Z :=
  [0; flags; 0; u8 ((zlength recv_pdu - 1) * 2)] ++ recv_pdu ++ [0; 8] ++
  (if multipart then [u8 (zlength data + 6); 5; 0; 3; ref_num iter; part_count iter; u8 (part_pos iter + 1)]
   else [u8 (zlength data)]) ++ data.

Definition iter_ok (iter : multipdu_iter_s) : Prop := byte (ref_num iter) ∧ byte (part_count iter).

Lemma push_pdu_spec s b recv_pdu msg n flags multipart iter :
  Forall byte recv_pdu → Forall byte msg → byte flags → iter_ok iter → (n ≤ length msg)%nat →
  let l := tpdu recv_pdu (take n msg) flags multipart iter in
  push_pdu (pushed b [] l).1 recv_pdu msg (Z.of_nat n) flags multipart iter s = Done (pushed b l [], s).
Proof.
  intros Hr Hm Hf [Hi1 Hi2] Hn l. unfold push_pdu. subst l. unfold tpdu.
  set (data := take n msg). assert (Hd : zlength data = Z.of_nat n) by (unfold zlength, data; rewrite length_take; lia).
  set (ud := (if multipart then _ else _) ++ data).
  set (l := _ ++ _). change ((pushed b [] l).1, 0) with (pushed b [] l). subst l. cbn [app].
  unfold mbind, M_bind. unfold byte in Hf, Hi1, Hi2.
  rewrite !push_next by (done || by apply Z.mod_small). rewrite push_all by done.
  rewrite !push_next by done. subst ud. rewrite <-Hd. destruct multipart; cbn [app]; unfold mbind, M_bind;
    rewrite !push_next by (done || by apply Z.mod_small); rewrite Hd;
    pose proof (push_part s b msg n) as Hp; fold data in Hp.
  all: rewrite <-(app_nil_r data), Hp by done; do 3 f_equal; cbn [app]; rewrite <-!app_assoc, app_nil_r; done.
Qed.

(** * The next PDU *)

Context (malloc : Z → M S Z).

(** How much of the message goes into the next part. *)
Definition part_len (L : nat) (iter : multipdu_iter_s) : nat :=
  let n := (L - Z.to_nat (msg_pos iter))%nat in if 1 <? part_count iter then Nat.min n 134 else n.

Definition part_tpdu (recv_pdu msg : list Z) (iter : multipdu_iter_s) : list Z :=
  let multipart := 1 <? part_count iter in
  tpdu recv_pdu (take (part_len (length msg) iter) (drop (Z.to_nat (msg_pos iter)) msg)) (if multipart then 0x41 else 0x01) multipart iter.

Definition next_iter (L : nat) (iter : multipdu_iter_s) : multipdu_iter_s :=
  MkIter (u32 (msg_pos iter + Z.of_nat (part_len L iter))) (u8 (part_pos iter + 1)) (part_count iter) (ref_num iter).

(** Nothing is left to send. *)
Lemma prepare_done s recv_pdu msg iter : msg_pos iter = zlength msg →
  prepare_pdu_string malloc recv_pdu msg iter s = Done (0, None, iter, s).
Proof.
  intros Hp. unfold prepare_pdu_string. rewrite Hp, Z.sub_diag. change (u32 0) with 0.
  by rewrite andb_false_r.
Qed.

Lemma prepare_next s recv_pdu msg iter p s' :
  Forall byte recv_pdu → Forall byte msg → zlength msg < 2 ^ 32 → iter_ok iter →
  0 ≤ msg_pos iter < zlength msg → part_pos iter ≠ part_count iter →
  let l := part_tpdu recv_pdu msg iter in
  malloc (u32 (2 * zlength l + 1)) s = Done (p, s') →
  prepare_pdu_string malloc recv_pdu msg iter s =
  Done (if nonnull p then (2 * zlength l, Some (p, flat_map hex l ++ [0]), next_iter (length msg) iter)
        else (- ENOMEM, None, iter), s').
Proof.
  intros Hr Hm HL Hi Hpos Hpart l Hmal. unfold prepare_pdu_string.
  assert (Hn : (if (1 <? part_count iter) && (67 * 2 <? u32 (zlength msg - msg_pos iter)) then 67 * 2 else u32 (zlength msg - msg_pos iter))
    = Z.of_nat (part_len (length msg) iter)).
  { unfold part_len, zlength in *. rewrite u32_small by lia. destruct (1 <? part_count iter); simpl andb; [|lia].
    destruct (Z.ltb_spec (67 * 2) (Z.of_nat (length msg) - msg_pos iter)); lia. }
  assert (Hpl : (0 < part_len (length msg) iter ≤ length (drop (Z.to_nat (msg_pos iter)) msg))%nat).
  { unfold part_len, zlength in *. rewrite length_drop. destruct (1 <? part_count iter); lia. }
  rewrite Hn. rewrite (proj2 (Z.eqb_neq (Z.of_nat _) 0)), (proj2 (Z.eqb_neq (part_pos iter) _)) by lia.
  assert (Hpush : ∀ b s, push_pdu (pushed b [] l).1 recv_pdu (drop (Z.to_nat (msg_pos iter)) msg) (Z.of_nat (part_len (length msg) iter))
    (if 1 <? part_count iter then Z.lor 0x01 0x40 else 0x01) (1 <? part_count iter) iter s = Done (pushed b l [], s)).
  { intros b s0. replace (if 1 <? part_count iter then Z.lor 1 64 else 1) with (if 1 <? part_count iter then 0x41 else 0x01) by (by destruct (1 <? _)).
    unfold l, part_tpdu. apply push_pdu_spec; [done|by apply Forall_drop|by destruct (1 <? _)|done|lia]. }
  unfold mbind, M_bind. rewrite (Hpush false). unfold pushed at 1. cbn [snd]. rewrite Hmal.
  destruct (nonnull p); cbn [negb]; cbv beta iota; [|done].
  assert (Hbuf : Some (buffer ((pushed false l []).2 + 1)) = (pushed true [] l).1).
  { unfold pushed, buffer, zlength. cbn [flat_map fmap list_fmap app fst snd]. do 2 f_equal. lia. }
  rewrite Hbuf, (Hpush true). unfold pushed. cbn [length Nat.mul Nat.add replicate snd].
  replace (2 * zlength l) with (zlength (flat_map hex l)) by (unfold zlength; rewrite flat_map_hex_length; lia).
  rewrite put_next, app_nil_r, contents_full. unfold mret, M_ret, next_iter. done.
Qed.
End Push.

(** * The receiver *)

(** An SMS-SUBMIT: the address, the coding scheme, the concatenation header and the text. *)
Record submit := Submit {
  s_address : list Z;
  s_dcs : Z;
  s_part : option (Z * Z * Z);
  s_text : list Z;
}.

(** Behind the address. *)
Definition parse_user_data (first_octet : Z) (address l : list Z) : option submit :=
  match l with
  | _ :: dcs :: udl :: ud =>
      if bool_decide (udl = zlength ud ∧ udl ≤ 140) then
        if Z.testbit first_octet 6 then
          match ud with
          | 5 :: 0 :: 3 :: ref :: count :: seq :: text => Some (Submit address dcs (Some (ref, count, seq)) text)
          | _ => None
          end
        else Some (Submit address dcs None ud)
      else None
  | _ => None
  end.

(** The length of the service centre's address comes first.  A tolerant receiver
    takes the length of the address for its number of bytes, two semi-octets to
    a byte, without the byte of its type. *)
Definition parse_submit (l : list Z) : option submit :=
  match l with
  | smsc :: l =>
      match drop (Z.to_nat smsc) l with
      | first_octet :: _ :: da_len :: l =>
          let n := Z.to_nat (1 + (da_len + 1) `quot` 2) in
          if bool_decide (Z.land first_octet 0x1f = 1 ∧ (n ≤ length l)%nat) then
            parse_user_data first_octet (take n l) (drop n l)
          else None
      | _ => None
      end
  | [] => None
  end.

(** The semi-octets of an address, the low half of a byte first. *)
Definition nibbles_of (l : list Z) : list Z := flat_map (λ b, [b `mod` 16; b / 16]) l.

(** 3GPP TS 23.040, 9.1.2.5: the length of the address is the number of its
    semi-octets, at most 20 of them; the address is its type and these. *)
Definition parse_submit_23040 (l : list Z) : option submit :=
  match l with
  | smsc :: l =>
      match drop (Z.to_nat smsc) l with
      | first_octet :: _ :: da_len :: toa :: l =>
          let n := Z.to_nat ((da_len + 1) `quot` 2) in
          if bool_decide (Z.land first_octet 0x1f = 1 ∧ (n ≤ length l)%nat ∧ da_len ≤ 20) then
            parse_user_data first_octet (toa :: take (Z.to_nat da_len) (nibbles_of (take n l))) (drop n l)
          else None
      | _ => None
      end
  | [] => None
  end.

(** The parts of a message, in their order, with the same address, reference
    number and count. *)
Definition join_parts (l : list submit) : option (list Z * list Z) :=
  match l with
  | [Submit address _ None text] => Some (address, text)
  | Submit address _ (Some (ref, count, _)) _ :: _ =>
      if bool_decide (s_part <$> l = imap (λ i _, Some (ref, count, Z.of_nat i + 1)) l
                      ∧ Forall (λ x, s_address x = address) l ∧ count = zlength l)
      then Some (address, mjoin (s_text <$> l)) else None
  | _ => None
  end.

Definition receive_with (parse : list Z → option submit) (pdus : list (list Z)) : option (list Z * list Z) :=
  l ← mapM (λ pdu, bytes ← unhex pdu; parse bytes) pdus;
  if forallb (λ x, s_dcs x =? 8) l then join_parts l else None.
Definition receive := receive_with parse_submit.
Definition receive_23040 := receive_with parse_submit_23040.

(** A phone number of a PDU: the address length has to fit its byte. *)
Definition recv_ok (recv_pdu : list Z) : Prop := Forall byte recv_pdu ∧ (1 ≤ length recv_pdu ≤ 128)%nat.

Lemma nibbles_of_length l : length (nibbles_of l) = (2 * length l)%nat.
Proof. induction l as [|b l IH]; [done|]. simpl. rewrite IH. lia. Qed.

(** The digits of a number as that receiver gets them: an odd count of them is
    followed by the filler. *)
Definition filler (ds : list Z) : list Z := if Nat.odd (length ds) then [15] else [].

Lemma nibbles_of_semi_octets ds : nibble_digits ds → nibbles_of (semi_octets ds) = ds ++ filler ds.
Proof.
  induction ds as [|a|a b ds IH] using semi_octets_ind; intros Hd; [done|..]; unfold nibble_digits, filler in *;
    repeat match goal with H : Forall _ (_ :: _) |- _ => apply Forall_cons in H as [? H] end; simpl in *.
  - by destruct (nibble_split 15 a) as [-> ->]; [lia|].
  - destruct (nibble_split b a) as [-> ->]; [lia|]. by rewrite IH.
Qed.

Lemma semi_octets_bytes ds : nibble_digits ds → Forall byte (semi_octets ds).
Proof.
  unfold nibble_digits, byte. induction ds as [|x|x y ds IH] using semi_octets_ind; intros Hd; [constructor|..];
    repeat match goal with H : Forall _ (_ :: _) |- _ => apply Forall_cons in H as [? H] end; simpl in *.
  - repeat constructor; lia.
  - constructor; [lia|auto].
Qed.

Lemma address_pdu_ok address n : dial address = Some n → (length n.2 ≤ 254)%nat → recv_ok (address_pdu n).
Proof.
  intros Hd Hn. unfold address_pdu. split.
  - constructor; [unfold byte; destruct n.1; lia|]. by eapply semi_octets_bytes, dial_digits.
  - pose proof (semi_octets_length n.2) as Hl. unfold zlength in Hl. rewrite Z.quot_div_nonneg in Hl by lia.
    simpl length. split; [lia|]. assert (Z.of_nat (length (semi_octets n.2)) ≤ 127) by mod_lia. lia.
Qed.

(** Behind the address of a part. *)
Lemma parse_part_data address recv_pdu msg iter :
  iter_ok iter → 0 ≤ part_pos iter < part_count iter → (0 ≤ part_len (length msg) iter ≤ 140)%nat →
  0 ≤ msg_pos iter →
  let mp := 1 <? part_count iter in
  ∃ ud, part_tpdu recv_pdu msg iter = [0; if mp then 0x41 else 0x01; 0; u8 ((zlength recv_pdu - 1) * 2)] ++ recv_pdu ++ ud ∧
  parse_user_data (if mp then 0x41 else 0x01) address ud =
  Some (Submit address 8 (if mp then Some (ref_num iter, part_count iter, part_pos iter + 1) else None)
    (take (part_len (length msg) iter) (drop (Z.to_nat (msg_pos iter)) msg))).
Proof.
  intros [Hi1 Hi2] Hp Hn Hpos mp. unfold part_tpdu, tpdu, byte in *. fold mp. cbv zeta.
  set (data := take _ _). assert (Hd : zlength data ≤ if mp then 134 else 140).
  { unfold zlength, data. rewrite length_take. unfold part_len in *. fold mp. fold mp in Hn. destruct mp; lia. }
  assert (Hd0 : 0 ≤ zlength data) by (unfold zlength; lia).
  eexists. split; [done|]. unfold parse_user_data. destruct mp; cbn [app].
  - rewrite bool_decide_eq_true_2.
    + unfold u8. by rewrite (Z.mod_small (part_pos iter + 1)) by lia.
    + unfold u8, zlength in *. simpl length. rewrite Z.mod_small by lia. lia.
  - rewrite bool_decide_eq_true_2; [done|]. unfold u8. rewrite Z.mod_small by lia. lia.
Qed.

Lemma parse_part recv_pdu msg iter :
  recv_ok recv_pdu → iter_ok iter → 0 ≤ part_pos iter < part_count iter → (0 ≤ part_len (length msg) iter ≤ 140)%nat →
  0 ≤ msg_pos iter →
  parse_submit (part_tpdu recv_pdu msg iter) =
  Some (Submit recv_pdu 8
    (if 1 <? part_count iter then Some (ref_num iter, part_count iter, part_pos iter + 1) else None)
    (take (part_len (length msg) iter) (drop (Z.to_nat (msg_pos iter)) msg))).
Proof.
  intros [Hr Hl] Hi Hp Hn Hpos. destruct (parse_part_data recv_pdu recv_pdu msg iter Hi Hp Hn Hpos) as (ud & -> & <-).
  cbn [app]. unfold parse_submit. change (Z.to_nat 0) with 0%nat. cbn [drop].
  assert (Ha : Z.to_nat (1 + (u8 ((zlength recv_pdu - 1) * 2) + 1) `quot` 2) = length recv_pdu).
  { unfold u8, zlength. rewrite Z.mod_small by lia. rewrite Z.quot_div_nonneg by lia. mod_lia. }
  cbv zeta. rewrite Ha, take_app_length, drop_app_length, bool_decide_eq_true_2; [done|].
  split; [by destruct (1 <? _)|rewrite length_app; lia].
Qed.

(** The address as the receiver of the standard gets it, semi-octet by semi-octet. *)
Definition address_23040 (recv_pdu : list Z) : list Z :=
  match recv_pdu with
  | toa :: l => toa :: nibbles_of l
  | [] => []
  end.

Lemma parse_part_23040 recv_pdu msg iter :
  recv_ok recv_pdu → iter_ok iter → 0 ≤ part_pos iter < part_count iter → (0 ≤ part_len (length msg) iter ≤ 140)%nat →
  0 ≤ msg_pos iter →
  parse_submit_23040 (part_tpdu recv_pdu msg iter) =
  if bool_decide (length recv_pdu ≤ 11)%nat then
    Some (Submit (address_23040 recv_pdu) 8
      (if 1 <? part_count iter then Some (ref_num iter, part_count iter, part_pos iter + 1) else None)
      (take (part_len (length msg) iter) (drop (Z.to_nat (msg_pos iter)) msg)))
  else None.
Proof.
  intros [Hr Hl] Hi Hp Hn Hpos.
  destruct (parse_part_data (address_23040 recv_pdu) recv_pdu msg iter Hi Hp Hn Hpos) as (ud & -> & <-).
  destruct recv_pdu as [|toa so]; [simpl in Hl; lia|].
  cbn [app]. unfold parse_submit_23040. change (Z.to_nat 0) with 0%nat. cbn [drop].
  assert (Hu : u8 ((zlength (toa :: so) - 1) * 2) = Z.of_nat (2 * length so)).
  { unfold u8, zlength. simpl length in *. rewrite Z.mod_small by lia. lia. }
  assert (Ha : Z.to_nat ((Z.of_nat (2 * length so) + 1) `quot` 2) = length so).
  { rewrite Z.quot_div_nonneg by lia. mod_lia. }
  rewrite Hu. cbv zeta. rewrite Ha, take_app_length, drop_app_length, Nat2Z.id.
  rewrite take_ge by (rewrite nibbles_of_length; lia). cbn [address_23040].
  case_bool_decide as E1; case_bool_decide as E2; simpl length in *; [done| | |done]; exfalso.
  - lia.
  - apply E1. split; [by destruct (1 <? _)|]. rewrite length_app. lia.
Qed.
