(* ===== verification/SmsThms.v ===== *)
(** The properties of the short messages: UTF-8 decoding, text and phone
    numbers as PDUs, and long messages in parts. *)

From stdpp Require Import functions.
From S2P Require Import Prelude Sms SmsUtf8 SmsPdu.

(** * All parts of a message *)

Lemma mapM_fmap_seq {A B} (f : A → option B) (g : nat → A) (h : nat → B) n k :
  (∀ i, (k ≤ i < k + n)%nat → f (g i) = Some (h i)) → mapM f (g <$> seq k n) = Some (h <$> seq k n).
Proof.
  revert k. induction n as [|n IH]; intros k H; [done|]. simpl. rewrite H by lia. simpl.
  by rewrite IH by (intros i Hi; apply H; lia).
Qed.

Lemma join_header x y l : s_part x ≠ None →
  join_parts (x :: y :: l) =
  match s_part x with
  | Some (ref, count, _) =>
      if bool_decide (s_part <$> x :: y :: l = imap (λ i _, Some (ref, count, Z.of_nat i + 1)) (x :: y :: l)
                      ∧ Forall (λ z, s_address z = s_address x) (x :: y :: l) ∧ count = zlength (x :: y :: l))
      then Some (s_address x, mjoin (s_text <$> x :: y :: l)) else None
  | None => None
  end.
Proof. by destruct x as [a d [[[ref count] q]|] t]. Qed.

Lemma join_many a ref (f : nat → list Z) c : (1 < c)%nat →
  join_parts ((λ i, Submit a 8 (Some (ref, Z.of_nat c, Z.of_nat i + 1)) (f i)) <$> seq 0 c) = Some (a, mjoin (f <$> seq 0 c)).
Proof.
  intros Hc. set (g i := Submit a 8 (Some (ref, Z.of_nat c, Z.of_nat i + 1)) (f i)).
  assert (Hl : g <$> seq 0 c = g 0%nat :: g 1%nat :: (g <$> seq 2 (c - 2))).
  { destruct c as [|[|n]]; [lia..|]. simpl. by rewrite Nat.sub_0_r. }
  rewrite Hl, join_header by done. rewrite <-Hl. simpl s_part at 1. cbv iota beta. rewrite bool_decide_eq_true_2.
  - simpl s_address. do 2 f_equal. by rewrite <-list_fmap_compose.
  - split_and!.
    + apply list_eq. intros i. rewrite list_lookup_imap, !list_lookup_fmap.
      destruct (seq 0 c !! i) as [j|] eqn:E; simpl; [|done]. apply lookup_seq in E as [-> _]. done.
    + apply Forall_fmap, Forall_forall. done.
    + unfold zlength. by rewrite length_fmap, length_seq.
Qed.

Section Parts.
Context {S : Type}.
Context (malloc : Z → M S Z).
Implicit Types (s : S) (recv_pdu msg : list Z).

(** The PDUs [prepare_pdu_string] hands out until it returns no more. *)
Fixpoint prepare_all (n : nat) (recv_pdu msg : list Z) (iter : multipdu_iter_s) : M S (list (list Z)) :=
  match n with
  | O => λ _, Fault
  | Datatypes.S n =>
      r ← prepare_pdu_string malloc recv_pdu msg iter;
      match r with
      | (_, Some (_, pdu), iter) =>
          pdus ← prepare_all n recv_pdu msg iter;
          mret (pdu :: pdus)
      | (_, None, _) => mret []
      end
  end.

(** Memory is never short. *)
Definition malloc_succeeds : Prop := ∀ n s, 1 ≤ n < 2 ^ 31 → returns (malloc n) s (λ p _, nonnull p = true).

(** The room in a part, and the iterator before the [i]-th one. *)
Definition part_room (c : nat) : nat := if bool_decide (1 < c)%nat then 134 else 140.
Definition iter_at (L c : nat) (ref : Z) (i : nat) : multipdu_iter_s :=
  MkIter (Z.of_nat (Nat.min (part_room c * i) L)) (Z.of_nat i) (Z.of_nat c) ref.
Definition nth_data msg (c i : nat) : list Z := take (part_room c) (drop (part_room c * i) msg).

Lemma many_parts c : (1 <? Z.of_nat c) = bool_decide (1 < c)%nat.
Proof. case_bool_decide; lia. Qed.

Context (recv_pdu msg : list Z) (c : nat) (ref : Z).
Hypothesis Hrecv : recv_ok recv_pdu.
Hypothesis Hmsg : Forall byte msg.
Hypothesis Hlen : zlength msg < 2 ^ 31.
Hypothesis Hc : (1 ≤ c ≤ 255)%nat.
Hypothesis Hsplit : ((c - 1) * part_room c < length msg ≤ c * part_room c)%nat.
Hypothesis Href : byte ref.

Local Abbreviation at_part := (iter_at (length msg) c ref).
Local Abbreviation tpdu_at i := (part_tpdu recv_pdu msg (at_part i)).

Lemma part_len_at i : (i < c)%nat → part_len (length msg) (at_part i) = length (nth_data msg c i).
Proof.
  intros Hi. unfold part_len, nth_data. rewrite length_take, length_drop. cbn [msg_pos part_count iter_at].
  rewrite many_parts, Nat2Z.id. unfold part_room in *. case_bool_decide; lia.
Qed.

Lemma part_data_at i : (i < c)%nat →
  take (part_len (length msg) (at_part i)) (drop (Z.to_nat (msg_pos (at_part i))) msg) = nth_data msg c i.
Proof.
  intros Hi. rewrite part_len_at by done. unfold nth_data. cbn [msg_pos iter_at]. rewrite Nat2Z.id.
  rewrite Nat.min_l by (unfold part_room in *; case_bool_decide; nia).
  rewrite length_take. destruct (Nat.min_dec (part_room c) (length (drop (part_room c * i) msg))) as [E|E]; rewrite E; [done|].
  rewrite firstn_all, take_ge; [done|lia].
Qed.

Lemma iter_ok_at i : iter_ok (at_part i).
Proof. split; [done|]. unfold byte. simpl. lia. Qed.

Local Abbreviation submit_at address i :=
  (Submit address 8 (if bool_decide (1 < c)%nat then Some (ref, Z.of_nat c, Z.of_nat i + 1) else None) (nth_data msg c i)).

Lemma parse_at i : (i < c)%nat → parse_submit (tpdu_at i) = Some (submit_at recv_pdu i).
Proof.
  intros Hi. rewrite parse_part; [|done|apply iter_ok_at|simpl; lia| |simpl; lia].
  - rewrite part_data_at by done. cbn [part_count ref_num part_pos iter_at]. by rewrite many_parts.
  - rewrite part_len_at by done. unfold nth_data, part_room. rewrite length_take. case_bool_decide; lia.
Qed.

Lemma parse_at_23040 i : (i < c)%nat →
  parse_submit_23040 (tpdu_at i) =
  if bool_decide (length recv_pdu ≤ 11)%nat then Some (submit_at (address_23040 recv_pdu) i) else None.
Proof.
  intros Hi. rewrite parse_part_23040; [|done|apply iter_ok_at|simpl; lia| |simpl; lia].
  - rewrite part_data_at by done. cbn [part_count ref_num part_pos iter_at]. by rewrite many_parts.
  - rewrite part_len_at by done. unfold nth_data, part_room. rewrite length_take. case_bool_decide; lia.
Qed.

Lemma tpdu_bytes i : (i < c)%nat → Forall byte (tpdu_at i).
Proof.
  intros Hi. destruct Hrecv as [Hr Hl]. unfold part_tpdu, tpdu. rewrite part_data_at by done.
  assert (Hu : ∀ x, byte (u8 x)) by (intros x; unfold byte, u8; mod_lia).
  assert (Hcnt : byte (part_count (at_part i))) by (apply iter_ok_at).
  assert (Hd : Forall byte (nth_data msg c i)) by by apply Forall_take, Forall_drop.
  repeat (apply Forall_app; split); try done; [..|destruct (1 <? _)]; repeat (apply Forall_cons; split); try done.
  unfold byte. destruct (1 <? _); lia.
Qed.

Lemma tpdu_length i : (i < c)%nat → (length (tpdu_at i) ≤ 300)%nat.
Proof.
  intros Hi. destruct Hrecv as [Hr Hl]. unfold part_tpdu, tpdu. rewrite part_data_at by done. unfold nth_data.
  rewrite !length_app, length_take. simpl length. unfold part_room. destruct (1 <? _), (bool_decide _); simpl length; lia.
Qed.

Lemma next_at i : (i < c)%nat → next_iter (length msg) (at_part i) = at_part (i + 1).
Proof.
  intros Hi. unfold next_iter, zlength in *. rewrite part_len_at by done. unfold nth_data. rewrite length_take, length_drop.
  cbn [msg_pos part_pos part_count ref_num iter_at]. unfold iter_at, u8. rewrite u32_small, Z.mod_small by lia. f_equal; lia.
Qed.

(** What is sent, part by part. *)
Lemma prepare_all_from s : malloc_succeeds → ∀ k i, (i + k = c)%nat →
  returns (prepare_all (k + 1) recv_pdu msg (at_part i)) s
    (λ pdus _, pdus = (λ i, flat_map hex (tpdu_at i) ++ [0]) <$> seq i k).
Proof.
  intros Hm k. revert s. induction k as [|k IH]; intros s i Hi.
  - simpl. apply returns_bind. eapply returns_intro.
    { apply prepare_done. unfold zlength. simpl. unfold part_room in *. case_bool_decide; lia. }
    by apply returns_ret.
  - simpl. apply returns_bind.
    destruct (returns_elim _ _ _ (Hm (u32 (2 * zlength (tpdu_at i) + 1)) s ltac:(pose proof (tpdu_length i); unfold zlength; rewrite u32_small; lia)))
      as (p & s' & Em & Hp).
    eapply returns_intro.
    { apply (prepare_next _ s recv_pdu msg (at_part i) p s'); [apply Hrecv|done|lia|apply iter_ok_at|..|exact Em].
      - unfold zlength. simpl. unfold part_room in *. case_bool_decide; nia.
      - simpl. lia. }
    rewrite Hp, next_at by lia. apply returns_bind.
    eapply returns_mono; [apply IH; lia|]. intros pdus s'' ->. apply returns_ret. by rewrite Nat.add_1_r.
Qed.

Lemma join_data i k : (i + k = c)%nat → mjoin (nth_data msg c <$> seq i k) = drop (part_room c * i) msg.
Proof.
  revert i. induction k as [|k IH]; intros i Hi.
  - symmetry. simpl. apply drop_ge. lia.
  - simpl. rewrite IH by lia. unfold nth_data. rewrite <-(take_drop (part_room c) (drop (part_room c * i) msg)) at 2.
    rewrite drop_drop. do 2 f_equal. lia.
Qed.

Lemma receive_with_all parse address : (∀ i, (i < c)%nat → parse (tpdu_at i) = Some (submit_at address i)) →
  receive_with parse ((λ i, flat_map hex (tpdu_at i) ++ [0]) <$> seq 0 c) = Some (address, msg).
Proof.
  intros Hparse. set (part i := if bool_decide (1 < c)%nat then Some (ref, Z.of_nat c, Z.of_nat i + 1) else None).
  unfold receive_with. rewrite (mapM_fmap_seq _ _ (λ i, Submit address 8 (part i) (nth_data msg c i))).
  2: { intros i Hi. rewrite unhex_hex by (apply tpdu_bytes; lia). apply Hparse. lia. }
  simpl. rewrite (proj2 (forallb_forall _ _)) by (intros x Hx; by apply list_elem_of_In, list_elem_of_fmap in Hx as (i & -> & _)).
  pose proof (join_data 0 c eq_refl) as Hj. rewrite Nat.mul_0_r, drop_0 in Hj. unfold part.
  case_bool_decide as E; [by rewrite join_many, Hj by lia|].
  assert (c = 1)%nat as -> by lia. simpl in *. rewrite app_nil_r in Hj. by rewrite Hj.
Qed.

Lemma receive_all : receive ((λ i, flat_map hex (tpdu_at i) ++ [0]) <$> seq 0 c) = Some (recv_pdu, msg).
Proof. apply receive_with_all, parse_at. Qed.

Lemma receive_23040_all : receive_23040 ((λ i, flat_map hex (tpdu_at i) ++ [0]) <$> seq 0 c) =
  if bool_decide (length recv_pdu ≤ 11)%nat then Some (address_23040 recv_pdu, msg) else None.
Proof.
  pose proof parse_at_23040 as Hp. case_bool_decide; [by apply receive_with_all|].
  unfold receive_23040, receive_with.
  assert (Hseq : seq 0 c = 0%nat :: seq 1 (c - 1)) by (destruct c as [|k]; [lia|simpl; by rewrite Nat.sub_0_r]).
  rewrite Hseq. cbn [fmap list_fmap mapM].
  rewrite unhex_hex by (apply tpdu_bytes; lia). change (Some (tpdu_at 0) ≫= _) with (parse_submit_23040 (tpdu_at 0)). by rewrite Hp by lia.
Qed.
End Parts.

(** * The properties *)

(** The number of parts. *)
Definition parts_of (L : nat) : nat := if bool_decide (L ≤ 140)%nat then 1 else (L + 133) / 134.

Lemma parts_of_spec L : (1 ≤ L)%nat → Z.of_nat L ≤ 255 * 134 →
  (1 ≤ parts_of L ≤ 255)%nat ∧ ((parts_of L - 1) * part_room (parts_of L) < L ≤ parts_of L * part_room (parts_of L))%nat.
Proof.
  intros HL HM. unfold parts_of, part_room. case_bool_decide; [simpl; lia|].
  pose proof (Nat.div_mod_eq (L + 133) 134). pose proof (Nat.mod_upper_bound (L + 133) 134 ltac:(lia)).
  rewrite bool_decide_eq_true_2 by lia. lia.
Qed.

Lemma multipart_iterator_init_spec it0 L ref : (1 ≤ L)%nat →
  multipart_iterator_init it0 (Z.of_nat L) ref =
  if Z.of_nat L <=? 255 * 134 then (true, iter_at L (parts_of L) ref 0) else (false, it0).
Proof.
  intros HL. unfold multipart_iterator_init. rewrite Z.quot_div_nonneg, Z.rem_mod_nonneg by lia.
  set (count := if _ <=? _ then _ else _).
  assert (Hc : count = Z.of_nat (parts_of L)).
  { unfold count, parts_of. case_bool_decide; [by rewrite (proj2 (Z.leb_le _ _)) by lia|].
    rewrite (proj2 (Z.leb_gt _ _)), Nat2Z.inj_div by lia. destruct (Z.eqb_spec (Z.of_nat L `mod` (67 * 2)) 0); mod_lia. }
  rewrite Hc. destruct (Z.leb_spec (Z.of_nat L) (255 * 134)) as [H|H].
  - pose proof (parts_of_spec L HL H) as [Hr _]. rewrite (proj2 (Z.ltb_ge _ _)) by lia.
    unfold iter_at, u8. rewrite Z.mod_small, Nat.mul_0_r by lia. done.
  - rewrite (proj2 (Z.ltb_lt _ _)); [done|]. rewrite <-Hc. unfold count. rewrite (proj2 (Z.leb_gt _ _)) by lia.
    destruct (Z.eqb_spec (Z.of_nat L `mod` (67 * 2)) 0); mod_lia.
Qed.

(** C19: [__utf8_decode] at an offset of a buffer accepts exactly the UTF-8
    encodings of the Unicode scalar values (no overlong form, no surrogate,
    nothing above 0x10FFFF) and moves the offset behind the character. At the
    end of the buffer it returns 0, for a character cut short by the end it
    returns -1 and moves the offset to the end, and for any other bytes it
    returns -1 and skips one byte. *)
Theorem utf8_decode_exact {S} (s : S) (pre l : list Z) :
  Forall byte l → l ≠ [] →
  utf8_decode (pre ++ []) (zlength pre) s = Done (0, zlength pre, s) ∧
  (∀ c rest, scalar c → l = utf8_encode c ++ rest →
     utf8_decode (pre ++ l) (zlength pre) s = Done (c, zlength (pre ++ utf8_encode c), s)) ∧
  (∀ c t, scalar c → t ≠ [] → utf8_encode c = l ++ t →
     utf8_decode (pre ++ l) (zlength pre) s = Done (-1, zlength (pre ++ l), s)) ∧
  ((∀ c rest, scalar c → l ≠ utf8_encode c ++ rest) →
   (∀ c t, scalar c → t ≠ [] → utf8_encode c ≠ l ++ t) →
     utf8_decode (pre ++ l) (zlength pre) s = Done (-1, zlength pre + 1, s)).
Proof.
  intros Hl Hne. split_and!.
  - unfold utf8_decode. by rewrite app_nil_r, (proj2 (Z.leb_le _ _)) by lia.
  - intros c rest Hc ->. rewrite utf8_decode_at by done. unfold first_point. rewrite utf8_ref_encode by done.
    do 3 f_equal. unfold zlength. rewrite !length_app. simpl. lia.
  - intros c t Hc Ht E. rewrite utf8_decode_at by done. unfold first_point.
    rewrite (proj2 (utf8_ref_truncated l Hl)) by eauto. by rewrite Z.sub_0_r.
  - intros Ha Ht. rewrite utf8_decode_at by done. unfold first_point. destruct (utf8_ref l) as [c rest| |] eqn:E; [|done|].
    + apply utf8_ref_accept in E as [Hc E]; [|done]. by destruct (Ha c rest).
    + apply utf8_ref_truncated in E as (c & t & Hc & Hn & E); [|done]. by destruct (Ht c t).
Qed.

Lemma utf8_decode_exact_witness :
  utf8_decode [65; 0xe2; 0x82; 0xac; 66] 1 tt = Done (0x20ac, 4, tt) ∧
  utf8_decode [65; 0xed; 0xa0; 0x80] 1 tt = Done (-1, 2, tt).
Proof.
  split.
  - destruct (utf8_decode_exact tt [65] [0xe2; 0x82; 0xac; 66]) as (_ & H & _); [repeat constructor; done|done|].
    apply (H 0x20ac [66]); [unfold scalar; lia|reflexivity].
  - destruct (utf8_decode_exact tt [65] [0xed; 0xa0; 0x80]) as (_ & _ & _ & H); [repeat constructor; done|done|].
    apply H; intros c t Hc.
    + intros E. assert (Hr : utf8_ref [0xed; 0xa0; 0x80] = Accept c t) by (rewrite E; by apply utf8_ref_encode).
      discriminate Hr.
    + intros Ht E. assert (Hr : utf8_ref [0xed; 0xa0; 0x80] = Truncated).
      { apply utf8_ref_truncated; [repeat constructor; done|eauto]. }
      discriminate Hr.
Defined.

(** C32: [__ubmodem_utf8_to_pdu] turns any C string, in one allocation of its
    own size, into the big-endian UCS-2 text of its code points: a
    text of Unicode scalar values gives these, with the replacement character
    for those beyond the basic plane, and malformed bytes give replacement
    characters too. It fails only when malloc does, and never returns
    -EINVAL. *)
Theorem utf8_to_pdu_correct {S} (malloc : Z → M S Z) (free : Z → M S unit) (s s' : S) (l : list Z) (p : Z) :
  text l →
  malloc (u32 (2 * zlength (code_points l))) s = Done (p, s') →
  utf8_to_pdu malloc free l s =
    Done (if nonnull p then (2 * zlength (code_points l), Some (p, flat_map be16 (ucs2_encode <$> code_points l)))
          else (- ENOMEM, None), s') ∧
  (∀ cs, Forall scalar cs → l = flat_map utf8_encode cs → code_points l = cs) ∧
  Forall (λ c, c = -1 ∨ scalar c) (code_points l).
Proof.
  intros Hl Hm. split_and!.
  - by apply utf8_to_pdu_text.
  - intros cs Hcs ->. by apply code_points_encode.
  - by apply code_points_range, text_byte.
Qed.

Lemma utf8_to_pdu_correct_witness :
  utf8_to_pdu (λ n s, Done (if n =? 0 then 0 else 4096, s)) (λ _, mret tt) [0xe2; 0x82; 0xac; 0xff; 0x41; 0xf0; 0x9f; 0x98; 0x80] tt =
  Done (8, Some (4096, [0x20; 0xac; 0xff; 0xfd; 0; 0x41; 0xff; 0xfd]), tt).
Proof.
  destruct (utf8_to_pdu_correct (λ n s, Done (if n =? 0 then 0 else 4096, s)) (λ _, mret tt) tt tt
    [0xe2; 0x82; 0xac; 0xff; 0x41; 0xf0; 0x9f; 0x98; 0x80] 4096) as (H & _).
  - repeat constructor; done.
  - reflexivity.
  - exact H.
Defined.

(** C33: [__ubmodem_address_to_pdu] encodes the number a caller means: the
    leading plus sign as the type of the address, blanks and hyphens dropped,
    two digits to a byte. A reader of semi-octets gets the same number back.
    The empty string gives 0 and no buffer, a string with any other character
    -1; otherwise it fails only when malloc does, and its assertion about the
    length holds. *)
Theorem address_to_pdu_correct {S} (malloc : Z → M S Z) (s : S) (c : Z) (l : list Z) :
  address_to_pdu malloc [] s = Done (0, None, s) ∧
  match dial (c :: l) with
  | None => address_to_pdu malloc (c :: l) s = Done (-1, None, s)
  | Some n =>
      read_address (address_pdu n) = Some n ∧
      ∀ p s', malloc (zlength (address_pdu n)) s = Done (p, s') →
        address_to_pdu malloc (c :: l) s =
        Done (if nonnull p then (zlength (address_pdu n), Some (p, address_pdu n)) else (- ENOMEM, None), s')
  end.
Proof.
  split; [done|]. rewrite address_to_pdu_cons. destruct (dial (c :: l)) as [n|] eqn:E; [|done].
  split; [by eapply read_address_pdu|]. by intros p s' ->.
Qed.

(** C18: A message that [__ubmodem_pdu_multipart_iterator_init] accepts (up to
    255 parts of 134 bytes; others leave the iterator alone) is handed out by
    [__ubmodem_prepare_pdu_string] in as many PDUs as the iterator says, after
    which it returns no more, when memory suffices. What a receiver makes of
    them that takes the length of the address as 3GPP TS 23.040 does, for the
    number of its semi-octets: it accepts each PDU (at most 140 bytes of user
    data), finds the UCS-2 coding, the same address, reference and count and
    the parts in order, and gets the whole message; the address is the type and
    the digits of the number, but behind an odd count of digits the filler is
    taken for one more. A number of more than 20 digits it rejects, as longer
    than an address can be. A tolerant receiver, which only takes the bytes of
    the address from its length, gets every number back. *)
Theorem sms_parts_roundtrip {S} (malloc : Z → M S Z) (s : S) (it0 : multipdu_iter_s) (address msg : list Z) (n : bool * list Z) (ref : Z) :
  malloc_succeeds malloc → dial address = Some n → (length n.2 ≤ 254)%nat →
  Forall byte msg → 1 ≤ zlength msg < 2 ^ 31 → byte ref →
  if zlength msg <=? 255 * 134 then
    ∃ iter, multipart_iterator_init it0 (zlength msg) ref = (true, iter) ∧
      returns (prepare_all malloc (Z.to_nat (part_count iter) + 1) (address_pdu n) msg iter) s
        (λ pdus _, zlength pdus = part_count iter ∧
          receive_23040 pdus =
            (if bool_decide (length n.2 ≤ 20)%nat
             then Some ((if n.1 then 0x91 else 0x81) :: n.2 ++ filler n.2, msg) else None) ∧
          receive pdus = Some (address_pdu n, msg))
  else multipart_iterator_init it0 (zlength msg) ref = (false, it0).
Proof.
  intros Hm Hd Hn Hb HL Href. pose proof (address_pdu_ok _ _ Hd Hn) as Hr. pose proof (dial_digits _ _ Hd) as Hnib.
  pose proof (semi_octets_length n.2) as Hso.
  unfold zlength in HL |- *. rewrite multipart_iterator_init_spec by lia.
  destruct (Z.leb_spec (Z.of_nat (length msg)) (255 * 134)) as [H|H]; [|done].
  destruct (parts_of_spec (length msg)) as [Hc Hs]; [lia..|]. eexists. split; [done|].
  cbn [part_count iter_at]. rewrite Nat2Z.id.
  eapply returns_mono; [apply (prepare_all_from malloc (address_pdu n) msg _ ref Hr Hb); [unfold zlength; lia|done..]|].
  intros pdus s' ->. rewrite length_fmap, length_seq. split_and!; [done| |].
  - rewrite (receive_23040_all malloc (address_pdu n) msg _ ref Hr Hb) by (unfold zlength; lia || done).
    unfold address_pdu. cbn [address_23040]. rewrite nibbles_of_semi_octets by done.
    unfold zlength in Hso. rewrite Z.quot_div_nonneg in Hso by lia. unfold address_pdu. simpl length.
    do 2 case_bool_decide; (done || (exfalso; mod_lia)).
  - by apply (receive_all malloc (address_pdu n) msg _ ref Hr Hb); [unfold zlength; lia|..].
Qed.

(** To +358, three digits: the receiver of the standard gets the filler, too. *)
Lemma sms_parts_roundtrip_witness :
  ∃ iter, multipart_iterator_init (MkIter 0 0 0 0) 300 0x80 = (true, iter) ∧
    returns (prepare_all (λ _, mret 4096) (Z.to_nat (part_count iter) + 1) [0x91; 0x53; 0xf8] (replicate 300 65) iter) tt
      (λ pdus _, zlength pdus = part_count iter ∧ receive_23040 pdus = Some ([0x91; 3; 5; 8; 15], replicate 300 65) ∧
        receive pdus = Some ([0x91; 0x53; 0xf8], replicate 300 65)).
Proof.
  apply (sms_parts_roundtrip (λ _, mret 4096) tt (MkIter 0 0 0 0) [43; 51; 53; 56] (replicate 300 65) (true, [3; 5; 8]) 0x80).
  - intros n s Hn. reflexivity.
  - done.
  - simpl. lia.
  - by apply Forall_replicate.
  - done.
  - done.
Defined.

Lemma address_to_pdu_correct_witness :
  address_to_pdu (λ n s, Done (8192, s + n)) [43; 51; 53; 56; 32; 52; 48; 45; 49] 0 = Done (4, Some (8192, [0x91; 0x53; 0x48; 0x10]), 4).
Proof.
  destruct (address_to_pdu_correct (λ n s, Done (8192, s + n)) 0 43 [51; 53; 56; 32; 52; 48; 45; 49]) as (_ & _ & H).
  exact (H 8192 4 eq_refl).
Defined.
