(* ===== verification/SmsSend.v ===== *)
(** Sending short messages, apps/system/ubmodem/ubmodem_sms_send.c: the
    commands of a session with the modem and the handlers of its replies.

    A session is a struct send_sms_priv_s in memory.  It waits in the task
    queue, for the reply to a command, or for a timer; each of the handlers
    below is one step.  The parts of the driver underneath are an interface
    (class [ModemOs]). *)

From stdpp Require Import functions.
From S2P Require Import Prelude Ubx Sms.

Definition UBMODEM_LEVEL_NETWORK : Z := 5.
Definition MODEM_SEND_SMS_CONFIG_RETRIES : Z := 60.
Definition MODEM_SEND_SMS_CONFIG_RETRY_SECS : Z := 1.
Definition SIGLE_7BIT_SMS_MAX_LEN : Z := 160.
Definition SIZEOF_SEND_SMS_PRIV : Z := 60.
Definition ENONET : Z := 64.

(** The wrap-around of an int8_t. *)
Definition s8 (x : Z) : Z := (x + 2 ^ 7) `mod` 2 ^ 8 - 2 ^ 7.

Inductive sms_send_mode_t := SMS_SEND_MODE_PDU | SMS_SEND_MODE_TEXT.
#[global] Instance sms_send_mode_t_eq : EqDecision sms_send_mode_t.
Proof. solve_decision. Defined.

Inductive at_cmd_def_s := CMGS_write_pdu | CMGS_open_prompt | CGSMS | CMGF | CSCA.
#[global] Instance at_cmd_def_s_eq : EqDecision at_cmd_def_s.
Proof. solve_decision. Defined.

(** What goes to the modem: a command with fixed arguments, with a decimal
    number or with a string behind the equals sign, and raw bytes. *)
Inductive modem_out :=
| Command (cmd : at_cmd_def_s) (args : list Z)
| CommandDec (cmd : at_cmd_def_s) (n : Z)
| CommandStr (cmd : at_cmd_def_s) (str : list Z)
| Raw (cmd : at_cmd_def_s) (data : list Z).

Inductive at_resp_status_e :=
| RESP_STATUS_OK
| RESP_STATUS_URC
| RESP_STATUS_LINE
| RESP_STATUS_DATAPROMPT
| RESP_STATUS_ERROR
| RESP_STATUS_CME_ERROR
| RESP_STATUS_CMS_ERROR
| RESP_STATUS_TIMEOUT.
#[global] Instance at_resp_status_e_eq : EqDecision at_resp_status_e.
Proof. solve_decision. Defined.

Definition resp_status_is_error (status : at_resp_status_e) : bool :=
  match status with RESP_STATUS_ERROR | RESP_STATUS_CME_ERROR | RESP_STATUS_CMS_ERROR => true | _ => false end.
Definition resp_status_is_error_or_timeout (status : at_resp_status_e) : bool :=
  resp_status_is_error status || bool_decide (status = RESP_STATUS_TIMEOUT).

(** The arguments are =2, =0 or =1, and a question mark. *)
Definition sms_config_cmds_pdu_mode : list (at_cmd_def_s * list Z) := [(CGSMS, [61; 50]); (CMGF, [61; 48]); (CSCA, [63])].
Definition sms_config_cmds_text_mode : list (at_cmd_def_s * list Z) := [(CGSMS, [61; 50]); (CMGF, [61; 49]); (CSCA, [63])].

Record send_sms_priv_s := MkPriv {
  result_cb : Z;
  result_priv : Z;
  recv_pdu : Z;
  recv_pdulen : Z;
  msg_pdu : Z;
  msg_pdulen : Z;
  pdu : Z;
  pdulen : Z;
  multi_iter : multipdu_iter_s;
  config_pos : Z;
  config_retries : Z;
  config : list (at_cmd_def_s * list Z);
  send_mode : sms_send_mode_t;
  text_mode_msg : Z;
  receiver_phone_nbr : Z;
}.
Definition config_len (x : send_sms_priv_s) : Z := zlength (config x).

Definition set_pdu p n (x : send_sms_priv_s) := MkPriv (result_cb x) (result_priv x) (recv_pdu x) (recv_pdulen x) (msg_pdu x) (msg_pdulen x)
  p n (multi_iter x) (config_pos x) (config_retries x) (config x) (send_mode x) (text_mode_msg x) (receiver_phone_nbr x).
Definition set_iter i (x : send_sms_priv_s) := MkPriv (result_cb x) (result_priv x) (recv_pdu x) (recv_pdulen x) (msg_pdu x) (msg_pdulen x)
  (pdu x) (pdulen x) i (config_pos x) (config_retries x) (config x) (send_mode x) (text_mode_msg x) (receiver_phone_nbr x).
Definition set_config pos retries (x : send_sms_priv_s) := MkPriv (result_cb x) (result_priv x) (recv_pdu x) (recv_pdulen x) (msg_pdu x) (msg_pdulen x)
  (pdu x) (pdulen x) (multi_iter x) pos retries (config x) (send_mode x) (text_mode_msg x) (receiver_phone_nbr x).

(** The handlers of replies. *)
Inductive sms_handler := pdu_write_handler_fn | pdu_prompt_handler_fn | text_mode_prompt_handler_fn | configure_sms_handler_fn.

(** The parts of the driver that sms_send.c calls: sending on the serial line,
    the timers, the task queue, and the function that gets the result. *)
Class ModemOs (E : Type) := {
  send_out : modem_out → M E Z;
  arm_timer : Z → M E Z;
  queue_task : M E Z;
  call_result : Z → bool → Z → M E unit;
}.

(** The modem as the sessions see it: its level, the memory blocks and the
    sessions by address, the queued sessions, the handler of the next reply
    with its command and session, the timer's session, whether the state
    machine was sent back to waiting, and what was sent. *)
Record modem_s (E : Type) := Modem {
  level : Z;
  blks : gmap Z (list (option Z));
  privs : gmap Z send_sms_priv_s;
  tasks : list Z;
  response : option (sms_handler * at_cmd_def_s * Z);
  timer : option Z;
  waiting : bool;
  multipart_ref : Z;
  output : list modem_out;
  results : list (Z * bool * Z);
  m_os : E;
}.
Arguments Modem {_} _ _ _ _ _ _ _ _ _ _ _.
Arguments level {_} _.
Arguments blks {_} _.
Arguments privs {_} _.
Arguments tasks {_} _.
Arguments response {_} _.
Arguments timer {_} _.
Arguments waiting {_} _.
Arguments multipart_ref {_} _.
Arguments output {_} _.
Arguments results {_} _.
Arguments m_os {_} _.

Section SmsSend.
Context {E : Type} `{Os E} `{ModemOs E}.
Local Abbreviation st := (modem_s E).
Implicit Types (s : st).

Definition upd_blks b s := Modem (level s) b (privs s) (tasks s) (response s) (timer s) (waiting s) (multipart_ref s) (output s) (results s) (m_os s).
Definition upd_privs p s := Modem (level s) (blks s) p (tasks s) (response s) (timer s) (waiting s) (multipart_ref s) (output s) (results s) (m_os s).
Definition upd_tasks t s := Modem (level s) (blks s) (privs s) t (response s) (timer s) (waiting s) (multipart_ref s) (output s) (results s) (m_os s).
Definition upd_response r s := Modem (level s) (blks s) (privs s) (tasks s) r (timer s) (waiting s) (multipart_ref s) (output s) (results s) (m_os s).
Definition upd_timer t s := Modem (level s) (blks s) (privs s) (tasks s) (response s) t (waiting s) (multipart_ref s) (output s) (results s) (m_os s).
Definition upd_waiting w s := Modem (level s) (blks s) (privs s) (tasks s) (response s) (timer s) w (multipart_ref s) (output s) (results s) (m_os s).
Definition upd_ref r s := Modem (level s) (blks s) (privs s) (tasks s) (response s) (timer s) (waiting s) r (output s) (results s) (m_os s).
Definition upd_output o s := Modem (level s) (blks s) (privs s) (tasks s) (response s) (timer s) (waiting s) (multipart_ref s) o (results s) (m_os s).
Definition upd_results r s := Modem (level s) (blks s) (privs s) (tasks s) (response s) (timer s) (waiting s) (multipart_ref s) (output s) r (m_os s).
Definition upd_os (e : E) s := Modem (level s) (blks s) (privs s) (tasks s) (response s) (timer s) (waiting s) (multipart_ref s) (output s) (results s) e.
Definition upd_level l s := Modem l (blks s) (privs s) (tasks s) (response s) (timer s) (waiting s) (multipart_ref s) (output s) (results s) (m_os s).

Definition sys {A} (e : M E A) : M st A := zoom m_os upd_os e.

(** * Memory *)

(** A session; reading one that is not in memory faults. *)
Definition get_priv (p : Z) : M st send_sms_priv_s := λ s,
  match privs s !! p with Some x => Done (x, s) | None => Fault end.
Definition upd_priv (p : Z) (f : send_sms_priv_s → send_sms_priv_s) : M st unit :=
  x ← get_priv p;
  modify (λ s, upd_privs (<[p:=f x]> (privs s)) s).
Definition free_priv (p : Z) : M st unit :=
  get_priv p;;
  modify (λ s, upd_privs (delete p (privs s)) s);;
  sys (free p).

(** The block at an address, which is not NULL. *)
Definition get_blk (p : Z) : M st (list (option Z)) := λ s,
  match blks s !! p with Some b => Done (b, s) | None => Fault end.
Definition set_blk (p : Z) (b : list (option Z)) : M st unit :=
  modify (λ s, upd_blks (<[p:=b]> (blks s)) s).
(** Freeing NULL does nothing, freeing anything but a block faults. *)
Definition free_blk (p : Z) : M st unit :=
  if nonnull p then
    get_blk p;;
    modify (λ s, upd_blks (delete p (blks s)) s);;
    sys (free p)
  else mret tt.

(** The bytes before the first NUL of a block; a block without one is left. *)
Fixpoint string_of (b : list (option Z)) : M st (list Z) :=
  match b with
  | Some v :: b => if v =? 0 then mret [] else (l ← string_of b; mret (v :: l))
  | _ => λ _, Fault
  end.
Definition strlen (p : Z) : M st Z :=
  b ← get_blk p;
  l ← string_of b;
  mret (zlength l).

(** * The driver underneath *)

(** __ubmodem_send_cmd and __ubmodem_send_raw register the handler of the reply. *)
Definition modem_send (cmd : at_cmd_def_s) (handler : sms_handler) (p : Z) (out : modem_out) : M st Z :=
  modify (upd_response (Some (handler, cmd, p)));;
  modify (λ s, upd_output (output s ++ [out]) s);;
  sys (send_out out).

Definition set_retry_timer (p msec : Z) : M st Z :=
  err ← sys (arm_timer msec);
  if err =? ERROR then mret err
  else
    modify (upd_timer (Some p));;
    mret err.

Definition change_state_waiting : M st unit := modify (upd_waiting true).

Definition add_task (p : Z) : M st Z :=
  err ← sys queue_task;
  if err =? ERROR then mret ERROR
  else
    modify (λ s, upd_tasks (tasks s ++ [p]) s);;
    mret OK.

(** [if (sms_priv->result_cb) sms_priv->result_cb(modem, ok, sms_priv->result_priv)] *)
Definition call_result_cb (p : Z) (ok : bool) : M st unit :=
  x ← get_priv p;
  if nonnull (result_cb x) then
    modify (λ s, upd_results (results s ++ [(result_cb x, ok, result_priv x)]) s);;
    sys (call_result (result_cb x) ok (result_priv x))
  else mret tt.

(** * Sending the parts of a message *)

(** free(sms_priv->pdu), free(sms_priv->msg_pdu), free(sms_priv->recv_pdu). *)
Definition free_pdus (p : Z) : M st unit :=
  x ← get_priv p;
  free_blk (pdu x);;
  free_blk (msg_pdu x);;
  free_blk (recv_pdu x).

Definition free_text (p : Z) : M st unit :=
  x ← get_priv p;
  free_blk (text_mode_msg x);;
  free_blk (receiver_phone_nbr x).

Definition read_blk (p : Z) : M st (list Z) :=
  b ← get_blk p;
  contents b.

(** The length of a PDU is unsigned: an error of prepare_pdu_string is a large one. *)
Definition send_multipart_sms_pdu (p : Z) : M st Z :=
  lvl ← gets level;
  if lvl <? UBMODEM_LEVEL_NETWORK then
    free_pdus p;;
    call_result_cb p false;;
    free_priv p;;
    mret ERROR
  else
    x ← get_priv p;
    recv ← read_blk (recv_pdu x);
    msg ← read_blk (msg_pdu x);
    r ← prepare_pdu_string (λ n, sys (malloc n)) recv msg (multi_iter x);
    let '(ret, out, iter) := r in
    (match out with
     | Some (q, l) =>
         set_blk q (Some <$> l);;
         upd_priv p (λ x, set_iter iter (set_pdu q (u32 ret) x))
     | None => upd_priv p (λ x, set_pdu (if ret =? 0 then NULL else pdu x) (u32 ret) x)
     end);;
    x ← get_priv p;
    if pdulen x =? 0 then
      free_pdus p;;
      call_result_cb p false;;
      free_priv p;;
      mret ERROR
    else
      l ← read_blk (pdu x);
      smsc ← get_pdu_smsc_len l;
      err ← modem_send CMGS_open_prompt pdu_prompt_handler_fn p (CommandDec CMGS_open_prompt (s32 (pdulen x `quot` 2 - smsc)));
      assert (err =? OK);;
      mret OK.

Definition pdu_write_handler (cmd : at_cmd_def_s) (status : at_resp_status_e) (p : Z) : M st unit :=
  x ← get_priv p;
  free_blk (pdu x);;
  upd_priv p (λ x, set_pdu NULL (pdulen x) x);;
  assert (bool_decide (cmd = CMGS_write_pdu));;
  if resp_status_is_error_or_timeout status then
    x ← get_priv p;
    free_blk (msg_pdu x);;
    free_blk (recv_pdu x);;
    call_result_cb p false;;
    free_priv p;;
    change_state_waiting
  else
    x ← get_priv p;
    if part_pos (multi_iter x) <? part_count (multi_iter x) then
      r ← send_multipart_sms_pdu p;
      if r =? ERROR then change_state_waiting else mret tt
    else
      call_result_cb p true;;
      change_state_waiting.

Definition pdu_prompt_handler (cmd : at_cmd_def_s) (status : at_resp_status_e) (p : Z) : M st unit :=
  assert (bool_decide (cmd = CMGS_open_prompt));;
  if resp_status_is_error_or_timeout status || negb (bool_decide (status = RESP_STATUS_DATAPROMPT)) then
    free_pdus p;;
    call_result_cb p false;;
    free_priv p;;
    change_state_waiting
  else
    x ← get_priv p;
    b ← get_blk (pdu x);
    b ← put b (pdulen x) 0x1a;
    set_blk (pdu x) b;;
    l ← contents (take (Z.to_nat (u32 (pdulen x + 1))) b);
    assert (zlength l =? u32 (pdulen x + 1));;
    err ← modem_send CMGS_write_pdu pdu_write_handler_fn p (Raw CMGS_write_pdu l);
    assert (err =? OK);;
    mret tt.

(** * Text mode *)

Definition text_mode_prompt_handler (cmd : at_cmd_def_s) (status : at_resp_status_e) (p : Z) : M st unit :=
  assert (bool_decide (cmd = CMGS_open_prompt));;
  if resp_status_is_error_or_timeout status || negb (bool_decide (status = RESP_STATUS_DATAPROMPT)) then
    call_result_cb p false;;
    free_text p;;
    free_priv p;;
    change_state_waiting
  else
    x ← get_priv p;
    n ← strlen (text_mode_msg x);
    b ← get_blk (text_mode_msg x);
    b ← put b n 0x1a;
    set_blk (text_mode_msg x) b;;
    n ← strlen (text_mode_msg x);
    b ← get_blk (text_mode_msg x);
    l ← contents (take (Z.to_nat (n + 1)) b);
    err ← modem_send CMGS_write_pdu pdu_write_handler_fn p (Raw CMGS_write_pdu l);
    assert (err =? OK);;
    mret tt.

Definition send_text_mode_sms (p : Z) : M st Z :=
  lvl ← gets level;
  if lvl <? UBMODEM_LEVEL_NETWORK then
    call_result_cb p false;;
    free_text p;;
    free_priv p;;
    mret ERROR
  else
    x ← get_priv p;
    b ← get_blk (receiver_phone_nbr x);
    l ← string_of b;
    err ← modem_send CMGS_open_prompt text_mode_prompt_handler_fn p (CommandStr CMGS_open_prompt l);
    assert (err =? OK);;
    mret OK.

(** * Configuration *)

(** The branch of failure that configure_sms and its handler share. *)
Definition configure_failed (p : Z) : M st unit :=
  x ← get_priv p;
  (if bool_decide (send_mode x = SMS_SEND_MODE_PDU) then free_pdus p else free_text p);;
  call_result_cb p false;;
  free_priv p.

Definition configure_sms (p : Z) : M st Z :=
  lvl ← gets level;
  x ← get_priv p;
  if negb (lvl <? UBMODEM_LEVEL_NETWORK) && (config_pos x <? config_len x) then
    match config x !! Z.to_nat (config_pos x) with
    | Some (cmd, args) =>
        upd_priv p (λ x, set_config (config_pos x + 1) (config_retries x) x);;
        err ← modem_send cmd configure_sms_handler_fn p (Command cmd args);
        assert (err =? OK);;
        mret OK
    | None => λ _, Fault
    end
  else
    configure_failed p;;
    mret ERROR.

Definition retry_configure_timer_handler (p : Z) : M st unit :=
  r ← configure_sms p;
  if r =? ERROR then change_state_waiting else mret tt.

Definition configure_sms_handler (status : at_resp_status_e) (p : Z) : M st unit :=
  x ← get_priv p;
  if resp_status_is_error_or_timeout status then
    let last := config_pos x =? config_len x in
    (if last then upd_priv p (λ x, set_config (config_pos x) (s8 (config_retries x + 1)) x) else mret tt);;
    lvl ← gets level;
    if last && (config_retries x <? MODEM_SEND_SMS_CONFIG_RETRIES) && negb (lvl <? UBMODEM_LEVEL_NETWORK) then
      upd_priv p (λ x, set_config 0 (config_retries x) x);;
      err ← set_retry_timer p (MODEM_SEND_SMS_CONFIG_RETRY_SECS * 1000);
      assert (negb (err =? ERROR))
    else
      configure_failed p;;
      change_state_waiting
  else if config_pos x <? config_len x then
    r ← configure_sms p;
    if r =? ERROR then change_state_waiting else mret tt
  else if bool_decide (send_mode x = SMS_SEND_MODE_TEXT) then
    r ← send_text_mode_sms p;
    if r =? ERROR then change_state_waiting else mret tt
  else
    r ← send_multipart_sms_pdu p;
    if r =? ERROR then change_state_waiting else mret tt.

(** * Starting a session *)

(** char is unsigned on ARM. *)
Definition is_7bit_ascii (msg : list Z) : bool := forallb (λ c, c <=? 0x7f) msg.
Definition get_7bit_ascii_msg_len (msg : list Z) : Z :=
  foldr (λ c n, n + (if (c =? 10) || ((91 <=? c) && (c <=? 94)) || ((123 <=? c) && (c <=? 126)) then 2 else 1)) 0 msg.

Definition strdup (l : list Z) : M st Z :=
  p ← sys (malloc (u32 (zlength l + 1)));
  if nonnull p then
    set_blk p (Some <$> l ++ [0]);;
    mret p
  else mret NULL.

(** asprintf with the format of a string in quotation marks. *)
Definition asprintf_quoted (l : list Z) : M st (Z * Z) :=
  p ← sys (malloc (u32 (zlength l + 3)));
  if nonnull p then
    set_blk p (Some <$> [34] ++ l ++ [34; 0]);;
    mret (p, zlength l + 2)
  else mret (NULL, ERROR).

(** The new block of a conversion. *)
Definition new_blk (r : Z * option (Z * list Z)) : M st (Z * Z) :=
  match r with
  | (n, Some (p, l)) =>
      set_blk p (Some <$> l);;
      mret (n, p)
  | (n, None) => mret (n, NULL)
  end.

Definition sms_error (err : Z) : M st Z :=
  sys (set_errno err);;
  mret ERROR.

Definition ubmodem_send_sms (receiver message : list Z) (cb priv : Z) : M st Z :=
  lvl ← gets level;
  if lvl <? UBMODEM_LEVEL_NETWORK then sms_error ENONET
  else if is_7bit_ascii message && (get_7bit_ascii_msg_len message <=? SIGLE_7BIT_SMS_MAX_LEN) then
    p ← sys (calloc 1 SIZEOF_SEND_SMS_PRIV);
    if negb (nonnull p) then sms_error ENOMEM
    else
      txt ← strdup message;
      r ← asprintf_quoted receiver;
      let '(nbr, len) := r in
      if negb (nonnull txt) || (len <=? 0) then
        free_blk txt;;
        free_blk nbr;;
        sys (free p);;
        sms_error ENOMEM
      else
        modify (λ s, upd_privs (<[p:=MkPriv cb priv NULL 0 NULL 0 NULL 0 (MkIter 0 0 0 0) 0 0
          sms_config_cmds_text_mode SMS_SEND_MODE_TEXT txt nbr]> (privs s)) s);;
        add_task p
  else
    r ← address_to_pdu (λ n, sys (malloc n)) receiver;
    r ← new_blk r;
    let '(recv_pdulen, recv_pdu) := r in
    if recv_pdulen <=? 0 then
      free_blk recv_pdu;;
      sms_error ENOMEM
    else
      r ← utf8_to_pdu (λ n, sys (malloc n)) (λ p, sys (free p)) message;
      r ← new_blk r;
      let '(msg_pdulen, msg_pdu) := r in
      if msg_pdulen <? 0 then
        free_blk msg_pdu;;
        free_blk recv_pdu;;
        sms_error ENOMEM
      else
        p ← sys (calloc 1 SIZEOF_SEND_SMS_PRIV);
        if negb (nonnull p) then
          free_blk msg_pdu;;
          free_blk recv_pdu;;
          sms_error ENOMEM
        else
          ref ← gets multipart_ref;
          modify (upd_ref (u8 (ref + 1)));;
          let '(ok, iter) := multipart_iterator_init (MkIter 0 0 0 0) msg_pdulen ref in
          if negb ok then
            free_blk msg_pdu;;
            free_blk recv_pdu;;
            sys (free p);;
            sms_error EINVAL
          else
            modify (λ s, upd_privs (<[p:=MkPriv cb priv recv_pdu recv_pdulen msg_pdu msg_pdulen NULL 0 iter 0 0
              sms_config_cmds_pdu_mode SMS_SEND_MODE_PDU NULL NULL]> (privs s)) s);;
            add_task p.

(** * The events of a session *)

Inductive sms_event :=
| DoTask
| Reply (status : at_resp_status_e)
| TimerFires
| NewLevel (l : Z).

(** In the waiting state modem_do_task_work runs the first task; the parser calls the registered
    handler once; the timer calls its handler once. *)
Definition sms_step (e : sms_event) : M st unit :=
  match e with
  | DoTask =>
      w ← gets waiting;
      ts ← gets tasks;
      match w, ts with
      | false, _ | true, [] => mret tt
      | true, p :: ts =>
          modify (upd_tasks ts);;
          modify (upd_waiting false);;
          r ← configure_sms p;
          if r =? OK then mret tt else change_state_waiting
      end
  | Reply status =>
      h ← gets response;
      match h with
      | None => mret tt
      | Some (h, cmd, p) =>
          modify (upd_response None);;
          match h with
          | pdu_write_handler_fn => pdu_write_handler cmd status p
          | pdu_prompt_handler_fn => pdu_prompt_handler cmd status p
          | text_mode_prompt_handler_fn => text_mode_prompt_handler cmd status p
          | configure_sms_handler_fn => configure_sms_handler status p
          end
      end
  | TimerFires =>
      t ← gets timer;
      match t with
      | None => mret tt
      | Some p =>
          modify (upd_timer None);;
          retry_configure_timer_handler p
      end
  | NewLevel l => modify (upd_level l)
  end.

Fixpoint sms_run (es : list sms_event) : M st unit :=
  match es with
  | [] => mret tt
  | e :: es => sms_step e;; sms_run es
  end.

(** Whether something in the state waits for the event. *)
Definition due (ev : sms_event) (s : st) : bool :=
  match ev with
  | DoTask => waiting s && bool_decide (tasks s ≠ [])
  | Reply _ => bool_decide (is_Some (response s))
  | TimerFires => bool_decide (is_Some (timer s))
  | NewLevel _ => false
  end.

(** A run, with the number of events that were due. *)
Fixpoint sms_run_count (es : list sms_event) : M st nat :=
  match es with
  | [] => mret 0%nat
  | ev :: es =>
      d ← gets (due ev);
      sms_step ev;;
      n ← sms_run_count es;
      mret ((if d : bool then 1 else 0) + n)%nat
  end.
End SmsSend.
