(* ===== verification/SmsSession.v ===== *)
(** One session in PDU mode: the phases it goes through, and each step of it.

    [ModemLaws] states what the sessions rely on in the driver underneath. *)

From stdpp Require Import functions.
From S2P Require Import Prelude Ubx UbxInv Sms SmsUtf8 SmsPdu SmsThms SmsSend.

(** Ctrl-Z takes the place of the NUL. *)
Lemma put_end {S} (l : list Z) v w (s : S) :
  put (Some <$> l ++ [v]) (zlength l) w s = Done (Some <$> l ++ [w], s).
Proof.
  pose proof (put_next s l w []) as Hn. rewrite app_nil_r in Hn. rewrite <-Hn. unfold put, zlength.
  rewrite !length_fmap, !length_app, !length_fmap. simpl length. destruct (_ && _); [|done].
  rewrite Nat2Z.id. do 2 f_equal. rewrite fmap_app. simpl.
  rewrite !insert_app_r_alt by (rewrite length_fmap; lia). by rewrite length_fmap, Nat.sub_diag.
Qed.

Lemma take_whole (l : list Z) : take (Z.to_nat (zlength l)) (Some <$> l) = Some <$> l.
Proof. apply take_ge. rewrite length_fmap. unfold zlength. lia. Qed.

(** The driver underneath works: it keeps the memory of its clients, sends what
    it is told to and sets every timer.  This is a condition on the system, not
    what the driver promises: __ubmodem_send_cmd and __ubmodem_send_raw may
    return ERROR (ubmodem_command.c:236), and ___ubmodem_set_timer does when
    calloc fails (ubmodem_poll.c:340).  The handlers of ubmodem_sms_send.c take
    no such result: they assert that it is OK.  The task queue may be out of
    memory; [memory_suffices] below excludes that where it is needed. *)
Class ModemLaws (E : Type) `{OsLaws E, ModemOs E} := {
  send_out_ok e X o : owned e X → returns (send_out o) e (λ r e', r = OK ∧ owned e' X);
  arm_timer_ok e X n : owned e X → returns (arm_timer n) e (λ r e', r ≠ ERROR ∧ owned e' X);
  queue_task_ok e X : owned e X → returns queue_task e (λ _ e', owned e' X);
  call_result_ok e X cb ok priv : owned e X → returns (call_result cb ok priv) e (λ _ e', owned e' X);
}.

(** Memory is never short, for the tasks of the driver neither. *)
Record memory_suffices {E} `{OsLaws E, ModemOs E} : Prop := {
  malloc_suffices e X n : owned e X → 1 ≤ n < 2 ^ 31 → returns (malloc n) e (λ p _, p ≠ NULL);
  calloc_suffices e X n z : owned e X → 1 ≤ n → 1 ≤ z → n * z < 2 ^ 31 → returns (calloc n z) e (λ p _, p ≠ NULL);
  queue_suffices e X : owned e X → returns queue_task e (λ r _, r ≠ ERROR);
}.

(** * The automaton *)

(** The phases of a session, with the part of the message it is at and the
    retries of the configuration so far. *)
Inductive phase :=
| Queued
| Configuring (k : nat) (r : Z)
| Retrying (r : Z)
| Prompting (i : nat) (r : Z)
| Writing (i : nat) (r : Z)
| Failed
| Succeeded.

(** What an event does to a session with [c] parts. *)
Definition next (c : nat) (online : bool) (ph : phase) (e : sms_event) : phase :=
  match ph, e with
  | Queued, DoTask => if online then Configuring 1 0 else Failed
  | Configuring k r, Reply status =>
      if resp_status_is_error_or_timeout status then
        if bool_decide (k = 3%nat) && (r <? MODEM_SEND_SMS_CONFIG_RETRIES) && online then Retrying (r + 1) else Failed
      else if negb online then Failed
      else if bool_decide (k < 3)%nat then Configuring (k + 1) r
      else Prompting 0 r
  | Retrying r, TimerFires => if online then Configuring 1 r else Failed
  | Prompting i r, Reply status => if bool_decide (status = RESP_STATUS_DATAPROMPT) then Writing i r else Failed
  | Writing i r, Reply status =>
      if resp_status_is_error_or_timeout status then Failed
      else if bool_decide (i + 1 < c)%nat then if online then Prompting (i + 1) r else Failed
      else Succeeded
  | _, _ => ph
  end.

Definition next_level (lvl : Z) (e : sms_event) : Z := match e with NewLevel l => l | _ => lvl end.
Definition online (lvl : Z) : bool := UBMODEM_LEVEL_NETWORK <=? lvl.
#[global] Arguments online : simpl never.

Section SmsSession.
Context {E : Type} `{ModemLaws E}.
Local Abbreviation st := (modem_s E).
Implicit Types (s : st) (e : E) (bl : gmap Z (list (option Z))).

(** * Steps on memory *)

Lemma returns_sys {A} (c : M E A) s (Q : A → st → Prop) :
  returns c (m_os s) (λ r e', Q r (upd_os e' s)) → returns (sys c) s Q.
Proof. apply returns_zoom. Qed.

Lemma returns_get_priv p x s (Q : send_sms_priv_s → st → Prop) :
  privs s !! p = Some x → Q x s → returns (get_priv p) s Q.
Proof. unfold returns, get_priv. by intros ->. Qed.

Lemma returns_upd_priv p x f s (Q : unit → st → Prop) :
  privs s !! p = Some x → Q tt (upd_privs (<[p:=f x]> (privs s)) s) → returns (upd_priv p f) s Q.
Proof. intros Hp HQ. by eapply returns_bind, returns_get_priv, returns_modify. Qed.

Lemma returns_get_blk q l s (Q : list (option Z) → st → Prop) :
  blks s !! q = Some l → Q l s → returns (get_blk q) s Q.
Proof. unfold returns, get_blk. by intros ->. Qed.

Lemma returns_read_blk q l s (Q : list Z → st → Prop) :
  blks s !! q = Some (Some <$> l) → Q l s → returns (read_blk q) s Q.
Proof.
  intros Hq HQ. eapply returns_bind, returns_get_blk; [done|]. eapply returns_intro; [apply contents_full|done].
Qed.

Lemma returns_free_null s (Q : unit → st → Prop) : Q tt s → returns (free_blk NULL) s Q.
Proof. done. Qed.

Lemma owned_head e X q : owned e (q :: X) → q ≠ NULL ∧ q ∉ X.
Proof.
  intros Ho. apply owned_nodup in Ho. apply NoDup_cons in Ho as [Hn Hd]. apply NoDup_cons in Hd as [Hq _].
  split; [|done]. intros ->. apply Hn. by left.
Qed.

Lemma returns_free_blk q l bl X s (Q : unit → st → Prop) :
  blks s = <[q:=l]> bl → bl !! q = None → owned (m_os s) (q :: X) →
  (∀ e', owned e' X → Q tt (upd_os e' (upd_blks bl s))) → returns (free_blk q) s Q.
Proof.
  intros Hb Hq Ho HQ. destruct (owned_head _ _ _ Ho) as [Hn _]. unfold free_blk, nonnull.
  rewrite (proj2 (Z.eqb_neq q 0)) by done. simpl negb.
  eapply returns_bind, returns_get_blk; [by rewrite Hb, lookup_insert_eq|].
  apply returns_bind, returns_modify, returns_sys. eapply returns_mono; [by apply (free_ok _ X)|].
  intros [] e' [_ He]. rewrite Hb, delete_insert_id by done. by apply HQ.
Qed.

Lemma returns_free_priv p x s (Q : unit → st → Prop) :
  privs s = {[p := x]} → owned (m_os s) [p] →
  (∀ e', owned e' [] → Q tt (upd_os e' (upd_privs ∅ s))) → returns (free_priv p) s Q.
Proof.
  intros Hp Ho HQ. eapply returns_bind, returns_get_priv; [by rewrite Hp, lookup_singleton_eq|].
  apply returns_bind, returns_modify, returns_sys. eapply returns_mono; [by apply (free_ok _ [])|].
  intros [] e' [_ He]. rewrite Hp, delete_singleton_eq. by apply HQ.
Qed.

Lemma returns_call_result p x ok X s (Q : unit → st → Prop) :
  privs s !! p = Some x → result_cb x ≠ NULL → owned (m_os s) X →
  (∀ e', owned e' X → Q tt (upd_os e' (upd_results (results s ++ [(result_cb x, ok, result_priv x)]) s))) →
  returns (call_result_cb p ok) s Q.
Proof.
  intros Hp Hcb Ho HQ. eapply returns_bind, returns_get_priv; [done|]. unfold nonnull.
  rewrite (proj2 (Z.eqb_neq _ 0)) by done. apply returns_bind, returns_modify, returns_sys.
  eapply returns_mono; [by apply call_result_ok|]. intros [] e' He. by apply HQ.
Qed.

Lemma returns_modem_send cmd h p o X s (Q : Z → st → Prop) :
  owned (m_os s) X →
  (∀ e', owned e' X → Q OK (upd_os e' (upd_output (output s ++ [o]) (upd_response (Some (h, cmd, p)) s)))) →
  returns (modem_send cmd h p o) s Q.
Proof.
  intros Ho HQ. do 2 apply returns_bind, returns_modify. apply returns_sys.
  eapply returns_mono; [by apply send_out_ok|]. intros r e' [-> He]. by apply HQ.
Qed.

(** * The phases in memory *)

Context (p a b cb rp ref : Z) (R Mg : list Z).
Hypothesis HR : recv_ok R.
Hypothesis HM : Forall byte Mg.
Hypothesis HL : (1 ≤ length Mg)%nat ∧ Z.of_nat (length Mg) ≤ 255 * 134.
Hypothesis Href : byte ref.
Hypothesis Hcb : cb ≠ NULL.
Hypothesis Hmem : memory_suffices.

Local Abbreviation c := (parts_of (length Mg)).
Local Abbreviation tpdu_at i := (part_tpdu R Mg (iter_at (length Mg) c ref i)).

Definition sess (i : nat) (q n pos r : Z) : send_sms_priv_s :=
  MkPriv cb rp a (zlength R) b (zlength Mg) q n (iter_at (length Mg) c ref i) pos r
    sms_config_cmds_pdu_mode SMS_SEND_MODE_PDU NULL NULL.

Definition base : gmap Z (list (option Z)) := <[b:=Some <$> Mg]> (<[a:=Some <$> R]> ∅).

(** The control state. *)
Definition ctl s ts resp tm w : Prop := tasks s = ts ∧ response s = resp ∧ timer s = tm ∧ waiting s = w.

(** The memory of the session: its blocks, and itself at [p]. *)
Definition holds s (Q : list Z) bl (x : send_sms_priv_s) : Prop :=
  blks s = bl ∧ privs s = {[p := x]} ∧ owned (m_os s) (Q ++ [b; a; p]).

(** What was sent behind the configuration. *)
Definition is_config (o : modem_out) : bool := match o with Command _ _ => true | _ => false end.
Definition sms_out (l : list modem_out) : list modem_out := filter (λ o, is_config o = false) l.
Definition prompt_out (i : nat) : modem_out := CommandDec CMGS_open_prompt (zlength (tpdu_at i) - 1).
Definition part_out (i : nat) : list modem_out := [prompt_out i; Raw CMGS_write_pdu (flat_map hex (tpdu_at i) ++ [0x1a])].
Definition sent_parts (n : nat) : list modem_out := flat_map part_out (seq 0 n).

Definition in_phase (ph : phase) s : Prop :=
  match ph with
  | Queued => ctl s [p] None None true ∧ holds s [] base (sess 0 NULL 0 0 0) ∧ results s = [] ∧ sms_out (output s) = []
  | Configuring k r => (∃ cmd, ctl s [] (Some (configure_sms_handler_fn, cmd, p)) None false) ∧ (1 ≤ k ≤ 3)%nat ∧ 0 ≤ r ≤ 60 ∧
      holds s [] base (sess 0 NULL 0 (Z.of_nat k) r) ∧ results s = [] ∧ sms_out (output s) = []
  | Retrying r => ctl s [] None (Some p) false ∧ 0 ≤ r ≤ 60 ∧
      holds s [] base (sess 0 NULL 0 0 r) ∧ results s = [] ∧ sms_out (output s) = []
  | Prompting i r => (∃ q, ctl s [] (Some (pdu_prompt_handler_fn, CMGS_open_prompt, p)) None false ∧ (i < c)%nat ∧
      base !! q = None ∧
      holds s [q] (<[q:=Some <$> flat_map hex (tpdu_at i) ++ [0]]> base) (sess (i + 1) q (2 * zlength (tpdu_at i)) 3 r)) ∧
      results s = [] ∧ sms_out (output s) = sent_parts i ++ [prompt_out i]
  | Writing i r => (∃ q n, ctl s [] (Some (pdu_write_handler_fn, CMGS_write_pdu, p)) None false ∧ (i < c)%nat ∧
      base !! q = None ∧
      holds s [q] (<[q:=Some <$> flat_map hex (tpdu_at i) ++ [0x1a]]> base) (sess (i + 1) q n 3 r)) ∧
      results s = [] ∧ sms_out (output s) = sent_parts (i + 1)
  | Failed => ctl s [] None None true ∧ blks s = ∅ ∧ privs s = ∅ ∧ owned (m_os s) [] ∧ results s = [(cb, false, rp)]
  | Succeeded => ctl s [] None None true ∧ (∃ n r, holds s [] base (sess c NULL n 3 r)) ∧
      results s = [(cb, true, rp)] ∧ sms_out (output s) = sent_parts c
  end.

(** The end of a session that fails, before the state machine waits again. *)
Definition given_up s : Prop :=
  ctl s [] None None false ∧ blks s = ∅ ∧ privs s = ∅ ∧ owned (m_os s) [] ∧ results s = [(cb, false, rp)].

Lemma base_ne e X : owned e (X ++ [b; a; p]) → b ≠ a ∧ base !! b = Some (Some <$> Mg) ∧ base !! a = Some (Some <$> R) ∧
  (∀ q, q ∈ X → base !! q = None).
Proof.
  intros Ho. apply owned_nodup in Ho. apply NoDup_cons in Ho as [_ Hd]. apply NoDup_app in Hd as (_ & Hx & Hd).
  apply NoDup_cons in Hd as [Hb Hd]. apply NoDup_cons in Hd as [Ha _]. assert (b ≠ a) by set_solver.
  unfold base. split_and!; [done|by simplify_map_eq|by simplify_map_eq|].
  intros q Hq. specialize (Hx q Hq). rewrite !lookup_insert_ne; [done|set_solver..].
Qed.

(** Giving the message and the number back. *)
Local Abbreviation half := (<[a:=Some <$> R]> (∅ : gmap Z (list (option Z)))).

Lemma returns_free_msg s (Q : unit → st → Prop) :
  blks s = base → owned (m_os s) [b; a; p] →
  (∀ e', owned e' [a; p] → Q tt (upd_os e' (upd_blks half s))) → returns (free_blk b) s Q.
Proof.
  intros Hb Ho HQ. destruct (base_ne _ [] Ho) as (Hne & _).
  eapply (returns_free_blk b _ _ [a; p]); [exact Hb|by rewrite lookup_insert_ne by done|done|done].
Qed.

Lemma returns_free_recv s (Q : unit → st → Prop) :
  blks s = half → owned (m_os s) [a; p] →
  (∀ e', owned e' [p] → Q tt (upd_os e' (upd_blks ∅ s))) → returns (free_blk a) s Q.
Proof. intros Hb Ho HQ. by eapply (returns_free_blk a _ ∅ [p]). Qed.

(** The PDU of the next part, if there is one, its blocks and its contents. *)
Definition with_pdu (q : Z) (l : list (option Z)) (X : list Z) bl : Prop :=
  (q = NULL ∧ X = [] ∧ bl = base) ∨ (X = [q] ∧ bl = <[q:=l]> base ∧ base !! q = None).

Lemma returns_free_pdu q l X bl s (Q : unit → st → Prop) :
  with_pdu q l X bl → blks s = bl → owned (m_os s) (X ++ [b; a; p]) →
  (∀ e', owned e' [b; a; p] → Q tt (upd_os e' (upd_blks base s))) → returns (free_blk q) s Q.
Proof.
  intros Hw Hb Ho HQ. destruct Hw as [(-> & -> & ->)|(-> & -> & Hq)].
  - apply returns_free_null. specialize (HQ (m_os s) Ho). destruct s. simpl in *. by subst.
  - by eapply (returns_free_blk q l base [b; a; p]).
Qed.

Lemma returns_free_pdus i q n pos r l X bl s (Q : unit → st → Prop) :
  with_pdu q l X bl → holds s X bl (sess i q n pos r) →
  (∀ e', owned e' [p] → Q tt (upd_os e' (upd_blks ∅ s))) → returns (free_pdus p) s Q.
Proof.
  intros Hw (Hb & Hp & Ho) HQ. unfold free_pdus.
  eapply returns_bind, returns_get_priv; [by rewrite Hp, lookup_singleton_eq|]. cbn [pdu msg_pdu recv_pdu sess].
  apply returns_bind. eapply returns_free_pdu; [done|done|done|]. intros e1 H1'.
  apply returns_bind, returns_free_msg; [done|done|]. intros e2 H2'.
  apply returns_free_recv; [done|done|]. intros e3 H3'. by apply HQ.
Qed.

(** Telling the client of the failure, and giving the session back. *)
Lemma returns_give_up {A} i q n pos r ts tm w (k : M st A) s (Q : A → st → Prop) :
  blks s = ∅ → privs s = {[p := sess i q n pos r]} → owned (m_os s) [p] → ctl s ts None tm w → results s = [] →
  (∀ s', level s' = level s → ctl s' ts None tm w → blks s' = ∅ → privs s' = ∅ → owned (m_os s') [] →
     results s' = [(cb, false, rp)] → returns k s' Q) →
  returns (call_result_cb p false;; free_priv p;; k) s Q.
Proof.
  intros Hb Hp Ho Hc Hr HQ. apply returns_bind.
  eapply returns_call_result; [by rewrite Hp, lookup_singleton_eq|done|done|]. intros e1 H1'.
  apply returns_bind. eapply returns_free_priv; [done|done|]. intros e2 H2'.
  apply HQ; try done. simpl. by rewrite Hr.
Qed.

Lemma returns_configure_failed i n pos r ts tm w s (Q : unit → st → Prop) :
  holds s [] base (sess i NULL n pos r) → ctl s ts None tm w → results s = [] →
  (∀ s', level s' = level s → ctl s' ts None tm w → blks s' = ∅ → privs s' = ∅ → owned (m_os s') [] →
     results s' = [(cb, false, rp)] → Q tt s') →
  returns (configure_failed p) s Q.
Proof.
  intros (Hb & Hp & Ho) Hc Hr HQ. unfold configure_failed.
  eapply returns_bind, returns_get_priv; [by rewrite Hp, lookup_singleton_eq|]. simpl (bool_decide _). cbv iota.
  apply returns_bind. eapply (returns_free_pdus i NULL n pos r [] [] base); [by left|done|]. intros e1 H1'.
  apply returns_bind. eapply returns_call_result; [simpl; by rewrite Hp, lookup_singleton_eq|done|done|]. intros e2 H2'.
  eapply returns_free_priv; [done|done|]. intros e3 H3'. apply HQ; try done. simpl. by rewrite Hr.
Qed.

(** * The steps *)

Lemma online_ltb lvl : (lvl <? UBMODEM_LEVEL_NETWORK) = negb (online lvl).
Proof. unfold online. by rewrite Z.leb_antisym, negb_involutive. Qed.

Lemma sms_out_app l k : sms_out (l ++ k) = sms_out l ++ sms_out k.
Proof. apply filter_app. Qed.

(** configure_sms, before the [k]-th command. *)
Lemma returns_configure_sms k r s : (k < 3)%nat → 0 ≤ r ≤ 60 →
  holds s [] base (sess 0 NULL 0 (Z.of_nat k) r) → ctl s [] None None false → results s = [] → sms_out (output s) = [] →
  returns (configure_sms p) s (λ v s', level s' = level s ∧
    if online (level s) then v = OK ∧ in_phase (Configuring (k + 1) r) s' else v = ERROR ∧ given_up s').
Proof.
  intros Hk Hr Hh Hc Hres Hout. pose proof Hh as (Hb & Hp & Ho). unfold configure_sms.
  apply returns_bind, returns_gets. eapply returns_bind, returns_get_priv; [by rewrite Hp, lookup_singleton_eq|].
  rewrite online_ltb, negb_involutive. destruct (online (level s)); simpl andb; cbv iota.
  - assert (∃ cmd args, config (sess 0 NULL 0 (Z.of_nat k) r) !! Z.to_nat (Z.of_nat k) = Some (cmd, args)) as (cmd & args & Ecmd).
    { rewrite Nat2Z.id. destruct k as [|[|[|]]]; [by eauto..|lia]. }
    change (config_pos (sess 0 NULL 0 (Z.of_nat k) r)) with (Z.of_nat k).
    rewrite (proj2 (Z.ltb_lt (Z.of_nat k) _)) by (change (config_len _) with 3; lia). rewrite Ecmd.
    apply returns_bind. eapply returns_upd_priv; [by rewrite Hp, lookup_singleton_eq|].
    apply returns_bind. eapply returns_modem_send; [done|]. intros e1 H1'.
    apply returns_bind, returns_assert; [done|]. apply returns_ret. split_and!; [done..|].
    destruct Hc as (Ht & _ & Htm & Hw). unfold in_phase, holds, ctl. simpl. split_and!; try done; try lia; [by eauto| |].
    + rewrite Hp, insert_singleton_eq. unfold sess, set_config. simpl. by rewrite Nat2Z.inj_add.
    + by rewrite sms_out_app, Hout.
  - apply returns_bind. eapply returns_configure_failed; [done|done|done|]. intros s' ??????. by apply returns_ret.
Qed.

(** send_multipart_sms_pdu, before the [i]-th part. *)
Lemma returns_send_multipart i n r s : (i < c)%nat →
  holds s [] base (sess i NULL n 3 r) → ctl s [] None None false → results s = [] → sms_out (output s) = sent_parts i →
  returns (send_multipart_sms_pdu p) s (λ v s', level s' = level s ∧
    if online (level s) then v = OK ∧ in_phase (Prompting i r) s' else v = ERROR ∧ given_up s').
Proof.
  intros Hi Hh Hc Hres Hout. pose proof Hh as (Hb & Hp & Ho). unfold send_multipart_sms_pdu.
  apply returns_bind, returns_gets. rewrite online_ltb. destruct (online (level s)); simpl negb; cbv iota.
  - eapply returns_bind, returns_get_priv; [by rewrite Hp, lookup_singleton_eq|].
    pose proof (base_ne _ [] Ho) as (Hne & Hbb & Hba & _). cbn [recv_pdu msg_pdu multi_iter sess].
    apply returns_bind. eapply returns_read_blk; [by rewrite Hb|]. apply returns_bind. eapply returns_read_blk; [by rewrite Hb|].
    destruct (parts_of_spec (length Mg)) as [Hc1 Hc2]; [lia..|].
    assert (Hlen : zlength Mg < 2 ^ 31) by (unfold zlength; lia).
    pose proof (tpdu_length R Mg c ref HR Hc1 Hc2 i Hi) as Hl.
    assert (Hl0 : ∃ l, tpdu_at i = 0 :: l) by (unfold part_tpdu, tpdu; simpl; eauto). destruct Hl0 as [l0 El].
    assert (Hz : 1 ≤ zlength (tpdu_at i) ≤ 300) by (rewrite El in *; unfold zlength; simpl in *; lia).
    assert (Hm : returns (malloc (u32 (2 * zlength (tpdu_at i) + 1))) (m_os s) (λ q e', q ≠ NULL ∧ owned e' [q; b; a; p])).
    { rewrite u32_small by lia.
      destruct (returns_elim _ _ _ (malloc_ok _ [b; a; p] (2 * zlength (tpdu_at i) + 1) Ho ltac:(lia))) as (q & e' & Em & _ & Ho').
      pose proof (malloc_suffices Hmem _ [b; a; p] (2 * zlength (tpdu_at i) + 1) Ho ltac:(lia)) as Hq.
      unfold returns in *. rewrite Em in *. by rewrite (proj2 (Z.eqb_neq q 0)) in Ho' by done. }
    destruct (returns_elim _ _ _ Hm) as (q & e' & Em & Hq & Ho').
    apply returns_bind. eapply returns_intro.
    { apply (prepare_next (λ n, sys (malloc n)) s R Mg (iter_at (length Mg) c ref i) q (upd_os e' s)); try done.
      - apply HR.
      - unfold zlength. lia.
      - by apply iter_ok_at.
      - unfold zlength. simpl. unfold part_room in *. case_bool_decide; nia.
      - simpl. lia.
      - unfold sys, zoom. by rewrite Em. }
    unfold nonnull. rewrite (proj2 (Z.eqb_neq q 0)) by done. simpl negb. cbv iota beta.
    rewrite next_at by done. rewrite u32_small by lia.
    assert (Hqb : base !! q = None) by (destruct (base_ne e' [q] Ho') as (_ & _ & _ & Hx); apply Hx; by left).
    do 2 apply returns_bind. apply returns_modify. eapply returns_upd_priv; [simpl; by rewrite Hp, lookup_singleton_eq|].
    cbn [upd_os upd_blks upd_privs privs blks level tasks response timer waiting multipart_ref output results m_os].
    rewrite Hp, insert_singleton_eq, Hb.
    eapply returns_bind, returns_get_priv; [simpl; by rewrite lookup_singleton_eq|].
    cbn [set_iter set_pdu sess pdulen pdu].
    rewrite (proj2 (Z.eqb_neq (2 * zlength (tpdu_at i)) 0)) by lia.
    apply returns_bind. eapply returns_read_blk; [apply lookup_insert_eq|].
    apply returns_bind. eapply returns_intro; [rewrite El; reflexivity|].
    apply returns_bind. eapply returns_modem_send; [done|]. intros e1 H1'.
    apply returns_bind, returns_assert; [done|]. apply returns_ret. split_and!; [done..|].
    rewrite <-El. change (1 + fromhex _ _) with 1.
    replace (s32 _) with (zlength (tpdu_at i) - 1)
      by (rewrite Z.mul_comm, Z.quot_mul, s32_small by lia; lia).
    destruct Hc as (Ht & _ & Htm & Hw). unfold in_phase, holds, ctl. simpl. split; [|split; [done|]].
    + exists q. by split_and!.
    + by rewrite sms_out_app, Hout.
  - apply returns_bind. eapply (returns_free_pdus i NULL n 3 r [] [] base); [by left|done|]. intros e1 H1'.
    eapply (returns_give_up i NULL n 3 r [] None false); [done..|]. intros s' ??????. by apply returns_ret.
Qed.

Lemma given_up_failed s : given_up s → in_phase Failed (upd_waiting true s).
Proof. intros ((Ht & Hrs & Htm & Hw) & Hrest). by split. Qed.

(** The end of the handlers that go on with another command. *)
Lemma returns_go_on ph (c0 : M st Z) l s :
  returns c0 s (λ v s', level s' = l ∧ if online l then v = OK ∧ in_phase ph s' else v = ERROR ∧ given_up s') →
  returns (r ← c0; if r =? ERROR then change_state_waiting else mret tt) s
    (λ _ s', level s' = l ∧ in_phase (if online l then ph else Failed) s').
Proof.
  intros Hc. apply returns_bind. eapply returns_mono; [exact Hc|]. intros v s' [Hl Hv].
  destruct (online l).
  - destruct Hv as [-> Hv]. by apply returns_ret.
  - destruct Hv as [-> Hv]. apply returns_modify. split; [done|]. by apply given_up_failed.
Qed.

Lemma s8_small x : - 2 ^ 7 ≤ x < 2 ^ 7 → s8 x = x.
Proof. intros Hx. unfold s8. rewrite Z.mod_small; lia. Qed.

Lemma returns_configure_fail i n pos r l s : level s = l →
  holds s [] base (sess i NULL n pos r) → ctl s [] None None false → results s = [] →
  returns (configure_failed p;; change_state_waiting) s (λ _ s', level s' = l ∧ in_phase Failed s').
Proof.
  intros <- Hh Hc Hres. apply returns_bind. eapply returns_configure_failed; [done..|].
  intros s' Hl (Ht & Hrs & Htm & Hw) ????. by apply returns_modify.
Qed.

Lemma configure_handler_step k r status s : in_phase (Configuring k r) s →
  returns (configure_sms_handler status p) (upd_response None s)
    (λ _ s', level s' = level s ∧ in_phase (next c (online (level s)) (Configuring k r) (Reply status)) s').
Proof.
  intros ([cmd Hc] & Hk & Hr & Hh & Hres & Hout). pose proof Hh as (Hb & Hp & Ho). destruct Hc as (Ht & _ & Htm & Hw).
  assert (Hc : ctl (upd_response None s) [] None None false) by done.
  assert (Hh' : holds (upd_response None s) [] base (sess 0 NULL 0 (Z.of_nat k) r)) by done.
  unfold configure_sms_handler. eapply returns_bind, returns_get_priv; [simpl; by rewrite Hp, lookup_singleton_eq|].
  change (config_pos (sess 0 NULL 0 (Z.of_nat k) r)) with (Z.of_nat k). change (config_len (sess _ _ _ _ _)) with 3.
  simpl next. destruct (resp_status_is_error_or_timeout status).
  - rewrite (bool_decide_ext (k = 3%nat) (Z.of_nat k = 3)) by lia. destruct (Z.eqb_spec (Z.of_nat k) 3) as [E3|E3].
    + rewrite (bool_decide_eq_true_2 (Z.of_nat k = 3)) by done. cbn [andb config_retries sess].
      apply returns_bind. eapply returns_upd_priv; [simpl; by rewrite Hp, lookup_singleton_eq|].
      simpl privs. rewrite Hp, insert_singleton_eq. unfold set_config at 1. cbn [sess config_pos config_retries].
      rewrite s8_small by lia. apply returns_bind, returns_gets. rewrite online_ltb, negb_involutive. cbn [level upd_privs upd_response].
      destruct (Z.ltb_spec r MODEM_SEND_SMS_CONFIG_RETRIES) as [E60|E60]; [destruct (online (level s))|]; cbn [andb].
      * unfold MODEM_SEND_SMS_CONFIG_RETRIES in E60.
        apply returns_bind. eapply returns_upd_priv; [apply lookup_singleton_eq|].
        apply returns_bind. unfold set_retry_timer. apply returns_bind, returns_sys.
        eapply returns_mono; [by apply (arm_timer_ok _ [b; a; p])|]. intros err e' [He Ho'].
        rewrite (proj2 (Z.eqb_neq err ERROR)) by done. apply returns_bind, returns_modify, returns_ret, returns_assert.
        { by rewrite (proj2 (Z.eqb_neq err ERROR)) by done. }
        split; [done|]. unfold in_phase, ctl, holds. simpl. split_and!; try done; try lia. by rewrite insert_singleton_eq.
      * by eapply (returns_configure_fail 0 0 (Z.of_nat k) (r + 1)).
      * by eapply (returns_configure_fail 0 0 (Z.of_nat k) (r + 1)).
    + rewrite (bool_decide_eq_false_2 (Z.of_nat k = 3)) by done. apply returns_bind, returns_ret, returns_bind, returns_gets.
      cbn [andb]. by eapply (returns_configure_fail 0 0 (Z.of_nat k) r).
  - rewrite (bool_decide_ext (k < 3)%nat (Z.of_nat k < 3)) by lia. destruct (Z.ltb_spec (Z.of_nat k) 3) as [E3|E3].
    + rewrite bool_decide_eq_true_2 by done.
      eapply returns_mono; [apply (returns_go_on (Configuring (k + 1) r)), returns_configure_sms; [lia|done..]|].
      intros [] s' [Hl Hph]. split; [done|]. simpl level in Hph. by destruct (online (level s)).
    + rewrite (bool_decide_eq_false_2 (Z.of_nat k < 3)) by lia. simpl (bool_decide (_ = _)). cbv iota.
      assert (k = 3%nat) as -> by lia. destruct (parts_of_spec (length Mg)) as [Hc1 _]; [lia..|].
      eapply returns_mono; [apply (returns_go_on (Prompting 0 r)), (returns_send_multipart 0 0); [lia|done..]|].
      intros [] s' [Hl Hph]. split; [done|]. simpl level in Hph. by destruct (online (level s)).
Qed.

(** A failure behind the configuration: the session is given back, and the
    state machine waits. *)
Lemma returns_drop i q n pos r l lb X bl s : level s = l →
  with_pdu q lb X bl → holds s X bl (sess i q n pos r) → ctl s [] None None false → results s = [] →
  returns (free_pdus p;; call_result_cb p false;; free_priv p;; change_state_waiting) s
    (λ _ s', level s' = l ∧ in_phase Failed s').
Proof.
  intros <- Hw Hh Hc Hres. apply returns_bind. pose proof Hh as (_ & Hp & _).
  eapply returns_free_pdus; [done..|]. intros e1 H1'.
  eapply (returns_give_up i q n pos r [] None false); [done..|]. intros s' Hl (Ht & Hrs & Htm & Hw') ????.
  by apply returns_modify.
Qed.

Lemma not_prompt status :
  resp_status_is_error_or_timeout status || negb (bool_decide (status = RESP_STATUS_DATAPROMPT)) =
  negb (bool_decide (status = RESP_STATUS_DATAPROMPT)).
Proof. by destruct status. Qed.

Lemma prompt_handler_step i r status s : in_phase (Prompting i r) s →
  returns (pdu_prompt_handler CMGS_open_prompt status p) (upd_response None s)
    (λ _ s', level s' = level s ∧ in_phase (next c (online (level s)) (Prompting i r) (Reply status)) s').
Proof.
  intros ((q & (Ht & _ & Htm & Hw) & Hi & Hq & Hh) & Hres & Hout). pose proof Hh as (Hb & Hp & Ho).
  unfold pdu_prompt_handler. apply returns_bind, returns_assert; [done|]. rewrite not_prompt. simpl next.
  destruct (bool_decide (status = _)); cbn [negb]; cbv iota.
  - eapply returns_bind, returns_get_priv; [simpl; by rewrite Hp, lookup_singleton_eq|]. cbn [pdu pdulen sess].
    eapply returns_bind, returns_get_blk; [simpl; rewrite Hb; apply lookup_insert_eq|].
    apply returns_bind. eapply returns_intro.
    { replace (2 * zlength (tpdu_at i)) with (zlength (flat_map hex (tpdu_at i))) by (unfold zlength; rewrite flat_map_hex_length; lia).
      apply put_end. }
    apply returns_bind, returns_modify.
    destruct (parts_of_spec (length Mg)) as [Hc1 Hc2]; [lia..|].
    pose proof (tpdu_length R Mg c ref HR Hc1 Hc2 i Hi) as Hl. set (l := flat_map hex (tpdu_at i) ++ [26]).
    assert (Hz : u32 (2 * zlength (tpdu_at i) + 1) = zlength l).
    { unfold l, zlength. rewrite length_app, flat_map_hex_length, u32_small by lia. simpl. lia. }
    rewrite Hz, take_whole.
    apply returns_bind. eapply returns_intro; [apply contents_full|]. apply returns_bind, returns_assert; [apply Z.eqb_refl|].
    apply returns_bind. eapply returns_modem_send; [exact Ho|]. intros e1 H1'.
    apply returns_bind, returns_assert; [done|]. apply returns_ret. split; [done|]. unfold in_phase, holds, ctl. simpl.
    split_and!; [|done|].
    + exists q, (2 * zlength (tpdu_at i)). split_and!; try done. rewrite Hb. apply insert_insert_eq.
    + rewrite sms_out_app, Hout. unfold sent_parts. rewrite seq_app, flat_map_app. simpl. by rewrite <-!app_assoc.
  - eapply (returns_drop (i + 1) q _ 3 r _ _ [q]); [done|right; by split_and!|done..].
Qed.

Lemma write_handler_step i r status s : in_phase (Writing i r) s →
  returns (pdu_write_handler CMGS_write_pdu status p) (upd_response None s)
    (λ _ s', level s' = level s ∧ in_phase (next c (online (level s)) (Writing i r) (Reply status)) s').
Proof.
  intros ((q & n & (Ht & _ & Htm & Hw) & Hi & Hq & Hh) & Hres & Hout). pose proof Hh as (Hb & Hp & Ho).
  unfold pdu_write_handler. eapply returns_bind, returns_get_priv; [simpl; by rewrite Hp, lookup_singleton_eq|].
  cbn [pdu sess]. apply returns_bind. eapply (returns_free_blk q _ base [b; a; p]); [exact Hb|done|exact Ho|]. intros e1 H1'.
  apply returns_bind. eapply returns_upd_priv; [simpl; by rewrite Hp, lookup_singleton_eq|].
  simpl privs. rewrite Hp, insert_singleton_eq. apply returns_bind, returns_assert; [done|]. simpl next.
  set (s1 := upd_privs _ _). assert (Hh1 : holds s1 [] base (sess (i + 1) NULL n 3 r)) by done.
  assert (Hc1 : ctl s1 [] None None false) by done. pose proof Hh1 as (Hb1 & Hp1 & Ho1).
  destruct (resp_status_is_error_or_timeout status).
  - eapply returns_bind, returns_get_priv; [by rewrite Hp1, lookup_singleton_eq|]. cbn [msg_pdu recv_pdu sess].
    apply returns_bind, returns_free_msg; [done|done|]. intros e2 H2'.
    apply returns_bind, returns_free_recv; [done|done|]. intros e3 H3'.
    eapply (returns_give_up (i + 1) NULL n 3 r [] None false); [done..|].
    intros s' Hl (Ht' & Hrs & Htm' & Hw') ????. by apply returns_modify.
  - eapply returns_bind, returns_get_priv; [by rewrite Hp1, lookup_singleton_eq|]. cbn [multi_iter sess part_pos part_count iter_at].
    rewrite (bool_decide_ext (i + 1 < c)%nat (Z.of_nat (i + 1) < Z.of_nat c)) by lia.
    destruct (Z.ltb_spec (Z.of_nat (i + 1)) (Z.of_nat c)) as [Hlt|Hge].
    + rewrite bool_decide_eq_true_2 by done.
      eapply returns_mono; [apply (returns_go_on (Prompting (i + 1) r)), (returns_send_multipart (i + 1) n); [lia|done..]|].
      intros [] s' [Hl Hph]. done.
    + rewrite bool_decide_eq_false_2 by lia. apply returns_bind.
      eapply returns_call_result; [by rewrite Hp1, lookup_singleton_eq|done|exact Ho1|]. intros e2 H2'.
      apply returns_modify. split; [done|]. assert (i + 1 = c)%nat as Hic by lia. unfold in_phase, ctl, holds. simpl.
      rewrite <-Hic. split_and!; try done; [exists n, r; by split_and!|by rewrite Hres].
Qed.

(** Each step of the code is one of the automaton. *)
Theorem sms_step_refines ph (ev : sms_event) s : in_phase ph s →
  returns (sms_step ev) s (λ _ s', level s' = next_level (level s) ev ∧ in_phase (next c (online (level s)) ph ev) s').
Proof.
  intros Hph. destruct ev as [|status| |l]; simpl next_level.
  - unfold sms_step. do 2 apply returns_bind, returns_gets. destruct ph as [|k r|r|i r|i r| |].
    + destruct Hph as (Hc & Hh & Hres & Hout). destruct Hc as (Ht & Hrs & Htm & Hw). rewrite Hw, Ht.
      do 2 apply returns_bind, returns_modify.
      eapply returns_bind, returns_mono; [apply (returns_configure_sms 0 0); [lia|lia|done..]|].
      intros v s' [Hl Hv]. simpl level in *. simpl next. destruct (online (level s)); destruct Hv as [-> Hv].
      * by apply returns_ret.
      * apply returns_modify. split; [done|]. by apply given_up_failed.
    + destruct Hph as ([cmd Hc] & Hrest). pose proof Hc as (Ht & _ & _ & Hw). rewrite Hw. apply returns_ret. split; [done|].
      split; [by eauto|done].
    + pose proof Hph as ((_ & _ & _ & Hw) & _). rewrite Hw. by apply returns_ret.
    + pose proof Hph as ((q & (_ & _ & _ & Hw) & _) & _). rewrite Hw. by apply returns_ret.
    + pose proof Hph as ((q & n & (_ & _ & _ & Hw) & _) & _). rewrite Hw. by apply returns_ret.
    + pose proof Hph as ((Ht & _ & _ & Hw) & _). rewrite Hw, Ht. by apply returns_ret.
    + pose proof Hph as ((Ht & _ & _ & Hw) & _). rewrite Hw, Ht. by apply returns_ret.
  - unfold sms_step. apply returns_bind, returns_gets. destruct ph as [|k r|r|i r|i r| |].
    + pose proof Hph as ((_ & Hrs & _) & _). rewrite Hrs. by apply returns_ret.
    + pose proof Hph as ([cmd (_ & Hrs & _)] & _). rewrite Hrs. apply returns_bind, returns_modify.
      by apply configure_handler_step.
    + pose proof Hph as ((_ & Hrs & _) & _). rewrite Hrs. by apply returns_ret.
    + pose proof Hph as ((q & (_ & Hrs & _) & _) & _). rewrite Hrs. apply returns_bind, returns_modify.
      by apply prompt_handler_step.
    + pose proof Hph as ((q & n & (_ & Hrs & _) & _) & _). rewrite Hrs. apply returns_bind, returns_modify.
      by apply write_handler_step.
    + pose proof Hph as ((_ & Hrs & _) & _). rewrite Hrs. by apply returns_ret.
    + pose proof Hph as ((_ & Hrs & _) & _). rewrite Hrs. by apply returns_ret.
  - unfold sms_step. apply returns_bind, returns_gets. destruct ph as [|k r|r|i r|i r| |].
    + pose proof Hph as ((_ & _ & Htm & _) & _). rewrite Htm. by apply returns_ret.
    + pose proof Hph as ([cmd (_ & _ & Htm & _)] & _). rewrite Htm. by apply returns_ret.
    + destruct Hph as (Hc & Hr & Hh & Hres & Hout). pose proof Hc as (Ht & Hrs & Htm & Hw). rewrite Htm. apply returns_bind, returns_modify.
      unfold retry_configure_timer_handler.
      eapply returns_mono; [apply (returns_go_on (Configuring 1 r)), (returns_configure_sms 0 r); [lia|done..]|]. done.
    + pose proof Hph as ((q & (_ & _ & Htm & _) & _) & _). rewrite Htm. by apply returns_ret.
    + pose proof Hph as ((q & n & (_ & _ & Htm & _) & _) & _). rewrite Htm. by apply returns_ret.
    + pose proof Hph as ((_ & _ & Htm & _) & _). rewrite Htm. by apply returns_ret.
    + pose proof Hph as ((_ & _ & Htm & _) & _). rewrite Htm. by apply returns_ret.
  - apply returns_modify. split; [done|]. by destruct ph.
Qed.
End SmsSession.
