(* ===== verification/SmsSendThms.v ===== *)
(** The properties of sending short messages: a session from
    ubmodem_send_sms to its result, and where the code goes wrong. *)

From stdpp Require Import functions.
From S2P Require Import Prelude Ubx UbxInv Sms SmsUtf8 SmsPdu SmsThms SmsSend SmsSession UbxDemo.

(** * Runs of the automaton *)

Fixpoint auto_run (c : nat) (lvl : Z) (ph : phase) (es : list sms_event) : phase :=
  match es with
  | [] => ph
  | ev :: es => auto_run c (next_level lvl ev) (next c (online lvl) ph ev) es
  end.

(** The text of a message on the air, and whether it needs PDU mode. *)
Definition ucs2_text (message : list Z) : list Z := flat_map be16 (ucs2_encode <$> code_points message).
Definition needs_pdu (message : list Z) : Prop :=
  is_7bit_ascii message && (get_7bit_ascii_msg_len message <=? SIGLE_7BIT_SMS_MAX_LEN) = false.

Lemma be16_length l : length (flat_map be16 l) = (2 * length l)%nat.
Proof. induction l as [|v l IH]; [done|]. simpl. lia. Qed.

Lemma be16_bytes l : Forall (λ x, 0 ≤ x < 2 ^ 16) l → Forall byte (flat_map be16 l).
Proof.
  induction 1 as [|x l Hx Hl IH]; [constructor|]. simpl. unfold byte.
  constructor; [mod_lia|]. constructor; [mod_lia|done].
Qed.

Lemma ucs2_text_bytes message : Forall byte (ucs2_text message).
Proof. apply be16_bytes, Forall_fmap, Forall_forall. intros x _. apply ucs2_encode_range. Qed.

Section SmsSendThms.
Context {E : Type} `{ModemLaws E}.
Local Abbreviation st := (modem_s E).
Implicit Types (s : st).

(** A driver on the network with nothing to send. *)
Record sms_idle (s : st) : Prop := {
  idle_level : online (level s) = true;
  idle_blks : blks s = ∅;
  idle_privs : privs s = ∅;
  idle_tasks : tasks s = [];
  idle_response : response s = None;
  idle_timer : timer s = None;
  idle_waiting : waiting s = true;
  idle_ref : byte (multipart_ref s);
  idle_output : output s = [];
  idle_results : results s = [];
  idle_owned : owned (m_os s) [];
}.

Hypothesis Hmem : memory_suffices.

Lemma malloc_some e X n : owned e X → 1 ≤ n < 2 ^ 31 → ∃ p e', malloc n e = Done (p, e') ∧ p ≠ NULL ∧ owned e' (p :: X).
Proof.
  intros Ho Hn. destruct (returns_elim _ _ _ (malloc_ok e X n Ho Hn)) as (p & e' & Em & _ & Ho').
  pose proof (malloc_suffices Hmem e X n Ho Hn) as Hp. unfold returns in Hp. rewrite Em in Hp.
  exists p, e'. by rewrite (proj2 (Z.eqb_neq p 0)) in Ho' by done.
Qed.

Lemma calloc_some e X n z : owned e X → 1 ≤ n → 1 ≤ z → n * z < 2 ^ 31 →
  ∃ p e', calloc n z e = Done (p, e') ∧ p ≠ NULL ∧ owned e' (p :: X).
Proof.
  intros Ho Hn Hz Hnz. destruct (returns_elim _ _ _ (calloc_ok e X n z Ho Hn Hz Hnz)) as (p & e' & Em & _ & Ho').
  pose proof (calloc_suffices Hmem e X n z Ho Hn Hz Hnz) as Hp. unfold returns in Hp. rewrite Em in Hp.
  exists p, e'. by rewrite (proj2 (Z.eqb_neq p 0)) in Ho' by done.
Qed.

Lemma sms_run_refines p a b cb rp ref R Mg es : 
  recv_ok R → Forall byte Mg → (1 ≤ length Mg)%nat ∧ Z.of_nat (length Mg) ≤ 255 * 134 → byte ref → cb ≠ NULL →
  ∀ ph s, in_phase p a b cb rp ref R Mg ph s →
  returns (sms_run es) s (λ _ s', in_phase p a b cb rp ref R Mg (auto_run (parts_of (length Mg)) (level s) ph es) s').
Proof.
  intros HR HM HL Href Hcb. induction es as [|ev es IH]; intros ph s Hph; [by apply returns_ret|].
  simpl. apply returns_bind. eapply returns_mono; [by apply (sms_step_refines p a b cb rp ref R Mg)|].
  intros [] s' [Hl Hph']. rewrite <-Hl. by apply IH.
Qed.

Lemma returns_new_blk q l n s (Q : Z * Z → st → Prop) :
  Q (n, q) (upd_blks (<[q:=Some <$> l]> (blks s)) s) → returns (new_blk (n, Some (q, l))) s Q.
Proof. intros HQ. by apply returns_bind, returns_modify, returns_ret. Qed.

(** What ubmodem_send_sms accepts in PDU mode: a telephone number, and a text
    that needs this mode and fits 255 parts. *)
Record sms_sendable (receiver message : list Z) (n : bool * list Z) : Prop := {
  send_dial : dial receiver = Some n;
  send_receiver : receiver ≠ [];
  send_digits : (length n.2 ≤ 254)%nat;
  send_text : text message;
  send_mode_pdu : needs_pdu message;
  send_length : Z.of_nat (length (ucs2_text message)) ≤ 255 * 134;
  send_nonempty : message ≠ [];
}.

Lemma ucs2_text_nonempty message : text message → message ≠ [] → (2 ≤ length (ucs2_text message))%nat.
Proof.
  intros Ht Hne. destruct message as [|x message]; [done|]. unfold ucs2_text.
  rewrite code_points_cons by by apply text_byte. rewrite be16_length. simpl. lia.
Qed.

(** The session is queued with the number and the text. *)
Lemma send_sms_queues receiver message n cb rp s : sms_idle s → sms_sendable receiver message n →
  returns (ubmodem_send_sms receiver message cb rp) s (λ v s',
    v = OK ∧ level s' = level s ∧
    ∃ p a b, in_phase p a b cb rp (multipart_ref s) (address_pdu n) (ucs2_text message) Queued s').
Proof.
  intros [] []. unfold ubmodem_send_sms. apply returns_bind, returns_gets. rewrite online_ltb, idle_level0. cbn [negb].
  unfold needs_pdu in *. rewrite send_mode_pdu0.
  destruct (address_pdu_ok _ _ send_dial0 send_digits0) as [HRb HRl]. pose proof (ucs2_text_nonempty _ send_text0 send_nonempty0) as HT.
  assert (Htl : zlength (ucs2_text message) = 2 * zlength (code_points message)).
  { unfold zlength, ucs2_text. rewrite be16_length, length_fmap. lia. }
  destruct (malloc_some _ [] (zlength (address_pdu n)) idle_owned0) as (a & e1 & Ea & Ha & Ho1); [unfold zlength; lia|].
  destruct (malloc_some _ [a] (2 * zlength (code_points message)) Ho1) as (b & e2 & Eb & Hb & Ho2); [rewrite <-Htl; unfold zlength; lia|].
  destruct (calloc_some _ [b; a] 1 SIZEOF_SEND_SMS_PRIV Ho2) as (p & e3 & Ep & Hp & Ho3); [unfold SIZEOF_SEND_SMS_PRIV; lia..|].
  destruct receiver as [|c0 receiver]; [done|].
  apply returns_bind. eapply returns_intro.
  { rewrite address_to_pdu_cons, send_dial0. unfold sys, zoom. by rewrite Ea. }
  unfold nonnull. rewrite (proj2 (Z.eqb_neq a 0)) by done. cbn [negb].
  apply returns_bind, returns_new_blk. rewrite (proj2 (Z.leb_gt _ 0)) by (unfold zlength; lia).
  apply returns_bind. eapply returns_intro.
  { apply (utf8_to_pdu_text (λ n, sys (malloc n)) _ _ _ b (upd_os e2 (upd_blks (<[a:=Some <$> address_pdu n]> ∅) s)) send_text0).
    rewrite u32_small by (rewrite <-Htl; unfold zlength; lia). unfold sys, zoom. simpl. rewrite Eb, idle_blks0. done. }
  unfold nonnull. rewrite (proj2 (Z.eqb_neq b 0)) by done. cbn [negb]. rewrite <-Htl. fold (ucs2_text message).
  apply returns_bind, returns_new_blk. rewrite (proj2 (Z.ltb_ge _ 0)) by (unfold zlength; lia).
  apply returns_bind, returns_sys. eapply returns_intro; [exact Ep|]. rewrite (proj2 (Z.eqb_neq p 0)) by done. cbn [negb].
  apply returns_bind, returns_gets, returns_bind, returns_modify. unfold zlength at 1.
  rewrite multipart_iterator_init_spec by lia. rewrite (proj2 (Z.leb_le _ _)) by done. cbn [negb].
  apply returns_bind, returns_modify.
  unfold add_task. apply returns_bind, returns_sys.
  destruct (returns_elim _ _ _ (queue_task_ok _ [p; b; a] Ho3)) as (v & e4 & Eq & Ho4).
  pose proof (queue_suffices Hmem _ [p; b; a] Ho3) as Hv. unfold returns in Hv. rewrite Eq in Hv.
  eapply returns_intro; [exact Eq|]. rewrite (proj2 (Z.eqb_neq v ERROR)) by done.
  apply returns_bind, returns_modify, returns_ret. split_and!; [done|done|].
  exists p, a, b. unfold in_phase, ctl, holds. simpl. rewrite idle_tasks0, idle_privs0, idle_results0, idle_output0. split_and!; try done.
  eapply owned_perm; [|exact Ho4]. solve_Permutation.
Qed.
End SmsSendThms.

(** * What the modem gets *)

(** A modem in PDU mode: each prompt gives the length of the PDU that follows,
    in bytes and without the service centre's address (of one byte here), and
    Ctrl-Z ends it. *)
Fixpoint modem_read (l : list modem_out) : option (list (list Z)) :=
  match l with
  | [] => Some []
  | CommandDec CMGS_open_prompt n :: Raw CMGS_write_pdu d :: l =>
      let body := take (length d - 1) d in
      if bool_decide (d = body ++ [0x1a] ∧ zlength body = 2 * (n + 1)) then
        r ← modem_read l; Some ((body ++ [0]) :: r)
      else None
  | _ => None
  end.

Definition modem_receives (l : list modem_out) : option (list Z * list Z) :=
  pdus ← modem_read (sms_out l); receive pdus.

Lemma modem_read_parts R Mg ref k i :
  modem_read (flat_map (part_out ref R Mg) (seq i k)) =
  Some ((λ i, flat_map hex (part_tpdu R Mg (iter_at (length Mg) (parts_of (length Mg)) ref i)) ++ [0]) <$> seq i k).
Proof.
  revert i. induction k as [|k IH]; intros i; [done|]. cbn [seq flat_map]. unfold part_out at 1, prompt_out.
  cbn [app modem_read]. set (t := flat_map hex _). rewrite length_app. change (length [26]) with 1%nat.
  rewrite Nat.add_sub, take_app_length, bool_decide_eq_true_2, IH; [done|].
  split; [done|]. unfold t, zlength. rewrite flat_map_hex_length. lia.
Qed.

(** What has come of a session in a phase. *)
Definition sms_outcome {E} `{OsLaws E} (cb rp : Z) (number text : list Z) (ph : phase) (s : modem_s E) : Prop :=
  match ph with
  | Succeeded => results s = [(cb, true, rp)] ∧ waiting s = true ∧
      modem_receives (output s) = Some (number, text) ∧
      ∃ p a b, owned (m_os s) [b; a; p] ∧ dom (blks s) = {[a; b]} ∧ dom (privs s) = {[p]}
  | Failed => results s = [(cb, false, rp)] ∧ waiting s = true ∧ blks s = ∅ ∧ privs s = ∅ ∧ owned (m_os s) []
  | Queued => results s = [] ∧ waiting s = true
  | _ => results s = [] ∧ waiting s = false
  end.

Lemma in_phase_outcome {E} `{ModemLaws E} p a b cb rp ref R Mg ph (s : modem_s E) :
  recv_ok R → Forall byte Mg → (1 ≤ length Mg)%nat ∧ Z.of_nat (length Mg) ≤ 255 * 134 → byte ref →
  in_phase p a b cb rp ref R Mg ph s → sms_outcome cb rp R Mg ph s.
Proof.
  intros HR HM HL Href Hph. destruct (parts_of_spec (length Mg)) as [Hc1 Hc2]; [lia..|].
  destruct ph as [|k r|r|i r|i r| |]; simpl in *.
  - by destruct Hph as ((_ & _ & _ & Hw) & _ & Hr & _).
  - by destruct Hph as ([cmd (_ & _ & _ & Hw)] & _ & _ & _ & Hr & _).
  - by destruct Hph as ((_ & _ & _ & Hw) & _ & _ & Hr & _).
  - by destruct Hph as ((q & (_ & _ & _ & Hw) & _) & Hr & _).
  - by destruct Hph as ((q & n & (_ & _ & _ & Hw) & _) & Hr & _).
  - by destruct Hph as ((_ & _ & _ & Hw) & Hb & Hp & Ho & Hr).
  - destruct Hph as ((_ & _ & _ & Hw) & (n & r & Hb & Hp & Ho) & Hr & Hout). split_and!; [done|done| |].
    + unfold modem_receives. rewrite Hout. unfold sent_parts. rewrite modem_read_parts. simpl.
      apply (receive_all (λ _, mret 0 : M unit Z) R Mg _ ref HR HM); [unfold zlength; lia|done..].
    + exists p, a, b. split_and!; [done| |].
      * rewrite Hb. unfold base. rewrite !dom_insert_L, dom_empty_L. set_solver.
      * by rewrite Hp, dom_singleton_L.
Qed.

(** * Progress *)

(** The events a session with [c] parts can still wait for. *)
Definition events_left (c : nat) (ph : phase) : nat :=
  match ph with
  | Queued => 244 + 2 * c
  | Configuring k r => 4 * Z.to_nat (60 - r) + (4 - k) + 2 * c
  | Retrying r => 4 * Z.to_nat (60 - r) + 4 + 2 * c
  | Prompting i _ => 2 * (c - i)
  | Writing i _ => 2 * (c - i) - 1
  | Failed | Succeeded => 0
  end.

Section Progress.
Context {E : Type} `{ModemLaws E}.
Local Abbreviation st := (modem_s E).
Implicit Types (s : st).
Context (p a b cb rp ref : Z) (R Mg : list Z).
Local Abbreviation c := (parts_of (length Mg)).
Local Abbreviation phased := (in_phase p a b cb rp ref R Mg).

Lemma events_left_step ph (ev : sms_event) s : phased ph s → (1 ≤ c)%nat →
  ((if due ev s then 1 else 0) + events_left c (next c (online (level s)) ph ev) ≤ events_left c ph)%nat.
Proof.
  intros Hph Hc.
  assert (Hctl : tasks s = (if ph is Queued then [p] else []) ∧
    (is_Some (response s) → match ph with Configuring _ _ | Prompting _ _ | Writing _ _ => True | _ => False end) ∧
    (is_Some (timer s) → match ph with Retrying _ => True | _ => False end)).
  { destruct ph as [|k r|r|i r|i r| |]; simpl in Hph;
      repeat match goal with H : _ ∧ _ |- _ => destruct H | H : ∃ _, _ |- _ => destruct H | H : ctl _ _ _ _ _ |- _ => destruct H as (Ht & Hrs & Htm & _) end;
      rewrite ?Ht, ?Hrs, ?Htm; (split; [done|split; intros [? ?]; done]). }
  destruct Hctl as (Ht & Hrs & Htm).
  assert (Hbd : match ph with Configuring k r => (1 ≤ k ≤ 3)%nat | Prompting i _ | Writing i _ => (i < c)%nat | _ => True end).
  { destruct ph as [|k r|r|i r|i r| |]; simpl in Hph; try done; [by destruct Hph as (_ & ? & _)|
      by destruct Hph as ((? & _ & ? & _) & _)|by destruct Hph as ((? & ? & _ & ? & _) & _)]. }
  destruct ev; cbn [due]; rewrite ?Ht.
  - destruct ph; simpl; rewrite ?andb_false_r; simpl; try lia. destruct (waiting s), (online (level s)); simpl; lia.
  - assert (Hd : ((if bool_decide (is_Some (response s)) then 1 else 0) ≤
      match ph with Configuring _ _ | Prompting _ _ | Writing _ _ => 1 | _ => 0 end)%nat).
    { case_bool_decide as E1; [apply Hrs in E1; by destruct ph|by destruct ph; lia]. }
    destruct ph as [|k r|r|i r|i r| |]; cbn [next]; try lia; repeat case_match; cbn [events_left] in *;
      unfold MODEM_SEND_SMS_CONFIG_RETRIES in *; destruct_and?; try case_bool_decide; subst; lia.
  - assert (Hd : ((if bool_decide (is_Some (timer s)) then 1 else 0) ≤ match ph with Retrying _ => 1 | _ => 0 end)%nat).
    { case_bool_decide as E1; [apply Htm in E1; by destruct ph|by destruct ph; lia]. }
    destruct ph as [|k r|r|i r|i r| |]; cbn [next]; try lia. destruct (online (level s)); cbn [events_left] in *; lia.
  - destruct ph; simpl; lia.
Qed.
End Progress.

Lemma auto_run_good c lvl k : online lvl = true → (k ≤ c)%nat → (1 ≤ k)%nat →
  auto_run c lvl (Prompting (c - k) 0) (concat (replicate k [Reply RESP_STATUS_DATAPROMPT; Reply RESP_STATUS_OK])) = Succeeded.
Proof.
  intros Hl. induction k as [|k IH]; intros Hk Hk1; [lia|]. simpl. rewrite Hl.
  destruct (decide (k = 0%nat)) as [->|Hne].
  - by rewrite bool_decide_eq_false_2 by lia.
  - rewrite bool_decide_eq_true_2 by lia. replace (c - S k + 1)%nat with (c - k)%nat by lia. apply IH; lia.
Qed.

(** The replies of a modem that takes everything. *)
Definition good_replies (c : nat) : list sms_event :=
  DoTask :: replicate 3 (Reply RESP_STATUS_OK) ++ concat (replicate c [Reply RESP_STATUS_DATAPROMPT; Reply RESP_STATUS_OK]).

Lemma auto_run_delivers c lvl : online lvl = true → (1 ≤ c)%nat → auto_run c lvl Queued (good_replies c) = Succeeded.
Proof.
  intros Hl Hc. unfold good_replies. simpl. rewrite !Hl. simpl.
  rewrite <-(Nat.sub_diag c). by apply auto_run_good.
Qed.

Section Properties.
Context {E : Type} `{ModemLaws E}.
Local Abbreviation st := (modem_s E).
Implicit Types (s : st).

Lemma ucs2_bounds receiver message n : sms_sendable receiver message n →
  (1 ≤ length (ucs2_text message))%nat ∧ Z.of_nat (length (ucs2_text message)) ≤ 255 * 134.
Proof. intros []. pose proof (ucs2_text_nonempty _ send_text0 send_nonempty0). split; [lia|done]. Qed.

(** A session from its start, for whatever follows. *)
Lemma returns_session {A} (k : Z → M st A) receiver message n cb rp s (Q : A → st → Prop) :
  memory_suffices → sms_idle s → sms_sendable receiver message n →
  (∀ p a b s', level s' = level s → in_phase p a b cb rp (multipart_ref s) (address_pdu n) (ucs2_text message) Queued s' →
     returns (k OK) s' Q) →
  returns (v ← ubmodem_send_sms receiver message cb rp; k v) s Q.
Proof.
  intros Hmem Hi Hs HQ. apply returns_bind. eapply returns_mono; [by eapply send_sms_queues|].
  intros v s' (-> & Hl & p & a & b & Hph). by eapply HQ.
Qed.

(** C17: A message that needs PDU mode, sent with ubmodem_send_sms while the
    modem is on the network, becomes a session that follows the automaton
    [next], whatever the replies, timers and changes of the modem's level and
    however often the configuration is repeated, as long as memory suffices
    ([memory_suffices]: malloc, calloc and the task queue do not fail) and the
    driver underneath accepts every command and timer ([ModemLaws]); the
    assertions of the handlers rest on both. Then nothing faults; the result
    function is called once, at the end; it is told of success only if the
    modem took every part after its prompt, and then a tolerant receiver of
    these PDUs reads the number and the whole text; after a failure all memory
    is given back. After a success it is not: the session, the number and the
    message stay allocated. *)
Theorem sms_session_correct receiver message n cb rp es s :
  memory_suffices → sms_idle s → sms_sendable receiver message n → cb ≠ NULL →
  returns (v ← ubmodem_send_sms receiver message cb rp; sms_run es;; mret v) s (λ v s',
    v = OK ∧ sms_outcome cb rp (address_pdu n) (ucs2_text message)
      (auto_run (parts_of (length (ucs2_text message))) (level s) Queued es) s').
Proof.
  intros Hmem Hi Hs Hcb. apply (returns_session _ receiver message n cb rp); [done..|].
  intros p a b s' Hl Hph. pose proof (ucs2_bounds _ _ _ Hs) as HL. pose proof Hs as [].
  pose proof (address_pdu_ok _ _ send_dial0 send_digits0) as HR. pose proof (ucs2_text_bytes message) as HM.
  destruct Hi. apply returns_bind. eapply returns_mono.
  { by apply (sms_run_refines Hmem p a b cb rp (multipart_ref s) (address_pdu n) (ucs2_text message)). }
  intros [] s'' Hph'. apply returns_ret. split; [done|]. rewrite Hl in Hph'. by eapply in_phase_outcome.
Qed.

Lemma sms_run_count_ends p a b cb rp ref R Mg es :
  memory_suffices → recv_ok R → Forall byte Mg → (1 ≤ length Mg)%nat ∧ Z.of_nat (length Mg) ≤ 255 * 134 → byte ref → cb ≠ NULL →
  ∀ ph s, in_phase p a b cb rp ref R Mg ph s →
  returns (sms_run_count es) s (λ k s', ∃ ph', in_phase p a b cb rp ref R Mg ph' s' ∧
    (k + events_left (parts_of (length Mg)) ph' ≤ events_left (parts_of (length Mg)) ph)%nat).
Proof.
  intros Hmem HR HM HL Href Hcb. destruct (parts_of_spec (length Mg)) as [Hc1 _]; [lia..|].
  induction es as [|ev es IH]; intros ph s Hph; [apply returns_ret; by exists ph|].
  simpl. apply returns_bind, returns_gets, returns_bind.
  pose proof (events_left_step p a b cb rp ref R Mg ph ev s Hph ltac:(lia)) as Hstep.
  eapply returns_mono; [by apply (sms_step_refines p a b cb rp ref R Mg)|].
  intros [] s' [Hl Hph']. apply returns_bind. eapply returns_mono; [by apply IH|].
  intros k s'' (ph' & Hph'' & Hk). apply returns_ret. exists ph'. split; [done|]. lia.
Qed.

Lemma in_phase_waits p a b cb rp ref R Mg ph s : in_phase p a b cb rp ref R Mg ph s →
  results s = [] → (0 < events_left (parts_of (length Mg)) ph)%nat ∧ ∃ ev, due ev s = true.
Proof.
  intros Hph Hr. destruct ph as [|k r|r|i r|i r| |]; simpl in *.
  - destruct Hph as ((Ht & _ & _ & Hw) & _). split; [lia|]. exists DoTask. simpl. by rewrite Ht, Hw.
  - destruct Hph as ([cmd (_ & Hrs & _)] & Hk & _). split; [lia|]. exists (Reply RESP_STATUS_OK). simpl. by rewrite Hrs.
  - destruct Hph as ((_ & _ & Htm & _) & _). split; [lia|]. exists TimerFires. simpl. by rewrite Htm.
  - destruct Hph as ((q & (_ & Hrs & _) & Hi & _) & _). split; [lia|]. exists (Reply RESP_STATUS_OK). simpl. by rewrite Hrs.
  - destruct Hph as ((q & k & (_ & Hrs & _) & Hi & _) & _). split; [lia|]. exists (Reply RESP_STATUS_OK). simpl. by rewrite Hrs.
  - destruct Hph as (_ & _ & _ & _ & Hf). by rewrite Hf in Hr.
  - destruct Hph as (_ & _ & Hf & _). by rewrite Hf in Hr.
Qed.

(** C28: Every session comes to an end (when memory suffices and the driver
    underneath accepts every command and timer): it handles at most 244 events and two
    more for each part of the message (that is 61 rounds of configuration and
    the parts), and as long as the result has not been told there is an event
    it waits for: its turn in the task queue, a reply or its timer. *)
Theorem sms_session_ends receiver message n cb rp es s :
  memory_suffices → sms_idle s → sms_sendable receiver message n → cb ≠ NULL →
  returns (v ← ubmodem_send_sms receiver message cb rp; sms_run_count es) s (λ k s',
    (k ≤ 244 + 2 * parts_of (length (ucs2_text message)))%nat ∧
    (results s' = [] → (k < 244 + 2 * parts_of (length (ucs2_text message)))%nat ∧ ∃ ev, due ev s' = true)).
Proof.
  intros Hmem Hi Hs Hcb. apply (returns_session _ receiver message n cb rp); [done..|].
  intros p a b s' Hl Hph. pose proof (ucs2_bounds _ _ _ Hs) as HL. pose proof Hs as [].
  pose proof (address_pdu_ok _ _ send_dial0 send_digits0) as HR. pose proof (ucs2_text_bytes message) as HM.
  destruct Hi. eapply returns_mono.
  { by apply (sms_run_count_ends p a b cb rp (multipart_ref s) (address_pdu n) (ucs2_text message) es) with (ph := Queued). }
  intros k s'' (ph' & Hph' & Hk). cbn [events_left] in Hk. split; [lia|]. intros Hr.
  destruct (in_phase_waits _ _ _ _ _ _ _ _ _ _ Hph' Hr) as [Hpos Hdue]. split; [lia|done].
Qed.

(** C29: A modem that accepts the configuration and every part gets the
    message: after the task, the three configuration replies, and a prompt and
    a confirmation for each part, the result function has been told of
    success, and a tolerant receiver reads the number and the text of the
    message, when memory suffices and the driver underneath accepts every
    command and timer. *)
Theorem sms_delivered receiver message n cb rp s :
  memory_suffices → sms_idle s → sms_sendable receiver message n → cb ≠ NULL →
  returns (v ← ubmodem_send_sms receiver message cb rp;
           sms_run (good_replies (parts_of (length (ucs2_text message))));; mret v) s (λ v s',
    v = OK ∧ results s' = [(cb, true, rp)] ∧
    ∃ number, read_address number = Some n ∧ modem_receives (output s') = Some (number, ucs2_text message)).
Proof.
  intros Hmem Hi Hs Hcb. apply (returns_session _ receiver message n cb rp); [done..|].
  intros p a b s' Hl Hph. pose proof (ucs2_bounds _ _ _ Hs) as HL. pose proof Hs as [].
  pose proof (address_pdu_ok _ _ send_dial0 send_digits0) as HR. pose proof (ucs2_text_bytes message) as HM.
  destruct Hi. destruct (parts_of_spec (length (ucs2_text message))) as [Hc1 _]; [lia..|].
  apply returns_bind. eapply returns_mono.
  { by apply (sms_run_refines Hmem p a b cb rp (multipart_ref s) (address_pdu n) (ucs2_text message)). }
  intros [] s'' Hph'. rewrite auto_run_delivers in Hph' by (try rewrite Hl; done || lia). apply returns_ret.
  eapply in_phase_outcome in Hph'; [|done..]. destruct Hph' as (Hr & _ & Hrecv & _).
  split_and!; [done|done|]. exists (address_pdu n). split; [by eapply read_address_pdu|done].
Qed.
End Properties.

(** * Starting a session, when memory may run out *)

Section Start.
Context {E : Type} `{ModemLaws E}.
Local Abbreviation st := (modem_s E).
Implicit Types (s : st).

(** Nothing is kept. *)
Definition kept_nothing s : Prop := tasks s = [] ∧ blks s = ∅ ∧ privs s = ∅ ∧ owned (m_os s) [].

(** A session at [p] and the blocks that belong to it. *)
Definition session_kept (p : Z) s : Prop :=
  ∃ x X, privs s = {[p := x]} ∧ dom (blks s) = list_to_set X ∧ owned (m_os s) (p :: X).

(** A call that was refused, the session that it queued, or the session that the
    task queue did not take. *)
Definition sms_started (v : Z) s : Prop :=
  (v = ERROR ∧ kept_nothing s) ∨
  (v = OK ∧ ∃ p, tasks s = [p] ∧ session_kept p s) ∨
  (v = ERROR ∧ tasks s = [] ∧ (∃ p, session_kept p s) ∧ ∃ e, queue_task e = Done (ERROR, m_os s)).

Lemma returns_sms_error err s : kept_nothing s → returns (sms_error err) s sms_started.
Proof.
  intros (Ht & Hb & Hp & Ho). apply returns_bind, returns_sys.
  eapply returns_mono; [by apply (set_errno_ok _ [])|]. intros [] e' [_ Ho']. apply returns_ret. by left.
Qed.

Lemma returns_alloc n X s (Q : Z → st → Prop) : owned (m_os s) X → 1 ≤ n < 2 ^ 31 →
  (∀ q e', owned e' (if q =? NULL then X else q :: X) → Q q (upd_os e' s)) → returns (sys (malloc n)) s Q.
Proof.
  intros Ho Hn HQ. apply returns_sys. eapply returns_mono; [by apply malloc_ok|]. intros q e' [_ Ho']. by apply HQ.
Qed.

Lemma returns_calloc_priv X s (Q : Z → st → Prop) : owned (m_os s) X →
  (∀ q e', owned e' (if q =? NULL then X else q :: X) → Q q (upd_os e' s)) →
  returns (sys (calloc 1 SIZEOF_SEND_SMS_PRIV)) s Q.
Proof.
  intros Ho HQ. apply returns_sys. eapply returns_mono; [apply calloc_ok; [done|unfold SIZEOF_SEND_SMS_PRIV; lia..]|].
  intros q e' [_ Ho']. by apply HQ.
Qed.

Lemma returns_sys_free q X s (Q : unit → st → Prop) : owned (m_os s) (q :: X) →
  (∀ e', owned e' X → Q tt (upd_os e' s)) → returns (sys (free q)) s Q.
Proof.
  intros Ho HQ. apply returns_sys. eapply returns_mono; [by apply (free_ok _ X)|]. intros [] e' [_ Ho']. by apply HQ.
Qed.

(** A block that may be NULL, in front of the others. *)
Definition opt_blk (q : Z) (l : list Z) (bl : gmap Z (list (option Z))) : gmap Z (list (option Z)) :=
  if q =? NULL then bl else <[q:=Some <$> l]> bl.

Lemma returns_free_opt q l bl X s (Q : unit → st → Prop) :
  blks s = opt_blk q l bl → (q ≠ NULL → bl !! q = None) → owned (m_os s) (if q =? NULL then X else q :: X) →
  (∀ e', owned e' X → Q tt (upd_os e' (upd_blks bl s))) → returns (free_blk q) s Q.
Proof.
  unfold opt_blk. intros Hb Hq Ho HQ. destruct (Z.eqb_spec q 0) as [->|Hn].
  - apply returns_free_null. specialize (HQ (m_os s) Ho). destruct s. simpl in *. by subst.
  - by eapply (returns_free_blk q _ bl X); [exact Hb|apply Hq|..].
Qed.

Lemma returns_add_task p x X s : tasks s = [] → privs s = ∅ → dom (blks s) = list_to_set X → owned (m_os s) (p :: X) →
  returns (modify (λ s, upd_privs (<[p:=x]> (privs s)) s);; add_task p) s sms_started.
Proof.
  intros Ht Hp Hb Ho. apply returns_bind, returns_modify. unfold add_task. apply returns_bind, returns_sys.
  destruct (returns_elim _ _ _ (queue_task_ok _ _ Ho)) as (v & e' & Ev & Ho'). eapply returns_intro; [exact Ev|].
  destruct (Z.eqb_spec v ERROR) as [->|Hv]; [|apply returns_bind, returns_modify]; apply returns_ret; right; [right|left].
  - split_and!; [done|simpl; by rewrite Ht| |simpl; by eauto]. exists p, x, X. simpl. by rewrite Hp.
  - split; [done|]. exists p. simpl. rewrite Ht. split; [done|]. exists x, X. simpl. by rewrite Hp.
Qed.

Lemma returns_strdup l X s (Q : Z → st → Prop) : owned (m_os s) X → zlength l < 2 ^ 30 →
  (∀ q e', owned e' (if q =? NULL then X else q :: X) → Q q (upd_os e' (upd_blks (opt_blk q (l ++ [0]) (blks s)) s))) →
  returns (strdup l) s Q.
Proof.
  intros Ho Hl HQ. assert (0 ≤ zlength l) by (unfold zlength; lia). unfold strdup. rewrite u32_small by lia.
  apply returns_bind. eapply returns_alloc; [done|lia|]. intros q e' Ho'. specialize (HQ q e' Ho').
  unfold opt_blk, nonnull in *. destruct (q =? 0) eqn:Eq; cbn [negb].
  - apply Z.eqb_eq in Eq as ->. apply returns_ret. by destruct s.
  - by apply returns_bind, returns_modify, returns_ret.
Qed.

Lemma returns_asprintf l X s (Q : Z * Z → st → Prop) : owned (m_os s) X → zlength l < 2 ^ 30 →
  (∀ q e', owned e' (if q =? NULL then X else q :: X) →
     Q (q, if q =? NULL then ERROR else zlength l + 2) (upd_os e' (upd_blks (opt_blk q ([34] ++ l ++ [34; 0]) (blks s)) s))) →
  returns (asprintf_quoted l) s Q.
Proof.
  intros Ho Hl HQ. assert (0 ≤ zlength l) by (unfold zlength; lia). unfold asprintf_quoted. rewrite u32_small by lia.
  apply returns_bind. eapply returns_alloc; [done|lia|]. intros q e' Ho'. specialize (HQ q e' Ho').
  unfold opt_blk, nonnull in *. destruct (q =? 0) eqn:Eq; cbn [negb].
  - apply Z.eqb_eq in Eq as ->. apply returns_ret. by destruct s.
  - by apply returns_bind, returns_modify, returns_ret.
Qed.

Lemma returns_bind2 {A B D} (e : M st A) (f : A → M st B) (k : B → M st D) s P Q :
  returns (x ← e; f x) s P → (∀ y s', P y s' → returns (k y) s' Q) → returns (x ← e; y ← f x; k y) s Q.
Proof.
  unfold returns, mbind, M_bind. destruct (e s) as [[x s1]| |]; [|done..].
  destruct (f x s1) as [[y s2]| |]; [|done..]. intros HP HQ. by apply HQ.
Qed.

Lemma points_length k l : (length (points k l) ≤ k)%nat.
Proof. revert l. induction k as [|k IH]; intros [|x l]; simpl; [lia..|]. specialize (IH (first_point (x :: l)).2). lia. Qed.

Lemma dial_length address n : dial address = Some n → (length n.2 ≤ length address)%nat.
Proof.
  unfold dial. destruct (forallb _ _); [|done]. intros [= <-]. simpl. rewrite length_fmap.
  etrans; [apply length_filter|]. destruct (bool_decide _); [|done]. destruct address; simpl; lia.
Qed.

(** What a conversion leaves: an error and no block, or a block. *)
Definition converted (bl : gmap Z (list (option Z))) (X : list Z) (r : Z * Z) s s' : Prop :=
  (tasks s', privs s', level s') = (tasks s, privs s, level s) ∧
  ((r.1 < 0 ∧ r.2 = NULL ∧ blks s' = bl ∧ owned (m_os s') X) ∨
   (0 < r.1 ∧ r.2 ≠ NULL ∧ (∃ l, blks s' = <[r.2:=Some <$> l]> bl) ∧ owned (m_os s') (r.2 :: X))).

Lemma returns_convert_address receiver bl X s : receiver ≠ [] → zlength receiver < 2 ^ 30 → blks s = bl → owned (m_os s) X →
  returns (r ← address_to_pdu (λ n, sys (malloc n)) receiver; new_blk r) s (λ r s', converted bl X r s s').
Proof.
  intros Hne Hl Hb Ho. destruct receiver as [|c0 receiver]; [done|]. destruct (dial (c0 :: receiver)) as [n|] eqn:Ed.
  - pose proof (dial_length _ _ Ed) as Hd. pose proof (semi_octets_length n.2) as Hs.
    assert (Hz : 1 ≤ zlength (address_pdu n) < 2 ^ 31).
    { unfold zlength, address_pdu in *. simpl length. rewrite Nat2Z.inj_succ, Hs, Z.quot_div_nonneg by lia. mod_lia. }
    destruct (returns_elim _ _ _ (malloc_ok (m_os s) X (zlength (address_pdu n)) Ho Hz)) as (q & e' & Em & _ & Ho').
    apply returns_bind. eapply returns_intro; [rewrite address_to_pdu_cons, Ed; unfold sys, zoom; by rewrite Em|].
    unfold nonnull. destruct (Z.eqb_spec q 0) as [->|Hq]; cbn [negb]; [apply returns_ret; split; [done|]; left; by split_and!|].
    apply returns_bind, returns_modify, returns_ret. split; [done|]. right. cbn [fst snd blks upd_blks upd_os]. rewrite Hb. split_and!; [lia|done|by eauto|done].
  - apply returns_bind. eapply returns_intro; [by rewrite address_to_pdu_cons, Ed|]. apply returns_ret.
    split; [done|]. left. by split_and!.
Qed.

Lemma returns_convert_text message bl X s : text message → message ≠ [] → zlength message < 2 ^ 28 → blks s = bl → owned (m_os s) X →
  returns (r ← utf8_to_pdu (λ n, sys (malloc n)) (λ p, sys (free p)) message; new_blk r) s (λ r s', converted bl X r s s').
Proof.
  intros Ht Hne Hl Hb Ho. assert (Hz : 1 ≤ 2 * zlength (code_points message) < 2 ^ 31).
  { pose proof (points_length (length message) message). pose proof (ucs2_text_nonempty _ Ht Hne) as Hu.
    unfold ucs2_text in Hu. rewrite be16_length, length_fmap in Hu. unfold code_points, zlength in *. lia. }
  destruct (returns_elim _ _ _ (malloc_ok (m_os s) X _ Ho Hz)) as (q & e' & Em & _ & Ho').
  apply returns_bind. eapply returns_intro.
  { apply (utf8_to_pdu_text _ _ s _ q (upd_os e' s) Ht). rewrite u32_small by lia. unfold sys, zoom. by rewrite Em. }
  unfold nonnull. destruct (Z.eqb_spec q 0) as [->|Hq]; cbn [negb]; [apply returns_ret; split; [done|]; left; by split_and!|].
  apply returns_bind, returns_modify, returns_ret. split; [done|]. right. cbn [fst snd blks upd_blks upd_os]. rewrite Hb. split_and!; [lia|done|by eauto|done].
Qed.

(** The text mode branch. *)
Lemma send_text_started receiver message cb rp s : kept_nothing s → zlength receiver < 2 ^ 30 → zlength message < 2 ^ 30 →
  returns
    (p ← sys (calloc 1 SIZEOF_SEND_SMS_PRIV);
     if negb (nonnull p) then sms_error ENOMEM
     else
       txt ← strdup message;
       r ← asprintf_quoted receiver;
       let '(nbr, len) := r in
       if negb (nonnull txt) || (len <=? 0) then
         free_blk txt;;
         free_blk nbr;;
         sys (free p);;
         sms_error ENOMEM
       else
         modify (λ s, upd_privs (<[p:=MkPriv cb rp NULL 0 NULL 0 NULL 0 (MkIter 0 0 0 0) 0 0
           sms_config_cmds_text_mode SMS_SEND_MODE_TEXT txt nbr]> (privs s)) s);;
         add_task p) s sms_started.
Proof.
  intros (Ht & Hb & Hp & Ho) Hr Hm. apply returns_bind. eapply returns_calloc_priv; [done|]. intros p e1 Ho1.
  unfold nonnull. destruct (p =? 0) eqn:Ep; cbn [negb]; [by apply returns_sms_error|].
  apply returns_bind. eapply returns_strdup; [done|done|]. intros txt e2 Ho2.
  apply returns_bind. eapply returns_asprintf; [done|done|]. intros nbr e3 Ho3. simpl blks in *. rewrite Hb in *.
  assert (zlength receiver + 2 > 0) by (unfold zlength; lia).
  destruct (txt =? 0) eqn:Et; cbn [negb orb].
  - apply Z.eqb_eq in Et as ->. apply returns_bind, returns_free_null.
    apply returns_bind. eapply (returns_free_opt nbr _ ∅); [done|done|exact Ho3|]. intros e4 Ho4.
    apply returns_bind. eapply returns_sys_free; [exact Ho4|]. intros e5 Ho5. by apply returns_sms_error.
  - destruct (nbr =? 0) eqn:En.
    + apply Z.eqb_eq in En as ->. simpl (_ <=? 0). cbv iota.
      apply returns_bind. eapply (returns_free_opt txt _ ∅ [p]); [done|done|by rewrite Et|]. intros e4 Ho4.
      apply returns_bind, returns_free_null. apply returns_bind. eapply returns_sys_free; [exact Ho4|].
      intros e5 Ho5. by apply returns_sms_error.
    + rewrite (proj2 (Z.leb_gt _ 0)) by lia. apply (returns_add_task p _ [nbr; txt]); [done|done|..].
      * simpl. unfold opt_blk. rewrite En, Et, !dom_insert_L, dom_empty_L. simpl. set_solver.
      * eapply owned_perm; [|exact Ho3]. solve_Permutation.
Qed.

(** C30: ubmodem_send_sms, with any number and any text, also when memory runs
    out on the way: it returns and either queues the session, or refuses with
    ERROR and has given back whatever it allocated. There is one exception,
    and that is all that goes wrong: when the task queue has no memory for
    another task the result is ERROR, too, and exactly the session and the
    buffers that belong to it are kept, which nobody will free. *)
Theorem sms_send_starts receiver message cb rp s :
  sms_idle s → text message → zlength receiver < 2 ^ 30 → zlength message < 2 ^ 28 →
  returns (ubmodem_send_sms receiver message cb rp) s sms_started.
Proof.
  intros [] Htext Hr Hm. assert (Hk : kept_nothing s) by done. unfold ubmodem_send_sms.
  apply returns_bind, returns_gets. destruct (_ <? _); [by apply returns_sms_error|].
  destruct (_ && _) eqn:Emode; [apply send_text_started; [done|done|lia]|].
  destruct (decide (receiver = [])) as [->|Hrne].
  { apply returns_bind, returns_ret, returns_bind, returns_ret. simpl. apply returns_bind, returns_free_null. by apply returns_sms_error. }
  assert (Hmne : message ≠ []) by by intros ->.
  eapply returns_bind2; [by apply (returns_convert_address _ ∅ [])|].
  intros [n1 a] s1 [Hs1 Ha]. injection Hs1 as Ht1 Hp1 _. cbn [fst snd] in Ha.
  destruct Ha as [(Hn1 & -> & Hb1 & Ho1)|(Hn1 & Hanz & [la Hb1] & Ho1)].
  { rewrite (proj2 (Z.leb_le n1 0)) by lia. apply returns_bind, returns_free_null, returns_sms_error.
    split_and!; [congruence|done|congruence|done]. }
  rewrite (proj2 (Z.leb_gt n1 0)) by lia.
  eapply returns_bind2; [by apply (returns_convert_text _ (blks s1) [a])|].
  intros [n2 b] s2 [Hs2 Hb]. injection Hs2 as Ht2 Hp2 _. cbn [fst snd] in Hb. rewrite Hb1 in Hb.
  destruct Hb as [(Hn2 & -> & Hb2 & Ho2)|(Hn2 & Hbnz & [lb Hb2] & Ho2)].
  { rewrite (proj2 (Z.ltb_lt n2 0)) by lia. apply returns_bind, returns_free_null.
    apply returns_bind. eapply (returns_free_blk a _ ∅ []); [exact Hb2|done|exact Ho2|]. intros e3 Ho3.
    apply returns_sms_error. split_and!; simpl; [congruence|done|congruence|done]. }
  rewrite (proj2 (Z.ltb_ge n2 0)) by lia. apply returns_bind. eapply returns_calloc_priv; [exact Ho2|]. intros p e3 Ho3.
  assert (Hdrop : ∀ {A} (k : M st A) s' X (Q : A → st → Prop), blks s' = <[b:=Some <$> lb]> (<[a:=Some <$> la]> ∅) →
    owned (m_os s') (b :: a :: X) → (∀ e', owned e' X → returns k (upd_os e' (upd_blks ∅ s')) Q) →
    returns (free_blk b;; free_blk a;; k) s' Q).
  { intros A k s' X Q Hbl Hos HQ. destruct (owned_head _ _ _ Hos) as [_ Hba]. apply returns_bind.
    eapply returns_free_blk; [exact Hbl|rewrite lookup_insert_ne; [done|set_solver]|exact Hos|]. intros e4 Ho4.
    apply returns_bind. eapply (returns_free_blk a _ ∅); [done|done|exact Ho4|]. intros e5 Ho5. by apply HQ. }
  unfold nonnull. destruct (p =? 0) eqn:Ep; cbn [negb].
  { eapply (Hdrop _ _ _ []); [exact Hb2|exact Ho3|]. intros e4 Ho4. apply returns_sms_error.
    split_and!; simpl; [congruence|done|congruence|done]. }
  apply returns_bind, returns_gets, returns_bind, returns_modify.
  destruct (multipart_iterator_init _ n2 _) as [[] iter]; cbn [negb].
  - apply (returns_add_task p _ [b; a]); [simpl; congruence|simpl; congruence|simpl; rewrite Hb2; set_solver|exact Ho3].
  - eapply (Hdrop _ _ _ [p]); [exact Hb2|eapply owned_perm; [|exact Ho3]; solve_Permutation|]. intros e4 Ho4.
    apply returns_bind. eapply returns_sys_free; [exact Ho4|]. intros e5 Ho5. apply returns_sms_error.
    split_and!; simpl; [congruence|done|congruence|done].
Qed.
End Start.

(** * Where the code goes wrong *)

Section Faults.
Context {E : Type} `{Os E} `{ModemOs E}.
Local Abbreviation st := (modem_s E).
Implicit Types (s : st).

Lemma bind_done {S A B} (e : M S A) (k : A → M S B) (t : S) a (t' : S) : e t = Done (a, t') → (e ≫= k) t = k a t'.
Proof. unfold mbind, M_bind. by intros ->. Qed.

Lemma bind_fault {S A B} (e : M S A) (k : A → M S B) (t : S) : e t = Fault → (e ≫= k) t = Fault.
Proof. unfold mbind, M_bind. by intros ->. Qed.

Lemma string_of_text l s : text l → string_of (Some <$> l ++ [0]) s = Done (l, s).
Proof.
  induction 1 as [|v l Hv Hl IH]; [done|]. cbn [app fmap list_fmap string_of] in *.
  rewrite (proj2 (Z.eqb_neq v 0)) by lia. unfold mbind, M_bind. by rewrite IH.
Qed.

Lemma string_of_unterminated l s : text l → string_of (Some <$> l) s = Fault.
Proof.
  induction 1 as [|v l Hv Hl IH]; [done|]. cbn [fmap list_fmap string_of].
  rewrite (proj2 (Z.eqb_neq v 0)) by lia. unfold mbind, M_bind. by rewrite IH.
Qed.

(** C31: Two ways in which sending fails. In text mode the prompt's handler
    overwrites the NUL of the message with Ctrl-Z and then asks strlen for the
    length: it reads past the end of the block, for every message. In PDU mode
    prepare_pdu_string's -ENOMEM is stored in an unsigned length, so that the
    test for an error fails: the first character of the PDU is read through the
    NULL pointer. *)
Theorem sms_send_faults (p : Z) (x : send_sms_priv_s) s :
  privs s !! p = Some x →
  (∀ l, text l → blks s !! text_mode_msg x = Some (Some <$> l ++ [0]) →
     text_mode_prompt_handler CMGS_open_prompt RESP_STATUS_DATAPROMPT p s = Fault) ∧
  (∀ recv msg e', blks s !! recv_pdu x = Some (Some <$> recv) → blks s !! msg_pdu x = Some (Some <$> msg) →
     pdu x = NULL → blks s !! NULL = None → UBMODEM_LEVEL_NETWORK ≤ level s →
     Forall byte recv → Forall byte msg → zlength msg < 2 ^ 32 → iter_ok (multi_iter x) →
     0 ≤ msg_pos (multi_iter x) < zlength msg → part_pos (multi_iter x) ≠ part_count (multi_iter x) →
     malloc (u32 (2 * zlength (part_tpdu recv msg (multi_iter x)) + 1)) (m_os s) = Done (NULL, e') →
     send_multipart_sms_pdu p s = Fault).
Proof.
  intros Hp. split.
  - intros l Hl Hb. assert (Hgp : get_priv p s = Done (x, s)) by (unfold get_priv; by rewrite Hp).
    assert (Hgb : get_blk (text_mode_msg x) s = Done (Some <$> l ++ [0], s)) by (unfold get_blk; by rewrite Hb).
    assert (Hlen : strlen (text_mode_msg x) s = Done (zlength l, s)).
    { unfold strlen. rewrite (bind_done _ _ _ _ _ Hgb). by rewrite (bind_done _ _ _ _ _ (string_of_text l s Hl)). }
    unfold text_mode_prompt_handler. rewrite (bind_done _ _ _ tt s) by done.
    change (resp_status_is_error_or_timeout _ || _) with false. cbv iota.
    rewrite (bind_done _ _ _ _ _ Hgp), (bind_done _ _ _ _ _ Hlen), (bind_done _ _ _ _ _ Hgb).
    rewrite (bind_done _ _ _ _ _ (put_end l 0 0x1a s)). set (s1 := upd_blks (<[text_mode_msg x:=Some <$> l ++ [0x1a]]> (blks s)) s).
    rewrite (bind_done _ _ _ tt s1) by done. apply bind_fault. unfold strlen.
    rewrite (bind_done _ _ _ (Some <$> l ++ [0x1a]) s1) by (unfold get_blk; simpl; by rewrite lookup_insert_eq).
    apply bind_fault, string_of_unterminated, Forall_app. split; [done|]. by apply Forall_singleton.
  - intros recv msg e' Hr Hm Hx Hn Hl HR HM HL Hi Hpos Hpart Em.
    assert (Hgp : get_priv p s = Done (x, s)) by (unfold get_priv; by rewrite Hp).
    assert (Hread : ∀ q l, blks s !! q = Some (Some <$> l) → read_blk q s = Done (l, s)).
    { intros q l Hq. unfold read_blk, get_blk, mbind, M_bind. by rewrite Hq, contents_full. }
    unfold send_multipart_sms_pdu. rewrite (bind_done _ _ _ (level s) s) by done. rewrite (proj2 (Z.ltb_ge _ _)) by done.
    rewrite (bind_done _ _ _ _ _ Hgp), (bind_done _ _ _ recv s), (bind_done _ _ _ msg s) by by apply Hread.
    rewrite (bind_done _ _ _ (- ENOMEM, None, multi_iter x) (upd_os e' s)).
    2: { rewrite (prepare_next (λ n, sys (malloc n)) s recv msg (multi_iter x) NULL (upd_os e' s)); try done.
         unfold sys, zoom. by rewrite Em. }
    change (- ENOMEM =? 0) with false. cbv iota. set (x' := set_pdu (pdu x) (u32 (- ENOMEM)) x).
    set (s1 := upd_privs (<[p:=x']> (privs s)) (upd_os e' s)).
    rewrite (bind_done _ _ _ tt s1).
    2: { unfold upd_priv. rewrite (bind_done _ _ _ x (upd_os e' s)); [done|]. unfold get_priv. simpl. by rewrite Hp. }
    rewrite (bind_done _ _ _ x' s1) by (unfold get_priv; simpl; by rewrite lookup_insert_eq).
    change (pdulen x' =? 0) with false. cbv iota. apply bind_fault, bind_fault. unfold get_blk. simpl. by rewrite Hx, Hn.
Qed.
End Faults.

(** * A small driver for the witnesses *)

#[global] Instance demo_modem : ModemOs demo_os := {
  send_out _ := mret OK;
  arm_timer _ := mret OK;
  queue_task := mret OK;
  call_result _ _ _ := mret tt;
}.

#[global] Instance demo_modem_laws : ModemLaws demo_os.
Proof. split; intros; by apply returns_ret. Defined.

Lemma demo_memory_suffices : memory_suffices (E := demo_os).
Proof.
  split; [intros e X n Ho _|intros e X n z Ho _ _ _|intros e X _; by apply returns_ret];
    destruct Ho as (_ & Hn & _); unfold returns; simpl; lia.
Qed.

Definition demo_driver (lvl : Z) (al : Z) : modem_s demo_os :=
  Modem lvl ∅ ∅ [] None None true 0x80 [] [] (DemoOs al (0, 0) [] [] (0, 0)).

Lemma demo_idle : sms_idle (demo_driver 5 1).
Proof.
  split; try done. simpl. split_and!; [apply NoDup_singleton|simpl; lia|]. intros p Hp. by apply elem_of_nil in Hp.
Qed.

(** 80 letters and a euro sign, to +358. *)
Definition demo_message : list Z := replicate 80 0x41 ++ [0xe2; 0x82; 0xac].
Lemma demo_sendable : sms_sendable [43; 51; 53; 56] demo_message (true, [3; 5; 8]).
Proof.
  split; try done; [simpl; lia|].
  apply Forall_app. split; [by apply Forall_replicate|repeat constructor; done].
Qed.

Lemma sms_session_correct_witness :
  returns (v ← ubmodem_send_sms [43; 51; 53; 56] demo_message 77 88;
    sms_run [DoTask; Reply RESP_STATUS_OK; NewLevel 4; Reply RESP_STATUS_OK];; mret v) (demo_driver 5 1)
    (λ v s', v = OK ∧ sms_outcome 77 88 (address_pdu (true, [3; 5; 8])) (ucs2_text demo_message) Failed s').
Proof.
  exact (sms_session_correct [43; 51; 53; 56] demo_message (true, [3; 5; 8]) 77 88
    [DoTask; Reply RESP_STATUS_OK; NewLevel 4; Reply RESP_STATUS_OK] (demo_driver 5 1) demo_memory_suffices demo_idle demo_sendable ltac:(done)).
Defined.

Lemma sms_session_ends_witness :
  returns (v ← ubmodem_send_sms [43; 51; 53; 56] demo_message 77 88; sms_run_count [DoTask; TimerFires]) (demo_driver 5 1) (λ k s',
    (k ≤ 248)%nat ∧ (results s' = [] → (k < 248)%nat ∧ ∃ ev, due ev s' = true)).
Proof.
  exact (sms_session_ends [43; 51; 53; 56] demo_message (true, [3; 5; 8]) 77 88 [DoTask; TimerFires] (demo_driver 5 1)
    demo_memory_suffices demo_idle demo_sendable ltac:(done)).
Defined.

Lemma sms_delivered_witness :
  returns (v ← ubmodem_send_sms [43; 51; 53; 56] demo_message 77 88; sms_run (good_replies 2);; mret v) (demo_driver 5 1) (λ v s',
    v = OK ∧ results s' = [(77, true, 88)] ∧
    ∃ number, read_address number = Some (true, [3; 5; 8]) ∧ modem_receives (output s') = Some (number, ucs2_text demo_message)).
Proof.
  exact (sms_delivered [43; 51; 53; 56] demo_message (true, [3; 5; 8]) 77 88 (demo_driver 5 1)
    demo_memory_suffices demo_idle demo_sendable ltac:(done)).
Defined.

(** A text session with the message AB, and a PDU session whose allocation fails. *)
Definition demo_session : send_sms_priv_s :=
  MkPriv 77 88 8 4 16 4 NULL 0 (MkIter 0 0 1 0x80) 3 0 sms_config_cmds_pdu_mode SMS_SEND_MODE_PDU 24 NULL.
Definition demo_faulty : modem_s demo_os :=
  Modem 5 {[8 := Some <$> [0x91; 0x53; 0x48; 0xf0]; 16 := Some <$> [0; 65; 0; 66]; 24 := Some <$> [65; 66] ++ [0]]}
    {[4 := demo_session]} [] None None false 0x81 [] [] (DemoOs NULL (0, 0) [] [] (0, 0)).

Lemma sms_send_faults_witness :
  text_mode_prompt_handler CMGS_open_prompt RESP_STATUS_DATAPROMPT 4 demo_faulty = Fault ∧
  send_multipart_sms_pdu 4 demo_faulty = Fault.
Proof.
  destruct (sms_send_faults 4 demo_session demo_faulty eq_refl) as [Ht Hm]. split.
  - apply (Ht [65; 66]); [repeat constructor; done|reflexivity].
  - apply (Hm [0x91; 0x53; 0x48; 0xf0] [0; 65; 0; 66] (DemoOs 1 (0, 0) [] [] (0, 0))); try reflexivity; try done.
    + repeat constructor; done.
    + repeat constructor; done.
Defined.

Lemma sms_send_starts_witness :
  returns (ubmodem_send_sms [43; 51; 53; 56] demo_message 77 88) (demo_driver 5 1) sms_started.
Proof.
  apply (sms_send_starts [43; 51; 53; 56] demo_message 77 88 (demo_driver 5 1) demo_idle).
  - apply Forall_app. split; [by apply Forall_replicate|repeat constructor; done].
  - done.
  - done.
Defined.
