(* ===== verification/EngValue.v ===== *)
(** The values of the Thingsee engine, apps/ts_engine/engine: measured values
    and the thresholds of a profile (value.h, parse.h), the checks of one value
    against one threshold (execute.c), and geofences (geofence.c).

    A C double is a float of the Standard Library's specification of IEEE 754,
    53 bits and exponents up to 1024.  What C leaves undefined (a conversion
    out of range, a member of a union that was not the last one written, an
    index out of bounds, a NULL string) is [None]. *)

From Stdlib Require Import SpecFloat.
From stdpp Require Import functions.
From S2P Require Import Prelude.

(** * Doubles *)

Abbreviation double := spec_float.
Definition prec : Z := 53.
Definition emax : Z := 1024.
Definition dsub : double → double → double := SFsub prec emax.
Definition dadd : double → double → double := SFadd prec emax.
Definition dmul : double → double → double := SFmul prec emax.
Definition ddiv : double → double → double := SFdiv prec emax.

#[global] Instance spec_float_eq : EqDecision spec_float.
Proof. solve_decision. Defined.

(** A conversion to an integer drops the fraction; it is defined when the
    result is a value of the type. *)
Definition truncate (d : double) : option Z :=
  match d with
  | S754_zero _ => Some 0
  | S754_finite s m e =>
      let n := if 0 <=? e then Zpos m * 2 ^ e else Zpos m `div` 2 ^ (- e) in
      Some (if s then - n else n)
  | _ => None
  end.
Definition cast (lo hi : Z) (d : double) : option Z :=
  n ← truncate d;
  if (lo <=? n) && (n <=? hi) then Some n else None.
Definition cast_uint16 : double → option Z := cast 0 65535.
Definition cast_uint32 : double → option Z := cast 0 4294967295.
Definition cast_int16 : double → option Z := cast (-32768) 32767.
Definition cast_int32 : double → option Z := cast (-2147483648) 2147483647.
Definition cast_bool (d : double) : bool := match d with S754_zero _ => false | _ => true end.

Definition s16 (x : Z) : Z := (x + 2 ^ 15) `mod` 2 ^ 16 - 2 ^ 15.

(** * Values (value.h) *)

(** struct ts_value, the tag with the member of the union that goes with it.
    A string is its bytes, or NULL; the items of an array are a block of
    memory, found by its address. *)
Inductive ts_value :=
| VALUEDOUBLE (valuedouble : double)
| VALUEUINT16 (valueuint16 : Z)
| VALUEUINT32 (valueuint32 : Z)
| VALUEINT16 (valueint16 : Z)
| VALUEINT32 (valueint32 : Z)
| VALUESTRING (valuestring : option (list Z))
| VALUEARRAY (number_of_items items : Z)
| VALUEBOOL (valuebool : bool).
#[global] Instance ts_value_eq : EqDecision ts_value.
Proof. solve_decision. Defined.

Definition is_array (v : ts_value) : bool := match v with VALUEARRAY _ _ => true | _ => false end.

(** Reading a member; the signed and the unsigned integers of one width are
    the same bytes. *)
Definition valuedouble (v : ts_value) : option double := match v with VALUEDOUBLE d => Some d | _ => None end.
Definition valueint16 (v : ts_value) : option Z :=
  match v with VALUEINT16 n => Some n | VALUEUINT16 n => Some (s16 n) | _ => None end.
Definition valueint32 (v : ts_value) : option Z :=
  match v with VALUEINT32 n => Some n | VALUEUINT32 n => Some (s32 n) | _ => None end.
Definition valuebool (v : ts_value) : option bool := match v with VALUEBOOL b => Some b | _ => None end.
Definition valuestring (v : ts_value) : option (list Z) := match v with VALUESTRING s => s | _ => None end.

(** * Thresholds (parse.h) *)

Inductive ts_threshold_t := isOneOf | isGt | isLt | isNotIn | isAny | isInsideGeo.
#[global] Instance ts_threshold_t_eq : EqDecision ts_threshold_t.
Proof. solve_decision. Defined.

(** [thr_geofence]: check_threshold points to __ts_engine_check_geofence; it is
    NULL otherwise. *)
Record ts_threshold := MkThreshold {
  thr_value : ts_value;
  thr_type : ts_threshold_t;
  thr_geofence : bool;
}.

(** What a check takes from its cause: is_active_relative_cause, and the value
    measured as bias. *)
Record bias_t := Bias { bias_active : bool; bias_value : ts_value }.

(** * Checking one value (execute.c) *)

Section Checks.
Context (blocks : gmap Z (list ts_value)).

(** The members of valuearray. *)
Definition valuearray (v : ts_value) : option (nat * list ts_value) :=
  match v with
  | VALUEARRAY n p =>
      if n <=? 0 then Some (0%nat, []) else items ← blocks !! p; Some (Z.to_nat n, items)
  | _ => None
  end.

(** The loops of isOneOf and isNotIn: is one of the first [n] items equal? *)
Fixpoint find_item (eq : ts_value → option bool) (n : nat) (items : list ts_value) : option bool :=
  match n with
  | O => Some false
  | S n =>
      match items with
      | [] => None
      | item :: items =>
          b ← eq item;
          if b : bool then Some true else find_item eq n items
      end
  end.

(** The switch of the check_value functions.  [limit] is only used by isGt and
    isLt; the code computes it in front of the switch. *)
Definition threshold_switch {A} (thr : ts_threshold) (limit : option A) (gt lt : A → bool)
    (eq : ts_value → option bool) : option bool :=
  match thr_type thr with
  | isOneOf => '(n, items) ← valuearray (thr_value thr); find_item eq n items
  | isGt => l ← limit; Some (gt l)
  | isLt => l ← limit; Some (lt l)
  | isNotIn => '(n, items) ← valuearray (thr_value thr); b ← find_item eq n items; Some (negb b)
  | isAny => Some true
  | isInsideGeo => Some false
  end.

Definition check_valuedouble_threshold (thr : ts_threshold) (bias : bias_t) (val : ts_value) : option bool :=
  value ← valuedouble val;
  value ← (if bias_active bias then b ← valuedouble (bias_value bias); Some (dsub value b) else Some value);
  threshold_switch thr (valuedouble (thr_value thr)) (λ limit, SFltb limit value) (λ limit, SFltb value limit)
    (λ item, d ← valuedouble item; Some (SFeqb value d)).

(** The four integer widths: read the member, subtract the bias modulo the
    width, compare with the converted doubles. *)
Definition check_integer_threshold (member : ts_value → option Z) (wrap : Z → Z) (conv : double → option Z)
    (thr : ts_threshold) (bias : bias_t) (val : ts_value) : option bool :=
  value ← member val;
  value ← (if bias_active bias then b ← member (bias_value bias); Some (wrap (wrap value - b)) else Some (wrap value));
  threshold_switch thr (valuedouble (thr_value thr) ≫= conv) (λ limit, limit <? value) (λ limit, value <? limit)
    (λ item, d ← valuedouble item; n ← conv d; Some (value =? n)).

Definition check_valueuint16_threshold := check_integer_threshold valueint16 u16 cast_uint16.
Definition check_valueuint32_threshold := check_integer_threshold valueint32 u32 cast_uint32.
Definition check_valueint16_threshold := check_integer_threshold valueint16 s16 cast_int16.
Definition check_valueint32_threshold := check_integer_threshold valueint32 s32 cast_int32.

(** strcmp, which reads both strings, is only compared with zero. *)
Definition check_valuestring_threshold (thr : ts_threshold) (val : ts_value) : option bool :=
  threshold_switch thr (value ← valuestring val; limit ← valuestring (thr_value thr); Some (value, limit))
    (λ '(value, limit), negb (bool_decide (value = limit))) (λ '(value, limit), bool_decide (value = limit))
    (λ item, value ← valuestring val; s ← valuestring item; Some (bool_decide (value = s))).

Definition check_valuebool_threshold (thr : ts_threshold) (val : ts_value) : option bool :=
  value ← valuebool val;
  threshold_switch thr (cast_bool <$> valuedouble (thr_value thr)) (λ limit, value && negb limit) (λ limit, negb value && limit)
    (λ item, d ← valuedouble item; Some (Bool.eqb value (cast_bool d))).

(** check_threshold without the function pointer.  For an array the loop
    asserts in every round that the threshold's value is not one. *)
Definition check_scalar_threshold (thr : ts_threshold) (bias : bias_t) (val : ts_value) : option bool :=
  match val with
  | VALUEDOUBLE _ => check_valuedouble_threshold thr bias val
  | VALUEUINT16 _ => check_valueuint16_threshold thr bias val
  | VALUEUINT32 _ => check_valueuint32_threshold thr bias val
  | VALUEINT16 _ => check_valueint16_threshold thr bias val
  | VALUEINT32 _ => check_valueint32_threshold thr bias val
  | VALUESTRING _ => check_valuestring_threshold thr val
  | VALUEBOOL _ => check_valuebool_threshold thr val
  | VALUEARRAY _ _ => None
  end.

Fixpoint check_items (thr : ts_threshold) (bias : bias_t) (stop : bool) (n : nat) (items : list ts_value) (ret : bool) : option bool :=
  match n with
  | O => Some ret
  | S n =>
      if is_array (thr_value thr) then None
      else
        match items with
        | [] => None
        | item :: items =>
            ret ← (if Bool.eqb ret stop then Some ret else check_scalar_threshold thr bias item);
            check_items thr bias stop n items ret
        end
  end.

Definition check_plain_threshold (thr : ts_threshold) (bias : bias_t) (val : ts_value) : option bool :=
  if is_array val then
    match thr_type thr with
    | isOneOf => '(n, items) ← valuearray (thr_value thr); check_items thr bias true n items false
    | isNotIn => '(n, items) ← valuearray (thr_value thr); check_items thr bias false n items true
    | _ => None
    end
  else check_scalar_threshold thr bias val.
End Checks.

(** * Geofences (geofence.c) *)

(** The crossings of a ray with the edges: [(i, j)] runs over the points and
    their predecessors. *)
Definition crosses (test : double * double) (pi pj : double * double) : bool :=
  let '(tx, ty) := test in
  let '(xi, yi) := pi in
  let '(xj, yj) := pj in
  negb (Bool.eqb (SFltb ty yi) (SFltb ty yj)) &&
  SFltb tx (dadd (ddiv (dmul (dsub xj xi) (dsub ty yi)) (dsub yj yi)) xi).

Fixpoint count_crossings (test : double * double) (prev : double * double) (poly : list (double * double)) (inside : bool) : bool :=
  match poly with
  | [] => inside
  | p :: poly => count_crossings test p poly (if crosses test p prev then negb inside else inside)
  end.

Definition point_in_polygon (test : double * double) (poly : list (double * double)) : bool :=
  match poly with
  | [] => false
  | p :: _ => count_crossings test (last_or p poly) poly false
  end.

(** The points of a threshold: [2 * n] doubles. *)
Fixpoint polygon_of (n : nat) (items : list ts_value) : option (list (double * double)) :=
  match n with
  | O => Some []
  | S n =>
      match items with
      | x :: y :: items =>
          x ← valuedouble x;
          y ← valuedouble y;
          l ← polygon_of n items;
          Some ((x, y) :: l)
      | _ => None
      end
  end.
