(* ===== verification/Engine.v ===== *)
(** The Thingsee engine, apps/ts_engine/engine: execute.c, with the request of
    values and the cause timers of sense.c.

    A profile (parse.h) is a tree: purposes of states of events of causes.  A
    cause watches one sense; when all causes of an event are triggered, the
    event's actions are done, which may make another state or purpose current.
    What profile_parse writes does not change while the profile runs and is a
    parameter here; what changes (the dyn parts of the structs) is the state.
    The causes whose senses are measured are linked into the queue
    active_causes of their state, word by word as in [Queue], since the code
    walks along that queue while it is changed. *)

From Stdlib Require Import SpecFloat.
From stdpp Require Import functions.
From S2P Require Import Prelude Queue Calendar Ubx EngValue.

Definition INVALID_PURPOSE : Z := -1.
Definition INVALID_STATE : Z := -1.
Definition FIRST_ORDER_ID : Z := 1.
Definition DEEP_SLEEP_RATE_LIMIT : Z := 1000.
Definition TS_ENGINE_ERROR_OOM : Z := 3.
Definition TS_ENGINE_ERROR_NOT_RUNNING : Z := 9.
Definition TS_ENGINE_ERROR_NOT_PAUSED : Z := 11.
Definition TS_ENGINE_ERROR_SYSTEM : Z := 12.

(** Offsets of the links in struct ts_cause and struct ts_state. *)
Definition ACTIVE_ENTRY : Z := 4.
Definition ACTIVE_CAUSES : Z := 28.

Definition SIZEOF_VALUE : Z := 16.
Definition SIZEOF_SENSE_VALUE : Z := 32.
Definition SIZEOF_PAYLOAD : Z := 32.
Definition SIZEOF_POINT : Z := 16.
Definition SIZEOF_POLY : Z := 8.
Definition SIZEOF_GLOBAL_STATE : Z := 8.

Abbreviation timespec := (Z * Z)%type.

(** * A profile (parse.h) *)

Record ts_sense_info := MkSenseInfo {
  info_sId : Z;
  info_min : ts_value;
  has_irq_init : bool;
  has_irq_uninit : bool;
  has_active_init : bool;
  has_active_uninit : bool;
  has_active_read : bool;
}.

Record ts_cause := MkCause {
  cause_event : Z;
  orderId : Z;
  senseLog : bool;
  measurement_log : bool;
  measurement_interval : Z;
  measurement_count : Z;
  measurement_send : bool;
  threshold_count : Z;
  threshold_negate : bool;
  threshold_relative : bool;
  thresholds : list ts_threshold;
  sense_info : ts_sense_info;
}.

Record ts_event := MkEvent {
  event_state : Z;
  evId : Z;
  eventLog : bool;
  sendEvent : bool;
  sendLog : bool;
  sendPush : bool;
  has_url : bool;
  gotoStId : Z;
  gotoPuId : Z;
  sms_phoneNumber : option (list Z);
  sms_text : option (list Z);
  number_of_causes : Z;
  causes : list Z;
}.

Record ts_state := MkState { state_purpose : Z; stId : Z; isGlobal : bool; events : list Z }.
Record ts_purpose := MkPurpose { puId : Z; initStId : Z; states : list Z }.

(** The structs of a profile by address, and the arrays of its thresholds; the
    queues that hold them together are lists, which nothing changes. *)
Record ts_profile := MkProfile {
  pId : list Z;
  initPuId : Z;
  purposes : list Z;
  purpose_at : gmap Z ts_purpose;
  state_at : gmap Z ts_state;
  event_at : gmap Z ts_event;
  cause_at : gmap Z ts_cause;
  threshold_items : gmap Z (list ts_value);
}.

(** * The state of the engine *)

(** The member dyn of struct ts_cause; [sId] is sense_value.sId. *)
Record ts_cause_dyn := MkDyn {
  timer_id : Z;
  cause_time : timespec;
  fd : Z;
  triggered : bool;
  measure_bias : bool;
  measurement_counter : Z;
  threshold_counter : Z;
  sId : Z;
  sense_value : ts_value;
  sense_ts : timespec;
  sense_bias : ts_value;
}.

Definition set_timer_id x (d : ts_cause_dyn) := MkDyn x (cause_time d) (fd d) (triggered d) (measure_bias d)
  (measurement_counter d) (threshold_counter d) (sId d) (sense_value d) (sense_ts d) (sense_bias d).
Definition set_cause_time x (d : ts_cause_dyn) := MkDyn (timer_id d) x (fd d) (triggered d) (measure_bias d)
  (measurement_counter d) (threshold_counter d) (sId d) (sense_value d) (sense_ts d) (sense_bias d).
Definition set_fd x (d : ts_cause_dyn) := MkDyn (timer_id d) (cause_time d) x (triggered d) (measure_bias d)
  (measurement_counter d) (threshold_counter d) (sId d) (sense_value d) (sense_ts d) (sense_bias d).
Definition set_triggered x (d : ts_cause_dyn) := MkDyn (timer_id d) (cause_time d) (fd d) x (measure_bias d)
  (measurement_counter d) (threshold_counter d) (sId d) (sense_value d) (sense_ts d) (sense_bias d).
Definition set_measure_bias x (d : ts_cause_dyn) := MkDyn (timer_id d) (cause_time d) (fd d) (triggered d) x
  (measurement_counter d) (threshold_counter d) (sId d) (sense_value d) (sense_ts d) (sense_bias d).
Definition set_measurement_counter x (d : ts_cause_dyn) := MkDyn (timer_id d) (cause_time d) (fd d) (triggered d) (measure_bias d)
  x (threshold_counter d) (sId d) (sense_value d) (sense_ts d) (sense_bias d).
Definition set_threshold_counter x (d : ts_cause_dyn) := MkDyn (timer_id d) (cause_time d) (fd d) (triggered d) (measure_bias d)
  (measurement_counter d) x (sId d) (sense_value d) (sense_ts d) (sense_bias d).
Definition set_value x (d : ts_cause_dyn) := MkDyn (timer_id d) (cause_time d) (fd d) (triggered d) (measure_bias d)
  (measurement_counter d) (threshold_counter d) (sId d) x (sense_ts d) (sense_bias d).
Definition set_ts x (d : ts_cause_dyn) := MkDyn (timer_id d) (cause_time d) (fd d) (triggered d) (measure_bias d)
  (measurement_counter d) (threshold_counter d) (sId d) (sense_value d) x (sense_bias d).
Definition set_bias x (d : ts_cause_dyn) := MkDyn (timer_id d) (cause_time d) (fd d) (triggered d) (measure_bias d)
  (measurement_counter d) (threshold_counter d) (sId d) (sense_value d) (sense_ts d) x.
(** [memcpy] of a whole sense_value. *)
Definition copy_sense_value (from d : ts_cause_dyn) := MkDyn (timer_id d) (cause_time d) (fd d) (triggered d) (measure_bias d)
  (measurement_counter d) (threshold_counter d) (sId from) (sense_value from) (sense_ts from) (sense_bias d).

(** A payload with its own copies of strings and arrays. *)
Inductive payload_value := Plain (v : ts_value) | Items (l : list ts_value).
Record ts_payload := MkPayload {
  payload_pId : option (list Z);
  payload_puId : Z;
  payload_stId : Z;
  payload_evId : Z;
  payload_ts : timespec;
  senses : list (Z * payload_value * timespec);
}.

Inductive logtypes := LOG_EVENTS | LOG_CAUSES.

(** What the engine does to the outside; a URL is the event that holds it. *)
Inductive eng_out :=
| UiSense (sId : Z) (v : ts_value)
| UiState (purpose state : Z)
| Send (p : ts_payload) (url : option Z) (priv : Z)
| LogPayload (p : ts_payload) (type : logtypes)
| LogStart (multisend : bool) (url : option Z)
| Sms (phoneNumber text : list Z)
| BackendUpdate (status : Z).

Record ts_connector := MkConnector { con_send : bool; con_send_url : bool; con_multisend : bool }.

(** What irq.init of a sense leaves in the cause.  The one of the time sense
    also writes the value that it will report, which here comes with the report. *)
Record irq_started := MkIrqStarted { irq_ret : Z; irq_timer : option Z; irq_fd : option Z }.

Inductive clockid := CLOCK_REALTIME | CLOCK_MONOTONIC.

(** The world around the engine: clocks, timers and descriptors of the main
    loop (ts_core), the drivers of the senses, the user interface, connectors,
    logs, the connection manager and the backup registers of the clock. *)
Class EngineOs (E : Type) := {
  clock_get : clockid → M E (Z * timespec);
  timer_setup : Z → Z → M E Z;
  timer_setup_date : timespec → Z → M E Z;
  timer_stop : Z → M E unit;
  fd_unregister : Z → M E unit;
  close_fd : Z → M E unit;
  active_init : Z → M E unit;
  active_uninit : Z → M E unit;
  active_read : Z → M E Z;
  irq_init : Z → M E irq_started;
  irq_uninit : Z → M E unit;
  ui_event : eng_out → M E unit;
  select_connector : Z → M E (Z * option ts_connector);
  connector_send : ts_payload → option Z → Z → M E Z;
  log_payload : ts_payload → logtypes → M E unit;
  have_logs : M E bool;
  log_start : bool → option Z → M E unit;
  conman_init : M E Z;
  conman_send_sms : list Z → list Z → M E unit;
  conman_uninit : M E unit;
  rtc_read_value : Z → M E Z;
  rtc_save_value : Z → Z → M E unit;
  property_min_interval_minutes : Z → M E Z;
  property_max_per_day : Z → M E Z;
  cancel_connection : M E unit;
  backend_update_cb : Z → M E unit;
}.

Inductive ts_engine_state := ENGINE_STOPPED | ENGINE_RUNNING | ENGINE_PAUSED.
#[global] Instance ts_engine_state_eq : EqDecision ts_engine_state.
Proof. solve_decision. Defined.

(** struct ts_engine with the dyn parts of the profile: links and heads of the
    active queues, causes, expected_order_id of the events, the blocks that
    hold arrays; an entry of global_states is its address and its state. *)
Record engine_s (E : Type) := Engine {
  links : mem;
  dyns : gmap Z ts_cause_dyn;
  orders : gmap Z Z;
  blocks : gmap Z (list ts_value);
  current_purpose : Z;
  current_state : Z;
  global_states : list (Z * Z);
  run_state : ts_engine_state;
  min_interval_minutes : Z;
  max_per_day : Z;
  backend_cb : bool;
  profile_updated : bool;
  out : list eng_out;
  e_os : E;
}.
Arguments Engine {_} _ _ _ _ _ _ _ _ _ _ _ _ _ _.
Arguments links {_} _.
Arguments dyns {_} _.
Arguments orders {_} _.
Arguments blocks {_} _.
Arguments current_purpose {_} _.
Arguments current_state {_} _.
Arguments global_states {_} _.
Arguments run_state {_} _.
Arguments min_interval_minutes {_} _.
Arguments max_per_day {_} _.
Arguments backend_cb {_} _.
Arguments profile_updated {_} _.
Arguments out {_} _.
Arguments e_os {_} _.

Section Engine.
Context {E : Type} `{Os E} `{EngineOs E}.
Context (P : ts_profile).
Local Abbreviation st := (engine_s E).
Implicit Types (s : st).

Definition put_links x s := Engine x (dyns s) (orders s) (blocks s) (current_purpose s) (current_state s) (global_states s) (run_state s) (min_interval_minutes s) (max_per_day s) (backend_cb s) (profile_updated s) (out s) (e_os s).
Definition put_dyns x s := Engine (links s) x (orders s) (blocks s) (current_purpose s) (current_state s) (global_states s) (run_state s) (min_interval_minutes s) (max_per_day s) (backend_cb s) (profile_updated s) (out s) (e_os s).
Definition put_orders x s := Engine (links s) (dyns s) x (blocks s) (current_purpose s) (current_state s) (global_states s) (run_state s) (min_interval_minutes s) (max_per_day s) (backend_cb s) (profile_updated s) (out s) (e_os s).
Definition put_blocks x s := Engine (links s) (dyns s) (orders s) x (current_purpose s) (current_state s) (global_states s) (run_state s) (min_interval_minutes s) (max_per_day s) (backend_cb s) (profile_updated s) (out s) (e_os s).
Definition put_purpose x s := Engine (links s) (dyns s) (orders s) (blocks s) x (current_state s) (global_states s) (run_state s) (min_interval_minutes s) (max_per_day s) (backend_cb s) (profile_updated s) (out s) (e_os s).
Definition put_state x s := Engine (links s) (dyns s) (orders s) (blocks s) (current_purpose s) x (global_states s) (run_state s) (min_interval_minutes s) (max_per_day s) (backend_cb s) (profile_updated s) (out s) (e_os s).
Definition put_globals x s := Engine (links s) (dyns s) (orders s) (blocks s) (current_purpose s) (current_state s) x (run_state s) (min_interval_minutes s) (max_per_day s) (backend_cb s) (profile_updated s) (out s) (e_os s).
Definition put_run x s := Engine (links s) (dyns s) (orders s) (blocks s) (current_purpose s) (current_state s) (global_states s) x (min_interval_minutes s) (max_per_day s) (backend_cb s) (profile_updated s) (out s) (e_os s).
Definition put_out x s := Engine (links s) (dyns s) (orders s) (blocks s) (current_purpose s) (current_state s) (global_states s) (run_state s) (min_interval_minutes s) (max_per_day s) (backend_cb s) (profile_updated s) x (e_os s).
Definition put_eos (x : E) s := Engine (links s) (dyns s) (orders s) (blocks s) (current_purpose s) (current_state s) (global_states s) (run_state s) (min_interval_minutes s) (max_per_day s) (backend_cb s) (profile_updated s) (out s) x.
Definition put_limits x y s := Engine (links s) (dyns s) (orders s) (blocks s) (current_purpose s) (current_state s) (global_states s) (run_state s) x y (backend_cb s) (profile_updated s) (out s) (e_os s).
Definition put_backend x y s := Engine (links s) (dyns s) (orders s) (blocks s) (current_purpose s) (current_state s) (global_states s) (run_state s) (min_interval_minutes s) (max_per_day s) x y (out s) (e_os s).

Definition eos {A} (e : M E A) : M st A := zoom e_os put_eos e.
Definition on_links {A} (e : M mem A) : M st A := zoom links put_links e.

(** Following a pointer, and computing what C may leave undefined. *)
Definition deref {A} (f : st → option A) : M st A := λ s, match f s with Some a => Done (a, s) | None => Fault end.
Definition defined {A} (o : option A) : M st A := deref (λ _, o).
Definition fault {A} : M st A := defined None.

Definition cause_conf (c : Z) : M st ts_cause := defined (cause_at P !! c).
Definition event_conf (e : Z) : M st ts_event := defined (event_at P !! e).
Definition state_conf (q : Z) : M st ts_state := defined (state_at P !! q).
Definition purpose_conf (u : Z) : M st ts_purpose := defined (purpose_at P !! u).

Definition cause_dyn (c : Z) : M st ts_cause_dyn := deref (λ s, dyns s !! c).
Definition set_cause (c : Z) (f : ts_cause_dyn → ts_cause_dyn) : M st unit :=
  d ← cause_dyn c;
  modify (λ s, put_dyns (<[c:=f d]> (dyns s)) s).
Definition expected_order_id (e : Z) : M st Z := deref (λ s, orders s !! e).
Definition set_expected_order_id (e n : Z) : M st unit := modify (λ s, put_orders (<[e:=n]> (orders s)) s).

Definition put (o : eng_out) : M st unit := modify (λ s, put_out (out s ++ [o]) s).

(** cause->parent->parent *)
Definition state_of_cause (c : Z) : M st Z :=
  conf ← cause_conf c;
  ev ← event_conf (cause_event conf);
  mret (event_state ev).

(** * Values *)

(** Freeing a block that is not there faults. *)
Definition free_items (p : Z) : M st unit :=
  _ ← deref (λ s, blocks s !! p);
  modify (λ s, put_blocks (delete p (blocks s)) s);;
  eos (free p).

(** [free_valuearray(&cause->dyn.sense_value.value)] *)
Definition free_valuearray (c : Z) : M st unit :=
  d ← cause_dyn c;
  match sense_value d with
  | VALUEARRAY n p =>
      if nonnull p then free_items p;; set_cause c (set_value (VALUEARRAY n NULL)) else mret tt
  | _ => mret tt
  end.

(** [sense_value.value.valuetype = sense_info->min.valuetype]: the union keeps
    its bytes, all zero in a new cause, an array without items after one that
    was freed. *)
Definition zero_like (min : ts_value) : ts_value :=
  match min with
  | VALUEDOUBLE _ => VALUEDOUBLE (S754_zero false)
  | VALUEUINT16 _ => VALUEUINT16 0
  | VALUEUINT32 _ => VALUEUINT32 0
  | VALUEINT16 _ => VALUEINT16 0
  | VALUEINT32 _ => VALUEINT32 0
  | VALUESTRING _ => VALUESTRING None
  | VALUEARRAY _ _ => VALUEARRAY 0 NULL
  | VALUEBOOL _ => VALUEBOOL false
  end.
Definition same_type (v w : ts_value) : bool := bool_decide (zero_like v = zero_like w).
Definition retag (min v : ts_value) : option ts_value :=
  if same_type min v then Some v
  else if bool_decide (v = VALUEDOUBLE (S754_zero false)) then Some (zero_like min)
  else match v, min with
       | VALUEARRAY n _, VALUEBOOL _ => Some (VALUEBOOL (negb (u8 n =? 0)))
       | _, _ => None
       end.

(** The extra memory that a copy of a value takes, and the copy. *)
Definition sense_value_extramem (c : Z) : M st Z :=
  d ← cause_dyn c;
  mret match sense_value d with
       | VALUEARRAY n p => if nonnull p then u32 (n * SIZEOF_VALUE) else 0
       | VALUESTRING (Some str) => (zlength str + 1 + 3) `div` 4 * 4
       | _ => 0
       end.
Definition sense_value_copy (c : Z) : M st (Z * payload_value * timespec) :=
  d ← cause_dyn c;
  v ← match sense_value d with
      | VALUEARRAY n p =>
          if nonnull p && negb (u32 (n * SIZEOF_VALUE) =? 0) then
            items ← deref (λ s, blocks s !! p);
            assert (n <=? zlength items);;
            mret (Items (take (Z.to_nat n) items))
          else mret (Plain (sense_value d))
      | v => mret (Plain v)
      end;
  mret (sId d, v, sense_ts d).

Fixpoint collect {A} (f : Z → M st A) (l : list Z) : M st (list A) :=
  match l with
  | [] => mret []
  | c :: l =>
      x ← f c;
      r ← collect f l;
      mret (x :: r)
  end.
Definition sum_list_Z (l : list Z) : Z := foldr Z.add 0 l.

(** [generate_payload (any, eventpayload)], with the [causes] whose values go
    into it. *)
Definition generate_payload (e : Z) (eventpayload : bool) (number : Z) (cs : list Z) : M st (option (ts_payload * Z)) :=
  ev ← event_conf e;
  assert (zlength cs <=? number);;
  extra ← collect sense_value_extramem cs;
  q ← state_conf (event_state ev);
  u ← purpose_conf (state_purpose q);
  p ← eos (malloc (u32 (number * SIZEOF_SENSE_VALUE + SIZEOF_PAYLOAD + sum_list_Z extra)));
  if negb (nonnull p) then mret None
  else
    now ← eos (clock_get CLOCK_REALTIME);
    vs ← collect sense_value_copy cs;
    mret (Some (MkPayload (Some (pId P)) (puId u) (stId q) (if eventpayload then evId ev else -1) now.2 vs, p)).

Definition generate_event_payload (e : Z) : M st (option (ts_payload * Z)) :=
  ev ← event_conf e;
  generate_payload e true (number_of_causes ev) (causes ev).
Definition generate_cause_payload (c : Z) : M st (option (ts_payload * Z)) :=
  conf ← cause_conf c;
  generate_payload (cause_event conf) false 1 [c].

(** __ts_engine_log_payload *)
Definition log_to (p : ts_payload) (type : logtypes) : M st unit :=
  put (LogPayload p type);; eos (log_payload p type).

Definition log_event (e : Z) : M st unit :=
  r ← generate_event_payload e;
  match r with
  | Some (p, a) => log_to p LOG_EVENTS;; eos (free a)
  | None => mret tt
  end.
Definition log_cause (c : Z) : M st unit :=
  r ← generate_cause_payload c;
  match r with
  | Some (p, a) => log_to p LOG_CAUSES;; eos (free a)
  | None => mret tt
  end.

(** * Sending *)

Definition send_to (p : ts_payload) (url : option Z) (priv : Z) : M st Z :=
  put (Send p url priv);; eos (connector_send p url priv).

(** A connector is NULL unless select_connector returns OK. *)
Definition ts_engine_send (p : ts_payload) (url : option Z) (priv : Z) : M st Z :=
  r ← eos (select_connector 0);
  match r with
  | (ret, con) =>
      if ret <? 0 then mret ERROR
      else
        con ← defined con;
        if con_send con then
          ret ← send_to p (if con_send_url con then url else None) priv;
          mret (if ret =? OK then OK else ERROR)
        else mret ERROR
  end.

Definition url_of (e : Z) : M st (option Z) :=
  ev ← event_conf e;
  mret (if has_url ev then Some e else None).

Definition send_event (e : Z) : M st Z :=
  r ← generate_event_payload e;
  match r with
  | None => mret ERROR
  | Some (p, a) =>
      url ← url_of e;
      ret ← ts_engine_send p url e;
      ret ← (if ret <? 0 then log_to p LOG_EVENTS;; mret ERROR else mret ret);
      eos (free a);;
      mret ret
  end.

(** The address of ping_magic stands for the event or cause; the pId is NULL
    when no engine runs. *)
Definition PING_MAGIC : Z := 1.
Definition send_ping_event (engine : bool) : M st Z :=
  now ← eos (clock_get CLOCK_REALTIME);
  ts_engine_send (MkPayload (if engine then Some (pId P) else None) (-1) (-1) (-1) now.2 []) None PING_MAGIC.

(** Without a payload there is nothing to free. *)
Definition send_cause (c : Z) : M st Z :=
  r ← eos (select_connector 0);
  let '(ret, con) := r in
  if ret =? OK then
    con ← defined con;
    if con_send con then
      r ← generate_cause_payload c;
      match r with
      | None => mret ERROR
      | Some (p, a) =>
          conf ← cause_conf c;
          url ← url_of (cause_event conf);
          ret ← send_to p (if con_send_url con then url else None) c;
          ret ← (if ret =? OK then mret ret else log_to p LOG_CAUSES;; mret ERROR);
          eos (free a);;
          mret ret
      end
    else mret ret
  else mret ret.

Definition send_log (url : option Z) : M st unit :=
  b ← eos have_logs;
  if negb b then mret tt
  else
    r ← eos (select_connector 0);
    con ← defined r.2;
    put (LogStart (con_multisend con) url);;
    eos (log_start (con_multisend con) url).

Definition BACKEND_UPDATE_OK : Z := 0.
Definition BACKEND_UPDATE_PROFILE_UPDATED : Z := 1.
Definition BACKEND_UPDATE_PING_FAILED : Z := 2.
Definition ts_engine_ping_result (result : Z) : M st unit :=
  cb ← gets backend_cb;
  if negb cb then mret tt
  else
    let call status := put (BackendUpdate status);; eos (backend_update_cb status) in
    if result =? OK then
      send_log None;;
      upd ← gets profile_updated;
      call (if upd : bool then BACKEND_UPDATE_PROFILE_UPDATED else BACKEND_UPDATE_OK)
    else call BACKEND_UPDATE_PING_FAILED.
Definition ts_engine_backend_update (running : bool) : M st Z :=
  modify (put_backend true false);;
  send_ping_event running.

(** * Short messages *)

Definition are_dates_on_same_day (t1 t2 : tm) : bool :=
  (tm_mday t1 =? tm_mday t2) && (tm_mon t1 =? tm_mon t2) && (tm_year t1 =? tm_year t2).

(** The difference of the times is unsigned. *)
Definition can_send_sms : M st bool :=
  min_minutes ← gets min_interval_minutes;
  max ← gets max_per_day;
  let min_interval_secs := s32 (u32 (min_minutes * 60)) in
  sent_per_day_count ← eos (rtc_read_value 0);
  last_sent_time ← eos (rtc_read_value 1);
  now ← eos (clock_get CLOCK_REALTIME);
  let current_time := now.2.1 in
  if u32 min_interval_secs <=? u32 (current_time - last_sent_time) then
    current_time_tm ← defined (gmtime_r current_time);
    last_sent_time_tm ← defined (gmtime_r last_sent_time);
    let count := if are_dates_on_same_day last_sent_time_tm current_time_tm then sent_per_day_count else 0 in
    if count <? u32 max then
      eos (rtc_save_value (u32 (count + 1)) 0);;
      eos (rtc_save_value current_time 1);;
      mret true
    else mret false
  else mret false.

Definition send_sms (phoneNumber text : list Z) : M st unit :=
  b ← can_send_sms;
  if negb b then mret tt
  else
    ret ← eos conman_init;
    if negb (ret =? OK) then mret tt
    else
      put (Sms phoneNumber text);;
      eos (conman_send_sms phoneNumber text);;
      eos conman_uninit.

(** show_text only traces. *)
Definition do_event_actions (e : Z) : M st unit :=
  ev ← event_conf e;
  (if eventLog ev && negb (sendEvent ev) && negb (sendPush ev) then log_event e else mret tt);;
  (if sendEvent ev || sendPush ev then _ ← send_event e; mret tt else mret tt);;
  (if sendLog ev then url ← url_of e; send_log url else mret tt);;
  match sms_phoneNumber ev, sms_text ev with
  | Some phone, Some text => send_sms phone text
  | _, _ => mret tt
  end.

(** * Finding states and purposes *)

Fixpoint find_state_in (id : Z) (l : list Z) : M st Z :=
  match l with
  | [] => mret NULL
  | q :: l =>
      conf ← state_conf q;
      if stId conf =? id then mret q else find_state_in id l
  end.
Definition find_state_by_id (u id : Z) : M st Z :=
  conf ← purpose_conf u;
  find_state_in (if id =? INVALID_STATE then initStId conf else id) (states conf).

Fixpoint find_purpose_in (id : Z) (l : list Z) : M st Z :=
  match l with
  | [] => mret NULL
  | u :: l =>
      conf ← purpose_conf u;
      if puId conf =? id then mret u else find_purpose_in id l
  end.
Definition find_purpose_by_id (id : Z) : M st Z :=
  find_purpose_in (if id =? INVALID_PURPOSE then initPuId P else id) (purposes P).

(** * Causes *)

Definition is_active_relative_cause (conf : ts_cause) : bool :=
  negb (measurement_interval conf =? -1) && threshold_relative conf.

Definition stop_cause_timer (c : Z) : M st unit :=
  d ← cause_dyn c;
  eos (timer_stop (timer_id d));;
  set_cause c (set_timer_id (-1)).

(** [cause_timer_in_past] *)
Definition cause_timer_in_past (time currts : timespec) : bool :=
  if time.1 =? currts.1 then time.2 <? currts.2 else time.1 <? currts.1.

(** One step of the date timer: the inner loop runs at most once, since the
    nanoseconds stay below two seconds. *)
Definition next_date (interval : Z) (time : timespec) : timespec :=
  let sec := u32 (time.1 + interval `div` 1000) in
  let nsec := time.2 + interval `mod` 1000 * 1000 * 1000 in
  if 1000000000 <=? nsec then (u32 (sec + 1), nsec - 1000000000) else (sec, nsec).

Definition start_cause_timer (c : Z) : M st Z :=
  conf ← cause_conf c;
  (if measurement_interval conf <? DEEP_SLEEP_RATE_LIMIT then
     id ← eos (timer_setup (measurement_interval conf) c);
     set_cause c (set_timer_id id)
   else
     now ← eos (clock_get CLOCK_MONOTONIC);
     d ← cause_dyn c;
     time ← loop (Z.to_nat (now.2.1 - (cause_time d).1) + 2) (λ time,
       let time := next_date (measurement_interval conf) time in
       mret (if cause_timer_in_past time now.2 then inl time else inr time)) (cause_time d);
     set_cause c (set_cause_time time);;
     id ← eos (timer_setup_date time c);
     set_cause c (set_timer_id id));;
  d ← cause_dyn c;
  mret (if timer_id d <? 0 then - TS_ENGINE_ERROR_SYSTEM else OK).

Definition engine_cause_request_value (c : Z) : M st Z :=
  conf ← cause_conf c;
  let info := sense_info conf in
  d ← cause_dyn c;
  v ← defined (retag (info_min info) (sense_value d));
  set_cause c (set_value v);;
  if (0 <? measurement_interval conf) && has_active_read info then
    (if has_active_init info then eos (active_init c) else mret tt);;
    now ← eos (clock_get CLOCK_MONOTONIC);
    if now.1 <? 0 then mret ERROR
    else
      set_cause c (set_cause_time now.2);;
      start_cause_timer c
  else if negb (has_irq_init info) then mret ERROR
  else
    r ← eos (irq_init c);
    set_cause c (λ d, from_option (λ x, set_timer_id x d) d (irq_timer r));;
    set_cause c (λ d, from_option (λ x, set_fd x d) d (irq_fd r));;
    mret (irq_ret r).

Definition init_cause (c : Z) : M st Z :=
  conf ← cause_conf c;
  d ← cause_dyn c;
  assert (timer_id d <? 0);;
  assert (fd d <? 0);;
  set_cause c (set_timer_id (-1));;
  set_cause c (set_fd (-1));;
  set_cause c (set_triggered false);;
  set_cause c (set_threshold_counter (threshold_count conf));;
  set_cause c (set_measurement_counter (if measurement_count conf =? 0 then -1 else measurement_count conf));;
  set_cause c (set_measure_bias (is_active_relative_cause conf));;
  q ← state_of_cause c;
  on_links (sq_addlast (c + ACTIVE_ENTRY) (q + ACTIVE_CAUSES));;
  engine_cause_request_value c.

Definition reinit_cause (c : Z) : M st Z :=
  d ← cause_dyn c;
  if measurement_counter d =? 0 then init_cause c
  else
    conf ← cause_conf c;
    set_cause c (set_triggered false);;
    set_cause c (set_threshold_counter (threshold_count conf));;
    mret OK.

Definition uninit_cause (c : Z) : M st Z :=
  q ← state_of_cause c;
  on_links (sq_rem (c + ACTIVE_ENTRY) (q + ACTIVE_CAUSES));;
  d ← cause_dyn c;
  (if 0 <=? timer_id d then stop_cause_timer c;; set_cause c (set_timer_id (-1)) else mret tt);;
  d ← cause_dyn c;
  (if 0 <=? fd d then
     eos (fd_unregister (fd d));;
     eos (close_fd (fd d));;
     set_cause c (set_fd (-1))
   else mret tt);;
  conf ← cause_conf c;
  let info := sense_info conf in
  (if (0 <? measurement_interval conf) && has_active_read info then
     if has_active_uninit info then eos (active_uninit c) else mret tt
   else
     if has_irq_uninit info then eos (irq_uninit c) else mret tt);;
  free_valuearray c;;
  mret OK.

(** * Events, states, purposes, the profile *)

(** A loop over a list that an error ends. *)
Fixpoint init_all (init : Z → M st Z) (l : list Z) : M st Z :=
  match l with
  | [] => mret OK
  | x :: l =>
      ret ← init x;
      if ret <? 0 then mret ret else init_all init l
  end.

Definition init_event (cause_init : Z → M st Z) (e : Z) : M st Z :=
  ev ← event_conf e;
  ret ← init_all cause_init (causes ev);
  if ret <? 0 then mret ERROR
  else
    set_expected_order_id e FIRST_ORDER_ID;;
    mret OK.

Definition sq_init (q : Z) : M mem unit := store (q + HEAD) NULL;; store (q + TAIL) NULL.

Definition init_state (cause_init : Z → M st Z) (q : Z) : M st Z :=
  on_links (sq_init (q + ACTIVE_CAUSES));;
  conf ← state_conf q;
  init_all (init_event cause_init) (events conf).

Definition add_global_state (q : Z) : M st Z :=
  p ← eos (calloc 1 SIZEOF_GLOBAL_STATE);
  if negb (nonnull p) then mret (- TS_ENGINE_ERROR_OOM)
  else
    modify (λ s, put_globals (global_states s ++ [(p, q)]) s);;
    init_state init_cause q.

Definition init_global_states (u : Z) : M st Z :=
  conf ← purpose_conf u;
  init_all (λ q,
    conf ← state_conf q;
    if isGlobal conf then add_global_state q else mret OK) (states conf).

Fixpoint uninit_globals (l : list (Z * Z)) : M st unit :=
  match l with
  | [] => mret tt
  | (p, q) :: l =>
      conf ← state_conf q;
      (if isGlobal conf then _ ← init_state uninit_cause q; eos (free p) else mret tt);;
      uninit_globals l
  end.
Definition uninit_global_states : M st unit :=
  l ← gets global_states;
  uninit_globals l;;
  modify (put_globals []).

Definition init_purpose (u state_id : Z) : M st Z :=
  q ← find_state_by_id u state_id;
  if negb (nonnull q) then mret ERROR
  else
    put (UiState u q);; eos (ui_event (UiState u q));;
    cur ← gets current_state;
    if cur =? q then mret OK
    else
      ret ← (if nonnull cur then init_state uninit_cause cur else mret OK);
      if ret <? 0 then mret ERROR
      else
        ret ← init_state init_cause q;
        if ret <? 0 then mret ERROR
        else modify (put_state q);; mret OK.

Definition init_profile (purpose_id state_id : Z) : M st Z :=
  u ← find_purpose_by_id purpose_id;
  if negb (nonnull u) then mret ERROR
  else
    ret ← init_purpose u state_id;
    if ret <? 0 then mret ERROR
    else
      cur ← gets current_purpose;
      ret ← (if cur =? u then mret OK
             else
               uninit_global_states;;
               ret ← init_global_states u;
               if ret <? 0 then mret ERROR
               else _ ← send_ping_event true; mret OK);
      if ret <? 0 then mret ERROR
      else modify (put_purpose u);; mret OK.

Definition SMS_LIMIT_DEFAULT_MIN_INTERVAL_MINUTES : Z := 0.
Definition SMS_LIMIT_DEFAULT_MAX_PER_DAY : Z := 24.

(** [profile_main]: is an engine running afterwards? *)
Definition profile_main : M st bool :=
  modify (put_purpose NULL);;
  modify (put_state NULL);;
  modify (put_globals []);;
  m ← eos (property_min_interval_minutes SMS_LIMIT_DEFAULT_MIN_INTERVAL_MINUTES);
  d ← eos (property_max_per_day SMS_LIMIT_DEFAULT_MAX_PER_DAY);
  modify (put_limits m d);;
  ret ← init_profile INVALID_PURPOSE INVALID_STATE;
  if negb (ret =? OK) then mret false
  else modify (put_run ENGINE_RUNNING);; mret true.

Definition profile_stop (free uninit_connector : bool) : M st Z :=
  r ← gets run_state;
  if negb (bool_decide (r = ENGINE_RUNNING)) then mret (- TS_ENGINE_ERROR_NOT_RUNNING)
  else
    eos cancel_connection;;
    (if uninit_connector then _ ← eos (select_connector (-1)); mret tt else mret tt);;
    uninit_global_states;;
    q ← gets current_state;
    _ ← init_state uninit_cause q;
    modify (put_run (if free then ENGINE_STOPPED else ENGINE_PAUSED));;
    mret OK.

Definition profile_continue : M st Z :=
  r ← gets run_state;
  if negb (bool_decide (r = ENGINE_PAUSED)) then mret (- TS_ENGINE_ERROR_NOT_PAUSED)
  else
    u ← gets current_purpose;
    ret ← init_global_states u;
    if ret <? 0 then mret ret
    else
      q ← gets current_state;
      ret ← init_state init_cause q;
      if ret <? 0 then mret ret
      else modify (put_run ENGINE_RUNNING);; mret OK.

(** * A new value *)

(** __ts_engine_check_geofence *)
Definition check_geofence (c : Z) (thr : ts_threshold) : M st bool :=
  d ← cause_dyn c;
  match thr_value thr, sense_value d with
  | VALUEARRAY n _, VALUEARRAY 7 p =>
      assert (Z.even n);;
      let points := n `quot` 2 in
      if points <? 3 then mret false
      else
        a ← eos (malloc (u32 (SIZEOF_POLY + points * SIZEOF_POINT)));
        if negb (nonnull a) then mret false
        else
          b ← gets blocks;
          '(_, items) ← defined (valuearray b (thr_value thr));
          poly ← defined (polygon_of (Z.to_nat points) items);
          '(_, items) ← defined (valuearray b (sense_value d));
          x ← defined (items !! 0%nat ≫= valuedouble);
          y ← defined (items !! 1%nat ≫= valuedouble);
          let ret := point_in_polygon (x, y) poly in
          eos (free a);;
          free_valuearray c;;
          set_cause c (set_value (VALUEBOOL ret));;
          mret ret
  | _, _ => fault
  end.

Definition check_threshold (c : Z) (thr : ts_threshold) : M st bool :=
  if thr_geofence thr then check_geofence c thr
  else
    conf ← cause_conf c;
    d ← cause_dyn c;
    b ← gets blocks;
    defined (check_plain_threshold b thr (Bias (is_active_relative_cause conf) (sense_bias d)) (sense_value d)).

(** Every threshold is checked, also behind one that does not hold. *)
Fixpoint check_all (c : Z) (l : list ts_threshold) (ret : bool) : M st bool :=
  match l with
  | [] => mret ret
  | thr :: l =>
      b ← check_threshold c thr;
      check_all c l (b && ret)
  end.

Definition check_thresholds (c : Z) : M st bool :=
  conf ← cause_conf c;
  let e := cause_event conf in
  d ← cause_dyn c;
  if measure_bias d then
    set_cause c (λ d, set_measure_bias false (set_bias (sense_value d) d));;
    mret false
  else if 0 <? measurement_counter d then
    set_cause c (set_measurement_counter (measurement_counter d - 1));;
    if measurement_counter d - 1 =? 0 then _ ← uninit_cause c; mret true
    else mret false
  else
    match thresholds conf with
    | [] => mret false
    | _ =>
        ret ← check_all c (thresholds conf) true;
        if negb (if threshold_negate conf then negb ret else ret) then
          (if negb (orderId conf =? 0) then _ ← init_event reinit_cause e; mret tt
           else set_cause c (set_threshold_counter (threshold_count conf)));;
          mret false
        else
          d ← cause_dyn c;
          let counter := if 0 <? threshold_counter d then threshold_counter d - 1 else threshold_counter d in
          set_cause c (set_threshold_counter counter);;
          if (0 <? threshold_counter d) && (0 <? counter) then mret false
          else if negb (orderId conf =? 0) then
            n ← expected_order_id e;
            if negb (orderId conf =? n) then
              _ ← init_event reinit_cause e;
              mret false
            else
              set_expected_order_id e (n + 1);;
              mret true
          else mret true
    end.

Fixpoint all_causes_triggered (l : list Z) : M st bool :=
  match l with
  | [] => mret true
  | c :: l =>
      d ← cause_dyn c;
      if negb (triggered d) then mret false else all_causes_triggered l
  end.

(** What handle_cause_event does when all causes of the event are triggered. *)
Definition event_triggered (e : Z) : M st bool :=
  ev ← event_conf e;
  do_event_actions e;;
  purpose_changing ← (if gotoPuId ev =? -1 then mret false
    else u ← gets current_purpose; u ← purpose_conf u; mret (negb (puId u =? gotoPuId ev)) );
  state_changing ← (if purpose_changing : bool then mret true
    else if gotoStId ev =? -1 then mret false
    else q ← gets current_state; q ← state_conf q; mret (negb (gotoStId ev =? stId q)));
  if negb state_changing then
    _ ← init_event reinit_cause e;
    mret false
  else
    (if purpose_changing : bool then
       _ ← init_profile (gotoPuId ev) (gotoStId ev); mret tt
     else
       u ← gets current_purpose; u ← purpose_conf u;
       _ ← init_profile (puId u) (gotoStId ev); mret tt);;
    mret true.

Definition handle_cause_event (c : Z) (timestamp : option timespec) : M st bool :=
  conf ← cause_conf c;
  d ← cause_dyn c;
  put (UiSense (sId d) (sense_value d));; eos (ui_event (UiSense (sId d) (sense_value d)));;
  ts ← (match timestamp with
        | Some ts => mret ts
        | None => now ← eos (clock_get CLOCK_REALTIME); mret now.2
        end);
  set_cause c (set_ts ts);;
  (if measurement_send conf then _ ← send_cause c; mret tt else mret tt);;
  ret ← check_thresholds c;
  set_cause c (set_triggered ret);;
  (if (if ret : bool then senseLog conf || measurement_log conf else measurement_log conf) then log_cause c else mret tt);;
  changing ← (if negb ret then mret false
    else
      ev ← event_conf (cause_event conf);
      all ← all_causes_triggered (causes ev);
      if all : bool then event_triggered (cause_event conf) else mret false);
  free_valuearray c;;
  mret changing.

(** [handle_cause]: the value of [cause] goes to every cause of the state's
    active queue that has its sense. *)
Definition handle_cause (fuel : nat) (cause : Z) : M st bool :=
  now ← eos (clock_get CLOCK_REALTIME);
  q ← state_of_cause cause;
  first ← on_links (load (q + ACTIVE_CAUSES + HEAD));
  loop fuel (λ x : Z * bool, let '(it, changing) := x in
    if nonnull it then
      let c := it - ACTIVE_ENTRY in
      from ← cause_dyn cause;
      d ← cause_dyn c;
      changing ← (if sId d =? sId from then
        set_cause c (copy_sense_value from);;
        b ← handle_cause_event c (Some now.2);
        mret (b || changing) else mret changing);
      next ← on_links (load (c + ACTIVE_ENTRY + FLINK));
      mret (inl (next, changing))
    else mret (inr changing)) (first, false).

(** The driver reads its sense; the value that it reports with handle_cause is
    a step of its own. *)
Definition engine_cause_get_value (c : Z) : M st Z := eos (active_read c).

(** The callbacks of the timers; a date timer is one-shot and set up again. *)
Definition cause_timer_callback (c timer : Z) : M st Z :=
  d ← cause_dyn c;
  assert (timer =? timer_id d);;
  engine_cause_get_value c.

Definition cause_timer_callback_date (c timer : Z) : M st Z :=
  d ← cause_dyn c;
  assert (timer =? timer_id d);;
  set_cause c (set_timer_id (-1));;
  _ ← start_cause_timer c;
  engine_cause_get_value c.
End Engine.
