(* ===== verification/EngineInv.v ===== *)
(** The invariant of the engine: the laws of the world around it, what a
    profile must be, the active queues as lists of causes, the arrays that
    drivers hand over, and what initialising and uninitialising a cause do. *)

From Stdlib Require Import SpecFloat.
From stdpp Require Import functions.
From S2P Require Import Prelude Links Queue QueueSq Ubx UbxInv EngValue Engine.

(** * The world *)

(** The call returns, and the memory blocks in use stay the same. *)
Definition keeps {E A} `{OsLaws E} (op : M E A) (φ : A → Prop) : Prop :=
  ∀ e X, owned e X → returns op e (λ a e', owned e' X ∧ φ a).

(** What the engine relies on.  [connected]: there is always a connector.
    Timers and drivers do not run out of resources, and the device is not up
    for 68 years. *)
Class EngineLaws (E : Type) `{OsLaws E} `{EngineOs E} := {
  connected : bool;
  clock_get_ok k : keeps (clock_get k) (λ r, 0 ≤ r.1 ∧ 0 ≤ r.2.1 < 2 ^ 32 ∧ 0 ≤ r.2.2 < 1000000000 ∧ (k = CLOCK_MONOTONIC → r.2.1 < 2 ^ 31));
  timer_setup_ok i c : keeps (timer_setup i c) (λ id, 0 ≤ id);
  timer_setup_date_ok t c : keeps (timer_setup_date t c) (λ id, 0 ≤ id);
  timer_stop_ok id : keeps (timer_stop id) (λ _, True);
  fd_unregister_ok f : keeps (fd_unregister f) (λ _, True);
  close_fd_ok f : keeps (close_fd f) (λ _, True);
  active_init_ok c : keeps (active_init c) (λ _, True);
  active_uninit_ok c : keeps (active_uninit c) (λ _, True);
  active_read_ok c : keeps (active_read c) (λ _, True);
  irq_init_ok c : keeps (irq_init c) (λ r, irq_ret r = OK);
  irq_uninit_ok c : keeps (irq_uninit c) (λ _, True);
  ui_event_ok o : keeps (ui_event o) (λ _, True);
  select_connector_ok i : keeps (select_connector i) (λ r, (0 ≤ r.1 → is_Some r.2) ∧ (connected = true → is_Some r.2));
  connector_send_ok p url priv : keeps (connector_send p url priv) (λ _, True);
  log_payload_ok p t : keeps (log_payload p t) (λ _, True);
  have_logs_ok : keeps have_logs (λ _, True);
  log_start_ok b url : keeps (log_start b url) (λ _, True);
  conman_init_ok : keeps conman_init (λ _, True);
  conman_send_sms_ok n t : keeps (conman_send_sms n t) (λ _, True);
  conman_uninit_ok : keeps conman_uninit (λ _, True);
  rtc_read_value_ok i : keeps (rtc_read_value i) (λ v, 0 ≤ v < 2 ^ 32);
  rtc_save_value_ok v i : keeps (rtc_save_value v i) (λ _, True);
  property_min_interval_minutes_ok d : keeps (property_min_interval_minutes d) (λ _, True);
  property_max_per_day_ok d : keeps (property_max_per_day d) (λ _, True);
  cancel_connection_ok : keeps cancel_connection (λ _, True);
  global_state_memory e X : owned e X → returns (calloc 1 SIZEOF_GLOBAL_STATE) e (λ p e', p ≠ NULL ∧ owned e' (p :: X));
}.

(** The laws, for the proofs that call the world. *)
Create HintDb engine_laws.
#[export] Hint Resolve clock_get_ok timer_setup_ok timer_setup_date_ok timer_stop_ok fd_unregister_ok close_fd_ok
  active_init_ok active_uninit_ok active_read_ok irq_init_ok irq_uninit_ok ui_event_ok select_connector_ok connector_send_ok log_payload_ok
  have_logs_ok log_start_ok conman_init_ok conman_send_sms_ok conman_uninit_ok rtc_read_value_ok rtc_save_value_ok
  property_min_interval_minutes_ok property_max_per_day_ok cancel_connection_ok : engine_laws.

(** * Profiles *)

Section Profile.
Context (P : ts_profile).

Definition state_of (c : Z) : option Z := conf ← cause_at P !! c; event_state <$> event_at P !! (cause_event conf).
Definition causes_in (e : Z) : list Z := from_option causes [] (event_at P !! e).
Definition state_causes (q : Z) : list Z := from_option events [] (state_at P !! q) ≫= causes_in.

(** find_state_by_id and find_purpose_by_id, NULL when there is none. *)
Definition lookup_state (u id : Z) : Z :=
  match purpose_at P !! u with
  | Some pu =>
      let id := if id =? INVALID_STATE then initStId pu else id in
      hd_or NULL (filter (λ q, stId <$> state_at P !! q = Some id) (states pu))
  | None => NULL
  end.
Definition lookup_purpose (id : Z) : Z :=
  let id := if id =? INVALID_PURPOSE then initPuId P else id in
  hd_or NULL (filter (λ u, puId <$> purpose_at P !! u = Some id) (purposes P)).

(** A state is named by an event or by its purpose. *)
Definition named (id : Z) : Prop := id = INVALID_STATE ∨ ∃ e ev, event_at P !! e = Some ev ∧ gotoStId ev = id.

Definition polled (conf : ts_cause) : bool := (0 <? measurement_interval conf) && has_active_read (sense_info conf).

(** The struct tree holds together, each struct in one place; a cause has a
    way to be measured; nothing names a global state; geofences belong to
    senses that are booleans. *)
Record profile_ok : Prop := {
  purpose_ok u : u ∈ purposes P → is_Some (purpose_at P !! u) ∧ u ≠ NULL;
  purpose_states u pu q : purpose_at P !! u = Some pu → q ∈ states pu →
    q ≠ NULL ∧ ∃ st, state_at P !! q = Some st ∧ state_purpose st = u;
  purpose_nodup u pu : purpose_at P !! u = Some pu → NoDup (states pu);
  state_ok q st : state_at P !! q = Some st → is_Some (purpose_at P !! state_purpose st);
  state_events q st e : state_at P !! q = Some st → e ∈ events st → ∃ ev, event_at P !! e = Some ev ∧ event_state ev = q;
  event_ok e ev : event_at P !! e = Some ev → ∃ st, state_at P !! event_state ev = Some st ∧ e ∈ events st;
  event_causes e ev c : event_at P !! e = Some ev → c ∈ causes ev → ∃ conf, cause_at P !! c = Some conf ∧ cause_event conf = e;
  cause_ok c conf : cause_at P !! c = Some conf → ∃ ev, event_at P !! cause_event conf = Some ev ∧ c ∈ causes ev;
  state_nodup q : NoDup (state_causes q);
  event_number e ev : event_at P !! e = Some ev → number_of_causes ev = zlength (causes ev) ∧ zlength (causes ev) ≤ 1000;
  cause_sense c conf : cause_at P !! c = Some conf → polled conf = true ∨ has_irq_init (sense_info conf) = true;
  cause_interval c conf : cause_at P !! c = Some conf → measurement_interval conf < 2 ^ 31;
  cause_geofence c conf thr : cause_at P !! c = Some conf → thr ∈ thresholds conf → thr_geofence thr = true →
    info_min (sense_info conf) = VALUEBOOL false;
  named_local u id st : named id → state_at P !! lookup_state u id = Some st → isGlobal st = false;
  cause_word c q : is_Some (cause_at P !! c) → is_Some (state_at P !! q) →
    c + ACTIVE_ENTRY ≠ NULL ∧ c + ACTIVE_ENTRY ≠ q + ACTIVE_CAUSES ∧ c + ACTIVE_ENTRY ≠ q + ACTIVE_CAUSES + 4;
  state_words q r : is_Some (state_at P !! q) → is_Some (state_at P !! r) → q + ACTIVE_CAUSES ≠ r + ACTIVE_CAUSES + 4;
}.

Context (HP : profile_ok).

Lemma state_of_event c conf ev : cause_at P !! c = Some conf → event_at P !! cause_event conf = Some ev → state_of c = Some (event_state ev).
Proof. unfold state_of. intros -> He. simpl. by rewrite He. Qed.

Lemma elem_of_causes_in c e : c ∈ causes_in e ↔ ∃ conf, cause_at P !! c = Some conf ∧ cause_event conf = e.
Proof.
  unfold causes_in. split.
  - destruct (event_at P !! e) as [ev|] eqn:He; simpl; [|set_solver]. by apply HP.
  - intros (conf & Hc & <-). destruct (cause_ok HP c conf Hc) as (ev & -> & Hin). done.
Qed.

Lemma elem_of_state_causes c q : c ∈ state_causes q ↔ state_of c = Some q.
Proof.
  unfold state_causes. split.
  - intros (e & Hin & He)%list_elem_of_bind. apply elem_of_causes_in in Hin as (conf & Hc & <-).
    destruct (state_at P !! q) as [st|] eqn:Hq; simpl in He; [|set_solver].
    destruct (state_events HP _ _ _ Hq He) as (ev & Hev & <-). by eapply state_of_event.
  - unfold state_of. destruct (cause_at P !! c) as [conf|] eqn:Hc; simpl; [|done].
    destruct (cause_ok HP c conf Hc) as (ev & Hev & Hin). rewrite Hev. simpl. intros [= <-].
    destruct (event_ok HP _ _ Hev) as (st & -> & He). simpl. apply list_elem_of_bind. exists (cause_event conf).
    split; [|done]. unfold causes_in. by rewrite Hev.
Qed.

Lemma state_of_at c q : state_of c = Some q → is_Some (state_at P !! q) ∧ is_Some (cause_at P !! c).
Proof.
  unfold state_of. destruct (cause_at P !! c) as [conf|] eqn:Hc; simpl; [|done].
  destruct (cause_ok HP c conf Hc) as (ev & Hev & _). rewrite Hev. simpl. intros [= <-].
  destruct (event_ok HP _ _ Hev) as (st & -> & _). split; eauto.
Qed.
End Profile.

(** * The active queues *)

Definition entry (c : Z) : Z := c + ACTIVE_ENTRY.
#[global] Instance entry_inj : Inj (=) (=) entry.
Proof. unfold entry. intros a b. lia. Qed.

Lemma sq_repr_writes m m' q l F : sq_repr m q l → writes F m m' → (∀ a, a ∈ q :: (q + 4) :: l → a ∉ F) → sq_repr m' q l.
Proof.
  intros (Hh & Ht & Hs & Hn) [_ Hw] Hd. unfold sq_repr. rewrite !Hw by (apply Hd; set_solver).
  split_and!; [done..| |by destruct Hn|by destruct Hn]. revert Hs. apply sseg_frame. intros x Hx. apply Hw, Hd. set_solver.
Qed.

Section Queues.
Context (P : ts_profile) (HP : profile_ok P).

(** [L q] are the causes on the active queue of state [q], in order. *)
Definition queues (m : mem) (L : Z → list Z) : Prop :=
  (∀ q, is_Some (state_at P !! q) → sq_repr m (q + ACTIVE_CAUSES) (entry <$> L q) ∧ ∀ c, c ∈ L q → state_of P c = Some q) ∧
  ∀ c, is_Some (cause_at P !! c) → is_Some (m !! entry c).

Lemma queues_update m m' L q l F :
  queues m L → is_Some (state_at P !! q) → sq_repr m' (q + ACTIVE_CAUSES) (entry <$> l) → (∀ c, c ∈ l → state_of P c = Some q) →
  writes F m m' →
  (∀ a, a ∈ F → a = q + ACTIVE_CAUSES ∨ a = q + ACTIVE_CAUSES + 4 ∨ ∃ c, state_of P c = Some q ∧ a = entry c) →
  queues m' (<[q:=l]> L).
Proof.
  intros [HL Hm] Hq Hr Hl Hw HF. split.
  - intros r Hr'. destruct (decide (r = q)) as [->|Hne]; [by rewrite fn_lookup_insert|]. rewrite fn_lookup_insert_ne by done.
    destruct (HL r Hr') as [Hrr Hlr]. split; [|done]. eapply sq_repr_writes; [done..|].
    assert (Hc : ∀ c, state_of P c = Some q → is_Some (cause_at P !! c)) by (intros c Hc; by apply (state_of_at P HP c q)).
    intros a [->|[->|(c & -> & Hin)%list_elem_of_fmap]%elem_of_cons]%elem_of_cons [E|[E|(c' & Hc' & E)]]%HF.
    + lia.
    + pose proof (state_words P HP r q Hr' Hq). lia.
    + pose proof (cause_word P HP c' r (Hc _ Hc') Hr'). unfold entry in E. lia.
    + pose proof (state_words P HP q r Hq Hr'). lia.
    + lia.
    + pose proof (cause_word P HP c' r (Hc _ Hc') Hr'). unfold entry in E. lia.
    + destruct (state_of_at P HP c r (Hlr _ Hin)) as [_ Hcc]. pose proof (cause_word P HP c q Hcc Hq). unfold entry in E. lia.
    + destruct (state_of_at P HP c r (Hlr _ Hin)) as [_ Hcc]. pose proof (cause_word P HP c q Hcc Hq). unfold entry in E. lia.
    + apply (inj entry) in E as ->. specialize (Hlr _ Hin). congruence.
  - intros c Hc. by apply (writes_mapped _ _ _ _ Hw), Hm.
Qed.

Lemma queue_words a q l : (∀ c, c ∈ l → state_of P c = Some q) → a ∈ (q + ACTIVE_CAUSES) :: (q + ACTIVE_CAUSES + 4) :: (entry <$> l) →
  a = q + ACTIVE_CAUSES ∨ a = q + ACTIVE_CAUSES + 4 ∨ ∃ c, state_of P c = Some q ∧ a = entry c.
Proof.
  intros Hl [->|[->|(c & -> & Hin)%list_elem_of_fmap]%elem_of_cons]%elem_of_cons; [by left|by right; left|].
  right; right. eauto.
Qed.

Lemma queues_addlast m L c q : queues m L → state_of P c = Some q → c ∉ L q →
  returns (sq_addlast (entry c) (q + ACTIVE_CAUSES)) m (λ _ m', queues m' (<[q := L q ++ [c]]> L)).
Proof.
  intros HQ Hc Hn. destruct (state_of_at P HP c q Hc) as [Hq Hcc]. pose proof (proj1 HQ q Hq) as [Hr Hl].
  pose proof (cause_word P HP c q Hcc Hq) as (W1 & W2 & W3).
  eapply returns_mono.
  { apply sq_addlast_spec; [done|]. split_and!; [done|by apply HQ|]. destruct Hr as (_ & _ & _ & Hnd & _).
    apply NoDup_cons. split; [|done]. rewrite !not_elem_of_cons. split_and!; [done..|].
    intros (c' & E & Hin)%list_elem_of_fmap. by apply (inj entry) in E as ->. }
  intros _ m' [Hr' Hw]. eapply queues_update; [done..| | |exact Hw|].
  - by rewrite fmap_app.
  - intros c' [Hin| ->%list_elem_of_singleton]%elem_of_app; auto.
  - intros a Ha. apply (queue_words a q (c :: L q)); [|simpl; set_solver].
    intros c' [->|Hin]%elem_of_cons; auto.
Qed.

Lemma queues_rem m L c q l1 l2 : queues m L → L q = l1 ++ c :: l2 → is_Some (state_at P !! q) →
  returns (sq_rem (entry c) (q + ACTIVE_CAUSES)) m (λ _ m', queues m' (<[q := l1 ++ l2]> L)).
Proof.
  intros HQ HL Hq. pose proof (proj1 HQ q Hq) as [Hr Hl]. rewrite HL in Hr, Hl. rewrite fmap_app in Hr. simpl in Hr.
  eapply returns_mono; [by apply sq_rem_spec|]. intros _ m' [Hr' Hw]. eapply queues_update; [done..| | |exact Hw|].
  - by rewrite fmap_app.
  - intros c' Hc'. apply Hl. set_solver.
  - intros a Ha. apply (queue_words a q (l1 ++ c :: l2)); [done|]. by rewrite fmap_app.
Qed.

Lemma queues_rem_empty m L c q : queues m L → L q = [] → is_Some (state_at P !! q) →
  returns (sq_rem (entry c) (q + ACTIVE_CAUSES)) m (λ _ m', m' = m).
Proof.
  intros HQ HL Hq. pose proof (proj1 HQ q Hq) as [Hr _]. destruct Hr as (Hh & _). rewrite HL in Hh.
  unfold sq_rem, HEAD. rewrite Z.add_0_r. eapply returns_bind, returns_load; [done|]. done.
Qed.

Lemma queues_init m L q : queues m L → is_Some (state_at P !! q) →
  returns (sq_init (q + ACTIVE_CAUSES)) m (λ _ m', queues m' (<[q := []]> L)).
Proof.
  intros HQ Hq. pose proof (proj1 HQ q Hq) as [Hr _]. destruct Hr as (Hh & Ht & _).
  unfold sq_init, HEAD, TAIL. rewrite Z.add_0_r. unfold returns.
  eapply returns_bind, returns_store; [by eexists|]. apply returns_store; [rewrite lookup_insert_ne by lia; by eexists|].
  eapply queues_update with (F := [q + ACTIVE_CAUSES; q + ACTIVE_CAUSES + 4]); [done..| |set_solver| |].
  - unfold sq_repr. simpl. rewrite lookup_insert_ne, !lookup_insert_eq by lia. split_and!; [done..| |done].
    apply NoDup_cons; split; [rewrite list_elem_of_singleton; lia|apply NoDup_singleton].
  - split; [|intros a Ha; rewrite !lookup_insert_ne by set_solver; done].
    rewrite !dom_insert_L. apply elem_of_dom_2 in Hh, Ht. set_solver.
  - set_solver.
Qed.

Lemma queues_nodup m L q : queues m L → is_Some (state_at P !! q) → NoDup (L q).
Proof. intros HQ Hq. pose proof (proj1 HQ q Hq) as [Hr%sq_nodup _]. by apply NoDup_fmap_1 in Hr. Qed.
End Queues.

(** * The arrays of measured values *)

(** The array that a value owns. *)
Definition flying (v : ts_value) : option (Z * Z) :=
  match v with VALUEARRAY n p => if nonnull p then Some (n, p) else None | _ => None end.

(** Strings and arrays of a driver are short. *)
Definition short (v : ts_value) : Prop :=
  match v with
  | VALUESTRING (Some str) => zlength str ≤ 1000
  | VALUEARRAY n _ => 0 ≤ n ≤ 1000
  | _ => True
  end.

(** The tag that initialising the cause gives the value is defined. *)
Definition typed (conf : ts_cause) (v : ts_value) : Prop := is_Some (retag (info_min (sense_info conf)) v) ∧ short v.

Section Heap.
Context {E : Type} `{EngineLaws E}.
Context (P : ts_profile).
Local Abbreviation st := (engine_s E).
Implicit Types (s : st).

(** Only the cause [c] may hold an array, one that is not of a threshold;
    [X] are the other blocks in use. *)
Definition heap (X : list Z) (c : Z) s : Prop :=
  (∀ c' d, dyns s !! c' = Some d → c' ≠ c → flying (sense_value d) = None) ∧
  match dyns s !! c ≫= flying ∘ sense_value with
  | None => blocks s = threshold_items P ∧ owned (e_os s) X
  | Some (n, p) => ∃ l, n = zlength l ∧ threshold_items P !! p = None ∧ blocks s = <[p:=l]> (threshold_items P) ∧
      owned (e_os s) (p :: X)
  end.

(** Everything but links, causes, arrays and the world. *)
Definition rest s := (orders s, current_purpose s, current_state s, global_states s, run_state s,
  min_interval_minutes s, max_per_day s, backend_cb s, profile_updated s, out s).

Lemma heap_owned X c s : heap X c s → ∃ Y, owned (e_os s) (Y ++ X).
Proof.
  intros [_ Hh]. destruct (dyns s !! c ≫= _) as [[n p]|]; [|by exists []; destruct Hh].
  destruct Hh as (l & _ & _ & _ & Ho). by exists [p].
Qed.

(** A call that allocates the blocks [new a]. *)
Lemma heap_call {A} (op : M E A) (φ : A → Prop) (new : A → list Z) X c s :
  (∀ e Y, owned e Y → returns op e (λ a e', owned e' (new a ++ Y) ∧ φ a)) → heap X c s →
  returns (eos op) s (λ a s', φ a ∧ heap (new a ++ X) c s' ∧ ∃ e, s' = put_eos e s).
Proof.
  intros Hop [Hq Hh]. unfold eos. apply returns_zoom.
  destruct (dyns s !! c ≫= flying ∘ sense_value) as [[n p]|] eqn:Ec.
  - destruct Hh as (l & Hn & Hp & Hb & Ho). eapply returns_mono; [by apply Hop|]. intros a e' [Ho' Ha].
    split_and!; [done| |by eexists]. split; [done|]. simpl. rewrite Ec. exists l. split_and!; [done..|].
    eapply owned_perm; [|done]. by rewrite Permutation_middle.
  - destruct Hh as [Hb Ho]. eapply returns_mono; [by apply Hop|]. intros a e' [Ho' Ha].
    split_and!; [done| |by eexists]. split; [done|]. simpl. by rewrite Ec.
Qed.

Lemma heap_eos {A} (op : M E A) φ X c s : keeps op φ → heap X c s →
  returns (eos op) s (λ a s', φ a ∧ heap X c s' ∧ ∃ e, s' = put_eos e s).
Proof. intros Hop. by apply (heap_call op φ (λ _, [])). Qed.

Lemma heap_malloc n X c s : 1 ≤ n < 2 ^ 31 → heap X c s →
  returns (eos (malloc n)) s (λ p s', heap (if p =? NULL then X else p :: X) c s' ∧ ∃ e, s' = put_eos e s).
Proof.
  intros Hn Hh. eapply returns_mono; [apply (heap_call _ (λ _, True) (λ p, if p =? NULL then [] else [p])); [|done]|].
  - intros e Y Ho. eapply returns_mono; [by apply malloc_ok|]. intros p e' [_ Ho']. split; [|done]. by destruct (p =? NULL).
  - intros p s' (_ & Hh' & He). split; [|done]. by destruct (p =? NULL).
Qed.

Lemma heap_global X c s : heap X c s →
  returns (eos (calloc 1 SIZEOF_GLOBAL_STATE)) s (λ p s', p ≠ NULL ∧ heap (p :: X) c s' ∧ ∃ e, s' = put_eos e s).
Proof.
  intros Hh. apply (heap_call _ (λ p, p ≠ NULL) (λ p, [p])); [|done]. intros e Y Ho.
  eapply returns_mono; [by apply global_state_memory|]. intros p e' [? ?]. by split.
Qed.

Lemma heap_free p X c s : heap (p :: X) c s → returns (eos (free p)) s (λ _ s', heap X c s' ∧ ∃ e, s' = put_eos e s).
Proof.
  intros [Hq Hh]. unfold eos. apply returns_zoom.
  destruct (dyns s !! c ≫= flying ∘ sense_value) as [[k q]|] eqn:Ec.
  - destruct Hh as (l & Hl & Hp & Hb & Ho). eapply returns_mono; [apply free_ok|].
    { eapply owned_perm; [|done]. apply perm_swap. }
    intros _ e' [_ Ho']. split; [|by eexists]. split; [done|]. simpl. rewrite Ec. eauto 10.
  - destruct Hh as [Hb Ho]. eapply returns_mono; [by apply free_ok|]. intros _ e' [_ Ho'].
    split; [|by eexists]. split; [done|]. simpl. by rewrite Ec.
Qed.

(** Updating a cause without touching an array. *)
Lemma heap_dyn X c s c' d d' : heap X c s → dyns s !! c' = Some d → flying (sense_value d') = flying (sense_value d) →
  heap X c (put_dyns (<[c':=d']> (dyns s)) s).
Proof.
  intros [Hq Hh] Hd Hf. split.
  - simpl. intros b e. rewrite lookup_insert_Some. intros [[<- <-]|[Hne Hb]] Hbc; [|by eapply Hq].
    rewrite Hf. by eapply Hq.
  - simpl. destruct (decide (c' = c)) as [->|Hne].
    + rewrite lookup_insert_eq. simpl. rewrite Hd in Hh. simpl in Hh. by rewrite Hf.
    + by rewrite lookup_insert_ne.
Qed.

(** Changes of the other fields. *)
Lemma heap_same X c s s' : heap X c s → dyns s' = dyns s → blocks s' = blocks s → e_os s' = e_os s → heap X c s'.
Proof. unfold heap. by intros ? -> -> ->. Qed.

Lemma heap_perm X Y c s : X ≡ₚ Y → heap X c s → heap Y c s.
Proof.
  intros HXY [Hq Hh]. split; [done|]. destruct (dyns s !! c ≫= _) as [[n p]|].
  - destruct Hh as (l & ? & ? & ? & Ho). exists l. split_and!; [done..|]. eapply owned_perm; [|done]. by rewrite HXY.
  - destruct Hh as [? Ho]. split; [done|]. by eapply owned_perm.
Qed.

(** When [c] holds no array the heap does not depend on it. *)
Lemma heap_quiet X c c' s : heap X c s → (∀ d, dyns s !! c = Some d → flying (sense_value d) = None) → heap X c' s.
Proof.
  intros [Hq Hh] Hc. assert (Hall : ∀ b d, dyns s !! b = Some d → flying (sense_value d) = None).
  { intros b d Hb. destruct (decide (b = c)) as [->|Hne]; eauto. }
  split; [by eauto|].
  assert (∀ b, dyns s !! b ≫= flying ∘ sense_value = None) as Hn.
  { intros b. destruct (dyns s !! b) as [d|] eqn:Hb; simpl; [by eapply Hall|done]. }
  rewrite Hn in Hh |- *. done.
Qed.

Lemma returns_deref {A} (f : st → option A) a s (Q : A → st → Prop) : f s = Some a → Q a s → returns (deref f) s Q.
Proof. unfold returns, deref. by intros ->. Qed.

Lemma returns_set_cause c f d s (Q : unit → st → Prop) :
  dyns s !! c = Some d → Q tt (put_dyns (<[c:=f d]> (dyns s)) s) → returns (set_cause c f) s Q.
Proof. intros Hd HQ. unfold set_cause. eapply returns_bind, returns_deref; [done|]. by apply returns_modify. Qed.

Lemma free_valuearray_ok X c c' d s : heap X c s → dyns s !! c' = Some d →
  returns (free_valuearray c') s (λ _ s', heap X c s' ∧ rest s' = rest s ∧ links s' = links s ∧
    ∃ d', dyns s' = <[c':=d']> (dyns s) ∧ flying (sense_value d') = None ∧ (∃ v, d' = set_value v d ∧
      (v = sense_value d ∨ ∃ n p, sense_value d = VALUEARRAY n p ∧ v = VALUEARRAY n NULL))).
Proof.
  intros Hh Hd. unfold free_valuearray. eapply returns_bind, returns_deref; [exact Hd|].
  assert (Hskip : flying (sense_value d) = None → heap X c s ∧ rest s = rest s ∧ links s = links s ∧
    ∃ d', dyns s = <[c':=d']> (dyns s) ∧ flying (sense_value d') = None ∧ (∃ v, d' = set_value v d ∧
      (v = sense_value d ∨ ∃ n p, sense_value d = VALUEARRAY n p ∧ v = VALUEARRAY n NULL))).
  { intros Hf. split_and!; [done..|]. exists d. rewrite insert_id by done. split_and!; [done..|].
    exists (sense_value d). split; [by destruct d|by left]. }
  destruct (sense_value d) as [| | | | | |n p|] eqn:Ev; try (by apply returns_ret, Hskip).
  simpl in *. destruct (nonnull p) eqn:Hp; [|by apply returns_ret, Hskip].
  destruct (decide (c' = c)) as [->|Hne]; [|by destruct Hh as [Hq _]; specialize (Hq _ _ Hd Hne); rewrite Ev in Hq; simpl in Hq; rewrite Hp in Hq].
  destruct Hh as [Hq Hh]. rewrite Hd in Hh. simpl in Hh. rewrite Ev in Hh. simpl in Hh. rewrite Hp in Hh.
  destruct Hh as (l & Hn & Hpt & Hb & Ho). apply returns_bind. unfold free_items.
  eapply returns_bind, returns_deref; [by rewrite Hb, lookup_insert_eq|]. apply returns_bind, returns_modify.
  unfold eos. apply returns_zoom. eapply returns_mono; [by apply free_ok|]. intros [] e' [_ Ho']. simpl in Ho'.
  eapply returns_set_cause; [simpl; exact Hd|]. simpl. split_and!.
  - split.
    + simpl. intros b e. rewrite lookup_insert_Some. intros [[<- <-]|[_ Hbe]] Hbc; [done|by eapply Hq].
    + simpl. rewrite lookup_insert_eq. simpl. split; [|done].
      rewrite Hb, delete_insert_id; done.
  - done.
  - done.
  - eexists. split_and!; [done..|]. eexists. split; [done|]. right. eauto.
Qed.
End Heap.
