(* ===== verification/EngineCause.v ===== *)
(** The causes of the engine one by one: their date timers, and what
    initialising and uninitialising a cause leave behind, with the state of a
    cause as the specification sees it. *)

From Stdlib Require Import SpecFloat.
From stdpp Require Import functions.
From S2P Require Import Prelude Links Queue QueueSq Ubx UbxInv EngValue Engine EngineInv.

(** * Date timers *)

Definition nanoseconds (t : timespec) : Z := t.1 * 1000000000 + t.2.

Lemma next_date_ns i t : 0 ≤ i < 2 ^ 31 → 0 ≤ t.1 < 2 ^ 32 - 2 ^ 23 → 0 ≤ t.2 < 1000000000 →
  nanoseconds (next_date i t) = nanoseconds t + i * 1000000 ∧ 0 ≤ (next_date i t).1 ∧ 0 ≤ (next_date i t).2 < 1000000000.
Proof.
  intros Hi H1 H2. destruct t as [sec nsec]. simpl in *. unfold next_date, nanoseconds. simpl.
  assert (0 ≤ i `div` 1000 < 2 ^ 22) by mod_lia. pose proof (Z.div_mod i 1000 ltac:(lia)). pose proof (Z.mod_pos_bound i 1000 ltac:(lia)).
  rewrite (u32_small (sec + _)) by lia. destruct (Z.leb_spec 1000000000 (nsec + i `mod` 1000 * 1000 * 1000)); simpl;
    rewrite ?u32_small by lia; lia.
Qed.

Lemma in_past_ns a b : 0 ≤ a.2 < 1000000000 → 0 ≤ b.2 < 1000000000 → cause_timer_in_past a b = (nanoseconds a <? nanoseconds b).
Proof.
  intros Ha Hb. unfold cause_timer_in_past, nanoseconds. destruct (Z.eqb_spec a.1 b.1); apply eq_bool_prop_intro; rewrite !Is_true_true, !Z.ltb_lt; lia.
Qed.

(** [t'] is the first of the dates one, two, ... intervals behind [t] that is
    not in the past. *)
Definition next_not_past (i : Z) (t now t' : timespec) : Prop :=
  ∃ k, 1 ≤ k ∧ nanoseconds t' = nanoseconds t + k * (i * 1000000) ∧ nanoseconds now ≤ nanoseconds t' ∧
    (k = 1 ∨ nanoseconds t' - i * 1000000 < nanoseconds now) ∧ 0 ≤ t'.2 < 1000000000.

Lemma date_loop {E} i (now t : timespec) (s : engine_s E) : 1000 ≤ i < 2 ^ 31 →
  0 ≤ t.1 < 2 ^ 32 - 2 ^ 23 → 0 ≤ t.2 < 1000000000 → 0 ≤ now.1 < 2 ^ 31 → 0 ≤ now.2 < 1000000000 →
  returns (loop (Z.to_nat (now.1 - t.1) + 2) (λ time,
    let time := next_date i time in mret (if cause_timer_in_past time now then inl time else inr time)) t) s
    (λ t' s', s' = s ∧ next_not_past i t now t').
Proof.
  intros Hi Ht1 Ht2 Hn1 Hn2.
  apply returns_loop with (I := λ a s', s' = s ∧ 0 ≤ a.1 < 2 ^ 32 - 2 ^ 23 ∧ 0 ≤ a.2 < 1000000000 ∧
      ∃ k, 0 ≤ k ∧ nanoseconds a = nanoseconds t + k * (i * 1000000) ∧ (k = 0 ∨ nanoseconds a < nanoseconds now))
    (μ := λ a _, Z.to_nat (now.1 - a.1 + 1)).
  - intros a s' (-> & Ha1 & Ha2 & k & Hk & Hak & Hpast). destruct (next_date_ns i a ltac:(lia) Ha1 Ha2) as (E1 & E2 & E3).
    apply returns_ret. rewrite in_past_ns by done. destruct (Z.ltb_spec (nanoseconds (next_date i a)) (nanoseconds now)).
    + unfold nanoseconds in *. split_and!; [done|lia|lia|lia|lia| |lia]. exists (k + 1). split_and!; [lia|lia|by right].
    + split; [done|]. exists (k + 1). split_and!; [lia|lia|lia| |lia|lia]. destruct Hpast as [->|]; [by left|right; lia].
  - split; [done|]. split; [done|]. split; [done|]. exists 0. split_and!; [lia|lia|by left].
  - lia.
Qed.

(** * The state of a cause *)

(** As the specification sees it: the measurements that are left (0 when the
    cause has stopped, negative when there is no limit), the value that counts
    as zero (none until it is measured), how many values in a row the
    thresholds held, and whether the cause is triggered. *)
Record cause_state := CauseState { left : Z; zero_point : option ts_value; streak : Z; hit : bool }.

Definition fresh (conf : ts_cause) : cause_state := CauseState
  (if measurement_count conf =? 0 then -1 else measurement_count conf)
  (if is_active_relative_cause conf then None else Some (VALUEBOOL false)) 0 false.
Definition rearm (conf : ts_cause) (w : cause_state) : cause_state :=
  if left w =? 0 then fresh conf else CauseState (left w) (zero_point w) 0 false.

(** threshold_counter after [k] values that held. *)
Definition counter_after (count k : Z) : Z := if count <=? 0 then count else Z.max 0 (count - k).

Record rel (conf : ts_cause) (d : ts_cause_dyn) (w : cause_state) : Prop := {
  rel_hit : triggered d = hit w;
  rel_left : measurement_counter d = left w;
  rel_streak : threshold_counter d = counter_after (threshold_count conf) (streak w);
  rel_pos : 0 ≤ streak w;
  rel_bias : match zero_point w with
             | None => measure_bias d = true
             | Some b => measure_bias d = false ∧ (is_active_relative_cause conf = true → sense_bias d = b)
             end;
}.

Lemma counter_after_0 n : counter_after n 0 = n.
Proof. unfold counter_after. destruct (Z.leb_spec n 0); lia. Qed.

Lemma rel_rearm conf d w : rel conf d w → left w ≠ 0 →
  rel conf (set_threshold_counter (threshold_count conf) (set_triggered false d)) (rearm conf w).
Proof.
  intros [] Hw. unfold rearm. rewrite (proj2 (Z.eqb_neq _ _) Hw). split; simpl; [done|done|by rewrite counter_after_0|lia|done].
Qed.

Definition idle (d : ts_cause_dyn) : Prop := timer_id d < 0 ∧ fd d < 0.

Section Cause.
Context {E : Type} `{EngineLaws E}.
Context (P : ts_profile) (HP : profile_ok P).
Local Abbreviation st := (engine_s E).
Implicit Types (s : st).

(** A step of one cause: [d] becomes [d'], the queues [L] become [L']. *)
Record stepped (X : list Z) (c0 c : Z) (s s' : st) (L' : Z → list Z) (d' : ts_cause_dyn) : Prop := {
  stepped_dyns : dyns s' = <[c:=d']> (dyns s);
  stepped_rest : rest s' = rest s;
  stepped_queues : queues P (links s') L';
  stepped_heap : heap P X c0 s';
}.

Lemma stepped_refl X c0 c s L d : dyns s !! c = Some d → queues P (links s) L → heap P X c0 s → stepped X c0 c s s L d.
Proof. intros Hd HQ Hh. split; [by rewrite insert_id|done..]. Qed.

Section Steps.
Context {X : list Z} {c0 c : Z} {s s1 : st} {L : Z → list Z} {d : ts_cause_dyn}.
Hypothesis Hs : stepped X c0 c s s1 L d.

Lemma stepped_at : dyns s1 !! c = Some d.
Proof. by rewrite (stepped_dyns _ _ _ _ _ _ _ Hs), lookup_insert_eq. Qed.

Lemma stepped_set f : flying (sense_value (f d)) = flying (sense_value d) →
  returns (set_cause c f) s1 (λ _ s2, stepped X c0 c s s2 L (f d)).
Proof.
  intros Hf. eapply returns_set_cause; [exact stepped_at|]. destruct Hs as [Hd Hr HQ Hh]. split; simpl.
  - by rewrite Hd, insert_insert_eq.
  - done.
  - done.
  - eapply heap_dyn; [done|exact stepped_at|done].
Qed.

Lemma stepped_eos {A} (op : M E A) φ : keeps op φ → returns (eos op) s1 (λ a s2, φ a ∧ stepped X c0 c s s2 L d).
Proof.
  intros Hop. destruct Hs as [Hd Hr HQ Hh]. eapply returns_mono; [by apply (heap_eos P op φ X c0 s1)|].
  intros a ? (Ha & Hh' & e & ->). split; [done|]. by split.
Qed.

Lemma stepped_links {A} (op : M mem A) L' : returns op (links s1) (λ _ m, queues P m L') →
  returns (on_links op) s1 (λ _ s2, stepped X c0 c s s2 L' d).
Proof.
  intros Hop. destruct Hs as [Hd Hr HQ Hh]. unfold on_links. apply returns_zoom. eapply returns_mono; [exact Hop|].
  intros a m Hm. split; [done..|]. by eapply heap_same.
Qed.

Lemma stepped_free : returns (free_valuearray c) s1 (λ _ s2, ∃ v, stepped X c0 c s s2 L (set_value v d) ∧ flying v = None ∧
  (v = sense_value d ∨ ∃ n p, sense_value d = VALUEARRAY n p ∧ v = VALUEARRAY n NULL)).
Proof.
  pose proof stepped_at as Ha. destruct Hs as [Hd Hr HQ Hh]. eapply returns_mono; [by apply (free_valuearray_ok P X c0)|].
  intros _ s2 (Hh2 & Hr2 & Hl2 & d' & Hd2 & Hf & v & -> & Hv). exists v. split_and!; [|done|done]. split.
  - by rewrite Hd2, Hd, insert_insert_eq.
  - congruence.
  - by rewrite Hl2.
  - done.
Qed.
End Steps.

(** One step of a proof about one cause. *)
Ltac cstep :=
  lazymatch goal with
  | |- returns (mbind _ _) _ _ => apply returns_bind
  | |- returns (mret _) _ _ => apply returns_ret
  | Hc : cause_at P !! ?c = Some _ |- returns (cause_conf P ?c) _ _ => eapply returns_deref; [exact Hc|]
  | Hs : stepped _ _ ?c _ ?s _ _ |- returns (cause_dyn ?c) ?s _ => eapply returns_deref; [exact (stepped_at Hs)|]
  | Hs : stepped _ _ ?c _ ?s _ _ |- returns (set_cause ?c _) ?s _ =>
      eapply returns_mono; [apply (stepped_set Hs); reflexivity|clear Hs; intros [] ? Hs]
  | Hs : stepped _ _ _ _ ?s _ _ |- returns (eos _) ?s _ =>
      eapply returns_mono; [eapply (stepped_eos Hs); eauto with engine_laws|clear Hs; let Hp := fresh "Hret" in intros ? ? [Hp Hs]]
  end; cbv beta; simpl.

Lemma keeps_and {A} (op : M E A) φ ψ : keeps op φ → keeps op ψ → keeps op (λ a, φ a ∧ ψ a).
Proof.
  intros H1' H2' e Y Ho. specialize (H1' e Y Ho). specialize (H2' e Y Ho). unfold returns in *.
  destruct (op e) as [[a e']| |]; [|done..]. destruct H1', H2'. by split_and!.
Qed.

(** [φ] is what is known about the clock. *)
Lemma start_cause_timer_ok (φ : timespec → Prop) X c0 c conf d s L : keeps (clock_get CLOCK_MONOTONIC) (λ r, φ r.2) → cause_at P !! c = Some conf → dyns s !! c = Some d →
  queues P (links s) L → heap P X c0 s → 0 ≤ (cause_time d).1 < 2 ^ 32 - 2 ^ 23 → 0 ≤ (cause_time d).2 < 1000000000 →
  returns (start_cause_timer P c) s (λ r s', r = OK ∧ ∃ id t, 0 ≤ id ∧ stepped X c0 c s s' L (set_timer_id id (set_cause_time t d)) ∧
    (measurement_interval conf < 1000 → t = cause_time d) ∧
    (1000 ≤ measurement_interval conf → ∃ now, φ now ∧ next_not_past (measurement_interval conf) (cause_time d) now t)).
Proof.
  intros Hφ Hc Hd HQ Hh Ht1 Ht2. unfold start_cause_timer. pose proof (cause_interval P HP c conf Hc) as Hi.
  pose proof (stepped_refl X c0 c s L d Hd HQ Hh) as Hs. do 2 cstep. cstep. unfold DEEP_SLEEP_RATE_LIMIT.
  destruct (Z.ltb_spec (measurement_interval conf) 1000) as [Hlt|Hge].
  - do 2 cstep. rename a into id. do 3 cstep. rewrite (proj2 (Z.ltb_ge id 0)) by lia. cstep. split; [done|].
    exists id, (cause_time d). split_and!; [done| |done|lia]. by destruct d.
  - cstep. eapply returns_mono; [apply (stepped_eos Hs _ _ (keeps_and _ _ _ (clock_get_ok _) Hφ))|]. clear Hs.
    intros [r now] s2 [[(_ & Hn1 & Hn2 & Hn3) Hnow] Hs]. simpl in *. specialize (Hn3 eq_refl).
    do 3 cstep. eapply returns_mono; [apply date_loop; [lia..|done]|].
    intros t ? (-> & Hnext). do 4 cstep. rename a into id. do 3 cstep.
    rewrite (proj2 (Z.ltb_ge id 0)) by lia. cstep. split; [done|].
    exists id, t. split_and!; [done|done|lia|intros _; by exists now].
Qed.

(** * Initialising and uninitialising *)

(** The value and the identity of a cause suit its sense, and no array is on
    its way. *)
Definition fits (c : Z) (d : ts_cause_dyn) : Prop :=
  ∀ conf, cause_at P !! c = Some conf → typed conf (sense_value d) ∧ sId d = info_sId (sense_info conf).
Definition settled (c : Z) (d : ts_cause_dyn) : Prop := flying (sense_value d) = None ∧ fits c d.

Lemma same_type_zero v : same_type v (zero_like v) = true.
Proof. by destruct v; vm_compute. Qed.
Lemma same_type_sym v w : same_type v w = same_type w v.
Proof. unfold same_type. apply bool_decide_ext. by split. Qed.

Lemma retag_typed conf v v' : retag (info_min (sense_info conf)) v = Some v' → short v → flying v = None → typed conf v' ∧ flying v' = None.
Proof.
  unfold typed, retag. destruct (same_type _ v) eqn:Es; [intros [= <-] ? Hf; rewrite Es; split_and!; [by eexists|done..]|].
  destruct (bool_decide_reflect (v = VALUEDOUBLE (S754_zero false))) as [->|_].
  - intros [= <-] _ _. rewrite same_type_zero. split_and!; [by eexists|by destruct (info_min _)..].
  - destruct v, (info_min (sense_info conf)); try done. intros [= <-] _ _.
    split; [|done]. unfold same_type. rewrite bool_decide_true by done. by split; [eexists|].
Qed.

Lemma request_value_ok X c0 c conf d s s1 L : cause_at P !! c = Some conf → stepped X c0 c s s1 L d →
  settled c d → returns (engine_cause_request_value P c) s1 (λ r s', r = OK ∧ ∃ id t f v,
    stepped X c0 c s s' L (set_fd f (set_timer_id id (set_cause_time t (set_value v d)))) ∧ flying v = None ∧ typed conf v).
Proof.
  intros Hc Hs [Hf Hty]. destruct (Hty conf Hc) as [[[v Hv] Hsh] Hid]. destruct (retag_typed conf _ v Hv Hsh Hf) as [Hv' Hfv].
  unfold engine_cause_request_value. do 4 cstep. cstep. eapply returns_deref; [exact Hv|]. cstep.
  eapply returns_mono; [apply (stepped_set Hs); simpl; congruence|]. clear Hs. intros [] s2 Hs.
  fold (polled conf). destruct (polled conf) eqn:Hpoll.
  - cstep. assert (Hinit : returns (if has_active_init (sense_info conf) then eos (active_init c) else mret tt) s2
      (λ _ s2, stepped X c0 c s s2 L (set_value v d))).
    { destruct (has_active_init _); cstep; done. }
    eapply returns_mono; [exact Hinit|]. clear Hs. intros [] s3 Hs. do 2 cstep. destruct a as [r now]. simpl in *.
    destruct Hret as (Hr & Hn1 & Hn2 & Hn3). rewrite (proj2 (Z.ltb_ge r 0)) by lia. specialize (Hn3 eq_refl). do 2 cstep.
    eapply returns_mono; [eapply (start_cause_timer_ok (λ _, True) X c0 c conf); [|exact Hc|exact (stepped_at Hs)|apply Hs|apply Hs|simpl; lia..]|].
    { intros e Y Ho. eapply returns_mono; [by apply clock_get_ok|]. by intros ? ? [? _]. }
    intros r' s5 (-> & id & t & _ & Hs' & _). split; [done|]. exists id, t, (fd d), v. split_and!; [|done|done].
    destruct Hs as [D1 R1 _ _], Hs' as [D2 R2 Q2 H2']. split; [|congruence|done|done].
    rewrite D2, D1, insert_insert_eq. by destruct d.
  - assert (has_irq_init (sense_info conf) = true) as -> by (by destruct (cause_sense P HP c conf Hc); [congruence|]).
    simpl. do 2 cstep. rename a into r. rewrite Hret.
    assert (Hset : ∀ (x : option Z) set d1 s3, stepped X c0 c s s3 L d1 → (∀ y, flying (sense_value (set y d1)) = flying (sense_value d1)) →
      returns (set_cause c (λ d, from_option (λ y, set y d) d x)) s3 (λ _ s4, stepped X c0 c s s4 L (from_option (λ y, set y d1) d1 x))).
    { intros x set d1 s4 Hs1 Hset. apply (stepped_set Hs1). by destruct x; simpl. }
    cstep. eapply returns_mono; [by apply (Hset _ set_timer_id _ _ Hs)|]. clear Hs. intros [] s4 Hs. cstep.
    eapply returns_mono; [by apply (Hset _ set_fd _ _ Hs)|]. clear Hs. intros [] s5 Hs. cstep. split; [done|].
    exists (default (timer_id d) (irq_timer r)), (cause_time d), (default (fd d) (irq_fd r)), v. split_and!; [|done|done].
    by destruct d, (irq_timer r), (irq_fd r).
Qed.

Lemma init_cause_ok X c0 c conf q d s L : cause_at P !! c = Some conf → state_of P c = Some q → dyns s !! c = Some d →
  idle d → settled c d → c ∉ L q → queues P (links s) L → heap P X c0 s →
  returns (init_cause P c) s (λ r s', r = OK ∧ ∃ d', stepped X c0 c s s' (<[q := L q ++ [c]]> L) d' ∧
    rel conf d' (fresh conf) ∧ settled c d').
Proof.
  intros Hc Hq Hd [Hi1 Hi2] Hset Hn HQ Hh. unfold init_cause. pose proof (stepped_refl X c0 c s L d Hd HQ Hh) as Hs.
  do 4 cstep. cstep. apply returns_assert; [lia|]. cstep. apply returns_assert; [lia|]. do 12 cstep.
  cstep. unfold state_of_cause. do 2 cstep. cstep. destruct (cause_ok P HP c conf Hc) as (ev & Hev & _).
  eapply returns_deref; [exact Hev|]. cstep. pose proof (state_of_event P c conf ev Hc Hev) as Hq'. rewrite Hq in Hq'. injection Hq' as <-.
  cstep. eapply returns_mono.
  { apply (stepped_links Hs). apply (queues_addlast P HP); [apply Hs|done|done]. }
  clear Hs. intros [] s8 Hs. eapply returns_mono; [apply (request_value_ok X c0 c conf _ s s8 _ Hc Hs)|].
  - split; [apply Hset|]. intros conf' Hc'. apply Hset, Hc'.
  - intros r s9 (-> & id & t & f & v & Hs' & Hf & Hv). split; [done|]. eexists. split_and!; [exact Hs'| |].
    + unfold fresh. split; simpl; [done|done|by rewrite counter_after_0|done|]. destruct (is_active_relative_cause conf) eqn:Er; by rewrite ?Er.
    + split; simpl; [done|]. intros conf' Hc'. rewrite Hc in Hc'. injection Hc' as <-. split; [done|]. by apply Hset.
Qed.

Lemma queues_ext m L L' : (∀ q, L q = L' q) → queues P m L → queues P m L'.
Proof. intros HL [HL1 HL2]. split; [|done]. intros q Hq. rewrite <-HL. by apply HL1. Qed.

Lemma typed_freed conf n p : typed conf (VALUEARRAY n p) → typed conf (VALUEARRAY n NULL).
Proof.
  unfold typed, retag. change (same_type (info_min (sense_info conf)) (VALUEARRAY n NULL)) with (same_type (info_min (sense_info conf)) (VALUEARRAY n p)).
  destruct (same_type _ _); [intros [_ ?]; by split; [eexists|]|]. rewrite !bool_decide_false by done. by destruct (info_min _).
Qed.

Lemma fits_freed c d v : fits c d → (v = sense_value d ∨ ∃ n p, sense_value d = VALUEARRAY n p ∧ v = VALUEARRAY n NULL) →
  fits c (set_value v d).
Proof.
  intros Hf Hv conf Hc. destruct (Hf conf Hc) as [Ht Hid]. split; [|done]. simpl.
  destruct Hv as [->|(n & p & E1 & ->)]; [done|]. rewrite E1 in Ht. by eapply typed_freed.
Qed.

Lemma filter_ne_absent (c : Z) (l : list Z) : c ∉ l → filter (λ x, x ≠ c) l = l.
Proof.
  induction l as [|x l IH]; [done|]. intros [Hx Hl]%not_elem_of_cons. rewrite filter_cons_True by done. by rewrite IH.
Qed.

Lemma filter_ne_middle (c : Z) l1 l2 : NoDup (l1 ++ c :: l2) → filter (λ x, x ≠ c) (l1 ++ c :: l2) = l1 ++ l2.
Proof.
  intros Hnd. rewrite <-Permutation_middle in Hnd. apply NoDup_cons in Hnd as [Hc _].
  rewrite filter_app, filter_cons_False by auto. rewrite !filter_ne_absent; set_solver.
Qed.

(** What uninitialising leaves: no timer, no descriptor, no array. *)
Lemma uninit_cause_ok X c0 c conf q d s L : cause_at P !! c = Some conf → state_of P c = Some q → dyns s !! c = Some d →
  fits c d → c ∈ L q ∨ L q = [] → queues P (links s) L → heap P X c0 s →
  returns (uninit_cause P c) s (λ r s', r = OK ∧ ∃ v t f, stepped X c0 c s s' (<[q := filter (λ x, x ≠ c) (L q)]> L)
    (set_value v (set_fd f (set_timer_id t d))) ∧ t < 0 ∧ f < 0 ∧ settled c (set_value v d)).
Proof.
  intros Hc Hq Hd Hfit HLq HQ Hh. unfold uninit_cause, state_of_cause.
  pose proof (stepped_refl X c0 c s L d Hd HQ Hh) as Hs. destruct (state_of_at P HP c q Hq) as [Hqs _].
  do 2 cstep. do 2 cstep. destruct (cause_ok P HP c conf Hc) as (ev & Hev & _).
  eapply returns_deref; [exact Hev|]. cstep. pose proof (state_of_event P c conf ev Hc Hev) as Hq'. rewrite Hq in Hq'. injection Hq' as <-.
  cstep. eapply returns_mono.
  { apply (stepped_links Hs _ (<[q := filter (λ x, x ≠ c) (L q)]> L)). destruct HLq as [(l1 & l2 & E1)%list_elem_of_split|E1].
    - pose proof (queues_nodup P _ _ q HQ Hqs) as Hnd. rewrite E1 in Hnd |- *. rewrite filter_ne_middle by done.
      by apply (queues_rem P HP).
    - eapply returns_mono; [by apply (queues_rem_empty P _ L)|]. intros _ ? ->. rewrite E1. simpl. revert HQ. apply queues_ext.
      intros r. destruct (decide (r = q)) as [->|Hne]; [by rewrite fn_lookup_insert|by rewrite fn_lookup_insert_ne]. }
  clear Hs. intros [] s1 Hs. do 3 cstep.
  assert (Ht : returns (if 0 <=? timer_id d then stop_cause_timer c;; set_cause c (set_timer_id (-1)) else mret tt) s1
    (λ _ s2, ∃ t, t < 0 ∧ stepped X c0 c s s2 (<[q := filter (λ x, x ≠ c) (L q)]> L) (set_timer_id t d))).
  { destruct (Z.leb_spec 0 (timer_id d)).
    - unfold stop_cause_timer. repeat cstep. exists (-1). by destruct d.
    - cstep. exists (timer_id d). split; [done|]. by destruct d. }
  eapply returns_mono; [exact Ht|]. clear Hs Ht. intros [] s2 (t & Ht & Hs). do 3 cstep.
  assert (Hf : returns (if 0 <=? fd d then eos (fd_unregister (fd d));; eos (close_fd (fd d));; set_cause c (set_fd (-1)) else mret tt) s2
    (λ _ s3, ∃ f, f < 0 ∧ stepped X c0 c s s3 (<[q := filter (λ x, x ≠ c) (L q)]> L) (set_fd f (set_timer_id t d)))).
  { destruct (Z.leb_spec 0 (fd d)).
    - repeat cstep. exists (-1). by destruct d.
    - cstep. exists (fd d). split; [done|]. by destruct d. }
  eapply returns_mono; [exact Hf|]. clear Hs Hf. intros [] s3 (f & Hf & Hs). do 3 cstep.
  assert (Hu : returns (if (0 <? measurement_interval conf) && has_active_read (sense_info conf) then
       if has_active_uninit (sense_info conf) then eos (active_uninit c) else mret tt
     else if has_irq_uninit (sense_info conf) then eos (irq_uninit c) else mret tt) s3
    (λ _ s4, stepped X c0 c s s4 (<[q := filter (λ x, x ≠ c) (L q)]> L) (set_fd f (set_timer_id t d)))).
  { destruct (_ && _), (has_active_uninit (sense_info conf)), (has_irq_uninit (sense_info conf)); cstep; done. }
  eapply returns_mono; [exact Hu|]. clear Hs Hu. intros [] s4 Hs. cstep.
  eapply returns_mono; [apply (stepped_free Hs)|]. clear Hs. intros [] s5 (v & Hs & Hv & Hfr). cstep. split; [done|].
  exists v, t, f. split_and!; [done..|]. split; [done|]. by apply fits_freed.
Qed.

Lemma reinit_cause_ok X c0 c conf q d w s L : cause_at P !! c = Some conf → state_of P c = Some q → dyns s !! c = Some d →
  rel conf d w → fits c d → (left w = 0 → idle d ∧ flying (sense_value d) = None ∧ c ∉ L q) → queues P (links s) L → heap P X c0 s →
  returns (reinit_cause P c) s (λ r s', r = OK ∧ ∃ d', stepped X c0 c s s' (if left w =? 0 then <[q := L q ++ [c]]> L else L) d' ∧
    rel conf d' (rearm conf w) ∧ fits c d' ∧ flying (sense_value d') = flying (sense_value d)).
Proof.
  intros Hc Hq Hd Hr Hfit Hw HQ Hh. unfold reinit_cause. pose proof (stepped_refl X c0 c s L d Hd HQ Hh) as Hs.
  do 2 cstep. rewrite (rel_left _ _ _ Hr). destruct (Z.eqb_spec (left w) 0) as [E0|Hne].
  - destruct (Hw E0) as (Hidle & Hf & Hn). eapply returns_mono; [by apply (init_cause_ok X c0 c conf q d s L)|].
    intros r s1 (-> & d' & Hs1 & Hr1 & [Hf1 Hfit1]). split; [done|]. exists d'. unfold rearm. rewrite E0. simpl.
    split_and!; [done..|congruence].
  - repeat cstep. split; [done|]. eexists. split_and!; [exact Hs|by apply rel_rearm| |done].
    intros conf' Hc'. by apply Hfit.
Qed.
End Cause.
