(* ===== verification/EngineTrack.v ===== *)
(** The causes of the engine together: which causes are live and in which
    state, as the specification keeps it, and initialising, rearming and
    uninitialising the causes of events and states. *)

From Stdlib Require Import SpecFloat.
From stdpp Require Import functions.
From S2P Require Import Prelude Links Queue QueueSq Ubx UbxInv EngValue Engine EngineInv EngineCause.

(** * The live causes *)

(** The live causes, and the next order of each event. *)
Abbreviation watches := (gmap Z cause_state).
Abbreviation tracking := (watches * gmap Z Z)%type.

Section Spec.
Context (P : ts_profile).

(** Starting, rearming and stopping a cause, for all causes of an event, for
    all events of a state. *)
Definition start_cause (c : Z) (W : watches) : watches :=
  match cause_at P !! c with Some conf => <[c:=fresh conf]> W | None => W end.
Definition rearm_cause (c : Z) (W : watches) : watches :=
  match cause_at P !! c, W !! c with Some conf, Some w => <[c:=rearm conf w]> W | _, _ => W end.
Definition stop_cause (c : Z) (W : watches) : watches := delete c W.

Definition for_causes (g : Z → watches → watches) (l : list Z) (W : watches) : watches := foldl (λ W c, g c W) W l.
Definition events_of (q : Z) : list Z := from_option events [] (state_at P !! q).

(** Passing over an event also starts its order anew. *)
Definition for_event (g : Z → watches → watches) (e : Z) (t : tracking) : tracking :=
  (for_causes g (causes_in P e) t.1, <[e:=FIRST_ORDER_ID]> t.2).
Definition for_state (g : Z → watches → watches) (q : Z) (t : tracking) : tracking :=
  foldl (λ t e, for_event g e t) t (events_of q).

Lemma for_causes_app g l1 l2 W : for_causes g (l1 ++ l2) W = for_causes g l2 (for_causes g l1 W).
Proof. apply foldl_app. Qed.

Lemma for_state_causes g q t : (for_state g q t).1 = for_causes g (state_causes P q) t.1.
Proof.
  unfold for_state, state_causes, events_of. generalize (from_option events [] (state_at P !! q)). intros l. revert t.
  induction l as [|e l IH]; intros t; [done|]. simpl. by rewrite IH, for_causes_app.
Qed.

Lemma start_causes_lookup l W c : (∀ x, x ∈ l → is_Some (cause_at P !! x)) →
  for_causes start_cause l W !! c = if bool_decide (c ∈ l) then fresh <$> cause_at P !! c else W !! c.
Proof.
  revert W. induction l as [|x l IH]; intros W Hl; [done|]. change (for_causes _ (x :: l) W) with (for_causes start_cause l (start_cause x W)).
  rewrite IH by (intros y Hy; apply Hl; by right). destruct (Hl x) as [conf Hx]; [by left|]. unfold start_cause. rewrite Hx.
  destruct (decide (c ∈ l)) as [Hc|Hc]; [by rewrite !bool_decide_true by (by try right)|]. rewrite (bool_decide_false _ Hc).
  destruct (decide (c = x)) as [->|Hne]; [by rewrite bool_decide_true, lookup_insert_eq, Hx by left|].
  by rewrite bool_decide_false, lookup_insert_ne by set_solver.
Qed.

Lemma stop_causes_lookup l W c : for_causes stop_cause l W !! c = if bool_decide (c ∈ l) then None else W !! c.
Proof.
  revert W. induction l as [|x l IH]; intros W; [done|]. change (for_causes _ (x :: l) W) with (for_causes stop_cause l (stop_cause x W)).
  rewrite IH. unfold stop_cause. destruct (decide (c ∈ l)) as [Hc|Hc]; [by rewrite !bool_decide_true by (by try right)|].
  rewrite (bool_decide_false _ Hc). destruct (decide (c = x)) as [->|Hne]; [by rewrite bool_decide_true, lookup_delete_eq by left|].
  by rewrite bool_decide_false, lookup_delete_ne by set_solver.
Qed.

Lemma rearm_idem conf w : rearm conf (rearm conf w) = rearm conf w.
Proof.
  unfold rearm, fresh. destruct (left w =? 0) eqn:Ew; simpl; [|by rewrite Ew].
  destruct (measurement_count conf =? 0) eqn:Em; simpl; by rewrite ?Em.
Qed.

Lemma rearm_cause_lookup x W c : rearm_cause x W !! c =
  if bool_decide (c = x) then (conf ← cause_at P !! c; rearm conf <$> W !! c) ∪ W !! c else W !! c.
Proof.
  unfold rearm_cause. destruct (bool_decide_reflect (c = x)) as [->|Hne].
  - destruct (cause_at P !! x) as [conf|], (W !! x) as [w|] eqn:Hw; simpl; rewrite ?Hw, ?lookup_insert_eq; done.
  - destruct (cause_at P !! x), (W !! x); rewrite ?lookup_insert_ne by done; done.
Qed.

Lemma rearm_causes_lookup l W c conf : cause_at P !! c = Some conf →
  for_causes rearm_cause l W !! c = if bool_decide (c ∈ l) then rearm conf <$> W !! c else W !! c.
Proof.
  intros Hc. revert W. induction l as [|x l IH]; intros W; [done|].
  change (for_causes _ (x :: l) W) with (for_causes rearm_cause l (rearm_cause x W)). rewrite IH, rearm_cause_lookup, Hc. simpl.
  destruct (bool_decide_reflect (c = x)) as [->|Hne].
  - rewrite (bool_decide_true (x ∈ x :: l)) by left. destruct (W !! x) as [w|]; simpl; destruct (bool_decide _); simpl; rewrite ?rearm_idem; done.
  - rewrite (bool_decide_ext (c ∈ x :: l) (c ∈ l)); [done|]. set_solver.
Qed.
End Spec.

(** * The engine follows *)

Section Track.
Context {E : Type} `{EngineLaws E}.
Context (P : ts_profile) (HP : profile_ok P).
Local Abbreviation st := (engine_s E).
Implicit Types (s : st).

(** A live cause is what the specification says, and on its queue unless it
    has stopped; any other cause is idle.  The queue of the state [pk] has
    been emptied already. *)
Definition stands (pk : option Z) (L : Z → list Z) (q c : Z) (conf : ts_cause) (d : ts_cause_dyn) (ow : option cause_state) : Prop :=
  match ow with
  | Some w => rel conf d w ∧ (pk ≠ Some q → (c ∈ L q ↔ left w ≠ 0)) ∧ (left w = 0 → idle d ∧ flying (sense_value d) = None)
  | None => idle d ∧ flying (sense_value d) = None ∧ c ∉ L q
  end.
Record tracks (pk : option Z) (s : st) (W : watches) (L : Z → list Z) : Prop := {
  tracks_cause c conf q : cause_at P !! c = Some conf → state_of P c = Some q →
    ∃ d, dyns s !! c = Some d ∧ fits P c d ∧ stands pk L q c conf d (W !! c);
  tracks_queues : queues P (links s) L;
  tracks_parked q : pk = Some q → L q = [];
}.

(** Everything that following the causes leaves alone. *)
Definition fixed s := (current_purpose s, current_state s, global_states s, run_state s,
  min_interval_minutes s, max_per_day s, backend_cb s, profile_updated s, out s).
Definition sim (pk : option Z) (X : list Z) (c0 : Z) (s0 : st) (t : tracking) s : Prop :=
  ∃ L, tracks pk s t.1 L ∧ heap P X c0 s ∧ orders s = t.2 ∧ fixed s = fixed s0.

Lemma rest_split s s' : rest s' = rest s → orders s' = orders s ∧ fixed s' = fixed s.
Proof. unfold rest, fixed. intros [=]. split; congruence. Qed.

Lemma cause_state_of c conf : cause_at P !! c = Some conf → ∃ q, state_of P c = Some q.
Proof.
  intros Hc. destruct (cause_ok P HP c conf Hc) as (ev & Hev & _). rewrite (state_of_event P c conf ev Hc Hev). eauto.
Qed.

Lemma tracks_step pk X c0 c conf q s s' W W' L L' d' : tracks pk s W L → stepped P X c0 c s s' L' d' →
  cause_at P !! c = Some conf → state_of P c = Some q → fits P c d' → stands pk L' q c conf d' (W' !! c) →
  (∀ x, x ≠ c → W' !! x = W !! x) → (∀ x r, x ≠ c → x ∈ L' r ↔ x ∈ L r) → (∀ r, pk = Some r → L' r = []) →
  tracks pk s' W' L'.
Proof.
  intros HT Hs Hc Hq Hfit Hst HW HL Hpk. split; [|apply Hs|done]. intros x xconf r Hx Hr.
  rewrite (stepped_dyns P _ _ _ _ _ _ _ Hs). destruct (decide (x = c)) as [->|Hne].
  - rewrite lookup_insert_eq. rewrite Hc in Hx. injection Hx as <-. rewrite Hq in Hr. injection Hr as <-. eauto.
  - destruct (tracks_cause pk s W L HT x xconf r Hx Hr) as (d & Hd & Hf & Hst'). rewrite lookup_insert_ne by done.
    exists d. split_and!; [done..|]. rewrite HW by done. unfold stands in *. destruct (W !! x) as [w|].
    + destruct Hst' as (? & Hin & ?). split_and!; [done| |done]. intros Hp. by rewrite HL, Hin.
    + by rewrite HL.
Qed.

(** The queue after a cause was added, or taken off. *)
Lemma addlast_elem (L : Z → list Z) q c x r : x ≠ c → x ∈ (<[q := L q ++ [c]]> L) r ↔ x ∈ L r.
Proof.
  intros Hne. destruct (decide (r = q)) as [->|Hr]; [rewrite fn_lookup_insert; set_solver|by rewrite fn_lookup_insert_ne].
Qed.
Lemma filtered_elem (L : Z → list Z) q c x r : x ≠ c → x ∈ (<[q := filter (λ y, y ≠ c) (L q)]> L) r ↔ x ∈ L r.
Proof.
  intros Hne. destruct (decide (r = q)) as [->|Hr]; [rewrite fn_lookup_insert, list_elem_of_filter; naive_solver|by rewrite fn_lookup_insert_ne].
Qed.

Lemma fresh_left conf : left (fresh conf) ≠ 0.
Proof. unfold fresh. simpl. by destruct (Z.eqb_spec (measurement_count conf) 0). Qed.
Lemma rearm_left conf w : left (rearm conf w) ≠ 0.
Proof. unfold rearm. destruct (Z.eqb_spec (left w) 0); [apply fresh_left|done]. Qed.

Lemma init_sim X c0 s0 c conf s t : cause_at P !! c = Some conf → t.1 !! c = None → sim None X c0 s0 t s →
  returns (init_cause P c) s (λ r s', r = OK ∧ sim None X c0 s0 (start_cause P c t.1, t.2) s').
Proof.
  intros Hc HW (L & HT & Hh & Ho & Hf). destruct (cause_state_of c conf Hc) as [q Hq].
  destruct (tracks_cause None s _ L HT c conf q Hc Hq) as (d & Hd & Hfit & Hst). unfold stands in Hst. rewrite HW in Hst.
  destruct Hst as (Hi & Hfl & Hn). eapply returns_mono.
  { apply (init_cause_ok P HP X c0 c conf q d s L Hc Hq Hd Hi); [by split|done|apply HT|done]. }
  intros r s' (-> & d' & Hs & Hr & [Hfl' Hfit']). split; [done|]. destruct (rest_split _ _ (stepped_rest P _ _ _ _ _ _ _ Hs)) as [Ho' Hf'].
  eexists. split_and!; [|apply Hs|simpl; congruence|congruence].
  eapply tracks_step; [done..| | | |done]; simpl; unfold start_cause; rewrite ?Hc.
  - rewrite lookup_insert_eq. split_and!; [done| |by intros ?%fresh_left]. intros _. rewrite fn_lookup_insert.
    split; [intros _; apply fresh_left|set_solver].
  - intros x Hne. by rewrite lookup_insert_ne.
  - intros x r Hne. by apply addlast_elem.
Qed.

Lemma reinit_sim X c0 s0 c conf w s t : cause_at P !! c = Some conf → t.1 !! c = Some w → sim None X c0 s0 t s →
  returns (reinit_cause P c) s (λ r s', r = OK ∧ sim None X c0 s0 (rearm_cause P c t.1, t.2) s').
Proof.
  intros Hc HW (L & HT & Hh & Ho & Hf). destruct (cause_state_of c conf Hc) as [q Hq].
  destruct (tracks_cause None s _ L HT c conf q Hc Hq) as (d & Hd & Hfit & Hst). unfold stands in Hst. rewrite HW in Hst.
  destruct Hst as (Hr & Hin & Hstop). specialize (Hin ltac:(done)). eapply returns_mono.
  { apply (reinit_cause_ok P HP X c0 c conf q d w s L Hc Hq Hd Hr Hfit); [|apply HT|done].
    intros E0. destruct (Hstop E0). split_and!; [done..|]. rewrite Hin. naive_solver. }
  intros r s' (-> & d' & Hs & Hr' & Hfit' & Hfl'). split; [done|]. destruct (rest_split _ _ (stepped_rest P _ _ _ _ _ _ _ Hs)) as [Ho' Hf'].
  eexists. split_and!; [|apply Hs|simpl; congruence|congruence].
  eapply tracks_step; [done..| | | |done]; simpl; unfold rearm_cause; rewrite ?Hc, ?HW.
  - rewrite lookup_insert_eq. split_and!; [done| |by intros ?%rearm_left]. intros _.
    destruct (Z.eqb_spec (left w) 0); [rewrite fn_lookup_insert|]; (split; [intros _; apply rearm_left|]); [set_solver|by rewrite Hin].
  - intros x Hne. by rewrite lookup_insert_ne.
  - intros x r Hne. destruct (left w =? 0); [by apply addlast_elem|done].
Qed.

Lemma uninit_sim X c0 s0 c conf q s t : cause_at P !! c = Some conf → state_of P c = Some q → sim (Some q) X c0 s0 t s →
  returns (uninit_cause P c) s (λ r s', r = OK ∧ sim (Some q) X c0 s0 (stop_cause c t.1, t.2) s').
Proof.
  intros Hc Hq (L & HT & Hh & Ho & Hf). pose proof (tracks_parked _ _ _ _ HT q eq_refl) as Hpk.
  destruct (tracks_cause _ s _ L HT c conf q Hc Hq) as (d & Hd & Hfit & Hst). eapply returns_mono.
  { apply (uninit_cause_ok P HP X c0 c conf q d s L Hc Hq Hd Hfit); [by right|apply HT|done]. }
  intros r s' (-> & v & ti & f & Hs & Hti & Hfd & [Hfl Hfit']). split; [done|].
  destruct (rest_split _ _ (stepped_rest P _ _ _ _ _ _ _ Hs)) as [Ho' Hf'].
  eexists. split_and!; [|apply Hs|simpl; congruence|congruence].
  eapply tracks_step; [done..| | | | |]; simpl.
  - exact Hfit'.
  - unfold stop_cause. rewrite lookup_delete_eq. split_and!; [by split|done|]. rewrite fn_lookup_insert, Hpk. set_solver.
  - intros x Hne. unfold stop_cause. by rewrite lookup_delete_ne.
  - intros x r Hne. by apply filtered_elem.
  - intros r [= <-]. by rewrite fn_lookup_insert, Hpk.
Qed.

(** Loops: [side rem W] is what the causes still to come need. *)
Section Loops.
Context (pk : option Z) (X : list Z) (c0 : Z) (s0 : st) (f : Z → M st Z) (g : Z → watches → watches) (side : list Z → watches → Prop).

Definition follows : Prop := ∀ c rem t s, side (c :: rem) t.1 → sim pk X c0 s0 t s →
  returns (f c) s (λ r s', r = OK ∧ side rem (g c t.1) ∧ sim pk X c0 s0 (g c t.1, t.2) s').

Context (Hf : follows).

Lemma init_all_follows l rem : ∀ t s, side (l ++ rem) t.1 → sim pk X c0 s0 t s →
  returns (init_all f l) s (λ r s', r = OK ∧ side rem (for_causes g l t.1) ∧ sim pk X c0 s0 (for_causes g l t.1, t.2) s').
Proof.
  induction l as [|c l IH]; intros t s Hside Hsim; simpl.
  - apply returns_ret. by destruct t.
  - apply returns_bind. eapply returns_mono; [by apply Hf|]. intros r s' (-> & Hside' & Hsim'). simpl. by apply (IH (g c t.1, t.2)).
Qed.

Lemma init_event_follows e rem t s : is_Some (event_at P !! e) → side (causes_in P e ++ rem) t.1 → sim pk X c0 s0 t s →
  returns (init_event P f e) s (λ r s', r = OK ∧ side rem (for_event P g e t).1 ∧ sim pk X c0 s0 (for_event P g e t) s').
Proof.
  intros [ev Hev] Hside Hsim. unfold init_event. eapply returns_bind, returns_deref; [exact Hev|].
  assert (causes_in P e = causes ev) as E1 by (unfold causes_in; by rewrite Hev). unfold for_event. rewrite E1 in Hside |- *.
  apply returns_bind. eapply returns_mono; [by apply init_all_follows|]. intros r s' (-> & Hside' & Hsim'). simpl.
  apply returns_bind, returns_modify, returns_ret. split_and!; [done..|]. destruct Hsim' as (L & HT & Hh & Ho & Hfx).
  exists L. split_and!; [|done|simpl; by rewrite Ho|done]. destruct HT as [T1 T2 T3]. by split.
Qed.

Lemma init_events_follow l rem : ∀ t s, (∀ e, e ∈ l → is_Some (event_at P !! e)) → side ((l ≫= causes_in P) ++ rem) t.1 → sim pk X c0 s0 t s →
  returns (init_all (init_event P f) l) s (λ r s', r = OK ∧ side rem (foldl (λ t e, for_event P g e t) t l).1 ∧
    sim pk X c0 s0 (foldl (λ t e, for_event P g e t) t l) s').
Proof.
  induction l as [|e l IH]; intros t s Hl Hside Hsim; simpl.
  - by apply returns_ret.
  - apply returns_bind. eapply returns_mono; [apply (init_event_follows e ((l ≫= causes_in P) ++ rem)); [apply Hl; by left| |done]|].
    { simpl in Hside. by rewrite <-app_assoc in Hside. }
    intros r s' (-> & Hside' & Hsim'). simpl. apply IH; [|done..]. intros e' He'. apply Hl. by right.
Qed.
End Loops.

Lemma live_side_init X c0 s0 : follows None X c0 s0 (init_cause P) (start_cause P)
  (λ rem W, NoDup rem ∧ ∀ c, c ∈ rem → is_Some (cause_at P !! c) ∧ W !! c = None).
Proof.
  intros c rem t s [Hnd Hrem] Hsim. destruct (Hrem c) as [[conf Hc] Hw]; [by left|]. apply NoDup_cons in Hnd as [Hn Hnd].
  eapply returns_mono; [by apply (init_sim X c0 s0 c conf)|]. intros r s' [-> Hsim']. split; [done|]. split; [|done].
  split; [done|]. intros x Hx. destruct (Hrem x) as [? Hxw]; [by right|]. split; [done|]. unfold start_cause. rewrite Hc, lookup_insert_ne by set_solver. done.
Qed.

Lemma live_side_reinit X c0 s0 : follows None X c0 s0 (reinit_cause P) (rearm_cause P)
  (λ rem W, ∀ c, c ∈ rem → is_Some (cause_at P !! c) ∧ is_Some (W !! c)).
Proof.
  intros c rem t s Hrem Hsim. destruct (Hrem c) as [[conf Hc] [w Hw]]; [by left|].
  eapply returns_mono; [by apply (reinit_sim X c0 s0 c conf w)|]. intros r s' [-> Hsim']. split; [done|]. split; [|done].
  intros x Hx. destruct (Hrem x) as [? Hxw]; [by right|]. split; [done|]. rewrite rearm_cause_lookup. destruct (bool_decide _); [|done].
  destruct Hxw as [w' Hw']. rewrite Hw'. destruct (cause_at P !! x); simpl; by eexists.
Qed.

Lemma live_side_uninit q X c0 s0 : follows (Some q) X c0 s0 (uninit_cause P) stop_cause
  (λ rem W, ∀ c, c ∈ rem → state_of P c = Some q).
Proof.
  intros c rem t s Hrem Hsim. pose proof (Hrem c ltac:(by left)) as Hq. destruct (state_of_at P HP c q Hq) as [_ [conf Hc]].
  eapply returns_mono; [by apply (uninit_sim X c0 s0 c conf q)|]. intros r s' [-> Hsim']. split; [done|]. split; [|done].
  intros x Hx. apply Hrem. by right.
Qed.

Lemma rearm_event_ok X c0 s0 e t s : is_Some (event_at P !! e) → (∀ c, c ∈ causes_in P e → is_Some (t.1 !! c)) → sim None X c0 s0 t s →
  returns (init_event P (reinit_cause P) e) s (λ r s', r = OK ∧ sim None X c0 s0 (for_event P (rearm_cause P) e t) s').
Proof.
  intros He Hl Hsim. eapply returns_mono; [apply (init_event_follows _ _ _ _ _ _ _ (live_side_reinit X c0 s0) e []); [done| |done]|].
  - rewrite app_nil_r. intros c Hc. split; [|by apply Hl]. apply elem_of_causes_in in Hc as (conf & ? & _); [by eexists|done].
  - intros r s' (-> & _ & Hsim'). done.
Qed.

Lemma events_exist q st : state_at P !! q = Some st → ∀ e, e ∈ events_of P q → is_Some (event_at P !! e).
Proof. intros Hq e. unfold events_of. rewrite Hq. intros He. destruct (state_events P HP q st e Hq He) as (ev & -> & _). by eexists. Qed.

(** Emptying the queue of a state. *)
Lemma clear_queue pk X c0 s0 q t s : is_Some (state_at P !! q) → sim None X c0 s0 t s →
  pk = Some q ∨ (pk = None ∧ ∀ c, state_of P c = Some q → t.1 !! c = None) →
  returns (on_links (sq_init (q + ACTIVE_CAUSES))) s (λ _ s', sim pk X c0 s0 t s').
Proof.
  intros Hq (L & HT & Hh & Ho & Hfx) Hpk. unfold on_links. apply returns_zoom. eapply returns_mono; [apply (queues_init P HP _ L q (tracks_queues _ _ _ _ HT) Hq)|].
  intros [] m HQ. exists (<[q:=[]]> L). split_and!; [|by eapply heap_same|done|done]. split.
  - intros c conf r Hc Hr. destruct (tracks_cause _ _ _ _ HT c conf r Hc Hr) as (d & Hd & Hfit & Hst). exists d. split_and!; [done..|].
    unfold stands in *. destruct (decide (r = q)) as [->|Hne].
    + destruct (t.1 !! c) as [w|] eqn:Hw.
      * destruct Hpk as [->|[_ Hnone]]; [|by rewrite Hnone in Hw]. destruct Hst as (? & _ & ?). by split_and!.
      * rewrite fn_lookup_insert. destruct Hst as (? & ? & _). split_and!; [done..|set_solver].
    + rewrite fn_lookup_insert_ne by done. destruct (t.1 !! c) as [w|]; [|done]. destruct Hst as (? & Hin & ?). split_and!; [done| |done].
      intros _. by apply Hin.
  - done.
  - intros r Hr. destruct (decide (r = q)) as [->|Hne]; [by rewrite fn_lookup_insert|].
    destruct Hpk as [Hpk|[Hpk _]]; congruence.
Qed.

Lemma enter_state_ok X c0 s0 q t s : is_Some (state_at P !! q) → (∀ c, state_of P c = Some q → t.1 !! c = None) → sim None X c0 s0 t s →
  returns (init_state P (init_cause P) q) s (λ r s', r = OK ∧ sim None X c0 s0 (for_state P (start_cause P) q t) s').
Proof.
  intros [st Hq] Hnone Hsim. unfold init_state. apply returns_bind. eapply returns_mono; [apply (clear_queue None X c0 s0 q t s); eauto|].
  intros [] s1 Hsim1. eapply returns_bind, returns_deref; [exact Hq|].
  assert (events st = events_of P q) as -> by (unfold events_of; by rewrite Hq).
  eapply returns_mono; [apply (init_events_follow _ _ _ _ _ _ _ (live_side_init X c0 s0) _ [])|].
  - by eapply events_exist.
  - rewrite app_nil_r. split; [apply (state_nodup P HP q)|]. intros c Hc. apply (elem_of_state_causes P HP) in Hc.
    split; [by apply (state_of_at P HP c q)|by apply Hnone].
  - done.
  - intros r s' (-> & _ & Hsim'). done.
Qed.

Lemma leave_state_ok X c0 s0 q t s : is_Some (state_at P !! q) → sim None X c0 s0 t s →
  returns (init_state P (uninit_cause P) q) s (λ r s', r = OK ∧ sim None X c0 s0 (for_state P stop_cause q t) s').
Proof.
  intros [st Hq] Hsim. unfold init_state. apply returns_bind. eapply returns_mono; [apply (clear_queue (Some q) X c0 s0 q t s); eauto|].
  intros [] s1 Hsim1. eapply returns_bind, returns_deref; [exact Hq|].
  assert (events st = events_of P q) as -> by (unfold events_of; by rewrite Hq).
  eapply returns_mono; [apply (init_events_follow _ _ _ _ _ _ _ (live_side_uninit q X c0 s0) _ [])|].
  - by eapply events_exist.
  - rewrite app_nil_r. intros c Hc. by apply (elem_of_state_causes P HP).
  - done.
  - intros r s' (-> & _ & Hsim'). split; [done|]. destruct Hsim' as (L & HT & Hh & Ho & Hfx). exists L. split_and!; [|done..].
    fold (for_state P stop_cause q t) in *. split; [|apply HT|done].
    intros c conf r Hc Hr. destruct (tracks_cause _ _ _ _ HT c conf r Hc Hr) as (d & Hd & Hfit & Hst). exists d. split_and!; [done..|].
    unfold stands in *. destruct ((for_state P stop_cause q t).1 !! c) as [w|] eqn:Hw; [|done]. destruct Hst as (? & Hin & ?).
    split_and!; [done| |done]. intros _. apply Hin. intros [= ->]. rewrite for_state_causes, stop_causes_lookup in Hw.
    rewrite bool_decide_true in Hw; [done|]. by apply (elem_of_state_causes P HP).
Qed.
End Track.
