(* ===== verification/EngineMove.v ===== *)
(** Moving between states and purposes: finding them, entering and leaving
    states and global states, init_profile, and starting, stopping and
    continuing a profile, against what the specification says is live. *)

From Stdlib Require Import SpecFloat.
From stdpp Require Import functions.
From S2P Require Import Prelude Links Queue QueueSq Ubx UbxInv EngValue Engine EngineInv EngineCause EngineTrack.

(** * Where the engine is *)

Section Where.
Context (P : ts_profile).

Definition is_global (q : Z) : bool := from_option isGlobal false (state_at P !! q).
Definition globals_of (u : Z) : list Z := filter (λ q, is_global q = true) (from_option states [] (purpose_at P !! u)).

Definition enter (q : Z) (t : tracking) : tracking := for_state P (start_cause P) q t.
Definition leave (q : Z) (t : tracking) : tracking := for_state P stop_cause q t.
Definition enter_all (l : list Z) (t : tracking) : tracking := foldl (λ t q, enter q t) t l.
Definition leave_all (l : list Z) (t : tracking) : tracking := foldl (λ t q, leave q t) t l.

(** The purpose, the state and the global states that are current, and the
    live causes. *)
Record place := Place { at_purpose : Z; at_state : Z; at_globals : list Z; live : tracking }.

(** Going to a state, NULL or not there yet before the profile starts. *)
Definition go_state (q : Z) (π : place) : place :=
  if at_state π =? q then π
  else Place (at_purpose π) q (at_globals π) (enter q (if nonnull (at_state π) then leave (at_state π) (live π) else live π)).
Definition go_purpose (u : Z) (π : place) : place :=
  if at_purpose π =? u then π
  else Place u (at_state π) (globals_of u) (enter_all (globals_of u) (leave_all (at_globals π) (live π))).

(** init_profile: where the ids lead, if they lead anywhere. *)
Definition destination (purpose_id state_id : Z) : option (Z * Z) :=
  let u := lookup_purpose P purpose_id in
  let q := lookup_state P u state_id in
  if nonnull u && nonnull q then Some (u, q) else None.
Definition go (d : option (Z * Z)) (π : place) : place :=
  match d with Some (u, q) => go_purpose u (go_state q π) | None => π end.

Lemma go_where u q π : at_state (go (Some (u, q)) π) = q ∧ at_purpose (go (Some (u, q)) π) = u.
Proof.
  simpl. unfold go_purpose, go_state. destruct (Z.eqb_spec (at_state π) q); simpl; destruct (Z.eqb_spec (at_purpose π) u); simpl; done.
Qed.

Lemma destination_some pid id u q : destination pid id = Some (u, q) → u ≠ NULL ∧ q ≠ NULL.
Proof.
  unfold destination, nonnull. destruct (Z.eqb_spec (lookup_purpose P pid) NULL) as [|Hu]; [done|]. simpl.
  destruct (Z.eqb_spec (lookup_state P (lookup_purpose P pid) id) NULL) as [|Hq]; [done|]. simpl. by intros [= <- <-].
Qed.

Lemma enter_lookup q t c : profile_ok P → (enter q t).1 !! c =
  if bool_decide (state_of P c = Some q) then fresh <$> cause_at P !! c else t.1 !! c.
Proof.
  intros HP. unfold enter. rewrite for_state_causes, start_causes_lookup.
  - by rewrite (bool_decide_ext _ _ (elem_of_state_causes P HP c q)).
  - intros x Hx%(elem_of_state_causes P HP). by apply (state_of_at P HP x q).
Qed.

Lemma leave_lookup q t c : profile_ok P → (leave q t).1 !! c = if bool_decide (state_of P c = Some q) then None else t.1 !! c.
Proof.
  intros HP. unfold leave. rewrite for_state_causes, stop_causes_lookup.
  by rewrite (bool_decide_ext _ _ (elem_of_state_causes P HP c q)).
Qed.
End Where.

Section Move.
Context {E : Type} `{EngineLaws E}.
Context (P : ts_profile) (HP : profile_ok P).
Local Abbreviation st := (engine_s E).
Implicit Types (s : st).

(** * Finding *)

Lemma find_state_ok u id s : is_Some (purpose_at P !! u) →
  returns (find_state_by_id P u id) s (λ q s', s' = s ∧ q = lookup_state P u id ∧ (q = NULL ∨ ∃ st pu, state_at P !! q = Some st ∧ purpose_at P !! u = Some pu ∧ q ∈ states pu)).
Proof.
  intros [pu Hu]. unfold find_state_by_id. assert (lookup_state P u id = hd_or NULL (filter (λ q, stId <$> state_at P !! q =
    Some (if id =? INVALID_STATE then initStId pu else id)) (states pu))) as -> by (unfold lookup_state; by rewrite Hu).
  eapply returns_bind, returns_deref; [exact Hu|]. set (i := if id =? INVALID_STATE then initStId pu else id). pose proof (purpose_states P HP u pu) as Hst. specialize (λ q, Hst q Hu).
  assert (Hsub : ∀ l, l ⊆ states pu → returns (find_state_in P i l) s (λ q s', s' = s ∧
    q = hd_or NULL (filter (λ q, stId <$> state_at P !! q = Some i) l) ∧ (q = NULL ∨ ∃ st pu, state_at P !! q = Some st ∧ purpose_at P !! u = Some pu ∧ q ∈ states pu))).
  { induction l as [|q l IH]; intros Hl; simpl; [apply returns_ret; auto|].
    destruct (Hst q ltac:(apply Hl; by left)) as (Hq & st & Hqs & _). eapply returns_bind, returns_deref; [exact Hqs|].
    rewrite filter_cons, Hqs. simpl. destruct (Z.eqb_spec (stId st) i) as [->|Hne].
    - rewrite decide_True by done. apply returns_ret. split_and!; [done|done|]. right. exists st, pu. split_and!; [done..|]. apply Hl. by left.
    - rewrite decide_False by congruence. apply IH. set_solver. }
  by apply Hsub.
Qed.

Lemma find_purpose_ok id s : returns (find_purpose_by_id P id) s (λ u s', s' = s ∧ u = lookup_purpose P id ∧ (u = NULL ∨ u ∈ purposes P)).
Proof.
  unfold find_purpose_by_id, lookup_purpose. set (i := if id =? INVALID_PURPOSE then initPuId P else id).
  assert (Hsub : ∀ l, l ⊆ purposes P → returns (find_purpose_in P i l) s (λ u s', s' = s ∧
    u = hd_or NULL (filter (λ u, puId <$> purpose_at P !! u = Some i) l) ∧ (u = NULL ∨ u ∈ purposes P))).
  { induction l as [|u l IH]; intros Hl; simpl; [apply returns_ret; auto|].
    destruct (purpose_ok P HP u ltac:(apply Hl; by left)) as [[pu Hu] _]. eapply returns_bind, returns_deref; [exact Hu|].
    rewrite filter_cons, Hu. simpl. destruct (Z.eqb_spec (puId pu) i) as [->|Hne].
    - rewrite decide_True by done. apply returns_ret. split_and!; [done|done|]. right. apply Hl. by left.
    - rewrite decide_False by congruence. apply IH. set_solver. }
  by apply Hsub.
Qed.

(** * Following through the other fields *)

Lemma sim_eos {A} (op : M E A) φ pk X c0 s0 t s : keeps op φ → sim P pk X c0 s0 t s →
  returns (eos op) s (λ a s', φ a ∧ sim P pk X c0 s0 t s').
Proof.
  intros Hop (L & [T1 T2 T3] & Hh & Ho & Hfx). eapply returns_mono; [by apply (heap_eos P op φ X c0 s)|].
  intros a s' (Ha & Hh' & e & ->). split; [done|]. exists L. by split_and!.
Qed.

(** A change of the fields that following the causes leaves alone. *)
Lemma sim_fixed pk X c0 s0 s0' t s s' : sim P pk X c0 s0 t s → dyns s' = dyns s → links s' = links s → orders s' = orders s →
  blocks s' = blocks s → e_os s' = e_os s → fixed s' = fixed s0' → sim P pk X c0 s0' t s'.
Proof.
  intros (L & [T1 T2 T3] & Hh & Ho & Hfx) Hd Hl Hor Hb He Hf. exists L. split_and!; [|by eapply heap_same|congruence|done].
  split; [by rewrite Hd|by rewrite Hl|done].
Qed.

Lemma sim_put o pk X c0 s0 t s : sim P pk X c0 s0 t s →
  returns (put o) s (λ _ s', sim P pk X c0 (put_out (out s0 ++ [o]) s0) t s').
Proof.
  intros Hs. apply returns_modify. pose proof Hs as (L & _ & _ & _ & Hfx). eapply sim_fixed; [exact Hs|done..|].
  unfold fixed in *. simpl. congruence.
Qed.

Lemma sim_perm pk X Y c0 s0 t s : X ≡ₚ Y → sim P pk X c0 s0 t s → sim P pk Y c0 s0 t s.
Proof. intros HXY (L & HT & Hh & Ho & Hfx). exists L. split_and!; [done|by eapply heap_perm|done|done]. Qed.

(** * Global states *)

Lemma leave_globals X c0 s0 l : ∀ t s, (∀ x, x ∈ l → is_global P x.2 = true) → sim P None (l.*1 ++ X) c0 s0 t s →
  returns (uninit_globals P l) s (λ _ s', sim P None X c0 s0 (leave_all P l.*2 t) s').
Proof.
  induction l as [|[p q] l IH]; intros t s Hl Hs; simpl; [by apply returns_ret|].
  pose proof (Hl (p, q) ltac:(by left)) as Hg. simpl in Hg. unfold is_global in Hg.
  destruct (state_at P !! q) as [stq|] eqn:Hq; [|done]. simpl in Hg. eapply returns_bind, returns_deref; [exact Hq|].
  apply returns_bind. rewrite Hg. apply returns_bind. eapply returns_mono; [apply (leave_state_ok P HP (p :: l.*1 ++ X) c0 s0 q t s); [by eexists|exact Hs]|].
  intros r s1 (-> & L & [T1 T2 T3] & Hh & Ho & Hfx). eapply returns_mono; [by apply (heap_free P p)|].
  intros [] s2 (Hh2 & e & ->). apply IH; [intros x Hx; apply Hl; by right|]. exists L. by split_and!.
Qed.

Lemma uninit_global_states_ok X c0 s0 t s : (∀ x, x ∈ global_states s → is_global P x.2 = true) →
  sim P None ((global_states s).*1 ++ X) c0 s0 t s →
  returns (uninit_global_states P) s (λ _ s', sim P None X c0 (put_globals [] s0) (leave_all P (global_states s).*2 t) s').
Proof.
  intros Hg Hs. apply returns_bind, returns_gets, returns_bind. eapply returns_mono; [by apply leave_globals|].
  intros [] s1 Hs1. apply returns_modify. pose proof Hs1 as (L & _ & _ & _ & Hfx). eapply sim_fixed; [exact Hs1|done..|].
  unfold fixed in *. simpl. congruence.
Qed.

Lemma init_globals_ok X c0 s0 l : ∀ t s, (∀ q, q ∈ l → is_Some (state_at P !! q)) → NoDup l →
  (∀ q c, q ∈ l → is_global P q = true → state_of P c = Some q → t.1 !! c = None) → sim P None X c0 s0 t s →
  returns (init_all (λ q, conf ← state_conf P q; if isGlobal conf then add_global_state P q else mret OK) l) s (λ r s', r = OK ∧
    ∃ gs, gs.*2 = filter (λ q, is_global P q = true) l ∧
      sim P None (gs.*1 ++ X) c0 (put_globals (global_states s0 ++ gs) s0) (enter_all P (filter (λ q, is_global P q = true) l) t) s').
Proof.
  revert X s0. induction l as [|q l IH]; intros X s0 t s Hl Hnd Hnone Hs; simpl.
  { apply returns_ret. split; [done|]. exists []. split; [done|]. rewrite app_nil_r. eapply sim_fixed; [exact Hs|done..|].
    destruct Hs as (L & _ & _ & _ & Hfx). by rewrite Hfx. }
  apply NoDup_cons in Hnd as [Hq Hnd]. destruct (Hl q ltac:(by left)) as [stq Hstq].
  apply returns_bind. eapply returns_bind, returns_deref; [exact Hstq|].
  assert (Hg : is_global P q = isGlobal stq) by (unfold is_global; by rewrite Hstq). rewrite filter_cons. destruct (isGlobal stq).
  - rewrite decide_True by done. unfold add_global_state. apply returns_bind.
    assert (Hcall : returns (eos (calloc 1 SIZEOF_GLOBAL_STATE)) s (λ p s', p ≠ NULL ∧ sim P None (p :: X) c0 s0 t s')).
    { destruct Hs as (L & [T1 T2 T3] & Hh & Ho & Hfx). eapply returns_mono; [by apply (heap_global P X c0)|].
      intros p s' (Hp & Hh' & e & ->). split; [done|]. exists L. by split_and!. }
    eapply returns_mono; [exact Hcall|].
    intros p s1 [Hp Hs1]. unfold nonnull. rewrite (proj2 (Z.eqb_neq _ _) Hp). apply returns_bind, returns_modify.
    assert (Hs2 : sim P None (p :: X) c0 (put_globals (global_states s0 ++ [(p, q)]) s0) t (put_globals (global_states s1 ++ [(p, q)]) s1)).
    { eapply sim_fixed; [exact Hs1|done..|]. destruct Hs1 as (? & _ & _ & _ & Hfx1). unfold fixed in *. simpl. congruence. }
    eapply returns_mono; [apply (enter_state_ok P HP (p :: X) c0 (put_globals (global_states s0 ++ [(p, q)]) s0) q t); [by eexists| |exact Hs2]|].
    { intros c Hc. apply (Hnone q c); [by left|done|done]. }
    intros r s2 [-> Hs3]. change (OK <? 0) with false. eapply returns_mono; [apply (IH (p :: X) (put_globals (global_states s0 ++ [(p, q)]) s0) (enter P q t) s2); [|done| |exact Hs3]|].
    + intros q' Hq'. apply Hl. by right.
    + intros q' c Hq' Hgq Hc. rewrite enter_lookup by done. rewrite bool_decide_false by congruence. apply (Hnone q' c); [by right|done|done].
    + intros r s4 (-> & gs & Hgs & Hs4). split; [done|]. exists ((p, q) :: gs). split; [by rewrite fmap_cons, Hgs|].
      eapply sim_perm; [|eapply sim_fixed; [exact Hs4|done..|]]; [by symmetry; apply Permutation_middle|].
      destruct Hs4 as (? & _ & _ & _ & Hfx4). rewrite Hfx4. unfold fixed. simpl. by rewrite <-app_assoc.
  - rewrite decide_False by congruence. apply returns_ret. change (OK <? 0) with false. apply (IH X s0 t s); [|done| |done].
    + intros q' Hq'. apply Hl. by right.
    + intros q' c Hq'. apply Hnone. by right.
Qed.

(** * Sending *)

(** A payload goes to the connector or not. *)
Lemma ts_engine_send_ok p url priv pk X c0 s0 t s : sim P pk X c0 s0 t s →
  returns (ts_engine_send p url priv) s (λ r s', ∃ o, sim P pk X c0 (put_out (out s0 ++ o) s0) t s' ∧
    ((r = OK ∧ ∃ b : bool, o = [Send p (if b then url else None) priv]) ∨
     (r = ERROR ∧ (o = [] ∨ ∃ b : bool, o = [Send p (if b then url else None) priv])))).
Proof.
  intros Hs. unfold ts_engine_send. apply returns_bind. eapply returns_mono; [apply (sim_eos _ _ pk X c0 s0 t s (select_connector_ok 0) Hs)|].
  intros [ret con] s1 [[Hcon _] Hs1]. simpl in Hcon.
  assert (Hnone : sim P pk X c0 (put_out (out s0 ++ []) s0) t s1).
  { rewrite app_nil_r. eapply sim_fixed; [exact Hs1|done..|]. by destruct Hs1 as (? & _ & _ & _ & ->). }
  destruct (Z.ltb_spec ret 0); [apply returns_ret; eauto 10|]. destruct (Hcon ltac:(lia)) as [con' ->].
  eapply returns_bind, returns_deref; [reflexivity|]. destruct (con_send con'); [|apply returns_ret; eauto 10].
  unfold send_to. apply returns_bind, returns_bind. eapply returns_mono; [by apply (sim_put _ pk X c0 s0 t)|]. intros [] s2 Hs2.
  eapply returns_mono; [apply (sim_eos _ _ pk X c0 _ t s2 (connector_send_ok _ _ _) Hs2)|].
  intros r s3 [_ Hs3]. apply returns_ret. eexists. split; [exact Hs3|]. destruct (r =? OK); [left|right; split; [done|right]]; eauto.
Qed.

Definition ping_out (o : list eng_out) : Prop := o = [] ∨ ∃ p, senses p = [] ∧ o = [Send p None PING_MAGIC].

Lemma send_ping_ok b pk X c0 s0 t s : sim P pk X c0 s0 t s →
  returns (send_ping_event P b) s (λ _ s', ∃ o, sim P pk X c0 (put_out (out s0 ++ o) s0) t s' ∧ ping_out o).
Proof.
  intros Hs. unfold send_ping_event. apply returns_bind. eapply returns_mono; [apply (sim_eos _ _ pk X c0 s0 t s (clock_get_ok _) Hs)|].
  intros now s1 [_ Hs1]. eapply returns_mono; [by apply (ts_engine_send_ok _ None PING_MAGIC pk X c0 s0 t)|].
  intros r s2 (o & Hs2 & Ho). exists o. split; [done|]. unfold ping_out.
  destruct Ho as [[_ [bb ->]]|[_ [->|[bb ->]]]]; [right|by left|right]; eexists; (split; [|by destruct bb]); done.
Qed.

(** * Going somewhere *)

(** The engine is in the place [π]; [s0] has the other fields. *)
Definition in_place (X : list Z) (c0 : Z) (s0 : st) (π : place) s : Prop := ∃ gs, gs.*2 = at_globals π ∧
  sim P None (gs.*1 ++ X) c0 (put_purpose (at_purpose π) (put_state (at_state π) (put_globals gs s0))) (live π) s.

(** Just the causes of the current state and of the global states of the
    current purpose are live. *)
Record placed (π : place) : Prop := {
  placed_live c : is_Some ((live π).1 !! c) ↔ ∃ q, state_of P c = Some q ∧ q ≠ NULL ∧ (q = at_state π ∨ q ∈ at_globals π);
  placed_state : at_state π ≠ NULL → is_Some (state_at P !! at_state π) ∧ is_global P (at_state π) = false;
  placed_globals : at_globals π = if at_purpose π =? NULL then [] else globals_of P (at_purpose π);
  placed_purpose : at_purpose π ≠ NULL → at_purpose π ∈ purposes P;
  placed_orders e : is_Some (event_at P !! e) → is_Some ((live π).2 !! e);
}.

Lemma for_state_orders g q t e : is_Some (t.2 !! e) → is_Some ((for_state P g q t).2 !! e).
Proof.
  unfold for_state. revert t. induction (events_of P q) as [|e' l IH]; intros t He; [done|]. simpl. apply IH. simpl.
  apply lookup_insert_is_Some'. by right.
Qed.

Lemma for_states_orders g l t e : is_Some (t.2 !! e) → is_Some ((foldl (λ t q, for_state P g q t) t l).2 !! e).
Proof. revert t. induction l as [|q l IH]; intros t He; [done|]. simpl. by apply IH, for_state_orders. Qed.

Lemma globals_elem u q : q ∈ globals_of P u ↔ is_global P q = true ∧ ∃ pu, purpose_at P !! u = Some pu ∧ q ∈ states pu.
Proof.
  unfold globals_of. rewrite list_elem_of_filter. destruct (purpose_at P !! u) as [pu|]; simpl; [naive_solver|].
  split; [|naive_solver]. intros [_ ?]. set_solver.
Qed.

Lemma globals_nodup u : NoDup (globals_of P u).
Proof.
  unfold globals_of. apply NoDup_filter. destruct (purpose_at P !! u) as [pu|] eqn:Hu; simpl; [by eapply (purpose_nodup P HP)|constructor].
Qed.

(** The causes of several states. *)
Definition in_states (l : list Z) (c : Z) : bool := from_option (λ q, bool_decide (q ∈ l)) false (state_of P c).

Lemma in_states_cons q l c : in_states (q :: l) c = bool_decide (state_of P c = Some q) || in_states l c.
Proof.
  unfold in_states. destruct (state_of P c) as [r|]; simpl; [|done].
  apply eq_bool_prop_intro. rewrite orb_True, !bool_decide_spec, elem_of_cons. naive_solver.
Qed.

Lemma in_states_spec l c : in_states l c = true ↔ ∃ q, state_of P c = Some q ∧ q ∈ l.
Proof. unfold in_states. destruct (state_of P c) as [r|]; simpl; rewrite ?bool_decide_eq_true; naive_solver. Qed.

Lemma enter_all_lookup l t c : (enter_all P l t).1 !! c = if in_states l c then fresh <$> cause_at P !! c else t.1 !! c.
Proof.
  revert t. induction l as [|q l IH]; intros t; [unfold in_states; by destruct (state_of P c)|].
  change (enter_all P (q :: l) t) with (enter_all P l (enter P q t)). rewrite IH, enter_lookup, in_states_cons by done.
  by destruct (bool_decide _), (in_states l c).
Qed.

Lemma leave_all_lookup l t c : (leave_all P l t).1 !! c = if in_states l c then None else t.1 !! c.
Proof.
  revert t. induction l as [|q l IH]; intros t; [unfold in_states; by destruct (state_of P c)|].
  change (leave_all P (q :: l) t) with (leave_all P l (leave P q t)). rewrite IH, leave_lookup, in_states_cons by done.
  by destruct (bool_decide _), (in_states l c).
Qed.

Lemma in_place_out X c0 s0 π s o : in_place X c0 s0 π s →
  returns (put o) s (λ _ s', in_place X c0 (put_out (out s0 ++ [o]) s0) π s').
Proof.
  intros (gs & Hgs & Hs). eapply returns_mono; [by apply (sim_put o None)|]. intros [] s' Hs'. exists gs. by split.
Qed.

Lemma in_place_eos {A} (op : M E A) φ X c0 s0 π s : keeps op φ → in_place X c0 s0 π s →
  returns (eos op) s (λ a s', φ a ∧ in_place X c0 s0 π s').
Proof.
  intros Hop (gs & Hgs & Hs). eapply returns_mono; [by apply (sim_eos op φ None)|]. intros a s' [Ha Hs']. split; [done|].
  exists gs. by split.
Qed.

Lemma in_place_fields X c0 s0 π s : in_place X c0 s0 π s →
  current_purpose s = at_purpose π ∧ current_state s = at_state π ∧ (global_states s).*2 = at_globals π ∧
  run_state s = run_state s0 ∧ out s = out s0 ∧ min_interval_minutes s = min_interval_minutes s0 ∧ max_per_day s = max_per_day s0.
Proof.
  intros (gs & Hgs & L & _ & _ & _ & Hf). unfold fixed in Hf. simpl in Hf. injection Hf as -> -> -> -> -> -> _ _ ->. by split_and!.
Qed.

(** Dropping the memory of where the engine is for another. *)
Lemma in_place_put X c0 s0 π s u : in_place X c0 s0 π s →
  in_place X c0 s0 (Place u (at_state π) (at_globals π) (live π)) (put_purpose u s).
Proof.
  intros (gs & Hgs & Hs). exists gs. split; [done|]. eapply sim_fixed; [exact Hs|done..|].
  destruct Hs as (L & _ & _ & _ & Hf). unfold fixed in *. simpl in *. congruence.
Qed.

Lemma go_state_placed q π : placed π → q ≠ NULL → is_Some (state_at P !! q) → is_global P q = false → placed (go_state P q π).
Proof.
  intros [PL PS PG PP PO] Hq Hqs Hg. unfold go_state. destruct (Z.eqb_spec (at_state π) q); [by split|]. split; simpl; [|done..|].
  2: { intros e He%PO. apply for_state_orders. destruct (nonnull _); [by apply for_state_orders|done]. }
  intros c. rewrite enter_lookup by done. destruct (bool_decide_reflect (state_of P c = Some q)) as [Hc|Hc].
  - destruct (state_of_at P HP c q Hc) as [_ [conf ->]]. simpl. split; [intros _; eauto|by eexists].
  - assert (Hold : ∀ r, r ∈ at_globals π → r ≠ at_state π ∨ at_state π = NULL).
    { intros r Hr. destruct (decide (at_state π = NULL)) as [|Hn]; [by right|]. left. intros ->. rewrite PG in Hr.
      destruct (_ =? NULL); [set_solver|]. apply globals_elem in Hr as [Hr _]. destruct (PS Hn). congruence. }
    assert (Hlive : is_Some ((if nonnull (at_state π) then leave P (at_state π) (live π) else live π).1 !! c) ↔
      is_Some ((live π).1 !! c) ∧ ¬ (at_state π ≠ NULL ∧ state_of P c = Some (at_state π))).
    { unfold nonnull. destruct (Z.eqb_spec (at_state π) NULL) as [->|Hn]; simpl; [naive_solver|]. rewrite leave_lookup by done.
      destruct (bool_decide_reflect (state_of P c = Some (at_state π))); [|naive_solver]. split; [by intros [? ?]|naive_solver]. }
    rewrite Hlive, PL. split.
    + intros [(r & Hr & Hrn & Hor) Hno]. exists r. split_and!; [done..|]. right. destruct Hor as [->|?]; [|done]. naive_solver.
    + intros (r & Hr & Hrn & Hor). destruct Hor as [->|Hor]; [done|]. split; [eauto|].
      intros [Hn Hc']. rewrite Hr in Hc'. injection Hc' as ->. destruct (Hold _ Hor); congruence.
Qed.

Lemma globals_nonnull u q : q ∈ globals_of P u → q ≠ NULL.
Proof. intros (_ & pu & Hu & Hq)%globals_elem. by destruct (purpose_states P HP u pu q Hu Hq). Qed.

Lemma go_purpose_placed u π : placed π → u ∈ purposes P → placed (go_purpose P u π).
Proof.
  intros [PL PS PG PP PO] Hu. pose proof (proj2 (purpose_ok P HP u Hu)) as Hun. unfold go_purpose.
  destruct (Z.eqb_spec (at_purpose π) u); [by split|]. split; simpl; [|done| |done|].
  2: by rewrite (proj2 (Z.eqb_neq u NULL) Hun).
  2: { intros e He%PO. by apply for_states_orders, for_states_orders. }
  assert (Hold : ∀ r, r ∈ at_globals π → is_global P r = true).
  { intros r Hr. rewrite PG in Hr. destruct (_ =? NULL); [set_solver|]. by apply globals_elem in Hr as [Hr _]. }
  intros c. rewrite enter_all_lookup, leave_all_lookup. destruct (in_states (globals_of P u) c) eqn:Hin.
  - apply in_states_spec in Hin as (r & Hr & Hrg). destruct (state_of_at P HP c r Hr) as [_ [conf ->]]. simpl.
    split; [|by eexists]. intros _. exists r. split_and!; [done|by eapply globals_nonnull|by right].
  - destruct (in_states (at_globals π) c) eqn:Hin'.
    + apply in_states_spec in Hin' as (r & Hr & Hrg). split; [by intros [? ?]|]. intros (r' & Hr' & Hn & Hor).
      rewrite Hr in Hr'. injection Hr' as <-. destruct Hor as [->|Hor].
      * destruct (PS Hn) as [_ Hng]. specialize (Hold _ Hrg). congruence.
      * rewrite (proj2 (in_states_spec _ _)) in Hin by eauto. done.
    + rewrite PL. split; intros (r & Hr & Hn & Hor); exists r; split_and!; [done..| |done|done|].
      * destruct Hor as [->|Hor]; [by left|]. rewrite (proj2 (in_states_spec _ _)) in Hin' by eauto. done.
      * destruct Hor as [->|Hor]; [by left|]. rewrite (proj2 (in_states_spec _ _)) in Hin by eauto. done.
Qed.

Lemma placed_none_live q π c : placed π → state_of P c = Some q → q ≠ at_state π → q ∉ at_globals π → (live π).1 !! c = None.
Proof.
  intros Hπ Hc Hs Hg. destruct ((live π).1 !! c) eqn:Hl; [|done].
  destruct (proj1 (placed_live π Hπ c) ltac:(by eexists)) as (r & Hr & _ & Hor). rewrite Hc in Hr. injection Hr as <-. naive_solver.
Qed.

Lemma placed_globals_global π q : placed π → q ∈ at_globals π → is_global P q = true.
Proof. intros Hπ. rewrite (placed_globals π Hπ). destruct (_ =? NULL); [set_solver|]. by intros [? _]%globals_elem. Qed.

(** init_purpose: shows where it goes, and goes there. *)
Lemma init_purpose_ok X c0 s0 π s u id : named P id → placed π → is_Some (purpose_at P !! u) → in_place X c0 s0 π s →
  returns (init_purpose P u id) s (λ r s', let q := lookup_state P u id in
    if nonnull q then r = OK ∧ is_Some (state_at P !! q) ∧ is_global P q = false ∧
      in_place X c0 (put_out (out s0 ++ [UiState u q]) s0) (go_state P q π) s'
    else r = ERROR ∧ s' = s).
Proof.
  intros Hid Hπ Hu Hs. unfold init_purpose. apply returns_bind. eapply returns_mono; [by apply find_state_ok|].
  intros q ? (-> & Eq & Hq). rewrite <-Eq. simpl. destruct (nonnull q) eqn:Hn; simpl; [|by apply returns_ret].
  assert (q ≠ NULL) as Hqn by (intros ->; done). destruct Hq as [|(st & pu & Hq & Hpu & Hin)]; [done|].
  assert (is_global P q = false) as Hg.
  { unfold is_global. rewrite Hq. simpl. eapply (named_local P HP u id); [done|]. by rewrite <-Eq. }
  apply returns_bind. eapply returns_mono; [by apply in_place_out|]. intros [] s1 Hs1. apply returns_bind.
  eapply returns_mono; [by apply (in_place_eos _ (λ _, True)), Hs1; eauto with engine_laws|]. intros [] s2 [_ Hs2].
  apply returns_bind, returns_gets. destruct (in_place_fields _ _ _ _ _ Hs2) as (_ & -> & _). unfold go_state.
  destruct (Z.eqb_spec (at_state π) q) as [|Hne]; [apply returns_ret; by split_and!|].
  destruct Hs2 as (gs & Hgs & Hs2). set (s0' := put_out _ s0) in *.
  set (t := if nonnull (at_state π) then leave P (at_state π) (live π) else live π).
  assert (Hl : returns (if nonnull (at_state π) then init_state P (uninit_cause P) (at_state π) else mret OK) s2 (λ r s', r = OK ∧
    sim P None (gs.*1 ++ X) c0 (put_purpose (at_purpose π) (put_state (at_state π) (put_globals gs s0'))) t s')).
  { unfold t. destruct (nonnull (at_state π)) eqn:Hn0; [|by apply returns_ret]. apply (leave_state_ok P HP); [|done].
    apply (placed_state π Hπ). intros E0. by rewrite E0 in Hn0. }
  apply returns_bind. eapply returns_mono; [exact Hl|]. intros r s3 [-> Hs3]. change (OK <? 0) with false. simpl. apply returns_bind.
  eapply returns_mono; [eapply (enter_state_ok P HP _ _ _ _ t); [by eexists| |exact Hs3]|].
  { intros c Hc. assert ((live π).1 !! c = None) as Hlc.
    { eapply placed_none_live; [done..|]. intros Hgl. pose proof (placed_globals_global π q Hπ Hgl). congruence. }
    unfold t. destruct (nonnull (at_state π)); [|done]. rewrite leave_lookup by done. by destruct (bool_decide _). }
  intros r s4 [-> Hs4]. change (OK <? 0) with false. simpl. apply returns_bind, returns_modify, returns_ret.
  split_and!; [done|by eexists|done|]. exists gs. split; [done|]. eapply sim_fixed; [exact Hs4|done..|].
  destruct Hs4 as (? & _ & _ & _ & Hf). unfold fixed in *. simpl in *. congruence.
Qed.

(** The global states of another purpose. *)
Lemma change_purpose_ok X c0 s0 π s u : placed π → u ∈ purposes P → at_purpose π ≠ u → in_place X c0 s0 π s →
  returns (uninit_global_states P;; ret ← init_global_states P u; if ret <? 0 then mret ERROR else _ ← send_ping_event P true; mret OK) s
    (λ r s', r = OK ∧ ∃ o, ping_out o ∧ in_place X c0 (put_out (out s0 ++ o) s0) (go_purpose P u π) (put_purpose u s')).
Proof.
  intros Hπ Hu Hne (gs & Hgs & Hs). destruct (purpose_ok P HP u Hu) as [[pu Hpu] Hun].
  pose proof Hs as (? & _ & _ & _ & Hf). unfold fixed in Hf. simpl in Hf. injection Hf as _ _ Eg _ _ _ _ _ _.
  apply returns_bind. eapply returns_mono; [apply (uninit_global_states_ok X c0 (put_purpose (at_purpose π) (put_state (at_state π) (put_globals gs s0))) (live π) s)|].
  { rewrite Eg. intros y Hy. apply (placed_globals_global π); [done|]. rewrite <-Hgs. by apply list_elem_of_fmap_2. }
  { by rewrite Eg. }
  rewrite Eg, Hgs. intros [] s1 Hs1. apply returns_bind. unfold init_global_states. eapply returns_bind, returns_deref; [exact Hpu|].
  eapply returns_mono; [eapply (init_globals_ok X c0 _ (states pu) (leave_all P (at_globals π) (live π)) s1); [| | |exact Hs1]|].
  { intros q Hq. destruct (purpose_states P HP u pu q Hpu Hq) as (_ & st & ? & _). by eexists. }
  { by apply (purpose_nodup P HP u). }
  { intros q c Hq Hg Hc. rewrite leave_all_lookup. destruct (in_states _ c) eqn:Hin; [done|].
    eapply placed_none_live; [done..| |].
    - intros ->. destruct (placed_state π Hπ) as [_ Hng]; [|congruence]. by destruct (purpose_states P HP u pu _ Hpu Hq).
    - intros Hgl. rewrite (proj2 (in_states_spec _ _)) in Hin by eauto. done. }
  intros r s2 (-> & gs' & Hgs' & Hs2). change (OK <? 0) with false. simpl. apply returns_bind.
  eapply returns_mono; [apply (send_ping_ok true None _ c0 _ _ _ Hs2)|]. intros r s3 (o & Hs3 & Ho). apply returns_ret.
  split; [done|]. exists o. split; [done|]. unfold go_purpose. rewrite (proj2 (Z.eqb_neq _ _) Hne). exists gs'.
  assert (globals_of P u = filter (λ q, is_global P q = true) (states pu)) as -> by (unfold globals_of; by rewrite Hpu).
  split; [done|]. simpl. eapply sim_fixed; [exact Hs3|done..|]. destruct Hs3 as (? & _ & _ & _ & Hf). unfold fixed in *. simpl in *. congruence.
Qed.

Lemma init_profile_ok X c0 s0 π s pid id : named P id → placed π → in_place X c0 s0 π s →
  returns (init_profile P pid id) s (λ r s', match destination P pid id with
    | None => r = ERROR ∧ s' = s
    | Some (u, q) => r = OK ∧ placed (go P (Some (u, q)) π) ∧ ∃ o, (if at_purpose π =? u then o = [] else ping_out o) ∧
        in_place X c0 (put_out (out s0 ++ UiState u q :: o) s0) (go P (Some (u, q)) π) s'
    end).
Proof.
  intros Hid Hπ Hs. unfold init_profile, destination. apply returns_bind. eapply returns_mono; [apply find_purpose_ok|].
  intros u ? (-> & Eu & Hu). rewrite <-Eu. simpl. destruct (nonnull u) eqn:Hn; simpl; [|by apply returns_ret].
  destruct Hu as [->|Hu]; [done|]. destruct (purpose_ok P HP u Hu) as [Hpu _].
  apply returns_bind. eapply returns_mono; [by apply (init_purpose_ok X c0 s0 π s u id)|]. cbv zeta. intros r s1.
  set (q := lookup_state P u id). destruct (nonnull q) eqn:Hq; [|intros [-> ->]; simpl; by apply returns_ret].
  intros (-> & Hqs & Hg & Hs1). change (OK <? 0) with false. simpl. apply returns_bind, returns_gets.
  assert (placed (go_state P q π)) as Hπ1 by (apply go_state_placed; [done|by intros E0; rewrite E0 in Hq|done..]).
  destruct (in_place_fields _ _ _ _ _ Hs1) as (-> & _). assert (at_purpose (go_state P q π) = at_purpose π) as Ep by (unfold go_state; by destruct (_ =? _)).
  rewrite Ep. apply returns_bind. destruct (Z.eqb_spec (at_purpose π) u) as [E1|Hne].
  - apply returns_ret. change (OK <? 0) with false. simpl. apply returns_bind, returns_modify, returns_ret. split; [done|].
    assert (go_purpose P u (go_state P q π) = go_state P q π) as -> by (unfold go_purpose; rewrite Ep; by rewrite (proj2 (Z.eqb_eq _ _) E1)).
    split; [done|]. exists []. split; [done|]. apply (in_place_put _ _ _ _ _ u) in Hs1.
    rewrite E1 in Ep. destruct (go_state P q π) as [u' q' gs' t']. simpl in Ep, Hs1 |- *. by subst u'.
  - eapply returns_mono; [eapply (change_purpose_ok X c0); [exact Hπ1|exact Hu|by rewrite Ep|exact Hs1]|].
    intros r s2 (-> & o & Ho & Hs2). change (OK <? 0) with false. simpl. apply returns_bind, returns_modify, returns_ret.
    split; [done|]. split; [by apply go_purpose_placed|]. exists o. split; [done|]. simpl in Hs2. by rewrite <-app_assoc in Hs2.
Qed.

(** * Starting, stopping and continuing a profile *)

(** Nothing is live. *)
Definition nowhere (t : gmap Z Z) : place := Place NULL NULL [] (∅, t).

Lemma nowhere_placed t : (∀ e, is_Some (event_at P !! e) → is_Some (t !! e)) → placed (nowhere t).
Proof.
  intros Ht. split; simpl; [|done..]. intros c. rewrite lookup_empty. split; [by intros [? ?]|]. intros (q & _ & Hq & [->|Hin]); [done|set_solver].
Qed.

(** While the profile is paused its purpose and state are kept. *)
Definition halt (π : place) : place :=
  Place (at_purpose π) (at_state π) [] (leave P (at_state π) (leave_all P (at_globals π) (live π))).
Definition resume (π : place) : place :=
  Place (at_purpose π) (at_state π) (globals_of P (at_purpose π)) (enter P (at_state π) (enter_all P (globals_of P (at_purpose π)) (live π))).

(** What profile_stop leaves. *)
Record halted (π : place) : Prop := {
  halted_live : (live π).1 = ∅;
  halted_state : at_state π ≠ NULL ∧ is_Some (state_at P !! at_state π) ∧ is_global P (at_state π) = false;
  halted_globals : at_globals π = [];
  halted_purpose : at_purpose π ∈ purposes P;
  halted_orders e : is_Some (event_at P !! e) → is_Some ((live π).2 !! e);
}.

Lemma halt_halted π : placed π → at_state π ≠ NULL → at_purpose π ≠ NULL → halted (halt π).
Proof.
  intros [PL PS PG PP PO] Hs Hu. split; simpl; [|by split; [done|apply PS]|done|by apply PP|].
  2: { intros e He%PO. by apply for_state_orders, for_states_orders. }
  apply map_eq. intros c. rewrite lookup_empty, leave_lookup, leave_all_lookup by done.
  destruct (bool_decide_reflect (state_of P c = Some (at_state π))) as [|Hn]; [done|]. destruct (in_states _ c) eqn:Hin; [done|].
  destruct ((live π).1 !! c) eqn:Hc; [|done]. destruct (proj1 (PL c) ltac:(by eexists)) as (q & Hq & _ & [->|Hor]); [done|].
  rewrite (proj2 (in_states_spec _ _)) in Hin by eauto. done.
Qed.

Lemma resume_placed π : halted π → placed (resume π).
Proof.
  intros [HL (Hn & Hs & Hg) HG HU HO]. destruct (purpose_ok P HP _ HU) as [_ Hun].
  split; simpl; [|done| |done|].
  2: by rewrite (proj2 (Z.eqb_neq _ _) Hun).
  2: { intros e He%HO. by apply for_state_orders, for_states_orders. }
  intros c. rewrite enter_lookup, enter_all_lookup, HL, lookup_empty by done.
  destruct (bool_decide_reflect (state_of P c = Some (at_state π))) as [Hc|Hc].
  - destruct (state_of_at P HP c _ Hc) as [_ [conf ->]]. simpl. split; [intros _; eauto|by eexists].
  - destruct (in_states _ c) eqn:Hin.
    + apply in_states_spec in Hin as (r & Hr & Hrg). destruct (state_of_at P HP c r Hr) as [_ [conf ->]]. simpl.
      split; [|by eexists]. intros _. exists r. split_and!; [done|by eapply globals_nonnull|by right].
    + split; [by intros [? ?]|]. intros (r & Hr & _ & [->|Hor]); [done|]. rewrite (proj2 (in_states_spec _ _)) in Hin by eauto. done.
Qed.

(** Starting. *)
Lemma profile_main_ok X c0 s : global_states s = [] → (∀ e, is_Some (event_at P !! e) → is_Some (orders s !! e)) → in_place X c0 s (Place (current_purpose s) (current_state s) [] (∅, orders s)) s →
  returns (profile_main P) s (λ b s', ∃ m d, match destination P INVALID_PURPOSE INVALID_STATE with
    | None => b = false ∧ in_place X c0 (put_limits m d s) (nowhere (orders s)) s'
    | Some (u, q) => let π := go P (Some (u, q)) (nowhere (orders s)) in b = true ∧ placed π ∧
        ∃ o, ping_out o ∧ in_place X c0 (put_run ENGINE_RUNNING (put_limits m d (put_out (out s ++ UiState u q :: o) s))) π s'
    end).
Proof.
  intros Hg Hord (gs & Hgs & Hs). destruct gs; [|done]. unfold profile_main. do 3 (apply returns_bind, returns_modify).
  assert (Hs1 : in_place X c0 s (nowhere (orders s)) (put_globals [] (put_state NULL (put_purpose NULL s)))).
  { exists []. split; [done|]. eapply sim_fixed; [exact Hs|done..]. }
  apply returns_bind. eapply returns_mono; [by apply (in_place_eos _ (λ _, True)), Hs1; eauto with engine_laws|]. intros m s1 [_ Hs2].
  apply returns_bind. eapply returns_mono; [by apply (in_place_eos _ (λ _, True)), Hs2; eauto with engine_laws|]. intros d s2 [_ Hs3].
  apply returns_bind, returns_modify, returns_bind.
  assert (Hs4 : in_place X c0 (put_limits m d s) (nowhere (orders s)) (put_limits m d s2)).
  { destruct Hs3 as (gs & Hgs' & Hs3). exists gs. split; [done|]. eapply sim_fixed; [exact Hs3|done..|].
    destruct Hs3 as (? & _ & _ & _ & Hf). unfold fixed in *. simpl in *. congruence. }
  eapply returns_mono; [eapply (init_profile_ok X c0); [by left|by apply nowhere_placed|exact Hs4]|].
  intros r s3. destruct (destination P _ _) as [[u q]|] eqn:Hd.
  - intros (-> & Hπ & o & Ho & gs & Hgs' & Hs5). apply returns_bind, returns_modify, returns_ret. exists m, d.
    split_and!; [done..|]. exists o. split.
    { unfold ping_out. destruct (_ =? _); [by left|done]. }
    exists gs. split; [done|]. eapply sim_fixed; [exact Hs5|done..|]. destruct Hs5 as (? & _ & _ & _ & Hf). unfold fixed in *. simpl in *. congruence.
  - intros [-> ->]. apply returns_ret. exists m, d. by split.
Qed.

(** Stopping: every cause is uninitialised. *)
Lemma profile_stop_ok fr un X c0 s0 π s : placed π → at_state π ≠ NULL → in_place X c0 s0 π s → run_state s0 = ENGINE_RUNNING →
  returns (profile_stop P fr un) s (λ r s', r = OK ∧
    in_place X c0 (put_run (if fr : bool then ENGINE_STOPPED else ENGINE_PAUSED) s0) (halt π) s').
Proof.
  intros Hπ Hn Hs Hrun. unfold profile_stop. destruct (in_place_fields _ _ _ _ _ Hs) as (_ & _ & _ & Hr & _).
  apply returns_bind, returns_gets. rewrite Hr, Hrun. simpl. apply returns_bind.
  eapply returns_mono; [by apply (in_place_eos _ (λ _, True)), Hs; eauto with engine_laws|]. intros [] s1 [_ Hs1]. apply returns_bind.
  assert (Hun : returns (if un then _ ← eos (select_connector (-1)); mret tt else mret tt) s1 (λ _ s', in_place X c0 s0 π s')).
  { destruct un; [|by apply returns_ret]. apply returns_bind.
    eapply returns_mono; [by eapply (in_place_eos _ _ _ _ _ _ _ (select_connector_ok _)), Hs1|]. intros r s2 [_ Hs2]. by apply returns_ret. }
  eapply returns_mono; [exact Hun|]. intros [] s2 (gs & Hgs & Hs2). apply returns_bind.
  pose proof Hs2 as (? & _ & _ & _ & Hf). unfold fixed in Hf. simpl in Hf. injection Hf as _ _ Eg _ _ _ _ _ _.
  eapply returns_mono; [eapply (uninit_global_states_ok X c0); [|rewrite Eg; exact Hs2]|].
  { rewrite Eg. intros y Hy. apply (placed_globals_global π); [done|]. rewrite <-Hgs. by apply list_elem_of_fmap_2. }
  rewrite Eg, Hgs. intros [] s3 Hs3. apply returns_bind, returns_gets.
  pose proof Hs3 as (? & _ & _ & _ & Hf). unfold fixed in Hf. simpl in Hf. injection Hf as _ -> _ _ _ _ _ _ _.
  apply returns_bind. eapply returns_mono; [eapply (leave_state_ok P HP); [by apply (placed_state π Hπ)|exact Hs3]|].
  intros r s4 [_ Hs4]. apply returns_bind, returns_modify, returns_ret. split; [done|]. exists []. split; [done|].
  eapply sim_fixed; [exact Hs4|done..|]. destruct Hs4 as (? & _ & _ & _ & Hf). unfold fixed in *. simpl in *. congruence.
Qed.

(** Continuing: the kept state and the global states start afresh. *)
Lemma profile_continue_ok X c0 s0 π s : halted π → in_place X c0 s0 π s → run_state s0 = ENGINE_PAUSED →
  returns (profile_continue P) s (λ r s', r = OK ∧ in_place X c0 (put_run ENGINE_RUNNING s0) (resume π) s').
Proof.
  intros [HL (Hn & Hst & Hg) HG HU HO] Hs Hrun. unfold profile_continue. destruct (in_place_fields _ _ _ _ _ Hs) as (Hp & _ & _ & Hr & _).
  apply returns_bind, returns_gets. rewrite Hr, Hrun. simpl. apply returns_bind, returns_gets, returns_bind. rewrite Hp.
  destruct Hs as (gs & Hgs & Hs). rewrite HG in Hgs. destruct gs; [|done]. simpl in Hs.
  destruct (purpose_ok P HP _ HU) as [[pu Hpu] Hun]. unfold init_global_states. eapply returns_bind, returns_deref; [exact Hpu|].
  eapply returns_mono; [eapply (init_globals_ok X c0 _ (states pu) (live π) s); [| | |exact Hs]|].
  { intros q Hq. destruct (purpose_states P HP _ pu q Hpu Hq) as (_ & st & ? & _). by eexists. }
  { by apply (purpose_nodup P HP (at_purpose π)). }
  { intros q c _ _ _. by rewrite HL. }
  assert (globals_of P (at_purpose π) = filter (λ q, is_global P q = true) (states pu)) as Eg by (unfold globals_of; by rewrite Hpu).
  rewrite <-Eg. intros r s1 (-> & gs & Hgs' & Hs1). change (OK <? 0) with false. simpl. apply returns_bind, returns_gets.
  pose proof Hs1 as (? & _ & _ & _ & Hf). unfold fixed in Hf. simpl in Hf. injection Hf as _ -> _ _ _ _ _ _ _. apply returns_bind.
  eapply returns_mono; [eapply (enter_state_ok P HP _ _ _ _ (enter_all P (globals_of P (at_purpose π)) (live π))); [done| |exact Hs1]|].
  { intros c Hc. rewrite enter_all_lookup, HL, lookup_empty. destruct (in_states _ c) eqn:Hin; [|done].
    apply in_states_spec in Hin as (r & Hr' & [Hrg _]%globals_elem). rewrite Hc in Hr'. congruence. }
  intros r s2 [-> Hs2]. change (OK <? 0) with false. simpl. apply returns_bind, returns_modify, returns_ret. split; [done|].
  exists gs. split; [done|]. eapply sim_fixed; [exact Hs2|done..|]. destruct Hs2 as (? & _ & _ & _ & Hf2). unfold fixed in *. simpl in *. congruence.
Qed.
End Move.
