(* ===== verification/EngineSay.v ===== *)
(** What the engine reports: payloads of events and causes to the connector
    or to the log, the start of the log transfer, short messages.  Reporting
    never changes which causes are live or where the engine is.  At the
    end the limits on short messages, can_send_sms. *)

From Stdlib Require Import SpecFloat Sorted.
From stdpp Require Import functions.
From S2P Require Import Prelude Calendar CalendarThms Links Queue QueueSq Ubx UbxInv EngValue Engine EngineInv EngineCause EngineTrack EngineMove.

(** * Reports *)

Section Payload.
Context (P : ts_profile).

Definition sense_ids (cs : list Z) : list Z := (λ c, from_option (info_sId ∘ sense_info) 0 (cause_at P !! c)) <$> cs.

(** The payload is about the event [e] and lists the senses of [cs]. *)
Record payload_of (e : Z) (eventpayload : bool) (cs : list Z) (p : ts_payload) : Prop := {
  of_profile : payload_pId p = Some (pId P);
  of_event : Some (payload_evId p) = (λ ev, if eventpayload then evId ev else -1) <$> event_at P !! e;
  of_state : Some (payload_stId p) = (ev ← event_at P !! e; stId <$> state_at P !! event_state ev);
  of_purpose : Some (payload_puId p) =
    (ev ← event_at P !! e; q ← state_at P !! event_state ev; puId <$> purpose_at P !! state_purpose q);
  of_senses : (λ x, x.1.1) <$> senses p = sense_ids cs;
}.

(** What reaches the outside.  Without memory nothing does; a report that was
    sent without success, or could not be sent at all, goes to the log. *)
Definition logged (e : Z) (b : bool) (cs : list Z) (type : logtypes) (o : list eng_out) : Prop :=
  o = [] ∨ ∃ p, payload_of e b cs p ∧ o = [LogPayload p type].

Definition event_sent (e : Z) (r : Z) (o : list eng_out) : Prop :=
  (r = ERROR ∧ o = []) ∨
  ∃ p url, payload_of e true (causes_in P e) p ∧
    ((r = OK ∧ o = [Send p url e]) ∨
     (r = ERROR ∧ (o = [LogPayload p LOG_EVENTS] ∨ o = [Send p url e; LogPayload p LOG_EVENTS]))).

Definition cause_sent (c : Z) (o : list eng_out) : Prop :=
  o = [] ∨ ∃ e p url, cause_event <$> cause_at P !! c = Some e ∧ payload_of e false [c] p ∧
    (o = [Send p url c] ∨ o = [Send p url c; LogPayload p LOG_CAUSES]).

(** What an event does: log or send, transfer the log, send a message. *)
Definition event_acts (e : Z) (ev : ts_event) (o : list eng_out) : Prop :=
  ∃ o1 o2 o3, o = o1 ++ o2 ++ o3 ∧
    (if sendEvent ev || sendPush ev then ∃ r, event_sent e r o1
     else if eventLog ev then logged e true (causes_in P e) LOG_EVENTS o1 else o1 = []) ∧
    (o2 = [] ∨ sendLog ev = true ∧ ∃ b url, o2 = [LogStart b url]) ∧
    (o3 = [] ∨ ∃ n t, sms_phoneNumber ev = Some n ∧ sms_text ev = Some t ∧ o3 = [Sms n t]).
End Payload.

Section Say.
Context {E : Type} `{EngineLaws E}.
Context (P : ts_profile) (HP : profile_ok P).
Local Abbreviation st := (engine_s E).
Implicit Types (s : st).

(** [op] only reports: it leaves the engine where it is; [X] are the blocks in
    use before, [Y] after. *)
Definition same (s s' : st) : Prop := dyns s' = dyns s ∧ blocks s' = blocks s.
Definition says {A} (X : list Z) (c : Z) (op : M st A) (Y : A → list Z) (φ : A → list eng_out → Prop) : Prop :=
  ∀ s0 π s, in_place P X c s0 π s →
    returns op s (λ a s', ∃ o, φ a o ∧ same s s' ∧ in_place P (Y a) c (put_out (out s0 ++ o) s0) π s').

#[global] Instance same_preorder : PreOrder same.
Proof. split; [by intros s|]. intros s1 s2 s3 [? ?] [? ?]. split; congruence. Qed.

Lemma says_bind {A B} X c (op : M st A) (k : A → M st B) Y Z φ ψ : says X c op Y φ →
  (∀ a o, φ a o → says (Y a) c (k a) Z (λ b o', ψ b (o ++ o'))) → says X c (op ≫= k) Z ψ.
Proof.
  intros Hop Hk s0 π s Hs. apply returns_bind. eapply returns_mono; [by apply Hop|]. intros a s1 (o & Ha & He1 & Hs1).
  eapply returns_mono; [by eapply (Hk a o Ha)|]. intros b s2 (o' & Hb & He2 & Hs2). exists (o ++ o'). split_and!; [done|by etrans|].
  simpl in Hs2. by rewrite <-app_assoc in Hs2.
Qed.

Lemma says_mono {A} X c (op : M st A) Y φ ψ : says X c op Y φ → (∀ a o, φ a o → ψ a o) → says X c op Y ψ.
Proof. intros Hop Hm s0 π s Hs. eapply returns_mono; [by apply Hop|]. intros a s1 (o & Ha & Hs1). eauto 10. Qed.

Lemma put_out_same s : put_out (out s ++ []) s = s.
Proof. rewrite app_nil_r. by destruct s. Qed.

(** An operation that does not even report. *)
Lemma says_quiet {A} X c (op : M st A) Y φ :
  (∀ s0 π s, in_place P X c s0 π s → returns op s (λ a s', φ a ∧ same s s' ∧ in_place P (Y a) c s0 π s')) → says X c op Y (λ a o, o = [] ∧ φ a).
Proof.
  intros Hop s0 π s Hs. eapply returns_mono; [by apply Hop|]. intros a s' (Ha & He & Hs'). exists []. rewrite put_out_same. by split_and!.
Qed.

(** A call of the world that takes and gives blocks. *)
Lemma in_place_call {A} X Y c (op : M E A) (φ : A → Prop) s0 π s : in_place P X c s0 π s →
  (∀ Z, heap P (Z ++ X) c s → returns (eos op) s (λ a s', φ a ∧ heap P (Z ++ Y a) c s' ∧ ∃ e, s' = put_eos e s)) →
  returns (eos op) s (λ a s', φ a ∧ same s s' ∧ in_place P (Y a) c s0 π s').
Proof.
  intros (gs & Hgs & L & [T1 T2 T3] & Hh & Ho & Hfx) Hop. eapply returns_mono; [by apply Hop|].
  intros a s' (Ha & Hh' & e & ->). split_and!; [done..|]. exists gs. split; [done|]. exists L. by split_and!.
Qed.

Lemma says_ret {A} X c (a : A) (Y : A → list Z) (φ : A → list eng_out → Prop) : Y a = X → φ a [] → says X c (mret a) Y φ.
Proof. intros HY Ha s0 π s Hs. apply returns_ret. exists []. rewrite put_out_same, HY. by split_and!. Qed.

Lemma says_defined {A} X c (a : A) Y φ : Y a = X → φ a [] → says X c (defined (Some a)) Y φ.
Proof. apply says_ret. Qed.

Lemma says_conf {A} X c (o : option A) a Y φ : o = Some a → Y a = X → φ a [] → says X c (defined o) Y φ.
Proof. intros ->. apply says_ret. Qed.

Lemma says_eos {A} X c (op : M E A) φ : keeps op φ → says X c (eos op) (λ _, X) (λ a o, o = [] ∧ φ a).
Proof.
  intros Hop. apply says_quiet. intros s0 π s Hs. apply (in_place_call X); [done|]. intros Z HZ. by apply (heap_eos P op φ).
Qed.

Lemma says_put X c o : says X c (put o) (λ _, X) (λ _ o', o' = [o]).
Proof.
  intros s0 π s Hs. destruct Hs as (gs & Hgs & Hs). apply returns_modify. exists [o]. split_and!; [done..|]. exists gs. split; [done|].
  eapply sim_fixed; [exact Hs|done..|]. destruct Hs as (? & _ & _ & _ & Hf). unfold fixed in *. simpl in *. congruence.
Qed.

Lemma says_malloc X c n : 1 ≤ n < 2 ^ 31 → says X c (eos (malloc n)) (λ p, if p =? NULL then X else p :: X) (λ p o, o = [] ∧ True).
Proof.
  intros Hn. apply says_quiet. intros s0 π s Hs. eapply (in_place_call X (λ p, if p =? NULL then X else p :: X)); [done|]. intros Z HZ.
  eapply returns_mono; [by apply (heap_malloc P n (Z ++ X) c s)|]. intros p s' [Hh' He]. split_and!; [done| |done].
  destruct (p =? NULL); [done|]. eapply heap_perm; [|done]. by rewrite Permutation_middle.
Qed.

Lemma says_free X c p : says (p :: X) c (eos (free p)) (λ _, X) (λ _ o, o = [] ∧ True).
Proof.
  apply says_quiet. intros s0 π s Hs. eapply (in_place_call (p :: X) (λ _, X)); [done|]. intros Z HZ.
  eapply returns_mono; [apply (heap_free P p (Z ++ X) c s)|].
  { eapply heap_perm; [|exact HZ]. by rewrite Permutation_middle. }
  intros [] s' [Hh' He]. by split_and!.
Qed.

(** The causes of the profile all have their dyn part. *)
Lemma in_place_dyn X c0 s0 π s c conf : in_place P X c0 s0 π s → cause_at P !! c = Some conf →
  ∃ d, dyns s !! c = Some d ∧ fits P c d ∧ (c ≠ c0 → flying (sense_value d) = None).
Proof.
  intros (gs & _ & L & HT & Hh & _) Hc. destruct (cause_state_of P HP c conf Hc) as [q Hq].
  destruct (tracks_cause P _ _ _ _ HT c conf q Hc Hq) as (d & Hd & Hf & _). exists d. split_and!; [done..|].
  intros Hne. by eapply (proj1 Hh).
Qed.

Lemma says_cause_dyn {A} X c0 c conf (k : ts_cause_dyn → M st A) Y φ : cause_at P !! c = Some conf →
  (∀ d, fits P c d → says X c0 (k d) Y φ) → says X c0 (d ← cause_dyn c; k d) Y φ.
Proof.
  intros Hc Hk s0 π s Hs. destruct (in_place_dyn X c0 s0 π s c conf Hs Hc) as (d & Hd & Hf & _).
  eapply returns_bind, returns_deref; [exact Hd|]. by apply Hk.
Qed.

Lemma says_gets {A B} X c0 (f : st → A) (k : A → M st B) Y φ : (∀ a, says X c0 (k a) Y φ) → says X c0 (a ← gets f; k a) Y φ.
Proof. intros Hk s0 π s Hs. apply returns_bind, returns_gets. by apply Hk. Qed.

(** * Payloads *)

Lemma says_extramem X c0 c conf : cause_at P !! c = Some conf →
  says X c0 (sense_value_extramem c) (λ _, X) (λ n o, o = [] ∧ 0 ≤ n ≤ 16000).
Proof.
  intros Hc. unfold sense_value_extramem. apply (says_cause_dyn _ _ c conf); [done|]. intros d Hf.
  destruct (Hf conf Hc) as [[_ Hs] _]. apply says_ret; [done|]. split; [done|].
  destruct (sense_value d) as [| | | | |[str|]|n p|]; simpl in Hs |- *; try lia.
  - assert (0 ≤ zlength str) by (unfold zlength; lia). mod_lia.
  - destruct (nonnull p); [|lia]. rewrite u32_small by (unfold SIZEOF_VALUE; lia). unfold SIZEOF_VALUE. lia.
Qed.

Lemma says_copy X c0 c conf : cause_at P !! c = Some conf →
  says X c0 (sense_value_copy c) (λ _, X) (λ r o, o = [] ∧ r.1.1 = info_sId (sense_info conf)).
Proof.
  intros Hc. apply says_quiet. intros s0 π s Hs. destruct (in_place_dyn X c0 s0 π s c conf Hs Hc) as (d & Hd & Hf & Hq).
  destruct (Hf conf Hc) as [_ Hid]. unfold sense_value_copy. eapply returns_bind, returns_deref; [exact Hd|].
  assert (Hplain : ∀ v : payload_value, returns (mret (sId d, v, sense_ts d)) s
    (λ r s', r.1.1 = info_sId (sense_info conf) ∧ same s s' ∧ in_place P X c0 s0 π s')) by (intros v; by apply returns_ret).
  destruct (sense_value d) as [| | | | | |n p|] eqn:Ev; try (apply returns_bind, returns_ret, Hplain).
  destruct (nonnull p) eqn:Hp; simpl; [|apply returns_bind, returns_ret, Hplain].
  destruct (negb _); [|apply returns_bind, returns_ret, Hplain].
  assert (c = c0) as -> by (destruct (decide (c = c0)) as [|Hne]; [done|]; specialize (Hq Hne); simpl in Hq; by rewrite Hp in Hq).
  pose proof Hs as (gs & _ & L & _ & [_ Hh] & _). rewrite Hd in Hh. simpl in Hh. rewrite Ev in Hh. simpl in Hh. rewrite Hp in Hh.
  destruct Hh as (l & -> & _ & Hb & _). apply returns_bind. eapply returns_bind, returns_deref; [by rewrite Hb, lookup_insert_eq|].
  apply returns_bind, returns_assert; [lia|]. apply returns_ret, Hplain.
Qed.

Lemma says_collect {A} X c0 (f : Z → M st A) (φ : Z → A → Prop) l :
  (∀ c, c ∈ l → says X c0 (f c) (λ _, X) (λ a o, o = [] ∧ φ c a)) →
  says X c0 (collect f l) (λ _, X) (λ r o, o = [] ∧ Forall2 φ l r).
Proof.
  induction l as [|c l IH]; intros Hf; simpl; [apply says_ret; [done|]; by split|].
  eapply says_bind; [apply Hf; by left|]. intros a o [-> Ha]. eapply says_bind; [apply IH; intros x Hx; apply Hf; by right|].
  intros r o [-> Hr]. apply says_ret; [done|]. split; [done|]. by constructor.
Qed.

Lemma sum_extra n l r : Forall2 (λ (_ : Z) x, 0 ≤ x ≤ n) l r → 0 ≤ sum_list_Z r ≤ n * zlength l.
Proof.
  unfold zlength. induction 1; [simpl; lia|]. rewrite length_cons, Nat2Z.inj_succ, Z.mul_succ_r. unfold sum_list_Z in *. simpl. lia.
Qed.

Lemma says_generate X c0 e ev b number cs : event_at P !! e = Some ev → zlength cs ≤ number ≤ 1000 →
  (∀ c, c ∈ cs → is_Some (cause_at P !! c)) →
  says X c0 (generate_payload P e b number cs) (λ r, match r with Some (_, a) => a :: X | None => X end)
    (λ r o, o = [] ∧ match r with Some (p, _) => payload_of P e b cs p | None => True end).
Proof.
  intros He Hn Hcs. destruct (event_ok P HP e ev He) as (stq & Hq & _). destruct (state_ok P HP _ _ Hq) as [pu Hu].
  unfold generate_payload. eapply says_bind; [by eapply (says_conf _ _ _ ev _ (λ a o, o = [] ∧ a = ev))|]. intros ? ? [-> ->].
  intros s0 π s Hs. apply returns_bind, returns_assert; [lia|]. revert s0 π s Hs.
  eapply says_bind; [eapply (says_collect _ _ _ (λ _ x, 0 ≤ x ≤ 16000))|].
  { intros c [conf Hc]%Hcs. by apply (says_extramem _ _ _ conf). }
  intros extra o [-> Hx%sum_extra]. eapply says_bind; [by eapply (says_conf _ _ _ stq _ (λ a o, o = [] ∧ a = stq))|]. intros ? ? [-> ->].
  eapply says_bind; [by eapply (says_conf _ _ _ pu _ (λ a o, o = [] ∧ a = pu))|]. intros ? ? [-> ->].
  assert (0 ≤ zlength cs) by (unfold zlength; lia). eapply says_bind; [apply says_malloc|].
  { unfold SIZEOF_SENSE_VALUE, SIZEOF_PAYLOAD. rewrite u32_small; lia. }
  intros p o [-> _]. unfold nonnull. destruct (p =? NULL); [by apply says_ret|]. simpl.
  eapply says_bind; [by apply says_eos, clock_get_ok|]. intros now o [-> _].
  eapply says_bind; [eapply (says_collect _ _ _ (λ c (r : Z * payload_value * timespec), r.1.1 = from_option (info_sId ∘ sense_info) 0 (cause_at P !! c)))|].
  { intros c [conf Hc]%Hcs. rewrite Hc. by apply (says_copy _ _ _ conf). }
  intros vs o [-> Hvs]. apply says_ret; [done|]. split; [done|]. split; simpl; rewrite ?He; simpl; rewrite ?Hq; simpl; rewrite ?Hu; [done..|].
  unfold sense_ids. clear -Hvs. induction Hvs as [|? ? ? ? E1 _ IH]; [done|]. rewrite !fmap_cons. by rewrite IH, E1.
Qed.

Lemma says_event_payload X c0 e ev : event_at P !! e = Some ev → says X c0 (generate_event_payload P e)
  (λ r, match r with Some (_, a) => a :: X | None => X end)
  (λ r o, o = [] ∧ match r with Some (p, _) => payload_of P e true (causes_in P e) p | None => True end).
Proof.
  intros He. unfold generate_event_payload. eapply says_bind; [by eapply (says_conf _ _ _ ev _ (λ a o, o = [] ∧ a = ev))|]. intros ? ? [-> ->].
  assert (causes_in P e = causes ev) as -> by (unfold causes_in; by rewrite He).
  destruct (event_number P HP e ev He) as [-> ?]. apply says_generate with (ev := ev); [done|lia|].
  intros c Hc. destruct (event_causes P HP e ev c He Hc) as (conf & -> & _). by eexists.
Qed.

Lemma says_cause_payload X c0 c conf : cause_at P !! c = Some conf → says X c0 (generate_cause_payload P c)
  (λ r, match r with Some (_, a) => a :: X | None => X end)
  (λ r o, o = [] ∧ match r with Some (p, _) => payload_of P (cause_event conf) false [c] p | None => True end).
Proof.
  intros Hc. unfold generate_cause_payload. eapply says_bind; [by eapply (says_conf _ _ _ conf _ (λ a o, o = [] ∧ a = conf))|]. intros ? ? [-> ->].
  destruct (cause_ok P HP c conf Hc) as (ev & He & _). apply says_generate with (ev := ev); [done|by vm_compute|].
  intros x ->%list_elem_of_singleton. by eexists.
Qed.

Lemma says_log X c0 p type : says X c0 (log_to p type) (λ _, X) (λ _ o, o = [LogPayload p type]).
Proof.
  unfold log_to. eapply says_bind; [apply says_put|]. intros [] o ->. eapply says_mono; [apply says_eos, log_payload_ok|]. by intros [] o [-> _].
Qed.

Lemma says_send X c0 p url priv : says X c0 (send_to p url priv) (λ _, X) (λ _ o, o = [Send p url priv]).
Proof.
  unfold send_to. eapply says_bind; [apply says_put|]. intros [] o ->. eapply says_mono; [apply says_eos, connector_send_ok|]. by intros r o [-> _].
Qed.

Lemma says_log_event X c0 e ev : event_at P !! e = Some ev →
  says X c0 (log_event P e) (λ _, X) (λ _ o, logged P e true (causes_in P e) LOG_EVENTS o).
Proof.
  intros He. unfold log_event. eapply says_bind; [by apply says_event_payload with (ev := ev)|].
  intros [[p a]|] o [-> Hp]; [|apply says_ret; [done|by left]]. eapply says_bind; [apply says_log|]. intros [] o ->.
  eapply says_mono; [apply says_free|]. intros [] o [-> _]. right. eauto.
Qed.

Lemma says_log_cause X c0 c conf : cause_at P !! c = Some conf →
  says X c0 (log_cause P c) (λ _, X) (λ _ o, logged P (cause_event conf) false [c] LOG_CAUSES o).
Proof.
  intros Hc. unfold log_cause. eapply says_bind; [by apply says_cause_payload with (conf := conf)|].
  intros [[p a]|] o [-> Hp]; [|apply says_ret; [done|by left]]. eapply says_bind; [apply says_log|]. intros [] o ->.
  eapply says_mono; [apply says_free|]. intros [] o [-> _]. right. eauto.
Qed.

Lemma says_url X c0 e ev : event_at P !! e = Some ev → says X c0 (url_of P e) (λ _, X) (λ _ o, o = [] ∧ True).
Proof.
  intros He. unfold url_of. eapply says_bind; [by eapply (says_conf _ _ _ ev _ (λ a o, o = [] ∧ a = ev))|]. intros ? ? [-> ->]. by apply says_ret.
Qed.

Lemma says_ts_engine_send X c0 p url priv : says X c0 (ts_engine_send p url priv) (λ _, X) (λ r o,
  (r = ERROR ∧ o = []) ∨ ∃ url, (r = OK ∨ r = ERROR) ∧ o = [Send p url priv]).
Proof.
  unfold ts_engine_send. eapply says_bind; [apply says_eos, select_connector_ok|]. intros [ret con] o [-> [Hcon _]]. simpl in *.
  destruct (Z.ltb_spec ret 0); [apply says_ret; [done|by left]|]. destruct (Hcon ltac:(lia)) as [con' ->].
  eapply says_bind; [by eapply (says_conf _ _ _ con' _ (λ a o, o = [] ∧ a = con'))|]. intros ? ? [-> ->].
  destruct (con_send con'); [|apply says_ret; [done|by left]]. eapply says_bind; [apply says_send|]. intros r o ->.
  apply says_ret; [done|]. right. eexists. split; [|done]. destruct (r =? OK); auto.
Qed.

(** An event that cannot be sent is logged. *)
Lemma says_send_event X c0 e ev : event_at P !! e = Some ev →
  says X c0 (send_event P e) (λ _, X) (λ r o, event_sent P e r o).
Proof.
  intros He. unfold send_event. eapply says_bind; [by apply says_event_payload with (ev := ev)|].
  intros [[p a]|] o [-> Hp]; [|apply says_ret; [done|by left]]. eapply says_bind; [by eapply says_url|]. intros url o [-> _].
  eapply says_bind; [apply says_ts_engine_send|]. intros r o Ho. simpl.
  assert (Hdone : ∀ r' o', ((r' = OK ∧ ∃ url, o' = [Send p url e]) ∨ (r' = ERROR ∧ (o' = [LogPayload p LOG_EVENTS] ∨ ∃ url, o' = [Send p url e; LogPayload p LOG_EVENTS]))) → event_sent P e r' o').
  { intros r' o' Hr'. right. exists p. destruct Hr' as [[-> [u ->]]|[-> [->|[u ->]]]]; [exists u|exists None|exists u]; eauto 10. }
  eapply says_bind with (Y := λ _, a :: X) (φ := λ r' o', event_sent P e r' (o ++ o')).
  - destruct Ho as [[-> ->]|(u & Hr & ->)].
    + change (ERROR <? 0) with true. simpl. eapply says_bind; [apply says_log|]. intros [] o ->. apply says_ret; [done|]. apply Hdone. eauto.
    + destruct Hr as [->| ->]; [change (OK <? 0) with false|change (ERROR <? 0) with true]; simpl.
      * apply says_ret; [done|]. apply Hdone. eauto.
      * eapply says_bind; [apply says_log|]. intros [] o ->. apply says_ret; [done|]. apply Hdone. eauto 10.
  - intros r' o' Hr'. eapply says_bind; [apply says_free|]. intros [] o'' [-> _]. apply says_ret; [done|]. rewrite !app_nil_r. simpl. done.
Qed.

Lemma says_send_cause X c0 c conf : cause_at P !! c = Some conf →
  says X c0 (send_cause P c) (λ _, X) (λ _ o, cause_sent P c o).
Proof.
  intros Hc. unfold send_cause. eapply says_bind; [apply says_eos, select_connector_ok|]. intros [ret con] o [-> [Hcon _]]. simpl in *.
  destruct (Z.eqb_spec ret OK) as [->|]; [|apply says_ret; [done|by left]]. destruct (Hcon ltac:(done)) as [con' ->].
  eapply says_bind; [by eapply (says_conf _ _ _ con' _ (λ a o, o = [] ∧ a = con'))|]. intros ? ? [-> ->].
  destruct (con_send con'); [|apply says_ret; [done|by left]].
  eapply says_bind; [by apply says_cause_payload with (conf := conf)|].
  intros [[p a]|] o [-> Hp]; [|apply says_ret; [done|by left]].
  eapply says_bind; [by eapply (says_conf _ _ _ conf _ (λ a o, o = [] ∧ a = conf))|]. intros ? ? [-> ->].
  destruct (cause_ok P HP c conf Hc) as (ev & He & _). eapply says_bind; [by eapply says_url|]. intros url o [-> _].
  eapply says_bind; [apply says_send|]. intros r o ->. simpl.
  assert (Hdone : ∀ o' url, (o' = [Send p url c] ∨ o' = [Send p url c; LogPayload p LOG_CAUSES]) → cause_sent P c o').
  { intros o' u Ho'. right. exists (cause_event conf), p, u. rewrite Hc. done. }
  eapply says_bind with (Y := λ _, a :: X) (φ := λ _ o', cause_sent P c ([Send p (if con_send_url con' then url else None) c] ++ o')).
  - destruct (r =? OK); [apply says_ret; [done|]; eapply Hdone; eauto|].
    eapply says_bind; [apply says_log|]. intros [] o ->. apply says_ret; [done|]. eapply Hdone; eauto.
  - intros r' o' Hr'. eapply says_bind; [apply says_free|]. intros [] o'' [-> _]. apply says_ret; [done|]. rewrite !app_nil_r. done.
Qed.

(** The log is only transferred to a connector, which there must be. *)
Lemma says_send_log X c0 url : connected = true → says X c0 (send_log url) (λ _, X) (λ _ o, o = [] ∨ ∃ b, o = [LogStart b url]).
Proof.
  intros Hconn. unfold send_log. eapply says_bind; [apply says_eos, have_logs_ok|]. intros b o [-> _].
  destruct b; simpl; [|apply says_ret; [done|by left]]. eapply says_bind; [apply says_eos, select_connector_ok|].
  intros [ret con] o [-> [_ Hcon]]. simpl in *. destruct (Hcon Hconn) as [con' ->].
  eapply says_bind; [by eapply (says_conf _ _ _ con' _ (λ a o, o = [] ∧ a = con'))|]. intros ? ? [-> ->].
  eapply says_bind; [apply says_put|]. intros [] o ->. eapply says_mono; [apply says_eos, log_start_ok|]. intros [] o [-> _]. right. eauto.
Qed.

Lemma says_gmtime X c0 t : 0 ≤ t < 2 ^ 32 → says X c0 (defined (gmtime_r t)) (λ _, X) (λ _ o, o = [] ∧ True).
Proof. intros Ht. destruct (gmtime_total t Ht) as (tp & -> & _). by apply says_defined. Qed.

Lemma says_can_send X c0 : says X c0 can_send_sms (λ _, X) (λ _ o, o = [] ∧ True).
Proof.
  unfold can_send_sms. apply says_gets. intros m. apply says_gets. intros d.
  do 2 (eapply says_bind; [apply says_eos, rtc_read_value_ok|]; intros ? ? [-> ?]).
  eapply says_bind; [apply says_eos, clock_get_ok|]. intros [r now] o (-> & Hr & Hn & _). simpl in Hn.
  destruct (_ <=? _); [|by apply says_ret]. do 2 (eapply says_bind; [by apply says_gmtime|]; intros ? ? [-> _]).
  destruct (_ <? _); [|by apply says_ret].
  do 2 (eapply says_bind; [apply says_eos, rtc_save_value_ok|]; intros ? ? [-> _]). by apply says_ret.
Qed.

Lemma says_send_sms X c0 n t : says X c0 (send_sms n t) (λ _, X) (λ _ o, o = [] ∨ o = [Sms n t]).
Proof.
  unfold send_sms. eapply says_bind; [apply says_can_send|]. intros b o [-> _]. destruct b; simpl; [|apply says_ret; auto].
  eapply says_bind; [apply says_eos, conman_init_ok|]. intros r o [-> _]. destruct (r =? OK); simpl; [|apply says_ret; auto].
  eapply says_bind; [apply says_put|]. intros [] o ->. eapply says_bind; [apply says_eos, conman_send_sms_ok|]. intros [] o [-> _].
  eapply says_mono; [apply says_eos, conman_uninit_ok|]. intros [] o [-> _]. by right.
Qed.

Lemma says_actions X c0 e ev : event_at P !! e = Some ev → (sendLog ev = true → connected = true) →
  says X c0 (do_event_actions P e) (λ _, X) (λ _ o, event_acts P e ev o).
Proof.
  intros He Hlog. unfold do_event_actions. eapply says_bind; [by eapply (says_conf _ _ _ ev _ (λ a o, o = [] ∧ a = ev))|]. intros ? ? [-> ->].
  eapply says_bind with (Y := λ _, X) (φ := λ _ o, if sendEvent ev || sendPush ev then o = [] else if eventLog ev then logged P e true (causes_in P e) LOG_EVENTS o else o = []).
  { destruct (sendEvent ev), (sendPush ev), (eventLog ev); simpl; try (by apply says_ret). by eapply says_log_event. }
  intros [] o1 Ho1. eapply says_bind with (Y := λ _, X) (φ := λ _ o, if sendEvent ev || sendPush ev then ∃ r, event_sent P e r o else o = []).
  { destruct (sendEvent ev || sendPush ev); [|by apply says_ret]. eapply says_bind; [by eapply says_send_event|].
    intros r o Ho. apply says_ret; [done|]. rewrite app_nil_r. by exists r. }
  intros [] o2 Ho2. eapply says_bind with (Y := λ _, X) (φ := λ _ o, o = [] ∨ sendLog ev = true ∧ ∃ b url, o = [LogStart b url]).
  { destruct (sendLog ev); [|apply says_ret; auto]. eapply says_bind; [by eapply says_url|]. intros url o [-> _].
    eapply says_mono; [by apply says_send_log, Hlog|]. intros [] o [->|[b ->]]; [by left|right]. eauto. }
  intros [] o3 Ho3. eapply says_mono with (φ := λ _ o, o = [] ∨ ∃ n t, sms_phoneNumber ev = Some n ∧ sms_text ev = Some t ∧ o = [Sms n t]).
  { destruct (sms_phoneNumber ev) as [n|], (sms_text ev) as [t|]; try (apply says_ret; auto).
    eapply says_mono; [apply says_send_sms|]. intros [] o [->| ->]; [by left|right]. eauto. }
  intros [] o4 Ho4. exists (o1 ++ o2), o3, o4. rewrite <-!app_assoc. split_and!; [done| |done|done].
  destruct (sendEvent ev || sendPush ev); [by rewrite Ho1|]. rewrite Ho2, app_nil_r. done.
Qed.
End Say.

(** * The limits on short messages: the backup registers of the clock, which survive a
    reset, hold how many messages were sent on the day of the last one, and when
    that was *)

Definition day_of (t : Z) : Z := t / SEC_PER_DAY.

(** The times for which gmtime_r gives the date. *)
Definition dated (t : Z) : Prop := 0 ≤ t < 48213 * SEC_PER_DAY.

Lemma gmtime_same_day a b ta tb : dated a → dated b → gmtime_r a = Some ta → gmtime_r b = Some tb →
  are_dates_on_same_day ta tb = (day_of a =? day_of b).
Proof.
  unfold dated, day_of. intros Ha Hb. rewrite !gmtime_eq by (unfold SEC_PER_DAY in *; lia).
  destruct (calendar2utc_utc2calendar (a / SEC_PER_DAY)) as (y & m & d & Eya & Ea); [unfold SEC_PER_DAY in *; mod_lia|].
  destruct (calendar2utc_utc2calendar (b / SEC_PER_DAY)) as (y' & m' & d' & Eyb & Eb); [unfold SEC_PER_DAY in *; mod_lia|].
  rewrite Eya, Eyb. simpl. intros [= <-] [= <-]. unfold are_dates_on_same_day. simpl. apply eq_bool_prop_intro.
  rewrite !andb_True, !Is_true_true, !Z.eqb_eq. split.
  - intros [[Hd Hm] Hy]. assert (d = d' ∧ m = m' ∧ y = y') as (-> & -> & ->) by lia. rewrite Ea in Eb. injection Eb as Eb.
    unfold recovered_day, SEC_PER_DAY in *. destruct (Z.leb_spec 47847 (a / 86400)), (Z.leb_spec (a / 86400) 48212),
      (Z.leb_spec 47847 (b / 86400)), (Z.leb_spec (b / 86400) 48212); simpl in Eb; mod_lia.
  - intros E. rewrite E, Eyb in Eya. injection Eya as -> -> ->. lia.
Qed.

(** What the limiter relies on: the registers keep what was saved, the clock
    gives the time. *)
Class RegisterLaws (E : Type) `{EngineOs E} := {
  registers : E → Z * Z;
  the_time : E → Z;
  read_law e i : 0 ≤ i ≤ 1 → returns (rtc_read_value i) e (λ v e',
    v = (if i =? 0 then (registers e).1 else (registers e).2) ∧ registers e' = registers e ∧ the_time e' = the_time e);
  save_law e v i : 0 ≤ i ≤ 1 → 0 ≤ v < 2 ^ 32 → returns (rtc_save_value v i) e (λ _ e',
    registers e' = (if i =? 0 then (v, (registers e).2) else ((registers e).1, v)) ∧ the_time e' = the_time e);
  time_law e : returns (clock_get CLOCK_REALTIME) e (λ r e',
    r.2.1 = the_time e ∧ registers e' = registers e ∧ the_time e' = the_time e);
}.

Section Limits.
Context {E : Type} `{RegisterLaws E}.
Implicit Types (s : engine_s E).

(** Whether a message may be sent at [now], and the registers afterwards. *)
Definition sms_allowed (gap max count last now : Z) : bool :=
  (gap <=? now - last) && ((if day_of last =? day_of now then count else 0) <? max).
Definition sms_counted (count last now : Z) : Z := (if day_of last =? day_of now then count else 0) + 1.

Record sms_ready s : Prop := {
  ready_interval : 0 ≤ min_interval_minutes s * 60 < 2 ^ 31;
  ready_max : 0 ≤ max_per_day s < 2 ^ 31;
  ready_time : dated (the_time (e_os s));
  ready_last : 0 ≤ (registers (e_os s)).2 ≤ the_time (e_os s);
  ready_count : 0 ≤ (registers (e_os s)).1 < 2 ^ 32;
}.

Lemma can_send_spec s : sms_ready s → let now := the_time (e_os s) in let '(count, last) := registers (e_os s) in
  returns can_send_sms s (λ b s', b = sms_allowed (min_interval_minutes s * 60) (max_per_day s) count last now ∧ 
    ∃ e, s' = put_eos e s ∧ the_time e = now ∧
      registers e = if b then (sms_counted count last now, now) else (count, last)).
Proof.
  intros [Hi Hm Ht Hl Hc]. destruct (registers (e_os s)) as [count last] eqn:Er. simpl in Hl, Hc. cbv zeta.
  set (now := the_time (e_os s)) in *. assert (Hlast : dated last) by (unfold dated in *; lia).
  assert (Hnow32 : now < 2 ^ 32) by (unfold dated, SEC_PER_DAY in Ht; lia).
  unfold can_send_sms. do 2 (apply returns_bind, returns_gets). apply returns_bind. unfold eos at 1. apply returns_zoom.
  eapply returns_mono; [by apply read_law|]. intros v e1 (-> & R1 & T1). rewrite Er in R1 |- *. simpl. apply returns_bind. unfold eos at 1. apply returns_zoom.
  eapply returns_mono; [by apply read_law|]. intros v e2 (-> & R2 & T2). simpl in R2, T2 |- *. rewrite R1 in R2 |- *. simpl. apply returns_bind.
  unfold eos at 1. apply returns_zoom. eapply returns_mono; [by apply time_law|]. intros [r t] e3 (Et & R3 & T3). simpl in *.
  assert (Et' : t.1 = now) by (by rewrite Et, T2, T1). rewrite ?Et'. rewrite (u32_small (_ * 60)), s32_small, !u32_small by lia. unfold sms_allowed.
  destruct (Z.leb_spec (min_interval_minutes s * 60) (now - last)); simpl.
  2: { apply returns_ret. split; [done|]. exists e3. split_and!; [done|by rewrite T3, T2, T1|by rewrite R3, R2]. }
  destruct (gmtime_total now) as (tn & En & _); [unfold dated in Ht; lia|]. destruct (gmtime_total last) as (tl & El & _); [lia|].
  rewrite En, El. do 2 (apply returns_bind, returns_ret). rewrite (gmtime_same_day last now tl tn) by done.
  set (c := if day_of last =? day_of now then count else 0). assert (0 ≤ c < 2 ^ 32) by (subst c; destruct (_ =? _); lia).
  destruct (Z.ltb_spec c (max_per_day s)).
  - rewrite (u32_small (c + 1)) by lia. apply returns_bind. unfold eos at 1. apply returns_zoom. eapply returns_mono; [apply save_law; lia|].
    intros [] e4 [R4 T4]. simpl in R4, T4. apply returns_bind. unfold eos at 1. apply returns_zoom. eapply returns_mono; [apply save_law; lia|].
    intros [] e5 [R5 T5]. simpl in R5, T5. apply returns_ret. split; [done|]. exists e5. split_and!; [done|by rewrite T5, T4, T3, T2, T1|].
    rewrite R5, R4. done.
  - apply returns_ret. split; [done|]. exists e3. split_and!; [done|by rewrite T3, T2, T1|by rewrite R3, R2].
Qed.

(** Time passes, and messages are to be sent; the list has the times at which
    sending was allowed. *)
Inductive sms_run s : list Z → engine_s E → Prop :=
| sms_run_start : sms_run s [] s
| sms_run_elapse l s1 e : sms_run s l s1 → registers e = registers (e_os s1) → the_time (e_os s1) ≤ the_time e → dated (the_time e) →
    sms_run s l (put_eos e s1)
| sms_run_try l s1 b s2 : sms_run s l s1 → can_send_sms s1 = Done (b, s2) →
    sms_run s (if b : bool then l ++ [the_time (e_os s1)] else l) s2.

Definition sent_on (d : Z) (l : list Z) : Z := Z.of_nat (length (filter (λ t, day_of t = d) l)).

(** What the registers know about the past. *)
Record sms_inv s (l : list Z) s' : Prop := {
  inv_ready : sms_ready s';
  inv_limits : min_interval_minutes s' = min_interval_minutes s ∧ max_per_day s' = max_per_day s;
  inv_days d : sent_on d l ≤ max_per_day s;
  inv_today : sent_on (day_of (registers (e_os s')).2) l ≤ (registers (e_os s')).1;
  inv_past t : t ∈ l → t ≤ (registers (e_os s')).2;
  inv_gaps : StronglySorted (λ a b, a + min_interval_minutes s * 60 ≤ b) l;
}.

Lemma sent_on_snoc d l t : sent_on d (l ++ [t]) = sent_on d l + if day_of t =? d then 1 else 0.
Proof.
  unfold sent_on. rewrite filter_app, length_app. destruct (Z.eqb_spec (day_of t) d).
  - rewrite filter_cons_True by done. simpl. lia.
  - rewrite filter_cons_False by done. simpl. lia.
Qed.

Lemma sent_on_later d l last : (∀ t, t ∈ l → t ≤ last) → day_of last < d → sent_on d l = 0.
Proof.
  intros Hl Hd. induction l as [|t l IH] using rev_ind; [done|]. rewrite sent_on_snoc, IH by set_solver.
  destruct (Z.eqb_spec (day_of t) d) as [E1|]; [|lia]. assert (t ≤ last) by set_solver. assert (day_of t ≤ day_of last); [|lia].
  unfold day_of, SEC_PER_DAY. by apply Z.div_le_mono.
Qed.

Lemma gap_snoc gap l t : StronglySorted (λ a b, a + gap ≤ b) l → (∀ a, a ∈ l → a + gap ≤ t) → StronglySorted (λ a b, a + gap ≤ b) (l ++ [t]).
Proof.
  induction 1 as [|a l Hs IH Ha]; intros Hl; simpl; [by repeat constructor|]. constructor; [apply IH; set_solver|].
  apply Forall_app. split; [done|]. constructor; [apply Hl; by left|constructor].
Qed.

Lemma sms_run_inv s l s' : sms_ready s → sms_run s l s' → sms_inv s l s'.
Proof.
  intros Hr. induction 1 as [|l s1 e _ [Ir Il Id It Ip Ig] He Hle Hd|l s1 b s2 _ [Ir [Il1 Il2] Id It Ip Ig] Htry].
  - split; [done|done| | |set_solver|constructor]; intros; unfold sent_on; simpl; destruct Hr; lia.
  - split; [|done|done|simpl; by rewrite He|simpl; by rewrite He|done]. destruct Ir. split; simpl; [done|done|done| |]; rewrite He; lia.
  - pose proof (can_send_spec s1 Ir) as Hs. cbv zeta in Hs. set (now := the_time (e_os s1)) in *.
    destruct (registers (e_os s1)) as [count last] eqn:Er. unfold returns in Hs. rewrite Htry in Hs. simpl in It, Ip.
    destruct Hs as (Hb & e & -> & Et & Ee). destruct Ir as [R1 R2 R3 R4 R5]. rewrite Er in R4, R5. fold now in R3, R4. simpl in R4, R5.
    destruct b; simpl in Ee.
    2: { split; [split; simpl; rewrite ?Ee, ?Et; done|done|done|simpl; by rewrite Ee|simpl; by rewrite Ee|done]. }
    symmetry in Hb. unfold sms_allowed in Hb. rewrite andb_true_iff, Z.leb_le, Z.ltb_lt, Il1, Il2 in Hb. destruct Hb as [Hgap Hmax].
    assert (Hnew : sent_on (day_of now) l + 1 ≤ sms_counted count last now ∧ sms_counted count last now ≤ max_per_day s ∧ 0 ≤ sms_counted count last now).
    { unfold sms_counted. destruct (Z.eqb_spec (day_of last) (day_of now)) as [E1|Hne]; [rewrite <-E1; lia|].
      rewrite (sent_on_later _ l last); [lia|done|]. assert (day_of last ≤ day_of now); [|lia].
      unfold day_of, SEC_PER_DAY. apply Z.div_le_mono; lia. }
    split.
    + split; simpl; rewrite ?Ee, ?Et; simpl; [done|done|done| |]; unfold dated in R3; lia.
    + done.
    + intros d. rewrite sent_on_snoc. destruct (Z.eqb_spec (day_of now) d) as [<-|]; [lia|]. specialize (Id d). lia.
    + simpl. rewrite Ee, sent_on_snoc, Z.eqb_refl. simpl. lia.
    + simpl. rewrite Ee. simpl. intros t [Ht| ->%list_elem_of_singleton]%elem_of_app; [specialize (Ip t Ht); lia|lia].
    + apply gap_snoc; [done|]. intros a Ha. specialize (Ip a Ha). lia.
Qed.
End Limits.
