(* ===== verification/EngineSpec.v ===== *)
(** One measured value: what it means for its cause, for the event and for
    where the engine goes, as the specification has it. *)

From Stdlib Require Import SpecFloat.
From stdpp Require Import functions.
From S2P Require Import Prelude EngValue Engine EngineInv EngineCause EngineTrack EngineMove.

(** * Do the thresholds hold? *)

Section Judge.
Context (bias : bias_t).

(** One threshold: the array and the value behind it, and the answer.  A
    geofence takes memory ([m]: there is some), frees the array of a position
    that it has checked, and turns the value into the answer. *)
Definition judge (m : bool) (B : gmap Z (list ts_value)) (thr : ts_threshold) (v : ts_value) :
    option (gmap Z (list ts_value) * ts_value * bool) :=
  if thr_geofence thr then
    match thr_value thr, v with
    | VALUEARRAY n _, VALUEARRAY 7 p =>
        if negb (Z.even n) || (2 ^ 20 <? n) then None
        else if n `quot` 2 <? 3 then Some (B, v, false)
        else if negb m then Some (B, v, false)
        else if negb (nonnull p) then None
        else
          '(_, items) ← valuearray B (thr_value thr);
          poly ← polygon_of (Z.to_nat (n `quot` 2)) items;
          items ← B !! p;
          x ← items !! 0%nat ≫= valuedouble;
          y ← items !! 1%nat ≫= valuedouble;
          let b := point_in_polygon (x, y) poly in
          Some (delete p B, VALUEBOOL b, b)
    | _, _ => None
    end
  else b ← check_plain_threshold B thr bias v; Some (B, v, b).

Fixpoint verdict (ms : list bool) (B : gmap Z (list ts_value)) (l : list ts_threshold) (v : ts_value) (ret : bool) :
    option (gmap Z (list ts_value) * ts_value * bool) :=
  match l, ms with
  | [], _ => Some (B, v, ret)
  | thr :: l, m :: ms =>
      match judge m B thr v with
      | Some (B, v, b) => verdict ms B l v (b && ret)
      | None => None
      end
  | _, _ => None
  end.

(** Everything that is computed on the way is defined, with and without memory. *)
Definition judgeable (B : gmap Z (list ts_value)) (l : list ts_threshold) (v : ts_value) : Prop :=
  ∀ ms ret, length ms = length l → is_Some (verdict ms B l v ret).

Lemma judgeable_cons B thr l v : judgeable B (thr :: l) v →
  ∀ m, ∃ B' v' b, judge m B thr v = Some (B', v', b) ∧ judgeable B' l v'.
Proof.
  intros Hj m. destruct (judge m B thr v) as [[[B' v'] b]|] eqn:Ej.
  - exists B', v', b. split; [done|]. intros ms ret Hms.
    assert (Hr : is_Some (verdict ms B' l v' (b && ret))).
    { destruct (Hj (m :: ms) ret) as [x Hx]; [simpl; congruence|]. simpl in Hx. rewrite Ej in Hx. by eexists. }
    destruct b; [done|]. clear -Hr. revert B' v' ms Hr. assert (Hgen : ∀ l ms B v r r', is_Some (verdict ms B l v r) → is_Some (verdict ms B l v r')).
    { clear. induction l as [|t l IH]; intros [|m ms] B v r r'; simpl; [by eexists|by eexists|done|].
      destruct (judge m B t v) as [[[??]?]|]; [by apply IH|done]. }
    intros B' v' ms Hr. by eapply Hgen.
  - destruct (Hj (m :: replicate (length l) true) true) as [x Hx]; [simpl; by rewrite length_replicate|].
    simpl in Hx. by rewrite Ej in Hx.
Qed.
End Judge.

(** * What the value does *)

Section React.
Context (P : ts_profile).

(** The value decides by the thresholds, and not as zero point or as one of a
    limited number of measurements. *)
Definition decides (conf : ts_cause) (w : cause_state) : bool :=
  bool_decide (is_Some (zero_point w)) && (left w <=? 0) && negb (bool_decide (thresholds conf = [])).
Definition set_hit (b : bool) (w : cause_state) : cause_state := CauseState (left w) (zero_point w) (streak w) b.

(** The first value of a relative cause is its zero point.  A limited number
    of measurements is counted down, and the last one triggers.  Otherwise the
    thresholds must hold, as many values in a row as configured; a cause of an
    ordered event must also be the next, and one that is out of its limits or
    out of order starts the event anew. *)
Definition observe (c : Z) (conf : ts_cause) (w : cause_state) (v : ts_value) (holds : bool) (t : tracking) : bool * tracking :=
  let e := cause_event conf in
  let now w := (<[c:=w]> t.1, t.2) in
  match zero_point w with
  | None => (false, now (CauseState (left w) (Some v) (streak w) (hit w)))
  | Some z =>
      if 0 <? left w then (left w - 1 =? 0, now (CauseState (left w - 1) (Some z) (streak w) (hit w)))
      else if bool_decide (thresholds conf = []) then (false, t)
      else if Bool.eqb (threshold_negate conf) holds then
        (false, if orderId conf =? 0 then now (CauseState (left w) (Some z) 0 (hit w)) else for_event P (rearm_cause P) e t)
      else
        let w' := CauseState (left w) (Some z) (streak w + 1) (hit w) in
        if streak w + 1 <? threshold_count conf then (false, now w')
        else if orderId conf =? 0 then (true, now w')
        else if bool_decide (t.2 !! e = Some (orderId conf)) then (true, (<[c:=w']> t.1, <[e:=orderId conf + 1]> t.2))
        else (false, for_event P (rearm_cause P) e (now w'))
  end.

Definition mark (c : Z) (b : bool) (t : tracking) : tracking := (alter (set_hit b) c t.1, t.2).
Definition all_hit (e : Z) (W : watches) : bool := forallb (λ c, from_option hit false (W !! c)) (causes_in P e).
Definition track (t : tracking) (π : place) : place := Place (at_purpose π) (at_state π) (at_globals π) t.

(** Where an event leads: to another purpose, to another state of this one, or
    nowhere, and then its causes are rearmed. *)
Definition leads (ev : ts_event) (π : place) : option (Z * Z) :=
  let pu := from_option puId INVALID_PURPOSE (purpose_at P !! at_purpose π) in
  let stid := from_option stId INVALID_STATE (state_at P !! at_state π) in
  if negb (gotoPuId ev =? -1) && negb (pu =? gotoPuId ev) then Some (gotoPuId ev, gotoStId ev)
  else if negb (gotoStId ev =? -1) && negb (gotoStId ev =? stid) then Some (pu, gotoStId ev)
  else None.
Definition fire (e : Z) (ev : ts_event) (π : place) : bool * place :=
  match leads ev π with
  | Some (pu, stid) => (true, go P (destination P pu stid) π)
  | None => (false, track (for_event P (rearm_cause P) e (live π)) π)
  end.

Definition react (c : Z) (conf : ts_cause) (ev : ts_event) (w : cause_state) (v : ts_value) (holds : bool) (π : place) : bool * place :=
  let '(b, t) := observe c conf w v holds (live π) in
  let π := track (mark c b t) π in
  if b && all_hit (cause_event conf) (live π).1 then fire (cause_event conf) ev π else (false, π).
(** Observing keeps which causes are live, and the orders. *)
Lemma rearm_event_dom e t x : is_Some ((for_event P (rearm_cause P) e t).1 !! x) ↔ is_Some (t.1 !! x).
Proof.
  unfold for_event. simpl. generalize (causes_in P e). intros l. generalize t.1. clear t. induction l as [|c l IH]; intros W; [done|].
  change (for_causes _ (c :: l) W) with (for_causes (rearm_cause P) l (rearm_cause P c W)). rewrite IH, rearm_cause_lookup.
  destruct (bool_decide _); [|done]. destruct (W !! x); [|destruct (cause_at P !! x); simpl; done].
  destruct (cause_at P !! x); simpl; by split; eexists.
Qed.

Lemma insert_dom (W : watches) c w w' x : W !! c = Some w → is_Some (<[c:=w']> W !! x) ↔ is_Some (W !! x).
Proof. intros Hw. rewrite lookup_insert_is_Some'. split; [intros [<-|]; [by eexists|done]|by right]. Qed.

Lemma observe_dom c conf w v h t x : t.1 !! c = Some w → is_Some ((observe c conf w v h t).2.1 !! x) ↔ is_Some (t.1 !! x).
Proof.
  intros Hw. unfold observe. repeat case_match; cbn [fst snd]; rewrite ?rearm_event_dom; cbn [fst snd]; by rewrite ?(insert_dom _ _ _ _ _ Hw).
Qed.

Lemma rearm_event_orders e t x : is_Some (t.2 !! x) → is_Some ((for_event P (rearm_cause P) e t).2 !! x).
Proof. intros Hx. simpl. apply lookup_insert_is_Some'. by right. Qed.

Lemma observe_orders c conf w v h t x : is_Some (t.2 !! x) → is_Some ((observe c conf w v h t).2.2 !! x).
Proof.
  intros Hx. unfold observe. repeat case_match; try by apply rearm_event_orders.
  all: try done. simpl. apply lookup_insert_is_Some'. by right.
Qed.

Lemma placed_track π t : placed P π → (∀ x, is_Some (t.1 !! x) ↔ is_Some ((live π).1 !! x)) →
  (∀ e, is_Some ((live π).2 !! e) → is_Some (t.2 !! e)) → placed P (track t π).
Proof.
  intros [PL PS PG PP PO] Hd Ho. split; simpl; [|done..|by auto]. intros c. by rewrite Hd, PL.
Qed.
End React.

(** * What the thresholds do not depend on *)

Lemma check_scalar_inactive B thr b b' v : check_scalar_threshold B thr (Bias false b) v = check_scalar_threshold B thr (Bias false b') v.
Proof. by destruct v. Qed.

Lemma check_items_inactive B thr b b' stop n items ret :
  check_items B thr (Bias false b) stop n items ret = check_items B thr (Bias false b') stop n items ret.
Proof.
  revert items ret. induction n as [|n IH]; intros items ret; [done|]. simpl. destruct (is_array _); [done|]. destruct items as [|i items]; [done|].
  rewrite (check_scalar_inactive B thr b b'). destruct (if Bool.eqb ret stop then _ else _); [apply IH|done].
Qed.

(** The value of the bias only counts when there is one. *)
Lemma judge_inactive b b' m B thr v : judge (Bias false b) m B thr v = judge (Bias false b') m B thr v.
Proof.
  unfold judge, check_plain_threshold. destruct (thr_geofence thr); [done|]. rewrite (check_scalar_inactive B thr b b').
  destruct (is_array v); [|done]. destruct (thr_type thr); try done; destruct (valuearray B (thr_value thr)) as [[n items]|]; try done; simpl;
    by rewrite (check_items_inactive B thr b b').
Qed.

Lemma verdict_inactive b b' ms B l v ret : verdict (Bias false b) ms B l v ret = verdict (Bias false b') ms B l v ret.
Proof.
  revert ms B v ret. induction l as [|thr l IH]; intros [|m ms] B v ret; try done. simpl. rewrite (judge_inactive b b').
  destruct (judge _ m B thr v) as [[[??]?]|]; [apply IH|done].
Qed.

(** What the thresholds compare: the difference to the zero point of a
    relative cause. *)
Definition bias_of (conf : ts_cause) (w : cause_state) : bias_t :=
  Bias (is_active_relative_cause conf) (default (VALUEBOOL false) (zero_point w)).

Lemma bias_of_rel conf d w z ms B l v ret : rel conf d w → zero_point w = Some z →
  verdict (Bias (is_active_relative_cause conf) (sense_bias d)) ms B l v ret = verdict (bias_of conf w) ms B l v ret.
Proof.
  intros Hr Hz. unfold bias_of. pose proof (rel_bias _ _ _ Hr) as Hb. rewrite Hz in Hb |- *. simpl. destruct Hb as [_ Hb]. destruct (is_active_relative_cause conf) eqn:Ea.
  - by rewrite Hb.
  - apply verdict_inactive.
Qed.
