(* ===== verification/EngineReact.v ===== *)
(** The steps of the code for one measured value: checking it against the
    thresholds, the causes of an event together, and what an event does when
    it fires, each following the specification. *)

From Stdlib Require Import SpecFloat.
From stdpp Require Import functions.
From S2P Require Import Prelude Links Queue QueueSq Ubx UbxInv EngValue Engine EngineInv EngineCause EngineTrack EngineMove EngineSay EngineSpec.

Section Steps.
Context {E : Type} `{EngineLaws E}.
Context (P : ts_profile) (HP : profile_ok P).
Local Abbreviation st := (engine_s E).
Implicit Types (s : st).

(** * A cause that stays on its queue *)

Lemma in_place_heap X c s0 π s : in_place P X c s0 π s → heap P ((global_states s).*1 ++ X) c s.
Proof.
  intros (gs & _ & L & _ & Hh & _ & Hf). unfold fixed in Hf. simpl in Hf. by injection Hf as _ _ -> _ _ _ _ _ _.
Qed.

(** The cause [c] goes from [w] to [w'] and keeps its place. *)
Lemma in_place_cause X c s0 π s s' conf d' w w' : in_place P X c s0 π s → cause_at P !! c = Some conf →
  (live π).1 !! c = Some w → left w ≠ 0 → left w' ≠ 0 → rel conf d' w' → fits P c d' →
  dyns s' = <[c:=d']> (dyns s) → rest s' = rest s → links s' = links s → heap P ((global_states s).*1 ++ X) c s' →
  in_place P X c s0 (track (<[c:=w']> (live π).1, (live π).2) π) s'.
Proof.
  intros (gs & Hgs & L & HT & Hh & Ho & Hf) Hc Hw Hl Hl' Hr Hfit Hd Hrest Hlinks Hh'. exists gs. split; [done|].
  assert (global_states s = gs) as Eg by (unfold fixed in Hf; simpl in Hf; congruence). rewrite Eg in Hh'.
  destruct (cause_state_of P HP c conf Hc) as [q Hq].
  destruct (rest_split s s' Hrest) as [Ho' Hf']. exists L. simpl. split_and!; [|done|congruence|by rewrite Hf'].
  eapply (tracks_step P None (gs.*1 ++ X) c c conf q s s' _ _ L L d'); [exact HT| |done..| | | |]; simpl.
  - split; [done|done| |exact Hh']. rewrite Hlinks. apply HT.
  - rewrite lookup_insert_eq. destruct (tracks_cause P _ _ _ _ HT c conf q Hc Hq) as (d & _ & _ & Hst).
    unfold stands in Hst. rewrite Hw in Hst. destruct Hst as (_ & Hin & _). split_and!; [done| |done].
    intros Hp. rewrite Hin by done. by split.
  - intros x Hx. by rewrite lookup_insert_ne.
  - done.
  - apply HT.
Qed.

(** Updating fields of the cause that the array does not depend on. *)
Lemma in_place_set X c s0 π s conf d f w w' : in_place P X c s0 π s → cause_at P !! c = Some conf → dyns s !! c = Some d →
  (live π).1 !! c = Some w → left w ≠ 0 → left w' ≠ 0 → rel conf (f d) w' → fits P c (f d) →
  flying (sense_value (f d)) = flying (sense_value d) →
  returns (set_cause c f) s (λ _ s', dyns s' = <[c:=f d]> (dyns s) ∧ blocks s' = blocks s ∧
    in_place P X c s0 (track (<[c:=w']> (live π).1, (live π).2) π) s').
Proof.
  intros Hs Hc Hd Hw Hl Hl' Hr Hfit Hfl. eapply returns_set_cause; [done|]. split_and!; [done..|].
  eapply in_place_cause; [done..| |done|done|]; [done|]. eapply heap_dyn; [by eapply in_place_heap|done|done].
Qed.

Lemma track_same π w c : (live π).1 !! c = Some w → track (<[c:=w]> (live π).1, (live π).2) π = π.
Proof. intros Hw. unfold track. rewrite insert_id by done. by destruct π as [? ? ? []]. Qed.

(** A value that is no array arrives at a live cause. *)
Lemma arrive_ok X c s0 π s conf d w v : in_place P X c s0 π s → cause_at P !! c = Some conf → dyns s !! c = Some d →
  (live π).1 !! c = Some w → left w ≠ 0 → typed conf v → flying v = None → flying (sense_value d) = None →
  returns (set_cause c (set_value v)) s (λ _ s', dyns s' = <[c:=set_value v d]> (dyns s) ∧ blocks s' = blocks s ∧ in_place P X c s0 π s').
Proof.
  intros Hs Hc Hd Hw Hl Ht Hv Hfl.
  pose proof Hs as (gs & _ & L & HT & _). destruct (cause_state_of P HP c conf Hc) as [q Hq].
  destruct (tracks_cause P _ _ _ _ HT c conf q Hc Hq) as (d' & Hd' & Hfit & Hst). rewrite Hd in Hd'. injection Hd' as <-.
  unfold stands in Hst. rewrite Hw in Hst. destruct Hst as ([] & _). eapply returns_mono.
  { eapply (in_place_set X c s0 π s conf d (set_value v) w w); [done..|by split| |simpl; congruence].
    intros conf' Hc'. rewrite Hc in Hc'. injection Hc' as <-. split; [done|]. by apply Hfit. }
  intros [] s' (? & ? & Hs'). rewrite (track_same π w c Hw) in Hs'. by split_and!.
Qed.

Lemma in_place_live X c0 c s0 π s conf w : in_place P X c0 s0 π s → cause_at P !! c = Some conf → (live π).1 !! c = Some w →
  ∃ d, dyns s !! c = Some d ∧ fits P c d ∧ rel conf d w.
Proof.
  intros (gs & _ & L & HT & _) Hc Hw. destruct (cause_state_of P HP c conf Hc) as [q Hq].
  destruct (tracks_cause P _ _ _ _ HT c conf q Hc Hq) as (d & Hd & Hfit & Hst). unfold stands in Hst. rewrite Hw in Hst.
  destruct Hst as (? & _). eauto.
Qed.

Lemma in_place_quiet X c c' s0 π s : in_place P X c s0 π s → (∀ d, dyns s !! c = Some d → flying (sense_value d) = None) →
  in_place P X c' s0 π s.
Proof. intros (gs & Hgs & L & HT & Hh & Ho & Hf) Hq. exists gs. split; [done|]. exists L. split_and!; [done| |done..]. by eapply heap_quiet. Qed.

(** * Thresholds *)

#[local] Arguments valuearray : simpl never.

Lemma heap_blocks X c d s n p : heap P X c s → dyns s !! c = Some d → sense_value d = VALUEARRAY n p → nonnull p = true →
  delete p (blocks s) = threshold_items P.
Proof.
  intros [_ Hh] Hd Hv Hp. rewrite Hd in Hh. simpl in Hh. rewrite Hv in Hh. simpl in Hh. rewrite Hp in Hh.
  destruct Hh as (l & _ & Ht & -> & _). by rewrite delete_insert_id.
Qed.

Lemma heap_no_array X c d s : heap P X c s → dyns s !! c = Some d → flying (sense_value d) = None → blocks s = threshold_items P.
Proof. intros [_ Hh] Hd Hf. rewrite Hd in Hh. simpl in Hh. rewrite Hf in Hh. by destruct Hh. Qed.

(** What a geofence leaves: memory given back, and the value. *)
Lemma check_geofence_heap X c d thr s bias : heap P X c s → dyns s !! c = Some d → thr_geofence thr = true →
  (∀ m, is_Some (judge bias m (blocks s) thr (sense_value d))) →
  returns (check_geofence c thr) s (λ b s', ∃ m B' v', judge bias m (blocks s) thr (sense_value d) = Some (B', v', b) ∧
    (v' = sense_value d ∨ v' = VALUEBOOL b) ∧ blocks s' = B' ∧ dyns s' = <[c:=set_value v' d]> (dyns s) ∧
    rest s' = rest s ∧ links s' = links s ∧ heap P X c s').
Proof.
  intros Hh Hd Hg Hj. unfold check_geofence. eapply returns_bind, returns_deref; [exact Hd|].
  pose proof (Hj false) as [r1 Hj1]. pose proof (Hj true) as [r2 Hj2]. clear Hj. unfold judge in *. rewrite Hg in *.
  destruct (thr_value thr) as [| | | | | |n q|] eqn:Et; try done.
  destruct (sense_value d) as [| | | | | |k p|] eqn:Ev; try done.
  destruct k as [|k|k]; try done. repeat (destruct k as [k|k|]; try done).
  destruct (Z.even n) eqn:Heven; [|done]. simpl in Hj1, Hj2. apply returns_bind, returns_assert; [done|].
  destruct (Z.ltb_spec (2 ^ 20) n); [done|]. destruct (Z.ltb_spec (n `quot` 2) 3) as [Hpt|Hpt].
  { apply returns_ret. injection Hj1 as <-. exists true, (blocks s), (VALUEARRAY 7 p). split_and!; [done|by left|done| |done..].
    rewrite <-Ev. rewrite insert_id; [done|]. by destruct d. }
  apply returns_bind. assert (n `quot` 2 ≤ 2 ^ 20) by (apply Z.quot_le_upper_bound; lia).
  eapply returns_mono; [apply (heap_malloc P _ X c s); [|done]|]. { unfold SIZEOF_POLY, SIZEOF_POINT. rewrite u32_small; lia. }
  intros a s1 (Hh1 & e1 & ->). unfold nonnull at 1. destruct (a =? NULL) eqn:Ea; simpl.
  { apply returns_ret. injection Hj1 as <-. exists false, (blocks s), (VALUEARRAY 7 p). split_and!; [done|by left|done| |done..].
    rewrite <-Ev. rewrite insert_id; [done|]. by destruct d. }
  simpl in Hj2. destruct (nonnull p) eqn:Hp; [|by simpl in Hj2]. simpl in Hj2. apply returns_bind, returns_gets. simpl.
  change (valuearray (blocks s) (VALUEARRAY 7 p)) with (items ← blocks s !! p; Some (7%nat, items)).
  destruct (valuearray (blocks s) (VALUEARRAY n q)) as [[k items]|] eqn:Eva; [|by simpl in Hj2]. simpl in Hj2. apply returns_bind, returns_ret.
  destruct (polygon_of _ items) as [poly|] eqn:Ep; [|by simpl in Hj2]. simpl in Hj2. apply returns_bind, returns_ret. simpl.
  destruct (blocks s !! p) as [pos|] eqn:Epos; [|by simpl in Hj2]. simpl in Hj2. apply returns_bind, returns_ret.
  destruct (pos !! 0%nat ≫= valuedouble) as [x|] eqn:Ex; [|by simpl in Hj2]. simpl in Hj2. apply returns_bind, returns_ret.
  destruct (pos !! 1%nat ≫= valuedouble) as [y|] eqn:Ey; [|by simpl in Hj2]. simpl in Hj2. apply returns_bind, returns_ret, returns_bind.
  eapply returns_mono; [by apply (heap_free P a X c)|]. intros [] s2 (Hh2 & e2 & ->). apply returns_bind.
  eapply returns_mono; [by apply (free_valuearray_ok P X c c d)|]. intros [] s3 (Hh3 & Hr3 & Hl3 & d' & Hd3 & Hf3 & v & -> & _).
  apply returns_bind. assert (Hd3' : dyns s3 !! c = Some (set_value v d)) by (by rewrite Hd3, lookup_insert_eq).
  eapply returns_set_cause; [done|]. apply returns_ret. exists true, (delete p (blocks s)), (VALUEBOOL (point_in_polygon (x, y) poly)).
  split_and!; [|by right| | |done|done|].
  - simpl. rewrite Ep. simpl. rewrite ?Epos. simpl. rewrite ?Ex. simpl. by rewrite Ey.
  - rewrite (heap_blocks X c d s 7 p) by done. simpl. eapply heap_no_array; [done..|]. done.
  - simpl. rewrite Hd3. simpl. by rewrite insert_insert_eq.
  - eapply heap_dyn; [done|done|]. simpl in Hf3 |- *. by rewrite Hf3.
Qed.

(** One threshold of a live cause. *)
Lemma check_threshold_ok X c s0 π s conf d w thr : in_place P X c s0 π s → cause_at P !! c = Some conf → thr ∈ thresholds conf →
  (live π).1 !! c = Some w → left w ≠ 0 → dyns s !! c = Some d → let bias := Bias (is_active_relative_cause conf) (sense_bias d) in
  (∀ m, is_Some (judge bias m (blocks s) thr (sense_value d))) →
  returns (check_threshold P c thr) s (λ b s', ∃ m B' v', judge bias m (blocks s) thr (sense_value d) = Some (B', v', b) ∧
    blocks s' = B' ∧ dyns s' = <[c:=set_value v' d]> (dyns s) ∧ in_place P X c s0 π s').
Proof.
  intros Hs Hc Hthr Hw Hl Hd bias Hj. unfold check_threshold. destruct (thr_geofence thr) eqn:Hg.
  - eapply returns_mono; [by eapply check_geofence_heap; [by eapply in_place_heap|..]|].
    intros b s' (m & B' & v' & Hm & Hv' & Hb & Hds & Hr & Hl' & Hh'). exists m, B', v'. split_and!; [done..|].
    rewrite <-(track_same π w c Hw). destruct (in_place_live X c c s0 π s conf w Hs Hc Hw) as (d1 & Hd1 & Hfit & Hrel).
    rewrite Hd in Hd1. injection Hd1 as <-. eapply in_place_cause; [done..| | |done|done|done|done]; [by destruct Hrel|].
    intros conf' Hc'. destruct (Hfit conf' Hc') as [Ht Hid]. split; [|done]. simpl. destruct Hv' as [->| ->]; [done|].
    unfold typed. rewrite (cause_geofence P HP c conf' thr) by congruence. by split; [eexists|].
  - eapply returns_bind, returns_deref; [exact Hc|]. eapply returns_bind, returns_deref; [exact Hd|]. apply returns_bind, returns_gets.
    destruct (Hj true) as [[[B' v'] b] Hjt]. unfold judge in Hjt. rewrite Hg in Hjt. fold bias.
    destruct (check_plain_threshold (blocks s) thr bias (sense_value d)) as [b'|] eqn:Ec; [|done]. simpl in Hjt. injection Hjt as <- <- <-.
    apply returns_ret. exists true, (blocks s), (sense_value d). split_and!; [unfold judge; by rewrite Hg, Ec|done| |done].
    rewrite insert_id; [done|]. by destruct d.
Qed.

Lemma check_all_ok X c s0 π conf w l : ∀ s d ret, in_place P X c s0 π s → cause_at P !! c = Some conf → l ⊆ thresholds conf →
  (live π).1 !! c = Some w → left w ≠ 0 → dyns s !! c = Some d → let bias := Bias (is_active_relative_cause conf) (sense_bias d) in
  judgeable bias (blocks s) l (sense_value d) →
  returns (check_all P c l ret) s (λ b s', ∃ ms B' v', length ms = length l ∧ verdict bias ms (blocks s) l (sense_value d) ret = Some (B', v', b) ∧
    blocks s' = B' ∧ dyns s' = <[c:=set_value v' d]> (dyns s) ∧ in_place P X c s0 π s').
Proof.
  induction l as [|thr l IH]; intros s d ret Hs Hc Hl Hw Hlw Hd bias Hj; simpl.
  - apply returns_ret. exists [], (blocks s), (sense_value d). split_and!; [done..| |done]. rewrite insert_id; [done|]. by destruct d.
  - apply returns_bind. eapply returns_mono; [apply (check_threshold_ok X c s0 π s conf d w thr); [done|done|apply Hl; by left|done..|]|].
    { intros m. destruct (judgeable_cons _ _ _ _ _ Hj m) as (? & ? & ? & Hm & _). by eexists. }
    intros b s1 (m & B' & v' & Hm & Hb & Hds & Hs1). subst B'.
    destruct (judgeable_cons _ _ _ _ _ Hj m) as (B2 & v2 & b2 & Hm2 & Hj2). fold bias in Hm. rewrite Hm in Hm2. injection Hm2 as <- <- <-.
    eapply returns_mono; [apply (IH s1 (set_value v' d)); [done|done|set_solver|done|done|by rewrite Hds, lookup_insert_eq|done]|].
    intros b1 s2 (ms & B'' & v'' & Hlen & Hv & Hb2 & Hd2 & Hs2). exists (m :: ms), B'', v''. split_and!; [simpl; congruence| |done| |done].
    + cbn [verdict]. rewrite Hm. exact Hv.
    + rewrite Hd2, Hds, insert_insert_eq. done.
Qed.

(** * Rearming, and a cause that stops *)

Lemma in_place_rearm X c s0 π s e : in_place P X c s0 π s → is_Some (event_at P !! e) →
  (∀ x, x ∈ causes_in P e → is_Some ((live π).1 !! x)) →
  returns (init_event P (reinit_cause P) e) s (λ _ s', in_place P X c s0 (track (for_event P (rearm_cause P) e (live π)) π) s').
Proof.
  intros (gs & Hgs & Hs) He Hl. eapply returns_mono; [by eapply (rearm_event_ok P HP (gs.*1 ++ X) c _ e (live π))|].
  intros r s' [_ Hs']. exists gs. by split.
Qed.

Lemma event_live π c conf x : placed P π → cause_at P !! c = Some conf → is_Some ((live π).1 !! c) →
  x ∈ causes_in P (cause_event conf) → is_Some ((live π).1 !! x).
Proof.
  intros Hπ Hc Hl (xconf & Hx & Ex)%(elem_of_causes_in P HP). apply (placed_live P π Hπ) in Hl as (q & Hq & Hn & Hor).
  apply (placed_live P π Hπ). exists q. split_and!; [|done..]. unfold state_of in *. rewrite Hx, Hc in *. simpl in *. by rewrite Ex.
Qed.

Lemma event_of_cause c conf : cause_at P !! c = Some conf → is_Some (event_at P !! cause_event conf).
Proof. intros Hc. destruct (cause_ok P HP c conf Hc) as (ev & -> & _). by eexists. Qed.

(** The last of a limited number of measurements. *)
Lemma retire_ok X c s0 π s conf d w w' : in_place P X c s0 π s → cause_at P !! c = Some conf → dyns s !! c = Some d →
  (live π).1 !! c = Some w → left w ≠ 0 → left w' = 0 → rel conf (set_measurement_counter 0 d) w' →
  returns (set_cause c (set_measurement_counter 0);; uninit_cause P c) s (λ r s', r = OK ∧
    in_place P X c s0 (track (<[c:=w']> (live π).1, (live π).2) π) s').
Proof.
  intros (gs & Hgs & L & HT & Hh & Ho & Hf) Hc Hd Hw Hl Hl' Hr. destruct (cause_state_of P HP c conf Hc) as [q Hq].
  destruct (tracks_cause P _ _ _ _ HT c conf q Hc Hq) as (d1 & Hd1 & Hfit & Hst). rewrite Hd in Hd1. injection Hd1 as <-.
  unfold stands in Hst. rewrite Hw in Hst. destruct Hst as (_ & Hin & _). specialize (Hin ltac:(done)).
  apply returns_bind. eapply returns_set_cause; [done|]. eapply returns_mono.
  { eapply (uninit_cause_ok P HP (gs.*1 ++ X) c c conf q (set_measurement_counter 0 d)); [done|done|simpl; by rewrite lookup_insert_eq| | |apply HT|].
    - intros conf' Hc'. by apply Hfit.
    - left. by apply Hin.
    - eapply heap_dyn; [done|done|done]. }
  intros r s' (-> & v & t & f & Hs' & Ht & Hfd & [Hfl Hfit']). split; [done|].
  destruct (rest_split _ _ (stepped_rest P _ _ _ _ _ _ _ Hs')) as [Ho' Hf']. exists gs. split; [done|].
  exists (<[q:=filter (λ x, x ≠ c) (L q)]> L). split_and!; [|apply Hs'|rewrite Ho'; exact Ho|rewrite Hf'; exact Hf].
  eapply (tracks_step P None (gs.*1 ++ X) c c conf q s s'); [exact HT| |done|done| | | | |done].
  - destruct Hs' as [Hd' Hrest' HQ' Hh']. split; [|exact Hrest'|exact HQ'|exact Hh']. rewrite Hd'. simpl. by rewrite insert_insert_eq.
  - exact Hfit'.
  - simpl. rewrite lookup_insert_eq. split_and!; [by destruct Hr| |].
    + intros _. rewrite fn_lookup_insert, list_elem_of_filter. naive_solver.
    + intros _. split; [by split|]. exact Hfl.
  - intros x Hx. simpl. by rewrite lookup_insert_ne.
  - intros x r Hx. by apply filtered_elem.
Qed.

(** A counter of the cause changes. *)
Lemma count_ok X c s0 π s conf d w w' f : in_place P X c s0 π s → cause_at P !! c = Some conf → dyns s !! c = Some d →
  (live π).1 !! c = Some w → left w ≠ 0 → left w' ≠ 0 → rel conf (f d) w' → sense_value (f d) = sense_value d → sId (f d) = sId d →
  returns (set_cause c f) s (λ _ s', dyns s' = <[c:=f d]> (dyns s) ∧ blocks s' = blocks s ∧
    in_place P X c s0 (track (<[c:=w']> (live π).1, (live π).2) π) s').
Proof.
  intros Hs Hc Hd Hw Hl Hl' Hr Hv Hid. eapply in_place_set; [done..| |by rewrite Hv].
  destruct (in_place_live X c c s0 π s conf w Hs Hc Hw) as (d1 & Hd1 & Hfit & _). rewrite Hd in Hd1. injection Hd1 as <-.
  intros conf' Hc'. rewrite Hv, Hid. by apply Hfit.
Qed.

Lemma counter_after_next n k : 0 ≤ k →
  (if 0 <? counter_after n k then counter_after n k - 1 else counter_after n k) = counter_after n (k + 1) ∧
  (0 <? counter_after n k) && (0 <? (if 0 <? counter_after n k then counter_after n k - 1 else counter_after n k)) = (k + 1 <? n).
Proof.
  intros Hk. unfold counter_after. destruct (Z.leb_spec n 0).
  - rewrite (proj2 (Z.ltb_ge 0 n)) by lia. split; [done|]. symmetry. apply Z.ltb_ge. lia.
  - destruct (Z.ltb_spec 0 (Z.max 0 (n - k))); simpl; (split; [lia|]).
    + apply eq_bool_prop_intro. rewrite !Is_true_true, !Z.ltb_lt. lia.
    + symmetry. apply Z.ltb_ge. lia.
Qed.

Lemma returns_assoc {A B C} (m : M st A) (f : A → M st B) (g : B → M st C) s (Q : C → st → Prop) :
  returns ((m ≫= f) ≫= g) s Q → returns (m ≫= λ x, f x ≫= g) s Q.
Proof. unfold returns, mbind, M_bind. by destruct (m s) as [[]| |]. Qed.

(** What check_thresholds leaves: the answer of the specification. *)
Definition observed X c s0 π s conf w v (b : bool) s' : Prop := ∃ h, 
  (decides conf w = true → ∃ ms B' v', length ms = length (thresholds conf) ∧
     verdict (bias_of conf w) ms (blocks s) (thresholds conf) v true = Some (B', v', h)) ∧
  let '(b', t') := observe P c conf w v h (live π) in b = b' ∧ in_place P X c s0 (track t' π) s'.

(** The thresholds hold or not. *)
Lemma settle_ok X c s0 π s conf w d z (ret : bool) : placed P π → in_place P X c s0 π s → cause_at P !! c = Some conf →
  dyns s !! c = Some d → (live π).1 !! c = Some w → left w < 0 → zero_point w = Some z → thresholds conf ≠ [] → ∀ v,
  let e := cause_event conf in
  returns (if negb (if threshold_negate conf then negb ret else ret) then
      (if negb (orderId conf =? 0) then _ ← init_event P (reinit_cause P) e; mret tt
       else set_cause c (set_threshold_counter (threshold_count conf)));;
      mret false
    else
      d ← cause_dyn c;
      let counter := if 0 <? threshold_counter d then threshold_counter d - 1 else threshold_counter d in
      set_cause c (set_threshold_counter counter);;
      if (0 <? threshold_counter d) && (0 <? counter) then mret false
      else if negb (orderId conf =? 0) then
        n ← expected_order_id e;
        if negb (orderId conf =? n) then _ ← init_event P (reinit_cause P) e; mret false
        else set_expected_order_id e (n + 1);; mret true
      else mret true) s
    (λ b s', let '(b', t') := observe P c conf w v ret (live π) in b = b' ∧ in_place P X c s0 (track t' π) s').
Proof.
  intros Hπ Hs Hc Hd Hw Hl Hz Hthr v e. destruct (in_place_live X c c s0 π s conf w Hs Hc Hw) as (d1 & Hd1 & Hfit & Hr).
  rewrite Hd in Hd1. injection Hd1 as <-. pose proof (event_of_cause c conf Hc) as He.
  assert (Hel : ∀ x, x ∈ causes_in P e → is_Some ((live π).1 !! x)) by (intros x; apply (event_live π c conf); [done..|by eexists]).
  unfold observe. rewrite Hz, (proj2 (Z.ltb_ge 0 (left w))), (bool_decide_false _ Hthr) by lia.
  assert ((if threshold_negate conf then negb ret else ret) = negb (Bool.eqb (threshold_negate conf) ret)) as -> by (by destruct (threshold_negate conf), ret).
  rewrite negb_involutive. destruct (Bool.eqb _ _); cbv beta iota zeta.
  - destruct (orderId conf =? 0); simpl; apply returns_bind.
    + eapply returns_mono; [eapply (count_ok X c s0 π s conf d w (CauseState (left w) (Some z) 0 (hit w))); [done|done|done|done|lia|simpl; lia| |done|done]|].
      { pose proof (rel_bias _ _ _ Hr) as Hb. rewrite Hz in Hb. destruct Hr. split; simpl; [done..|by rewrite counter_after_0|lia|done]. }
      intros [] s1 (_ & _ & Hs1). by apply returns_ret.
    + apply returns_bind. eapply returns_mono; [by apply in_place_rearm|]. intros r s1 Hs1. apply returns_ret. by apply returns_ret.
  - eapply returns_bind, returns_deref; [exact Hd|]. apply returns_bind.
    destruct (counter_after_next (threshold_count conf) (streak w) (rel_pos _ _ _ Hr)) as [En Et]. rewrite (rel_streak _ _ _ Hr), En.
    set (w' := CauseState (left w) (Some z) (streak w + 1) (hit w)).
    eapply returns_mono; [eapply (count_ok X c s0 π s conf d w w'); [done|done|done|done|lia|simpl; lia| |done|done]|].
    { pose proof (rel_bias _ _ _ Hr) as Hb. rewrite Hz in Hb. destruct Hr. split; simpl; [done|done|done|lia|done]. }
    intros [] s1 (Hd1 & _ & Hs1). rewrite En in Et. rewrite Et. destruct (_ <? threshold_count conf); [by apply returns_ret|].
    destruct (Z.eqb_spec (orderId conf) 0); simpl; [by apply returns_ret|].
    destruct (placed_orders P π Hπ e He) as [ord Hn]. assert (Ho1 : orders s1 = (live π).2) by (by destruct Hs1 as (? & _ & ? & _ & _ & -> & _)).
    eapply returns_bind, returns_deref; [rewrite Ho1; exact Hn|]. fold e. rewrite Hn. destruct (Z.eqb_spec (orderId conf) ord) as [<-|Hne]; simpl.
    + rewrite bool_decide_true by done. apply returns_bind, returns_modify, returns_ret. split; [done|].
      destruct Hs1 as (gs & Hgs & L & [T1 T2 T3] & Hh & Ho & Hf). exists gs. split; [done|]. exists L. split_and!; [by split|done| |done].
      simpl. by rewrite Ho.
    + rewrite bool_decide_false by congruence. apply returns_bind.
      eapply returns_mono; [apply (in_place_rearm X c s0 _ s1 e Hs1 He)|].
      { intros x Hx. simpl. rewrite (insert_dom _ _ _ _ _ Hw). by apply Hel. }
      intros r s2 Hs2. by apply returns_ret.
Qed.

(** The whole of check_thresholds. *)
Lemma check_thresholds_ok X c s0 π s conf w d : placed P π → in_place P X c s0 π s → cause_at P !! c = Some conf →
  dyns s !! c = Some d → (live π).1 !! c = Some w → left w ≠ 0 →
  (decides conf w = true → judgeable (bias_of conf w) (blocks s) (thresholds conf) (sense_value d)) →
  returns (check_thresholds P c) s (observed X c s0 π s conf w (sense_value d)).
Proof.
  intros Hπ Hs Hc Hd Hw Hl Hj. destruct (in_place_live X c c s0 π s conf w Hs Hc Hw) as (d1 & Hd1 & Hfit & Hr).
  rewrite Hd in Hd1. injection Hd1 as <-. unfold check_thresholds. eapply returns_bind, returns_deref; [exact Hc|].
  eapply returns_bind, returns_deref; [exact Hd|]. pose proof (rel_bias _ _ _ Hr) as Hb. rewrite (rel_left _ _ _ Hr).
  destruct (zero_point w) as [z|] eqn:Hz.
  2: { rewrite Hb. apply returns_bind. eapply returns_mono.
    { eapply (count_ok X c s0 π s conf d w (CauseState (left w) (Some (sense_value d)) (streak w) (hit w))); [done..| |done|done].
      destruct Hr. by split; simpl. }
    intros [] s1 (_ & _ & Hs1). apply returns_ret. exists false. split; [unfold decides; by rewrite Hz|]. unfold observe. by rewrite Hz. }
  destruct Hb as [-> Hb]. destruct (Z.ltb_spec 0 (left w)) as [Hpos|Hneg].
  { unfold observed. assert (decides conf w = false) as -> by (unfold decides; rewrite (proj2 (Z.leb_gt (left w) 0)) by lia; by rewrite andb_false_r).
    unfold observe. rewrite Hz, (proj2 (Z.ltb_lt 0 (left w)) Hpos). set (w' := CauseState (left w - 1) (Some z) (streak w) (hit w)).
    assert (Hr' : rel conf (set_measurement_counter (left w - 1) d) w') by (pose proof (rel_bias _ _ _ Hr) as Hb2; rewrite Hz in Hb2; destruct Hr; by split).
    destruct (Z.eqb_spec (left w - 1) 0) as [E0|Hne].
    - apply returns_assoc, returns_bind. rewrite E0. rewrite E0 in Hr'. eapply returns_mono; [by apply (retire_ok X c s0 π s conf d w w')|].
      intros r s1 [-> Hs1]. apply returns_ret. exists true. by split.
    - apply returns_bind. eapply returns_mono; [eapply (count_ok X c s0 π s conf d w w'); [done..|simpl; lia|done|done|done]|].
      intros [] s1 (_ & _ & Hs1). apply returns_ret. exists true. by split. }
  destruct (thresholds conf) as [|thr l] eqn:Eth.
  { apply returns_ret. exists true. split; [unfold decides; by rewrite Eth, andb_false_r|]. unfold observe. rewrite Hz, Eth.
    rewrite (proj2 (Z.ltb_ge 0 (left w))) by lia. simpl. split; [done|]. unfold track. by destruct π. }
  rewrite <-Eth in *. assert (thresholds conf ≠ []) as Hne by (by rewrite Eth). clear Eth thr l.
  assert (decides conf w = true) as Hdec.
  { unfold decides. rewrite Hz, (proj2 (Z.leb_le (left w) 0)), (bool_decide_false _ Hne) by lia. done. }
  specialize (Hj Hdec). apply returns_bind. eapply returns_mono.
  { apply (check_all_ok X c s0 π conf w (thresholds conf) s d true); [done..|]. intros ms ret Hms. rewrite (bias_of_rel conf d w z) by done. by apply Hj. }
  intros ret s1 (ms & B' & v' & Hms & Hv & Hb1 & Hd1 & Hs1). rewrite (bias_of_rel conf d w z) in Hv by done.
  eapply returns_mono; [apply (settle_ok X c s0 π s1 conf w (set_value v' d) z ret); [done|done|done|by rewrite Hd1, lookup_insert_eq|done|lia|done|done]|].
  intros b s2 Hs2. exists ret. split; [eauto 10|exact Hs2].
Qed.

(** * An event *)

Lemma in_place_hit X c s0 π s b conf w : in_place P X c s0 π s → cause_at P !! c = Some conf → (live π).1 !! c = Some w →
  returns (set_cause c (set_triggered b)) s (λ _ s', in_place P X c s0 (track (mark c b (live π)) π) s').
Proof.
  intros (gs & Hgs & L & HT & Hh & Ho & Hf) Hc Hw. destruct (cause_state_of P HP c conf Hc) as [q Hq].
  destruct (tracks_cause P _ _ _ _ HT c conf q Hc Hq) as (d & Hd & Hfit & Hst). unfold stands in Hst. rewrite Hw in Hst.
  destruct Hst as (Hr & Hin & Hstop). eapply returns_set_cause; [done|]. exists gs. split; [done|]. exists L. simpl.
  split_and!; [|by eapply heap_dyn|done|done].
  eapply (tracks_step P None (gs.*1 ++ X) c c conf q s _ _ _ L L (set_triggered b d)); [exact HT| |done|done| | | |done|apply HT].
  - split; [done|done|apply HT|by eapply heap_dyn].
  - intros conf' Hc'. by apply Hfit.
  - simpl. rewrite lookup_alter_eq, Hw. simpl. split_and!; [|done|done]. destruct Hr. by split.
  - intros x Hx. simpl. by rewrite lookup_alter_ne.
Qed.

Lemma all_triggered_ok X c s0 π s l : in_place P X c s0 π s → (∀ x, x ∈ l → is_Some (cause_at P !! x) ∧ is_Some ((live π).1 !! x)) →
  returns (all_causes_triggered l) s (λ b s', s' = s ∧ b = forallb (λ c, from_option hit false ((live π).1 !! c)) l).
Proof.
  intros Hs. induction l as [|x l IH]; intros Hl; simpl; [by apply returns_ret|].
  destruct (Hl x) as [[conf Hx] [w Hw]]; [by left|]. destruct (in_place_live X c x s0 π s conf w Hs Hx Hw) as (d & Hd & _ & Hr).
  eapply returns_bind, returns_deref; [exact Hd|]. rewrite (rel_hit _ _ _ Hr), Hw. simpl. destruct (hit w); simpl; [|by apply returns_ret].
  apply IH. intros y Hy. apply Hl. by right.
Qed.

(** Where the engine is while a profile runs. *)
Record running (π : place) : Prop := {
  running_placed : placed P π;
  running_state : at_state π ≠ NULL;
  running_purpose : at_purpose π ≠ NULL;
}.

Lemma go_running π pid id : running π → placed P (go P (destination P pid id) π) → running (go P (destination P pid id) π).
Proof.
  intros [_ Hs Hu] Hp. destruct (destination P pid id) as [[u q]|] eqn:Hd; [|by split].
  destruct (destination_some P pid id u q Hd), (go_where P u q π) as [E1 E2]. split; [done|by rewrite E1|by rewrite E2].
Qed.

(** What the move reports: the state shown, and a ping on a new purpose. *)
Definition moved (d : option (Z * Z)) (π : place) (o : list eng_out) : Prop :=
  match d with
  | None => o = []
  | Some (u, q) => ∃ o', o = UiState u q :: o' ∧ if at_purpose π =? u then o' = [] else ping_out o'
  end.
Definition fired_out (e : Z) (ev : ts_event) (π : place) (o : list eng_out) : Prop := ∃ o1 o2, o = o1 ++ o2 ∧
  event_acts P e ev o1 ∧ match leads P ev π with Some (pu, stid) => moved (destination P pu stid) π o2 | None => o2 = [] end.

(** All causes of the event are triggered. *)
Lemma event_triggered_ok X c s0 π s e ev : running π → in_place P X c s0 π s → event_at P !! e = Some ev →
  (sendLog ev = true → connected = true) → (∀ x, x ∈ causes_in P e → is_Some ((live π).1 !! x)) →
  returns (event_triggered P e) s (λ b s', let '(b', π') := fire P e ev π in b = b' ∧ running π' ∧
    ∃ o, fired_out e ev π o ∧ in_place P X c (put_out (out s0 ++ o) s0) π' s').
Proof.
  intros Hrun Hs He Hlog Hlive. pose proof (running_placed π Hrun) as Hπ. unfold event_triggered. eapply returns_bind, returns_deref; [exact He|]. apply returns_bind.
  eapply returns_mono; [by eapply (says_actions P HP X c e ev He Hlog)|]. intros [] s1 (o1 & Ho1 & _ & Hs1).
  destruct (in_place_fields P _ _ _ _ _ Hs1) as (Hpu & Hst & _).
  pose proof (placed_purpose P π Hπ (running_purpose π Hrun)) as Hu. destruct (purpose_ok P HP _ Hu) as [[pu Hpc] _].
  destruct (placed_state P π Hπ (running_state π Hrun)) as [[stq Hsq] _].
  unfold fire, fired_out, leads. rewrite Hpc, Hsq. simpl.
  set (pch := negb (gotoPuId ev =? -1) && negb (puId pu =? gotoPuId ev)).
  apply returns_bind. eapply returns_mono with (P := λ b s', b = pch ∧ s' = s1).
  { unfold pch. destruct (gotoPuId ev =? -1); simpl; [by apply returns_ret|]. apply returns_bind, returns_gets. rewrite Hpu.
    eapply returns_bind, returns_deref; [exact Hpc|]. by apply returns_ret. }
  intros ? ? [-> ->]. set (sch := negb (gotoStId ev =? -1) && negb (gotoStId ev =? stId stq)).
  apply returns_bind. eapply returns_mono with (P := λ b s', b = pch || sch ∧ s' = s1).
  { unfold sch. destruct pch; simpl; [by apply returns_ret|]. destruct (gotoStId ev =? -1); simpl; [by apply returns_ret|].
    apply returns_bind, returns_gets. rewrite Hst. eapply returns_bind, returns_deref; [exact Hsq|]. by apply returns_ret. }
  intros ? ? [-> ->].
  assert (Hgo : ∀ pid, named P (gotoStId ev) → returns (init_profile P pid (gotoStId ev)) s1 (λ r s',
    running (go P (destination P pid (gotoStId ev)) π) ∧ ∃ o2, moved (destination P pid (gotoStId ev)) π o2 ∧
      in_place P X c (put_out (out s0 ++ o1 ++ o2) s0) (go P (destination P pid (gotoStId ev)) π) s')).
  { intros pid Hn. eapply returns_mono; [by eapply (init_profile_ok P HP X c _ π s1 pid (gotoStId ev))|].
    intros r s2 Hd. pose proof (go_running π pid (gotoStId ev) Hrun) as Hgr. destruct (destination P pid (gotoStId ev)) as [[u q]|].
    - destruct Hd as (_ & Hp & o & Ho & Hs2). split; [by apply Hgr|]. exists (UiState u q :: o). split; [by exists o|].
      simpl in Hs2. by rewrite <-app_assoc in Hs2.
    - destruct Hd as [_ ->]. split; [done|]. exists []. split; [done|]. by rewrite app_nil_r. }
  assert (Hn : named P (gotoStId ev)) by (right; eauto).
  destruct pch; simpl; [|destruct sch; simpl].
  - apply returns_bind, returns_bind. eapply returns_mono; [by apply Hgo|]. intros r s2 (Hr & o2 & Ho2 & Hs2).
    apply returns_ret, returns_ret. split_and!; [done..|]. exists (o1 ++ o2). split; [by exists o1, o2|done].
  - apply returns_bind. apply returns_bind, returns_gets. rewrite Hpu. eapply returns_bind, returns_deref; [exact Hpc|]. apply returns_bind.
    eapply returns_mono; [by apply Hgo|]. intros r s2 (Hr & o2 & Ho2 & Hs2).
    apply returns_ret, returns_ret. split_and!; [done..|]. exists (o1 ++ o2). split; [by exists o1, o2|done].
  - apply returns_bind. eapply returns_mono; [by eapply (in_place_rearm X c _ π s1 e)|]. intros r s2 Hs2. apply returns_ret.
    split; [done|]. split; [|exists o1; split; [exists o1, []; by rewrite app_nil_r|done]].
    split; [|apply Hrun..]. apply placed_track; [done| |].
    + intros x. apply rearm_event_dom.
    + intros x Hx. by apply rearm_event_orders.
Qed.

(** * The whole of handle_cause_event *)

Lemma in_place_free X c s0 π s conf : in_place P X c s0 π s → cause_at P !! c = Some conf →
  returns (free_valuearray c) s (λ _ s', ∀ c', in_place P X c' s0 π s').
Proof.
  intros (gs & Hgs & L & HT & Hh & Ho & Hf) Hc. destruct (cause_state_of P HP c conf Hc) as [q Hq].
  destruct (tracks_cause P _ _ _ _ HT c conf q Hc Hq) as (d & Hd & Hfit & Hst).
  eapply returns_mono; [by apply (free_valuearray_ok P (gs.*1 ++ X) c c d)|].
  intros [] s' (Hh' & Hr & Hl & d' & Hd' & Hfl & v & -> & Hv) c'.
  assert (dyns s' !! c = Some (set_value v d)) as Hdc by (by rewrite Hd', lookup_insert_eq).
  exists gs. split; [done|]. exists L. destruct (rest_split _ _ Hr) as [Ho' Hf'].
  split_and!; [|eapply heap_quiet; [done|]; intros ? Hx; by simplify_eq|congruence|congruence].
  eapply (tracks_step P None (gs.*1 ++ X) c c conf q s s' _ _ L L (set_value v d)); [exact HT| |done|done| | |done|done|apply HT].
  - split; [done|done| |done]. rewrite Hl. apply HT.
  - by apply fits_freed.
  - unfold stands in *. destruct ((live π).1 !! c) as [w|]; [|by destruct Hst as (? & _ & ?)].
    destruct Hst as (Hrel & Hin & Hstop). split_and!; [destruct Hrel; by split|done|]. intros E0. destruct (Hstop E0). by split.
Qed.

(** The reports of one value: to the user interface; to the connector; to the
    log; and those of the event when it fires. *)
Definition value_out (c : Z) (conf : ts_cause) (ev : ts_event) (v : ts_value) (b : bool) (π : place) (o : list eng_out) : Prop :=
  ∃ o1 o2 o3, o = UiSense (info_sId (sense_info conf)) v :: o1 ++ o2 ++ o3 ∧
    (if measurement_send conf then cause_sent P c o1 else o1 = []) ∧
    (if (b && senseLog conf) || measurement_log conf then logged P (cause_event conf) false [c] LOG_CAUSES o2 else o2 = []) ∧
    (if b && all_hit P (cause_event conf) (live π).1 then fired_out (cause_event conf) ev π o3 else o3 = []).

Definition handled X c s0 π s conf ev w v (b : bool) s' : Prop := ∃ h,
  (decides conf w = true → ∃ ms B' v', length ms = length (thresholds conf) ∧
     verdict (bias_of conf w) ms (blocks s) (thresholds conf) v true = Some (B', v', h)) ∧
  let '(b1, t) := observe P c conf w v h (live π) in
  let '(b2, π') := react P c conf ev w v h π in
  b = b2 ∧ running π' ∧ ∃ o, value_out c conf ev v b1 (track (mark c b1 t) π) o ∧
    ∀ c', in_place P X c' (put_out (out s0 ++ o) s0) π' s'.

Lemma mark_dom c b t x : is_Some ((mark c b t).1 !! x) ↔ is_Some (t.1 !! x).
Proof. unfold mark. simpl. by rewrite lookup_alter_is_Some. Qed.

(** Triggered or not: the log, and the event. *)
Lemma triggered_ok X c s0 π s conf ev w (b : bool) : running π → in_place P X c s0 π s → cause_at P !! c = Some conf →
  event_at P !! cause_event conf = Some ev → (sendLog ev = true → connected = true) → (live π).1 !! c = Some w →
  returns (set_cause c (set_triggered b);;
    (if (if b then senseLog conf || measurement_log conf else measurement_log conf) then log_cause P c else mret tt);;
    changing ← (if negb b then mret false
      else
        ev ← event_conf P (cause_event conf);
        all ← all_causes_triggered (causes ev);
        if all : bool then event_triggered P (cause_event conf) else mret false);
    free_valuearray c;;
    mret changing) s (λ r s', let π1 := track (mark c b (live π)) π in
      let '(r', π') := if b && all_hit P (cause_event conf) (live π1).1 then fire P (cause_event conf) ev π1 else (false, π1) in
      r = r' ∧ running π' ∧ ∃ o2 o3,
        (if (b && senseLog conf) || measurement_log conf then logged P (cause_event conf) false [c] LOG_CAUSES o2 else o2 = []) ∧
        (if b && all_hit P (cause_event conf) (live π1).1 then fired_out (cause_event conf) ev π1 o3 else o3 = []) ∧
        ∀ c', in_place P X c' (put_out (out s0 ++ o2 ++ o3) s0) π' s').
Proof.
  intros Hrun Hs Hc He Hlog Hw. apply returns_bind. eapply returns_mono; [by eapply (in_place_hit X c s0 π s b conf w)|].
  intros [] s1 Hs1. set (π1 := track (mark c b (live π)) π) in *. cbv zeta.
  assert (Hrun1 : running π1).
  { split; [|apply Hrun..]. apply placed_track; [by apply Hrun| |done]. intros x. apply mark_dom. }
  assert (Hlive : ∀ x, x ∈ causes_in P (cause_event conf) → is_Some ((live π1).1 !! x)).
  { intros x Hx. apply mark_dom. eapply (event_live π c conf); [apply Hrun|done|by eexists|done]. }
  assert ((if b then senseLog conf || measurement_log conf else measurement_log conf) = (b && senseLog conf) || measurement_log conf) as -> by (by destruct b).
  apply returns_bind. eapply returns_mono.
  { eapply (says_mono (A := unit) P X c (if (b && senseLog conf) || measurement_log conf then log_cause P c else mret tt) (λ _, X)
      (λ _ o, if (b && senseLog conf) || measurement_log conf then logged P (cause_event conf) false [c] LOG_CAUSES o else o = [])); [|intros ? ? Ho; exact Ho|exact Hs1].
    destruct (_ || _); [by apply says_log_cause|by apply says_ret]. }
  intros [] s2 (o2 & Ho2 & _ & Hs2).
  assert (Hfree : ∀ r π' o3 s', in_place P X c (put_out (out s0 ++ o2 ++ o3) s0) π' s' →
    returns (free_valuearray c;; mret r) s' (λ (r' : bool) s'', r' = r ∧ ∀ c', in_place P X c' (put_out (out s0 ++ o2 ++ o3) s0) π' s'')).
  { intros r π' o3 s' Hs'. apply returns_bind. eapply returns_mono; [by eapply in_place_free|]. intros [] s'' Hs''. by apply returns_ret. }
  apply returns_bind. destruct b; simpl.
  2: { apply returns_ret. eapply returns_mono; [apply (Hfree false π1 [])|]; [by rewrite app_nil_r|].
    intros r s3 [-> Hs3]. split_and!; [done..|]. exists o2, []. by split_and!. }
  eapply returns_bind, returns_deref; [exact He|]. apply returns_bind.
  assert (causes ev = causes_in P (cause_event conf)) as -> by (unfold causes_in; by rewrite He).
  eapply returns_mono; [eapply (all_triggered_ok X c _ π1 s2); [exact Hs2|]|].
  { intros x Hx. split; [|by apply Hlive]. apply (elem_of_causes_in P HP) in Hx as (? & ? & _). by eexists. }
  intros ? ? [-> ->]. fold (all_hit P (cause_event conf) (live π1).1). destruct (all_hit _ _ _) eqn:Eall.
  - eapply returns_mono; [by eapply (event_triggered_ok X c _ π1 s2 (cause_event conf) ev)|].
    intros r s3. destruct (fire _ _ _ _) as [r' π'] eqn:Efire. intros (-> & Hrun' & o3 & Ho3 & Hs3). simpl in Hs3. rewrite <-app_assoc in Hs3.
    eapply returns_mono; [by apply Hfree|]. intros r s4 [-> Hs4]. split_and!; [done..|]. exists o2, o3. by split_and!.
  - apply returns_ret. eapply returns_mono; [apply (Hfree false π1 [])|]; [by rewrite app_nil_r|].
    intros r s3 [-> Hs3]. split_and!; [done..|]. exists o2, []. by split_and!.
Qed.

(** A value of a live cause. *)
Lemma handle_cause_event_ok X c s0 π s conf ev w d ts : running π → in_place P X c s0 π s → cause_at P !! c = Some conf →
  event_at P !! cause_event conf = Some ev → (sendLog ev = true → connected = true) → dyns s !! c = Some d →
  (live π).1 !! c = Some w → left w ≠ 0 →
  (decides conf w = true → judgeable (bias_of conf w) (blocks s) (thresholds conf) (sense_value d)) →
  returns (handle_cause_event P c ts) s (handled X c s0 π s conf ev w (sense_value d)).
Proof.
  intros Hrun Hs Hc He Hlog Hd Hw Hl Hj. unfold handle_cause_event. eapply returns_bind, returns_deref; [exact Hc|].
  eapply returns_bind, returns_deref; [exact Hd|]. destruct (in_place_live X c c s0 π s conf w Hs Hc Hw) as (d1 & Hd1 & Hfit & Hr).
  rewrite Hd in Hd1. injection Hd1 as <-. destruct (Hfit conf Hc) as [_ ->].
  apply returns_bind. eapply returns_mono; [by apply (says_put P X c)|]. intros [] s1 (o & -> & E1 & Hs1).
  apply returns_bind. eapply returns_mono; [by eapply (says_eos P X c _ _ (ui_event_ok _))|]. intros [] s2 (? & [-> _] & E2 & Hs2).
  rewrite put_out_same in Hs2. apply returns_bind.
  set (s0' := put_out (out s0 ++ [UiSense (info_sId (sense_info conf)) (sense_value d)]) s0) in *.
  eapply returns_mono with (P := λ _ s3, same s2 s3 ∧ in_place P X c s0' π s3).
  { destruct ts; [by apply returns_ret|]. apply returns_bind. eapply returns_mono; [by eapply (says_eos P X c _ _ (clock_get_ok _))|].
    intros now s3 (? & [-> _] & E3 & Hs3). rewrite put_out_same in Hs3. by apply returns_ret. }
  intros t s3 [E3 Hs3]. assert (dyns s3 !! c = Some d ∧ blocks s3 = blocks s) as [Hd3 Hb3].
  { destruct E1, E2, E3. split; congruence. }
  apply returns_bind. eapply returns_mono.
  { eapply (count_ok X c _ π s3 conf d w w (set_ts t)); [done..| |done|done]. destruct Hr. by split. }
  intros [] s4 (Hd4 & Hb4 & Hs4). rewrite (track_same π w c Hw) in Hs4. apply returns_bind.
  eapply returns_mono.
  { eapply (says_mono (A := unit) P X c (if measurement_send conf then _ ← send_cause P c; mret tt else mret tt) (λ _, X)
      (λ _ o, if measurement_send conf then cause_sent P c o else o = [])); [|intros ? ? Ho; exact Ho|exact Hs4].
    destruct (measurement_send conf); [|by apply says_ret]. eapply says_bind; [by eapply says_send_cause|].
    intros r o Ho. apply says_ret; [done|]. by rewrite app_nil_r. }
  intros [] s5 (o1 & Ho1 & [Hd5 Hb5] & Hs5). apply returns_bind. eapply returns_mono.
  { eapply (check_thresholds_ok X c _ π s5 conf w (set_ts t d)); [apply Hrun|done|done|by rewrite Hd5, Hd4, lookup_insert_eq|done|done|].
    by rewrite Hb5, Hb4, Hb3. }
  intros b s6 (h & Hv & Hobs). rewrite Hb5, Hb4, Hb3 in Hv. change (sense_value (set_ts t d)) with (sense_value d) in Hobs.
  pose proof (λ x, observe_dom P c conf w (sense_value d) h (live π) x Hw) as Hdom.
  pose proof (λ x, observe_orders P c conf w (sense_value d) h (live π) x) as Hord.
  destruct (observe P c conf w (sense_value d) h (live π)) as [b' t'] eqn:Eobs. destruct Hobs as [-> Hs6]. simpl in Hdom, Hord.
  assert (Hrun' : running (track t' π)) by (split; [by apply placed_track; [apply Hrun|..]|apply Hrun..]).
  destruct (proj2 (Hdom c) ltac:(by eexists)) as [w' Hw'].
  eapply returns_mono; [by eapply (triggered_ok X c _ (track t' π) s6 conf ev w' b')|].
  intros r s7 Hr7. exists h. split; [exact Hv|]. unfold react. rewrite Eobs. cbv zeta in Hr7. simpl in Hr7. unfold track at 1. simpl. unfold track in Hr7 |- *. simpl in Hr7 |- *.
  destruct (if b' && all_hit P (cause_event conf) (alter (set_hit b') c t'.1) then _ else _) as [r' π'] eqn:Efire.
  destruct Hr7 as (-> & Hrun7 & o2 & o3 & Ho2 & Ho3 & Hs7). split_and!; [done..|].
  exists (UiSense (info_sId (sense_info conf)) (sense_value d) :: o1 ++ o2 ++ o3). split; [by exists o1, o2, o3|].
  intros c'. specialize (Hs7 c'). unfold s0' in Hs7. simpl in Hs7. by rewrite <-!app_assoc in Hs7.
Qed.

(** * The date timer of a cause *)

Lemma in_place_read X c s0 π s : in_place P X c s0 π s →
  returns (eos (active_read c)) s (λ _ s', dyns s' = dyns s ∧ in_place P X c s0 π s').
Proof.
  intros Hs. pose proof (in_place_eos P _ _ X c s0 π s (active_read_ok c) Hs) as Hr. revert Hr.
  unfold returns, eos, zoom. destruct (active_read c (e_os s)) as [[v e']| |]; [|done..]. by intros [_ Hin].
Qed.

Lemma timer_expires (φ : timespec → Prop) X c s0 π s conf d w : keeps (clock_get CLOCK_MONOTONIC) (λ r, φ r.2) →
  in_place P X c s0 π s → cause_at P !! c = Some conf → dyns s !! c = Some d → (live π).1 !! c = Some w → left w ≠ 0 →
  1000 ≤ measurement_interval conf → 0 ≤ (cause_time d).1 < 2 ^ 32 - 2 ^ 23 → 0 ≤ (cause_time d).2 < 1000000000 →
  returns (cause_timer_callback_date P c (timer_id d)) s (λ _ s', in_place P X c s0 π s' ∧
    ∃ id t now, 0 ≤ id ∧ dyns s' = <[c := set_timer_id id (set_cause_time t d)]> (dyns s) ∧
      φ now ∧ next_not_past (measurement_interval conf) (cause_time d) now t).
Proof.
  intros Hφ (gs & Hgs & L & HT & Hh & Ho & Hf) Hc Hd Hw Hl Hi Ht1 Ht2. destruct (cause_state_of P HP c conf Hc) as [q Hq].
  destruct (tracks_cause P _ _ _ _ HT c conf q Hc Hq) as (d1 & Hd1 & Hfit & Hst). rewrite Hd in Hd1. injection Hd1 as <-.
  unfold stands in Hst. rewrite Hw in Hst. destruct Hst as (Hr & Hin & _). unfold cause_timer_callback_date.
  eapply returns_bind, returns_deref; [exact Hd|]. apply returns_bind, returns_assert; [by rewrite Z.eqb_refl|]. apply returns_bind.
  eapply returns_set_cause; [exact Hd|]. apply returns_bind.
  eapply returns_mono; [eapply (start_cause_timer_ok P HP φ (gs.*1 ++ X) c c conf (set_timer_id (-1) d) _ L); [done|done|simpl; by rewrite lookup_insert_eq|apply HT|by eapply heap_dyn|done|done]|].
  intros r s' (_ & id & t & Hid & Hs' & _ & Hnext). destruct (Hnext Hi) as (now & Hnow & Hn).
  assert (Hd' : dyns s' = <[c:=set_timer_id id (set_cause_time t d)]> (dyns s)).
  { rewrite (stepped_dyns _ _ _ _ _ _ _ _ Hs'). simpl. by rewrite insert_insert_eq. }
  assert (Hin' : in_place P X c s0 π s'); [|unfold engine_cause_get_value;
    eapply returns_mono; [by apply (in_place_read _ _ _ _ _ Hin')|]; intros v s2 [Hd2 Hs2]; split; [done|rewrite Hd2; by exists id, t, now]].
  destruct (rest_split _ _ (stepped_rest P _ _ _ _ _ _ _ Hs')) as [Ho' Hf'].
  exists gs. split; [done|]. exists L. split_and!; [|apply Hs'|by rewrite Ho'|by rewrite Hf'].
  eapply (tracks_step P None (gs.*1 ++ X) c c conf q s s' _ _ L L); [exact HT| |done|done| | |done|done|apply HT].
  - split; [exact Hd'|exact (stepped_rest P _ _ _ _ _ _ _ Hs')|apply Hs'|apply Hs'].
  - intros conf' Hc'. by apply Hfit.
  - rewrite Hw. split_and!; [destruct Hr; by split|done|done].
Qed.
End Steps.
