(* ===== verification/EngineRun.v ===== *)
(** Runs of the engine: a profile is started, values of active causes arrive in
    any order, the profile is stopped and continued.  In every state that a
    run reaches the engine is in order, and whatever is permitted returns. *)

From Stdlib Require Import SpecFloat.
From stdpp Require Import functions.
From S2P Require Import Prelude Links Queue QueueSq Ubx UbxInv EngValue Engine EngineInv EngineCause EngineTrack EngineMove EngineSay EngineSpec EngineReact.

(** A value (no array) of a cause, as drivers deliver it; the date timer of a
    cause; the commands. *)
Inductive request :=
| Value (c : Z) (v : ts_value) (timestamp : option timespec)
| Timer (c timer : Z)
| Stop (free uninit_connector : bool)
| Continue.

Section Run.
Context {E : Type} `{EngineLaws E}.
Context (P : ts_profile) (HP : profile_ok P).
Local Abbreviation st := (engine_s E).
Implicit Types (s : st).

Definition perform (r : request) : M st Z :=
  match r with
  | Value c v ts => set_cause c (set_value v);; _ ← handle_cause_event P c ts; mret OK
  | Timer c timer => cause_timer_callback_date P c timer
  | Stop free un => profile_stop P free un
  | Continue => profile_continue P
  end.

(** The engine as profile_parse leaves it; [X] are the blocks in use. *)
Record parsed (X : list Z) s : Prop := {
  parsed_causes c conf : cause_at P !! c = Some conf → ∃ d, dyns s !! c = Some d ∧ idle d ∧ settled P c d;
  parsed_quiet c d : dyns s !! c = Some d → flying (sense_value d) = None;
  parsed_queues : queues P (links s) (λ _, []);
  parsed_orders e : is_Some (event_at P !! e) → is_Some (orders s !! e);
  parsed_blocks : blocks s = threshold_items P;
  parsed_owned : owned (e_os s) X;
  parsed_globals : global_states s = [];
}.

(** The state of the cause is the current one or a global one. *)
Definition active s (q : Z) : Prop := q = current_state s ∨ q ∈ (global_states s).*2.

(** A driver delivers values of its sense while the cause is measured, and its
    timer runs so long; dates are far from the end of time. *)
Definition permitted s (r : request) : Prop :=
  match r with
  | Value c v ts => run_state s = ENGINE_RUNNING ∧ flying v = None ∧ ∃ conf ev d q, cause_at P !! c = Some conf ∧
      event_at P !! cause_event conf = Some ev ∧ state_of P c = Some q ∧ active s q ∧ dyns s !! c = Some d ∧ measurement_counter d ≠ 0 ∧
      typed conf v ∧ (sendLog ev = true → connected = true) ∧
      judgeable (Bias (is_active_relative_cause conf) (sense_bias d)) (blocks s) (thresholds conf) v
  | Timer c timer => run_state s = ENGINE_RUNNING ∧ ∃ conf d q, cause_at P !! c = Some conf ∧ state_of P c = Some q ∧ active s q ∧
      dyns s !! c = Some d ∧ measurement_counter d ≠ 0 ∧ timer_id d = timer ∧ 1000 ≤ measurement_interval conf ∧
      0 ≤ (cause_time d).1 < 2 ^ 32 - 2 ^ 23 ∧ 0 ≤ (cause_time d).2 < 1000000000
  | _ => True
  end.

Inductive reached (X : list Z) : st → Prop :=
| reached_start s s' : parsed X s → profile_main P s = Done (true, s') → reached X s'
| reached_step s r x s' : reached X s → permitted s r → perform r s = Done (x, s') → reached X s'.

(** * The invariant *)

(** What the specification knows about the engine. *)
Definition shows (X : list Z) (π : place) s : Prop := (∀ c, in_place P X c s π s) ∧
  match run_state s with ENGINE_RUNNING => running P π | _ => halted P π end.

Lemma in_place_self X c s0 π s : in_place P X c s0 π s → in_place P X c s π s.
Proof.
  intros (gs & Hgs & Hs). exists gs. split; [done|]. eapply sim_fixed; [exact Hs|done..|].
  destruct Hs as (L & _ & _ & _ & Hf). unfold fixed in *. simpl in *. congruence.
Qed.

Lemma returns_forall {I A} (i : I) (op : M st A) s (Q : I → A → st → Prop) :
  (∀ i, returns op s (Q i)) → returns op s (λ a s', ∀ i, Q i a s').
Proof. unfold returns. intros HQ. destruct (op s) as [[a s']| |]; [done|by apply (HQ i)..]. Qed.

Lemma parsed_in_place X c s : parsed X s → in_place P X c s (Place (current_purpose s) (current_state s) [] (∅, orders s)) s.
Proof.
  intros [HC HQu HL HO HB Ho HG]. exists []. split; [done|]. exists (λ _, []). split_and!; [|split|done|].
  - split; [|done|done]. intros c' conf q Hc Hq. destruct (HC c' conf Hc) as (d & Hd & Hi & Hf & Hfit). exists d. split_and!; [done..|].
    unfold stands. simpl. rewrite lookup_empty. split_and!; [done..|]. set_solver.
  - intros c' d Hd _. by eapply HQu.
  - simpl. destruct (dyns s !! c) as [d|] eqn:Hd; simpl; [|done]. by rewrite (HQu c d Hd).
  - unfold fixed. simpl. by rewrite HG.
Qed.

Lemma start_running X s : parsed X s → returns (profile_main P) s (λ b s',
  if b then ∃ u q, destination P INVALID_PURPOSE INVALID_STATE = Some (u, q) ∧ run_state s' = ENGINE_RUNNING ∧
    shows X (go P (Some (u, q)) (nowhere (orders s))) s'
  else destination P INVALID_PURPOSE INVALID_STATE = None).
Proof.
  intros Hp. eapply returns_mono; [apply (returns_forall (0 : Z)); intros c; apply (profile_main_ok P HP X c s); [apply Hp..|by apply parsed_in_place]|].
  intros b s' Hall. cbv beta in Hall. destruct (destination P _ _) as [[u q]|] eqn:Hd.
  - destruct (Hall 0) as (m & d & -> & Hπ & o & _ & Hs). exists u, q. destruct (in_place_fields P _ _ _ _ _ Hs) as (_ & _ & _ & Hr & _).
    simpl in Hr. split_and!; [done..|]. split; [|rewrite Hr].
    + intros c. destruct (Hall c) as (? & ? & _ & _ & ? & _ & Hsc). by eapply in_place_self.
    + destruct (destination_some P _ _ u q Hd), (go_where P u q (nowhere (orders s))) as [E1 E2].
      split; [done|by rewrite E1|by rewrite E2].
  - destruct (Hall 0) as (m & d & -> & _). done.
Qed.

(** * One request *)

(** What a request does, as the specification has it. *)
Inductive transition : ts_engine_state → place → request → ts_engine_state → place → Prop :=
| transition_value π c v ts conf ev w h : cause_at P !! c = Some conf → event_at P !! cause_event conf = Some ev →
    (live π).1 !! c = Some w → left w ≠ 0 →
    (decides conf w = true → ∃ ms B v', length ms = length (thresholds conf) ∧
       verdict (bias_of conf w) ms (threshold_items P) (thresholds conf) v true = Some (B, v', h)) →
    transition ENGINE_RUNNING π (Value c v ts) ENGINE_RUNNING (react P c conf ev w v h π).2
| transition_timer π c timer : transition ENGINE_RUNNING π (Timer c timer) ENGINE_RUNNING π
| transition_stop π fr un : transition ENGINE_RUNNING π (Stop fr un) (if fr : bool then ENGINE_STOPPED else ENGINE_PAUSED) (halt P π)
| transition_stop_refused m π fr un : m ≠ ENGINE_RUNNING → transition m π (Stop fr un) m π
| transition_continue π : transition ENGINE_PAUSED π Continue ENGINE_RUNNING (resume P π)
| transition_continue_refused m π : m ≠ ENGINE_PAUSED → transition m π Continue m π.

Lemma in_place_no_array X π s c d : (∀ c, in_place P X c s π s) → dyns s !! c = Some d → flying (sense_value d) = None.
Proof. intros Hs Hd. destruct (Hs (c + 1)) as (gs & _ & L & _ & [Hq _] & _). apply (Hq c d Hd). lia. Qed.

Lemma in_place_blocks X π s c d : (∀ c, in_place P X c s π s) → dyns s !! c = Some d → blocks s = threshold_items P.
Proof.
  intros Hs Hd. pose proof (in_place_no_array X π s c d Hs Hd) as Hf. destruct (Hs c) as (gs & _ & L & _ & Hh & _).
  by eapply heap_no_array.
Qed.

(** An active cause is live. *)
Lemma active_live X π s c conf q d : shows X π s → run_state s = ENGINE_RUNNING → cause_at P !! c = Some conf → state_of P c = Some q →
  active s q → dyns s !! c = Some d → measurement_counter d ≠ 0 → ∃ w, (live π).1 !! c = Some w ∧ left w ≠ 0 ∧ rel conf d w.
Proof.
  intros [Hs Hrun] Er Hc Hq Ha Hd Hm. rewrite Er in Hrun. destruct (in_place_fields P _ _ _ _ _ (Hs c)) as (_ & Hst & Hgl & _).
  unfold active in Ha. rewrite Hst, Hgl in Ha.
  assert (Hl : is_Some ((live π).1 !! c)).
  { apply (placed_live P π (running_placed P π Hrun)). exists q. split_and!; [done| |done]. destruct Ha as [->|Hg].
    - by apply Hrun.
    - rewrite (placed_globals P π (running_placed P π Hrun)) in Hg. destruct (_ =? NULL); [set_solver|]. by eapply (globals_nonnull P HP). }
  destruct Hl as [w Hw]. exists w. destruct (in_place_live P HP X c c s π s conf w (Hs c) Hc Hw) as (d1 & Hd1 & _ & Hr).
  rewrite Hd in Hd1. injection Hd1 as <-. split_and!; [done| |done]. by rewrite <-(rel_left _ _ _ Hr).
Qed.

Lemma judgeable_bias conf d w B v : rel conf d w → decides conf w = true →
  judgeable (Bias (is_active_relative_cause conf) (sense_bias d)) B (thresholds conf) v → judgeable (bias_of conf w) B (thresholds conf) v.
Proof.
  intros Hr Hdec Hj ms ret Hms. unfold decides in Hdec. destruct (zero_point w) as [z|] eqn:Hz; [|done].
  rewrite <-(bias_of_rel conf d w z) by done. by apply Hj.
Qed.

Lemma value_ok X π s c v ts : shows X π s → permitted s (Value c v ts) → returns (perform (Value c v ts)) s (λ _ s',
  ∃ π', transition (run_state s) π (Value c v ts) (run_state s') π' ∧ shows X π' s').
Proof.
  intros Hsh (Er & Hfl & conf & ev & d & q & Hc & He & Hq & Ha & Hd & Hm & Ht & Hlog & Hj).
  destruct (active_live X π s c conf q d Hsh Er Hc Hq Ha Hd Hm) as (w & Hw & Hl & Hr). destruct Hsh as [Hs Hrun]. rewrite Er in Hrun.
  simpl. apply returns_bind. eapply returns_mono.
  { apply (arrive_ok P HP X c s π s conf d w v); [done..|]. by eapply in_place_no_array. }
  intros [] s1 (Hd1 & Hb1 & Hs1). apply returns_bind. eapply returns_mono.
  { eapply (handle_cause_event_ok P HP X c s π s1 conf ev w (set_value v d) ts); [done..|by rewrite Hd1, lookup_insert_eq|done|done|].
    intros Hdec. rewrite Hb1. simpl. by eapply judgeable_bias. }
  intros b s2 (h & Hv & Hre). apply returns_ret. simpl in Hv, Hre. rewrite Hb1, (in_place_blocks X π s c d Hs Hd) in Hv.
  destruct (observe P c conf w v h (live π)) as [b1 t] eqn:Eo. destruct (react P c conf ev w v h π) as [b2 π'] eqn:Ere.
  destruct Hre as (_ & Hrun' & o & _ & Hs2). exists π'. destruct (in_place_fields P _ _ _ _ _ (Hs2 c)) as (_ & _ & _ & Hr2 & _). simpl in Hr2.
  rewrite Hr2, Er. split.
  - replace π' with (react P c conf ev w v h π).2 by (by rewrite Ere). by apply transition_value.
  - split; [|by rewrite Hr2, Er]. intros c'. by eapply in_place_self.
Qed.

Lemma run_timer_ok X π s c timer : shows X π s → permitted s (Timer c timer) → returns (perform (Timer c timer)) s (λ _ s',
  ∃ π', transition (run_state s) π (Timer c timer) (run_state s') π' ∧ shows X π' s').
Proof.
  intros Hsh (Er & conf & d & q & Hc & Hq & Ha & Hd & Hm & <- & Hi & Ht1 & Ht2).
  destruct (active_live X π s c conf q d Hsh Er Hc Hq Ha Hd Hm) as (w & Hw & Hl & _). pose proof Hsh as [Hs Hrun].
  simpl. eapply returns_mono.
  { eapply (timer_expires P HP (λ _, True)); [|apply Hs|done..]. intros e Y Ho. eapply returns_mono; [by apply clock_get_ok|]. by intros ? ? [? _]. }
  intros v s' (Hs' & id & t & now & _ & Hd' & _). exists π.
  destruct (in_place_fields P _ _ _ _ _ Hs') as (_ & _ & _ & Hr & _). rewrite Hr, Er. split; [constructor|].
  split; [|by rewrite Hr]. intros c'. eapply in_place_self, in_place_quiet; [exact Hs'|].
  intros d'. rewrite Hd', lookup_insert_eq. intros [= <-]. simpl. by eapply in_place_no_array.
Qed.

Lemma stop_ok X π s fr un : shows X π s → returns (perform (Stop fr un)) s (λ _ s',
  ∃ π', transition (run_state s) π (Stop fr un) (run_state s') π' ∧ shows X π' s').
Proof.
  intros [Hs Hrun]. simpl. destruct (decide (run_state s = ENGINE_RUNNING)) as [Er|Hn].
  - rewrite Er in Hrun |- *. eapply returns_mono; [apply (returns_forall (0 : Z)); intros c; apply (profile_stop_ok P HP fr un X c s π s); [apply Hrun..|done|done]|].
    intros r s' Hall. exists (halt P π). assert (run_state s' = if fr then ENGINE_STOPPED else ENGINE_PAUSED) as Er'.
    { destruct (Hall 0) as [_ Hs']. by destruct (in_place_fields P _ _ _ _ _ Hs') as (_ & _ & _ & -> & _). }
    rewrite Er'. split; [constructor|]. split.
    + intros c. destruct (Hall c) as [_ Hs']. by eapply in_place_self.
    + rewrite Er'. assert (halted P (halt P π)) by (apply (halt_halted P HP); apply Hrun). by destruct fr.
  - unfold profile_stop. apply returns_bind, returns_gets. rewrite bool_decide_false by done. apply returns_ret.
    exists π. by split; [constructor|].
Qed.

Lemma continue_ok X π s : shows X π s → returns (perform Continue) s (λ _ s',
  ∃ π', transition (run_state s) π Continue (run_state s') π' ∧ shows X π' s').
Proof.
  intros [Hs Hrun]. simpl. destruct (decide (run_state s = ENGINE_PAUSED)) as [Er|Hn].
  - rewrite Er in Hrun |- *. eapply returns_mono; [apply (returns_forall (0 : Z)); intros c; apply (profile_continue_ok P HP X c s π s); done|].
    intros r s' Hall. exists (resume P π). assert (run_state s' = ENGINE_RUNNING) as Er'.
    { destruct (Hall 0) as [_ Hs']. by destruct (in_place_fields P _ _ _ _ _ Hs') as (_ & _ & _ & -> & _). }
    rewrite Er'. split; [constructor|]. split.
    + intros c. destruct (Hall c) as [_ Hs']. by eapply in_place_self.
    + rewrite Er'. split; [by apply resume_placed|apply Hrun|]. simpl. by apply (purpose_ok P HP), Hrun.
  - unfold profile_continue. apply returns_bind, returns_gets. rewrite bool_decide_false by done. apply returns_ret.
    exists π. by split; [constructor|].
Qed.

Lemma perform_ok X π s r : shows X π s → permitted s r → returns (perform r) s (λ _ s',
  ∃ π', transition (run_state s) π r (run_state s') π' ∧ shows X π' s').
Proof. destruct r; intros ? ?; [by apply value_ok|by apply run_timer_ok|by apply stop_ok|by apply continue_ok]. Qed.

Lemma reached_shows X s : reached X s → ∃ π, shows X π s.
Proof.
  induction 1 as [s s' Hp Hm|s r x s' _ [π Hs] Hr Hx].
  - pose proof (start_running X s Hp) as Hst. unfold returns in Hst. rewrite Hm in Hst. destruct Hst as (u & q & _ & _ & Hs). eauto.
  - pose proof (perform_ok X π s r Hs Hr) as Hst. unfold returns in Hst. rewrite Hx in Hst. destruct Hst as (π' & _ & Hs'). eauto.
Qed.

(** What the state itself then has: each queue holds the causes that are
    measured, those of the active states that have measurements left; all
    other causes hold no timer and no descriptor, and no cause holds an array. *)
Record in_order (X : list Z) s : Prop := {
  in_order_queues q : is_Some (state_at P !! q) → ∃ l, sq_repr (links s) (q + ACTIVE_CAUSES) (entry <$> l) ∧
    ∀ c, c ∈ l ↔ state_of P c = Some q ∧ active s q ∧ run_state s = ENGINE_RUNNING ∧ ∃ d, dyns s !! c = Some d ∧ measurement_counter d ≠ 0;
  in_order_idle c d q : state_of P c = Some q → dyns s !! c = Some d →
    ¬ (active s q ∧ run_state s = ENGINE_RUNNING ∧ measurement_counter d ≠ 0) → timer_id d < 0 ∧ fd d < 0;
  in_order_arrays c d : dyns s !! c = Some d → flying (sense_value d) = None;
  in_order_blocks : blocks s = threshold_items P;
  in_order_owned : owned (e_os s) ((global_states s).*1 ++ X);
  in_order_globals : (global_states s).*2 = match run_state s with ENGINE_RUNNING => globals_of P (current_purpose s) | _ => [] end;
  in_order_current : is_Some (state_at P !! current_state s) ∧ is_global P (current_state s) = false ∧ current_purpose s ∈ purposes P;
}.

Lemma shows_active X π s c q : shows X π s → state_of P c = Some q →
  is_Some ((live π).1 !! c) ↔ active s q ∧ run_state s = ENGINE_RUNNING.
Proof.
  intros [Hs Hrun] Hq. destruct (in_place_fields P _ _ _ _ _ (Hs 0)) as (_ & Hst & Hgl & _). unfold active. rewrite Hst, Hgl.
  destruct (run_state s) eqn:Er; [by rewrite (halted_live P π Hrun), lookup_empty; split; [intros [? ?]|intros [_ ?]]|rename Hrun into Hr|by rewrite (halted_live P π Hrun), lookup_empty; split; [intros [? ?]|intros [_ ?]]].
  rewrite (placed_live P π (running_placed P π Hr)). split.
  - intros (r & Hr' & _ & Hor). rewrite Hq in Hr'. by injection Hr' as <-.
  - intros [Hor _]. exists q. split_and!; [done| |done]. destruct Hor as [->|Hg]; [by apply Hr|].
    rewrite (placed_globals P π (running_placed P π Hr)) in Hg. destruct (_ =? NULL); [set_solver|]. by eapply (globals_nonnull P HP).
Qed.

Lemma shows_in_order X π s : shows X π s → in_order X s.
Proof.
  intros Hsh. pose proof Hsh as [Hs Hrun]. destruct (in_place_fields P _ _ _ _ _ (Hs 0)) as (Hpu & Hst & Hgl & _).
  assert (Hblk : blocks s = threshold_items P ∧ owned (e_os s) ((global_states s).*1 ++ X)).
  { pose proof (in_place_heap P X 0 s π s (Hs 0)) as [_ Hh]. destruct (dyns s !! 0) as [d|] eqn:Hd; simpl in Hh; [|done].
    by rewrite (in_place_no_array X π s 0 d Hs Hd) in Hh. }
  destruct (Hs 0) as (gs & _ & L & HT & _). split.
  - intros q Hq. exists (L q). destruct (proj1 (tracks_queues P _ _ _ _ HT) q Hq) as [Hrep Hin]. split; [done|].
    assert (Hlive : ∀ c, state_of P c = Some q → c ∈ L q ↔ is_Some ((live π).1 !! c) ∧ ∃ d, dyns s !! c = Some d ∧ measurement_counter d ≠ 0).
    { intros c Hc. destruct (state_of_at P HP c q Hc) as [_ [conf Hcc]].
      destruct (tracks_cause P _ _ _ _ HT c conf q Hcc Hc) as (d & Hd & _ & Hstd). unfold stands in Hstd.
      destruct ((live π).1 !! c) as [w|].
      - destruct Hstd as (Hr & Hi & _). rewrite (Hi ltac:(done)), <-(rel_left _ _ _ Hr). split; [intros; split; [by eexists|eauto]|].
        intros (_ & d' & Hd' & Hm). by simplify_eq.
      - destruct Hstd as (_ & _ & Hn). split; [done|]. intros [[? ?] _]. done. }
    intros c. split.
    + intros Hc. specialize (Hin c Hc). destruct (proj1 (Hlive c Hin) Hc) as [Hl Hd]. destruct (proj1 (shows_active X π s c q Hsh Hin) Hl). by split_and!.
    + intros (Hc & Ha & Er & Hd). apply (Hlive c Hc). split; [|done]. by apply (shows_active X π s c q Hsh Hc).
  - intros c d q Hc Hd Hn. destruct (state_of_at P HP c q Hc) as [_ [conf Hcc]].
    destruct (tracks_cause P _ _ _ _ HT c conf q Hcc Hc) as (d' & Hd' & _ & Hstd). rewrite Hd in Hd'. injection Hd' as <-. unfold stands in Hstd.
    destruct ((live π).1 !! c) as [w|] eqn:Hw; [|by apply Hstd]. destruct Hstd as (Hr & _ & Hstop). apply Hstop.
    destruct (decide (left w = 0)) as [|Hne]; [done|]. exfalso. apply Hn.
    destruct (proj1 (shows_active X π s c q Hsh Hc) ltac:(by rewrite Hw)). split_and!; [done..|]. by rewrite (rel_left _ _ _ Hr).
  - intros c d. by eapply in_place_no_array.
  - apply Hblk.
  - apply Hblk.
  - rewrite Hgl. destruct (run_state s); [apply (halted_globals P π Hrun)| |apply (halted_globals P π Hrun)].
    rewrite (placed_globals P π (running_placed P π Hrun)), Hpu. rewrite (proj2 (Z.eqb_neq _ _) (running_purpose P π Hrun)). done.
  - rewrite Hst, Hpu. assert (Hh : halted P π → is_Some (state_at P !! at_state π) ∧ is_global P (at_state π) = false ∧ at_purpose π ∈ purposes P).
    { intros [_ (_ & ? & ?) _ ? _]. by split_and!. }
    destruct (run_state s); [by apply Hh| |by apply Hh].
    destruct (placed_state P π (running_placed P π Hrun) (running_state P π Hrun)). split_and!; [done..|].
    apply (placed_purpose P π (running_placed P π Hrun)), Hrun.
Qed.
End Run.
