(* ===== verification/EngineDemo.v ===== *)
(** A small world for the engine and a profile, for the witnesses: memory and
    timers never run out, the connector takes every payload, the monotonic
    clock stands still. *)

From Stdlib Require Import SpecFloat.
From S2P Require Import Prelude Links Queue QueueSq Ubx UbxInv UbxDemo EngValue Engine EngineInv EngineCause EngineTrack EngineMove EngineSay EngineSpec EngineReact EngineRun.

#[global] Instance demo_engine_os : EngineOs demo_os := {
  clock_get k := match k with
    | CLOCK_REALTIME => gets (λ w, (OK, ((d_time w).1 `mod` 2 ^ 31, 0)))
    | CLOCK_MONOTONIC => mret (OK, (2000000, 0))
    end;
  timer_setup _ _ := demo_alloc;
  timer_setup_date _ _ := demo_alloc;
  timer_stop _ := mret tt;
  fd_unregister _ := mret tt;
  close_fd _ := mret tt;
  active_init _ := mret tt;
  active_uninit _ := mret tt;
  active_read _ := mret OK;
  irq_init _ := mret (MkIrqStarted OK None None);
  irq_uninit _ := mret tt;
  ui_event _ := mret tt;
  select_connector _ := mret (OK, Some (MkConnector true true true));
  connector_send _ _ _ := mret OK;
  log_payload _ _ := mret tt;
  have_logs := mret false;
  log_start _ _ := mret tt;
  conman_init := mret OK;
  conman_send_sms _ _ := mret tt;
  conman_uninit := mret tt;
  rtc_read_value i := gets (λ w, u32 (if i =? 0 then (d_rtc w).1 else (d_rtc w).2));
  rtc_save_value v i := modify (λ w, DemoOs (d_next w) (d_time w) (d_sent w) (d_seen w) (if i =? 0 then (v, (d_rtc w).2) else ((d_rtc w).1, v)));
  property_min_interval_minutes d := mret d;
  property_max_per_day d := mret d;
  cancel_connection := mret tt;
  backend_update_cb _ := mret tt;
}.

(** The double of an integer. *)
Definition double_of (n : Z) : double := binary_normalize prec emax n 0 false.

Definition temperature : ts_sense_info := MkSenseInfo 0x00060100 (VALUEDOUBLE (double_of (-40))) false false false false true.
Definition humidity : ts_sense_info := MkSenseInfo 0x00060200 (VALUEDOUBLE (double_of 0)) false false false false true.
Definition above (n : Z) : ts_threshold := MkThreshold (VALUEDOUBLE (double_of n)) isGt false.

(** A cause that measures every ten seconds and has [count] values above [n]
    in a row to trigger; [order] is its place in an ordered event. *)
Definition watch (e order count n : Z) (info : ts_sense_info) : ts_cause :=
  MkCause e order false false 10000 0 false count false false [above n] info.

Definition event_with (q id goto : Z) (cs : list Z) : ts_event :=
  MkEvent q id false true false false false goto (-1) None None (zlength cs) cs.

(** Purpose 100 has state 200, where two causes above 30 and 50 lead to state
    300, and state 300, which one cause leaves again; state 400 is global. *)
Definition demo_states : list (Z * ts_state) :=
  [(200, MkState 100 0 false [500]); (300, MkState 100 1 false [600]); (400, MkState 100 2 true [700])].
Definition demo_events : list (Z * ts_event) :=
  [(500, event_with 200 0 1 [1000; 1100]); (600, event_with 300 1 0 [1200]); (700, event_with 400 2 (-1) [1300; 1400])].
Definition demo_causes : list (Z * ts_cause) :=
  [(1000, watch 500 0 2 30 temperature); (1100, watch 500 0 0 50 humidity);
   (1200, watch 600 0 0 0 temperature); (1300, watch 700 1 0 0 temperature); (1400, watch 700 2 0 0 humidity)].
Definition demo_profile : ts_profile := MkProfile [49] 1 [100] {[ 100 := MkPurpose 1 0 [200; 300; 400] ]}
  (list_to_map demo_states) (list_to_map demo_events) (list_to_map demo_causes) ∅.

(** What calloc and profile_parse leave in a cause. *)
Definition new_cause (info : ts_sense_info) : ts_cause_dyn :=
  MkDyn (-1) (0, 0) (-1) false false 0 0 (info_sId info) (VALUEDOUBLE (S754_zero false)) (0, 0) (VALUEDOUBLE (S754_zero false)).

Definition demo_engine : engine_s demo_os := Engine
  (list_to_map ((λ a, (a, 0)) <$> [228; 232; 328; 332; 428; 432; 1004; 1104; 1204; 1304; 1404]))
  (new_cause ∘ sense_info <$> cause_at demo_profile) ((λ _, 0) <$> event_at demo_profile) ∅ NULL NULL [] ENGINE_STOPPED 0 0 false false []
  (DemoOs 8 (1000000, 0) [] [] (0, 0)).

(** * The laws *)

#[global, refine] Instance demo_engine_laws : EngineLaws demo_os := { connected := true }.
Proof.
  all: intros; try intros e X Ho; cbn -[Z.pow Z.modulo]; try (apply returns_ret; by split); try (apply returns_modify; by split).
  - destruct k; [apply returns_gets|apply returns_ret]; cbn [fst snd]; (split; [done|]); unfold OK.
    + pose proof (Z.mod_pos_bound (d_time e).1 (2 ^ 31)). assert (2 ^ 31 < 2 ^ 32) by done. split_and!; (done || lia).
    + split_and!; done.
  - destruct Ho as (Hnd & Hn & HX). split; [|lia]. split; [done|]. split; simpl; [lia|]. intros p Hp. specialize (HX p Hp). lia.
  - destruct Ho as (Hnd & Hn & HX). split; [|lia]. split; [done|]. split; simpl; [lia|]. intros p Hp. specialize (HX p Hp). lia.
  - split; [done|]. apply u32_range.
  - pose proof (demo_alloc_ok e X H) as [_ Ho]. destruct H as (_ & Hn & _). rewrite (proj2 (Z.eqb_neq _ _)) in Ho by lia. split; [lia|exact Ho].
Defined.

(** * The profile and the engine are in order *)

(** The entries of a map that is given as a list, one by one. *)
Ltac entries H := apply elem_of_list_to_map_2 in H; simpl in H;
  repeat (apply elem_of_cons in H as [H|H]; [injection H as -> ->|]); [..|by apply elem_of_nil in H].

Lemma demo_state_of c q : state_of demo_profile c = Some q → (c, q) ∈ [(1000, 200); (1100, 200); (1200, 300); (1300, 400); (1400, 400)].
Proof.
  unfold state_of. destruct (cause_at demo_profile !! c) as [conf|] eqn:Hc; [|done]. entries Hc; vm_compute; intros [= <-]; set_solver.
Qed.

Lemma demo_purpose_at u pu : purpose_at demo_profile !! u = Some pu → u = 100 ∧ pu = MkPurpose 1 0 [200; 300; 400].
Proof. simpl. rewrite lookup_singleton_Some. naive_solver. Qed.

Ltac members H := repeat (apply elem_of_cons in H as [->|H]); [..|by apply elem_of_nil in H].

Lemma demo_named id : named demo_profile id → id = -1 ∨ id = 0 ∨ id = 1.
Proof. intros [->|(e & ev & He & <-)]; [by left|]. entries He; vm_compute; auto. Qed.

Lemma demo_profile_ok : profile_ok demo_profile.
Proof.
  split.
  - intros u ->%list_elem_of_singleton. by split; [eexists|].
  - intros u pu q [-> ->]%demo_purpose_at Hq. simpl in Hq. members Hq; (split; [done|]); by eexists.
  - intros u pu [-> ->]%demo_purpose_at. simpl. apply (bool_decide_unpack (NoDup _)). by vm_compute.
  - intros q st Hq. entries Hq; by eexists.
  - intros q st e Hq He. entries Hq; simpl in He; members He; by eexists.
  - intros e ev He. entries He; eexists; (split; [done|by left]).
  - intros e ev c He Hc. entries He; simpl in Hc; members Hc; by eexists.
  - intros c conf Hc. entries Hc; eexists; (split; [done|]); simpl; set_solver.
  - intros q. unfold state_causes. destruct (state_at demo_profile !! q) as [st|] eqn:Hq; [|constructor].
    entries Hq; apply (bool_decide_unpack (NoDup _)); by vm_compute.
  - intros e ev He. entries He; by vm_compute.
  - intros c conf Hc. entries Hc; by left.
  - intros c conf Hc. entries Hc; by vm_compute.
  - intros c conf thr Hc Ht. entries Hc; simpl in Ht; members Ht; done.
  - intros u id st Hid Hq. destruct (purpose_at demo_profile !! u) as [pu|] eqn:Hu.
    + apply demo_purpose_at in Hu as [-> _]. destruct (demo_named id Hid) as [->|[->| ->]]; vm_compute in Hq; by injection Hq as <-.
    + unfold lookup_state in Hq. rewrite Hu in Hq. by vm_compute in Hq.
  - intros c q [conf Hc] [st Hq]. entries Hc; entries Hq; by vm_compute.
  - intros q r [st Hq] [st' Hr]. entries Hq; entries Hr; by vm_compute.
Qed.

Lemma demo_queues : queues demo_profile (links demo_engine) (λ _, []).
Proof.
  split.
  - intros q [st Hq]. split; [|set_solver]. entries Hq; (split_and!; [by vm_compute..|done|apply (bool_decide_unpack (NoDup _)); by vm_compute|constructor]).
  - intros c [conf Hc]. entries Hc; by eexists.
Qed.

Lemma demo_parsed : parsed demo_profile [] demo_engine.
Proof.
  split; try done.
  - intros c conf Hc. exists (new_cause (sense_info conf)). split; [cbn [dyns demo_engine]; rewrite lookup_fmap; by rewrite Hc|].
    split; [by split|]. split; [done|]. intros conf' Hc'. simplify_eq. entries Hc; (split; [|done]); by split; [eexists|].
  - intros c d. cbn [dyns demo_engine]. rewrite lookup_fmap. destruct (cause_at demo_profile !! c) as [conf|] eqn:Hc; [|done]. by intros [= <-].
  - apply demo_queues.
  - intros e [ev He]. entries He; by eexists.
  - split_and!; [by apply NoDup_singleton|done|set_solver].
Qed.

(** Two events of one state that watch the same sense: the first one leads to
    state 300, the second one is only sent. *)
Definition stale_states : list (Z * ts_state) := [(200, MkState 100 0 false [500; 510]); (300, MkState 100 1 false [])].
Definition stale_events : list (Z * ts_event) :=
  [(500, event_with 200 0 1 [1000]); (510, event_with 200 1 (-1) [1010])].
Definition stale_causes : list (Z * ts_cause) := [(1000, watch 500 0 0 30 temperature); (1010, watch 510 0 0 40 temperature)].
Definition stale_profile : ts_profile := MkProfile [49] 1 [100] {[ 100 := MkPurpose 1 0 [200; 300] ]}
  (list_to_map stale_states) (list_to_map stale_events) (list_to_map stale_causes) ∅.
Definition stale_engine : engine_s demo_os := Engine (list_to_map ((λ a, (a, 0)) <$> [228; 232; 328; 332; 1004; 1014]))
  (new_cause ∘ sense_info <$> cause_at stale_profile) ((λ _, 0) <$> event_at stale_profile) ∅ NULL NULL [] ENGINE_STOPPED 0 0 false false []
  (DemoOs 8 (1000000, 0) [] [] (0, 0)).

(** Starting, and a value of the first cause for all causes of the sense. *)
Definition stale_run : M (engine_s demo_os) bool :=
  _ ← profile_main stale_profile;
  set_cause 1000 (set_value (VALUEDOUBLE (double_of 41)));;
  handle_cause stale_profile 9 1000.

(** The states that were shown and the events that were sent. *)
Definition told (o : eng_out) : option Z :=
  match o with UiState _ q => Some q | Send _ _ priv => Some priv | _ => None end.
