(* ===== verification/EngineDeliver.v ===== *)
(** handle_cause: one value for all causes of a state that watch the sense, in
    the order of the state's queue, as long as none of them moves the engine;
    before that, what the handling of a value leaves alone: reports touch
    neither the queues nor what the causes are measured for, and neither does an
    event that only rearms its causes. *)

From Stdlib Require Import SpecFloat.
From stdpp Require Import functions.
From S2P Require Import Prelude Links Queue QueueSq Ubx UbxInv EngValue Engine EngineInv EngineCause EngineTrack EngineMove EngineSay EngineSpec EngineReact EngineRun.

(** * What a value leaves alone *)

(** What the walk along a queue sees of a cause. *)
Definition view (d : ts_cause_dyn) : ts_value * Z * Z := (sense_value d, measurement_counter d, sId d).

Section Frame.
Context {E : Type} `{Os E} `{EngineOs E}.
Context (P : ts_profile).
Local Abbreviation st := (engine_s E).
Implicit Types (s : st).

Definition frame s s' : Prop := links s' = links s ∧ view <$> dyns s' = view <$> dyns s.

#[global] Instance frame_preorder : PreOrder frame.
Proof. split; [by intros s|]. intros s1 s2 s3 [? ?] [? ?]. split; congruence. Qed.

(** Operations that keep the frame whenever they return. *)
Class Framed {A} (op : M st A) : Prop := framed s : partial op s (λ _ s', frame s s').

#[global] Instance framed_ret {A} (a : A) : Framed (mret a).
Proof. intros s. by apply partial_ret. Qed.
#[global] Instance framed_bind {A B} (op : M st A) (k : A → M st B) : Framed op → (∀ a, Framed (k a)) → Framed (op ≫= k).
Proof.
  intros Hop Hk s. apply partial_bind. eapply partial_mono; [exact (Hop s)|]. intros a s1 H1'. eapply partial_mono; [exact (Hk a s1)|].
  intros b s2 H2'. cbv beta in *. by transitivity s1.
Qed.
#[global] Instance framed_eos {A} (op : M E A) : Framed (eos op).
Proof. intros s a s'. unfold eos, zoom. destruct (op (e_os s)) as [[x e]| |]; [|done..]. by intros [= <- <-]. Qed.
#[global] Instance framed_deref {A} (f : st → option A) : Framed (deref f).
Proof. intros s a s'. unfold deref. destruct (f s); [|done]. by intros [= <- <-]. Qed.
#[global] Instance framed_defined {A} (o : option A) : Framed (defined o).
Proof. apply framed_deref. Qed.
#[global] Instance framed_gets {A} (f : st → A) : Framed (gets f).
Proof. intros s a s'. by intros [= <- <-]. Qed.
#[global] Instance framed_assert b : Framed (assert b).
Proof. intros s. by apply partial_assert. Qed.
#[global] Instance framed_put o : Framed (put o).
Proof. intros s [] s'. by intros [= <-]. Qed.
#[global] Instance framed_orders (f : gmap Z Z → gmap Z Z) : Framed (modify (λ s, put_orders (f (orders s)) s)).
Proof. intros s [] s'. by intros [= <-]. Qed.
#[global] Instance framed_if {A} (b : bool) (x y : M st A) : Framed x → Framed y → Framed (if b then x else y).
Proof. by destruct b. Qed.
#[global] Instance framed_option {A B} (o : option A) (x : A → M st B) (y : M st B) :
  (∀ a, Framed (x a)) → Framed y → Framed (match o with Some a => x a | None => y end).
Proof. by destruct o. Qed.
#[global] Instance framed_pair {A B C} (p : A * B) (x : A → B → M st C) :
  (∀ a b, Framed (x a b)) → Framed (let '(a, b) := p in x a b).
Proof. by destruct p. Qed.

Lemma framed_set c f : (∀ d, view (f d) = view d) → Framed (set_cause c f).
Proof.
  intros Hf s [] s'. unfold set_cause, cause_dyn, deref, mbind, M_bind. destruct (dyns s !! c) as [d|] eqn:Hd; [|done]. intros [= <-].
  split; [done|]. simpl. rewrite fmap_insert, Hf. apply insert_id. by rewrite lookup_fmap, Hd.
Qed.
#[global] Instance framed_ts c ts : Framed (set_cause c (set_ts ts)).
Proof. by apply framed_set. Qed.
#[global] Instance framed_triggered c b : Framed (set_cause c (set_triggered b)).
Proof. by apply framed_set. Qed.
#[global] Instance framed_counter c n : Framed (set_cause c (set_threshold_counter n)).
Proof. by apply framed_set. Qed.

#[global] Instance framed_extramem c : Framed (sense_value_extramem c).
Proof. unfold sense_value_extramem, cause_dyn. apply _. Qed.
#[global] Instance framed_copy c : Framed (sense_value_copy c).
Proof.
  unfold sense_value_copy, cause_dyn. apply framed_bind; [apply _|]. intros d. apply framed_bind; [|apply _].
  destruct (sense_value d); apply _.
Qed.
#[global] Instance framed_collect {A} (f : Z → M st A) l : (∀ c, Framed (f c)) → Framed (collect f l).
Proof. intros Hf. induction l; simpl; apply _. Qed.
#[global] Instance framed_generate e b n cs : Framed (generate_payload P e b n cs).
Proof. unfold generate_payload, event_conf, state_conf, purpose_conf. apply _. Qed.
#[global] Instance framed_event_payload e : Framed (generate_event_payload P e).
Proof. unfold generate_event_payload, event_conf. apply _. Qed.
#[global] Instance framed_cause_payload c : Framed (generate_cause_payload P c).
Proof. unfold generate_cause_payload, cause_conf. apply _. Qed.
#[global] Instance framed_log p t : Framed (log_to p t).
Proof. unfold log_to. apply _. Qed.
#[global] Instance framed_send_to p url priv : Framed (send_to p url priv).
Proof. unfold send_to. apply _. Qed.
#[global] Instance framed_url e : Framed (url_of P e).
Proof. unfold url_of, event_conf. apply _. Qed.
#[global] Instance framed_log_event e : Framed (log_event P e).
Proof. unfold log_event. apply _. Qed.
#[global] Instance framed_log_cause c : Framed (log_cause P c).
Proof. unfold log_cause. apply _. Qed.
#[global] Instance framed_ts_engine_send p url priv : Framed (ts_engine_send p url priv).
Proof. unfold ts_engine_send. apply _. Qed.
#[global] Instance framed_send_event e : Framed (send_event P e).
Proof. unfold send_event. apply _. Qed.
#[global] Instance framed_send_cause c : Framed (send_cause P c).
Proof. unfold send_cause, cause_conf. apply _. Qed.
#[global] Instance framed_send_log url : Framed (send_log url).
Proof. unfold send_log. apply _. Qed.
#[global] Instance framed_can_send : Framed can_send_sms.
Proof. unfold can_send_sms. apply _. Qed.
#[global] Instance framed_send_sms n t : Framed (send_sms n t).
Proof. unfold send_sms. apply _. Qed.
#[global] Instance framed_actions e : Framed (do_event_actions P e).
Proof. unfold do_event_actions, event_conf. apply _. Qed.

(** * Causes without a limit *)

(** The causes of the event are measured without a limit. *)
Definition unlimited (e : Z) s : Prop := ∀ c d, c ∈ causes_in P e → dyns s !! c = Some d → measurement_counter d < 0.

Lemma frame_view s s' c d : frame s s' → dyns s' !! c = Some d → ∃ d0, dyns s !! c = Some d0 ∧ view d = view d0.
Proof.
  intros [_ Hv] Hd. assert (Hx : (view <$> dyns s) !! c = Some (view d)) by (by rewrite <-Hv, lookup_fmap, Hd).
  rewrite lookup_fmap in Hx. destruct (dyns s !! c) as [d0|]; [|done]. simpl in Hx. exists d0. split; [done|congruence].
Qed.

Lemma unlimited_frame e s s' : frame s s' → unlimited e s → unlimited e s'.
Proof. intros Hf Hu c d Hc Hd. destruct (frame_view s s' c d Hf Hd) as (d0 & Hd0 & [= _ -> _]). by eapply Hu. Qed.

(** One step whose frame is known, one that reads. *)
Lemma framed_then {A B} (op : M st A) (k : A → M st B) s0 s (Q : B → st → Prop) : Framed op → frame s0 s →
  (∀ a s', frame s0 s' → partial (k a) s' Q) → partial (op ≫= k) s Q.
Proof. intros Hop Hf Hk. apply partial_bind. eapply partial_mono; [exact (Hop s)|]. intros a s' Hs'. apply Hk. by transitivity s. Qed.

Lemma framed_end {A} (op : M st A) s0 s : Framed op → frame s0 s → partial op s (λ _ s', frame s0 s').
Proof. intros Hop Hf. eapply partial_mono; [exact (Hop s)|]. intros a s' Hs'. by transitivity s. Qed.

Lemma partial_deref {A B} (f : st → option A) (k : A → M st B) s (Q : B → st → Prop) :
  (∀ a, f s = Some a → partial (k a) s Q) → partial (a ← deref f; k a) s Q.
Proof.
  intros Hk. apply partial_bind. intros a s' E1. unfold deref in E1. destruct (f s) as [x|] eqn:Ef; [|done]. injection E1 as <- <-. by apply Hk.
Qed.

Lemma reinit_frame c s0 s : frame s0 s → (∀ d, dyns s0 !! c = Some d → measurement_counter d < 0) →
  partial (reinit_cause P c) s (λ _ s', frame s0 s').
Proof.
  intros Hf Hm. unfold reinit_cause. apply partial_deref. intros d Hd. destruct (frame_view s0 s c d Hf Hd) as (d0 & Hd0 & [= _ Hc _]).
  specialize (Hm d0 Hd0). rewrite (proj2 (Z.eqb_neq (measurement_counter d) 0)) by lia.
  apply framed_end; [|done]. unfold cause_conf. apply _.
Qed.

Lemma rearm_frame e s0 s : frame s0 s → unlimited e s0 → partial (init_event P (reinit_cause P) e) s (λ _ s', frame s0 s').
Proof.
  intros Hf Hu. unfold init_event, event_conf. apply partial_deref. intros ev He.
  assert (Hall : ∀ l s, l ⊆ causes ev → frame s0 s → partial (init_all (reinit_cause P) l) s (λ _ s', frame s0 s')).
  { intros l. clear s Hf. induction l as [|c l IH]; intros s Hl Hf; simpl; [by apply partial_ret|]. apply partial_bind.
    eapply partial_mono; [apply (reinit_frame c s0 s Hf)|].
    - intros d. apply Hu. unfold causes_in. rewrite He. apply Hl. by left.
    - intros r s' Hf'. cbv beta. destruct (r <? 0); [by apply partial_ret|]. apply IH; [set_solver|done]. }
  apply partial_bind. eapply partial_mono; [by apply Hall|]. intros r s' Hf'. apply framed_end; [|done].
  unfold set_expected_order_id. apply framed_if; [apply _|]. apply framed_bind; [|apply _]. apply (framed_orders (λ o, <[e:=FIRST_ORDER_ID]> o)).
Qed.

Lemma check_all_framed c l : Forall (λ thr, thr_geofence thr = false) l → ∀ ret, Framed (check_all P c l ret).
Proof.
  induction 1 as [|thr l Hg _ IH]; intros ret; simpl; [apply _|]. apply framed_bind; [|done]. unfold check_threshold. rewrite Hg.
  unfold cause_conf, cause_dyn. apply _.
Qed.

Section Value.
Context (c : Z) (conf : ts_cause).
Hypothesis Hc : cause_at P !! c = Some conf.
Hypothesis Hin : c ∈ causes_in P (cause_event conf).
Hypothesis Hgeo : Forall (λ thr, thr_geofence thr = false) (thresholds conf).

Lemma check_thresholds_frame s0 s : frame s0 s → unlimited (cause_event conf) s0 → partial (check_thresholds P c) s (λ _ s', frame s0 s').
Proof.
  intros Hf Hu. unfold check_thresholds, cause_conf. apply partial_deref. intros conf' E1. rewrite Hc in E1. injection E1 as <-.
  apply partial_deref. intros d Hd. destruct (frame_view s0 s c d Hf Hd) as (d0 & Hd0 & [= _ Hm _]). specialize (Hu c d0 Hin Hd0) as Hneg.
  destruct (measure_bias d).
  { apply framed_end; [|done]. apply framed_bind; [by apply framed_set|apply _]. }
  rewrite (proj2 (Z.ltb_ge 0 (measurement_counter d))) by lia. destruct (thresholds conf) as [|thr l] eqn:Eth; [by apply partial_ret|].
  eapply framed_then; [by apply check_all_framed|done|]. intros ret s1 Hf1. destruct (negb _).
  - apply partial_bind. destruct (negb (orderId conf =? 0)).
    + apply partial_bind. eapply partial_mono; [by apply rearm_frame|]. intros r s2 Hf2. apply partial_ret, partial_ret. done.
    + eapply partial_mono; [by apply framed_end, Hf1; apply _|]. intros r s2 Hf2. by apply partial_ret.
  - apply partial_deref. intros d1 _. eapply framed_then; [apply _|done|]. intros r s2 Hf2. destruct (_ && _); [by apply partial_ret|].
    destruct (negb (orderId conf =? 0)); [|by apply partial_ret]. unfold expected_order_id. apply partial_deref. intros n _.
    destruct (negb (orderId conf =? n)).
    + apply partial_bind. eapply partial_mono; [by apply rearm_frame|]. intros r' s3 Hf3. by apply partial_ret.
    + apply framed_end; [|done]. apply framed_bind; [|apply _]. apply (framed_orders (λ o, <[cause_event conf:=n + 1]> o)).
Qed.

Lemma event_triggered_frame s0 s : frame s0 s → unlimited (cause_event conf) s0 →
  partial (event_triggered P (cause_event conf)) s (λ b s', b = false → frame s0 s').
Proof.
  intros Hf Hu. unfold event_triggered, event_conf. apply partial_deref. intros ev _. eapply framed_then; [apply _|done|]. intros [] s1 Hf1.
  eapply framed_then; [|done|].
  { unfold purpose_conf. apply _. }
  intros pch s2 Hf2. eapply framed_then; [|done|].
  { unfold state_conf. apply _. }
  intros sch s3 Hf3. destruct sch; simpl.
  - apply partial_bind. intros [] s4 _. apply partial_ret. done.
  - apply partial_bind. eapply partial_mono; [by apply rearm_frame|]. intros r s4 Hf4. apply partial_ret. by intros _.
Qed.

Lemma free_valuearray_frame s0 s : frame s0 s → (∀ d, dyns s0 !! c = Some d → flying (sense_value d) = None) →
  partial (free_valuearray c) s (λ _ s', frame s0 s').
Proof.
  intros Hf Hq. unfold free_valuearray. apply partial_deref. intros d Hd. destruct (frame_view s0 s c d Hf Hd) as (d0 & Hd0 & [= Hv _ _]).
  specialize (Hq d0 Hd0). rewrite <-Hv in Hq. destruct (sense_value d); try by apply partial_ret. simpl in Hq.
  destruct (nonnull items); [done|by apply partial_ret].
Qed.

#[global] Instance framed_all_triggered l : Framed (all_causes_triggered l).
Proof. unfold all_causes_triggered. induction l as [|x l IH]; [apply _|]. unfold cause_dyn in *. apply _. Qed.

(** A value that moves the engine nowhere. *)
Lemma handle_cause_event_frame ts s : unlimited (cause_event conf) s → (∀ d, dyns s !! c = Some d → flying (sense_value d) = None) →
  partial (handle_cause_event P c ts) s (λ b s', b = false → frame s s').
Proof.
  intros Hu Hq. assert (Hf : frame s s) by done. unfold handle_cause_event, cause_conf, cause_dyn, event_conf. apply partial_deref. intros conf' E1. rewrite Hc in E1. injection E1 as <-.
  apply partial_deref. intros d _. do 3 (eapply (framed_then _ _ s); [apply _|done|]; intros ? ? ?).
  do 2 (eapply (framed_then _ _ s); [apply _|done|]; intros ? ? ?). apply partial_bind. eapply partial_mono; [by apply check_thresholds_frame|].
  intros ret s6 Hf6. do 2 (eapply (framed_then _ _ s); [apply _|done|]; intros ? ? ?). apply partial_bind.
  eapply partial_mono with (P := λ b s', b = false → frame s s').
  { destruct ret; simpl; [|apply partial_ret; by intros _]. apply partial_deref. intros ev _. eapply (framed_then _ _ s); [apply _|done|]. intros all s9 Hf9.
    destruct all; [by apply event_triggered_frame|apply partial_ret; by intros _]. }
  intros b s9 Hf9. destruct b.
  - apply partial_bind. intros [] s10 _. apply partial_ret. done.
  - apply partial_bind. eapply partial_mono; [by apply free_valuearray_frame; [apply Hf9|]|]. intros [] s10 Hf10. apply partial_ret. by intros _.
Qed.
End Value.
End Frame.

(** * The walk *)

(** * Without geofences the verdict is a function of the value *)

Definition plain (l : list ts_threshold) : Prop := Forall (λ thr, thr_geofence thr = false) l.

Lemma verdict_plain bias l ms ms' B v ret : plain l → length ms = length l → length ms' = length l →
  verdict bias ms B l v ret = verdict bias ms' B l v ret.
Proof.
  intros Hl. revert ms ms' B v ret. induction Hl as [|thr l Hg _ IH]; intros [|m ms] [|m' ms'] B v ret; try done. intros [= E1] [= E2]. simpl.
  assert (judge bias m B thr v = judge bias m' B thr v) as -> by (unfold judge; by rewrite Hg).
  destruct (judge bias m' B thr v) as [[[??]?]|]; [by apply IH|done].
Qed.

Lemma verdict_ret bias l ms B v ret ret' : is_Some (verdict bias ms B l v ret) → is_Some (verdict bias ms B l v ret').
Proof.
  revert ms B v ret ret'. induction l as [|thr l IH]; intros [|m ms] B v ret ret'; simpl; [by eexists|by eexists|done|].
  destruct (judge bias m B thr v) as [[[??]?]|]; [by apply IH|done].
Qed.

Section Pass.
Context (P : ts_profile).

Definition holds (conf : ts_cause) (w : cause_state) (v : ts_value) : option bool :=
  if decides conf w then
    snd <$> verdict (bias_of conf w) (replicate (length (thresholds conf)) true) (threshold_items P) (thresholds conf) v true
  else Some false.

(** One cause gets the value: where the engine is then, if it has not moved
    and everything is defined. *)
Definition deliver (c : Z) (v : ts_value) (π : place) : option place :=
  conf ← cause_at P !! c;
  ev ← event_at P !! cause_event conf;
  w ← (live π).1 !! c;
  h ← holds conf w v;
  let '(moved, π') := react P c conf ev w v h π in
  if moved : bool then None else Some π'.

(** The causes of the sense, one after the other. *)
Definition watches_sense (c sid : Z) : bool := from_option (λ conf, info_sId (sense_info conf) =? sid) false (cause_at P !! c).
Fixpoint pass (sid : Z) (v : ts_value) (l : list Z) (π : place) : option place :=
  match l with
  | [] => Some π
  | c :: l => if watches_sense c sid then π' ← deliver c v π; pass sid v l π' else pass sid v l π
  end.

Lemma holds_judgeable conf w v : plain (thresholds conf) → is_Some (holds conf w v) → decides conf w = true →
  judgeable (bias_of conf w) (threshold_items P) (thresholds conf) v.
Proof.
  intros Hp Hh Hd ms ret Hms. unfold holds in Hh. rewrite Hd in Hh.
  destruct (verdict _ (replicate _ _) _ _ _ _) as [x|] eqn:Ev; [|by destruct Hh]. apply (verdict_ret _ _ _ _ _ true).
  rewrite (verdict_plain _ _ ms (replicate (length (thresholds conf)) true)); [by rewrite Ev|done|done|]. by rewrite length_replicate.
Qed.

Lemma holds_verdict conf w v ms B' v' h : plain (thresholds conf) → length ms = length (thresholds conf) → decides conf w = true →
  verdict (bias_of conf w) ms (threshold_items P) (thresholds conf) v true = Some (B', v', h) → holds conf w v = Some h.
Proof.
  intros Hp Hms Hd Hv. unfold holds. rewrite Hd.
  rewrite (verdict_plain _ _ _ ms) by (done || by rewrite length_replicate). by rewrite Hv.
Qed.

Lemma react_undecided c conf ev w v h h' π : left w ≠ 0 → decides conf w = false → react P c conf ev w v h π = react P c conf ev w v h' π.
Proof.
  intros Hl Hd. unfold react. assert (observe P c conf w v h (live π) = observe P c conf w v h' (live π)) as ->; [|done].
  unfold observe, decides in *. destruct (zero_point w); [|done]. destruct (Z.ltb_spec 0 (left w)); [done|].
  rewrite (proj2 (Z.leb_le (left w) 0)) in Hd by lia. rewrite bool_decide_true in Hd by done. simpl in Hd.
  destruct (bool_decide (thresholds conf = [])); done.
Qed.
End Pass.

Section Deliver.
Context {E : Type} `{EngineLaws E}.
Context (P : ts_profile) (HP : profile_ok P).
Local Abbreviation st := (engine_s E).
Implicit Types (s : st).

(** No cause of the state has a limited number of measurements. *)
Definition boundless (q : Z) s : Prop := ∀ c d, state_of P c = Some q → dyns s !! c = Some d → measurement_counter d < 0.

Lemma boundless_unlimited q c conf s : boundless q s → cause_at P !! c = Some conf → state_of P c = Some q → unlimited P (cause_event conf) s.
Proof.
  intros Hb Hc Hq x d (xconf & Hx & Ex)%(elem_of_causes_in P HP) Hd. apply (Hb x d); [|done]. unfold state_of in *. rewrite Hx, Hc in *. simpl in *. by rewrite Ex.
Qed.

Lemma boundless_frame q s s' : frame s s' → boundless q s → boundless q s'.
Proof. intros Hf Hb c d Hq Hd. destruct (frame_view s s' c d Hf Hd) as (d0 & Hd0 & [= _ -> _]). by eapply Hb. Qed.

Definition here (π : place) (q : Z) : Prop := q = at_state π ∨ q ∈ at_globals π.

(** What the walk needs along the way: [cause] still has the value. *)
Record walking (X : list Z) (q cause : Z) (v : ts_value) (m : mem) (π : place) s : Prop := {
  walking_shows : shows P X π s;
  walking_run : run_state s = ENGINE_RUNNING;
  walking_here : here π q;
  walking_bound : boundless q s;
  walking_value : ∃ d, dyns s !! cause = Some d ∧ sense_value d = v;
  walking_links : links s = m;
}.

Lemma active_here X π s q : shows P X π s → active s q ↔ here π q.
Proof. intros [Hs _]. unfold active, here. destruct (in_place_fields P _ _ _ _ _ (Hs 0)) as (_ & -> & -> & _). done. Qed.

(** A cause of the state is live, without a limit. *)
Lemma walking_cause X q cause v m π s c conf : walking X q cause v m π s → cause_at P !! c = Some conf → state_of P c = Some q →
  ∃ d w, dyns s !! c = Some d ∧ fits P c d ∧ rel conf d w ∧ (live π).1 !! c = Some w ∧ left w < 0.
Proof.
  intros [Hsh Hrun Hh Hb _ _] Hc Hq. destruct (proj2 (shows_active P HP X π s c q Hsh Hq)) as [w Hw].
  { split; [by apply (active_here X π)|done]. }
  destruct Hsh as [Hs _]. destruct (in_place_live P HP X c c s π s conf w (Hs c) Hc Hw) as (d & Hd & Hfit & Hr).
  exists d, w. split_and!; [done..|]. rewrite <-(rel_left _ _ _ Hr). by eapply Hb.
Qed.

Lemma returns_with {A} (op : M st A) s (Q R : A → st → Prop) : returns op s Q → partial op s R → returns op s (λ a s', Q a s' ∧ R a s').
Proof. unfold returns, partial. destruct (op s) as [[a s']| |]; auto. Qed.

Lemma set_links c f s : partial (set_cause c f) s (λ _ s', links s' = links s).
Proof. unfold set_cause, cause_dyn. apply partial_deref. intros d _ [] s'. by intros [= <-]. Qed.

Lemma react_stays c conf ev w v h π π' : react P c conf ev w v h π = (false, π') → at_state π' = at_state π ∧ at_globals π' = at_globals π.
Proof.
  unfold react. destruct (observe P c conf w v h (live π)) as [b t]. destruct (b && _); [|by intros [= <-]].
  unfold fire. destruct (leads P ev _) as [[??]|]; [done|]. by intros [= <-].
Qed.

(** What the specification gives is what was delivered. *)
Lemma deliver_react c v π π' conf ev w h ms B' v' : cause_at P !! c = Some conf → event_at P !! cause_event conf = Some ev →
  (live π).1 !! c = Some w → left w ≠ 0 → plain (thresholds conf) → deliver P c v π = Some π' →
  (decides conf w = true → length ms = length (thresholds conf) ∧
     verdict (bias_of conf w) ms (threshold_items P) (thresholds conf) v true = Some (B', v', h)) →
  react P c conf ev w v h π = (false, π').
Proof.
  intros Hc He Hw Hl Hpl Hdel Hv. unfold deliver in Hdel. rewrite Hc in Hdel. simpl in Hdel. rewrite He in Hdel. simpl in Hdel.
  rewrite Hw in Hdel. simpl in Hdel. destruct (holds P conf w v) as [h'|] eqn:Eh; [|done]. simpl in Hdel.
  assert (react P c conf ev w v h π = react P c conf ev w v h' π) as ->.
  { destruct (decides conf w) eqn:Ed; [|by apply react_undecided]. destruct (Hv eq_refl) as [Hms Hv'].
    rewrite (holds_verdict P conf w v ms B' v' h) in Eh by done. by injection Eh as ->. }
  destruct (react P c conf ev w v h' π) as [[] ?]; [done|]. by injection Hdel as ->.
Qed.

(** The value is delivered to one cause. *)
Lemma deliver_ok X q cause v m π π' s c conf conf0 ev ts : walking X q cause v m π s → flying v = None →
  cause_at P !! cause = Some conf0 → state_of P cause = Some q → info_sId (sense_info conf) = info_sId (sense_info conf0) →
  cause_at P !! c = Some conf → state_of P c = Some q → event_at P !! cause_event conf = Some ev →
  (sendLog ev = true → connected = true) → typed conf v → plain (thresholds conf) → deliver P c v π = Some π' →
  ∀ from, dyns s !! cause = Some from →
  returns (set_cause c (copy_sense_value from);; handle_cause_event P c (Some ts)) s (λ b s', b = false ∧ walking X q cause v m π' s').
Proof.
  intros Hwalk Hfl Hc0 Hq0 Hid Hc Hq He Hlog Hty Hpl Hdel from Hfrom.
  destruct (walking_cause _ _ _ _ _ _ _ c conf Hwalk Hc Hq) as (d & w & Hd & Hfit & Hr & Hw & Hneg).
  destruct (walking_cause _ _ _ _ _ _ _ cause conf0 Hwalk Hc0 Hq0) as (from' & _ & Hfrom' & Hfit0 & _).
  rewrite Hfrom in Hfrom'. injection Hfrom' as <-. destruct (Hfit0 conf0 Hc0) as [_ Hid0].
  destruct Hwalk as [[Hs Hrun'] Hrun Hh Hb (from' & Hf' & Hv) Hm]. rewrite Hfrom in Hf'. injection Hf' as <-. rewrite Hrun in Hrun'.
  set (d1 := copy_sense_value from d). assert (Hd1v : sense_value d1 = v) by done.
  apply returns_bind. eapply returns_mono; [eapply returns_with; [|apply set_links]|].
  { eapply (in_place_set P HP X c s π s conf d (copy_sense_value from) w w (Hs c)); [done|done|done|lia|lia|by destruct Hr; split| |].
    - intros conf' Hc'. rewrite Hc in Hc'. injection Hc' as <-. simpl. rewrite Hv, Hid0. by split.
    - simpl. rewrite Hv, Hfl. symmetry. by eapply in_place_no_array. }
  intros [] s1 [(Hd1 & Hb1 & Hs1) Hl1]. rewrite (track_same π w c Hw) in Hs1.
  assert (Hdc : dyns s1 !! c = Some d1) by (by rewrite Hd1, lookup_insert_eq).
  assert (Hb1' : boundless q s1).
  { intros x dx Hxq. rewrite Hd1. destruct (decide (x = c)) as [->|Hne]; [rewrite lookup_insert_eq; intros [= <-]; by eapply (Hb c d)|].
    rewrite lookup_insert_ne by done. by apply Hb. }
  assert (Hblk : blocks s1 = threshold_items P) by (rewrite Hb1; by eapply in_place_blocks).
  eapply returns_mono; [eapply returns_with|].
  { apply (handle_cause_event_ok P HP X c s π s1 conf ev w d1 (Some ts)); [done|done|done|done|done|done|done|lia|].
    intros Hdec. rewrite Hblk. apply (holds_judgeable P); [done| |done]. unfold deliver in Hdel. rewrite Hc in Hdel. simpl in Hdel.
    rewrite He in Hdel. simpl in Hdel. rewrite Hw in Hdel. simpl in Hdel. change (sense_value d1) with (sense_value from). rewrite Hv.
    destruct (holds P conf w v); [by eexists|done]. }
  { apply (handle_cause_event_frame P c conf Hc); [by apply (elem_of_causes_in P HP); eauto|done|by eapply boundless_unlimited|].
    intros d' Hd'. rewrite Hdc in Hd'. injection Hd' as <-. by rewrite Hd1v. }
  intros b s2 [(h & Hver & Hre) Hfr]. rewrite Hd1v, Hblk in *.
  assert (Hreact : react P c conf ev w v h π = (false, π')).
  { destruct (decides conf w) eqn:Ed.
    - destruct (Hver eq_refl) as (ms & B' & v' & Hms & Hvv). eapply (deliver_react c v π π' conf ev w h ms B' v'); [done..|lia|done|done|]. by split.
    - eapply (deliver_react c v π π' conf ev w h [] ∅ v); [done..|lia|done|done|]. by rewrite Ed. }
  destruct (observe P c conf w v h (live π)) as [b1 t] eqn:Eobs. rewrite Hreact in Hre. destruct Hre as (-> & Hrun2 & o & _ & Hs2).
  split; [done|]. specialize (Hfr eq_refl). destruct (react_stays _ _ _ _ _ _ _ _ Hreact) as [E1 E2].
  destruct (in_place_fields P _ _ _ _ _ (Hs2 0)) as (_ & _ & _ & Hr2 & _). simpl in Hr2. rewrite Hrun in Hr2. split.
  - split; [|by rewrite Hr2]. intros c'. by eapply in_place_self.
  - done.
  - unfold here. by rewrite E1, E2.
  - by eapply boundless_frame.
  - assert (Hx : ∃ dx, dyns s1 !! cause = Some dx ∧ sense_value dx = v).
    { rewrite Hd1. destruct (decide (cause = c)) as [->|Hne]; [rewrite lookup_insert_eq; eauto|rewrite lookup_insert_ne by done; eauto]. }
    destruct Hx as (dx & Hdx & Hvx). assert (Hvw : (view <$> dyns s2) !! cause = Some (view dx)) by (by rewrite (proj2 Hfr), lookup_fmap, Hdx).
    rewrite lookup_fmap in Hvw. destruct (dyns s2 !! cause) as [d2|]; [|done]. simpl in Hvw. exists d2. split; [done|]. unfold view in Hvw. congruence.
  - destruct Hfr as [-> _]. by rewrite Hl1.
Qed.

(** What a driver must know about the causes of the state that watch the sense. *)
Record deliverable (q sid : Z) (v : ts_value) : Prop := {
  deliverable_value : flying v = None;
  deliverable_cause c conf ev : cause_at P !! c = Some conf → state_of P c = Some q → info_sId (sense_info conf) = sid →
    event_at P !! cause_event conf = Some ev → typed conf v ∧ plain (thresholds conf) ∧ (sendLog ev = true → connected = true);
}.

Lemma walk_ok X q cause v m conf0 t π' : deliverable q (info_sId (sense_info conf0)) v → cause_at P !! cause = Some conf0 → state_of P cause = Some q →
  ∀ l2 l1 fuel π s, walking X q cause v m π s → sseg m (entry <$> l1 ++ l2) NULL → Forall (λ x, x ≠ NULL) (entry <$> l2) →
  (∀ c, c ∈ l2 → state_of P c = Some q) → pass P (info_sId (sense_info conf0)) v l2 π = Some π' → (length l2 < fuel)%nat →
  returns (loop fuel (λ x : Z * bool, let '(it, changing) := x in
    if nonnull it then
      let c := it - ACTIVE_ENTRY in
      from ← cause_dyn cause;
      d ← cause_dyn c;
      changing ← (if sId d =? sId from then
        set_cause c (copy_sense_value from);;
        b ← handle_cause_event P c (Some t);
        mret (b || changing) else mret changing);
      next ← on_links (load (c + ACTIVE_ENTRY + FLINK));
      mret (inl (next, changing))
    else mret (inr changing)) (hd_or NULL (entry <$> l2), false)) s (λ b s', b = false ∧ walking X q cause v m π' s').
Proof.
  intros Hdv Hc0 Hq0. induction l2 as [|c l2 IH]; intros l1 fuel π s Hw Hseg Hnn Hq Hpass Hfuel; (destruct fuel as [|fuel]; [simpl in Hfuel; lia|]);
    rewrite loop_S; apply returns_bind.
  { simpl in *. injection Hpass as <-. apply returns_ret. simpl. by apply returns_ret. }
  change (hd_or NULL (entry <$> c :: l2)) with (entry c). cbv beta iota. assert (nonnull (entry c) = true) as -> by (unfold nonnull; rewrite (proj2 (Z.eqb_neq _ _)); [done|]; by inversion Hnn).
  cbv zeta. replace (entry c - ACTIVE_ENTRY) with c by (unfold entry; lia).
  destruct (walking_cause _ _ _ _ _ _ _ cause conf0 Hw Hc0 Hq0) as (from & _ & Hfrom & Hfit0 & _). destruct (Hfit0 conf0 Hc0) as [_ Hid0].
  pose proof (Hq c ltac:(by left)) as Hqc. destruct (state_of_at P HP c q Hqc) as [_ [conf Hc]].
  destruct (walking_cause _ _ _ _ _ _ _ c conf Hw Hc Hqc) as (d & w & Hd & Hfit & _). destruct (Hfit conf Hc) as [_ Hid].
  eapply returns_bind, returns_deref; [exact Hfrom|]. eapply returns_bind, returns_deref; [exact Hd|]. rewrite Hid, Hid0.
  simpl in Hpass. unfold watches_sense in Hpass. rewrite Hc in Hpass. simpl in Hpass.
  apply returns_bind. eapply returns_mono with (P := λ b s', b = false ∧ ∃ π1, pass P (info_sId (sense_info conf0)) v l2 π1 = Some π' ∧ walking X q cause v m π1 s').
  { destruct (Z.eqb_spec (info_sId (sense_info conf)) (info_sId (sense_info conf0))) as [Es|]; [|apply returns_ret; eauto].
    destruct (deliver P c v π) as [π1|] eqn:Edel; [|done]. simpl in Hpass. destruct (cause_ok P HP c conf Hc) as (ev & He & _).
    destruct (deliverable_cause _ _ _ Hdv c conf ev Hc Hqc Es He) as (Hty & Hpl & Hlog).
    apply returns_assoc, returns_bind. eapply returns_mono; [by eapply (deliver_ok X q cause v m π π1 s c conf conf0 ev t Hw (deliverable_value _ _ _ Hdv))|].
    intros b s1 [-> Hw1]. apply returns_ret. eauto. }
  intros b s1 [-> (π1 & Hpass1 & Hw1)]. apply returns_bind. unfold on_links. apply returns_zoom. rewrite (walking_links _ _ _ _ _ _ _ Hw1).
  eapply returns_load; [|apply returns_ret].
  { rewrite fmap_app in Hseg. simpl in Hseg. replace (c + ACTIVE_ENTRY + FLINK) with (entry c) by (unfold entry, FLINK; lia).
    by eapply sseg_flink. }
  replace (put_links m s1) with s1 by (destruct Hw1 as [_ _ _ _ _ <-]; by destruct s1).
  apply (IH (l1 ++ [c]) fuel π1 s1); [done|by rewrite <-app_assoc|by inversion Hnn| |done|simpl in Hfuel; lia].
  intros x Hx. apply Hq. by right.
Qed.

(** The value of [cause] reaches exactly the causes of its state that watch the
    same sense, in the order in which they were started. *)
Lemma handle_cause_ok X π s q cause conf0 d0 v fuel : shows P X π s → run_state s = ENGINE_RUNNING → here π q → boundless q s →
  cause_at P !! cause = Some conf0 → state_of P cause = Some q → dyns s !! cause = Some d0 → sense_value d0 = v →
  deliverable q (info_sId (sense_info conf0)) v → (length (state_causes P q) < fuel)%nat →
  ∃ l, l ≡ₚ state_causes P q ∧ sq_repr (links s) (q + ACTIVE_CAUSES) (entry <$> l) ∧
    ∀ π', pass P (info_sId (sense_info conf0)) v l π = Some π' →
      returns (handle_cause P fuel cause) s (λ b s', b = false ∧ shows P X π' s' ∧ links s' = links s).
Proof.
  intros Hsh Hrun Hhere Hb Hc0 Hq0 Hd0 Hv Hdv Hfuel. destruct (state_of_at P HP cause q Hq0) as [Hq _].
  destruct (in_order_queues P X s (shows_in_order P HP X π s Hsh) q Hq) as (l & Hrep & Hl). exists l.
  assert (Hperm : l ≡ₚ state_causes P q).
  { apply NoDup_Permutation; [|by apply (state_nodup P HP)|].
    - destruct Hrep as (_ & _ & _ & Hnd & _). do 2 apply NoDup_cons in Hnd as [_ Hnd]. by apply NoDup_fmap_1 in Hnd.
    - intros c. rewrite Hl, (elem_of_state_causes P HP). split; [by intros [? _]|]. intros Hc.
      destruct (state_of_at P HP c q Hc) as [_ [conf Hcc]]. split_and!; [done|by apply (active_here X π)|done|].
      destruct (walking_cause X q cause v (links s) π s c conf) as (d & w & Hd & _ & Hr & _ & Hneg); [by split; eauto|done|done|].
      exists d. split; [done|]. rewrite (rel_left _ _ _ Hr). lia. }
  split_and!; [done|done|]. intros π' Hpass. unfold handle_cause. apply returns_bind.
  destruct Hsh as [Hs Hr]. eapply returns_mono; [eapply returns_with; [|apply (framed_eos (clock_get CLOCK_REALTIME))]|].
  { apply (returns_forall (0 : Z)). intros c. by apply (in_place_eos P _ _ X c s π s (clock_get_ok CLOCK_REALTIME)). }
  intros now s1 [Hs1 Hf1].
  assert (Hwalk : walking X q cause v (links s) π s1).
  { destruct (Hs1 0) as [_ H0']. destruct (in_place_fields P _ _ _ _ _ H0') as (_ & _ & _ & Hr1 & _). split; [|congruence|done|by eapply boundless_frame| |by apply Hf1].
    - split; [|by rewrite Hr1]. intros c. by eapply in_place_self, Hs1.
    - destruct Hf1 as [_ Hvw]. assert (Hx : (view <$> dyns s1) !! cause = Some (view d0)) by (by rewrite Hvw, lookup_fmap, Hd0).
      rewrite lookup_fmap in Hx. destruct (dyns s1 !! cause) as [d1|]; [|done]. exists d1. split; [done|]. unfold view in Hx. simpl in Hx. congruence. }
  unfold state_of_cause. apply returns_bind. eapply returns_bind, returns_deref; [exact Hc0|].
  destruct (cause_ok P HP cause conf0 Hc0) as (ev & He & _). eapply returns_bind, returns_deref; [exact He|].
  assert (event_state ev = q) as Eq by (rewrite (state_of_event P cause conf0 ev Hc0 He) in Hq0; by injection Hq0).
  rewrite Eq. apply returns_ret. apply returns_bind. unfold on_links at 1. apply returns_zoom. rewrite (walking_links _ _ _ _ _ _ _ Hwalk).
  destruct Hrep as (Hh & _ & Hseg & _ & Hnn). eapply returns_load; [by replace (q + ACTIVE_CAUSES + HEAD) with (q + ACTIVE_CAUSES) by (unfold HEAD; lia)|].
  replace (put_links (links s) s1) with s1 by (destruct Hwalk as [_ _ _ _ _ <-]; by destruct s1).
  eapply returns_mono.
  { apply (walk_ok X q cause v (links s) conf0 now.2 π' Hdv Hc0 Hq0 l [] fuel π s1 Hwalk Hseg Hnn); [|done|].
    - intros c Hc. by apply Hl in Hc as [? _].
    - by rewrite Hperm. }
  intros b s2 [-> Hw2]. split_and!; [done|apply Hw2..].
Qed.
End Deliver.
