(* ===== verification/EngineThms.v ===== *)
(** What the engine guarantees. *)

From Stdlib Require Import SpecFloat Sorted.
From stdpp Require Import functions.
From S2P Require Import Prelude Links Queue QueueSq Calendar Ubx UbxInv UbxDemo EngValue Engine EngineInv EngineCause EngineTrack EngineMove EngineSay EngineSpec EngineReact EngineRun EngineDeliver EngineDemo.

(** * The demonstration engine while it runs *)

Definition demo_running : engine_s demo_os :=
  match profile_main demo_profile demo_engine with Done (_, s) => s | _ => demo_engine end.
Definition demo_place : place := go demo_profile (Some (100, 200)) (nowhere (orders demo_engine)).

Lemma demo_started : profile_main demo_profile demo_engine = Done (true, demo_running).
Proof. vm_compute. reflexivity. Qed.

#[local] Opaque demo_running.

Lemma demo_running_shows : shows demo_profile [] demo_place demo_running.
Proof.
  pose proof (start_running demo_profile demo_profile_ok [] demo_engine demo_parsed) as Hs. unfold returns in Hs. rewrite demo_started in Hs.
  destruct Hs as (u & q & Hd & _ & Hs). assert (Some (u, q) = Some (100, 200)) as [= -> ->] by (rewrite <-Hd; vm_compute; reflexivity). exact Hs.
Qed.

Lemma demo_reached : reached demo_profile [] demo_running.
Proof. eapply reached_start; [apply demo_parsed|apply demo_started]. Qed.

(** Any value is comparable with the thresholds of the demonstration. *)
Lemma demo_judgeable bias n m B : bias_active bias = false → judgeable bias B [above n] (VALUEDOUBLE (double_of m)).
Proof.
  destruct bias as [act z]. simpl. by intros -> [|b [|]] ret Hms.
Qed.

Definition demo_value : request := Value 1100 (VALUEDOUBLE (double_of 51)) None.

Lemma demo_permitted : permitted demo_profile demo_running demo_value.
Proof.
  split; [by vm_compute|]. split; [done|]. exists (watch 500 0 0 50 humidity), (event_with 200 0 1 [1000; 1100]).
  destruct (dyns demo_running !! 1100) as [d|] eqn:Hd; [|by vm_compute in Hd]. exists d, 200.
  assert (measurement_counter d = -1) as Hm.
  { assert (measurement_counter <$> dyns demo_running !! 1100 = Some (-1)) as Hx by (vm_compute; reflexivity). rewrite Hd in Hx. by injection Hx. }
  split_and!; [by vm_compute..|left; by vm_compute|done|by rewrite Hm|by split; [eexists|]|done|by apply demo_judgeable].
Qed.

(** * Properties *)

(** C3: One request that is permitted, from any state the specification
    describes, returns without fault, and the engine then is where the
    specification says: which purpose, state and global states are current,
    which causes are live, how many measurements each has left, its zero point,
    how long its thresholds have held, and the next order of each event.
    Permitted are stopping and continuing the profile at any time, and while it
    runs a value for one active cause that has measurements left, and its date
    timer. The value has the type of the sense, is no array, and the thresholds
    of the cause can be computed with it ([judgeable]: no conversion is out of
    range, no threshold meets another type); an event that transfers logs needs
    a connector. The profile is in order ([profile_ok]). Of the world
    ([EngineLaws]) it takes that timers and drivers start and that the eight
    bytes for a global state are there; memory for reports may run out. *)
Theorem engine_follows_profile {E} `{EngineLaws E} P X π (s : engine_s E) r : profile_ok P → shows P X π s → permitted P s r →
  returns (perform P r) s (λ _ s', ∃ π', transition P (run_state s) π r (run_state s') π' ∧ shows P X π' s').
Proof. intros HP. by apply perform_ok. Qed.

Lemma engine_follows_profile_witness : permitted demo_profile demo_running demo_value ∧
  returns (perform demo_profile demo_value) demo_running (λ _ s', ∃ π',
    transition demo_profile (run_state demo_running) demo_place demo_value (run_state s') π' ∧ shows demo_profile [] π' s').
Proof.
  split; [apply demo_permitted|]. apply (engine_follows_profile demo_profile [] demo_place demo_running demo_value);
    [apply demo_profile_ok|apply demo_running_shows|apply demo_permitted].
Defined.

(** C4: A value of a live cause, an array or not, is shown, sent and logged as
    the cause asks for, and then has the effect of the specification, on every
    branch: it is the zero point of a relative cause; it counts down a limited
    number of measurements, and the last one triggers and ends the cause; or the
    thresholds decide, as many values in a row as configured, in the order of the
    event.  When with it all causes of the event are triggered, the event reports
    and rearms its causes, or leads to another state or purpose.  The memory of
    the value and of all reports is given back.  This holds when the thresholds
    can be computed with the value ([judgeable]), an event that transfers logs
    has a connector, and the world keeps to [EngineLaws]. *)
Theorem handle_cause_event_correct {E} `{EngineLaws E} P X c π (s : engine_s E) conf ev w d ts : profile_ok P → running P π →
  in_place P X c s π s → cause_at P !! c = Some conf → event_at P !! cause_event conf = Some ev →
  (sendLog ev = true → connected = true) → dyns s !! c = Some d → (live π).1 !! c = Some w → left w ≠ 0 →
  (decides conf w = true → judgeable (bias_of conf w) (blocks s) (thresholds conf) (sense_value d)) →
  returns (handle_cause_event P c ts) s (handled P X c s π s conf ev w (sense_value d)).
Proof. intros HP. by apply handle_cause_event_ok. Qed.

Lemma demo_cause_dyn c : c ∈ [1000; 1100] → ∃ d, dyns demo_running !! c = Some d ∧
  measurement_counter d = -1 ∧ sense_value d = VALUEDOUBLE (S754_zero false).
Proof.
  intros Hc. assert ((λ d, (measurement_counter d, sense_value d)) <$> dyns demo_running !! c = Some (-1, VALUEDOUBLE (S754_zero false))) as Hx.
  { members Hc; vm_compute; reflexivity. }
  destruct (dyns demo_running !! c) as [d|]; [|done]. exists d. simpl in Hx. injection Hx as -> ->. done.
Qed.

Lemma handle_cause_event_correct_witness : ∃ d w, dyns demo_running !! 1100 = Some d ∧
  returns (handle_cause_event demo_profile 1100 None) demo_running
    (handled demo_profile [] 1100 demo_running demo_place demo_running (watch 500 0 0 50 humidity)
      (event_with 200 0 1 [1000; 1100]) w (sense_value d)).
Proof.
  destruct (demo_cause_dyn 1100) as (d & Hd & Hm & Hv); [set_solver|]. destruct demo_running_shows as [Hs Hrun].
  assert ((live demo_place).1 !! 1100 = Some (fresh (watch 500 0 0 50 humidity))) as Hw by (vm_compute; reflexivity).
  exists d, (fresh (watch 500 0 0 50 humidity)). split; [done|].
  apply (handle_cause_event_correct demo_profile [] 1100 demo_place demo_running);
    [apply demo_profile_ok|exact Hrun|apply Hs|reflexivity|reflexivity|done|exact Hd|exact Hw|done|].
  intros _. rewrite Hv. by apply (demo_judgeable _ 50 0).
Defined.

(** C9: In every state that a run of permitted requests reaches the engine is in
    order, when the world keeps to [EngineLaws].  The queue of
    a state holds exactly its causes that are measured, those of the current
    state and of the global states of the current purpose that have measurements
    left, while the profile runs; every other cause holds no timer and no
    descriptor; no array is left over and no memory but that of the global
    states.  And whatever is permitted then returns, into such a state. *)
Theorem engine_in_order {E} `{EngineLaws E} P X (s : engine_s E) : profile_ok P → reached P X s →
  in_order P X s ∧ ∀ r, permitted P s r → returns (perform P r) s (λ _ s', reached P X s').
Proof.
  intros HP Hr. destruct (reached_shows P HP X s Hr) as [π Hs]. split; [by eapply shows_in_order|]. intros r Hp.
  pose proof (perform_ok P HP X π s r Hs Hp) as Hx. unfold returns in *. destruct (perform P r s) as [[x s']| |] eqn:Ex; [|done..].
  by eapply reached_step.
Qed.

Lemma engine_in_order_witness : reached demo_profile [] demo_running ∧ in_order demo_profile [] demo_running.
Proof. split; [apply demo_reached|]. apply (engine_in_order demo_profile [] demo_running); [apply demo_profile_ok|apply demo_reached]. Defined.




(** Starting a parsed profile goes to the initial state of the initial
    purpose and shows it; the causes of that state and of the purpose's global
    states are measured, all anew, and no others; the back end is pinged.  If
    the initial purpose or state does not exist, no engine runs and nothing is
    measured. *)
Theorem profile_main_correct {E} `{EngineLaws E} P X (s : engine_s E) : profile_ok P → parsed P X s →
  returns (profile_main P) s (λ b s', match destination P INVALID_PURPOSE INVALID_STATE with
    | Some (u, q) => b = true ∧ run_state s' = ENGINE_RUNNING ∧ (∃ o, ping_out o ∧ out s' = out s ++ UiState u q :: o) ∧
        shows P X (go P (Some (u, q)) (nowhere (orders s))) s' ∧
        ∀ c, (live (go P (Some (u, q)) (nowhere (orders s)))).1 !! c =
          if bool_decide (state_of P c = Some q) || in_states P (globals_of P u) c then fresh <$> cause_at P !! c else None
    | None => b = false ∧ out s' = out s ∧ run_state s' = run_state s ∧ ∀ c, in_place P X c s' (nowhere (orders s)) s'
    end).
Proof.
  intros HP Hp. eapply returns_mono; [apply (returns_forall (0 : Z)); intros c; apply (profile_main_ok P HP X c s); [apply Hp..|by apply parsed_in_place]|].
  intros b s' Hall. cbv beta in Hall. destruct (destination P _ _) as [[u q]|] eqn:Hd.
  - destruct (Hall 0) as (m & d & -> & Hπ & o & Ho & Hs). destruct (in_place_fields P _ _ _ _ _ Hs) as (_ & _ & _ & Hr & Hout & _). simpl in Hr, Hout.
    destruct (destination_some P _ _ u q Hd) as [Hu Hq], (go_where P u q (nowhere (orders s))) as [E1 E2].
    split_and!; [done|done|by exists o| |].
    + split; [|rewrite Hr; split; [done|by rewrite E1|by rewrite E2]]. intros c. destruct (Hall c) as (? & ? & _ & _ & ? & _ & Hsc). by eapply in_place_self.
    + intros c. unfold go, go_purpose, go_state, nowhere. cbn [at_state at_purpose at_globals live].
      rewrite (proj2 (Z.eqb_neq NULL q)) by congruence. cbn [at_state at_purpose at_globals live].
      rewrite (proj2 (Z.eqb_neq NULL u)) by congruence. cbn [live]. unfold leave_all. cbn [foldl]. rewrite enter_all_lookup, enter_lookup by done. simpl. by destruct (bool_decide _), (in_states _ _ _).
  - destruct (Hall 0) as (m & d & -> & Hs). destruct (in_place_fields P _ _ _ _ _ Hs) as (_ & _ & _ & Hr & Hout & _). simpl in Hr, Hout.
    split_and!; [done..|]. intros c. destruct (Hall c) as (? & ? & _ & Hsc). by eapply in_place_self.
Qed.

Lemma profile_main_correct_witness : parsed demo_profile [] demo_engine ∧
  returns (profile_main demo_profile) demo_engine (λ b s', match destination demo_profile INVALID_PURPOSE INVALID_STATE with
    | Some (u, q) => b = true ∧ run_state s' = ENGINE_RUNNING ∧ (∃ o, ping_out o ∧ out s' = out demo_engine ++ UiState u q :: o) ∧
        shows demo_profile [] (go demo_profile (Some (u, q)) (nowhere (orders demo_engine))) s' ∧
        ∀ c, (live (go demo_profile (Some (u, q)) (nowhere (orders demo_engine)))).1 !! c =
          if bool_decide (state_of demo_profile c = Some q) || in_states demo_profile (globals_of demo_profile u) c
          then fresh <$> cause_at demo_profile !! c else None
    | None => b = false ∧ out s' = out demo_engine ∧ run_state s' = run_state demo_engine ∧
        ∀ c, in_place demo_profile [] c s' (nowhere (orders demo_engine)) s'
    end).
Proof. split; [apply demo_parsed|]. apply (profile_main_correct demo_profile [] demo_engine); [apply demo_profile_ok|apply demo_parsed]. Defined.

(** Sending an event either reaches the connector, which takes it, or the
    event is put into the log, whether the connector refused it or there was
    none; only without memory for the report is it lost.  The report names the
    profile, purpose, state and event and lists the senses of all causes, and
    sending changes nothing else. *)
Theorem send_event_correct {E} `{EngineLaws E} P X π (s : engine_s E) e : profile_ok P → shows P X π s → is_Some (event_at P !! e) →
  returns (send_event P e) s (λ r s', ∃ o, event_sent P e r o ∧ out s' = out s ++ o ∧ dyns s' = dyns s ∧ shows P X π s').
Proof.
  intros HP [Hs Hrun] [ev He]. eapply returns_mono; [apply (returns_forall (0 : Z)); intros c; by apply (says_send_event P HP X c e ev He)|].
  intros r s' Hall. destruct (Hall 0) as (o & Ho & [Hd _] & Hs'). exists o.
  destruct (in_place_fields P _ _ _ _ _ Hs') as (_ & _ & _ & Hr & Hout & _). simpl in Hr, Hout. split_and!; [done..|].
  split; [|by rewrite Hr]. intros c. destruct (Hall c) as (? & _ & _ & Hsc). by eapply in_place_self.
Qed.

Lemma send_event_correct_witness : returns (send_event demo_profile 500) demo_running (λ r s', ∃ o,
  event_sent demo_profile 500 r o ∧ out s' = out demo_running ++ o ∧ dyns s' = dyns demo_running ∧ shows demo_profile [] demo_place s').
Proof.
  apply (send_event_correct demo_profile [] demo_place demo_running 500); [apply demo_profile_ok|apply demo_running_shows|by eexists].
Defined.

(** The limits on short messages hold over any time, also over resets, since
    they only use the backup registers, when these keep what is written and the
    clock does not go back (see [sms_clock_back]): never are more than max_per_day
    messages allowed on one calendar day, and between two of them
    min_interval_minutes pass. *)
Theorem sms_limited {E} `{RegisterLaws E} (s : engine_s E) l s' : sms_ready s → sms_run s l s' →
  (∀ d, sent_on d l ≤ max_per_day s) ∧ StronglySorted (λ a b, a + min_interval_minutes s * 60 ≤ b) l.
Proof. intros Hr Hl. destruct (sms_run_inv s l s' Hr Hl). by split. Qed.

#[global, refine] Instance demo_register_laws : RegisterLaws demo_os := {
  registers e := (u32 (d_rtc e).1, u32 (d_rtc e).2);
  the_time e := (d_time e).1 `mod` 2 ^ 31;
}.
Proof.
  - intros e i Hi. apply returns_gets. split_and!; [by destruct (i =? 0)|done..].
  - intros e v i Hi Hv. apply returns_modify. cbn [d_rtc d_time]. split; [|done]. destruct (i =? 0); cbn [fst snd]; by rewrite (u32_small v).
  - intros e. apply returns_gets. by split_and!.
Defined.

Definition demo_limited : engine_s demo_os := put_limits 10 2 demo_engine.

Lemma demo_limited_ready : sms_ready demo_limited.
Proof. split; by vm_compute. Qed.

Lemma sms_limited_witness : ∃ s', sms_run demo_limited [1000000] s' ∧
  (∀ d, sent_on d [1000000] ≤ max_per_day demo_limited) ∧
  StronglySorted (λ a b, a + min_interval_minutes demo_limited * 60 ≤ b) [1000000].
Proof.
  destruct (can_send_sms demo_limited) as [[b s']| |] eqn:Es; [|by vm_compute in Es..].
  assert (b = true) as -> by (vm_compute in Es; congruence).
  pose proof (sms_run_try demo_limited [] demo_limited true s' (sms_run_start _) Es) as Hrun. exists s'. split; [exact Hrun|].
  apply (sms_limited demo_limited [1000000] s'); [apply demo_limited_ready|exact Hrun].
Defined.

(** The date timer of a cause keeps its rhythm: when it expires it is set up
    again for the first of the dates one, two, ... intervals behind the last one
    that is not in the past, so that late handling never shifts the
    measurements; nothing else of the engine changes. *)
Theorem cause_timer_keeps_rhythm {E} `{EngineLaws E} P X π (s : engine_s E) c conf d q now : profile_ok P → shows P X π s →
  run_state s = ENGINE_RUNNING → cause_at P !! c = Some conf → state_of P c = Some q → active s q → dyns s !! c = Some d →
  measurement_counter d ≠ 0 → 1000 ≤ measurement_interval conf →
  0 ≤ (cause_time d).1 < 2 ^ 32 - 2 ^ 23 → 0 ≤ (cause_time d).2 < 1000000000 →
  keeps (E := E) (clock_get CLOCK_MONOTONIC) (λ r, r.2 = now) →
  returns (cause_timer_callback_date P c (timer_id d)) s (λ _ s', ∃ id t, 0 ≤ id ∧
    dyns s' = <[c := set_timer_id id (set_cause_time t d)]> (dyns s) ∧
    next_not_past (measurement_interval conf) (cause_time d) now t ∧ out s' = out s ∧ shows P X π s').
Proof.
  intros HP Hsh Hrun Hc Hq Ha Hd Hm Hi Ht1 Ht2 Hnow.
  destruct (active_live P HP X π s c conf q d Hsh Hrun Hc Hq Ha Hd Hm) as (w & Hw & Hl & _). destruct Hsh as [Hs Hr].
  eapply returns_mono; [by eapply (timer_expires P HP (λ t, t = now))|].
  intros v s' (Hs' & id & t & n & Hid & Hd' & -> & Hn). destruct (in_place_fields P _ _ _ _ _ Hs') as (_ & _ & _ & Hr' & Hout & _).
  exists id, t. split_and!; [done..|]. split; [|by rewrite Hr']. intros c'. eapply in_place_self, in_place_quiet; [exact Hs'|].
  intros d'. rewrite Hd', lookup_insert_eq. intros [= <-]. simpl. by eapply in_place_no_array.
Qed.

Lemma demo_clock : keeps (E := demo_os) (clock_get CLOCK_MONOTONIC) (λ r, r.2 = (2000000, 0)).
Proof. intros e X Ho. apply returns_ret. by split. Qed.

Lemma cause_timer_keeps_rhythm_witness : ∃ d, dyns demo_running !! 1100 = Some d ∧
  returns (cause_timer_callback_date demo_profile 1100 (timer_id d)) demo_running (λ _ s', ∃ id t, 0 ≤ id ∧
    dyns s' = <[1100 := set_timer_id id (set_cause_time t d)]> (dyns demo_running) ∧
    next_not_past 10000 (cause_time d) (2000000, 0) t ∧ out s' = out demo_running ∧ shows demo_profile [] demo_place s').
Proof.
  assert ((λ d, (measurement_counter d, cause_time d)) <$> dyns demo_running !! 1100 = Some (-1, (2000010, 0))) as Hx by (vm_compute; reflexivity).
  destruct (dyns demo_running !! 1100) as [d|] eqn:Hd; [|done]. simpl in Hx. injection Hx as Hm Ht. exists d. split; [done|].
  apply (cause_timer_keeps_rhythm demo_profile [] demo_place demo_running 1100 (watch 500 0 0 50 humidity) d 200 (2000000, 0)).
  - apply demo_profile_ok.
  - apply demo_running_shows.
  - by vm_compute.
  - reflexivity.
  - by vm_compute.
  - left. by vm_compute.
  - exact Hd.
  - by rewrite Hm.
  - by vm_compute.
  - rewrite Ht. cbn [fst]. lia.
  - rewrite Ht. cbn [snd]. lia.
  - apply demo_clock.
Defined.

(** * Geofences *)

(** The crossings of the ray, one by one. *)
Lemma count_crossings_xor test prev l b : count_crossings test prev l b = xorb b (count_crossings test prev l false).
Proof.
  revert prev b. induction l as [|p l IH]; intros prev b; simpl; [by destruct b|]. rewrite IH, (IH p (if crosses test p prev then _ else _)).
  by destruct (crosses test p prev), b, (count_crossings test p l false).
Qed.

Lemma count_crossings_snoc test prev l p b :
  count_crossings test prev (l ++ [p]) b = xorb (count_crossings test prev l b) (crosses test p (last_or prev l)).
Proof.
  revert prev b. induction l as [|x l IH]; intros prev b; simpl; [by destruct (crosses _ _ _), b|]. by rewrite IH, last_or_cons.
Qed.

Lemma count_crossings_none test b l : ∀ prev inside, SFltb test.2 prev.2 = b → (∀ c, c ∈ l → SFltb test.2 c.2 = b) →
  count_crossings test prev l inside = inside.
Proof.
  induction l as [|c l IH]; intros prev inside Hp Hl; [done|]. simpl. rewrite IH by set_solver.
  assert (crosses test c prev = false) as ->; [|done]. unfold crosses. destruct test as [tx ty], c as [xi yi], prev as [xj yj]. simpl in *.
  pose proof (Hl (xi, yi) ltac:(by left)) as Hi. simpl in Hi. by rewrite Hp, Hi, Bool.eqb_reflx.
Qed.

(** Whether a point is inside a geofence does not depend on the corner at
    which the polygon starts, and a point that is below all corners, or not below
    any of them, is outside. *)
Theorem point_in_polygon_correct test p poly :
  point_in_polygon test (poly ++ [p]) = point_in_polygon test (p :: poly) ∧
  ∀ b, (∀ c, c ∈ poly → SFltb test.2 c.2 = b) → point_in_polygon test poly = false.
Proof.
  split.
  - destruct poly as [|x l]; [done|]. unfold point_in_polygon. cbn [app].
    rewrite app_comm_cons, last_or_snoc, count_crossings_snoc, !last_or_cons. simpl.
    destruct (crosses test x p), (crosses test p (last_or x l)); simpl; rewrite ?(count_crossings_xor test x l true);
      by destruct (count_crossings test x l false).
  - intros b Hb. destruct poly as [|x l]; [done|]. unfold point_in_polygon. apply (count_crossings_none test b); [|done].
    apply Hb. destruct (exists_last (l := x :: l)) as (l' & y & ->); [done|]. rewrite last_or_snoc. set_solver.
Qed.

Lemma point_in_polygon_correct_witness :
  let d := double_of in let square := [(d 0, d 0); (d 10, d 0); (d 10, d 10)] in
  point_in_polygon (d 1, d 20) (square ++ [(d 0, d 10)]) = point_in_polygon (d 1, d 20) ((d 0, d 10) :: square) ∧
  point_in_polygon (d 1, d 20) square = false.
Proof.
  cbv zeta. split; [apply point_in_polygon_correct|]. apply (point_in_polygon_correct _ (double_of 0, double_of 0) _) with (b := false).
  intros c Hc. members Hc; by vm_compute.
Defined.

(** * Where the code fails *)

(** handle_cause goes on along the queue of a state that the value has made it
    leave: the second event of state 200 is sent after state 300 was entered. *)
Lemma handle_cause_walks_on : match stale_run stale_engine with
  | Done (_, s) => current_state s = 300 ∧ omap told (out s) = [200; PING_MAGIC; 500; 300; 510]
  | _ => False
  end.
Proof. vm_compute. split; reflexivity. Qed.

(** An array is compared with a threshold only if that lists no items. *)
Lemma array_threshold_asserts B thr bias k q b : check_plain_threshold B thr bias (VALUEARRAY k q) = Some b →
  (thr_type thr = isOneOf ∨ thr_type thr = isNotIn) ∧ ∃ n p, thr_value thr = VALUEARRAY n p ∧ n ≤ 0.
Proof.
  unfold check_plain_threshold. simpl. destruct (thr_type thr); try done; intros Hb; (split; [auto|]);
    destruct (thr_value thr) as [| | | | | |n p|] eqn:Et; try done; exists n, p; (split; [done|]); simpl in Hb;
    destruct (Z.leb_spec n 0) as [|Hn]; try lia; destruct (B !! p) as [items|]; try done; simpl in Hb;
    (destruct (Z.to_nat n) as [|m] eqn:Em; [lia|]); simpl in Hb; by rewrite Et in Hb.
Qed.

(** With logs to transfer but no connector, send_log follows a NULL pointer. *)
Lemma send_log_no_connector {E} `{EngineOs E} (s : engine_s E) url e1 r e2 : have_logs (e_os s) = Done (true, e1) →
  select_connector 0 e1 = Done ((r, None), e2) → send_log url s = Fault.
Proof. intros Hl Hc. unfold send_log, mbind, M_bind, eos, zoom. rewrite Hl. simpl. unfold mbind, M_bind, zoom. simpl. by rewrite Hc. Qed.

(** A message goes at once when the clock was set back behind the last one,
    whatever the interval. *)
Lemma sms_clock_back : match can_send_sms (put_limits 10 2 (put_eos (DemoOs 8 (1000000, 0) [] [] (1, 1000060)) demo_engine)) with
  | Done (b, _) => b = true
  | _ => False
  end.
Proof. vm_compute. reflexivity. Qed.
